(* ===== verification/_CoqProject ===== *)
-Q . S2P
Prelude.v
JsMap.v
JsBytes.v
JsNumber.v
JsString.v
JsText.v
Utf8.v
Encoding.v
Layout.v
RangeChunker.v
Windows.v
Pinned.v
Canonical.v
Response.v
Multipart.v
Challenge.v
FrField.v
Curve.v
Msm.v
Kzg.v
KzgProof.v
RootTable.v
SessionBatch.v
BatchProof.v
Sessions.v
Agreement.v
Integrity.v
CoreV3.v
V3Chunks.v
V3Integrity.v
V3Session.v
V3Parse.v
Packing.v
Allocation.v
Sparse.v
Planner.v
FileTable.v
CoreLayout.v
Effects.v
V3Execute.v
V3Agreement.v
Settlement.v
Checkpoint.v
Recovery.v
Wire.v
WireProof.v
WireCore.v
HonestWindow.v
Pool.v
Engine.v
HttpTransport.v
Provider.v
Bundle.v
Uploads.v
Pipeline.v
Router.v
Transactions.v
KzgBatch.v
KzgScheduler.v
