(* ===== verification/Prelude.v ===== *)
(** * Polystore: a verification of the storage client and its core library

    Polystore stores files at providers.  A file is cut into MDUs of 8 MiB, 64 blobs
    of 128 KiB each; every 32-byte scalar of a blob carries 31 bytes of the file.  An
    MDU is striped over [k] data slots and [m] parity slots, each held by a provider.
    MDU 0 of a deal holds the root table and the file table, the witness MDUs that
    follow hold the commitments of all blobs, and then come the user MDUs.  The
    website (src/polystore-website) prepares, uploads, retrieves, checks and pays for
    them.  The Rust crate src/polystore_core, which the website runs as WebAssembly and
    the chain and the providers share, commits to blobs, opens the commitments, draws the
    challenges of a retrieval and verifies the answers.  This library models the client,
    the parts of the crate that retrievals rest on, and the handlers of the provider's
    daemon (src/polystore_gateway) to which the website uploads.

    ** How the sources are modelled

    Pure functions are functions; code that throws returns a [result] with the message
    of the error.  [Number]s are integers with the rounding of binary64 written out
    (JsNumber), [bigint]s are [Z], byte arrays are lists (JsBytes), [Map]s are
    association lists in insertion order (JsMap).  Schedulers and pools, whose callbacks
    interleave, are step relations in which the code between two awaits is one step.
    Async functions whose course depends on a store, a wallet, a provider or the chain
    are trees of effects (Effects), run against an environment that is a relation, in
    which effects may fail and the tab may close between any two of them.  Code that is
    not part of the sources ([fetch], JSON and form parsers, SHA-256, the bech32 package,
    the curve and the hash trees of the Rust packages, the JSON decoder of Go, the file
    system) is an argument: classes [ScalarField], [Curve], [MerkleTrees] and [Bech32] hold the
    operations, [CurveLaws] and [MerkleLaws] what their packages document, with instances
    that show the laws can hold.  Class [Build] says whether the Rust code is built with
    debug assertions.  The client takes the core library as an argument too
    (class [RetrievalCrypto]); the theorems on both put the library's model in its place.

    ** Files

    Shared: this file (results, their notation and tactics, tilings, sorting), JsMap,
    JsBytes, JsNumber, JsString, JsText, Utf8, Encoding (hex and base64 of
    lib/retrieval.ts), Canonical (big-endian and length-prefixed encodings), Response
    (HTTP responses and bounded reads), Effects.

    The data format:
    - Layout: domain/polyfsLayout.ts; RangeChunker: lib/rangeChunker.ts;
    - Packing: the encoder of components/FileSharder.tsx, the decoder of
      lib/retrievalFlow.ts and the way to the output in hooks/useFetch.ts;
    - Allocation: the allocation and padding checks of lib/retrievalFlow.ts;
    - FileTable: lib/polyfsLocal.ts and lib/polyfsPath.ts;
    - Sparse: lib/upload/sparseArtifacts.ts and sparseTransport.ts.

    Retrieval:
    - Windows, Pinned and Sessions: planning, generations and frozen sessions of
      lib/retrieval.ts;
    - Multipart and Wire: the answers of lib/retrievalWire.ts, from the multipart body to
      the verified bytes; WireProof: the batch that goes to the core library;
    - V3Chunks, V3Session and V3Parse: lib/retrievalV3.ts and the chunk checks of
      lib/retrievalWire.ts; V3Execute: lib/retrievalV3Flow.ts, which uses Packing;
    - Recovery: lib/retrievalRecovery.ts, which uses Packing and FileTable;
    - Transactions: lib/retrievalTransactions.ts; Settlement: lib/retrievalSettlement.ts
      and retrievalV3Settlement.ts; Checkpoint: lib/retrievalCheckpoint.ts and its use;
    - Router: lib/transport/.

    The core library (src/polystore_core/src):
    - Challenge: retrieval_challenge.rs; CoreV3: retrieval_v3.rs; Integrity:
      integrity_v3.rs; each with its entry points in wasm.rs;
    - FrField: the field of utils.rs; Curve: what the curve packages provide;
    - Msm and Kzg: kzg.rs, the bucket method apart; KzgProof and RootTable: its theory;
    - SessionBatch: session_batch.rs; BatchProof: its theory;
    - CoreLayout: layout.rs.

    Both sides together: Agreement and V3Agreement (sessions and challenges),
    V3Integrity (verified chunks), WireCore and HonestWindow (verified windows, with the
    entry points of wasm.rs they use).

    Upload:
    - Planner: lib/upload/planner.ts; KzgBatch and KzgScheduler:
      lib/upload/userMduKzgBatch.ts and userMduKzgScheduler.ts;
    - Pool, Engine, Uploads and Pipeline: lib/upload/engine.ts, the scheduler shared by
      its pools, its operations, what they promise, and pipelined uploads;
    - HttpTransport: lib/upload/httpTransport.ts;
    - Provider: the handlers of single artifacts of src/polystore_gateway/main.go, and the
      publication of files and generations (generation_lifecycle.go, staged_upload.go,
      manifest_root.go, upload_root_preflight.go); Bundle: sp_upload_bundle.go.

    Other paths are relative to src/polystore-website/src.

    ** What the theorems show

    - A retrieval returns the bytes of the file: planning, gathering, decoding and
      writing compose to the requested range ([retrieval_returns_file_bytes]), windows
      cover it, and the decoder accepts only what the encoder makes.
    - The bytes of a window are accepted only with a commitment that the pinned generation
      holds at the leaf that was asked for, at the point the session's seed draws, and
      with openings of the root table and of the blob that verify, or else whose
      coefficient in the batch is the one value that hides them
      ([accepted_window_authentic]); and the proofs the core library computes for the
      blobs of a generation are accepted as soon as the coefficients of their batch are
      found ([honest_window_accepted]).
    - The pieces of that: openings verify ([kzg_opening_verifies]), whatever the target
      and its arithmetic ([kzg_targets_agree], [msm_pippenger_correct]), for windows of at
      most the 16 bits that the code asserts; one bad opening
      never hides in a batch ([batch_detects_bad_opening]); proofs of the root table are
      computed exactly for its roots ([root_table_proof_verifies]); the batch fits its
      format and is read back ([session_batch_roundtrip]); multipart bodies are accepted
      only when framed, and always when framed ([multipart_sound], [multipart_roundtrip]).
    - Client and library agree: the challenge context binds a session
      ([challenge_context_binds]), the library challenges the blobs that were planned
      ([planned_blobs_challenged], [v3_challenges_planned]), its plans are the client's
      ([v3_binding_agrees]), accepted V3 sessions are consistent ([v3_session_accepted])
      and verified chunks are those of the integrity tree ([v3_verified_chunk_committed]).
    - A V3 session acknowledges a slot only for durable output and, when it succeeds,
      the output is complete, whatever interrupted earlier runs
      ([v3_acknowledges_durable_output], [v3_execution_complete]); the plans of its
      chunks and obligations are exact and its fetches bounded.
    - Recovery confirms only [k] verified shards of different slots after the MDU they
      give was flushed, and succeeds exactly when [k] active slots answer
      ([recovery_confirms_durable], [recovery_completes]); the commitments it checks
      against are those the uploader wrote ([reader_serves_written_commitments]).
    - A payment is never sent again while an earlier one may be live, and a settled one
      is final ([no_replacement_payment], [settled_payment_is_final]).  A wave of
      settlement requests completes ([settlement_wave_completes]); an acknowledged session
      is kept until its provider is paid, across crashes ([acknowledged_payment_retained]),
      and an undisturbed run pays all ([undisturbed_run_settles]).
    - Uploads that report success delivered every artifact, uploads end whatever is
      answered, with success or the message of a rejection, and pipelined uploads lose no
      wake-up and never stall ([uploadStriped_delivers], [uploads_settle],
      [pipelined_upload_delivers], [pipeline_never_stalls]); a provider that accepts a
      bundle has stored what the bundle carries, and never replaces a file
      ([bundle_delivers]).
    - The KZG scheduler settles every task once, with its own result, and drains; a
      batch gives the commitments its MDUs have alone.
    - The file table is read back as written and has one encoding, reconstruction
      inverts striping, parsed generations are well formed, and the two computations of
      a layout agree; the website and the core library have the same policy on paths and
      records ([path_policies], [record_policies]).
    - The router reports its attempts faithfully and reaches a backend that works.
    - Some theorems show where the code falls short: an empty rejection message counts
      as success in the pools, the second attempt of a sparse post may leave a short
      shard at the provider ([sparse_retry_incomplete]), a malformed neighbour rejects a valid task of the KZG scheduler, and a
      bundle rounds the id of its deal.

    ** Bounds and fuel

    Loops that are not structural take fuel and give [OUT_OF_FUEL] when it is used up.
    The fuel is what the loop can use at most: the bytes left for the encoder, the
    decoder, the range planner and the reader of commitments, each pass of which moves
    at least one; the bits of the interval for bisection; the number of chunks of a
    slot for V3 execution; the number of candidate windows for recovery, each pass of
    which opens at least one.  Loops that halve a count (levels of a tree, lengths of
    its paths, passes of the Fourier transform) take the count itself.  The theorems show
    that the definitions never return [OUT_OF_FUEL] or give the result outright.  Hashes
    are drawn again at most as often as the library does, 256 times, and give its error
    after that.

    ** Not modelled

    React components and hooks other than the functions named above; the API clients;
    the KZG backends of the website (GPU shaders, worker messages); the origin-private
    file system; clocks, progress reports and diagnostics.  Of the Rust crate: erasure
    coding, the builder of MDU 0, the text format of the trusted setup, the exports for
    the GPU and the C interface.  The Go daemon other than the upload handlers, the chain
    (Cosmos SDK modules) and the Solidity bridge rest on frameworks outside the sources.
    The handlers are modelled for one request at a time: what other requests do to the
    directories shows only as operations that fail.
    Soundness of a commitment is not claimed: that a provider cannot open one to two
    values is a hardness assumption on the curve, and the theorems on accepted windows
    speak of the equations and paths that were checked.  The builder of MDU 0,
    checkpoints of V3 retrievals, append bases and the generation bootstrap of uploads
    are the parts to model next. *)

From stdpp Require Export base tactics list numbers strings gmap pretty sorting.
From Stdlib Require Export ZArith Lia QArith.

#[export] Set Default Goal Selector "!".

(** * Results: code that may throw *)

Declare Scope js_scope.
Delimit Scope js_scope with js.

(** The outcome of code that either returns a value or throws an [Error]
    with a message. *)
Inductive result (A : Type) : Type :=
| Ok (a : A)
| Err (msg : string).
Arguments Ok {A} a.
Arguments Err {A} msg.

Definition bind {A B} (r : result A) (f : A -> result B) : result B :=
  match r with
  | Ok a => f a
  | Err e => Err e
  end.

Notation "'let!' x ':=' c 'in' k" := (bind c (fun x => k))
  (at level 10, x pattern, c at level 100, k at level 200) : js_scope.

(** [if (b) throw new Error(msg)] followed by the rest of the body. *)
Notation "'throw_if' b 'with' msg 'else' k" :=
  (if b then Err msg else k)
  (at level 10, b at level 100, msg at level 100, k at level 200) : js_scope.

Open Scope js_scope.

Definition is_ok {A} (r : result A) : bool :=
  match r with Ok _ => true | Err _ => false end.

(** [xs.map(f)] for an [f] that may throw: the first throw wins. *)
Fixpoint mapR {A B} (f : A -> result B) (l : list A) : result (list B) :=
  match l with
  | [] => Ok []
  | x :: l => let! y := f x in let! ys := mapR f l in Ok (y :: ys)
  end.

(** [for (let j = i; j < i + n; j++) body(j)] for a body that may throw. *)
Fixpoint for_range (n : nat) (i : Z) (body : Z -> result unit) : result unit :=
  match n with
  | O => Ok tt
  | S n => let! _ := body i in for_range n (i + 1) body
  end.

(** The outcome of a loop whose fuel ran out.  The theorems show that it is
    never returned with the fuel the definitions give. *)
Definition OUT_OF_FUEL : string := "out of fuel".

Lemma Ok_inj {A} (a b : A) : Ok a = Ok b -> a = b.
Proof. by intros [= ->]. Qed.

Lemma bind_Ok {A B} (r : result A) (f : A -> result B) b :
  bind r f = Ok b <-> exists a, r = Ok a /\ f a = Ok b.
Proof.
  destruct r; simpl.
  - split; [by eauto | by intros (? & [= <-] & ?)].
  - split; [done | by intros (? & ? & ?)].
Qed.

Lemma bind_Err {A B} (r : result A) (f : A -> result B) e :
  bind r f = Err e <-> r = Err e \/ exists a, r = Ok a /\ f a = Err e.
Proof.
  destruct r; simpl.
  - split; [by eauto | by intros [? | (? & [= <-] & ?)]].
  - split; [intros [= <-]; by left | by intros [[= <-] | (? & ? & ?)]].
Qed.

Lemma mapR_Ok {A B} (f : A -> result B) l ys :
  mapR f l = Ok ys <-> Forall2 (fun x y => f x = Ok y) l ys.
Proof.
  revert ys; induction l as [|x l IH]; intros ys; simpl.
  - split; [intros [= <-]; constructor | inversion 1; done].
  - rewrite bind_Ok. setoid_rewrite bind_Ok. split.
    + intros (y & Hy & ys' & Hys & [= <-]). constructor; [done | by apply IH].
    + inversion 1; subst. eexists; split; [done|]. eexists; split; [by apply IH | done].
Qed.

Lemma for_range_Ok n i body :
  for_range n i body = Ok tt <-> forall j, (i <= j < i + Z.of_nat n)%Z -> body j = Ok tt.
Proof.
  revert i; induction n as [|n IH]; intros i; cbn [for_range].
  - split; [intros _ j Hj; lia | done].
  - rewrite bind_Ok. split.
    + intros ([] & Hi & Hn) j Hj. rewrite IH in Hn.
      destruct (Z.eq_dec j i) as [->|]; [done | apply Hn; lia].
    + intros Hall. exists tt. split; [apply Hall; lia|]. apply IH. intros j Hj. apply Hall. lia.
Qed.

Lemma for_range_Err n i body e : for_range n i body = Err e -> exists j, body j = Err e.
Proof.
  revert i; induction n as [|n IH]; intros i; cbn [for_range]; [done|].
  intros [He|(a & _ & He)]%bind_Err; [by exists i | by eapply IH].
Qed.

(** An invariant of a step relation holds of everything it reaches. *)
Lemma rtc_preserves {A} (R : relation A) (P : A -> Prop) x y :
  (forall x y, R x y -> P x -> P y) -> rtc R x y -> P x -> P y.
Proof. intros HR. induction 1; eauto. Qed.

Lemma NoDup_map_inj {A B} (f : A -> B) l x y :
  NoDup (map f l) -> x ∈ l -> y ∈ l -> f x = f y -> x = y.
Proof.
  intros Hnd Hx Hy He. apply list_elem_of_lookup in Hx as [i Hi].
  apply list_elem_of_lookup in Hy as [j Hj].
  assert (i = j) as ->; [|congruence].
  eapply NoDup_lookup; [exact Hnd| |]; change (map f l) with (f <$> l); rewrite list_lookup_fmap.
  - by rewrite Hi.
  - by rewrite Hj, He.
Qed.

Lemma sum_list_app (l1 l2 : list nat) : sum_list (l1 ++ l2) = (sum_list l1 + sum_list l2)%nat.
Proof. induction l1; cbn; lia. Qed.

(** * Automation *)

Create HintDb js discriminated.
Create Rewrite HintDb js.


(** Follow a successful run: open every [let!] and discard every guard that
    would have thrown. *)
Ltac ok_step H :=
  match type of H with
  | bind ?r _ = Ok _ =>
      let a := fresh "v" in let Ha := fresh "Hv" in
      apply bind_Ok in H as (a & Ha & H)
  | (if ?b then Err _ else _) = Ok _ =>
      let Hb := fresh "Hg" in destruct b eqn:Hb; [discriminate H|]
  | Ok _ = Ok _ => injection H as H; subst
  | Err _ = Ok _ => discriminate H
  end.
Ltac ok_steps H := repeat (ok_step H; cbv beta in H).

(** Turn boolean tests on [Z] in the context into propositions [lia] reads. *)
Ltac bool_to_prop :=
  repeat match goal with
  | H : (_ && _)%bool = true |- _ => apply andb_prop in H as [? ?]
  | H : (_ || _)%bool = false |- _ => apply orb_false_elim in H as [? ?]
  | H : negb _ = true |- _ => apply negb_true_iff in H
  | H : negb _ = false |- _ => apply negb_false_iff in H
  | H : (_ =? _)%Z = true |- _ => apply Z.eqb_eq in H
  | H : (_ =? _)%Z = false |- _ => apply Z.eqb_neq in H
  | H : (_ <? _)%Z = true |- _ => apply Z.ltb_lt in H
  | H : (_ <? _)%Z = false |- _ => apply Z.ltb_ge in H
  | H : (_ <=? _)%Z = true |- _ => apply Z.leb_le in H
  | H : (_ <=? _)%Z = false |- _ => apply Z.leb_gt in H
  end.

(** [lia] with quotients and remainders unfolded to their defining equations. *)
Ltac div_lia := Z.div_mod_to_equations; nia.
Ltac div_lia_linear := Z.div_mod_to_equations; lia.

(** Quotient and remainder of a number given in base [d]. *)
Lemma div_base q r d : (0 <= r < d -> (q * d + r) / d = q)%Z.
Proof. intros. rewrite Z.div_add_l, (Z.div_small r) by lia. lia. Qed.
Lemma mod_base q r d : (0 <= r < d -> (q * d + r) mod d = r)%Z.
Proof. intros. by rewrite Z.add_comm, Z.mod_add, Z.mod_small by lia. Qed.

(** * Tilings

    [tiles pos len start l stop]: the pieces of [l], each with a position and a
    length, lie end to end from [start] to [stop] and none is empty. *)

Fixpoint tiles {A} (pos len : A -> Z) (start : Z) (l : list A) (stop : Z) : Prop :=
  match l with
  | [] => start = stop
  | x :: l => pos x = start /\ (0 < len x)%Z /\ tiles pos len (start + len x) l stop
  end.

Section tiles.
Context {A : Type} (pos len : A -> Z).
Local Open Scope Z_scope.

Lemma tiles_app a l1 b l2 c :
  tiles pos len a l1 b -> tiles pos len b l2 c -> tiles pos len a (l1 ++ l2) c.
Proof.
  revert a; induction l1 as [|x l1 IH]; intros a; simpl; [by intros ->|].
  intros (? & ? & ?) ?. split_and!; [done | done | by apply IH].
Qed.

Lemma tiles_le a l b : tiles pos len a l b -> a <= b.
Proof.
  revert a; induction l as [|x l IH]; intros a; simpl; [lia|].
  intros (_ & ? & ?%IH). lia.
Qed.

(** Every point of the interval lies in a piece. *)
Lemma tiles_cover a l b o :
  tiles pos len a l b -> a <= o < b -> exists x, x ∈ l /\ pos x <= o < pos x + len x.
Proof.
  revert a; induction l as [|x l IH]; intros a; simpl; [lia|].
  intros (Hp & ? & Ht) Ho. destruct (Z.lt_ge_cases o (a + len x)).
  - exists x. split; [left | lia].
  - destruct (IH _ Ht) as (y & ? & ?); [lia|]. exists y. split; [by right | done].
Qed.

Lemma tiles_within a l b x :
  tiles pos len a l b -> x ∈ l -> a <= pos x /\ 0 < len x /\ pos x + len x <= b.
Proof.
  revert a; induction l as [|y l IH]; intros a; simpl; [by intros _ ?%elem_of_nil|].
  intros (Hp & ? & Ht) [->|Hin]%elem_of_cons.
  - apply tiles_le in Ht. lia.
  - destruct (IH _ Ht Hin) as (? & ? & ?). lia.
Qed.

(** No point lies in two pieces. *)
Lemma tiles_disjoint a l b i j x y o :
  tiles pos len a l b -> l !! i = Some x -> l !! j = Some y ->
  pos x <= o < pos x + len x -> pos y <= o < pos y + len y -> i = j.
Proof.
  revert a i j; induction l as [|z l IH]; intros a i j; simpl; [done|].
  intros (Hp & ? & Ht) Hi Hj Hx Hy.
  destruct i as [|i], j as [|j]; simpl in *; simplify_eq.
  - done.
  - destruct (tiles_within _ _ _ y Ht) as (? & ? & ?); [by eapply list_elem_of_lookup_2 | lia].
  - destruct (tiles_within _ _ _ x Ht) as (? & ? & ?); [by eapply list_elem_of_lookup_2 | lia].
  - f_equal. by eapply IH.
Qed.

End tiles.

(** * Sorting

    [xs.sort((a, b) => key(a) - key(b))] is stable, so its result is the one of
    insertion sort. *)

Section sort_on.
Context {A : Type} (key : A -> Z).
Local Open Scope Z_scope.

Fixpoint insert_on (x : A) (l : list A) : list A :=
  match l with
  | [] => [x]
  | y :: l' => if key y <? key x then y :: insert_on x l' else x :: l
  end.
Fixpoint sort_on (l : list A) : list A :=
  match l with [] => [] | x :: l => insert_on x (sort_on l) end.

(** Each key is at most the later ones. *)
Fixpoint ascending (l : list A) : Prop :=
  match l with [] => True | x :: l => Forall (fun y => key x <= key y) l /\ ascending l end.

Lemma insert_on_perm x l : insert_on x l ≡ₚ x :: l.
Proof.
  induction l as [|y l IH]; simpl; [done|]. case_match; [|done].
  rewrite IH. apply perm_swap.
Qed.
Lemma sort_on_perm l : sort_on l ≡ₚ l.
Proof. induction l as [|x l IH]; simpl; [done|]. by rewrite insert_on_perm, IH. Qed.

Lemma insert_on_ascending x l : ascending l -> ascending (insert_on x l).
Proof.
  induction l as [|y l IH]; simpl; [by repeat constructor|].
  intros [Hy Hl]. destruct (Z.ltb_spec (key y) (key x)); simpl.
  - split; [|by apply IH]. rewrite insert_on_perm. constructor; [lia | done].
  - split; [|done]. constructor; [lia|]. eapply Forall_impl; [exact Hy|]. simpl. lia.
Qed.
Lemma sort_on_ascending l : ascending (sort_on l).
Proof. induction l; simpl; [done|]. by apply insert_on_ascending. Qed.

End sort_on.

(** * Strictly ascending lists of integers *)

Lemma ascending_NoDup (l : list Z) : StronglySorted Z.lt l -> NoDup l.
Proof.
  induction 1 as [|x l Hl IH Hx]; constructor; [|done].
  intros Hin. rewrite Forall_forall in Hx. specialize (Hx x Hin). lia.
Qed.

(** Such a list is determined by its elements. *)
Lemma ascending_eq (l1 l2 : list Z) :
  StronglySorted Z.lt l1 -> StronglySorted Z.lt l2 -> (forall x, x ∈ l1 <-> x ∈ l2) -> l1 = l2.
Proof.
  intros H1 H2 Hin. apply (StronglySorted_unique_strong Z.lt); [intros; lia | done | done |].
  apply NoDup_Permutation; [by apply ascending_NoDup.. | done].
Qed.

Lemma ascending_seqZ m n : StronglySorted Z.lt (seqZ m n).
Proof.
  destruct (Z.le_gt_cases 0 n); [|rewrite seqZ_nil by lia; constructor].
  replace n with (Z.of_nat (Z.to_nat n)) by lia. generalize (Z.to_nat n) as k. intros k.
  revert m; induction k as [|k IH]; intros m; [constructor|].
  rewrite seqZ_cons by lia. constructor.
  - replace (Z.pred (Z.of_nat (S k))) with (Z.of_nat k) by lia. apply IH.
  - apply Forall_seqZ. lia.
Qed.

Lemma ascending_filter (P : Z -> Prop) `{!forall x, Decision (P x)} l :
  StronglySorted Z.lt l -> StronglySorted Z.lt (filter P l).
Proof.
  induction 1 as [|x l Hl IH Hx]; [constructor|]. rewrite filter_cons. case_decide; [|done].
  constructor; [done|]. apply Forall_forall. intros y [_ Hy]%list_elem_of_filter.
  rewrite Forall_forall in Hx. by apply Hx.
Qed.

Lemma elem_of_concat_map {A} (f : Z -> list A) l x :
  x ∈ concat (map f l) <-> exists u, u ∈ l /\ x ∈ f u.
Proof.
  induction l as [|u l IH]; cbn [map concat].
  - split; [by intros ?%elem_of_nil | by intros (? & ?%elem_of_nil & _)].
  - rewrite elem_of_app, IH. split.
    + intros [?|(v & ? & ?)]; [exists u; split; [left | done] | exists v; split; [by right | done]].
    + intros (v & [->|?]%elem_of_cons & ?); [by left | right; by exists v].
Qed.

(** A concatenation of ascending segments, in ascending order. *)
Lemma ascending_concat (f : Z -> list Z) l :
  StronglySorted Z.lt l -> (forall u, u ∈ l -> StronglySorted Z.lt (f u)) ->
  (forall u v x y, u ∈ l -> v ∈ l -> (u < v)%Z -> x ∈ f u -> y ∈ f v -> (x < y)%Z) ->
  StronglySorted Z.lt (concat (map f l)).
Proof.
  induction 1 as [|u l Hl IH Hu]; intros Hf Hlt; [constructor|]. cbn [map concat].
  apply StronglySorted_app_2.
  - intros x y Hx (v & Hv & Hy)%elem_of_concat_map.
    rewrite Forall_forall in Hu. by apply (Hlt u v x y); [left | right | apply Hu | |].
  - apply Hf. left.
  - apply IH; [intros v Hv; apply Hf; by right|].
    intros v w x y Hv Hw. apply Hlt; by right.
Qed.
