(* ===== verification/JsMap.v ===== *)
(** * JavaScript [Map]s

    A [Map] iterates in insertion order and an update of a present key keeps its
    place, so a [Map] is an association list without duplicate keys. *)

From S2P Require Import Prelude.

Section js_map.
Context {K V : Type} `{EqDecision K}.

Fixpoint mget (m : list (K * V)) (k : K) : option V :=
  match m with
  | [] => None
  | (k', v) :: m => if decide (k' = k) then Some v else mget m k
  end.

Fixpoint mset (m : list (K * V)) (k : K) (v : V) : list (K * V) :=
  match m with
  | [] => [(k, v)]
  | (k', v') :: m => if decide (k' = k) then (k', v) :: m else (k', v') :: mset m k v
  end.

Definition mhas (m : list (K * V)) (k : K) : bool :=
  match mget m k with Some _ => true | None => false end.

Definition mdelete (m : list (K * V)) (k : K) : list (K * V) :=
  filter (fun kv => kv.1 <> k) m.

Lemma mget_Some_elem m k v : mget m k = Some v -> (k, v) ∈ m.
Proof.
  induction m as [|[k' v'] m IH]; simpl; [done|].
  case_decide; [intros [= <-]; subst; left | intros; right; auto].
Qed.

Lemma mget_None m k : mget m k = None <-> k ∉ m.*1.
Proof.
  induction m as [|[k' v'] m IH]; simpl.
  - split; [intros _ Hin; by apply elem_of_nil in Hin | done].
  - case_decide; [subst|].
    + split; [done | intros Hin; destruct Hin; left].
    + rewrite IH, not_elem_of_cons. split; [intros ?; by split | by intros [_ ?]].
Qed.

Lemma mget_elem m k v : NoDup m.*1 -> (k, v) ∈ m -> mget m k = Some v.
Proof.
  induction m as [|[k' v'] m IH]; simpl; [by intros _ ?%elem_of_nil|].
  intros [Hnin Hnd]%NoDup_cons [[= -> ->]|Hin]%elem_of_cons.
  - by rewrite decide_True.
  - rewrite decide_False; [by apply IH|]. intros ->. apply Hnin.
    apply list_elem_of_fmap. by exists (k, v).
Qed.

Lemma mset_keys_absent m k v : k ∉ m.*1 -> mset m k v = m ++ [(k, v)].
Proof.
  induction m as [|[k' v'] m IH]; simpl; [done|].
  intros [? ?]%not_elem_of_cons. rewrite decide_False by done. by rewrite IH.
Qed.

Lemma mset_keys m k v : (mset m k v).*1 = if mhas m k then m.*1 else m.*1 ++ [k].
Proof.
  unfold mhas. induction m as [|[k' v'] m IH]; csimpl; [done|].
  case_decide; csimpl; [done|]. rewrite IH. by case_match.
Qed.

Lemma mset_NoDup m k v : NoDup m.*1 -> NoDup (mset m k v).*1.
Proof.
  intros Hnd. rewrite mset_keys. unfold mhas.
  destruct (mget m k) eqn:Hg; [done|]. apply mget_None in Hg.
  apply NoDup_app. split_and!; [done | | apply NoDup_singleton].
  intros x Hx ->%list_elem_of_singleton. done.
Qed.

Lemma mset_elem m k v k' v' :
  NoDup m.*1 -> (k', v') ∈ mset m k v -> (k' = k /\ v' = v) \/ (k' <> k /\ (k', v') ∈ m).
Proof.
  induction m as [|[k0 v0] m IH]; simpl.
  - intros _ [= -> ->]%list_elem_of_singleton. by left.
  - intros [Hnin Hnd]%NoDup_cons. case_decide as Hd; [subst|]; intros [[= -> ->]|Hin]%elem_of_cons.
    + by left.
    + right. split; [|by right]. intros ->. apply Hnin. apply list_elem_of_fmap. by exists (k, v').
    + right. split; [done | left].
    + destruct (IH Hnd Hin) as [?|[? ?]]; [by left | right; split; [done | by right]].
Qed.

Lemma mget_mset_eq m k v : mget (mset m k v) k = Some v.
Proof.
  induction m as [|[k' v'] m IH]; simpl; [by rewrite decide_True|].
  case_decide; simpl; [by rewrite decide_True | by rewrite decide_False].
Qed.

Lemma mget_mset_ne m k k' v : k <> k' -> mget (mset m k v) k' = mget m k'.
Proof.
  intros Hne. induction m as [|[k0 v0] m IH]; simpl; [by rewrite decide_False|].
  case_decide; simpl; [subst; by rewrite !decide_False | by case_decide].
Qed.

(** Replacing a value whose image grows by [x] makes the whole grow by [x]. *)
Lemma mset_concat_grow {A} (f : V -> list A) m k v v' x :
  mget m k = Some v -> f v' = f v ++ x ->
  concat (f <$> (mset m k v').*2) ≡ₚ concat (f <$> m.*2) ++ x.
Proof.
  intros Hg Hf. induction m as [|[k0 v0] m IH]; simpl in *; [done|].
  case_decide; simpl.
  - injection Hg as ->. rewrite Hf, <- !(assoc_L (++)). f_equiv. apply Permutation_app_comm.
  - rewrite IH by done. by rewrite (assoc_L (++)).
Qed.

Lemma mset_concat_new {A} (f : V -> list A) m k v :
  mget m k = None -> concat (f <$> (mset m k v).*2) = concat (f <$> m.*2) ++ f v.
Proof.
  intros Hg%mget_None. rewrite mset_keys_absent by done.
  rewrite !fmap_app, concat_app. simpl. by rewrite app_nil_r.
Qed.

End js_map.
