(* ===== verification/JsBytes.v ===== *)
(** * Byte arrays

    A [Uint8Array] is the list of its bytes.  [get], [subarray], [set_at] and
    [zeros] are the operations the sources use on it, at non-negative indices;
    [set_at] throws when the source does not fit, as [TypedArray.set] does. *)

From S2P Require Import Prelude.
Local Open Scope Z_scope.

Abbreviation bytes := (list Z).

Definition blen (l : bytes) : Z := Z.of_nat (length l).

(** [l[i]] for an index inside the array. *)
Definition get (l : bytes) (i : Z) : Z := nth (Z.to_nat i) l 0.

(** [l.subarray(a, b)] for [0 <= a]: both ends are clamped to the array. *)
Definition subarray (l : bytes) (a b : Z) : bytes :=
  take (Z.to_nat (b - a)) (drop (Z.to_nat a) l).

(** [new Uint8Array(n)] *)
Definition zeros (n : Z) : bytes := replicate (Z.to_nat n) 0.

(** [dst.set(src, off)] *)
Definition set_at (dst src : bytes) (off : Z) : result bytes :=
  throw_if blen dst <? off + blen src with "offset is out of bounds" else
  Ok (take (Z.to_nat off) dst ++ src ++ drop (Z.to_nat (off + blen src)) dst).

Definition byte_ok (b : Z) : Prop := 0 <= b < 256.

Lemma blen_nonneg l : 0 <= blen l.
Proof. unfold blen. lia. Qed.

Lemma blen_app l l' : blen (l ++ l') = blen l + blen l'.
Proof. unfold blen. rewrite length_app. lia. Qed.

Lemma blen_zeros n : 0 <= n -> blen (zeros n) = n.
Proof. intros. unfold blen, zeros. rewrite length_replicate. lia. Qed.

Lemma get_zeros n i : get (zeros n) i = 0.
Proof.
  unfold get, zeros. rewrite nth_lookup.
  destruct (replicate _ _ !! _) eqn:He; [|done]. by apply lookup_replicate in He as [-> _].
Qed.

Lemma get_lookup l i : 0 <= i < blen l -> l !! Z.to_nat i = Some (get l i).
Proof.
  intros Hi. unfold get, blen in *.
  destruct (lookup_lt_is_Some_2 l (Z.to_nat i)) as [x Hx]; [lia|].
  by rewrite Hx, (nth_lookup_Some _ _ _ _ Hx).
Qed.

Lemma bytes_ext l l' :
  blen l = blen l' -> (forall i, 0 <= i < blen l -> get l i = get l' i) -> l = l'.
Proof.
  intros Hl Hg. apply list_eq_same_length with (length l); [unfold blen in Hl; lia | done |].
  intros i x y Hi Hx Hy. specialize (Hg (Z.of_nat i)). unfold get, blen in Hg.
  rewrite Nat2Z.id in Hg. rewrite (nth_lookup_Some _ _ _ _ Hx), (nth_lookup_Some _ _ _ _ Hy) in Hg.
  apply Hg. lia.
Qed.

Lemma blen_subarray l a b :
  0 <= a -> a <= b <= blen l -> blen (subarray l a b) = b - a.
Proof. intros. unfold blen, subarray in *. rewrite length_take, length_drop. lia. Qed.

Lemma get_subarray l a b i :
  0 <= a -> 0 <= i < b - a -> get (subarray l a b) i = get l (a + i).
Proof.
  intros Ha Hi. unfold get, subarray. rewrite !nth_lookup.
  rewrite lookup_take_lt by lia. rewrite lookup_drop. do 2 f_equal. lia.
Qed.

Lemma set_at_Ok dst src off :
  0 <= off -> off + blen src <= blen dst ->
  exists r, set_at dst src off = Ok r /\ blen r = blen dst
    /\ forall i, 0 <= i ->
         get r i = if (off <=? i) && (i <? off + blen src) then get src (i - off) else get dst i.
Proof.
  intros Ho Hl. unfold set_at. rewrite (proj2 (Z.ltb_ge _ _)) by lia.
  eexists; split; [done|]. pose proof (blen_nonneg src). split.
  - unfold blen in *. rewrite !length_app, length_take, length_drop. lia.
  - intros i Hi. unfold get, blen in *. rewrite !nth_lookup.
    destruct (Z.leb_spec off i); cbn [andb].
    + rewrite lookup_app_r by (rewrite length_take; lia). rewrite length_take.
      destruct (Z.ltb_spec i (off + Z.of_nat (length src))).
      * rewrite lookup_app_l by lia. do 2 f_equal. lia.
      * rewrite lookup_app_r by lia. rewrite lookup_drop. do 2 f_equal. lia.
    + rewrite lookup_app_l by (rewrite length_take; lia).
      by rewrite lookup_take_lt by lia.
Qed.

Lemma subarray_subarray l a b c d :
  0 <= a -> 0 <= c -> d <= b - a -> subarray (subarray l a b) c d = subarray l (a + c) (a + d).
Proof.
  intros. unfold subarray. rewrite skipn_firstn_comm, drop_drop, take_take. f_equal; [lia|].
  f_equal. lia.
Qed.

(** The length of a view whose end may lie past the array. *)
Lemma blen_subarray_clamp l a b :
  0 <= a <= b -> blen (subarray l a b) = Z.max 0 (Z.min b (blen l) - a).
Proof. intros. unfold blen, subarray in *. rewrite length_take, length_drop. lia. Qed.

Lemma subarray_all l b : blen l <= b -> subarray l 0 b = l.
Proof. intros. unfold subarray, blen in *. rewrite drop_0. apply take_ge. lia. Qed.

Lemma subarray_middle (a b c : bytes) x y :
  x = blen a -> y = blen a + blen b -> subarray (a ++ b ++ c) x y = b.
Proof.
  intros -> ->. unfold subarray, blen. rewrite Nat2Z.id, drop_app_length. apply take_app_length'. lia.
Qed.

Lemma subarray_head (l b : bytes) j : blen l = j -> subarray (l ++ b) 0 j = l.
Proof. intros <-. by apply (subarray_middle []). Qed.

(** The array of [n] bytes given by [f]. *)
Definition tabulate (n : Z) (f : Z -> Z) : bytes := f <$> seqZ 0 n.

Lemma blen_tabulate n f : 0 <= n -> blen (tabulate n f) = n.
Proof. intros. unfold blen, tabulate. rewrite length_fmap, length_seqZ. lia. Qed.

Lemma get_tabulate n f i : 0 <= i < n -> get (tabulate n f) i = f i.
Proof.
  intros Hi. unfold get, tabulate. apply nth_lookup_Some.
  rewrite list_lookup_fmap, lookup_seqZ_lt by lia. cbn. do 2 f_equal. lia.
Qed.

(** Filling a fresh array from its start. *)
Lemma set_at_zeros (done_ x : bytes) n :
  blen x <= n -> set_at (done_ ++ zeros n) x (blen done_) = Ok ((done_ ++ x) ++ zeros (n - blen x)).
Proof.
  intros Hn. pose proof (blen_nonneg x). pose proof (blen_nonneg done_). unfold set_at.
  rewrite blen_app, blen_zeros, (proj2 (Z.ltb_ge _ _)) by lia. f_equal. rewrite <- app_assoc.
  unfold blen, zeros in *. rewrite Nat2Z.id, take_app_length. f_equal. f_equal.
  rewrite drop_app_ge by lia. rewrite drop_replicate. f_equal. lia.
Qed.

Lemma subarray_split l a b c :
  0 <= a <= b -> b <= c -> subarray l a b ++ subarray l b c = subarray l a c.
Proof.
  intros. unfold subarray. rewrite <- (take_drop (Z.to_nat (b - a)) (take (Z.to_nat (c - a)) _)).
  rewrite take_take, skipn_firstn_comm, drop_drop. f_equal; [|f_equal]; f_equal; lia.
Qed.
