(* ===== verification/JsNumber.v ===== *)
(** * JavaScript numbers

    The sources compute sizes and offsets with IEEE binary64 [Number]s.  This
    file models the part of that arithmetic they use:
    - [number], any [Number] value a caller may pass, and the [Number.is*]
      predicates that guard the entry points;
    - integer-valued doubles as [Z], with the rounding of [+], [*] and [/] to
      53 significant bits written out ([round53], [fl_ratio]);
    - the facts that make the code right: sums, products and [Math.floor] or
      [Math.ceil] of a quotient are exact on safe integers, and a rounded
      result is a safe integer only when the exact one is.

    Overflow to [Infinity] (beyond 2^1024) is not modelled: no guarded value of
    the sources gets there. *)

From S2P Require Import Prelude.
Local Open Scope Z_scope.

Definition MAX_SAFE_INTEGER : Z := 2 ^ 53 - 1.

(** A [Number]: a finite double is a rational, read exactly. *)
Inductive number : Type :=
| Fin (q : Q)
| NaN
| Infinity (negative : bool).

Definition int (z : Z) : number := Fin (inject_Z z).

(** [Math.floor] of a finite double. *)
Definition qfloor (q : Q) : Z := Qnum q / QDen q.
Definition qceil (q : Q) : Z := - (- Qnum q / QDen q).

Definition isFinite (n : number) : bool :=
  match n with Fin _ => true | _ => false end.
Definition isInteger (n : number) : bool :=
  match n with Fin q => Qnum q mod QDen q =? 0 | _ => false end.
Definition isSafeInteger (n : number) : bool :=
  match n with
  | Fin q => (Qnum q mod QDen q =? 0) && (Z.abs (qfloor q) <=? MAX_SAFE_INTEGER)
  | _ => false
  end.

(** [n < 0], [n <= 0]: comparisons with [NaN] are false. *)
Definition num_ltz (n : number) : bool :=
  match n with Fin q => Qnum q <? 0 | NaN => false | Infinity neg => neg end.
Definition num_lez (n : number) : bool :=
  match n with Fin q => Qnum q <=? 0 | NaN => false | Infinity neg => neg end.

(** The integer value of a [number] already known to be an integer. *)
Definition num_int (n : number) : Z :=
  match n with Fin q => qfloor q | _ => 0 end.

Definition safe (z : Z) : Prop := 0 <= z <= MAX_SAFE_INTEGER.
Definition safeb (z : Z) : bool := (0 <=? z) && (z <=? MAX_SAFE_INTEGER).

(** * Rounding to 53 significant bits *)

(** [a / b] rounded to the nearest integer, ties to even. *)
Definition round_half_even (a b : Z) : Z :=
  let q := a / b in
  let r := a mod b in
  if 2 * r <? b then q
  else if b <? 2 * r then q + 1
  else if Z.even q then q else q + 1.

(** The exponent [e] with [2^e <= n/d < 2^(e+1)], for positive [n] and [d]. *)
Definition ratio_log2 (n d : Z) : Z :=
  let l := Z.log2 n - Z.log2 d in
  if d * 2 ^ Z.max 0 l <=? n * 2 ^ Z.max 0 (- l) then l else l - 1.

(** The double nearest to [n/d] as [(m, e)], standing for [m * 2^e]. *)
Definition fl_ratio (n d : Z) : Z * Z :=
  if n <=? 0 then (0, 0)
  else
    let e := ratio_log2 n d - 52 in
    (round_half_even (n * 2 ^ Z.max 0 (- e)) (d * 2 ^ Z.max 0 e), e).

(** [Math.floor(n / d)] and [Math.ceil(n / d)] on non-negative integer-valued
    doubles, the division rounded before the floor or ceiling is taken. *)
Definition floor_div (n d : Z) : Z :=
  let '(m, e) := fl_ratio n d in Z.shiftl m e.
Definition ceil_div (n d : Z) : Z :=
  let '(m, e) := fl_ratio n d in - Z.shiftl (- m) e.

(** The double nearest to the non-negative integer [z], itself an integer. *)
Definition round53 (z : Z) : Z :=
  let '(m, e) := fl_ratio z 1 in Z.shiftl m e.

(** [Number(z)] of a [bigint]. *)
Definition Number (z : Z) : Z := if z <? 0 then - round53 (- z) else round53 z.

Definition num_add (a b : Z) : Z := round53 (a + b).
Definition num_mul (a b : Z) : Z := round53 (a * b).
Definition num_sub (a b : Z) : Z :=
  if b <=? a then round53 (a - b) else - round53 (b - a).

(** * Facts *)

Lemma round_half_even_bounds a b :
  0 < b -> a / b <= round_half_even a b <= a / b + 1.
Proof. intros. unfold round_half_even. repeat case_match; lia. Qed.

Lemma round_half_even_exact a b :
  0 < b -> a mod b = 0 -> round_half_even a b = a / b.
Proof.
  intros Hb Hr. unfold round_half_even. rewrite Hr.
  destruct (Z.ltb_spec (2 * 0) b); lia.
Qed.

Lemma round_half_even_down a b :
  0 < b -> 2 * (a mod b) < b -> round_half_even a b = a / b.
Proof. intros Hb Hr. unfold round_half_even. by rewrite (proj2 (Z.ltb_lt _ _) Hr). Qed.

Lemma round_half_even_up a b :
  0 < b -> b < 2 * (a mod b) -> round_half_even a b = a / b + 1.
Proof.
  intros Hb Hr. unfold round_half_even.
  rewrite (proj2 (Z.ltb_ge _ _)) by lia. by rewrite (proj2 (Z.ltb_lt _ _) Hr).
Qed.

Lemma pow2_pos k : 0 < 2 ^ Z.max 0 k.
Proof. apply Z.pow_pos_nonneg; lia. Qed.

(** [2^a / 2^b] cross-multiplied, for any sign of [a - b]. *)
Lemma pow2_max_split a b :
  0 <= a -> 0 <= b -> 2 ^ a * 2 ^ Z.max 0 (b - a) = 2 ^ b * 2 ^ Z.max 0 (a - b).
Proof.
  intros. rewrite <- !Z.pow_add_r by lia. f_equal. lia.
Qed.

Lemma ratio_log2_spec n d :
  0 < n -> 0 < d ->
  let e := ratio_log2 n d in
  d * 2 ^ Z.max 0 e <= n * 2 ^ Z.max 0 (- e)
  /\ n * 2 ^ Z.max 0 (- (e + 1)) < d * 2 ^ Z.max 0 (e + 1).
Proof.
  intros Hn Hd. unfold ratio_log2.
  destruct (Z.log2_spec n Hn) as [Hn1 Hn2]. destruct (Z.log2_spec d Hd) as [Hd1 Hd2].
  pose proof (Z.log2_nonneg n). pose proof (Z.log2_nonneg d).
  set (ln := Z.log2 n) in *. set (ld := Z.log2 d) in *. cbv zeta.
  destruct (Z.leb_spec (d * 2 ^ Z.max 0 (ln - ld)) (n * 2 ^ Z.max 0 (- (ln - ld)))) as [Ht|Ht].
  - split; [done|].
    pose proof (pow2_max_split (Z.succ ln) ld ltac:(lia) ltac:(lia)) as Hs.
    replace (- (ln - ld + 1)) with (ld - Z.succ ln) by lia.
    replace (ln - ld + 1) with (Z.succ ln - ld) by lia.
    pose proof (pow2_pos (ld - Z.succ ln)). pose proof (pow2_pos (Z.succ ln - ld)). nia.
  - split.
    + pose proof (pow2_max_split (Z.succ ld) ln ltac:(lia) ltac:(lia)) as Hs.
      replace (- (ln - ld - 1)) with (Z.succ ld - ln) by lia.
      replace (ln - ld - 1) with (ln - Z.succ ld) by lia.
      pose proof (pow2_pos (ln - Z.succ ld)). pose proof (pow2_pos (Z.succ ld - ln)). nia.
    + by replace (ln - ld - 1 + 1) with (ln - ld) by lia.
Qed.

(** A safe integer over a positive one: the quotient keeps [k] fractional bits,
    and [k] is large enough to tell any two quotients over [d] apart. *)
Lemma fl_ratio_safe a d :
  0 < a <= MAX_SAFE_INTEGER -> 0 < d ->
  exists k, 0 <= k /\ fl_ratio a d = (round_half_even (a * 2 ^ k) d, - k) /\ d < 2 * 2 ^ k.
Proof.
  intros Ha Hd. destruct (ratio_log2_spec a d ltac:(lia) Hd) as [H1 _].
  unfold MAX_SAFE_INTEGER in Ha. unfold fl_ratio.
  set (E := ratio_log2 a d) in *. exists (52 - E).
  rewrite (proj2 (Z.leb_gt a 0)) by lia.
  assert (HE : E <= 52).
  { destruct (Z_le_gt_dec E 52) as [|HE]; [done|exfalso].
    replace (Z.max 0 E) with (53 + (E - 53)) in H1 by lia.
    replace (Z.max 0 (- E)) with 0 in H1 by lia.
    rewrite Z.pow_add_r in H1 by lia.
    pose proof (Z.pow_pos_nonneg 2 (E - 53) ltac:(lia) ltac:(lia)).
    change (2 ^ 0) with 1 in H1. nia. }
  split_and!; [lia| |].
  - replace (- (E - 52)) with (52 - E) by lia.
    replace (Z.max 0 (E - 52)) with 0 by lia.
    replace (Z.max 0 (52 - E)) with (52 - E) by lia.
    change (2 ^ 0) with 1. rewrite Z.mul_1_r. f_equal. lia.
  - assert (Hk : 2 ^ 52 * d <= a * 2 ^ (52 - E)).
    { destruct (Z_le_gt_dec 0 E) as [HE0|HE0].
      - replace (Z.max 0 E) with E in H1 by lia.
        replace (Z.max 0 (- E)) with 0 in H1 by lia. change (2 ^ 0) with 1 in H1.
        pose proof (Z.pow_pos_nonneg 2 (52 - E) ltac:(lia) ltac:(lia)).
        replace (2 ^ 52) with (2 ^ E * 2 ^ (52 - E)) by (rewrite <- Z.pow_add_r by lia; f_equal; lia).
        nia.
      - replace (Z.max 0 E) with 0 in H1 by lia.
        replace (Z.max 0 (- E)) with (- E) in H1 by lia. change (2 ^ 0) with 1 in H1.
        replace (52 - E) with (52 + - E) by lia. rewrite Z.pow_add_r by lia. nia. }
    change (2 ^ 53) with (2 * 2 ^ 52) in Ha. nia.
Qed.

(** [Math.floor(a / d)] is the integer quotient, and [Math.ceil(a / d)] the
    quotient rounded up, for every safe integer [a]. *)
Lemma floor_div_exact a d : safe a -> 0 < d -> floor_div a d = a / d.
Proof.
  intros Ha Hd. unfold safe in Ha. unfold floor_div.
  destruct (Z.eq_dec a 0) as [->|Hne]; [by rewrite Z.div_0_l by lia|].
  destruct (fl_ratio_safe a d ltac:(lia) Hd) as (k & Hk & -> & Hdk).
  rewrite Z.shiftl_opp_r, Z.shiftr_div_pow2 by done.
  pose proof (Z.pow_pos_nonneg 2 k ltac:(lia) Hk) as Hp.
  set (p := 2 ^ k) in *. symmetry.
  pose proof (Z.div_mod a d ltac:(lia)). pose proof (Z.mod_pos_bound a d Hd).
  set (q := a / d) in *. set (r := a mod d) in *.
  pose proof (round_half_even_bounds (a * p) d Hd) as Hm.
  assert (q * p <= a * p / d) by (apply Z.div_le_lower_bound; nia).
  assert (a * p / d < (q + 1) * p) by (apply Z.div_lt_upper_bound; nia).
  assert (round_half_even (a * p) d < (q + 1) * p).
  { destruct (Z.eq_dec (a * p / d) ((q + 1) * p - 1)) as [He|]; [|lia].
    rewrite round_half_even_down; [lia|done|].
    rewrite Z.mod_eq, He by lia. nia. }
  apply (Z.div_unique_pos _ _ _ (round_half_even (a * p) d - q * p)); nia.
Qed.

Lemma ceil_div_exact a d : safe a -> 0 < d -> ceil_div a d = - (- a / d).
Proof.
  intros Ha Hd. unfold safe in Ha. unfold ceil_div.
  destruct (Z.eq_dec a 0) as [->|Hne]; [done|].
  destruct (fl_ratio_safe a d ltac:(lia) Hd) as (k & Hk & -> & Hdk).
  rewrite Z.shiftl_opp_r, Z.shiftr_div_pow2 by done. f_equal.
  pose proof (Z.pow_pos_nonneg 2 k ltac:(lia) Hk) as Hp.
  set (p := 2 ^ k) in *.
  pose proof (Z.div_mod (- a) d ltac:(lia)). pose proof (Z.mod_pos_bound (- a) d Hd).
  set (q := - a / d) in *. set (r := (- a) mod d) in *.
  pose proof (round_half_even_bounds (a * p) d Hd) as Hm.
  destruct (Z.eq_dec r 0) as [Hr|Hr].
  - assert (a * p = - q * p * d) as Hap by nia.
    rewrite round_half_even_exact by (rewrite ?Hap, ?Z.mod_mul; lia).
    rewrite Hap, Z.div_mul by lia.
    symmetry; apply (Z.div_unique_pos _ _ _ 0); nia.
  - (* a = -q d - r with 0 < r < d *)
    assert ((- q - 1) * p <= a * p / d) by (apply Z.div_le_lower_bound; nia).
    assert (a * p / d < - q * p) by (apply Z.div_lt_upper_bound; nia).
    assert ((- q - 1) * p < round_half_even (a * p) d).
    { destruct (Z.eq_dec (a * p / d) ((- q - 1) * p)) as [He|]; [|lia].
      rewrite round_half_even_up; [lia|done|].
      rewrite Z.mod_eq, He by lia. nia. }
    symmetry; apply (Z.div_unique_pos _ _ _ (- round_half_even (a * p) d - q * p)); nia.
Qed.

Lemma round53_exact z : safe z -> round53 z = z.
Proof.
  intros Hz. transitivity (floor_div z 1); [done|].
  rewrite floor_div_exact by (done || lia). apply Z.div_1_r.
Qed.

(** Rounding never brings an unsafe integer back into the safe range. *)
Lemma round53_unsafe z : MAX_SAFE_INTEGER < z -> MAX_SAFE_INTEGER < round53 z.
Proof.
  unfold MAX_SAFE_INTEGER. intros Hz. unfold round53, fl_ratio.
  rewrite (proj2 (Z.leb_gt z 0)) by lia.
  destruct (ratio_log2_spec z 1 ltac:(lia) ltac:(lia)) as [H1 H2].
  set (E := ratio_log2 z 1) in *.
  assert (HE : 53 <= E).
  { destruct (Z_le_gt_dec 53 E) as [|HE]; [done|exfalso].
    pose proof (pow2_pos (- (E + 1))).
    assert (2 ^ Z.max 0 (E + 1) <= 2 ^ 53) by (apply Z.pow_le_mono_r; lia). nia. }
  replace (Z.max 0 (- E)) with 0 in H1 by lia.
  replace (Z.max 0 E) with (52 + (E - 52)) in H1 by lia.
  replace (Z.max 0 (- (E - 52))) with 0 by lia.
  replace (Z.max 0 (E - 52)) with (E - 52) by lia.
  rewrite Z.pow_add_r in H1 by lia. change (2 ^ 0) with 1 in *.
  pose proof (Z.pow_pos_nonneg 2 (E - 52) ltac:(lia) ltac:(lia)) as Hp.
  rewrite Z.shiftl_mul_pow2 by lia.
  pose proof (round_half_even_bounds (z * 1) (1 * 2 ^ (E - 52)) ltac:(lia)) as [Hlo _].
  assert (2 ^ 52 <= z * 1 / (1 * 2 ^ (E - 52))) by (apply Z.div_le_lower_bound; lia).
  assert (2 ^ 1 <= 2 ^ (E - 52)) by (apply Z.pow_le_mono_r; lia).
  change (2 ^ 53) with (2 ^ 52 * 2 ^ 1). nia.
Qed.

Lemma safeb_spec z : reflect (safe z) (safeb z).
Proof. unfold safe, safeb. apply iff_reflect. lia. Qed.

Lemma safeb_true z : safe z -> safeb z = true.
Proof. by destruct (safeb_spec z). Qed.

Lemma safe_le a b : safe b -> 0 <= a <= b -> safe a.
Proof. unfold safe. lia. Qed.

Lemma round53_safeb z : 0 <= z -> safeb (round53 z) = safeb z.
Proof.
  intros Hz. destruct (safeb_spec z) as [Hs|Hs].
  - rewrite round53_exact by done. by apply safeb_true.
  - unfold safe in Hs. pose proof (round53_unsafe z ltac:(lia)). unfold safeb. lia.
Qed.

Lemma isSafeInteger_int z :
  isSafeInteger (int z) = (Z.abs z <=? MAX_SAFE_INTEGER).
Proof.
  unfold isSafeInteger, int, qfloor, inject_Z; simpl.
  by rewrite Z.mod_1_r, Z.div_1_r.
Qed.

Lemma num_int_int z : num_int (int z) = z.
Proof. unfold num_int, int, qfloor, inject_Z; simpl. apply Z.div_1_r. Qed.

(** A safe integer [Number] is the embedding of its integer value. *)
Lemma isSafeInteger_num_int n :
  isSafeInteger n = true -> Z.abs (num_int n) <= MAX_SAFE_INTEGER.
Proof. destruct n; simpl; try done. intros. bool_to_prop. lia. Qed.

#[export] Hint Rewrite isSafeInteger_int num_int_int : js.

Lemma num_add_exact a b : safe (a + b) -> num_add a b = a + b.
Proof. apply round53_exact. Qed.
Lemma num_mul_exact a b : safe (a * b) -> num_mul a b = a * b.
Proof. apply round53_exact. Qed.
Lemma num_sub_exact a b : Z.abs (a - b) <= MAX_SAFE_INTEGER -> num_sub a b = a - b.
Proof.
  unfold num_sub, safe. intros H.
  destruct (Z.leb_spec b a); rewrite round53_exact; unfold safe; lia.
Qed.

Lemma Number_exact z : Z.abs z <= MAX_SAFE_INTEGER -> Number z = z.
Proof.
  unfold Number. intros H.
  destruct (Z.ltb_spec z 0); rewrite round53_exact; unfold safe; lia.
Qed.

(** A rounded sum exceeds a safe bound exactly when the sum does. *)
Lemma num_add_le a b c :
  0 <= a -> 0 <= b -> c <= MAX_SAFE_INTEGER -> num_add a b <= c <-> a + b <= c.
Proof.
  intros. unfold num_add. destruct (Z.le_gt_cases (a + b) MAX_SAFE_INTEGER).
  - rewrite round53_exact by (unfold safe; lia). done.
  - pose proof (round53_unsafe (a + b)). lia.
Qed.
