(* ===== verification/JsString.v ===== *)
(** * JavaScript strings

    A string is the list of its code units, here those below 256
    ([String.string]); every pattern the sources match is ASCII.  This file
    models the decimal patterns the sources accept, [Number(s)] and [BigInt(s)]
    on them, and the string helpers the components share. *)

From S2P Require Import Prelude.
From Stdlib Require Import Ascii.
Local Open Scope Z_scope.

Definition code (c : ascii) : Z := Z.of_N (N_of_ascii c).

(** [[0-9]] and its value. *)
Definition is_digit (c : ascii) : bool := (48 <=? code c) && (code c <=? 57).
Definition digit_value (c : ascii) : Z := code c - 48.

Fixpoint all_digits (s : string) : bool :=
  match s with
  | EmptyString => true
  | String c s => is_digit c && all_digits s
  end.

(** The test of [s] against ^(0|[1-9][0-9]{0,})$. *)
Definition canonical_decimal (s : string) : bool :=
  match s with
  | EmptyString => false
  | String c s' =>
      if code c =? 48 then (match s' with EmptyString => true | _ => false end)
      else is_digit c && all_digits s'
  end.

(** [Number(s)] or [BigInt(s)] of a string of digits. *)
Fixpoint decimal_from (acc : Z) (s : string) : Z :=
  match s with
  | EmptyString => acc
  | String c s => decimal_from (10 * acc + digit_value c) s
  end.
Definition parse_decimal (s : string) : Z := decimal_from 0 s.

Definition slen (s : string) : Z := Z.of_nat (String.length s).

(** The number of bytes of [new TextEncoder().encode(s)]. *)
Fixpoint utf8_length (s : string) : Z :=
  match s with
  | EmptyString => 0
  | String c s => (if code c <? 128 then 1 else 2) + utf8_length s
  end.

(** [s.includes(c)] for a one-character [c]. *)
Fixpoint includes_char (s : string) (c : ascii) : bool :=
  match s with
  | EmptyString => false
  | String d s => Ascii.eqb d c || includes_char s c
  end.

(** [s.toLowerCase()] on ASCII, [s.includes(sub)]. *)
Definition lower (c : ascii) : ascii :=
  if (65 <=? code c) && (code c <=? 90) then ascii_of_N (Z.to_N (code c + 32)) else c.
Fixpoint toLowerCase (s : string) : string :=
  match s with
  | EmptyString => EmptyString
  | String c s => String (lower c) (toLowerCase s)
  end.
Fixpoint includes (s sub : string) : bool :=
  String.prefix sub s || match s with EmptyString => false | String _ s => includes s sub end.

(** The code units of a string and back. *)
Definition codes (s : string) : list Z := map code (String.list_ascii_of_string s).
Definition of_codes (l : list Z) : string :=
  String.string_of_list_ascii (map (fun z => ascii_of_N (Z.to_N z)) l).

Lemma is_digit_value c : is_digit c = true -> 0 <= digit_value c <= 9.
Proof. unfold is_digit, digit_value. lia. Qed.

Lemma code_inj c d : code c = code d -> c = d.
Proof.
  unfold code. intros H%N2Z.inj.
  rewrite <- (ascii_N_embedding c), <- (ascii_N_embedding d). by rewrite H.
Qed.

Lemma decimal_from_acc acc s :
  decimal_from acc s = acc * 10 ^ slen s + parse_decimal s.
Proof.
  unfold parse_decimal, slen. revert acc.
  induction s as [|c s IH]; intros acc; cbn [decimal_from String.length].
  - change (10 ^ Z.of_nat 0) with 1. lia.
  - rewrite (IH (10 * acc + _)), (IH (10 * 0 + _)), Nat2Z.inj_succ, Z.pow_succ_r by lia. ring.
Qed.

Lemma parse_decimal_bounds s :
  all_digits s = true -> 0 <= parse_decimal s < 10 ^ slen s.
Proof.
  induction s as [|c s IH]; [done|].
  cbn [all_digits]. intros [Hc Hs]%andb_prop. specialize (IH Hs).
  apply is_digit_value in Hc. unfold parse_decimal at 1 2; cbn [decimal_from].
  rewrite !decimal_from_acc. unfold slen in *; cbn [String.length].
  rewrite Nat2Z.inj_succ, Z.pow_succ_r by lia. nia.
Qed.

Lemma canonical_all_digits s : canonical_decimal s = true -> all_digits s = true.
Proof.
  destruct s as [|c s]; [done|]. cbn [canonical_decimal all_digits].
  destruct (Z.eqb_spec (code c) 48) as [Hc|]; [|done].
  destruct s; [|done]. unfold is_digit. rewrite Hc. done.
Qed.

(** Two digit strings of the same length with the same value are the same. *)
Lemma parse_decimal_inj_len s t :
  all_digits s = true -> all_digits t = true -> slen s = slen t ->
  parse_decimal s = parse_decimal t -> s = t.
Proof.
  revert t; induction s as [|c s IH]; intros [|d t] Hs Ht Hl Hv; unfold slen in Hl; try done.
  cbn [all_digits] in Hs, Ht. apply andb_prop in Hs as [Hc Hs], Ht as [Hd Ht].
  cbn [String.length] in Hl. assert (Hl' : slen s = slen t) by (unfold slen; lia).
  pose proof (parse_decimal_bounds s Hs). pose proof (parse_decimal_bounds t Ht).
  apply is_digit_value in Hc, Hd.
  unfold parse_decimal in Hv; cbn [decimal_from] in Hv.
  rewrite !decimal_from_acc, Hl' in Hv. rewrite Hl' in *.
  assert (digit_value c = digit_value d) as Hcd by nia.
  assert (parse_decimal s = parse_decimal t) by nia.
  f_equal; [apply code_inj; unfold digit_value in Hcd; lia | by apply IH].
Qed.

Lemma canonical_lower_bound s :
  canonical_decimal s = true -> 2 <= slen s -> 10 ^ (slen s - 1) <= parse_decimal s.
Proof.
  destruct s as [|c s]; [done|]. cbn [canonical_decimal]. intros H Hl.
  unfold slen in *; cbn [String.length] in *.
  destruct (Z.eqb_spec (code c) 48) as [Hc|Hc].
  - destruct s; [cbn in Hl; lia | done].
  - apply andb_prop in H as [Hd Hs]. pose proof (parse_decimal_bounds s Hs).
    assert (1 <= digit_value c) by (unfold is_digit in Hd; unfold digit_value; lia).
    unfold parse_decimal; cbn [decimal_from]. rewrite decimal_from_acc. unfold slen.
    replace (Z.of_nat (S (String.length s)) - 1) with (Z.of_nat (String.length s)) by lia.
    pose proof (Z.pow_pos_nonneg 10 (Z.of_nat (String.length s)) ltac:(lia) ltac:(lia)). nia.
Qed.

(** A canonical decimal is determined by its value: no two accepted spellings
    of one integer. *)
Lemma canonical_decimal_inj s t :
  canonical_decimal s = true -> canonical_decimal t = true ->
  parse_decimal s = parse_decimal t -> s = t.
Proof.
  intros Hs Ht Hv.
  pose proof (parse_decimal_bounds s (canonical_all_digits s Hs)).
  pose proof (parse_decimal_bounds t (canonical_all_digits t Ht)).
  apply parse_decimal_inj_len; [by apply canonical_all_digits..| |done].
  assert (1 <= slen s /\ 1 <= slen t) as [].
  { unfold slen. destruct s, t; try done. cbn [String.length]. lia. }
  destruct (Z.lt_trichotomy (slen s) (slen t)) as [Hlt|[|Hlt]]; [exfalso|done|exfalso].
  - pose proof (canonical_lower_bound t Ht ltac:(lia)).
    pose proof (Z.pow_le_mono_r 10 (slen s) (slen t - 1) ltac:(lia) ltac:(lia)). lia.
  - pose proof (canonical_lower_bound s Hs ltac:(lia)).
    pose proof (Z.pow_le_mono_r 10 (slen t) (slen s - 1) ltac:(lia) ltac:(lia)). lia.
Qed.

Lemma code_bounds c : 0 <= code c < 256.
Proof. unfold code. pose proof (N_ascii_bounded c). lia. Qed.

Lemma code_of z : 0 <= z < 256 -> code (ascii_of_N (Z.to_N z)) = z.
Proof. intros. unfold code. rewrite N_ascii_embedding by lia. lia. Qed.

Lemma codes_of_codes l : Forall (fun z => 0 <= z < 256) l -> codes (of_codes l) = l.
Proof.
  intros Hl. unfold codes, of_codes. rewrite String.list_ascii_of_string_of_list_ascii, map_map.
  induction Hl as [|z l Hz Hl IH]; [done|]. simpl. by rewrite code_of, IH.
Qed.

Lemma of_codes_codes s : of_codes (codes s) = s.
Proof.
  unfold codes, of_codes. rewrite map_map.
  rewrite (map_ext _ id), map_id, String.string_of_list_ascii_of_string; [done|].
  intros c. unfold code. by rewrite N2Z.id, ascii_N_embedding.
Qed.

Lemma slen_of_codes l : slen (of_codes l) = Z.of_nat (length l).
Proof.
  unfold slen, of_codes. f_equal. rewrite <- (length_map (fun z => ascii_of_N (Z.to_N z)) l).
  generalize (map (fun z => ascii_of_N (Z.to_N z)) l) as m. induction m; simpl; congruence.
Qed.

Lemma length_codes s : Z.of_nat (length (codes s)) = slen s.
Proof. rewrite <- (of_codes_codes s) at 2. by rewrite slen_of_codes. Qed.

Lemma codes_bytes s : Forall (fun z => 0 <= z < 256) (codes s).
Proof. unfold codes. apply Forall_map, Forall_true. apply code_bounds. Qed.
