(* ===== verification/JsText.v ===== *)
(** * Text: trimming, numbers in strings, UTF-8 and JSON

    The parts of the string library the components share: [String.trim],
    [Number(s)] of a string (the StringToNumber grammar; a literal that is not an
    integer is rounded to 53 significant bits, subnormals are not modelled),
    [padStart], [TextEncoder] and the quoting of [JSON.stringify]. *)

From S2P Require Import Prelude JsNumber JsBytes JsString.
From Stdlib Require Import Ascii.
Local Open Scope Z_scope.

(** White space and line terminators below 256. *)
Definition is_white (c : Z) : bool :=
  ((9 <=? c) && (c <=? 13)) || (c =? 32) || (c =? 160).

Fixpoint trim_left (white : Z -> bool) (l : list Z) : list Z :=
  match l with
  | c :: l' => if white c then trim_left white l' else l
  | [] => []
  end.
Definition trim_codes (white : Z -> bool) (l : list Z) : list Z :=
  rev (trim_left white (rev (trim_left white l))).
Definition trim (s : string) : string := of_codes (trim_codes is_white (codes s)).

(** [s.endsWith(c)] and [s.slice(0, -1)] for a one-character [c]. *)
Definition endsWith_char (s : string) (c : ascii) : bool :=
  match rev (codes s) with d :: _ => d =? code c | [] => false end.
Definition slice_last (s : string) : string := of_codes (removelast (codes s)).

(** ** [Number(s)] *)

Definition digit_of (radix c : Z) : option Z :=
  let v := if (48 <=? c) && (c <=? 57) then c - 48
           else if (97 <=? c) && (c <=? 122) then c - 87
           else if (65 <=? c) && (c <=? 90) then c - 55 else 99 in
  if v <? radix then Some v else None.

(** The longest run of digits: its value, its length and what follows. *)
Fixpoint read_digits (radix acc len : Z) (l : list Z) : Z * Z * list Z :=
  match l with
  | c :: l' => match digit_of radix c with
               | Some v => read_digits radix (acc * radix + v) (len + 1) l'
               | None => (acc, len, l)
               end
  | [] => (acc, len, [])
  end.

(** The double nearest to [n / d], for non-negative [n]. *)
Definition nearest (n d : Z) : Q :=
  let '(m, e) := fl_ratio n d in
  if 0 <=? e then inject_Z (m * 2 ^ e) else Qmake m (Z.to_pos (2 ^ (- e))).

Definition num_neg (n : number) : number :=
  match n with Fin q => Fin (Qmake (- Qnum q) (Qden q)) | NaN => NaN | Infinity s => Infinity (negb s) end.

(** 2^1024 - 2^970: from here on a literal is [Infinity]. *)
Definition OVERFLOW : Z := 2 ^ 1024 - 2 ^ 970.

Definition to_number (mantissa exponent : Z) : number :=
  let n := mantissa * 10 ^ Z.max 0 exponent in
  let d := 10 ^ Z.max 0 (- exponent) in
  if OVERFLOW * d <=? n then Infinity false else Fin (nearest n d).

(** ExponentPart, or nothing, then the end of the string. *)
Definition read_exponent (l : list Z) : option Z :=
  match l with
  | [] => Some 0
  | c :: l =>
      if (c =? 101) || (c =? 69) then
        let '(sign, l) := match l with
                          | s :: l' => if s =? 45 then (-1, l') else if s =? 43 then (1, l') else (1, l)
                          | [] => (1, l)
                          end in
        let '(v, len, rest) := read_digits 10 0 0 l in
        if (0 <? len) && bool_decide (rest = []) then Some (sign * v) else None
      else None
  end.

(** StrUnsignedDecimalLiteral *)
Definition unsigned_decimal (l : list Z) : number :=
  if bool_decide (l = codes "Infinity") then Infinity false else
  let '(whole, len, rest) := read_digits 10 0 0 l in
  let '(mantissa, fraction, total, rest) :=
    match rest with
    | 46 :: l' => let '(m, total, rest) := read_digits 10 whole len l' in (m, total - len, total, rest)
    | _ => (whole, 0, len, rest)
    end in
  if total =? 0 then NaN else
  match read_exponent rest with
  | Some e => to_number mantissa (e - fraction)
  | None => NaN
  end.

Definition radix_literal (radix : Z) (l : list Z) : number :=
  let '(v, len, rest) := read_digits radix 0 0 l in
  if (0 <? len) && bool_decide (rest = []) then to_number v 0 else NaN.

Definition number_of_codes (l : list Z) : number :=
  match l with
  | [] => int 0
  | c :: l' =>
      if c =? 45 then num_neg (unsigned_decimal l')
      else if c =? 43 then unsigned_decimal l'
      else match l with
           | 48 :: x :: ds =>
               if (x =? 120) || (x =? 88) then radix_literal 16 ds
               else if (x =? 111) || (x =? 79) then radix_literal 8 ds
               else if (x =? 98) || (x =? 66) then radix_literal 2 ds
               else unsigned_decimal l
           | _ => unsigned_decimal l
           end
  end.

Definition NumberOf (s : string) : number := number_of_codes (trim_codes is_white (codes s)).

(** ** UTF-8 and JSON *)

(** [String(n).padStart(2, '0')] for a natural number. *)
Definition padStart2 (s : string) : string := if slen s <? 2 then "0" +:+ s else s.

Definition encode_char (c : Z) : bytes := if c <? 128 then [c] else [192 + c / 64; 128 + c mod 64].
(** [new TextEncoder().encode(s)] *)
Definition TextEncoder_encode (s : string) : bytes := concat (map encode_char (codes s)).

(** [JSON.stringify] of a string. *)
Definition json_char (c : Z) : list Z :=
  if (c =? 34) || (c =? 92) then [92; c]
  else if c =? 8 then [92; 98] else if c =? 9 then [92; 116] else if c =? 10 then [92; 110]
  else if c =? 12 then [92; 102] else if c =? 13 then [92; 114]
  else if c <? 32 then [92; 117; 48; 48; 48 + c / 16;
                        if c mod 16 <? 10 then 48 + c mod 16 else 87 + c mod 16]
  else [c].
Definition json_string (s : string) : string :=
  of_codes ([34] ++ concat (map json_char (codes s)) ++ [34]).

Definition join (sep : string) (l : list string) : string :=
  match l with
  | [] => ""
  | x :: l => foldl (fun acc y => acc +:+ sep +:+ y) x l
  end.

(** An object, its undefined fields left out, and an array. *)
Definition json_object (fields : list (string * option string)) : string :=
  "{" +:+ join "," (omap (fun '(k, v) => v ← v; Some (json_string k +:+ ":" +:+ v)) fields) +:+ "}".
Definition json_array (l : list string) : string := "[" +:+ join "," l +:+ "]".

(** ** Lemmas *)

Lemma trim_left_id white l : Forall (fun c => white c = false) l -> trim_left white l = l.
Proof. intros H. destruct H as [|c l Hc Hl]; cbn; [done|]. by rewrite Hc. Qed.

Lemma trim_codes_id white l : Forall (fun c => white c = false) l -> trim_codes white l = l.
Proof.
  intros H. unfold trim_codes. rewrite (trim_left_id white l H), trim_left_id by by apply Forall_rev.
  apply rev_involutive.
Qed.

Lemma trim_left_snoc white l c : white c = false -> trim_left white (l ++ [c]) <> [].
Proof. intros Hc. induction l as [|x l IH]; cbn; [by rewrite Hc | by case_match]. Qed.

(** A text that does not start with white space is not blank. *)
Lemma trim_codes_cons white c l : white c = false -> trim_codes white (c :: l) <> [].
Proof.
  intros Hc. unfold trim_codes. cbn [trim_left]. rewrite Hc. cbn [rev]. intros Hr.
  apply (f_equal (@rev Z)) in Hr. rewrite rev_involutive in Hr. by apply (trim_left_snoc white (rev l) c Hc).
Qed.

Lemma digits_Forall s : all_digits s = true -> Forall (fun c => 48 <= c <= 57) (codes s).
Proof.
  unfold codes. induction s as [|c s IH]; cbn [all_digits]; [constructor|].
  intros [Hc Hs]%andb_prop. cbn. constructor; [unfold is_digit in Hc; lia | by apply IH].
Qed.

Lemma digit_of_10 c : 48 <= c <= 57 -> digit_of 10 c = Some (c - 48).
Proof.
  intros. unfold digit_of. replace ((48 <=? c) && (c <=? 57)) with true by lia.
  by replace (c - 48 <? 10) with true by lia.
Qed.

Lemma read_digits_all s acc len :
  all_digits s = true -> read_digits 10 acc len (codes s) = (decimal_from acc s, len + slen s, []).
Proof.
  revert acc len. induction s as [|c s IH]; intros acc len; cbn [all_digits].
  - intros _. unfold slen. cbn. f_equal. f_equal. lia.
  - intros [Hc Hs]%andb_prop. change (codes (String c s)) with (code c :: codes s). cbn [read_digits].
    unfold is_digit in Hc. rewrite digit_of_10 by lia. rewrite IH by done. unfold slen.
    cbn [decimal_from String.length]. rewrite Nat2Z.inj_succ. unfold digit_value.
    replace (acc * 10) with (10 * acc) by lia. f_equal. f_equal. lia.
Qed.

Lemma unsigned_decimal_digits s :
  all_digits s = true -> s <> "" -> unsigned_decimal (codes s) = to_number (parse_decimal s) 0.
Proof.
  intros Hs Hne. unfold unsigned_decimal. rewrite bool_decide_eq_false_2.
  2:{ intros He. pose proof (digits_Forall s Hs) as Hd. rewrite He in Hd. destruct (Forall_inv Hd) as [_ Hc]. by apply Hc. }
  rewrite read_digits_all by done. replace (0 + slen s =? 0) with false; [done|].
  symmetry. apply Z.eqb_neq. unfold slen. destruct s; [done|]. cbn [String.length]. lia.
Qed.

Lemma NumberOf_digits s :
  all_digits s = true -> s <> "" -> NumberOf s = to_number (parse_decimal s) 0.
Proof.
  intros Hs Hne. pose proof (digits_Forall s Hs) as Hd. unfold NumberOf. rewrite trim_codes_id.
  2:{ eapply Forall_impl; [exact Hd|]. intros c Hc. cbn beta in *. unfold is_white. lia. }
  rewrite <- unsigned_decimal_digits by done. destruct s as [|c s]; [done|].
  change (codes (String c s)) with (code c :: codes s) in *. unfold number_of_codes.
  apply Forall_cons in Hd as [Hc Hd].
  replace (code c =? 45) with false by lia. replace (code c =? 43) with false by lia.
  destruct (codes s) as [|d l]; [by repeat case_match|]. apply Forall_cons in Hd as [Hd' _].
  replace ((d =? 120) || (d =? 88)) with false by lia.
  replace ((d =? 111) || (d =? 79)) with false by lia.
  replace ((d =? 98) || (d =? 66)) with false by lia. by repeat case_match.
Qed.

Lemma nearest_integer z :
  0 <= z -> isInteger (Fin (nearest z 1)) = true
  /\ num_ltz (Fin (nearest z 1)) = false /\ num_int (Fin (nearest z 1)) = round53 z.
Proof.
  intros Hz. unfold nearest, round53. destruct (fl_ratio z 1) as [m e] eqn:Hfl.
  assert (0 <= m /\ (e < 0 -> m mod 2 ^ (- e) = 0)) as [Hm0 Hmod].
  { unfold fl_ratio in Hfl. destruct (Z.leb_spec z 0) as [|Hpos]; [injection Hfl as <- <-; by split|].
    injection Hfl as Hm He. rewrite He in Hm.
    pose proof (pow2_pos (- e)) as H1. pose proof (pow2_pos e) as H2. split.
    - pose proof (round_half_even_bounds (z * 2 ^ Z.max 0 (- e)) (1 * 2 ^ Z.max 0 e) ltac:(lia)).
      pose proof (Z.div_pos (z * 2 ^ Z.max 0 (- e)) (1 * 2 ^ Z.max 0 e) ltac:(lia) ltac:(lia)). lia.
    - intros Hneg. rewrite !Z.max_r, Z.max_l in Hm by lia.
      rewrite round_half_even_exact in Hm; [|lia|apply Z.mod_1_r]. rewrite Z.div_1_r in Hm.
      subst m. apply Z.mod_mul. pose proof (Z.pow_pos_nonneg 2 (- e)). lia. }
  destruct (Z.leb_spec 0 e) as [He|He].
  - unfold isInteger, num_ltz, num_int, qfloor, inject_Z; cbn [Qnum Qden].
    rewrite Z.mod_1_r, Z.div_1_r, Z.shiftl_mul_pow2 by lia. split_and!; [done| |done].
    apply Z.ltb_ge. pose proof (Z.pow_nonneg 2 e). nia.
  - unfold isInteger, num_ltz, num_int, qfloor; cbn [Qnum Qden].
    rewrite Z2Pos.id by (apply Z.pow_pos_nonneg; lia). rewrite Hmod by done.
    split_and!; [done | lia |]. rewrite <- (Z.opp_involutive e) at 2.
    by rewrite Z.shiftl_opp_r, Z.shiftr_div_pow2 by lia.
Qed.

(** [Number(s)] of a decimal numeral is the double nearest to its value. *)
Lemma NumberOf_decimal s :
  all_digits s = true -> s <> "" -> parse_decimal s < OVERFLOW ->
  isInteger (NumberOf s) = true /\ num_ltz (NumberOf s) = false
  /\ num_int (NumberOf s) = round53 (parse_decimal s).
Proof.
  intros Hs Hne Hlt. rewrite NumberOf_digits by done. unfold to_number.
  change (10 ^ Z.max 0 0) with 1. change (10 ^ Z.max 0 (- 0)) with 1. rewrite !Z.mul_1_r.
  rewrite (proj2 (Z.leb_gt _ _)) by done.
  apply nearest_integer. apply (parse_decimal_bounds s Hs).
Qed.

Lemma all_digits_pretty_go x s :
  all_digits s = true -> all_digits (pretty_N_go x s) = true
  /\ parse_decimal (pretty_N_go x s) = Z.of_N x * 10 ^ slen s + parse_decimal s.
Proof.
  revert s. induction (N.lt_wf_0 x) as [x _ IH]. intros s Hs.
  destruct (decide (0 < x)%N) as [Hx|Hx].
  2:{ assert (x = 0%N) as -> by lia. rewrite pretty_N_go_0. split; [done|lia]. }
  rewrite pretty_N_go_step by done.
  assert (Hc : forall d, (d < 10)%N -> is_digit (pretty_N_char d) = true
                 /\ digit_value (pretty_N_char d) = Z.of_N d).
  { intros d Hd. assert (d = 0 \/ d = 1 \/ d = 2 \/ d = 3 \/ d = 4 \/ d = 5 \/ d = 6 \/ d = 7
      \/ d = 8 \/ d = 9)%N as Hd' by lia. by repeat destruct Hd' as [->|Hd']; [..|subst d]. }
  destruct (Hc (x mod 10)%N ltac:(by apply N.mod_lt)) as [Hd Hv].
  destruct (IH (x / 10)%N ltac:(by apply N.div_lt) (String (pretty_N_char (x mod 10)) s)) as [Ha Hp].
  { cbn [all_digits]. by rewrite Hd. }
  split; [done|]. rewrite Hp. unfold parse_decimal at 1; cbn [decimal_from].
  rewrite decimal_from_acc, Hv. unfold slen; cbn [String.length].
  rewrite Nat2Z.inj_succ, Z.pow_succ_r by lia.
  rewrite N2Z.inj_div, N2Z.inj_mod. pose proof (Z.div_mod (Z.of_N x) (Z.of_N 10) ltac:(lia)). nia.
Qed.

Lemma pretty_decimal z :
  0 <= z -> all_digits (pretty z) = true /\ parse_decimal (pretty z) = z.
Proof.
  intros Hz. destruct z as [|p|p]; [done| |lia].
  change (pretty (Z.pos p)) with (pretty_N_go (N.pos p) "").
  destruct (all_digits_pretty_go (N.pos p) "" eq_refl) as [? ->]. split; [done|].
  unfold slen. cbn. lia.
Qed.

Lemma padStart2_inj i j :
  0 <= i -> 0 <= j -> padStart2 (pretty i) = padStart2 (pretty j) -> i = j.
Proof.
  assert (Hp : forall i, 0 <= i -> parse_decimal (padStart2 (pretty i)) = i).
  { intros k Hk. unfold padStart2. destruct (pretty_decimal k Hk) as [_ Hd]. by case_match. }
  intros Hi Hj Heq. rewrite <- (Hp i Hi), <- (Hp j Hj). by rewrite Heq.
Qed.
