(* ===== verification/Utf8.v ===== *)
(** * UTF-8

    [TextEncoder] and the strict [TextDecoder] ([fatal], [ignoreBOM]) on the code
    points of a string.  A string that was decoded has no lone surrogates, so it
    is the list of its code points. *)

From S2P Require Import Prelude JsBytes.
Local Open Scope Z_scope.

Definition scalar_value (c : Z) : Prop := 0 <= c < 55296 \/ 57344 <= c < 1114112.

Definition utf8_char (c : Z) : bytes :=
  if c <? 128 then [c]
  else if c <? 2048 then [192 + c / 64; 128 + c mod 64]
  else if c <? 65536 then [224 + c / 4096; 128 + c / 64 mod 64; 128 + c mod 64]
  else [240 + c / 262144; 128 + c / 4096 mod 64; 128 + c / 64 mod 64; 128 + c mod 64].
Definition utf8_encode (cs : list Z) : bytes := concat (map utf8_char cs).

Definition within (lo hi b : Z) : bool := (lo <=? b) && (b <=? hi).
Abbreviation continuation := (within 128 191).

(** The decoder of the Encoding standard: the lead byte fixes the length and the
    bounds of the second byte. *)
Fixpoint utf8_decode (l : bytes) : option (list Z) :=
  match l with
  | [] => Some []
  | b :: l =>
      if within 0 127 b then cons b <$> utf8_decode l
      else if within 194 223 b then
        match l with
        | x :: l => if continuation x
                    then cons ((b - 192) * 64 + (x - 128)) <$> utf8_decode l else None
        | _ => None
        end
      else if within 224 239 b then
        match l with
        | x :: y :: l =>
            if within (if b =? 224 then 160 else 128) (if b =? 237 then 159 else 191) x
               && continuation y
            then cons ((b - 224) * 4096 + (x - 128) * 64 + (y - 128)) <$> utf8_decode l else None
        | _ => None
        end
      else if within 240 244 b then
        match l with
        | x :: y :: z :: l =>
            if within (if b =? 240 then 144 else 128) (if b =? 244 then 143 else 191) x
               && continuation y && continuation z
            then cons ((b - 240) * 262144 + (x - 128) * 4096 + (y - 128) * 64 + (z - 128))
                   <$> utf8_decode l else None
        | _ => None
        end
      else None
  end.

(** ** Lemmas *)

Lemma within_iff lo hi b : within lo hi b = true <-> lo <= b <= hi.
Proof. unfold within. rewrite andb_true_iff, !Z.leb_le. done. Qed.

Lemma within_false lo hi b : ~ (lo <= b <= hi) -> within lo hi b = false.
Proof. intros H. apply not_true_is_false. by rewrite within_iff. Qed.

Ltac utf8_bounds :=
  repeat match goal with
  | H : within _ _ _ = true |- _ => apply within_iff in H
  | H : (_ && _)%bool = true |- _ => apply andb_prop in H as [? ?]
  end.

(** What the decoder reads of a character is what the encoder writes for it. *)
Lemma utf8_char_decode c l :
  scalar_value c -> utf8_decode (utf8_char c ++ l) = cons c <$> utf8_decode l.
Proof.
  intros Hc. unfold scalar_value in Hc. unfold utf8_char.
  destruct (Z.ltb_spec c 128); [|destruct (Z.ltb_spec c 2048); [|destruct (Z.ltb_spec c 65536)]];
    cbn [app utf8_decode].
  - by rewrite (proj2 (within_iff _ _ _)) by lia.
  - rewrite within_false, !(proj2 (within_iff _ _ _)) by div_lia_linear.
    do 2 f_equal. div_lia_linear.
  - rewrite !within_false, (proj2 (within_iff 224 239 _)) by div_lia_linear.
    rewrite !(proj2 (within_iff _ _ _)); [cbn [andb]; do 2 f_equal; div_lia_linear | div_lia_linear |].
    destruct (Z.eqb_spec (224 + c / 4096) 224), (Z.eqb_spec (224 + c / 4096) 237); div_lia_linear.
  - rewrite !(within_false _ _ (240 + c / 262144)) by div_lia_linear.
    rewrite (proj2 (within_iff 240 244 _)) by div_lia_linear.
    rewrite !(proj2 (within_iff _ _ _));
      [cbn [andb]; do 2 f_equal; div_lia_linear | div_lia_linear | div_lia_linear |].
    destruct (Z.eqb_spec (240 + c / 262144) 240), (Z.eqb_spec (240 + c / 262144) 244); div_lia_linear.
Qed.

Lemma utf8_decode_encode cs : Forall scalar_value cs -> utf8_decode (utf8_encode cs) = Some cs.
Proof.
  induction 1 as [|c cs Hc Hcs IH]; [done|]. unfold utf8_encode. cbn [map concat].
  rewrite utf8_char_decode by done. fold (utf8_encode cs). by rewrite IH.
Qed.

Lemma utf8_char_4 b x y z :
  240 <= b <= 244 -> (if b =? 240 then 144 else 128) <= x <= (if b =? 244 then 143 else 191) ->
  128 <= y <= 191 -> 128 <= z <= 191 ->
  let c := (b - 240) * 262144 + (x - 128) * 4096 + (y - 128) * 64 + (z - 128) in
  scalar_value c /\ utf8_char c = [b; x; y; z].
Proof.
  intros Hb Hx Hy Hz c.
  assert (65536 <= c < 1114112) by (unfold c; destruct (Z.eqb_spec b 240), (Z.eqb_spec b 244); lia).
  split; [by right; lia|]. unfold utf8_char.
  rewrite !(proj2 (Z.ltb_ge _ _)) by lia. unfold c. repeat f_equal; destruct (b =? 240), (b =? 244); div_lia_linear.
Qed.

Lemma utf8_char_3 b x y :
  224 <= b <= 239 -> (if b =? 224 then 160 else 128) <= x <= (if b =? 237 then 159 else 191) ->
  128 <= y <= 191 ->
  let c := (b - 224) * 4096 + (x - 128) * 64 + (y - 128) in
  scalar_value c /\ utf8_char c = [b; x; y].
Proof.
  intros Hb Hx Hy c.
  assert (2048 <= c < 55296 \/ 57344 <= c < 65536)
    by (unfold c; destruct (Z.eqb_spec b 224), (Z.eqb_spec b 237); lia).
  split; [by unfold scalar_value; lia|]. unfold utf8_char.
  rewrite !(proj2 (Z.ltb_ge _ _)), (proj2 (Z.ltb_lt _ _)) by lia. unfold c.
  repeat f_equal; destruct (b =? 224), (b =? 237); div_lia_linear.
Qed.

Lemma utf8_decode_step b l cs :
  utf8_decode (b :: l) = Some cs ->
  exists c l' cs', b :: l = utf8_char c ++ l' /\ scalar_value c /\ utf8_decode l' = Some cs'
    /\ cs = c :: cs'.
Proof.
  cbn [utf8_decode]. intros H.
  destruct (within 0 127 b) eqn:H1; utf8_bounds.
  { apply fmap_Some in H as (cs' & Hd & ->). exists b, l, cs'. unfold utf8_char.
    rewrite (proj2 (Z.ltb_lt _ _)) by lia. split_and!; [done | left; lia | done | done]. }
  destruct (within 194 223 b) eqn:H2; utf8_bounds.
  { destruct l as [|x l]; [done|]. destruct (continuation x) eqn:Hx; [|done]. utf8_bounds.
    apply fmap_Some in H as (cs' & Hd & ->). exists ((b - 192) * 64 + (x - 128)), l, cs'. unfold utf8_char.
    rewrite (proj2 (Z.ltb_ge _ _)), (proj2 (Z.ltb_lt _ _)) by lia.
    split_and!; [cbn [app]; repeat f_equal; div_lia_linear | left; lia | done | done]. }
  destruct (within 224 239 b) eqn:H3; utf8_bounds.
  { destruct l as [|x [|y l]]; [done..|]. destruct (_ && _) eqn:Hx; [|done]. utf8_bounds.
    apply fmap_Some in H as (cs' & Hd & ->). destruct (utf8_char_3 b x y) as [Hs Hc]; [done..|].
    eexists _, l, cs'. split_and!; [| exact Hs | done | done]. by rewrite Hc. }
  destruct (within 240 244 b) eqn:H4; utf8_bounds; [|done].
  destruct l as [|x [|y [|z l]]]; [done..|]. destruct (_ && _) eqn:Hx; [|done]. utf8_bounds.
  apply fmap_Some in H as (cs' & Hd & ->). destruct (utf8_char_4 b x y z) as [Hs Hc]; [done..|].
  eexists _, l, cs'. split_and!; [| exact Hs | done | done]. by rewrite Hc.
Qed.

(** The strict decoder accepts exactly the encodings of code points. *)
Lemma utf8_decode_iff l cs :
  utf8_decode l = Some cs <-> Forall scalar_value cs /\ l = utf8_encode cs.
Proof.
  split; [|intros [Hs ->]; by apply utf8_decode_encode].
  remember (length l) as n eqn:Hn. revert l cs Hn.
  induction (lt_wf n) as [n _ IH]. intros l cs -> Hd.
  destruct l as [|b l]; [injection Hd as <-; by split|].
  apply utf8_decode_step in Hd as (c & l' & cs' & Hl & Hc & Hd & ->).
  destruct (IH (length l')) with (l := l') (cs := cs') as [Hs ->]; [| done | done |].
  - rewrite Hl, length_app. unfold utf8_char. repeat case_match; cbn; lia.
  - split; [by constructor|]. by rewrite Hl.
Qed.
