(* ===== verification/Encoding.v ===== *)
(** * Text encodings of bytes (src/polystore-website/src/lib/retrieval.ts)

    [hex] and [unhex], and the strict [base64] reader over the platform's
    [atob] and [btoa].  [atob] is the forgiving decoder of the platform: it drops
    white space and padding and ignores stray low bits, which is why the reader
    compares [btoa] of what it decoded with what it was given. *)

From S2P Require Import Prelude JsNumber JsString JsBytes.
Local Open Scope Z_scope.

(** ** Hexadecimal *)

Definition hex_char (n : Z) : Z := if n <? 10 then 48 + n else 87 + n.
Definition is_hex (c : Z) : bool := ((48 <=? c) && (c <=? 57)) || ((97 <=? c) && (c <=? 102)).
Definition hex_value (c : Z) : Z := if c <=? 57 then c - 48 else c - 87.

(** [Array.from(bytes, (b) => b.toString(16).padStart(2, '0')).join('')] *)
Fixpoint hex_codes (l : bytes) : list Z :=
  match l with
  | [] => []
  | b :: l => hex_char (b / 16) :: hex_char (b mod 16) :: hex_codes l
  end.
Definition hex (l : bytes) : string := of_codes (48 :: 120 :: hex_codes l).

(** [value.slice(2).match(/../g)] read in base 16, two characters at a time. *)
Fixpoint unhex_codes (l : list Z) : bytes :=
  match l with
  | a :: b :: l => hex_value a * 16 + hex_value b :: unhex_codes l
  | _ => []
  end.

Definition unhex (value : string) (length : Z) : result bytes :=
  match codes value with
  | c0 :: c1 :: digits =>
      throw_if negb (slen value =? 2 + length * 2) || negb (c0 =? 48) || negb (c1 =? 120)
               || negb (forallb is_hex digits) || bool_decide (digits = [])
        with "invalid canonical hex" else
      Ok (unhex_codes digits)
  | _ => Err "invalid canonical hex"
  end.

(** ** Base 64 *)

Definition b64_char (n : Z) : Z :=
  if n <? 26 then 65 + n else if n <? 52 then 71 + n else if n <? 62 then n - 4
  else if n =? 62 then 43 else 47.
Definition b64_value (c : Z) : option Z :=
  if (65 <=? c) && (c <=? 90) then Some (c - 65)
  else if (97 <=? c) && (c <=? 122) then Some (c - 71)
  else if (48 <=? c) && (c <=? 57) then Some (c + 4)
  else if c =? 43 then Some 62 else if c =? 47 then Some 63 else None.

(** [btoa]: the 6-bit groups of the bytes, the last one filled with zero bits, and
    the padding. *)
Fixpoint to_sextets (l : bytes) : list Z :=
  match l with
  | a :: b :: c :: l =>
      a / 4 :: a mod 4 * 16 + b / 16 :: b mod 16 * 4 + c / 64 :: c mod 64 :: to_sextets l
  | [a; b] => [a / 4; a mod 4 * 16 + b / 16; b mod 16 * 4]
  | [a] => [a / 4; a mod 4 * 16]
  | [] => []
  end.
Fixpoint btoa_pad (l : bytes) : list Z :=
  match l with
  | _ :: _ :: _ :: l => btoa_pad l
  | [_; _] => [61]
  | [_] => [61; 61]
  | [] => []
  end.
Definition btoa (l : bytes) : string := of_codes (map b64_char (to_sextets l) ++ btoa_pad l).

Definition is_space (c : Z) : bool :=
  (c =? 9) || (c =? 10) || (c =? 12) || (c =? 13) || (c =? 32).

(** Removal of one or two trailing padding characters. *)
Fixpoint strip_pad (l : list Z) : list Z :=
  match l with
  | [] => []
  | x :: l' => if bool_decide (l = [61]) || bool_decide (l = [61; 61]) then [] else x :: strip_pad l'
  end.

(** Sextets to bytes; a single left-over sextet is an error. *)
Fixpoint sextets (l : list Z) : option bytes :=
  match l with
  | a :: b :: c :: d :: l =>
      r ← sextets l;
      Some (a * 4 + b / 16 :: b mod 16 * 16 + c / 4 :: c mod 4 * 64 + d :: r)
  | [a; b; c] => Some [a * 4 + b / 16; b mod 16 * 16 + c / 4]
  | [a; b] => Some [a * 4 + b / 16]
  | [_] => None
  | [] => Some []
  end.

Definition atob (s : string) : option bytes :=
  let l := List.filter (fun c => negb (is_space c)) (codes s) in
  let l := if Z.of_nat (length l) mod 4 =? 0 then strip_pad l else l in
  vs ← mapM b64_value l; sextets vs.

Definition base64 (value : string) (length : Z) : result bytes :=
  throw_if negb (slen value =? 4 * ceil_div length 3) with "invalid base64 length" else
  match atob value with
  | None => Err "invalid base64"
  | Some decoded =>
      throw_if negb (blen decoded =? length) || negb (String.eqb (btoa decoded) value)
        with "noncanonical base64" else
      Ok decoded
  end.

(** [equal(a, b)] *)
Definition equal (a b : bytes) : bool :=
  (blen a =? blen b) && forallb (fun '(x, y) => x =? y) (zip a b).

(** ** Lemmas *)

Lemma equal_iff a b : equal a b = true <-> a = b.
Proof.
  unfold equal. rewrite andb_true_iff, Z.eqb_eq. split.
  - revert b. induction a as [|x a IH]; intros [|y b] [Hl Hz]; unfold blen in *; cbn in *; try lia; [done|].
    apply andb_true_iff in Hz as [?%Z.eqb_eq ?]. subst. f_equal. apply IH. split; [lia | done].
  - intros ->. split; [done|]. induction b as [|x b IH]; cbn; [done|]. by rewrite Z.eqb_refl.
Qed.

(** Induction that takes three bytes at a time. *)
Lemma bytes_ind3 (P : bytes -> Prop) :
  P [] -> (forall a, P [a]) -> (forall a b, P [a; b]) ->
  (forall a b c l, P l -> P (a :: b :: c :: l)) -> forall l, P l.
Proof.
  intros H0 H1 H2 H3.
  assert (H : forall n l, (length l <= n)%nat -> P l).
  { induction n as [|n IH]; intros [|a [|b [|c l]]] Hl; simpl in Hl; try done; try lia.
    apply H3, IH. lia. }
  intros l. by apply (H (length l)).
Qed.

Lemma hex_char_value n : 0 <= n < 16 -> hex_value (hex_char n) = n /\ is_hex (hex_char n) = true.
Proof.
  intros. unfold hex_value, hex_char, is_hex.
  destruct (Z.ltb_spec n 10); [destruct (Z.leb_spec (48 + n) 57)|destruct (Z.leb_spec (87 + n) 57)]; lia.
Qed.

Lemma hex_value_char c : is_hex c = true -> 0 <= hex_value c < 16 /\ hex_char (hex_value c) = c.
Proof.
  unfold is_hex, hex_value, hex_char. intros H.
  destruct (Z.leb_spec c 57); [destruct (Z.ltb_spec (c - 48) 10)|destruct (Z.ltb_spec (c - 87) 10)]; lia.
Qed.

Lemma unhex_hex_codes l :
  Forall byte_ok l -> unhex_codes (hex_codes l) = l /\ forallb is_hex (hex_codes l) = true
    /\ Z.of_nat (length (hex_codes l)) = 2 * blen l.
Proof.
  unfold byte_ok, blen.
  induction 1 as [|b l Hb Hl (IH1 & IH2 & IH3)]; cbn [hex_codes unhex_codes forallb length]; [done|].
  destruct (hex_char_value (b / 16)) as [-> ->]; [div_lia_linear|].
  destruct (hex_char_value (b mod 16)) as [-> ->]; [div_lia_linear|].
  rewrite IH1, IH2. split_and!; [f_equal; div_lia_linear | done | lia].
Qed.

Lemma hex_unhex_codes n l :
  Z.of_nat (length l) = 2 * Z.of_nat n -> forallb is_hex l = true ->
  hex_codes (unhex_codes l) = l /\ Forall byte_ok (unhex_codes l) /\ blen (unhex_codes l) = Z.of_nat n.
Proof.
  revert l; induction n as [|n IH]; intros [|a [|b l]] Hl Hall; cbn [length] in Hl; try lia.
  { by split_and!. }
  cbn [forallb] in Hall. bool_to_prop. cbn [unhex_codes hex_codes].
  destruct (hex_value_char a) as [? Ha]; [done|]. destruct (hex_value_char b) as [? Hb]; [done|].
  destruct (IH l) as (IH1 & IH2 & IH3); [lia | done |].
  rewrite (div_base (hex_value a) (hex_value b) 16), mod_base, Ha, Hb, IH1 by lia.
  split_and!; [done | constructor; [unfold byte_ok; lia | done] |].
  unfold blen in *. cbn [length]. lia.
Qed.

Lemma hex_codes_bytes l : Forall byte_ok l -> Forall byte_ok (hex_codes l).
Proof.
  unfold byte_ok. induction 1; cbn [hex_codes]; [constructor|].
  repeat constructor; try done; unfold hex_char; case_match; bool_to_prop; div_lia_linear.
Qed.

Lemma codes_hex l : Forall byte_ok l -> codes (hex l) = 48 :: 120 :: hex_codes l.
Proof.
  intros Hl. unfold hex. apply codes_of_codes.
  repeat constructor; try lia. by apply hex_codes_bytes.
Qed.

Lemma b64_char_value n : 0 <= n < 64 ->
  b64_value (b64_char n) = Some n /\ is_space (b64_char n) = false /\ b64_char n <> 61
  /\ byte_ok (b64_char n).
Proof.
  intros. unfold b64_value, b64_char, is_space, byte_ok.
  repeat case_match; bool_to_prop; split_and!; try (f_equal; lia); try lia; try done;
    exfalso; unfold is_true in *; lia.
Qed.

Lemma to_sextets_spec l :
  Forall byte_ok l ->
  Forall (fun n => 0 <= n < 64) (to_sextets l) /\ sextets (to_sextets l) = Some l
  /\ Z.of_nat (length (to_sextets l) + length (btoa_pad l)) = 4 * - (- blen l / 3)
  /\ (btoa_pad l = [] \/ btoa_pad l = [61] \/ btoa_pad l = [61; 61]).
Proof.
  unfold byte_ok, blen. induction l as [|a|a b|a b c l IH] using bytes_ind3;
    intros Hl; cbn [to_sextets btoa_pad sextets].
  - split_and!; [constructor | done | done | by left].
  - apply Forall_cons in Hl as [? _]. split_and!; [|f_equal; f_equal; div_lia_linear|done|by right; right].
    repeat constructor; div_lia_linear.
  - apply Forall_cons in Hl as [? [? _]%Forall_cons].
    split_and!; [|do 2 f_equal; [|f_equal]; div_lia_linear|done|by right; left].
    repeat constructor; div_lia_linear.
  - apply Forall_cons in Hl as [? [? [? Hl]%Forall_cons]%Forall_cons].
    destruct (IH Hl) as (IH1 & IH2 & IH3 & IH4). rewrite IH2. split_and!; [| | |done].
    + repeat constructor; try done; div_lia_linear.
    + cbn. do 2 f_equal; [|f_equal; [|f_equal]]; div_lia_linear.
    + cbn [length]. div_lia_linear.
Qed.

Lemma strip_pad_app x pad :
  Forall (fun c => c <> 61) x -> pad = [] \/ pad = [61] \/ pad = [61; 61] ->
  strip_pad (x ++ pad) = x.
Proof.
  intros Hx Hpad. induction Hx as [|c x Hc Hx IH]; cbn [app].
  - by destruct Hpad as [->|[->| ->]].
  - cbn [strip_pad]. rewrite !bool_decide_eq_false_2 by congruence. cbn [orb]. by rewrite IH.
Qed.

Lemma mapM_b64 s : Forall (fun n => 0 <= n < 64) s -> mapM b64_value (map b64_char s) = Some s.
Proof.
  induction 1 as [|n s Hn Hs IH]; [done|]. cbn. rewrite IH.
  by destruct (b64_char_value n Hn) as [-> _].
Qed.

Lemma atob_btoa l : Forall byte_ok l -> atob (btoa l) = Some l.
Proof.
  intros Hl. destruct (to_sextets_spec l Hl) as (Hs & Hsx & Hlen & Hpad).
  assert (Hb : Forall byte_ok (map b64_char (to_sextets l) ++ btoa_pad l)).
  { apply Forall_app. split; [|by destruct Hpad as [->|[->| ->]]; repeat constructor].
    apply Forall_map. eapply Forall_impl; [exact Hs|]. intros n Hn. by apply b64_char_value. }
  unfold atob, btoa. rewrite codes_of_codes by exact Hb.
  replace (List.filter _ _) with (map b64_char (to_sextets l) ++ btoa_pad l).
  2: { symmetry. apply forallb_filter_id, forallb_forall. intros c Hc.
       apply in_app_or in Hc as [Hc|Hc].
       - apply in_map_iff in Hc as (n & <- & Hn). apply negb_true_iff.
         rewrite Forall_forall in Hs. apply (b64_char_value n), Hs, list_elem_of_In, Hn.
       - destruct Hpad as [Hp|[Hp|Hp]]; rewrite Hp in Hc; cbn in Hc;
           repeat (destruct Hc as [<-|Hc]; [done|]); done. }
  rewrite length_app, length_map, Hlen. rewrite Z.mul_comm, Z.mod_mul by lia. cbn [Z.eqb].
  rewrite strip_pad_app; [|apply Forall_map; eapply Forall_impl; [exact Hs|]; intros n Hn;
    by apply b64_char_value | done].
  by rewrite mapM_b64.
Qed.

Lemma b64_value_bounds c n : b64_value c = Some n -> 0 <= n < 64.
Proof. unfold b64_value. repeat case_match; intros [= <-]; bool_to_prop; lia. Qed.

Lemma sextets_bytes n l r :
  (length l <= n)%nat -> Forall (fun n => 0 <= n < 64) l -> sextets l = Some r -> Forall byte_ok r.
Proof.
  unfold byte_ok. revert l r; induction n as [|n IH]; intros [|a [|b [|c [|d l]]]] r Hl Hall Hr;
    cbn [length] in Hl; try lia; cbn [sextets] in Hr; simplify_eq; try constructor;
    repeat match goal with H : Forall _ (_ :: _) |- _ => apply Forall_cons in H as [? H] end.
  all: repeat constructor; try div_lia_linear.
  apply bind_Some in Hr as (r' & Hr' & [= <-]).
  repeat constructor; try div_lia_linear. eapply IH; [|exact Hall | done]. lia.
Qed.

Lemma atob_bytes s l : atob s = Some l -> Forall byte_ok l.
Proof.
  unfold atob. intros (vs & Hvs & Hl)%bind_Some.
  apply (sextets_bytes (length vs) vs); [lia | | done].
  apply mapM_Some in Hvs. clear Hl. induction Hvs as [|c n cs ns Hc _ IH]; constructor; [|done].
  by apply b64_value_bounds in Hc.
Qed.

(** ** Theorems *)

(** [unhex] accepts exactly the strings that [hex] prints: it returns bytes
    only for their one lower-case spelling, of the length asked for. *)
Theorem unhex_iff value n l :
  unhex value n = Ok l <->
  value = hex l /\ Forall byte_ok l /\ l <> [] /\ blen l = n.
Proof.
  unfold unhex. split.
  - intros H. destruct (codes value) as [|a [|b ds]] eqn:Hc; [done..|].
    ok_step H. injection H as <-. bool_to_prop. subst a b.
    pose proof (length_codes value) as Hlen. rewrite Hc in Hlen. cbn [length] in Hlen.
    assert (0 < Z.of_nat (length ds)) by (destruct ds; [done | cbn; lia]).
    destruct (hex_unhex_codes (Z.to_nat n) ds) as (Hx & Hb & Hl); [lia | done |].
    split_and!; [|done| |lia].
    + unfold hex. by rewrite Hx, <- Hc, of_codes_codes.
    + intros Hn. rewrite Hn in Hl. unfold blen in Hl. cbn [length] in Hl. lia.
  - intros (-> & Hb & Hne & Hn). rewrite codes_hex by done. rewrite !Z.eqb_refl.
    destruct (unhex_hex_codes l Hb) as (H1 & H2 & H3).
    assert (slen (hex l) = 2 + 2 * blen l) as ->
      by (unfold hex; rewrite slen_of_codes; cbn [length]; lia).
    rewrite H1, H2, (proj2 (Z.eqb_eq _ _)) by lia.
    rewrite bool_decide_eq_false_2; [done|]. destruct l; [done | by cbn].
Qed.

(** The strict reader accepts exactly the canonical base 64 text of [n] bytes. *)
Theorem base64_iff value n l :
  0 <= n <= MAX_SAFE_INTEGER ->
  base64 value n = Ok l <-> value = btoa l /\ Forall byte_ok l /\ blen l = n.
Proof.
  intros Hn. unfold base64. rewrite ceil_div_exact by (unfold safe; lia). split.
  - intros H. ok_step H. destruct (atob value) as [d|] eqn:Hd; [|done]. ok_step H.
    injection H as ->. bool_to_prop. apply String.eqb_eq in H0.
    split_and!; [done | by eapply atob_bytes | done].
  - intros (-> & Hb & Hl). destruct (to_sextets_spec l Hb) as (_ & _ & Hlen & _).
    rewrite atob_btoa by done. rewrite Hl, Z.eqb_refl, String.eqb_refl.
    unfold btoa. rewrite slen_of_codes, length_app, length_map, Hlen, Hl, Z.eqb_refl. done.
Qed.

Lemma base64_iff_witness :
  base64 "AQID" 3 = Ok [1; 2; 3].
Proof.
  apply (base64_iff "AQID" 3 [1; 2; 3]); [unfold MAX_SAFE_INTEGER; lia|].
  split; [reflexivity|]. split; [repeat constructor; unfold byte_ok; lia | reflexivity].
Defined.
