(* ===== verification/Layout.v ===== *)
(** * PolyFS layout arithmetic (src/polystore-website/src/domain/polyfsLayout.ts)

    Sizes of blobs and MDUs, the raw-to-encoded position map, the byte range to
    blob range resolution, the stripe geometry, the witness size and the packed
    length words of the file table.  Arithmetic is the [Number] arithmetic of
    [JsNumber]: sums and products are rounded, quotients are rounded before
    [Math.floor] or [Math.ceil].  The theorems show that the guards keep every
    step exact and that the results mean what their names say. *)

From S2P Require Import Prelude JsNumber JsString.
Local Open Scope Z_scope.

(** ** Constants *)

Definition BLOB_SIZE_BYTES : Z := 128 * 1024.
Definition BLOBS_PER_MDU : Z := 64.
Definition MDU_SIZE_BYTES : Z := BLOB_SIZE_BYTES * BLOBS_PER_MDU.
Definition KZG_COMMITMENT_BYTES : Z := 48.

Definition POLYFS_SCALAR_BYTES : Z := 32.
Definition POLYFS_SCALAR_PAYLOAD_BYTES : Z := 31.
Definition POLYFS_SCALARS_PER_MDU : Z := floor_div MDU_SIZE_BYTES POLYFS_SCALAR_BYTES.
Definition RAW_MDU_CAPACITY_BYTES : Z := POLYFS_SCALARS_PER_MDU * POLYFS_SCALAR_PAYLOAD_BYTES.

Definition POLYFS_ROOT_TABLE_BLOBS : Z := 16.
Definition POLYFS_FILE_TABLE_BLOBS : Z := BLOBS_PER_MDU - POLYFS_ROOT_TABLE_BLOBS.
Definition POLYFS_ROOT_SIZE_BYTES : Z := 32.
Definition POLYFS_FILE_TABLE_HEADER_BYTES : Z := 128.
Definition POLYFS_FILE_RECORD_BYTES : Z := 256.
Definition POLYFS_ROOT_TABLE_CAPACITY : Z :=
  floor_div (POLYFS_ROOT_TABLE_BLOBS * BLOB_SIZE_BYTES) POLYFS_ROOT_SIZE_BYTES.
Definition POLYFS_FAT_LOGICAL_BYTES : Z :=
  floor_div (POLYFS_FILE_TABLE_BLOBS * BLOB_SIZE_BYTES) 32 * 31.
Definition POLYFS_FILE_RECORD_CAPACITY : Z :=
  floor_div (POLYFS_FAT_LOGICAL_BYTES - POLYFS_FILE_TABLE_HEADER_BYTES) POLYFS_FILE_RECORD_BYTES.

(** ** Guards and positions *)

Definition asNonNegativeInteger (value : number) (label : string) : result Z :=
  throw_if negb (isSafeInteger value) || num_ltz value
    with label +:+ " must be a non-negative safe integer" else
  Ok (num_int value).

Definition computeUserMduCount (sizeBytes rawMduCapacityBytes : number) : result Z :=
  let! size := asNonNegativeInteger sizeBytes "sizeBytes" in
  let! capacity := asNonNegativeInteger rawMduCapacityBytes "rawMduCapacityBytes" in
  if size =? 0 then Ok 0 else
  throw_if capacity <=? 0 with "rawMduCapacityBytes must be positive" else
  Ok (ceil_div size capacity).

Record EncodedPosition := {
  scalarIndex : Z;
  payloadOffset : Z;
  encodedByteOffset : Z;
  encodedBlobIndex : Z }.

Definition rawOffsetToEncodedPosition (rawOffsetInMdu : number) : result EncodedPosition :=
  let! rawOffset := asNonNegativeInteger rawOffsetInMdu "rawOffsetInMdu" in
  throw_if RAW_MDU_CAPACITY_BYTES <=? rawOffset
    with "rawOffsetInMdu must be < " +:+ pretty RAW_MDU_CAPACITY_BYTES else
  let scalarIndex := floor_div rawOffset POLYFS_SCALAR_PAYLOAD_BYTES in
  let payloadOffset := Z.rem rawOffset POLYFS_SCALAR_PAYLOAD_BYTES in
  let encodedByteOffset :=
    num_add (num_add (num_mul scalarIndex POLYFS_SCALAR_BYTES) 1) payloadOffset in
  let encodedBlobIndex := floor_div encodedByteOffset BLOB_SIZE_BYTES in
  Ok {| scalarIndex := scalarIndex; payloadOffset := payloadOffset;
        encodedByteOffset := encodedByteOffset; encodedBlobIndex := encodedBlobIndex |}.

Record PolyfsRangeInput := {
  witnessMdus : number;
  startOffsetBytes : number;
  sizeBytes : number;
  rawMduCapacityBytes : option number }.

Record PolyfsResolvedRange := {
  metaMdus : Z;
  userMduStart : Z;
  userMduEnd : Z;
  slabMduStart : Z;
  slabMduEnd : Z;
  rawOffsetInFirstMdu : Z;
  rawOffsetInLastMdu : Z;
  encodedBlobStart : Z;
  encodedBlobEnd : Z;
  globalBlobStart : Z;
  globalBlobEnd : Z }.

(** [null] is [None]. *)
Definition computePolyfsResolvedRange (input : PolyfsRangeInput)
    : result (option PolyfsResolvedRange) :=
  let! witnessMdus := asNonNegativeInteger (witnessMdus input) "witnessMdus" in
  let! startOffset := asNonNegativeInteger (startOffsetBytes input) "startOffsetBytes" in
  let! sizeBytes := asNonNegativeInteger (sizeBytes input) "sizeBytes" in
  let! capacity :=
    asNonNegativeInteger (default (int RAW_MDU_CAPACITY_BYTES) (rawMduCapacityBytes input))
      "rawMduCapacityBytes" in
  throw_if capacity <=? 0 with "rawMduCapacityBytes must be positive" else
  if sizeBytes =? 0 then Ok None else
  let! metaMdus := asNonNegativeInteger (int (num_add 1 witnessMdus)) "metaMdus" in
  let! endOffset :=
    asNonNegativeInteger (int (num_add startOffset (sizeBytes - 1))) "endOffset" in
  let userMduStart := floor_div startOffset capacity in
  let userMduEnd := floor_div endOffset capacity in
  let! slabMduStart :=
    asNonNegativeInteger (int (num_add metaMdus userMduStart)) "slabMduStart" in
  let! slabMduEnd :=
    asNonNegativeInteger (int (num_add metaMdus userMduEnd)) "slabMduEnd" in
  let rawOffsetInFirstMdu := Z.rem startOffset capacity in
  let rawOffsetInLastMdu := Z.rem endOffset capacity in
  let! first := rawOffsetToEncodedPosition (int rawOffsetInFirstMdu) in
  let! last := rawOffsetToEncodedPosition (int rawOffsetInLastMdu) in
  let encodedBlobStart := encodedBlobIndex first in
  let encodedBlobEnd := encodedBlobIndex last in
  Ok (Some {|
    metaMdus := metaMdus;
    userMduStart := userMduStart;
    userMduEnd := userMduEnd;
    slabMduStart := slabMduStart;
    slabMduEnd := slabMduEnd;
    rawOffsetInFirstMdu := rawOffsetInFirstMdu;
    rawOffsetInLastMdu := rawOffsetInLastMdu;
    encodedBlobStart := encodedBlobStart;
    encodedBlobEnd := encodedBlobEnd;
    globalBlobStart := slabMduStart * BLOBS_PER_MDU + encodedBlobStart;
    globalBlobEnd := slabMduEnd * BLOBS_PER_MDU + encodedBlobEnd |}).

(** ** Stripe geometry *)

Record StripeProfile := {
  sp_k : Z;
  sp_m : Z;
  sp_n : Z;
  sp_rows : Z;
  sp_leafCount : Z }.

Definition computeStripeProfile (k m : number) : result StripeProfile :=
  let! safeK := asNonNegativeInteger k "k" in
  let! safeM := asNonNegativeInteger m "m" in
  throw_if safeK <=? 0 with "k must be positive" else
  throw_if negb (Z.rem BLOBS_PER_MDU safeK =? 0)
    with "k must divide " +:+ pretty BLOBS_PER_MDU else
  let! n := asNonNegativeInteger (int (num_add safeK safeM)) "n" in
  throw_if 256 <? n with "Mode 2 n must be <= 256" else
  let rows := floor_div BLOBS_PER_MDU safeK in
  Ok {| sp_k := safeK; sp_m := safeM; sp_n := n; sp_rows := rows;
        sp_leafCount := num_mul n rows |}.

Definition leafIndexForSlotRow (profile : StripeProfile) (slot row : number) : result Z :=
  let! safeSlot := asNonNegativeInteger slot "slot" in
  let! safeRow := asNonNegativeInteger row "row" in
  throw_if sp_n profile <=? safeSlot with "slot must be < " +:+ pretty (sp_n profile) else
  throw_if sp_rows profile <=? safeRow with "row must be < " +:+ pretty (sp_rows profile) else
  Ok (num_add (num_mul safeSlot (sp_rows profile)) safeRow).

Definition slotRowForLeafIndex (profile : StripeProfile) (leafIndex : number)
    : result (Z * Z) :=
  let! safeLeaf := asNonNegativeInteger leafIndex "leafIndex" in
  throw_if sp_leafCount profile <=? safeLeaf
    with "leafIndex must be < " +:+ pretty (sp_leafCount profile) else
  Ok (floor_div safeLeaf (sp_rows profile), Z.rem safeLeaf (sp_rows profile)).

Record WitnessLayout := {
  wl_profile : StripeProfile;
  witnessBytesPerUserMdu : Z;
  totalWitnessBytes : Z;
  witnessMduCount : Z;
  wl_rawMduCapacityBytes : Z }.

Definition computeWitnessLayout
    (totalUserMdus k m : number) (rawMduCapacityBytes : option number) : result WitnessLayout :=
  let! totalUserMdus := asNonNegativeInteger totalUserMdus "totalUserMdus" in
  let! capacity :=
    asNonNegativeInteger (default (int RAW_MDU_CAPACITY_BYTES) rawMduCapacityBytes)
      "rawMduCapacityBytes" in
  throw_if capacity <=? 0 with "rawMduCapacityBytes must be positive" else
  let! profile := computeStripeProfile k m in
  let witnessBytesPerUserMdu := num_mul (sp_leafCount profile) KZG_COMMITMENT_BYTES in
  let! totalWitnessBytes :=
    asNonNegativeInteger (int (num_mul totalUserMdus witnessBytesPerUserMdu))
      "totalWitnessBytes" in
  let witnessMduCount := Z.max 1 (ceil_div totalWitnessBytes capacity) in
  Ok {| wl_profile := profile;
        witnessBytesPerUserMdu := witnessBytesPerUserMdu;
        totalWitnessBytes := totalWitnessBytes;
        witnessMduCount := witnessMduCount;
        wl_rawMduCapacityBytes := capacity |}.

(** ** Packed length words *)

Definition LENGTH_MASK : Z := 0x00ffffffffffffff.

Definition packLengthAndFlags (length flags : number) : result Z :=
  let! safeLength := asNonNegativeInteger length "length" in
  let! safeFlags := asNonNegativeInteger flags "flags" in
  throw_if (LENGTH_MASK <? safeLength) || (255 <? safeFlags)
    with "length or flags overflow" else
  Ok (Z.lor (Z.shiftl safeFlags 56) safeLength).

(** [Number(value & mask)] rounds to a double before it is checked. *)
Definition unpackLengthAndFlags (value : Z) : result (Z * Z) :=
  throw_if (value <? 0) || (0xffffffffffffffff <? value) with "invalid packed length" else
  let! length :=
    asNonNegativeInteger (int (round53 (Z.land value LENGTH_MASK))) "length" in
  Ok (length, Z.land (Z.shiftr value 56) 0xff).

(** ** The committed layout of a deal *)

Record CommittedLayout := { cl_totalMdus : Z; cl_witnessMdus : Z; cl_userMdus : Z }.

Definition committedCount (value : option string) (label : string) : result Z :=
  match value with
  | Some s =>
      throw_if negb (canonical_decimal s) || (5 <? slen s)
        with "invalid committed " +:+ label else
      Ok (parse_decimal s)
  | None => Err ("invalid committed " +:+ label)
  end.

Definition committedPolyfsLayout (total_mdus witness_mdus : option string)
    : result CommittedLayout :=
  let! totalMdus := committedCount total_mdus "total_mdus" in
  let! witnessMdus := committedCount witness_mdus "witness_mdus" in
  throw_if (totalMdus <? 1) || (POLYFS_ROOT_TABLE_CAPACITY + 1 <? totalMdus)
           || (totalMdus <=? witnessMdus)
    with "invalid committed PolyFS layout" else
  Ok {| cl_totalMdus := totalMdus; cl_witnessMdus := witnessMdus;
        cl_userMdus := totalMdus - witnessMdus - 1 |}.

(** ** What the definitions are compared with *)

(** Raw bytes per blob: 4096 scalars of 31 payload bytes. *)
Definition RAW_BLOB : Z := 126976.

(** The blob of the slab that holds byte [o] of the user data, when [w] witness
    MDUs precede it. *)
Definition globalBlobOf (w o : Z) : Z :=
  (1 + w + o / RAW_MDU_CAPACITY_BYTES) * BLOBS_PER_MDU
  + o mod RAW_MDU_CAPACITY_BYTES / RAW_BLOB.

(** Profiles that [computeStripeProfile] returns. *)
Definition profile_wf (p : StripeProfile) : Prop :=
  0 < sp_k p <= sp_n p /\ sp_n p = sp_k p + sp_m p /\ sp_n p <= 256 /\
  0 < sp_rows p <= BLOBS_PER_MDU /\ sp_k p * sp_rows p = BLOBS_PER_MDU /\
  sp_leafCount p = sp_n p * sp_rows p.

(** ** Lemmas *)

Lemma RAW_MDU_CAPACITY_BYTES_eq : RAW_MDU_CAPACITY_BYTES = 8126464.
Proof. reflexivity. Qed.
Lemma POLYFS_ROOT_TABLE_CAPACITY_eq : POLYFS_ROOT_TABLE_CAPACITY = 65536.
Proof. reflexivity. Qed.
Lemma POLYFS_FAT_LOGICAL_BYTES_eq : POLYFS_FAT_LOGICAL_BYTES = 6094848.
Proof. reflexivity. Qed.
Lemma POLYFS_FILE_RECORD_CAPACITY_eq : POLYFS_FILE_RECORD_CAPACITY = 23807.
Proof. reflexivity. Qed.

Lemma asNonNegativeInteger_int z label :
  asNonNegativeInteger (int z) label
  = if safeb z then Ok z else Err (label +:+ " must be a non-negative safe integer").
Proof.
  unfold asNonNegativeInteger. autorewrite with js. simpl.
  unfold safeb. destruct (Z.ltb_spec z 0), (Z.leb_spec (Z.abs z) MAX_SAFE_INTEGER),
    (Z.leb_spec 0 z), (Z.leb_spec z MAX_SAFE_INTEGER); simpl; try done; lia.
Qed.

(** What the guard lets through is a safe non-negative integer. *)
Lemma asNonNegativeInteger_safe n label z :
  asNonNegativeInteger n label = Ok z -> safe z.
Proof.
  unfold asNonNegativeInteger. intros H. ok_steps H.
  destruct n as [q| |]; cbn in *; try discriminate.
  bool_to_prop. unfold safe, qfloor in *.
  pose proof (Z.div_pos (Qnum q) (QDen q) ltac:(lia) ltac:(lia)). lia.
Qed.

(** A checked sum or product is the exact one. *)
Lemma asNonNegativeInteger_round53 z label :
  0 <= z -> asNonNegativeInteger (int (round53 z)) label = asNonNegativeInteger (int z) label.
Proof.
  intros Hz. rewrite !asNonNegativeInteger_int, round53_safeb by done.
  destruct (safeb_spec z); [|done]. by rewrite round53_exact.
Qed.

Lemma asNonNegativeInteger_int_Ok z label v :
  asNonNegativeInteger (int z) label = Ok v <-> v = z /\ safe z.
Proof.
  rewrite asNonNegativeInteger_int. destruct (safeb_spec z).
  - split; [by intros [= <-] | by intros [-> _]].
  - split; [done | by intros [_ ?]].
Qed.

#[export] Hint Rewrite floor_div_exact ceil_div_exact round53_exact
  using (try done; unfold safe, MAX_SAFE_INTEGER in *; lia) : js.

Ltac layout_consts :=
  change RAW_MDU_CAPACITY_BYTES with 8126464 in *;
  change POLYFS_ROOT_TABLE_CAPACITY with 65536 in *;
  unfold safe in *;
  unfold MDU_SIZE_BYTES, BLOB_SIZE_BYTES, BLOBS_PER_MDU, KZG_COMMITMENT_BYTES,
    POLYFS_SCALAR_BYTES, POLYFS_SCALAR_PAYLOAD_BYTES, RAW_BLOB, MAX_SAFE_INTEGER in *.

(** The position map in closed form, on the offsets the code accepts. *)
Lemma rawOffsetToEncodedPosition_eq z :
  0 <= z < RAW_MDU_CAPACITY_BYTES ->
  rawOffsetToEncodedPosition (int z) =
  Ok {| scalarIndex := z / 31; payloadOffset := z mod 31;
        encodedByteOffset := 32 * (z / 31) + 1 + z mod 31;
        encodedBlobIndex := z / RAW_BLOB |}.
Proof.
  intros Hz. unfold rawOffsetToEncodedPosition, num_add, num_mul.
  rewrite asNonNegativeInteger_int, safeb_true by (layout_consts; lia). simpl.
  rewrite (proj2 (Z.leb_gt _ _)) by lia. layout_consts.
  assert (0 <= z / 31 < 262144 /\ 0 <= z mod 31 < 31 /\ z = 31 * (z / 31) + z mod 31)
    as (? & ? & ?) by div_lia_linear.
  rewrite Z.rem_mod_nonneg by lia. rewrite (floor_div_exact z) by (layout_consts; lia).
  rewrite (round53_exact (z / 31 * 32)), (round53_exact (z / 31 * 32 + 1)), round53_exact
    by (layout_consts; lia).
  rewrite floor_div_exact by (layout_consts; lia). do 2 f_equal; [lia | div_lia_linear].
Qed.

Lemma globalBlobOf_eq w o : 0 <= o -> globalBlobOf w o = (1 + w) * 64 + o / RAW_BLOB.
Proof. intros. unfold globalBlobOf. layout_consts. div_lia_linear. Qed.

Lemma computePolyfsResolvedRange_eq w s n :
  safe w -> safe s -> 0 < n -> safe n -> safe (s + n - 1) ->
  safe (1 + w + (s + n - 1) / RAW_MDU_CAPACITY_BYTES) ->
  let e := s + n - 1 in
  computePolyfsResolvedRange
    {| witnessMdus := int w; startOffsetBytes := int s; sizeBytes := int n;
       rawMduCapacityBytes := None |} =
  Ok (Some {|
    metaMdus := 1 + w;
    userMduStart := s / RAW_MDU_CAPACITY_BYTES;
    userMduEnd := e / RAW_MDU_CAPACITY_BYTES;
    slabMduStart := 1 + w + s / RAW_MDU_CAPACITY_BYTES;
    slabMduEnd := 1 + w + e / RAW_MDU_CAPACITY_BYTES;
    rawOffsetInFirstMdu := s mod RAW_MDU_CAPACITY_BYTES;
    rawOffsetInLastMdu := e mod RAW_MDU_CAPACITY_BYTES;
    encodedBlobStart := s mod RAW_MDU_CAPACITY_BYTES / RAW_BLOB;
    encodedBlobEnd := e mod RAW_MDU_CAPACITY_BYTES / RAW_BLOB;
    globalBlobStart := globalBlobOf w s;
    globalBlobEnd := globalBlobOf w e |}).
Proof.
  intros Hw Hs Hn Hn' He Hend. cbv zeta.
  assert (0 <= s / RAW_MDU_CAPACITY_BYTES <= (s + n - 1) / RAW_MDU_CAPACITY_BYTES)
    by (layout_consts; div_lia_linear).
  unfold computePolyfsResolvedRange, num_add; cbn [JsNumber.int witnessMdus startOffsetBytes sizeBytes rawMduCapacityBytes default].
  rewrite !asNonNegativeInteger_int, !(safeb_true w), !(safeb_true s), !(safeb_true n) by done.
  cbn [bind]. rewrite (safeb_true RAW_MDU_CAPACITY_BYTES) by (layout_consts; lia). cbn [bind].
  rewrite (proj2 (Z.leb_gt RAW_MDU_CAPACITY_BYTES 0)) by (layout_consts; lia).
  rewrite (proj2 (Z.eqb_neq n 0)) by lia.
  rewrite !asNonNegativeInteger_int, !round53_exact, !safeb_true by (layout_consts; lia). cbn [bind].
  replace (s + (n - 1)) with (s + n - 1) by lia.
  rewrite !floor_div_exact by (done || (layout_consts; lia)).
  rewrite !asNonNegativeInteger_int, !round53_exact, !safeb_true by (layout_consts; lia). cbn [bind].
  rewrite !Z.rem_mod_nonneg by (layout_consts; lia).
  pose proof (Z.mod_pos_bound s RAW_MDU_CAPACITY_BYTES eq_refl).
  pose proof (Z.mod_pos_bound (s + n - 1) RAW_MDU_CAPACITY_BYTES eq_refl).
  rewrite !rawOffsetToEncodedPosition_eq by lia. reflexivity.
Qed.

Lemma computeStripeProfile_wf k m p : computeStripeProfile k m = Ok p -> profile_wf p.
Proof.
  unfold computeStripeProfile. intros H. ok_steps H. bool_to_prop.
  pose proof (asNonNegativeInteger_safe _ _ _ Hv) as Hk.
  pose proof (asNonNegativeInteger_safe _ _ _ Hv0) as Hm.
  unfold num_add in Hv1.
  rewrite asNonNegativeInteger_round53 in Hv1 by (unfold safe in *; lia).
  apply asNonNegativeInteger_int_Ok in Hv1 as [-> _].
  rewrite Z.rem_mod_nonneg in Hg0 by (layout_consts; lia).
  unfold profile_wf, num_mul; cbn [sp_k sp_m sp_n sp_rows sp_leafCount].
  rewrite floor_div_exact by (layout_consts; lia).
  assert (0 < BLOBS_PER_MDU / v <= BLOBS_PER_MDU /\ v * (BLOBS_PER_MDU / v) = BLOBS_PER_MDU)
    as [? ?] by (layout_consts; div_lia).
  rewrite round53_exact by (layout_consts; nia).
  layout_consts. lia.
Qed.

Lemma leafIndexForSlotRow_eq p slot row :
  profile_wf p -> 0 <= slot < sp_n p -> 0 <= row < sp_rows p ->
  leafIndexForSlotRow p (int slot) (int row) = Ok (slot * sp_rows p + row).
Proof.
  intros (? & ? & ? & ? & ? & ?) Hs Hr. unfold leafIndexForSlotRow, num_add, num_mul.
  rewrite !asNonNegativeInteger_int, !safeb_true by (layout_consts; lia). simpl.
  rewrite !(proj2 (Z.leb_gt _ _)) by lia.
  rewrite (round53_exact (slot * _)), round53_exact by (layout_consts; nia). done.
Qed.

Lemma slotRowForLeafIndex_eq p leaf :
  profile_wf p -> 0 <= leaf < sp_leafCount p ->
  slotRowForLeafIndex p (int leaf) = Ok (leaf / sp_rows p, leaf mod sp_rows p).
Proof.
  intros (? & ? & ? & ? & ? & Hc) Hl. unfold slotRowForLeafIndex.
  assert (sp_leafCount p <= 256 * 64) by (layout_consts; nia).
  rewrite asNonNegativeInteger_int, safeb_true by (layout_consts; lia). simpl.
  rewrite (proj2 (Z.leb_gt _ _)), Z.rem_mod_nonneg by lia.
  rewrite floor_div_exact by (layout_consts; lia). done.
Qed.

Lemma witness_layout_value total k m l :
  computeWitnessLayout (int total) (int k) (int m) None = Ok l ->
  let bytes := total * ((k + m) * (BLOBS_PER_MDU / k) * KZG_COMMITMENT_BYTES) in
  0 < k /\ 0 <= m /\ k + m <= 256 /\ safe bytes /\ totalWitnessBytes l = bytes
  /\ witnessMduCount l = Z.max 1 (- (- bytes / RAW_MDU_CAPACITY_BYTES)).
Proof.
  unfold computeWitnessLayout. intros H. ok_steps H. bool_to_prop. cbn in *.
  apply asNonNegativeInteger_int_Ok in Hv as [-> Ht], Hv0 as [-> _].
  pose proof (computeStripeProfile_wf _ _ _ Hv1) as (Hk & Hn & ? & Hr & Hkr & Hc).
  assert (sp_k v1 = k /\ sp_m v1 = m) as [Ek Em].
  { unfold computeStripeProfile in Hv1. ok_steps Hv1.
    by apply asNonNegativeInteger_int_Ok in Hv as [-> _], Hv0 as [-> _]. }
  assert (sp_rows v1 = BLOBS_PER_MDU / k) as Er by (layout_consts; div_lia).
  assert (0 <= sp_leafCount v1 <= 256 * 64) by (layout_consts; nia).
  unfold num_mul in *. rewrite (round53_exact (sp_leafCount v1 * _)) in Hv2 by (layout_consts; lia).
  rewrite asNonNegativeInteger_round53 in Hv2 by (layout_consts; nia).
  apply asNonNegativeInteger_int_Ok in Hv2 as [-> Hs].
  rewrite Hc, Hn, Ek, Em, Er in *. split_and!; [lia | | lia | done | done |].
  - assert (0 <= sp_m v1); [|lia]. unfold computeStripeProfile in Hv1. ok_steps Hv1.
    apply asNonNegativeInteger_int_Ok in Hv0 as [-> ?]. cbn in *. unfold safe in *. lia.
  - by rewrite ceil_div_exact by (done || (layout_consts; lia)).
Qed.

(** A packed word is the sum of its two fields. *)
Lemma lor_shiftl_add f l : 0 <= f -> 0 <= l < 2 ^ 56 -> Z.lor (Z.shiftl f 56) l = f * 2 ^ 56 + l.
Proof.
  intros Hf Hl. rewrite Z.shiftl_mul_pow2 by lia. symmetry. apply Z.add_nocarry_lor.
  apply Z.bits_inj'. intros i Hi. rewrite Z.land_spec, Z.bits_0.
  destruct (Z.lt_ge_cases i 56).
  - by rewrite Z.mul_pow2_bits_low.
  - rewrite (Z.bits_above_log2 l i), andb_comm; [done | lia |].
    destruct (Z.eq_dec l 0) as [->|]; [simpl; lia|]. apply Z.log2_lt_pow2; [lia|].
    pose proof (Z.pow_le_mono_r 2 56 i). lia.
Qed.

Lemma land_LENGTH_MASK v : Z.land v LENGTH_MASK = v mod 2 ^ 56.
Proof. apply (Z.land_ones v 56). lia. Qed.

Lemma land_0xff v : Z.land v 0xff = v mod 2 ^ 8.
Proof. apply (Z.land_ones v 8). lia. Qed.

(** ** Theorems *)

(** Every raw offset of an MDU has an encoded position inside the MDU, never
    on the reserved first byte of a scalar, in one of the 64 blobs; the raw
    offset can be recovered from the position, so distinct bytes never
    collide. *)
Theorem encoded_position_correct z :
  0 <= z < RAW_MDU_CAPACITY_BYTES ->
  exists p, rawOffsetToEncodedPosition (int z) = Ok p
  /\ 0 <= encodedByteOffset p < MDU_SIZE_BYTES
  /\ encodedByteOffset p mod POLYFS_SCALAR_BYTES <> 0
  /\ encodedBlobIndex p = encodedByteOffset p / BLOB_SIZE_BYTES
  /\ 0 <= encodedBlobIndex p < BLOBS_PER_MDU
  /\ z = POLYFS_SCALAR_PAYLOAD_BYTES * (encodedByteOffset p / POLYFS_SCALAR_BYTES)
         + (encodedByteOffset p mod POLYFS_SCALAR_BYTES - 1).
Proof.
  intros Hz. rewrite rawOffsetToEncodedPosition_eq by done.
  eexists; split; [done|]. cbn [encodedByteOffset encodedBlobIndex].
  layout_consts. split_and!; div_lia_linear.
Qed.

Lemma encoded_position_correct_witness :
  exists p, rawOffsetToEncodedPosition (int 8126463) = Ok p /\ encodedByteOffset p < MDU_SIZE_BYTES.
Proof.
  destruct (encoded_position_correct 8126463) as (p & Hp & [_ Hlt] & _);
    [rewrite RAW_MDU_CAPACITY_BYTES_eq; lia | by exists p].
Defined.

(** A non-empty byte range whose end and slab indices are safe integers
    resolves, and the blobs between [globalBlobStart] and [globalBlobEnd] are
    exactly the blobs that hold some byte of the range. *)
Theorem resolved_range_covers w s n :
  safe w -> safe s -> 0 < n -> safe n -> safe (s + n - 1) ->
  safe (1 + w + (s + n - 1) / RAW_MDU_CAPACITY_BYTES) ->
  exists r,
    computePolyfsResolvedRange
      {| witnessMdus := int w; startOffsetBytes := int s; sizeBytes := int n;
         rawMduCapacityBytes := None |} = Ok (Some r)
    /\ forall b, globalBlobStart r <= b <= globalBlobEnd r
                 <-> exists o, s <= o < s + n /\ globalBlobOf w o = b.
Proof.
  intros Hw Hs Hn Hn' He Hend.
  rewrite computePolyfsResolvedRange_eq by done. eexists; split; [done|].
  intros b. cbn [globalBlobStart globalBlobEnd].
  rewrite !globalBlobOf_eq by (unfold safe in *; lia). layout_consts. split.
  - intros Hb. exists (Z.max s ((b - (1 + w) * 64) * 126976)).
    rewrite globalBlobOf_eq by lia. layout_consts.
    destruct (Z.max_spec s ((b - (1 + w) * 64) * 126976)) as [[? ->]|[? ->]];
      div_lia_linear.
  - intros (o & Ho & <-). rewrite globalBlobOf_eq by lia. layout_consts. div_lia_linear.
Qed.

Lemma resolved_range_covers_witness :
  exists r, computePolyfsResolvedRange
    {| witnessMdus := int 1; startOffsetBytes := int 8126460; sizeBytes := int 300000;
       rawMduCapacityBytes := None |} = Ok (Some r)
  /\ globalBlobStart r <= 192 <= globalBlobEnd r.
Proof.
  assert (Hs : forall z, (0 <= z <= 9000000) -> safe z)
    by (unfold safe, MAX_SAFE_INTEGER; lia).
  assert (Hq : (8126460 + 300000 - 1) / RAW_MDU_CAPACITY_BYTES = 1) by reflexivity.
  destruct (resolved_range_covers 1 8126460 300000) as (r & Hr & Hb);
    [apply Hs; lia | apply Hs; lia | lia | apply Hs; lia | apply Hs; lia
    | rewrite Hq; apply Hs; lia |].
  exists r. split; [exact Hr|]. apply Hb. exists 8126464. split; [lia | reflexivity].
Defined.

(** The MDU count of a file is the least number of MDUs that hold it. *)
Theorem user_mdu_count_least size cap c :
  computeUserMduCount (int size) (int cap) = Ok c -> 0 < size ->
  (c - 1) * cap < size <= c * cap.
Proof.
  unfold computeUserMduCount. intros H Hpos. ok_step H. ok_step H.
  apply asNonNegativeInteger_int_Ok in Hv as [-> Hs], Hv0 as [-> Hc].
  rewrite (proj2 (Z.eqb_neq size 0)) in H by lia. ok_steps H. bool_to_prop.
  rewrite ceil_div_exact by (done || lia). div_lia.
Qed.

Lemma user_mdu_count_least_witness :
  (2 - 1) * 8126464 < 8126465 <= 2 * 8126464.
Proof. apply (user_mdu_count_least 8126465 8126464 2); [reflexivity | lia]. Defined.

(** For every accepted stripe profile the leaf index of a slot and row and the
    slot and row of a leaf index are mutually inverse bijections between
    [n * rows] pairs and the indices below [leafCount]. *)
Theorem leaf_index_bijection k m p :
  computeStripeProfile k m = Ok p ->
  (forall slot row, 0 <= slot < sp_n p -> 0 <= row < sp_rows p ->
     exists leaf, leafIndexForSlotRow p (int slot) (int row) = Ok leaf
       /\ 0 <= leaf < sp_leafCount p
       /\ slotRowForLeafIndex p (int leaf) = Ok (slot, row)) /\
  (forall leaf, 0 <= leaf < sp_leafCount p ->
     exists slot row, slotRowForLeafIndex p (int leaf) = Ok (slot, row)
       /\ 0 <= slot < sp_n p /\ 0 <= row < sp_rows p
       /\ leafIndexForSlotRow p (int slot) (int row) = Ok leaf).
Proof.
  intros Hp%computeStripeProfile_wf. pose proof Hp as (? & ? & ? & ? & ? & Hc). split.
  - intros slot row Hs Hr. exists (slot * sp_rows p + row).
    assert (0 <= slot * sp_rows p + row < sp_leafCount p) by nia.
    rewrite leafIndexForSlotRow_eq, slotRowForLeafIndex_eq by done.
    split_and!; [done | lia | lia |]. do 2 f_equal.
    + by apply div_base.
    + by apply mod_base.
  - intros leaf Hl. exists (leaf / sp_rows p), (leaf mod sp_rows p).
    assert (0 <= leaf / sp_rows p < sp_n p /\ 0 <= leaf mod sp_rows p < sp_rows p)
      as [? ?] by div_lia.
    rewrite slotRowForLeafIndex_eq, leafIndexForSlotRow_eq by done.
    split_and!; try lia; [done|]. f_equal. pose proof (Z.div_mod leaf (sp_rows p)). lia.
Qed.

Lemma leaf_index_bijection_witness :
  exists leaf, leafIndexForSlotRow
    {| sp_k := 8; sp_m := 4; sp_n := 12; sp_rows := 8; sp_leafCount := 96 |} (int 11) (int 7)
    = Ok leaf.
Proof.
  destruct (leaf_index_bijection (int 8) (int 4)
    {| sp_k := 8; sp_m := 4; sp_n := 12; sp_rows := 8; sp_leafCount := 96 |}) as [H _];
    [reflexivity|].
  destruct (H 11 7) as (l & Hl & _); [simpl; lia | simpl; lia | by exists l].
Defined.

(** The witness MDU count is the least positive number of MDUs that hold one
    commitment per leaf of every user MDU. *)
Theorem witness_layout_least total k m l :
  computeWitnessLayout (int total) (int k) (int m) None = Ok l ->
  let bytes := total * ((k + m) * (BLOBS_PER_MDU / k) * KZG_COMMITMENT_BYTES) in
  totalWitnessBytes l = bytes
  /\ 1 <= witnessMduCount l
  /\ bytes <= witnessMduCount l * RAW_MDU_CAPACITY_BYTES
  /\ forall c, 1 <= c -> bytes <= c * RAW_MDU_CAPACITY_BYTES -> witnessMduCount l <= c.
Proof.
  intros H. destruct (witness_layout_value _ _ _ _ H) as (_ & _ & _ & Hs & -> & ->).
  cbv zeta. split; [done|].
  remember (total * _) as b. clear -Hs. layout_consts.
  split_and!; [lia | div_lia_linear |]. intros c ? ?. div_lia_linear.
Qed.

Lemma witness_layout_least_witness :
  4608000 <= 1 * RAW_MDU_CAPACITY_BYTES.
Proof.
  destruct (witness_layout_least 1000 8 4
    {| wl_profile := {| sp_k := 8; sp_m := 4; sp_n := 12; sp_rows := 8; sp_leafCount := 96 |};
       witnessBytesPerUserMdu := 4608; totalWitnessBytes := 4608000; witnessMduCount := 1;
       wl_rawMduCapacityBytes := 8126464 |}) as (_ & _ & H & _);
    [reflexivity | exact H].
Defined.

(** Packing a length and flags that the guards accept gives a 64-bit word, and
    unpacking it gives them back. *)
Theorem pack_unpack_roundtrip length flags w :
  packLengthAndFlags (int length) (int flags) = Ok w ->
  0 <= w < 2 ^ 64 /\ unpackLengthAndFlags w = Ok (length, flags).
Proof.
  unfold packLengthAndFlags. intros H. ok_steps H. bool_to_prop.
  apply asNonNegativeInteger_int_Ok in Hv as [-> Hl], Hv0 as [-> Hf].
  unfold LENGTH_MASK in *. unfold unpackLengthAndFlags.
  rewrite lor_shiftl_add, land_LENGTH_MASK, land_0xff, Z.shiftr_div_pow2 by (layout_consts; lia).
  replace ((flags * 2 ^ 56 + length) mod 2 ^ 56) with length by (layout_consts; div_lia_linear).
  replace ((flags * 2 ^ 56 + length) / 2 ^ 56) with flags by (layout_consts; div_lia_linear).
  split; [layout_consts; lia|].
  destruct (Z.ltb_spec (flags * 2 ^ 56 + length) 0); [layout_consts; lia|].
  destruct (Z.ltb_spec 0xffffffffffffffff (flags * 2 ^ 56 + length)); [layout_consts; lia|].
  cbn [orb]. rewrite round53_exact, asNonNegativeInteger_int, safeb_true by done. cbn [bind].
  rewrite (Z.mod_small flags) by (layout_consts; lia). done.
Qed.

Lemma pack_unpack_roundtrip_witness :
  unpackLengthAndFlags 216172782113783809 = Ok (1, 3).
Proof. apply (pack_unpack_roundtrip 1 3 216172782113783809). reflexivity. Defined.

(** A committed layout is accepted exactly when both counts are canonical
    decimals of at most five digits with [1 <= total <= 65537] and
    [witness < total]; the three counts then add up: one metadata MDU, the
    witness MDUs and the user MDUs. *)
Theorem committed_layout_correct t w l :
  committedPolyfsLayout t w = Ok l <->
  exists ts ws, t = Some ts /\ w = Some ws
    /\ canonical_decimal ts = true /\ slen ts <= 5
    /\ canonical_decimal ws = true /\ slen ws <= 5
    /\ 1 <= parse_decimal ts <= 65537 /\ parse_decimal ws < parse_decimal ts
    /\ cl_totalMdus l = parse_decimal ts /\ cl_witnessMdus l = parse_decimal ws
    /\ 1 + cl_witnessMdus l + cl_userMdus l = cl_totalMdus l.
Proof.
  unfold committedPolyfsLayout, committedCount. rewrite POLYFS_ROOT_TABLE_CAPACITY_eq. split.
  - intros H. destruct t as [ts|], w as [ws|]; cbn in H; try done; ok_steps H; try done.
    ok_steps Hv. ok_steps Hv0. bool_to_prop. exists ts, ws. cbn. split_and!; (done || lia).
  - intros (ts & ws & -> & -> & Ht & ? & Hw & ? & ? & ? & E1 & E2 & E3).
    rewrite Ht, Hw. rewrite !(proj2 (Z.ltb_ge 5 _)) by done. cbn.
    rewrite !(proj2 (Z.ltb_ge _ _)), (proj2 (Z.leb_gt _ _)) by lia. cbn.
    destruct l; cbn in *; subst. do 2 f_equal. lia.
Qed.
