(* ===== verification/RangeChunker.v ===== *)
(** * Range chunks (src/polystore-website/src/lib/rangeChunker.ts)

    A file range is cut into chunks that each stay inside one blob of one MDU.
    The blob boundary is found by bisection on the raw offset.  Options are
    integer-valued doubles ([Z]); the [Number.isFinite] guards hold of them.
    The loops run on fuel: the bisection on the bit length of its interval, the
    planner on the number of bytes left, since every chunk has at least one. *)

From S2P Require Import Prelude JsNumber Layout.
Local Open Scope Z_scope.

Module RangeChunker.

Record FileRangeChunk := { rangeStart : Z; rangeLen : Z }.

Definition rawMduCapacityFromMduSize (mduSizeBytes : Z) : Z :=
  if mduSizeBytes <=? 0 then 0 else
  let scalars := floor_div mduSizeBytes POLYFS_SCALAR_BYTES in
  num_mul scalars POLYFS_SCALAR_PAYLOAD_BYTES.

Definition encodedPosFromRawOffset (rawOffsetInMdu : Z) : Z :=
  let scalarIdx := floor_div rawOffsetInMdu POLYFS_SCALAR_PAYLOAD_BYTES in
  num_add (num_add rawOffsetInMdu scalarIdx) 1.

Definition rawOffsetToEncodedBlobIndex (rawOffsetInMdu blobSizeBytes : Z) : result Z :=
  throw_if blobSizeBytes <=? 0 with "invalid blobSizeBytes" else
  throw_if rawOffsetInMdu <? 0 with "rawOffsetInMdu must be >= 0" else
  Ok (floor_div (encodedPosFromRawOffset rawOffsetInMdu) blobSizeBytes).

(** The [while (lo + 1 < hi)] loop; the result is the final [hi]. *)
Fixpoint bisect (fuel : nat) (blobSizeBytes blobIdx lo hi : Z) : result Z :=
  if num_add lo 1 <? hi then
    match fuel with
    | O => Err OUT_OF_FUEL
    | S fuel =>
        let mid := floor_div (num_add lo hi) 2 in
        let! midBlob := rawOffsetToEncodedBlobIndex mid blobSizeBytes in
        if midBlob =? blobIdx then bisect fuel blobSizeBytes blobIdx mid hi
        else bisect fuel blobSizeBytes blobIdx lo mid
    end
  else Ok hi.

Definition nextBlobBoundaryRawOffsetInMdu
    (rawOffsetInMdu rawMduCapacity blobSizeBytes : Z) : result Z :=
  let start := rawOffsetInMdu in
  if rawMduCapacity <=? start then Ok rawMduCapacity else
  let! blobIdx := rawOffsetToEncodedBlobIndex start blobSizeBytes in
  let! hi := bisect (Z.to_nat (Z.log2_up (rawMduCapacity - start)))
               blobSizeBytes blobIdx start rawMduCapacity in
  let! hiBlob := rawOffsetToEncodedBlobIndex hi blobSizeBytes in
  if hiBlob =? blobIdx then Ok rawMduCapacity else Ok hi.

(** The [while (remaining > 0)] loop; the chunks it pushes, in order. *)
Fixpoint planLoop (fuel : nat) (fileStartOffset rawMduCapacity blobSizeBytes : Z)
    (cursor remaining : Z) : result (list FileRangeChunk) :=
  if 0 <? remaining then
    match fuel with
    | O => Err OUT_OF_FUEL
    | S fuel =>
        let absOffset := num_add fileStartOffset cursor in
        let offsetInMdu := Z.rem absOffset rawMduCapacity in
        let mduRemaining := num_sub rawMduCapacity offsetInMdu in
        let! blobBoundary :=
          nextBlobBoundaryRawOffsetInMdu offsetInMdu rawMduCapacity blobSizeBytes in
        let blobRemaining := num_sub blobBoundary offsetInMdu in
        let chunkLen :=
          Z.min (Z.min (Z.min remaining mduRemaining) blobRemaining) blobSizeBytes in
        throw_if chunkLen <=? 0 with "failed to derive a positive chunk length" else
        let! chunks := planLoop fuel fileStartOffset rawMduCapacity blobSizeBytes
                         (num_add cursor chunkLen) (num_sub remaining chunkLen) in
        Ok ({| rangeStart := cursor; rangeLen := chunkLen |} :: chunks)
    end
  else Ok [].

Definition planPolyfsFileRangeChunks
    (fileStartOffset fileSizeBytes rangeStart rangeLen mduSizeBytes blobSizeBytes : Z)
    : result (list FileRangeChunk) :=
  throw_if fileStartOffset <? 0 with "fileStartOffset must be >= 0" else
  throw_if fileSizeBytes <=? 0 with "fileSizeBytes must be > 0" else
  throw_if rangeStart <? 0 with "rangeStart must be >= 0" else
  throw_if rangeLen <=? 0 with "rangeLen must be > 0" else
  throw_if fileSizeBytes <=? rangeStart with "rangeStart beyond EOF" else
  let rawMduCapacity := rawMduCapacityFromMduSize mduSizeBytes in
  throw_if rawMduCapacity <=? 0 with "invalid mduSizeBytes" else
  let maxLen := Z.min rangeLen (num_sub fileSizeBytes rangeStart) in
  planLoop (Z.to_nat maxLen) fileStartOffset rawMduCapacity blobSizeBytes rangeStart maxLen.

(** ** What the chunks are compared with *)

(** The blob that holds raw byte [r] of an MDU. *)
Definition blobOf (b r : Z) : Z := (r + r / 31 + 1) / b.

(** The MDU and the blob in it that hold byte [o] of the user data. *)
Definition blobKey (cap b o : Z) : Z * Z := (o / cap, blobOf b (o mod cap)).

(** Chunk [c] stays in one blob, and ends only where the blob or the range does. *)
Definition maximal_in_blob (cap b fs stop : Z) (c : FileRangeChunk) : Prop :=
  (forall o, rangeStart c <= o < rangeStart c + rangeLen c ->
     blobKey cap b (fs + o) = blobKey cap b (fs + rangeStart c)) /\
  (rangeStart c + rangeLen c = stop \/
   blobKey cap b (fs + (rangeStart c + rangeLen c)) <> blobKey cap b (fs + rangeStart c)).

(** ** Lemmas *)

(** Raw and encoded offsets of one MDU fit in half the safe range, so that the
    midpoint of two of them is exact. *)
Definition small (z : Z) : Prop := 0 <= z /\ safe (2 * z + 2).

Lemma rawOffsetToEncodedBlobIndex_eq r b :
  small r -> 0 < b -> rawOffsetToEncodedBlobIndex r b = Ok (blobOf b r).
Proof.
  intros [? ?] ?. unfold rawOffsetToEncodedBlobIndex, encodedPosFromRawOffset.
  rewrite (proj2 (Z.leb_gt _ _)), (proj2 (Z.ltb_ge _ _)) by lia.
  unfold POLYFS_SCALAR_PAYLOAD_BYTES.
  assert (0 <= r / 31 <= r) by div_lia_linear.
  rewrite (floor_div_exact r) by (unfold safe in *; lia).
  rewrite (num_add_exact r), num_add_exact by (unfold safe in *; lia).
  rewrite floor_div_exact by (unfold safe in *; lia). done.
Qed.

Lemma blobOf_mono b r r' : 0 < b -> r <= r' -> blobOf b r <= blobOf b r'.
Proof. intros. unfold blobOf. apply Z.div_le_mono; [lia|]. div_lia_linear. Qed.

(** A blob of [b] encoded bytes never holds more than [b] raw bytes. *)
Lemma blobOf_width b r r' : 0 < b -> r <= r' -> blobOf b r = blobOf b r' -> r' - r < b.
Proof.
  intros Hb Hr He. unfold blobOf in He.
  assert (r / 31 <= r' / 31) by div_lia_linear.
  remember (r + r / 31 + 1) as x. remember (r' + r' / 31 + 1) as y.
  assert (y - x < b) by div_lia. lia.
Qed.

Lemma bisect_spec fuel b cap start lo hi :
  0 < b -> small cap -> 0 <= start -> start <= lo < hi -> hi <= cap ->
  hi - lo <= 2 ^ Z.of_nat fuel ->
  blobOf b lo = blobOf b start -> (hi = cap \/ blobOf b hi <> blobOf b start) ->
  exists B, bisect fuel b (blobOf b start) lo hi = Ok B
    /\ start < B <= cap
    /\ (forall r, start <= r < B -> blobOf b r = blobOf b start)
    /\ (B = cap \/ blobOf b B <> blobOf b start).
Proof.
  intros Hb [? Hcap] Hst. revert lo hi.
  induction fuel as [|fuel IH]; intros lo hi Hlo Hhi Hf Elo Ehi; cbn [bisect];
    rewrite num_add_exact by (unfold safe in *; lia).
  - change (2 ^ Z.of_nat 0) with 1 in Hf. rewrite (proj2 (Z.ltb_ge _ _)) by lia.
    exists hi. split_and!; [done | lia | lia | | done].
    intros r Hr. apply Z.le_antisymm; [rewrite <- Elo|]; apply blobOf_mono; lia.
  - destruct (Z.ltb_spec (lo + 1) hi).
    + rewrite (num_add_exact lo hi), floor_div_exact by (unfold safe in *; lia).
      assert (lo < (lo + hi) / 2 < hi) by div_lia_linear.
      rewrite Nat2Z.inj_succ, Z.pow_succ_r in Hf by lia.
      rewrite rawOffsetToEncodedBlobIndex_eq by (unfold small, safe in *; lia). cbn [bind].
      destruct (Z.eqb_spec (blobOf b ((lo + hi) / 2)) (blobOf b start));
        apply IH; try done; try lia; try div_lia_linear.
    + exists hi. split_and!; [done | lia | lia | | done].
      intros r Hr. apply Z.le_antisymm; [rewrite <- Elo|]; apply blobOf_mono; lia.
Qed.

Lemma nextBlobBoundary_spec r cap b :
  0 < b -> small cap -> 0 <= r < cap ->
  exists B, nextBlobBoundaryRawOffsetInMdu r cap b = Ok B
    /\ r < B <= cap
    /\ (forall r', r <= r' < B -> blobOf b r' = blobOf b r)
    /\ (B = cap \/ blobOf b B <> blobOf b r).
Proof.
  intros Hb Hc Hr. unfold nextBlobBoundaryRawOffsetInMdu.
  rewrite (proj2 (Z.leb_gt _ _)) by lia.
  rewrite rawOffsetToEncodedBlobIndex_eq by (unfold small, safe in *; lia). cbn [bind].
  destruct (bisect_spec (Z.to_nat (Z.log2_up (cap - r))) b cap r r cap) as (B & -> & HB & Hin & Hout);
    [done | done | lia | lia | lia | | done | by left |].
  { rewrite Z2Nat.id by apply Z.log2_up_nonneg.
    destruct (Z.eq_dec (cap - r) 1) as [->|]; [done|]. apply Z.log2_up_spec. lia. }
  cbn [bind]. rewrite rawOffsetToEncodedBlobIndex_eq by (unfold small, safe in *; lia). cbn [bind].
  exists B. destruct (Z.eqb_spec (blobOf b B) (blobOf b r)); [|done].
  destruct Hout as [->|]; [|done]. split_and!; (done || lia || by left).
Qed.

(** One round of the planner: the chunk cut at [cursor]. *)
Lemma chunk_step fs cap b cursor remaining :
  0 < b -> 0 < cap -> small cap -> 0 <= fs -> 0 <= cursor -> 0 < remaining ->
  safe (fs + cursor + remaining) ->
  exists len,
    (forall fuel, planLoop (S fuel) fs cap b cursor remaining =
       bind (planLoop fuel fs cap b (cursor + len) (remaining - len))
         (fun chunks => Ok ({| rangeStart := cursor; rangeLen := len |} :: chunks)))
    /\ 0 < len <= remaining
    /\ (forall o, cursor <= o < cursor + len ->
          blobKey cap b (fs + o) = blobKey cap b (fs + cursor))
    /\ (len = remaining \/
        blobKey cap b (fs + (cursor + len)) <> blobKey cap b (fs + cursor)).
Proof.
  intros Hb Hcap Hsm Hfs Hcu Hrem Hsafe.
  set (off := (fs + cursor) mod cap).
  pose proof (Z.mod_pos_bound (fs + cursor) cap Hcap) as Hoff. fold off in Hoff.
  destruct (nextBlobBoundary_spec off cap b) as (B & HB & HBr & Hin & Hout); [done | done | done |].
  exists (Z.min remaining (B - off)).
  assert (B - off <= b).
  { pose proof (blobOf_width b off (B - 1) Hb ltac:(lia) ltac:(symmetry; apply Hin; lia)). lia. }
  assert (Hkey : forall d, 0 <= d < cap - off -> blobKey cap b (fs + (cursor + d))
                  = ((fs + cursor) / cap, blobOf b (off + d))).
  { intros d Hd. unfold blobKey.
    replace (fs + (cursor + d)) with ((fs + cursor) / cap * cap + (off + d))
      by (unfold off; pose proof (Z.div_mod (fs + cursor) cap); lia).
    by rewrite div_base, mod_base by lia. }
  split_and!; [|lia|lia| |].
  - intros fuel. cbn [planLoop]. rewrite (proj2 (Z.ltb_lt _ _)) by lia.
    rewrite (num_add_exact fs) by (unfold safe in *; lia).
    rewrite Z.rem_mod_nonneg by lia. fold off. rewrite HB. cbn [bind].
    rewrite !(num_sub_exact _ off) by (unfold small, safe in *; lia).
    replace (Z.min _ b) with (Z.min remaining (B - off)) by lia.
    rewrite (proj2 (Z.leb_gt _ _)) by lia.
    rewrite num_add_exact, num_sub_exact by (unfold safe in *; lia). done.
  - intros o Ho. replace o with (cursor + (o - cursor)) by lia.
    rewrite Hkey by lia. rewrite <- (Z.add_0_r cursor) at 3. rewrite Hkey by lia.
    f_equal. rewrite Z.add_0_r. apply Hin. lia.
  - destruct (Z.min_spec remaining (B - off)) as [[? ->]|[? ->]]; [by left|right].
    rewrite <- (Z.add_0_r cursor) at 2. rewrite (Hkey 0) by lia. rewrite Z.add_0_r.
    destruct (Z.eq_dec B cap) as [->|].
    + unfold blobKey. replace (fs + (cursor + (cap - off))) with (((fs + cursor) / cap + 1) * cap)
        by (unfold off; pose proof (Z.div_mod (fs + cursor) cap); lia).
      rewrite Z.div_mul by lia. intros [= ? _]. lia.
    + destruct Hout as [|Hne]; [done|]. rewrite Hkey by lia. intros [= Heq].
      apply Hne. by replace B with (off + (B - off)) by lia.
Qed.

Lemma chunkLoop_spec fuel fs cap b cursor remaining :
  0 < b -> 0 < cap -> small cap -> 0 <= fs -> 0 <= cursor -> 0 <= remaining ->
  safe (fs + cursor + remaining) -> remaining <= Z.of_nat fuel ->
  exists chunks, planLoop fuel fs cap b cursor remaining = Ok chunks
    /\ tiles rangeStart rangeLen cursor chunks (cursor + remaining)
    /\ Forall (maximal_in_blob cap b fs (cursor + remaining)) chunks.
Proof.
  intros Hb Hcap Hsm Hfs. revert cursor remaining.
  induction fuel as [|fuel IH]; intros cursor remaining Hcu Hrem Hsafe Hfuel.
  - assert (remaining = 0) as -> by lia. exists []. cbn. split_and!; [done | lia | constructor].
  - destruct (Z.eq_dec remaining 0) as [->|].
    { exists []. cbn. split_and!; [done | lia | constructor]. }
    destruct (chunk_step fs cap b cursor remaining) as (len & Heq & Hlen & Hin & Hout);
      [done | done | done | done | done | lia | done |].
    destruct (IH (cursor + len) (remaining - len)) as (chunks & HP & Hc & Hm);
      [lia | lia | unfold safe in *; lia | lia |].
    replace (cursor + len + (remaining - len)) with (cursor + remaining) in * by lia.
    exists ({| rangeStart := cursor; rangeLen := len |} :: chunks).
    rewrite Heq, HP. cbn. split_and!; [done | done | lia | done |].
    constructor; [|done]. split; cbn; [done|].
    destruct Hout as [->|]; [by left | by right].
Qed.

Lemma rawMduCapacityFromMduSize_eq mdu :
  safe mdu -> rawMduCapacityFromMduSize mdu = mdu / 32 * 31.
Proof.
  intros Hm. unfold rawMduCapacityFromMduSize, POLYFS_SCALAR_BYTES, POLYFS_SCALAR_PAYLOAD_BYTES.
  destruct (Z.leb_spec mdu 0).
  - assert (mdu = 0) as -> by (unfold safe in Hm; lia). done.
  - rewrite floor_div_exact, num_mul_exact; (done || lia || idtac).
    unfold safe in *. div_lia_linear.
Qed.

(** ** Theorems *)

(** On a readable range the planner returns, and its chunks lie end to end from
    the first byte to the last byte of the range that the file has; every chunk
    stays inside one blob of one MDU and is cut only at the end of a blob or of
    the range. *)
Theorem range_chunks_partition fs size rs len mdu b :
  0 <= fs -> 0 <= rs < size -> 0 < len -> 32 <= mdu -> 0 < b ->
  safe (2 * mdu) -> safe (fs + size) ->
  let stop := rs + Z.min len (size - rs) in
  exists chunks, planPolyfsFileRangeChunks fs size rs len mdu b = Ok chunks
    /\ tiles rangeStart rangeLen rs chunks stop
    /\ Forall (maximal_in_blob (mdu / 32 * 31) b fs stop) chunks.
Proof.
  intros Hfs Hrs Hlen Hmdu Hb Hs1 Hs2 stop. unfold planPolyfsFileRangeChunks.
  rewrite rawMduCapacityFromMduSize_eq by (unfold safe in *; lia).
  assert (31 <= mdu / 32 * 31 /\ mdu / 32 * 31 + 1 <= mdu) as [? ?] by div_lia_linear.
  rewrite !(proj2 (Z.ltb_ge _ _)), !(proj2 (Z.leb_gt _ _)) by lia.
  rewrite num_sub_exact by (unfold safe in *; lia).
  apply chunkLoop_spec; unfold small, safe in *; try lia.
Qed.

Lemma range_chunks_partition_witness :
  exists chunks, planPolyfsFileRangeChunks 0 1000 10 500 8192 512 = Ok chunks
    /\ tiles rangeStart rangeLen 10 chunks 510.
Proof.
  destruct (range_chunks_partition 0 1000 10 500 8192 512) as (c & Hc & Hp & _);
    [lia | lia | lia | lia | lia | unfold safe, MAX_SAFE_INTEGER; lia
    | unfold safe, MAX_SAFE_INTEGER; lia | exact (ex_intro _ c (conj Hc Hp))].
Defined.

(** The chunk planner and the layout module, which compute the encoded position
    differently, agree on the blob of every raw offset of an MDU. *)
Theorem chunker_agrees_with_layout r :
  0 <= r < RAW_MDU_CAPACITY_BYTES ->
  rawMduCapacityFromMduSize MDU_SIZE_BYTES = RAW_MDU_CAPACITY_BYTES /\
  exists p, rawOffsetToEncodedPosition (int r) = Ok p
    /\ encodedPosFromRawOffset r = encodedByteOffset p
    /\ rawOffsetToEncodedBlobIndex r BLOB_SIZE_BYTES = Ok (encodedBlobIndex p).
Proof.
  intros Hr. split; [reflexivity|]. rewrite rawOffsetToEncodedPosition_eq by done.
  eexists; split; [done|]. cbn [encodedByteOffset encodedBlobIndex].
  rewrite rawOffsetToEncodedBlobIndex_eq by (unfold small; layout_consts; lia).
  unfold encodedPosFromRawOffset, blobOf. layout_consts.
  assert (0 <= r / 31 <= r) by div_lia_linear.
  rewrite floor_div_exact by (layout_consts; lia).
  rewrite (num_add_exact r), num_add_exact by (layout_consts; lia).
  split; [|f_equal]; div_lia_linear.
Qed.

Lemma chunker_agrees_with_layout_witness :
  rawMduCapacityFromMduSize MDU_SIZE_BYTES = RAW_MDU_CAPACITY_BYTES.
Proof. apply (chunker_agrees_with_layout 5). rewrite RAW_MDU_CAPACITY_BYTES_eq. lia. Defined.

End RangeChunker.
