(* ===== verification/Windows.v ===== *)
(** * Retrieval windows (src/polystore-website/src/lib/retrieval.ts)

    The data a retrieval is pinned to ([PinnedGeneration], [RetrievalFile]) and
    the planner that turns a file range into windows, one per provider slot and
    MDU.  [planRetrievalWindows] is a generator: its model is the list of yielded
    windows together with how it ended, so that a throw after some yields is
    kept apart from a throw before any.  [groups] is a [Map]
    (see [JsMap]).  [bigint] division truncates ([Z.quot], [Z.rem]). *)

From S2P Require Import Prelude JsNumber JsMap Layout.
Local Open Scope Z_scope.

Definition U64_MAX : Z := Z.shiftl 1 64 - 1.
Definition RAW_BLOB_BYTES : Z := 126976.
Definition RAW_MDU : Z := RAW_MDU_CAPACITY_BYTES.

Record Assignment := { provider : string; active : bool }.

Record PinnedGeneration := {
  p_chainId : string; p_height : Z; p_dealId : Z; p_generation : Z; p_root : string;
  p_owner : string; p_endHeight : Z; p_layout : Z; p_k : Z; p_m : Z; p_rows : Z;
  p_leafCount : Z;
  metadataMdus : Z; userMdus : Z; totalMdus : Z;
  assignments : list Assignment }.

Record RetrievalFile := { f_path : string; start_offset : Z; size_bytes : Z; f_flags : Z }.

Record Slice := { s_encodedBlobIndex : Z; rawOffset : Z; s_length : Z; outputOffset : Z }.

Record RetrievalWindow := {
  mduIndex : Z; w_slot : Z; w_provider : string; startBlobIndex : Z; blobCount : Z;
  slices : list Slice }.

(** One pass of the inner loop: the slice at [cursor] goes to its slot's group.
    The group object is mutated in place, which is what storing it back does. *)
Definition planBlob (pin : PinnedGeneration) (first end_ ordinal : Z) (allowInactive : bool)
    (cursor : Z) (groups : list (Z * RetrievalWindow))
    : result (Z * list (Z * RetrievalWindow)) :=
  let inMdu := Number (Z.rem cursor RAW_MDU) in
  let blob := floor_div inMdu RAW_BLOB_BYTES in
  let slot := if p_layout pin =? 2 then Z.rem blob (p_k pin) else 0 in
  let row := if p_layout pin =? 2 then floor_div blob (p_k pin) else blob in
  match assignments pin !! Z.to_nat slot with
  | None => Err "required assignment unavailable; deputy or parity must be explicitly authorized before payment"
  | Some assignment =>
      throw_if negb (active assignment) && negb allowInactive
        with "required assignment unavailable; deputy or parity must be explicitly authorized before payment" else
      let leaf := num_add (num_mul slot (p_rows pin)) row in
      let next := cursor + (RAW_BLOB_BYTES - Z.rem inMdu RAW_BLOB_BYTES) in
      let stop := if next <? end_ then next else end_ in
      let group :=
        default {| mduIndex := metadataMdus pin + ordinal; w_slot := slot;
                   w_provider := provider assignment; startBlobIndex := leaf;
                   blobCount := 0; slices := [] |} (mget groups slot) in
      throw_if negb (leaf =? num_add (startBlobIndex group) (blobCount group))
        with "noncontiguous slot range" else
      let slice := {| s_encodedBlobIndex := blob; rawOffset := Z.rem inMdu RAW_BLOB_BYTES;
                      s_length := Number (stop - cursor); outputOffset := cursor - first |} in
      let group := {| mduIndex := mduIndex group; w_slot := w_slot group;
                      w_provider := w_provider group;
                      startBlobIndex := startBlobIndex group;
                      blobCount := num_add (blobCount group) 1;
                      slices := slices group ++ [slice] |} in
      Ok (stop, mset groups slot group)
  end.

(** [while (cursor < end && cursor < mduEnd)]: at most 64 blobs of one MDU. *)
Fixpoint planMdu (fuel : nat) (pin : PinnedGeneration) (first end_ ordinal : Z)
    (allowInactive : bool) (cursor : Z) (groups : list (Z * RetrievalWindow))
    : result (Z * list (Z * RetrievalWindow)) :=
  if (cursor <? end_) && (cursor <? (ordinal + 1) * RAW_MDU) then
    match fuel with
    | O => Err OUT_OF_FUEL
    | S fuel =>
        let! (cursor, groups) := planBlob pin first end_ ordinal allowInactive cursor groups in
        planMdu fuel pin first end_ ordinal allowInactive cursor groups
    end
  else Ok (cursor, groups).

(** [while (cursor < end)]: the yielded windows and how the loop ended. *)
Fixpoint planLoop (fuel : nat) (pin : PinnedGeneration) (first end_ : Z)
    (allowInactive : bool) (cursor : Z) : list RetrievalWindow * result unit :=
  if cursor <? end_ then
    match fuel with
    | O => ([], Err OUT_OF_FUEL)
    | S fuel =>
        let ordinal := Z.quot cursor RAW_MDU in
        match planMdu 64 pin first end_ ordinal allowInactive cursor [] with
        | Err e => ([], Err e)
        | Ok (cursor, groups) =>
            let '(ws, r) := planLoop fuel pin first end_ allowInactive cursor in
            (map snd groups ++ ws, r)
        end
    end
  else ([], Ok tt).

Definition planRetrievalWindows (pin : PinnedGeneration) (file : RetrievalFile)
    (rangeStart rangeLength : Z) (allowInactive : bool) : list RetrievalWindow * result unit :=
  if negb (f_flags file =? 0)
  then ([], Err "transformed/encrypted retrieval requires a supported bounded decoder before payment") else
  if (start_offset file <? 0) || (size_bytes file <? 0)
     || (userMdus pin * RAW_MDU <? start_offset file + size_bytes file)
     || (rangeStart <? 0) || (rangeLength <=? 0)
     || (size_bytes file <? rangeStart + rangeLength)
  then ([], Err "invalid file range") else
  let first := start_offset file + rangeStart in
  let end_ := first + rangeLength in
  planLoop (Z.to_nat (rangeLength / RAW_MDU + 2)) pin first end_ allowInactive first.

(** ** What the windows are compared with *)

(** The number of slots a row of blobs is striped over. *)
Definition stripe (pin : PinnedGeneration) : Z :=
  if p_layout pin =? 2 then p_k pin else 1.

(** The geometry of a pinned generation. *)
Definition pin_geometry (pin : PinnedGeneration) : Prop :=
  0 < stripe pin /\ stripe pin * p_rows pin = BLOBS_PER_MDU.

(** Every data slot has an assignment that may serve. *)
Definition slots_available (pin : PinnedGeneration) (allowInactive : bool) : Prop :=
  forall s, 0 <= s < stripe pin ->
  exists a, assignments pin !! Z.to_nat s = Some a /\ active a || allowInactive = true.

(** Where a slice of a window of MDU [ordinal] lies in the user data. *)
Definition slice_located (first ordinal : Z) (sl : Slice) : Prop :=
  first + outputOffset sl
    = ordinal * RAW_MDU + s_encodedBlobIndex sl * RAW_BLOB_BYTES + rawOffset sl
  /\ 0 <= s_encodedBlobIndex sl < BLOBS_PER_MDU
  /\ 0 <= rawOffset sl /\ 0 < s_length sl
  /\ rawOffset sl + s_length sl <= RAW_BLOB_BYTES.

(** A window of MDU [ordinal]: consecutive rows of one slot, from row [row0]. *)
Definition window_of (pin : PinnedGeneration) (first ordinal row0 : Z) (w : RetrievalWindow)
    : Prop :=
  mduIndex w = metadataMdus pin + ordinal
  /\ 0 <= w_slot w < stripe pin /\ 0 <= row0
  /\ (exists a, assignments pin !! Z.to_nat (w_slot w) = Some a /\ w_provider w = provider a)
  /\ startBlobIndex w = w_slot w * p_rows pin + row0
  /\ blobCount w = Z.of_nat (length (slices w))
  /\ row0 + blobCount w <= p_rows pin
  /\ Forall (slice_located first ordinal) (slices w)
  /\ forall i sl, slices w !! i = Some sl ->
       s_encodedBlobIndex sl = stripe pin * (row0 + Z.of_nat i) + w_slot w.

(** The state of the inner loop before blob [nb] of MDU [ordinal], after the
    slices [done]. *)
Definition groups_inv (pin : PinnedGeneration) (first ordinal nb : Z)
    (groups : list (Z * RetrievalWindow)) (done_ : list Slice) : Prop :=
  NoDup groups.*1
  /\ concat (slices <$> groups.*2) ≡ₚ done_
  /\ forall s g, (s, g) ∈ groups ->
       w_slot g = s /\ 0 < blobCount g /\ exists row0, window_of pin first ordinal row0 g
       /\ nb <= stripe pin * (row0 + blobCount g) + s < nb + stripe pin.

(** ** Lemmas *)

Lemma RAW_MDU_eq : RAW_MDU = 64 * RAW_BLOB_BYTES.
Proof. reflexivity. Qed.

Ltac win_consts :=
  change RAW_MDU with 8126464 in *; unfold RAW_BLOB_BYTES, BLOBS_PER_MDU in *.

Section plan.
Context (pin : PinnedGeneration) (first end_ : Z) (allowInactive : bool).
Context (Hgeo : pin_geometry pin) (Hav : slots_available pin allowInactive).

(** The slice, slot and row of the blob at [cursor]. *)
Definition slice_at (ordinal nb cursor stop : Z) : Slice :=
  {| s_encodedBlobIndex := nb;
     rawOffset := cursor - (64 * ordinal + nb) * RAW_BLOB_BYTES;
     s_length := stop - cursor; outputOffset := cursor - first |}.

Lemma planBlob_eq ordinal nb cursor groups :
  0 <= cursor < end_ -> 0 <= nb < 64 -> cursor / RAW_BLOB_BYTES = 64 * ordinal + nb ->
  let s := nb mod stripe pin in
  let row := nb / stripe pin in
  let stop := Z.min ((64 * ordinal + nb + 1) * RAW_BLOB_BYTES) end_ in
  exists a, assignments pin !! Z.to_nat s = Some a
  /\ planBlob pin first end_ ordinal allowInactive cursor groups =
     let g := default {| mduIndex := metadataMdus pin + ordinal; w_slot := s;
                         w_provider := provider a; startBlobIndex := s * p_rows pin + row;
                         blobCount := 0; slices := [] |} (mget groups s) in
     if negb (s * p_rows pin + row =? num_add (startBlobIndex g) (blobCount g))
     then Err "noncontiguous slot range"
     else Ok (stop, mset groups s
       {| mduIndex := mduIndex g; w_slot := w_slot g; w_provider := w_provider g;
          startBlobIndex := startBlobIndex g; blobCount := num_add (blobCount g) 1;
          slices := slices g ++ [slice_at ordinal nb cursor stop] |}).
Proof.
  intros Hc Hnb Hb s row stop. destruct Hgeo as [Hk Hkr].
  destruct (Hav s) as (a & Ha & Hact); [by apply Z.mod_pos_bound|].
  exists a. split; [done|]. unfold planBlob.
  assert (Hin : Number (Z.rem cursor RAW_MDU) = cursor mod RAW_MDU).
  { rewrite Z.rem_mod_nonneg by (win_consts; lia). apply Number_exact.
    pose proof (Z.mod_pos_bound cursor RAW_MDU). unfold MAX_SAFE_INTEGER. win_consts. lia. }
  rewrite Hin. clear Hin.
  assert (0 <= cursor mod RAW_MDU < RAW_MDU) by (apply Z.mod_pos_bound; win_consts; lia).
  assert (Hmod : cursor mod RAW_MDU = cursor - 64 * ordinal * RAW_BLOB_BYTES)
    by (win_consts; div_lia_linear).
  rewrite floor_div_exact by (unfold safe, MAX_SAFE_INTEGER; win_consts; lia).
  assert (Hblob : cursor mod RAW_MDU / RAW_BLOB_BYTES = nb) by (win_consts; div_lia_linear).
  rewrite Hblob.
  assert (Hslot : (if p_layout pin =? 2 then Z.rem nb (p_k pin) else 0) = s).
  { unfold s, stripe in *. destruct (p_layout pin =? 2).
    - apply Z.rem_mod_nonneg; lia.
    - by rewrite Z.mod_1_r. }
  assert (Hrow : (if p_layout pin =? 2 then floor_div nb (p_k pin) else nb) = row).
  { unfold row, stripe in *. destruct (p_layout pin =? 2).
    - apply floor_div_exact; [unfold safe, MAX_SAFE_INTEGER; lia | lia].
    - by rewrite Z.div_1_r. }
  rewrite Hslot, Hrow, Ha.
  replace (negb (active a) && negb allowInactive) with false
    by (destruct (active a), allowInactive; done).
  assert (0 <= s < 64 /\ 0 <= row < 64 /\ 0 < p_rows pin <= 64) as (? & ? & ?).
  { unfold s, row. win_consts.
    pose proof (Z.mod_le nb (stripe pin)). pose proof (Z.mod_pos_bound nb (stripe pin) Hk).
    pose proof (Z.div_le_upper_bound nb (stripe pin) nb). pose proof (Z.div_pos nb (stripe pin)).
    split_and!; try lia; nia. }
  rewrite (num_mul_exact s), num_add_exact by (unfold safe, MAX_SAFE_INTEGER; nia).
  rewrite Z.rem_mod_nonneg by (win_consts; lia).
  assert (Hstop : (if cursor + (RAW_BLOB_BYTES - cursor mod RAW_MDU mod RAW_BLOB_BYTES) <? end_
    then cursor + (RAW_BLOB_BYTES - cursor mod RAW_MDU mod RAW_BLOB_BYTES) else end_) = stop).
  { unfold stop. replace (cursor + _) with ((64 * ordinal + nb + 1) * RAW_BLOB_BYTES)
      by (win_consts; div_lia_linear). destruct (Z.ltb_spec ((64 * ordinal + nb + 1) * RAW_BLOB_BYTES) end_); lia. }
  rewrite Hstop. unfold slice_at.
  replace (cursor mod RAW_MDU mod RAW_BLOB_BYTES)
    with (cursor - (64 * ordinal + nb) * RAW_BLOB_BYTES) by (win_consts; div_lia_linear).
  rewrite Number_exact; [done|]. unfold stop, MAX_SAFE_INTEGER. win_consts. div_lia_linear.
Qed.

Lemma window_extend ordinal nb cursor stop row0 g :
  0 <= nb < 64 -> cursor / RAW_BLOB_BYTES = 64 * ordinal + nb ->
  cursor < stop <= (64 * ordinal + nb + 1) * RAW_BLOB_BYTES ->
  window_of pin first ordinal row0 g ->
  stripe pin * (row0 + blobCount g) + w_slot g = nb ->
  window_of pin first ordinal row0
    {| mduIndex := mduIndex g; w_slot := w_slot g; w_provider := w_provider g;
       startBlobIndex := startBlobIndex g; blobCount := num_add (blobCount g) 1;
       slices := slices g ++ [slice_at ordinal nb cursor stop] |}.
Proof.
  intros Hnb Hb Hst (? & ? & ? & ? & ? & Hc & Hr & Hall & Hidx) Hnext.
  destruct Hgeo as [Hk Hkr].
  assert (row0 + blobCount g < p_rows pin /\ p_rows pin <= 64) as [? ?].
  { split; [apply (Z.mul_lt_mono_pos_l (stripe pin))|]; win_consts; nia. }
  rewrite num_add_exact by (unfold safe, MAX_SAFE_INTEGER; lia).
  unfold window_of; cbn [mduIndex w_slot w_provider startBlobIndex blobCount slices].
  rewrite length_app. split_and!; try done; try lia.
  - cbn. lia.
  - apply Forall_app. split; [done|]. apply Forall_singleton.
    unfold slice_located, slice_at; cbn. win_consts. div_lia_linear.
  - intros i sl [Hi|[Hi Hsl]]%lookup_app_Some; [by apply Hidx|].
    apply list_lookup_singleton_Some in Hsl as [? <-].
    cbn. replace (Z.of_nat i) with (blobCount g) by lia. done.
Qed.

Lemma planBlob_spec ordinal nb cursor groups done_ :
  0 <= cursor < end_ -> 0 <= nb < 64 -> cursor / RAW_BLOB_BYTES = 64 * ordinal + nb ->
  groups_inv pin first ordinal nb groups done_ ->
  let stop := Z.min ((64 * ordinal + nb + 1) * RAW_BLOB_BYTES) end_ in
  exists groups', planBlob pin first end_ ordinal allowInactive cursor groups = Ok (stop, groups')
  /\ groups_inv pin first ordinal (nb + 1) groups'
       (done_ ++ [slice_at ordinal nb cursor stop]).
Proof.
  intros Hc Hnb Hb (Hnd & Hperm & Hg) stop.
  destruct (planBlob_eq ordinal nb cursor groups Hc Hnb Hb) as (a & Ha & ->).
  fold stop. set (s := nb mod stripe pin) in *. set (row := nb / stripe pin) in *.
  set (g := default _ _). cbv zeta. destruct Hgeo as [Hk Hkr].
  assert (Hdm : nb = stripe pin * row + s) by (unfold s, row; apply Z.div_mod; lia).
  assert (Hs : 0 <= s < stripe pin) by by apply Z.mod_pos_bound.
  assert (Hw : exists row0, window_of pin first ordinal row0 g
            /\ stripe pin * (row0 + blobCount g) + s = nb /\ w_slot g = s).
  { unfold g. destruct (mget groups s) as [g0|] eqn:Hget; cbn [default from_option id] in *.
    - apply mget_Some_elem in Hget. destruct (Hg _ _ Hget) as (Hsl & Hpos & row0 & Hw & Hlt).
      exists row0. split_and!; [done | | done].
      assert (row0 + blobCount g0 = row) as -> by nia. lia.
    - exists row. unfold window_of; cbn. rewrite Z.add_0_r.
      split_and!; try done; try lia; [unfold row; apply Z.div_pos; lia | by exists a |].
      apply Z.lt_le_incl, (Z.mul_lt_mono_pos_l (stripe pin)); win_consts; nia. }
  destruct Hw as (row0 & Hw & Hnext & Hslot).
  assert (Hstop : cursor < stop <= (64 * ordinal + nb + 1) * RAW_BLOB_BYTES)
    by (unfold stop; win_consts; div_lia_linear).
  assert (Hw' := window_extend _ _ _ _ _ _ Hnb Hb Hstop Hw ltac:(by rewrite Hslot)).
  destruct Hw as (_ & _ & Hr0 & _ & Hstart & Hcnt & Hrows & _).
  assert (row0 + blobCount g = row) as Hrow by nia.
  assert (0 <= s * p_rows pin /\ s * p_rows pin + row <= 64 * 64 /\ p_rows pin <= 64) as (? & ? & ?).
  { win_consts. split_and!; nia. }
  rewrite num_add_exact by (unfold safe, MAX_SAFE_INTEGER; lia).
  rewrite Hstart, Hslot, <- Hrow, Z.add_assoc, Z.eqb_refl. cbn [negb].
  eexists; split; [done|]. split_and!.
  - by apply mset_NoDup.
  - rewrite <- Hperm. unfold g. destruct (mget groups s) as [g0|] eqn:Hget.
    + by apply (mset_concat_grow slices groups s g0).
    + by rewrite mset_concat_new.
  - intros s' g' [[-> ->]|[Hne Hin]]%mset_elem; [..|done].
    + cbn [w_slot blobCount] in *. rewrite Hslot in *.
      rewrite num_add_exact in * by (unfold safe, MAX_SAFE_INTEGER; lia).
      split_and!; [done | lia |]. exists row0. split; [|nia].
      by rewrite Hstart in Hw'.
    + destruct (Hg _ _ Hin) as (Hsl & Hpos & row0' & Hw0 & Hlt).
      split_and!; [done | done |]. exists row0'. split; [done|].
      assert (stripe pin * (row0' + blobCount g') + s' <> nb); [|lia].
      intros Heq. apply Hne. destruct Hw0 as (_ & Hs' & _). rewrite Hsl in Hs'.
      unfold s. rewrite <- Heq, (Z.mul_comm (stripe pin)), mod_base by done. done.
Qed.

Lemma planMdu_spec fuel ordinal nb cursor groups done_ :
  0 <= nb -> 64 <= nb + Z.of_nat fuel -> 0 <= ordinal ->
  0 <= cursor <= Z.min end_ ((ordinal + 1) * RAW_MDU) ->
  cursor = end_ \/ cursor / RAW_BLOB_BYTES = 64 * ordinal + nb ->
  groups_inv pin first ordinal nb groups done_ ->
  let stop := Z.min end_ ((ordinal + 1) * RAW_MDU) in
  exists nb' groups' new,
    planMdu fuel pin first end_ ordinal allowInactive cursor groups = Ok (stop, groups')
    /\ groups_inv pin first ordinal nb' groups' (done_ ++ new)
    /\ tiles outputOffset s_length (cursor - first) new (stop - first).
Proof.
  intros Hnb Hf Ho. revert fuel nb cursor groups done_ Hnb Hf.
  induction fuel as [|fuel IH]; intros nb cursor groups done_ Hnb Hf Hc Hcur Hinv stop;
    cbn [planMdu];
    (destruct (Z.ltb_spec cursor end_), (Z.ltb_spec cursor ((ordinal + 1) * RAW_MDU)); cbn [andb];
     [|exists nb, groups, []; rewrite app_nil_r; replace cursor with stop by (unfold stop; lia); done..]).
  - destruct Hcur; win_consts; div_lia_linear.
  - destruct Hcur as [|Hcur]; [lia|].
    assert (nb < 64) by (win_consts; div_lia_linear).
    destruct (planBlob_spec ordinal nb cursor groups done_) as (groups1 & -> & Hinv1);
      [lia | lia | done | done |]. cbn [bind].
    set (stop1 := Z.min ((64 * ordinal + nb + 1) * RAW_BLOB_BYTES) end_) in *.
    assert (cursor < stop1) by (unfold stop1; win_consts; div_lia_linear).
    destruct (IH (nb + 1) stop1 groups1 (done_ ++ [slice_at ordinal nb cursor stop1]))
      as (nb' & groups' & new & -> & Hinv' & Ht);
      [lia | lia | unfold stop1; win_consts; lia
      | unfold stop1; win_consts; div_lia_linear | done |].
    exists nb', groups', (slice_at ordinal nb cursor stop1 :: new). split_and!; [done | |].
    + by rewrite (assoc_L (++)) in Hinv' || by rewrite <- (assoc_L (++)) in Hinv'.
    + cbn [tiles]. unfold slice_at at 1 2 3; cbn. split_and!; [done | lia |].
      by replace (cursor - first + (stop1 - cursor)) with (stop1 - first) by lia.
Qed.

(** A planned window of some MDU. *)
Definition planned_window (w : RetrievalWindow) : Prop :=
  0 < blobCount w
  /\ exists row0, window_of pin first (mduIndex w - metadataMdus pin) row0 w.

Lemma planLoop_spec fuel cursor :
  0 <= cursor <= end_ ->
  (cursor < end_ -> end_ <= (cursor / RAW_MDU + Z.of_nat fuel) * RAW_MDU) ->
  exists ws tl, planLoop fuel pin first end_ allowInactive cursor = (ws, Ok tt)
    /\ concat (slices <$> ws) ≡ₚ tl
    /\ tiles outputOffset s_length (cursor - first) tl (end_ - first)
    /\ Forall planned_window ws
    /\ Forall (fun w => metadataMdus pin + cursor / RAW_MDU <= mduIndex w) ws
    /\ NoDup ((fun w => (mduIndex w, w_slot w)) <$> ws)
    /\ (cursor = end_ -> ws = []).
Proof.
  revert cursor; induction fuel as [|fuel IH]; intros cursor Hc Hf; cbn [planLoop];
    (destruct (Z.ltb_spec cursor end_);
     [|exists [], []; replace cursor with end_ by lia; split_and!; (done || constructor)]).
  { win_consts. div_lia_linear. }
  rewrite Z.quot_div_nonneg by (win_consts; lia).
  destruct (planMdu_spec 64 (cursor / RAW_MDU) (cursor / RAW_BLOB_BYTES - 64 * (cursor / RAW_MDU))
    cursor [] []) as (nb & groups & new & -> & (Hnd & Hperm & Hg) & Ht);
    [win_consts; div_lia_linear.. | | |].
  { right. lia. }
  { split_and!; [constructor | done | intros s g Hin; by apply elem_of_nil in Hin]. }
  set (stop := Z.min end_ _) in *.
  assert (Hstop : stop = end_ \/ stop / RAW_MDU = cursor / RAW_MDU + 1)
    by (unfold stop; win_consts; div_lia_linear).
  destruct (IH stop) as (ws & tl & -> & Hp & Htl & Hall & Hord & Hnd' & Hws);
    [unfold stop; win_consts; div_lia_linear | destruct Hstop; win_consts; div_lia_linear |].
  exists (groups.*2 ++ ws), (new ++ tl).
  assert (Hmdu : forall w, w ∈ groups.*2 -> mduIndex w = metadataMdus pin + cursor / RAW_MDU).
  { intros w ([s w'] & -> & Hin)%list_elem_of_fmap. destruct (Hg _ _ Hin) as (_ & _ & r & Hw & _).
    apply Hw. }
  assert (Hord' : Forall (fun w => metadataMdus pin + cursor / RAW_MDU < mduIndex w) ws).
  { destruct Hstop as [Hstop|Hstop]; [rewrite (Hws Hstop); constructor|].
    eapply Forall_impl; [exact Hord|]. cbn. intros. lia. }
  split_and!; [done | | by eapply tiles_app | | | | lia].
  - by rewrite fmap_app, concat_app, Hperm, Hp.
  - apply Forall_app. split; [|done]. apply Forall_forall. intros w Hw.
    pose proof (Hmdu w Hw) as Hm. apply list_elem_of_fmap in Hw as ([s w'] & -> & Hin).
    destruct (Hg _ _ Hin) as (? & ? & row0 & Hwin & _). split; [done|]. exists row0.
    cbn in *. rewrite Hm. by replace (_ + _ - _) with (cursor / RAW_MDU) by lia.
  - apply Forall_app. split; [apply Forall_forall; intros w Hw; rewrite (Hmdu w Hw); lia|].
    eapply Forall_impl; [exact Hord'|]. cbn. intros. lia.
  - rewrite fmap_app. apply NoDup_app. split_and!; [|intros x|done].
    + apply (NoDup_fmap_1 snd). rewrite <- !list_fmap_compose. cbn.
      replace ((_ <$> groups)) with groups.*1; [done|].
      apply list_fmap_ext. intros i [s w] Hl%list_elem_of_lookup_2. cbn. by destruct (Hg _ _ Hl).
    + intros (w & -> & Hw)%list_elem_of_fmap (w' & Heq & Hw')%list_elem_of_fmap.
      rewrite Forall_forall in Hord'. specialize (Hord' _ Hw'). cbn in Hord'.
      rewrite (Hmdu w Hw) in Heq. injection Heq as ? _. lia.
Qed.

End plan.

Lemma planRetrievalWindows_spec pin file rs len allowInactive :
  pin_geometry pin -> slots_available pin allowInactive ->
  f_flags file = 0 -> 0 <= start_offset file -> 0 <= rs -> 0 < len ->
  rs + len <= size_bytes file ->
  start_offset file + size_bytes file <= userMdus pin * RAW_MDU ->
  exists ws tl, planRetrievalWindows pin file rs len allowInactive = (ws, Ok tt)
    /\ concat (slices <$> ws) ≡ₚ tl
    /\ tiles outputOffset s_length 0 tl len
    /\ Forall (planned_window pin (start_offset file + rs)) ws
    /\ NoDup ((fun w => (mduIndex w, w_slot w)) <$> ws).
Proof.
  intros Hgeo Hav Hfl Ho Hrs Hlen Hsz Hum. unfold planRetrievalWindows.
  rewrite Hfl, !(proj2 (Z.ltb_ge _ _)), (proj2 (Z.leb_gt _ _)) by lia. cbn [negb orb Z.eqb].
  destruct (planLoop_spec pin (start_offset file + rs) (start_offset file + rs + len)
    allowInactive Hgeo Hav (Z.to_nat (len / RAW_MDU + 2)) (start_offset file + rs))
    as (ws & tl & Heq & Hp & Ht & Hw & _ & Hnd & _); [lia | |].
  { intros _. rewrite Z2Nat.id by (win_consts; div_lia_linear). win_consts. div_lia_linear. }
  exists ws, tl. split_and!; [done | done | | done | done].
  by rewrite Z.sub_diag, (Z.add_simpl_l _ len) in Ht.
Qed.

(** ** Theorems *)

(** C20: When the pinned geometry is sound, every data slot may serve and the range
    lies inside an untransformed file that lies inside the user MDUs, the planner
    ends without a throw.  Its windows' slices are, up to order, a tiling of the
    requested range, so every byte is fetched exactly once; every window is a
    run of consecutive leaves of one slot of one MDU, served by that slot's
    provider, with slices that stay inside one blob and sit where the byte of
    the range sits; no MDU and slot get two windows. *)
Theorem windows_cover_range pin file rs len allowInactive :
  pin_geometry pin -> slots_available pin allowInactive ->
  f_flags file = 0 -> 0 <= start_offset file -> 0 <= rs -> 0 < len ->
  rs + len <= size_bytes file ->
  start_offset file + size_bytes file <= userMdus pin * RAW_MDU ->
  exists ws tl, planRetrievalWindows pin file rs len allowInactive = (ws, Ok tt)
    /\ concat (slices <$> ws) ≡ₚ tl
    /\ tiles outputOffset s_length 0 tl len
    /\ Forall (planned_window pin (start_offset file + rs)) ws
    /\ NoDup ((fun w => (mduIndex w, w_slot w)) <$> ws).
Proof. apply planRetrievalWindows_spec. Qed.

(** A Mode 2 deal of 8 data slots with two parity slots, and one file. *)
Definition sample_pin : PinnedGeneration :=
  {| p_chainId := "polystore-1"; p_height := 100; p_dealId := 7; p_generation := 1;
     p_root := "0x00"; p_owner := "nil1owner"; p_endHeight := 1000; p_layout := 2;
     p_k := 8; p_m := 2; p_rows := 8; p_leafCount := 80;
     metadataMdus := 2; userMdus := 3; totalMdus := 5;
     assignments := replicate 10 {| provider := "nil1provider"; active := true |} |}.
Definition sample_file : RetrievalFile :=
  {| f_path := "a.bin"; start_offset := 0; size_bytes := 20000000; f_flags := 0 |}.

Lemma sample_pin_geometry : pin_geometry sample_pin.
Proof. split; reflexivity. Qed.
Lemma sample_pin_available allowInactive : slots_available sample_pin allowInactive.
Proof.
  intros s Hs. exists {| provider := "nil1provider"; active := true |}. split; [|done].
  cbn [assignments sample_pin]. apply lookup_replicate_2.
  change (stripe sample_pin) with 8 in Hs. lia.
Qed.

Lemma windows_cover_range_witness :
  exists ws, planRetrievalWindows sample_pin sample_file 8126000 9000000 false = (ws, Ok tt).
Proof.
  destruct (windows_cover_range sample_pin sample_file 8126000 9000000 false)
    as (ws & tl & H & _);
    [exact sample_pin_geometry | apply sample_pin_available | reflexivity | cbn; lia | lia | lia
    | cbn; lia | cbn [start_offset size_bytes userMdus sample_pin sample_file]; change RAW_MDU with 8126464; lia |].
  exists ws. exact H.
Defined.
