(* ===== verification/Pinned.v ===== *)
(** * Reading a pinned generation (src/polystore-website/src/lib/retrieval.ts)

    JSON values and the strict field readers ([record], [u64], [uint], [base64Of],
    [account], [protoU64], [protoUint], [enumeration]), and
    [parsePinnedGeneration].  [unknown] is [option json], [None] being
    [undefined]; an object is its list of fields.  The [bech32] package is an
    argument of the readers (class [Bech32]): its [decode] and [fromWords] may
    throw. *)

From S2P Require Import Prelude JsNumber JsString JsMap JsBytes Encoding Layout Windows.
Local Open Scope Z_scope.

#[local] Unset Elimination Schemes.
Inductive json : Type :=
| JNull
| JBool (b : bool)
| JNum (n : number)
| JStr (s : string)
| JArr (l : list json)
| JObj (fields : list (string * json)).
#[local] Set Elimination Schemes.

Abbreviation unknown := (option json).
Abbreviation fields := (list (string * json)).

Class Bech32 := {
  bech32_decode : string -> result (string * list Z);
  bech32_fromWords : list Z -> result (list Z);
  bech32_encode : string -> list Z -> string }.

(** ** Field readers *)

Definition record (value : unknown) : result fields :=
  match value with Some (JObj o) => Ok o | _ => Err "expected object" end.

Definition u64 (value : unknown) : result Z :=
  match value with
  | Some (JStr s) =>
      throw_if negb (canonical_decimal s && (slen s <=? 20))
        with "expected canonical uint64 string" else
      let n := parse_decimal s in
      throw_if U64_MAX <? n with "uint64 overflow" else
      Ok n
  | _ => Err "expected canonical uint64 string"
  end.

Definition uint (value : unknown) (max : Z) : result Z :=
  match value with
  | Some (JNum n) =>
      throw_if negb (isSafeInteger n) || num_ltz n || (max <? num_int n)
        with "invalid bounded integer" else
      Ok (num_int n)
  | _ => Err "invalid bounded integer"
  end.

Definition base64Of (value : unknown) (length : Z) : result bytes :=
  match value with
  | Some (JStr s) => base64 s length
  | _ => Err "invalid base64 length"
  end.

Definition protoU64 (value : unknown) : result Z :=
  match value with None => Ok 0 | _ => u64 value end.
Definition protoUint (value : unknown) (max : Z) : result Z :=
  match value with None => Ok 0 | _ => uint value max end.

(** [names.indexOf(value)] *)
Fixpoint indexOf (names : list string) (value : string) : option Z :=
  match names with
  | [] => None
  | name :: names =>
      if String.eqb name value then Some 0 else option_map (Z.add 1) (indexOf names value)
  end.

Definition enumeration (value : unknown) (names : list string) : result Z :=
  let other := protoUint value (Z.of_nat (length names) - 1) in
  match value with
  | Some (JStr s) => match indexOf names s with Some i => Ok i | None => other end
  | _ => other
  end.

Section parse.
Context `{Bech32}.

Definition account (value : unknown) : result string :=
  match value with
  | Some (JStr s) =>
      let! decoded := bech32_decode s in
      throw_if negb (String.eqb decoded.1 "nil") with "noncanonical account" else
      let! words := bech32_fromWords decoded.2 in
      throw_if negb (blen words =? 20) || negb (String.eqb (bech32_encode decoded.1 decoded.2) s)
        with "noncanonical account" else
      Ok s
  | _ => Err "invalid account"
  end.

Definition accountBytes (value : string) : result bytes :=
  let! _ := account (Some (JStr value)) in
  let! decoded := bech32_decode value in
  bech32_fromWords decoded.2.

(** One entry of [d.mode2_slots.map((raw, slot) => ...)]. *)
Definition parseSlot (raw : json) (slot : Z) : result Assignment :=
  let! s := record (Some raw) in
  let! n := protoUint (mget s "slot") 255 in
  throw_if negb (n =? slot) with "unordered assignments" else
  let! status := enumeration (mget s "status")
    ["SLOT_STATUS_UNSPECIFIED"; "SLOT_STATUS_ACTIVE"; "SLOT_STATUS_REPAIRING"] in
  throw_if status =? 0 with "unknown assignment status" else
  let! provider := account (mget s "provider") in
  Ok {| provider := provider; active := status =? 1 |}.

Fixpoint parseSlots (l : list json) (slot : Z) : result (list Assignment) :=
  match l with
  | [] => Ok []
  | raw :: l =>
      let! a := parseSlot raw slot in
      let! rest := parseSlots l (slot + 1) in
      Ok (a :: rest)
  end.

Definition parseAssignments (d : fields) (layout k m : Z) : result (list Assignment) :=
  if layout =? 2 then
    match mget d "mode2_slots" with
    | Some (JArr l) =>
        throw_if negb (Z.of_nat (length l) =? k + m) with "incomplete assignments" else
        parseSlots l 0
    | _ => Err "incomplete assignments"
    end
  else
    match mget d "providers" with
    | Some (JArr l) =>
        throw_if bool_decide (l = []) || (256 <? Z.of_nat (length l))
          with "invalid replica assignments" else
        let! assignments := mapR (fun p =>
          let! provider := account (Some p) in Ok {| provider := provider; active := true |}) l in
        throw_if negb (bool_decide (NoDup (map provider assignments)))
          with "duplicate replica assignment" else
        Ok assignments
    | _ => Err "invalid replica assignments"
    end.

Definition parsePinnedGeneration (payload : unknown) (chainId : string) (height dealId : Z)
    : result PinnedGeneration :=
  throw_if String.eqb chainId "" || (50 <? utf8_length chainId)
    || includes_char chainId Ascii.zero || (height <? 1)
    with "invalid committed chain identity" else
  let! p := record payload in
  let! d := record (mget p "deal") in
  let! id := protoU64 (mget d "id") in
  throw_if negb (id =? dealId) with "wrong deal" else
  let! layout := protoUint (mget d "redundancy_mode") 2 in
  throw_if negb (layout =? 1) && negb (layout =? 2) with "unsupported layout" else
  let! profile := if layout =? 2 then record (mget d "mode2_profile")
                  else Ok [("k", JNum (int 1)); ("m", JNum (int 0))] in
  let! k := uint (mget profile "k") 64 in
  let! m := uint (mget profile "m") 255 in
  throw_if (k =? 0) || negb (Z.rem 64 k =? 0)
    || ((layout =? 2) && ((m =? 0) || (256 <? k + m)))
    with "invalid stripe geometry" else
  let! totalMdus := protoU64 (mget d "total_mdus") in
  let! witnessMdus := protoU64 (mget d "witness_mdus") in
  let metadataMdus := 1 + witnessMdus in
  throw_if (totalMdus <? metadataMdus) || (65537 <? totalMdus) with "invalid MDU bounds" else
  let! endHeight := protoU64 (mget d "end_block") in
  throw_if endHeight <=? height with "deal expired" else
  let! assignments := parseAssignments d layout k m in
  let! generation := protoU64 (mget d "current_gen") in
  let! root := base64Of (mget d "manifest_root") 32 in
  let! owner := account (mget d "owner") in
  Ok {| p_chainId := chainId; p_height := height; p_dealId := dealId; p_generation := generation;
        p_root := hex root; p_owner := owner; p_endHeight := endHeight; p_layout := layout;
        p_k := k; p_m := m; p_rows := floor_div 64 k; p_leafCount := floor_div 64 k * (k + m);
        metadataMdus := metadataMdus; userMdus := totalMdus - metadataMdus;
        totalMdus := totalMdus; assignments := assignments |}.

(** ** Lemmas *)

Lemma u64_bounds v n : u64 v = Ok n -> 0 <= n <= U64_MAX.
Proof.
  unfold u64. destruct v as [[]|]; try done. intros Hn. ok_steps Hn. bool_to_prop.
  pose proof (parse_decimal_bounds s (canonical_all_digits s ltac:(done))). lia.
Qed.

Lemma protoU64_bounds v n : protoU64 v = Ok n -> 0 <= n <= U64_MAX.
Proof.
  unfold protoU64. destruct v; [apply u64_bounds|]. intros [= <-]. done.
Qed.

Lemma uint_bounds v max n : uint v max = Ok n -> 0 <= n <= max.
Proof.
  unfold uint. destruct v as [[]|]; try done. intros Hn. ok_steps Hn. bool_to_prop.
  destruct n0; cbn in *; try done. bool_to_prop. unfold qfloor.
  split; [apply Z.div_pos; lia | done].
Qed.

Lemma protoUint_bounds v max n : 0 <= max -> protoUint v max = Ok n -> 0 <= n <= max.
Proof. unfold protoUint. destruct v; [intros _; apply uint_bounds|]. intros ? [= <-]. lia. Qed.

Lemma parseSlots_length l i r : parseSlots l i = Ok r -> length r = length l.
Proof.
  revert i r; induction l as [|x l IH]; intros i r; cbn [parseSlots]; [by intros [= <-]|].
  intros Hr. ok_steps Hr. cbn. f_equal. by eapply IH.
Qed.

Lemma parseAssignments_length d layout k m r :
  parseAssignments d layout k m = Ok r ->
  (layout = 2 -> Z.of_nat (length r) = k + m)
  /\ (layout <> 2 -> 0 < Z.of_nat (length r) <= 256 /\ NoDup (map provider r)).
Proof.
  unfold parseAssignments. destruct (Z.eqb_spec layout 2) as [->|Hl]; intros Hr.
  - split; [intros _|done]. destruct (mget d _) as [[]|]; try done. ok_step Hr. bool_to_prop.
    apply parseSlots_length in Hr. lia.
  - split; [done|intros _]. destruct (mget d _) as [[]|]; try done. ok_steps Hr. bool_to_prop.
    apply mapR_Ok, Forall2_length in Hv.
    split; [|by apply bool_decide_eq_true in Hg0].
    destruct l; [done | cbn [length] in *; lia].
Qed.

(** What a parsed generation satisfies. *)
Definition pin_wf (pin : PinnedGeneration) : Prop :=
  (p_layout pin = 2 /\ 1 <= p_m pin /\ p_k pin + p_m pin <= 256
     /\ Z.of_nat (length (assignments pin)) = p_k pin + p_m pin
   \/ p_layout pin = 1 /\ p_k pin = 1 /\ p_m pin = 0
     /\ 0 < Z.of_nat (length (assignments pin)) <= 256
     /\ NoDup (map provider (assignments pin)))
  /\ 0 < p_k pin /\ p_k pin * p_rows pin = 64
  /\ p_leafCount pin = p_rows pin * (p_k pin + p_m pin)
  /\ 1 <= metadataMdus pin /\ 0 <= userMdus pin
  /\ metadataMdus pin + userMdus pin = totalMdus pin /\ totalMdus pin <= 65537
  /\ 1 <= p_height pin < p_endHeight pin.

Lemma parsePinnedGeneration_wf payload chainId height dealId pin :
  parsePinnedGeneration payload chainId height dealId = Ok pin -> pin_wf pin.
Proof.
  unfold parsePinnedGeneration. intros Hp. ok_steps Hp.
  apply parseAssignments_length in Hv9 as [Ha1 Ha2].
  apply protoU64_bounds in Hv6, Hv7, Hv8. apply uint_bounds in Hv4 as Hk, Hv5 as Hm.
  unfold pin_wf; cbn [p_layout p_m p_k assignments p_rows p_leafCount metadataMdus userMdus
    totalMdus p_height p_endHeight]. rewrite andb_false_iff in Hg1. bool_to_prop.
  assert (Hk0 : 0 < v4) by lia.
  rewrite floor_div_exact by (unfold safe, MAX_SAFE_INTEGER; lia).
  assert (64 mod v4 = 0) by (rewrite <- Z.rem_mod_nonneg by lia; done).
  assert (v4 * (64 / v4) = 64) by (pose proof (Z.div_mod 64 v4); lia).
  split_and!; try lia.
  destruct (Z.eqb_spec v2 2) as [->|Hl].
  - left. destruct (Z.eqb_spec v5 0), (Z.ltb_spec 256 (v4 + v5)); try done.
    split_and!; [done | lia | lia | by apply Ha1].
  - right. assert (v2 = 1) as -> by (destruct (Z.eqb_spec v2 1); [done|]; destruct Hg1; done).
    injection Hv3 as <-. cbn in Hv4, Hv5. injection Hv4 as <-. injection Hv5 as <-.
    split_and!; try done; by apply Ha2.
Qed.

Lemma pin_wf_plannable pin :
  pin_wf pin -> pin_geometry pin /\ slots_available pin true.
Proof.
  intros (Hl & Hk & Hkr & _). unfold pin_geometry, slots_available, stripe.
  assert (Hst : exists k, (if p_layout pin =? 2 then p_k pin else 1) = k /\ 0 < k
    /\ k * p_rows pin = 64 /\ k <= Z.of_nat (length (assignments pin))).
  { destruct Hl as [(-> & ? & ? & Hlen)|(-> & Hk1 & ? & Hlen & _)].
    - exists (p_k pin). split_and!; (done || lia).
    - exists 1. split_and!; (done || lia). }
  destruct Hst as (k & -> & ? & ? & ?). split; [done|]. intros s Hs.
  destruct (lookup_lt_is_Some_2 (assignments pin) (Z.to_nat s)) as [a Ha]; [lia|].
  exists a. split; [done | apply orb_true_r].
Qed.

(** ** Theorems *)

(** C36: A deal that parses yields a sound generation: data and parity slots are all
    assigned (or the replicas are distinct), the rows times the data slots make
    an MDU, the leaf count matches, metadata and user MDUs add up to at most
    65537, and the deal has not ended. *)
Theorem parsed_generation_wf payload chainId height dealId pin :
  parsePinnedGeneration payload chainId height dealId = Ok pin ->
  pin_wf pin /\ p_chainId pin = chainId /\ p_dealId pin = dealId /\ p_height pin = height.
Proof.
  intros Hp. split; [by eapply parsePinnedGeneration_wf|].
  unfold parsePinnedGeneration in Hp. by ok_steps Hp.
Qed.

(** For a parsed generation, every range of an untransformed file inside the
    user MDUs can be planned with inactive slots allowed: the planner never
    throws before payment. *)
Theorem parsed_generation_plans payload chainId height dealId pin file rs len :
  parsePinnedGeneration payload chainId height dealId = Ok pin ->
  f_flags file = 0 -> 0 <= start_offset file -> 0 <= rs -> 0 < len ->
  rs + len <= size_bytes file ->
  start_offset file + size_bytes file <= userMdus pin * RAW_MDU ->
  exists ws, planRetrievalWindows pin file rs len true = (ws, Ok tt) /\ ws <> [].
Proof.
  intros Hp%parsePinnedGeneration_wf Hf Ho Hrs Hlen Hs Hu.
  destruct (pin_wf_plannable pin Hp) as [Hg Ha].
  destruct (planRetrievalWindows_spec pin file rs len true) as (ws & tl & Heq & Hperm & Ht & _);
    [done.. |].
  exists ws. split; [done|]. intros ->. cbn in Hperm. apply Permutation_nil in Hperm. subst tl.
  cbn in Ht. lia.
Qed.

End parse.

(** ** A concrete deal *)

(** A [bech32] whose addresses are the strings themselves, 20 bytes each. *)
#[local] Instance sample_bech32 : Bech32 := {|
  bech32_decode s := Ok ("nil", codes s);
  bech32_fromWords _ := Ok (replicate 20 0);
  bech32_encode _ words := of_codes words |}.

Definition sample_slot (slot : Z) (provider : string) : json :=
  JObj [("slot", JNum (int slot)); ("provider", JStr provider); ("status", JStr "SLOT_STATUS_ACTIVE")].
Definition sample_payload : unknown :=
  Some (JObj [("deal", JObj [
    ("id", JStr "7"); ("redundancy_mode", JNum (int 2));
    ("mode2_profile", JObj [("k", JNum (int 1)); ("m", JNum (int 1))]);
    ("total_mdus", JStr "5"); ("witness_mdus", JStr "1"); ("end_block", JStr "1000");
    ("mode2_slots", JArr [sample_slot 0 "nil1a"; sample_slot 1 "nil1b"]);
    ("current_gen", JStr "3");
    ("manifest_root", JStr "AAAAAAAAAAAAAAAAAAAAAAAAAAAAAAAAAAAAAAAAAAA=");
    ("owner", JStr "nil1owner")])]).

Lemma parsed_generation_wf_witness :
  exists pin, parsePinnedGeneration sample_payload "chain-1" 10 7 = Ok pin /\ pin_wf pin.
Proof.
  eexists. split; [vm_compute; reflexivity|].
  apply (parsed_generation_wf sample_payload "chain-1" 10 7). vm_compute. reflexivity.
Defined.

Lemma parsed_generation_plans_witness :
  exists pin ws, planRetrievalWindows pin sample_file 5 100 true = (ws, Ok tt) /\ ws <> [].
Proof.
  eexists. eapply (parsed_generation_plans sample_payload "chain-1" 10 7);
    [vm_compute; reflexivity | reflexivity | cbn; lia | lia | lia | cbn; lia |].
  cbn [start_offset size_bytes sample_file userMdus]. change RAW_MDU with 8126464. lia.
Defined.
