(* ===== verification/Canonical.v ===== *)
(** * Canonical binary encodings

    The writers that the retrieval modules share: big-endian scalars ([be] and
    [scalarBytes] of src/polystore-website/src/lib/retrievalV3.ts and retrieval.ts), texts
    prefixed by their length ([lp]) and their concatenation.  A writer stores a scalar
    modulo its width, as DataView does.

    The lemmas say that such an encoding can be taken apart: two encodings of the same
    shape that agree byte by byte agree part by part. *)

From S2P Require Import Prelude JsNumber JsString JsBytes JsText Windows.
Local Open Scope Z_scope.

(** [size] bytes of [value], most significant first. *)
Fixpoint be (value : Z) (size : nat) : bytes :=
  match size with
  | O => []
  | S size => be (value / 256) size ++ [value mod 256]
  end.

(** [lp(value)] *)
Definition lp (value : string) : bytes :=
  let encoded := TextEncoder_encode value in be (blen encoded) 4 ++ encoded.

(** ** Lemmas *)

Lemma length_be v n : length (be v n) = n.
Proof. revert v. induction n as [|n IH]; intros v; [done|]. cbn [be]. rewrite length_app, IH. cbn. lia. Qed.

Lemma be_bytes v n : Forall byte_ok (be v n).
Proof.
  revert v. induction n as [|n IH]; intros v; [constructor|]. apply Forall_app_2; [apply IH|].
  apply Forall_singleton. apply Z.mod_pos_bound. lia.
Qed.

Lemma be_inj_mod v v' n : be v n = be v' n -> v mod 256 ^ Z.of_nat n = v' mod 256 ^ Z.of_nat n.
Proof.
  revert v v'. induction n as [|n IH]; intros v v' H; [by rewrite !Z.mod_1_r|].
  cbn [be] in H. apply app_inj_tail in H as [H1%IH H2].
  rewrite Nat2Z.inj_succ, Z.pow_succ_r by lia.
  assert (0 < 256 ^ Z.of_nat n) by (apply Z.pow_pos_nonneg; lia).
  rewrite !Z.rem_mul_r by lia. by rewrite H1, H2.
Qed.

Lemma be_inj v v' n : 0 <= v < 256 ^ Z.of_nat n -> 0 <= v' < 256 ^ Z.of_nat n -> be v n = be v' n -> v = v'.
Proof. intros Hv Hv' H%be_inj_mod. by rewrite !Z.mod_small in H. Qed.

Lemma be8_inj v v' : 0 <= v <= U64_MAX -> 0 <= v' <= U64_MAX -> be v 8 = be v' 8 -> v = v'.
Proof. change U64_MAX with (2 ^ 64 - 1). intros Hv Hv'. apply be_inj; change (256 ^ Z.of_nat 8) with (2 ^ 64); lia. Qed.
Lemma be4_inj v v' : 0 <= v < 2 ^ 32 -> 0 <= v' < 2 ^ 32 -> be v 4 = be v' 4 -> v = v'.
Proof. intros Hv Hv'. apply be_inj; change (256 ^ Z.of_nat 4) with (2 ^ 32); lia. Qed.

Lemma be1_inj v v' : 0 <= v < 256 -> 0 <= v' < 256 -> be v 1 = be v' 1 -> v = v'.
Proof. exact (be_inj v v' 1). Qed.

(** A character and what follows it can be told apart. *)
Lemma encode_char_inj c c' l l' : 0 <= c < 256 -> 0 <= c' < 256 ->
  encode_char c ++ l = encode_char c' ++ l' -> c = c' /\ l = l'.
Proof.
  intros Hc Hc'. unfold encode_char.
  destruct (Z.ltb_spec c 128), (Z.ltb_spec c' 128); cbn; intros [= ? ?]; try (split; [done|done]); try (exfalso; div_lia_linear).
  - split; [div_lia_linear | done].
Qed.

Lemma encode_chars_inj l l' : Forall (fun z => 0 <= z < 256) l -> Forall (fun z => 0 <= z < 256) l' ->
  concat (map encode_char l) = concat (map encode_char l') -> l = l'.
Proof.
  intros Hl. revert l'. induction Hl as [|c l Hc Hl IH]; intros l' [|c' l'' Hc' Hl']; cbn [map concat]; [done | | |].
  - intros H. assert (encode_char c' <> []) by (unfold encode_char; by destruct (_ <? _)). by destruct (encode_char c').
  - intros H. assert (encode_char c <> []) by (unfold encode_char; by destruct (_ <? _)). by destruct (encode_char c).
  - intros H. apply encode_char_inj in H as [-> H]; [|done|done]. f_equal. by apply IH.
Qed.

Lemma TextEncoder_inj s s' : TextEncoder_encode s = TextEncoder_encode s' -> s = s'.
Proof.
  intros H%encode_chars_inj; [|apply codes_bytes|apply codes_bytes].
  rewrite <- (of_codes_codes s), <- (of_codes_codes s'). by rewrite H.
Qed.

(** ** Encodings that end where they say *)

(** Whatever follows them, two parts that start equal bytes are equal. *)
Definition delimited (a a' : bytes) : Prop := forall b b', a ++ b = a' ++ b' -> a = a' /\ b = b'.

Lemma delimited_length a a' : length a = length a' -> delimited a a'.
Proof. intros Hl b b' H. by apply app_inj_1. Qed.

Lemma delimited_be v v' n : delimited (be v n) (be v' n).
Proof. apply delimited_length. by rewrite !length_be. Qed.

(** A text whose length fits its prefix. *)
Definition short (s : string) : Prop := blen (TextEncoder_encode s) < 2 ^ 32.

Lemma delimited_lp s s' : short s -> short s' -> delimited (lp s) (lp s').
Proof.
  unfold short, lp. intros Hs Hs' b b' H. rewrite <- !app_assoc in H.
  apply delimited_be in H as [Hn H]. rewrite Hn.
  apply be4_inj in Hn; [|pose proof (blen_nonneg (TextEncoder_encode s)); lia|pose proof (blen_nonneg (TextEncoder_encode s')); lia].
  apply app_inj_1 in H as [-> ->]; [done|]. unfold blen in Hn. lia.
Qed.

Lemma lp_inj s s' : lp s = lp s' -> s = s'.
Proof.
  unfold lp. intros H. apply app_inj_1 in H as [_ H]; [by apply TextEncoder_inj | by rewrite !length_be].
Qed.

(** Parts that are delimited one by one are read back from their concatenation. *)
Lemma concat_delimited l l' : Forall2 delimited l l' -> concat l = concat l' -> l = l'.
Proof.
  induction 1 as [|a a' l l' Ha _ IH]; [done|]. cbn [concat]. intros [-> H]%Ha. by rewrite (IH H).
Qed.

(** Parts, one by one and without computing them. *)
Lemma parts_cons (a a' : bytes) l l' : a :: l = a' :: l' -> a = a' /\ l = l'.
Proof. by intros [= -> ->]. Qed.

(** Open an equation between two lists of parts, and read back the scalars whose range
    is known. *)
Ltac open_parts H := repeat (let E := fresh "E" in apply parts_cons in H as [E H]); clear H.
Ltac read_parts :=
  repeat match goal with
  | E : be _ 8 = be _ 8 |- _ => apply be8_inj in E; [|lia|lia]
  | E : be _ 4 = be _ 4 |- _ => apply be4_inj in E; [|lia|lia]
  | E : be _ 1 = be _ 1 |- _ => apply be1_inj in E; [|lia|lia]
  | E : lp _ = lp _ |- _ => apply lp_inj in E
  end.
