(* ===== verification/Response.v ===== *)
(** * HTTP responses

    A [Response] as far as the retrieval code reads it: its status, three of its
    headers, and its body, a stream of chunks in which a read may fail; an abort is
    seen as a failed read.  Models [readBoundedResponse] of
    src/polystore-website/src/lib/retrieval.ts, and the test for a JSON content type
    that lib/retrievalSettlement.ts and lib/retrievalV3Settlement.ts share. *)

From S2P Require Import Prelude JsNumber JsBytes JsString JsText.
Local Open Scope Z_scope.

Record Response := {
  r_status : Z; r_contentType : option string; r_contentLength : option string;
  r_blockHeight : option string; r_body : option (list (result bytes)) }.

(** [response.ok] *)
Definition r_ok (r : Response) : bool := (200 <=? r_status r) && (r_status r <=? 299).

(** [for (;;)]: the chunks that were read so far are [chunks]. *)
Fixpoint readChunks (reads : list (result bytes)) (max size : Z) (chunks : list bytes)
    : result (list bytes) :=
  match reads with
  | [] => Ok chunks
  | Err m :: _ => Err m
  | Ok value :: reads =>
      let size := size + blen value in
      throw_if max <? size with "response exceeds limit" else
      readChunks reads max size (chunks ++ [value])
  end.

Definition readBoundedResponse (r : Response) (max : Z) : result bytes :=
  throw_if match r_contentLength r with
           | Some length => negb (canonical_decimal length) || (max <? parse_decimal length)
           | None => false
           end
    with "response exceeds limit" else
  match r_body r with
  | None => Err "missing response body"
  | Some reads => let! chunks := readChunks reads max 0 [] in Ok (concat chunks)
  end.

(** [/^application\/json(?:\s*;|$)/i] *)
Definition isJsonType (contentType : string) : bool :=
  let l := codes (toLowerCase contentType) in
  let json := codes "application/json" in
  let rest := drop (length json) l in
  bool_decide (take (length json) l = json)
  && (bool_decide (rest = []) || match trim_left is_white rest with c :: _ => c =? 59 | [] => false end).

(** ** Lemmas *)

Lemma readChunks_spec reads max : forall size chunks r,
  readChunks reads max size chunks = Ok r -> size = blen (concat chunks) -> size <= max ->
  exists values, reads = map Ok values /\ r = chunks ++ values /\ blen (concat r) <= max.
Proof.
  induction reads as [|[v|m] reads IH]; intros size chunks r H Hs Hm; cbn [readChunks] in H; [| |done].
  - apply Ok_inj in H as <-. exists []. rewrite app_nil_r. split_and!; [done | done | lia].
  - cbv zeta in H. ok_step H. bool_to_prop.
    apply IH in H as (values & -> & -> & Hb); [| |done].
    + exists (v :: values). rewrite <- app_assoc in *. by split_and!.
    + rewrite concat_app, blen_app. cbn. rewrite app_nil_r. lia.
Qed.

(** What was read is the whole body, and it is within the limit. *)
Lemma readBoundedResponse_Ok r max bs :
  0 <= max -> readBoundedResponse r max = Ok bs ->
  blen bs <= max /\ exists values, r_body r = Some (map Ok values) /\ bs = concat values.
Proof.
  intros Hm H. unfold readBoundedResponse in H. ok_step H. destruct (r_body r) as [reads|]; [|done].
  ok_step H. apply Ok_inj in H as <-.
  apply readChunks_spec in Hv as (values & -> & -> & Hb); [|done|done]. split; [done|]. by exists values.
Qed.
