(* ===== verification/Multipart.v ===== *)
(** * The multipart reader of retrievals

    Models [parseMultipartRetrieval] of
    src/polystore-website/src/lib/retrievalWire.ts: the body of a response is bounded, cut
    at the boundary that the content type names into exactly two parts, and the second
    part is the bytes that were asked for.

    The platform's own parser ([Response.formData]) and [JSON.parse] are parameters.  A
    content type is compared as ASCII; texts are lists of code units. *)

From S2P Require Import Prelude JsNumber JsBytes JsString JsText Utf8 Encoding Layout Pinned Response.
Local Open Scope Z_scope.

Definition RETRIEVAL_METADATA_LIMIT : Z := 128 * 1024.
Definition RETRIEVAL_FRAMING_LIMIT : Z := 16 * 1024.

(** ** Content types *)

(** [text.split(sep)] for one character *)
Fixpoint split_char (sep : Z) (l : list Z) : list (list Z) :=
  match l with
  | [] => [[]]
  | c :: l =>
      if c =? sep then [] :: split_char sep l
      else match split_char sep l with
           | part :: parts => (c :: part) :: parts
           | [] => [[c]]
           end
  end.

Definition startsWith (prefix l : list Z) : bool := bool_decide (take (length prefix) l = prefix).
Definition lower_code (c : Z) : Z := if (65 <=? c) && (c <=? 90) then c + 32 else c.

(** [value.replace(/^(dquote)([^(dquote)\\]+)(dquote)$/, '$1')], where (dquote) is the character 34 *)
Definition unquote (l : list Z) : list Z :=
  match l with
  | 34 :: rest =>
      match rev rest with
      | 34 :: inner =>
          if negb (bool_decide (inner = [])) && forallb (fun c => negb (c =? 34) && negb (c =? 92)) inner then rev inner else l
      | _ => l
      end
  | _ => l
  end.

(** [/^[A-Za-z0-9'()+_,\-./:=?]{1,70}$/] *)
Definition boundary_char (c : Z) : bool :=
  ((65 <=? c) && (c <=? 90)) || ((97 <=? c) && (c <=? 122)) || ((48 <=? c) && (c <=? 57))
  || bool_decide (c ∈ [39; 40; 41; 43; 95; 44; 45; 46; 47; 58; 61; 63]).
Definition boundary_ok (l : list Z) : bool :=
  negb (bool_decide (l = [])) && (Z.of_nat (length l) <=? 70) && forallb boundary_char l.

Definition boundaryOf (contentType : string) (version : Z) : result (list Z) :=
  let fields := map (trim_codes is_white) (split_char 59 (codes contentType)) in
  let boundary := match List.find (startsWith (codes "boundary=")) fields with
                  | Some field => unquote (drop 9 field)
                  | None => []
                  end in
  throw_if negb (bool_decide (length fields = 3%nat))
           || negb (bool_decide (map lower_code (hd [] fields) = codes "multipart/form-data"))
           || negb (bool_decide (codes ("version=" +:+ pretty version) ∈ fields))
           || negb (boundary_ok boundary)
    with "unsupported secured retrieval content type" else
  Ok boundary.

(** ** The body *)

(** [find(needle, start)]: [None] is -1. *)
Fixpoint findIn (needle l : bytes) (i : Z) : option Z :=
  if bool_decide (take (length needle) l = needle) then Some i
  else match l with
       | [] => None
       | _ :: l => findIn needle l (i + 1)
       end.
Definition find (body needle : bytes) (start : Z) : option Z := findIn needle (drop (Z.to_nat start) body) start.

Definition CRLF : bytes := [13; 10].
Definition headerEnd : bytes := CRLF ++ CRLF.
Definition firstDelimiter (boundary : list Z) : bytes := [45; 45] ++ boundary ++ CRLF.
Definition middleDelimiter (boundary : list Z) : bytes := CRLF ++ [45; 45] ++ boundary ++ CRLF.
Definition lastDelimiter (boundary : list Z) : bytes := CRLF ++ [45; 45] ++ boundary ++ [45; 45].

(** The value of an entry of a form: a text, or a file of a type. *)
Inductive FormValue := FormText | FormFile (type : string).

(** [text.split('\r\n')] *)
Fixpoint split_lines (l : list Z) : list (list Z) :=
  match l with
  | [] => [[]]
  | 13 :: 10 :: l => [] :: split_lines l
  | c :: l =>
      match split_lines l with
      | part :: parts => (c :: part) :: parts
      | [] => [[c]]
      end
  end.

(** The positions that frame the two parts. *)
Record Frame := { fm_h1 : Z; fm_split : Z; fm_h2 : Z; fm_close : Z }.

Definition frameOf (body boundary : bytes) (expectedBytes : Z) : result Frame :=
  let first := firstDelimiter boundary in
  let middle := middleDelimiter boundary in
  let last := lastDelimiter boundary in
  let framing := "invalid multipart framing"%string in
  match find body middle (blen first), find body last (blen first) with
  | Some split, Some close =>
      throw_if negb (equal (subarray body 0 (blen first)) first) || (close <? split)
               || bool_decide (is_Some (find body middle (split + blen middle)))
               || negb ((close + blen last =? blen body)
                        || ((close + blen last + 2 =? blen body) && (get body (blen body - 2) =? 13)
                            && (get body (blen body - 1) =? 10)))
        with framing else
      let sizes := "invalid multipart part size"%string in
      match find body headerEnd (blen first), find body headerEnd (split + blen middle) with
      | Some h1, Some h2 =>
          throw_if (4096 <? h1 - blen first) || (split <=? h1) || (4096 <? h2 - split - blen middle) || (close <=? h2)
                   || (RETRIEVAL_METADATA_LIMIT <? split - h1 - 4) || negb (close - h2 - 4 =? expectedBytes)
            with sizes else
          Ok {| fm_h1 := h1; fm_split := split; fm_h2 := h2; fm_close := close |}
      | _, _ => Err sizes
      end
  | _, _ => Err framing
  end.

Section reader.
Context (json_parse : bytes -> result json) (formData : bytes -> string -> result (list (string * FormValue))).

Definition entries_ok (entries : list (string * FormValue)) : bool :=
  match entries with
  | [(n1, FormText); (n2, FormFile type)] =>
      String.eqb n1 "metadata" && String.eqb n2 "bytes" && String.eqb type "application/octet-stream"
  | _ => false
  end.

Definition metadata_type_ok (header : list Z) : bool :=
  bool_decide (length (List.filter (fun line => bool_decide (line = codes "content-type: application/json"))
                         (split_lines (map lower_code header))) = 1%nat).

(** [aborted]: the signal is aborted when the parts have been read. *)
Definition parseMultipartRetrieval (response : Response) (version : Z) (expectedBytes : number) (aborted : bool)
    : result (json * bytes) :=
  throw_if negb (r_ok response) || negb (isSafeInteger expectedBytes) || (num_int expectedBytes <? BLOB_SIZE_BYTES)
           || (8 * 1024 * 1024 <? num_int expectedBytes) with "invalid retrieval response" else
  let expectedBytes := num_int expectedBytes in
  let contentType := default "" (r_contentType response) in
  let! boundary := boundaryOf contentType version in
  let! body := readBoundedResponse response (expectedBytes + RETRIEVAL_METADATA_LIMIT + RETRIEVAL_FRAMING_LIMIT) in
  let! f := frameOf body boundary expectedBytes in
  let! entries := formData body contentType in
  throw_if negb (entries_ok entries) with "invalid multipart parts" else
  match utf8_decode (subarray body (blen (firstDelimiter boundary)) (fm_h1 f)) with
  | None => Err "The encoded data was not valid for encoding utf-8"
  | Some header =>
      throw_if negb (metadata_type_ok header) with "invalid metadata content type" else
      let text := subarray body (fm_h1 f + 4) (fm_split f) in
      throw_if negb (bool_decide (is_Some (utf8_decode text)))
        with "The encoded data was not valid for encoding utf-8" else
      let! metadata := json_parse text in
      throw_if aborted with "AbortError" else
      Ok (metadata, subarray body (fm_h2 f + 4) (fm_close f))
  end.
End reader.

(** ** Lemmas *)

Definition occurs_at (needle l : bytes) (i : Z) : Prop :=
  exists a b, l = a ++ needle ++ b /\ blen a = i.

Lemma take_prefix (needle l : bytes) : take (length needle) l = needle <-> exists b, l = needle ++ b.
Proof.
  split.
  - intros H. exists (drop (length needle) l). by rewrite <- H at 1; rewrite take_drop.
  - intros [b ->]. apply take_app_length.
Qed.

Lemma findIn_Some needle l i k : findIn needle l i = Some k -> occurs_at needle l (k - i) /\ i <= k.
Proof.
  revert i. induction l as [|c l IH]; intros i; cbn [findIn]; case_bool_decide as Hp.
  - intros [= <-]. apply take_prefix in Hp as [b Hb]. split; [|lia]. exists [], b. split; [done|]. change (blen []) with 0. lia.
  - done.
  - intros [= <-]. apply take_prefix in Hp as [b Hb]. split; [|lia]. exists [], b. split; [done|]. change (blen []) with 0. lia.
  - intros [(a & b & -> & Ha) Hle]%IH. split; [|lia]. exists (c :: a), b. split; [done|]. unfold blen in *. cbn [length]. lia.
Qed.

Lemma findIn_here needle l i : take (length needle) l = needle -> findIn needle l i = Some i.
Proof. intros H. destruct l; cbn [findIn]; by rewrite bool_decide_eq_true_2. Qed.

(** The first occurrence is found. *)
Lemma findIn_first needle a b i : (forall a1 b1, a ++ needle ++ b = a1 ++ needle ++ b1 -> (length a <= length a1)%nat) ->
  findIn needle (a ++ needle ++ b) i = Some (i + blen a).
Proof.
  revert i. induction a as [|c a IH]; intros i Hmin.
  - change (blen []) with 0. rewrite Z.add_0_r. apply findIn_here. apply (take_app_length needle).
  - cbn [app findIn]. case_bool_decide as Hp.
    + apply take_prefix in Hp as [b1 Hb1]. specialize (Hmin [] b1 Hb1). cbn in Hmin. lia.
    + rewrite IH.
      * f_equal. unfold blen. cbn [length]. lia.
      * intros a1 b1 H. specialize (Hmin (c :: a1) b1). cbn in Hmin. rewrite H in Hmin. specialize (Hmin eq_refl). lia.
Qed.

Lemma findIn_None needle l i : (forall a b, l <> a ++ needle ++ b) -> findIn needle l i = None.
Proof.
  revert i. induction l as [|c l IH]; intros i H; cbn [findIn]; case_bool_decide as Hp.
  - apply take_prefix in Hp as [b Hb]. by destruct (H [] b).
  - done.
  - apply take_prefix in Hp as [b Hb]. by destruct (H [] b).
  - apply IH. intros a b ->. by destruct (H (c :: a) b).
Qed.

(** Where [find] stops, the needle is. *)
Lemma find_Some body needle start k : 0 <= start -> needle <> [] -> find body needle start = Some k ->
  start <= k /\ k + blen needle <= blen body /\ subarray body k (k + blen needle) = needle.
Proof.
  unfold find. intros Hs Hne [(a & b & Hd & Ha) Hle]%findIn_Some.
  assert (Hl : (Z.to_nat start <= length body)%nat).
  { apply Nat.nlt_ge. intros Hlt. rewrite drop_ge in Hd by lia. destruct a; [|done]. by destruct needle. }
  assert (Hb : body = (take (Z.to_nat start) body ++ a) ++ needle ++ b) by by rewrite <- app_assoc, <- Hd, take_drop.
  assert (Ht : length (take (Z.to_nat start) body ++ a) = Z.to_nat k) by (rewrite length_app, length_take; unfold blen in *; lia).
  split; [done|]. split.
  - rewrite Hb. unfold blen in *. rewrite !length_app in *. lia.
  - unfold subarray. rewrite Z.add_simpl_l. unfold blen. rewrite Nat2Z.id. rewrite Hb, drop_app_length' by done. apply take_app_length.
Qed.

(** ** A well-formed body *)

Definition multipart (boundary header1 text header2 payload tail : bytes) : bytes :=
  firstDelimiter boundary ++ header1 ++ headerEnd ++ text ++ middleDelimiter boundary
  ++ header2 ++ headerEnd ++ payload ++ lastDelimiter boundary ++ tail.

Lemma subarray_two (l : bytes) : 2 <= blen l -> get l (blen l - 2) = 13 -> get l (blen l - 1) = 10 ->
  subarray l (blen l - 2) (blen l) = CRLF.
Proof.
  unfold get, subarray, blen. intros Hl H1 H2. destruct (rev l) as [|b r] eqn:Hr; [apply (f_equal length) in Hr; rewrite length_rev in Hr; cbn in Hr; lia|].
  destruct r as [|a r]; [apply (f_equal length) in Hr; rewrite length_rev in Hr; cbn in Hr; lia|].
  apply (f_equal (@rev Z)) in Hr. rewrite rev_involutive in Hr. cbn [rev] in Hr. rewrite <- app_assoc in Hr. cbn [app] in Hr. subst l.
  rewrite length_app in *. cbn [length] in *. revert H1 H2.
  replace (Z.to_nat (Z.of_nat (length (rev r) + 2) - 2)) with (length (rev r)) by lia.
  replace (Z.to_nat (Z.of_nat (length (rev r) + 2) - 1)) with (length (rev r) + 1)%nat by lia.
  replace (Z.to_nat (Z.of_nat (length (rev r) + 2) - (Z.of_nat (length (rev r) + 2) - 2))) with 2%nat by lia.
  rewrite drop_app_length. rewrite !app_nth2 by lia. replace (length (rev r) + 1 - length (rev r))%nat with 1%nat by lia.
  rewrite Nat.sub_diag. cbn. by intros -> ->.
Qed.

(** A frame cuts the body into the two parts, which nothing precedes and at most a line
    break follows. *)
Lemma frameOf_Ok body boundary expected f : 0 <= expected -> frameOf body boundary expected = Ok f ->
  fm_h1 f + 4 <= fm_split f ->
  exists header1 text header2 payload tail,
    body = multipart boundary header1 text header2 payload tail /\ (tail = [] \/ tail = CRLF)
    /\ subarray body (blen (firstDelimiter boundary)) (fm_h1 f) = header1
    /\ subarray body (fm_h1 f + 4) (fm_split f) = text /\ subarray body (fm_h2 f + 4) (fm_close f) = payload
    /\ blen payload = expected /\ blen text <= RETRIEVAL_METADATA_LIMIT /\ blen header1 <= 4096 /\ blen header2 <= 4096.
Proof.
  unfold frameOf. set (first := firstDelimiter boundary). set (middle := middleDelimiter boundary). set (last := lastDelimiter boundary).
  intros He H Hlt. pose proof (blen_nonneg first) as Hf.
  destruct (find body middle (blen first)) as [split|] eqn:Hsplit; [|done].
  destruct (find body last (blen first)) as [close|] eqn:Hclose; [|done]. cbv zeta in H. ok_step H.
  destruct (find body headerEnd (blen first)) as [h1|] eqn:Hh1; [|done].
  destruct (find body headerEnd (split + blen middle)) as [h2|] eqn:Hh2; [|done]. ok_step H.
  apply Ok_inj in H as <-. cbn [fm_h1 fm_h2 fm_split fm_close] in *.
  apply find_Some in Hsplit as (Hs1 & Hs2 & Hs3); [|done|done]. apply find_Some in Hclose as (Hc1 & Hc2 & Hc3); [|done|done].
  apply find_Some in Hh1 as (Ha1 & Ha2 & Ha3); [|done|done]. change (blen headerEnd) with 4 in *.
  pose proof (blen_nonneg middle). apply find_Some in Hh2 as (Hb1 & Hb2 & Hb3); [|lia|done]. change (blen headerEnd) with 4 in *.
  bool_to_prop. assert (Hfirst : subarray body 0 (blen first) = first) by by apply equal_iff.
  exists (subarray body (blen first) h1), (subarray body (h1 + 4) split), (subarray body (split + blen middle) h2),
    (subarray body (h2 + 4) close), (subarray body (close + blen last) (blen body)).
  pose proof (blen_nonneg last). rewrite !blen_subarray by lia. split_and!; try done; try lia.
  - unfold multipart. fold first middle last. rewrite <- Hfirst at 1. rewrite <- Ha3 at 1. rewrite <- Hs3 at 1.
    rewrite <- Hb3 at 1. rewrite <- Hc3 at 1. rewrite !subarray_split by lia. symmetry. by apply subarray_all.
  - destruct (close + blen last =? blen body) eqn:Hend; bool_to_prop.
    + left. rewrite Hend. unfold subarray. by rewrite Z.sub_diag.
    + right. cbn [orb] in *. bool_to_prop. replace (close + blen last) with (blen body - 2) by lia.
      apply subarray_two; [lia | done | done].
Qed.

(** ** Delimiters do not overlap *)

Definition delimiter (boundary : bytes) : bytes := CRLF ++ [45; 45] ++ boundary.

(** What a boundary is made of. *)
Definition boundary_wf (boundary : bytes) : Prop := 1 <= blen boundary <= 70 /\ Forall (fun c => c <> 13) boundary.

Lemma boundaryOf_wf contentType version boundary : boundaryOf contentType version = Ok boundary -> boundary_wf boundary.
Proof.
  unfold boundaryOf. intros H. cbv zeta in H. ok_step H. apply Ok_inj in H as <-. bool_to_prop.
  match goal with H : boundary_ok ?b = true |- _ => revert H; generalize b end. intros b Hb. unfold boundary_ok in Hb.
  bool_to_prop. split.
  - unfold blen. destruct b; [by rewrite bool_decide_eq_true_2 in * by done | cbn [length] in *; lia].
  - apply Forall_forall. intros c Hc ->. match goal with H : forallb _ b = true |- _ => rewrite forallb_forall in H; specialize (H 13) end.
    by match goal with H : In _ _ -> _ |- _ => discriminate (H (proj1 (list_elem_of_In _ _) Hc)) end.
Qed.

Section framing.
Context (boundary : bytes) (boundary_ok : boundary_wf boundary).
Let delim := delimiter boundary.

Lemma delim_return k : delim !! k = Some 13 -> k = 0%nat.
Proof.
  destruct k as [|k]; [done|]. destruct boundary_ok as [_ Hb]. unfold delim, delimiter, CRLF. cbn [app lookup list_lookup].
  do 3 (destruct k as [|k]; [done|]; cbn [lookup list_lookup]). intros Hk. by destruct (proj1 (Forall_lookup _ _) Hb k 13 Hk).
Qed.

Lemma delim_start x y : (x ++ delim ++ y) !! length x = Some 13.
Proof. rewrite lookup_app_r, Nat.sub_diag by done. done. Qed.

Lemma delim_before x y a b : x ++ delim ++ y = a ++ delim ++ b -> (length x < length a)%nat ->
  (length x + length delim <= length a)%nat.
Proof.
  intros Heq Hlt. apply Nat.nlt_ge. intros Hov. pose proof (delim_start a b) as H13. rewrite <- Heq in H13.
  rewrite lookup_app_r, lookup_app_l in H13 by lia. apply delim_return in H13. lia.
Qed.

(** Two delimiters of one text are the same, or apart. *)
Lemma delim_cases x y a b : x ++ delim ++ y = a ++ delim ++ b ->
  (a = x /\ b = y) \/ (exists m, x = a ++ delim ++ m) \/ (exists m, a = x ++ delim ++ m /\ y = m ++ delim ++ b).
Proof.
  intros Heq. destruct (lt_eq_lt_dec (length x) (length a)) as [[Hlt|Hl]|Hgt].
  - right. right. pose proof (delim_before _ _ _ _ Heq Hlt) as Hle. rewrite app_assoc in Heq.
    exists (drop (length x + length delim) a).
    assert (Ha : a = (x ++ delim) ++ drop (length x + length delim) a).
    { rewrite <- (take_drop (length (x ++ delim)) a) at 1. rewrite length_app. f_equal.
      apply (f_equal (take (length x + length delim))) in Heq. rewrite take_app_length' in Heq by (rewrite length_app; lia).
      rewrite Heq, take_app_le by done. done. }
    split; [by rewrite app_assoc|]. rewrite Ha, <- (app_assoc (x ++ delim)) in Heq at 1. by apply app_inv_head in Heq.
  - left. apply app_inj_1 in Heq as [-> Heq]; [|done]. split; [done|]. symmetry. by apply app_inv_head in Heq.
  - right. left. symmetry in Heq. pose proof (delim_before _ _ _ _ Heq Hgt) as Hle. exists (drop (length a + length delim) x).
    rewrite app_assoc in Heq. rewrite <- (take_drop (length a + length delim) x) at 1. rewrite app_assoc. f_equal.
    apply (f_equal (take (length a + length delim))) in Heq. rewrite take_app_length' in Heq by (rewrite length_app; lia).
    by rewrite Heq, take_app_le by done.
Qed.

(** The delimiter does not occur in a part, not even with the line break before it. *)
Definition clean (part : bytes) : Prop := forall a b, CRLF ++ part <> a ++ delim ++ b.

Lemma clean_part part a b : clean part -> part <> a ++ delim ++ b.
Proof. intros Hc ->. by apply (Hc (CRLF ++ a) b). Qed.

Lemma middle_delim : middleDelimiter boundary = delim ++ CRLF.
Proof. unfold middleDelimiter, delim, delimiter. by rewrite <- !app_assoc. Qed.
Lemma last_delim : lastDelimiter boundary = delim ++ [45; 45].
Proof. unfold lastDelimiter, delim, delimiter. by rewrite <- !app_assoc. Qed.

Lemma find_after a l needle start : start = blen a -> find (a ++ l) needle start = findIn needle l start.
Proof. intros ->. unfold find, blen. by rewrite Nat2Z.id, drop_app_length. Qed.

Lemma find_middle p1 rest i : clean p1 ->
  findIn (middleDelimiter boundary) (p1 ++ middleDelimiter boundary ++ rest) i = Some (i + blen p1).
Proof.
  intros Hc. apply findIn_first. intros a b. rewrite middle_delim, <- !app_assoc. intros Heq.
  destruct (delim_cases _ _ _ _ Heq) as [[-> _]|[[m ->]|(m & -> & _)]]; [done | by destruct (clean_part _ _ _ Hc eq_refl)|].
  rewrite !length_app. lia.
Qed.

Lemma find_last p1 p2 tail i : clean p1 -> clean p2 ->
  findIn (lastDelimiter boundary) ((p1 ++ middleDelimiter boundary ++ p2) ++ lastDelimiter boundary ++ tail) i
  = Some (i + blen (p1 ++ middleDelimiter boundary ++ p2)).
Proof.
  intros H1 H2. apply findIn_first. intros a b. rewrite middle_delim, last_delim, <- !app_assoc. intros Heq.
  destruct (delim_cases _ _ _ _ Heq) as [[-> Hy]|[[m ->]|(m & -> & Hy)]]; [done | by destruct (clean_part _ _ _ H1 eq_refl)|].
  rewrite (app_assoc CRLF) in Hy. destruct (delim_cases _ _ _ _ Hy) as [[-> _]|[[m' Hm]|(m' & -> & _)]].
  - rewrite !length_app. lia.
  - by destruct (H2 m m').
  - rewrite !length_app. lia.
Qed.

Lemma find_no_middle p2 tail i : clean p2 -> tail = [] \/ tail = CRLF ->
  findIn (middleDelimiter boundary) (p2 ++ lastDelimiter boundary ++ tail) i = None.
Proof.
  intros Hc Ht. apply findIn_None. intros a b. rewrite middle_delim, last_delim, <- !app_assoc. intros Heq.
  destruct (delim_cases _ _ _ _ Heq) as [[-> Hy]|[[m ->]|(m & -> & Hy)]]; [done | by destruct (clean_part _ _ _ Hc eq_refl)|].
  apply (f_equal length) in Hy. destruct boundary_ok as [[Hb _] _]. unfold blen in Hb.
  assert (Hd : (5 <= length delim)%nat) by (unfold delim, delimiter; rewrite !length_app; cbn; lia).
  rewrite !length_app in Hy. destruct Ht as [->| ->]; cbn [length] in Hy; change (length CRLF) with 2%nat in Hy; lia.
Qed.
End framing.

(** ** Headers *)

Lemma findIn_least needle l i k a b : findIn needle l i = Some k -> l = a ++ needle ++ b -> k <= i + blen a.
Proof.
  revert i a. induction l as [|c l IH]; intros i a; cbn [findIn]; case_bool_decide as Hp; intros H Hl;
    pose proof (blen_nonneg a); try (injection H as <-; lia); try discriminate H.
  destruct a as [|c' a]; [destruct Hp; apply take_prefix; by exists b|]. cbn [app] in Hl. injection Hl as -> Hl.
  specialize (IH (i + 1) a H Hl). unfold blen in *. cbn [length]. lia.
Qed.

(** The blank line ends the header, and none comes before it. *)
Definition header_ok (header : bytes) : Prop :=
  findIn headerEnd (header ++ headerEnd) 0 = Some (blen header) /\ blen header <= 4096.

Lemma find_header header rest i : header_ok header -> findIn headerEnd (header ++ headerEnd ++ rest) i = Some (i + blen header).
Proof.
  intros [Hf _]. apply findIn_first. intros a b Heq. apply Nat.nlt_ge. intros Hlt.
  assert (Hin : header ++ headerEnd = a ++ headerEnd ++ take (length header - length a) b).
  { apply (f_equal (take (length header + 4))) in Heq. rewrite app_assoc, take_app_length' in Heq by (rewrite length_app; cbn; lia).
    rewrite Heq, app_assoc, take_app_ge by (rewrite length_app; cbn; lia). rewrite <- app_assoc. do 3 f_equal.
    rewrite length_app. cbn. lia. }
  pose proof (findIn_least _ _ _ _ _ _ Hf Hin). unfold blen in *. lia.
Qed.

(** ** A response that is framed as it should be *)

Lemma readBounded_total r values max : r_body r = Some (map Ok values) -> r_contentLength r = None -> blen (concat values) <= max ->
  readBoundedResponse r max = Ok (concat values).
Proof.
  intros Hb Hl Hm. unfold readBoundedResponse. rewrite Hl, Hb.
  assert (H : forall vs size chunks, size + blen (concat vs) <= max -> readChunks (map Ok vs) max size chunks = Ok (chunks ++ vs)).
  { induction vs as [|v vs IH]; intros size chunks H; cbn [map readChunks concat] in *; [by rewrite app_nil_r|].
    rewrite blen_app in H. pose proof (blen_nonneg (concat vs)). rewrite (proj2 (Z.ltb_ge _ _)) by lia. rewrite IH by lia.
    by rewrite <- app_assoc. }
  by rewrite H by lia.
Qed.

(** The parts that a server frames: the delimiter occurs in neither, and they have the
    sizes that the reader expects. *)
Record parts_ok (boundary header1 text header2 payload tail : bytes) : Prop := {
  pk_clean1 : clean boundary (header1 ++ headerEnd ++ text);
  pk_clean2 : clean boundary (header2 ++ headerEnd ++ payload);
  pk_header1 : header_ok header1;
  pk_header2 : header_ok header2;
  pk_text : 0 < blen text <= RETRIEVAL_METADATA_LIMIT;
  pk_tail : tail = [] \/ tail = CRLF }.

Lemma tail_end (x tail : bytes) close : tail = [] \/ tail = CRLF -> close = blen x ->
  let body := x ++ tail in
  (close =? blen body) || ((close + 2 =? blen body) && (get body (blen body - 2) =? 13) && (get body (blen body - 1) =? 10)) = true.
Proof.
  intros Ht -> body. unfold body. rewrite blen_app. destruct Ht as [->| ->].
  - change (blen []) with 0. by rewrite Z.add_0_r, Z.eqb_refl.
  - change (blen CRLF) with 2. rewrite Z.eqb_refl. unfold get, blen.
    rewrite !app_nth2 by lia. replace (Z.to_nat (Z.of_nat (length x) + 2 - 2) - length x)%nat with 0%nat by lia.
    replace (Z.to_nat (Z.of_nat (length x) + 2 - 1) - length x)%nat with 1%nat by lia. cbn. apply orb_true_r.
Qed.

Section accepted.
Context (boundary header1 text header2 payload tail : bytes) (boundary_ok : boundary_wf boundary)
  (parts : parts_ok boundary header1 text header2 payload tail) (payload_ok : 0 < blen payload).

Let part1 := header1 ++ headerEnd ++ text.
Let part2 := header2 ++ headerEnd ++ payload.
Let body := multipart boundary header1 text header2 payload tail.
Let first := blen (firstDelimiter boundary).
Let split := first + blen header1 + 4 + blen text.
Let second := split + blen (middleDelimiter boundary).
Let close := second + blen header2 + 4 + blen payload.

Lemma part1_length : blen part1 = blen header1 + 4 + blen text.
Proof. unfold part1. rewrite !blen_app. change (blen headerEnd) with 4. lia. Qed.
Lemma part2_length : blen part2 = blen header2 + 4 + blen payload.
Proof. unfold part2. rewrite !blen_app. change (blen headerEnd) with 4. lia. Qed.

Lemma body_parts : body = firstDelimiter boundary ++ part1 ++ middleDelimiter boundary ++ part2 ++ lastDelimiter boundary ++ tail.
Proof. unfold body, multipart, part1, part2. by rewrite <- !app_assoc. Qed.

Lemma body_first_header : find body headerEnd first = Some (first + blen header1).
Proof. rewrite body_parts, find_after by done. unfold part1. rewrite <- !app_assoc. apply find_header, parts. Qed.

Lemma body_split : find body (middleDelimiter boundary) first = Some split.
Proof.
  rewrite body_parts, find_after, find_middle by (done || apply parts). f_equal. rewrite part1_length. unfold split. lia.
Qed.

Lemma body_close : find body (lastDelimiter boundary) first = Some close.
Proof.
  rewrite body_parts, find_after, (app_assoc (middleDelimiter _)), (app_assoc part1), find_last by (done || apply parts). f_equal.
  rewrite !blen_app, part1_length, part2_length. unfold close, second, split. lia.
Qed.

Lemma body_second needle : find body needle second = findIn needle (part2 ++ lastDelimiter boundary ++ tail) second.
Proof.
  rewrite body_parts, (app_assoc (firstDelimiter _)), (app_assoc (_ ++ part1)). apply find_after.
  rewrite !blen_app, part1_length. unfold second, split, first. lia.
Qed.

Lemma body_second_header : find body headerEnd second = Some (second + blen header2).
Proof. rewrite body_second. unfold part2. rewrite <- !app_assoc. apply find_header, parts. Qed.

Lemma body_one_middle : find body (middleDelimiter boundary) second = None.
Proof. rewrite body_second. apply find_no_middle; [done | apply parts | apply parts]. Qed.

Lemma body_end : exists x, body = x ++ tail /\ close + blen (lastDelimiter boundary) = blen x.
Proof.
  exists (firstDelimiter boundary ++ part1 ++ middleDelimiter boundary ++ part2 ++ lastDelimiter boundary).
  split; [rewrite body_parts; by rewrite <- !app_assoc|]. rewrite !blen_app, part1_length, part2_length.
  unfold close, second, split, first. lia.
Qed.

Lemma frameOf_multipart : frameOf body boundary (blen payload)
  = Ok {| fm_h1 := first + blen header1; fm_split := split; fm_h2 := second + blen header2; fm_close := close |}.
Proof.
  pose proof (blen_nonneg header1). pose proof (blen_nonneg header2). pose proof (blen_nonneg (middleDelimiter boundary)).
  destruct (pk_header1 _ _ _ _ _ _ parts) as [_ Hl1]. destruct (pk_header2 _ _ _ _ _ _ parts) as [_ Hl2].
  pose proof (pk_text _ _ _ _ _ _ parts) as Ht. pose proof (pk_tail _ _ _ _ _ _ parts) as Htail.
  assert (Hfst : subarray body 0 first = firstDelimiter boundary) by (rewrite body_parts; by apply (subarray_middle [])).
  destruct body_end as (x & Hx & Hend). unfold frameOf. cbv zeta. fold first second.
  rewrite body_split, body_close. fold second. rewrite body_one_middle, Hfst, (proj2 (equal_iff _ _)), bool_decide_eq_false_2 by (done || by intros [? ?]).
  rewrite Hx, (tail_end x tail) by done. rewrite <- Hx. rewrite (proj2 (Z.ltb_ge close split)) by (unfold close, second; lia).
  cbn [negb orb]. rewrite body_first_header, body_second_header.
  rewrite !(proj2 (Z.ltb_ge _ _)), !(proj2 (Z.leb_gt _ _)), (proj2 (Z.eqb_eq _ _)) by (unfold close, split, second; lia). done.
Qed.

Lemma body_pieces : subarray body first (first + blen header1) = header1
  /\ subarray body (first + blen header1 + 4) split = text /\ subarray body (second + blen header2 + 4) close = payload.
Proof.
  split_and!.
  - apply subarray_middle; [done | unfold first; lia].
  - assert (Hb : body = (firstDelimiter boundary ++ header1 ++ headerEnd) ++ text ++ (middleDelimiter boundary ++ part2 ++ lastDelimiter boundary ++ tail))
      by (unfold body, multipart, part2; by rewrite <- !app_assoc).
    rewrite Hb. apply subarray_middle; rewrite !blen_app; change (blen headerEnd) with 4; unfold split, first; lia.
  - assert (Hb : body = (firstDelimiter boundary ++ part1 ++ middleDelimiter boundary ++ header2 ++ headerEnd) ++ payload ++ (lastDelimiter boundary ++ tail))
      by (unfold body, multipart, part1; by rewrite <- !app_assoc).
    rewrite Hb. apply subarray_middle; rewrite !blen_app, part1_length; change (blen headerEnd) with 4;
      unfold close, second, split, first; lia.
Qed.

Lemma body_bound : blen body <= blen payload + RETRIEVAL_METADATA_LIMIT + RETRIEVAL_FRAMING_LIMIT.
Proof.
  destruct (pk_header1 _ _ _ _ _ _ parts) as [_ Hl1]. destruct (pk_header2 _ _ _ _ _ _ parts) as [_ Hl2].
  pose proof (pk_text _ _ _ _ _ _ parts) as Ht. destruct boundary_ok as [Hb _].
  assert (Htail : blen tail <= 2) by (destruct (pk_tail _ _ _ _ _ _ parts) as [->| ->]; done).
  rewrite body_parts, !blen_app, part1_length, part2_length. unfold firstDelimiter, middleDelimiter, lastDelimiter. rewrite !blen_app.
  change (blen CRLF) with 2. change (blen [45; 45]) with 2. unfold RETRIEVAL_FRAMING_LIMIT. lia.
Qed.
End accepted.

(** ** Theorems *)

(** The metadata header and text, the two entries and the parsed metadata of a body. *)
Record content_ok (json_parse : bytes -> result json) (formData : bytes -> string -> result (list (string * FormValue)))
    (contentType : string) (body header1 text : bytes) (metadata : json) : Prop := {
  ck_header : exists header, utf8_decode header1 = Some header /\ metadata_type_ok header = true;
  ck_entries : exists entries, formData body contentType = Ok entries /\ entries_ok entries = true;
  ck_text : is_Some (utf8_decode text);
  ck_json : json_parse text = Ok metadata }.

(** C16: A response that a server frames properly, in any chunks, is read back: the metadata
    and the bytes that were asked for, whatever bytes those are as long as the delimiter
    is not among them. *)
Theorem multipart_roundtrip json_parse formData r version values boundary header1 text header2 payload tail metadata :
  r_ok r = true -> r_contentLength r = None -> r_body r = Some (map Ok values) ->
  boundaryOf (default "" (r_contentType r)) version = Ok boundary ->
  parts_ok boundary header1 text header2 payload tail ->
  concat values = multipart boundary header1 text header2 payload tail ->
  content_ok json_parse formData (default "" (r_contentType r)) (concat values) header1 text metadata ->
  BLOB_SIZE_BYTES <= blen payload <= 8 * 1024 * 1024 ->
  parseMultipartRetrieval json_parse formData r version (int (blen payload)) false = Ok (metadata, payload).
Proof.
  intros Hr Hcl Hbody Hbd Hparts Hv [(header & Hh & Hty) (entries & Hfd & Hent) Ht Hj] Hp.
  pose proof (boundaryOf_wf _ _ _ Hbd) as Hwf. assert (Hpos : 0 < blen payload) by (unfold BLOB_SIZE_BYTES in Hp; lia).
  assert (Hsafe : isSafeInteger (int (blen payload)) = true).
  { rewrite isSafeInteger_int. apply Z.leb_le. unfold MAX_SAFE_INTEGER. lia. }
  unfold parseMultipartRetrieval. rewrite Hr, Hsafe, num_int_int.
  rewrite !(proj2 (Z.ltb_ge _ _)) by lia. cbn [negb orb]. rewrite Hbd. cbn [bind].
  rewrite (readBounded_total r values) by (done || (rewrite Hv; by apply body_bound)). cbn [bind].
  rewrite Hv in *. rewrite frameOf_multipart by done. cbn [bind]. rewrite Hfd. cbn [bind]. rewrite Hent. cbn [negb fm_h1 fm_h2 fm_split fm_close].
  destruct (body_pieces boundary header1 text header2 payload tail) as (-> & -> & ->).
  rewrite Hh, Hty, bool_decide_eq_true_2, Hj by done. done.
Qed.

(** C15: Whatever is accepted is framed: the body is nothing but the two parts between the
    delimiters, at most a line break behind them; the bytes that are returned are the whole
    second part and exactly as many as were asked for; and the metadata is the first part,
    within its limit. *)
Theorem multipart_sound json_parse formData r version expected aborted metadata payload :
  (forall j, json_parse [] <> Ok j) ->
  parseMultipartRetrieval json_parse formData r version expected aborted = Ok (metadata, payload) ->
  exists values boundary header1 text header2 tail,
    r_body r = Some (map Ok values) /\ boundaryOf (default "" (r_contentType r)) version = Ok boundary
    /\ concat values = multipart boundary header1 text header2 payload tail /\ (tail = [] \/ tail = CRLF)
    /\ json_parse text = Ok metadata /\ blen text <= RETRIEVAL_METADATA_LIMIT
    /\ blen payload = num_int expected /\ aborted = false.
Proof.
  intros Hempty H. unfold parseMultipartRetrieval in H. cbv zeta in H. ok_step H. ok_step H. ok_step H. ok_step H. ok_step H. ok_step H.
  rename v into boundary. rename v0 into body. rename v1 into f. rename v2 into entries.
  destruct (utf8_decode _) as [header|] eqn:Hh in H; [|done]. ok_step H. ok_step H. ok_step H. ok_step H.
  apply Ok_inj in H. injection H as -> Hpay. bool_to_prop.
  assert (He : 0 <= num_int expected) by (unfold BLOB_SIZE_BYTES in *; lia).
  apply readBoundedResponse_Ok in Hv0 as (_ & values & Hvals & ->); [|unfold RETRIEVAL_METADATA_LIMIT, RETRIEVAL_FRAMING_LIMIT; lia].
  assert (Hlt : fm_h1 f + 4 <= fm_split f).
  { apply Z.nlt_ge. intros Hlt. apply (Hempty metadata). rewrite <- Hv3. f_equal. unfold subarray.
    by replace (Z.to_nat (fm_split f - (fm_h1 f + 4))) with 0%nat by lia. }
  destruct (frameOf_Ok _ _ _ _ He Hv1 Hlt) as (header1 & text & header2 & payload' & tail & Hb & Htail & _ & Htext & Hp & Hlen & Hlim & _).
  rewrite Hpay in Hp. subst payload'. rewrite Htext in Hv3.
  exists values, boundary, header1, text, header2, tail. by split_and!.
Qed.

(** ** A response *)

Lemma findIn_complete needle l i : findIn needle l i = None -> forall a b, l <> a ++ needle ++ b.
Proof.
  intros H a b Hl. revert i H. revert l Hl. induction a as [|c a IH]; intros l Hl i H.
  - rewrite findIn_here in H; [done|]. apply take_prefix. by exists b.
  - subst l. cbn [app findIn] in H. case_bool_decide; [done|]. by apply (IH _ eq_refl (i + 1)).
Qed.

Definition sample_boundary : bytes := codes "x7".
Definition sample_header1 : bytes := codes "Content-Disposition: form-data; name=metadata" ++ CRLF ++ codes "Content-Type: application/json".
Definition sample_header2 : bytes := codes "Content-Disposition: form-data; name=bytes; filename=b" ++ CRLF ++ codes "Content-Type: application/octet-stream".
Definition sample_text : bytes := codes "{}".
Definition sample_payload : bytes := zeros 131072.
Definition sample_body : bytes := multipart sample_boundary sample_header1 sample_text sample_header2 sample_payload CRLF.
Definition sample_chunks : list bytes := [take 100 sample_body; drop 100 sample_body].
Definition sample_response : Response :=
  {| r_status := 206; r_contentType := Some "multipart/form-data; version=3; boundary=x7"%string; r_contentLength := None;
     r_blockHeight := None; r_body := Some (map Ok sample_chunks) |}.
Definition sample_json (l : bytes) : result json := if bool_decide (l = []) then Err "SyntaxError" else Ok (JObj []).
Definition sample_form (body : bytes) (contentType : string) : result (list (string * FormValue)) :=
  Ok [("metadata"%string, FormText); ("bytes"%string, FormFile "application/octet-stream")].

Lemma sample_parts : parts_ok sample_boundary sample_header1 sample_text sample_header2 sample_payload CRLF.
Proof.
  constructor; try (split; [vm_compute; reflexivity | vm_compute; discriminate]); try (by right);
    intros a b; apply (findIn_complete _ _ 0); vm_compute; reflexivity.
Qed.

Lemma sample_concat : concat sample_chunks = sample_body.
Proof. unfold sample_chunks. cbn [concat]. rewrite app_nil_r. apply take_drop. Qed.

Definition is_ok {A} (r : result A) : bool := if r is Ok _ then true else false.

Lemma multipart_roundtrip_witness :
  parseMultipartRetrieval sample_json sample_form sample_response 3 (int 131072) false = Ok (JObj [], sample_payload).
Proof.
  apply (multipart_roundtrip sample_json sample_form sample_response 3 sample_chunks sample_boundary sample_header1 sample_text
    sample_header2 sample_payload CRLF (JObj [])).
  - reflexivity.
  - reflexivity.
  - reflexivity.
  - vm_compute; reflexivity.
  - exact sample_parts.
  - exact sample_concat.
  - constructor.
    + exists sample_header1. split; vm_compute; reflexivity.
    + eexists. split; [reflexivity|]. reflexivity.
    + eexists. vm_compute. reflexivity.
    + reflexivity.
  - split; vm_compute; discriminate.
Defined.

Lemma multipart_sound_witness : exists metadata payload values boundary header1 text header2 tail,
  r_body sample_response = Some (map Ok values) /\ boundaryOf (default "" (r_contentType sample_response)) 3 = Ok boundary
  /\ concat values = multipart boundary header1 text header2 payload tail /\ (tail = [] \/ tail = CRLF)
  /\ sample_json text = Ok metadata /\ blen text <= RETRIEVAL_METADATA_LIMIT
  /\ blen payload = num_int (int 131072) /\ false = false.
Proof.
  assert (Hok : is_ok (parseMultipartRetrieval sample_json sample_form sample_response 3 (int 131072) false) = true)
    by (vm_compute; reflexivity).
  destruct (parseMultipartRetrieval sample_json sample_form sample_response 3 (int 131072) false) as [[metadata payload]|] eqn:H;
    [|discriminate Hok].
  exists metadata, payload.
  apply (multipart_sound sample_json sample_form sample_response 3 (int 131072) false metadata payload); [|exact H].
  intros j. discriminate.
Defined.
