(* ===== verification/Challenge.v ===== *)
(** * Challenge contexts and their samples, in the core library

    Models src/polystore_core/src/retrieval_challenge.rs: the checked [Reader] of byte
    strings, the parser of a challenge context, the draws of sample positions without
    replacement, and the challenges of a session or an audit.

    SHA-256 and the scalar field of the curve are packages: [sha256] and the class
    [ScalarField] are arguments.  Unsigned integers are numbers within their width; the
    checks before each operation keep it from overflowing. *)

From S2P Require Import Prelude JsNumber JsBytes JsString JsText Utf8 Canonical.
From stdpp Require Import gmap.
Local Open Scope Z_scope.

(** [KzgError::InvalidDataLength] *)
Definition invalid : string := "InvalidDataLength".

(** ** The reader *)

Definition reader (A : Type) : Type := bytes -> result (A * bytes).
Definition rret {A} (a : A) : reader A := fun l => Ok (a, l).
Definition rfail {A} : reader A := fun _ => Err invalid.
Definition rbind {A B} (m : reader A) (k : A -> reader B) : reader B :=
  fun l => let! r := m l in k r.1 r.2.
Notation "'read!' x ':=' m 'in' k" := (rbind m (fun x => k))
  (at level 10, x pattern, m at level 100, k at level 200).
Notation "'reject_if' b 'else' k" := (if b%bool then rfail else k) (at level 10, b at level 100, k at level 200).

Definition take_ (count : Z) : reader bytes :=
  fun l => if blen l <? count then Err invalid else Ok (take (Z.to_nat count) l, drop (Z.to_nat count) l).
(** [from_be_bytes] *)
Definition from_be (l : bytes) : Z := foldl (fun n b => n * 256 + b) 0 l.
Definition read_uint (size : Z) : reader Z := read! l := take_ size in rret (from_be l).
Definition r_u8 : reader Z := read_uint 1.
Definition r_u16 : reader Z := read_uint 2.
Definition r_u32 : reader Z := read_uint 4.
Definition r_u64 : reader Z := read_uint 8.
Definition r_lp : reader bytes := read! n := r_u32 in take_ n.
(** [!r.bytes.is_empty()] is an error. *)
Definition r_end : reader unit := fun l => if bool_decide (l = []) then Ok (tt, l) else Err invalid.

(** [append_lp] *)
Definition append_lp (value : bytes) : bytes := be (blen value) 4 ++ value.

Definition ascii (s : string) : bytes := codes s.

(** A chain identifier: at most 50 bytes of UTF-8 without a zero. *)
Definition valid_chain (v : bytes) : bool :=
  negb (bool_decide (v = [])) && (blen v <=? 50) && negb (bool_decide (0 ∈ v))
  && bool_decide (is_Some (utf8_decode v)).

(** ** Contexts *)

Record Context := {
  cx_hash : bytes; cx_kind : Z; cx_rows : Z; cx_population : Z; cx_metadata : Z; cx_slot : Z;
  cx_start : Z; cx_count : Z }.

Definition MAX_SAMPLES : Z := 4096.
Definition MAX_HEIGHT : Z := 2 ^ 63 - 1.
Definition ATTEMPTS : nat := 256.

(** The rows of a slot, for the layouts that are known. *)
Definition layout_rows (layout k m slot : Z) : option Z :=
  if (layout =? 1) && (k =? 1) && (m =? 0) && (slot =? 0) then Some 64
  else if (layout =? 2) && (0 <? k) && (k <=? 64) && (64 mod k =? 0) && (0 <? m) && (k + m <=? 256) && (slot <? k + m)
  then Some (64 / k)
  else None.

(** A user's session: the first position and the number of its blobs. *)
Definition session_span (rows population metadata users slot start_mdu start_leaf blobs epoch length samples
    snapshot anchor first deadline deal_end : Z) : result (Z * Z) :=
  throw_if negb (epoch =? 0) || negb (length =? 0) || negb (samples =? 0) || (snapshot =? 0)
           || (MAX_HEIGHT - 2 <? snapshot) || (deal_end =? 0) || (MAX_HEIGHT <? deal_end) || (deal_end <=? snapshot)
           || (deal_end <? deadline) || (deadline <? snapshot + 2) || negb (anchor =? snapshot + 1)
           || negb (first =? snapshot + 2) || (start_mdu <? metadata) || (users <=? start_mdu - metadata)
           || (blobs =? 0) || (MAX_SAMPLES <? blobs) || (start_leaf <? slot * rows) || (rows <=? start_leaf - slot * rows)
    with invalid else
  let row := start_leaf - slot * rows in
  let start := (start_mdu - metadata) * rows + row in
  throw_if (population - start <? blobs) || (rows - row <? blobs) with invalid else
  Ok (start, blobs).

(** An audit of an epoch. *)
Definition audit_span (id assigned payee : bytes) (population start_mdu start_leaf blobs epoch length samples
    snapshot anchor first deadline deal_end : Z) : result (Z * Z) :=
  throw_if negb (bool_decide (id = replicate 32 0)) || negb (bool_decide (assigned = payee))
           || negb (start_mdu =? 0) || negb (start_leaf =? 0) || negb (blobs =? 0) || (epoch =? 0) || (length <? 2)
           || (MAX_HEIGHT <? length) || (MAX_HEIGHT / length <? epoch) || (deal_end =? 0) || (MAX_HEIGHT <? deal_end)
           || (samples =? 0) || (population <? samples) || (MAX_SAMPLES <? samples) with invalid else
  let end_ := epoch * length in
  let begin := end_ - length + 1 in
  let expected_deadline := Z.min end_ (deal_end - 1) in
  throw_if (expected_deadline <? begin + 1) || negb (snapshot =? begin - 1) || negb (anchor =? begin)
           || negb (first =? begin + 1) || negb (deadline =? expected_deadline) with invalid else
  Ok (0, samples).

Section core.
Context (sha256 : bytes -> bytes).

Definition context_fields : reader Context :=
  read! domain := r_lp in
  reject_if negb (bool_decide (domain = ascii "polystore/challenge-context/v2")) else
  read! version := r_u32 in
  reject_if negb (version =? 2) else
  read! chain := r_lp in
  reject_if negb (valid_chain chain) else
  read! _ := take_ 32 in
  read! kind := r_u8 in
  read! id := take_ 32 in
  read! _ := r_u64 in
  read! _ := r_u64 in
  read! _ := take_ 32 in
  read! assigned := take_ 20 in
  read! payee := take_ 20 in
  read! layout := r_u8 in
  read! k := r_u32 in
  read! m := r_u32 in
  read! slot := r_u32 in
  match layout_rows layout k m slot with
  | None => rfail
  | Some rows =>
      read! metadata := r_u64 in
      read! users := r_u64 in
      read! start_mdu := r_u64 in
      read! start_leaf := r_u32 in
      read! blobs := r_u64 in
      read! epoch := r_u64 in
      read! length := r_u64 in
      read! samples := r_u64 in
      read! snapshot := r_u64 in
      read! anchor := r_u64 in
      read! first := r_u64 in
      read! deadline := r_u64 in
      read! deal_end := r_u64 in
      read! _ := r_end in
      reject_if (metadata =? 0) || (65537 <? metadata) || (65537 - metadata <? users) else
      let population := users * rows in
      match
        (if kind =? 1 then
           session_span rows population metadata users slot start_mdu start_leaf blobs epoch length samples
             snapshot anchor first deadline deal_end
         else if (kind =? 2) || (kind =? 3) then
           audit_span id assigned payee population start_mdu start_leaf blobs epoch length samples
             snapshot anchor first deadline deal_end
         else Err invalid)
      with
      | Err _ => rfail
      | Ok (start, count) =>
          rret {| cx_hash := []; cx_kind := kind; cx_rows := rows; cx_population := population;
                  cx_metadata := metadata; cx_slot := slot; cx_start := start; cx_count := count |}
      end
  end.

(** [Context::parse] *)
Definition context_parse (bs : bytes) : result Context :=
  throw_if 512 <? blen bs with invalid else
  let! r := context_fields bs in
  let c := r.1 in
  Ok {| cx_hash := sha256 bs; cx_kind := cx_kind c; cx_rows := cx_rows c; cx_population := cx_population c;
        cx_metadata := cx_metadata c; cx_slot := cx_slot c; cx_start := cx_start c; cx_count := cx_count c |}.

(** ** Positions *)

(** [for retry in 0..ATTEMPTS]: the first digest below the largest multiple of [n]. *)
Fixpoint draw_from (digest : Z -> bytes) (n : Z) (retry : Z) (attempts : nat) : result Z :=
  match attempts with
  | O => Err "C2 position rejection exhausted"
  | S attempts =>
      let x := from_be (digest retry) in
      if x <? 2 ^ 256 - 2 ^ 256 mod n then Ok (x mod n) else draw_from digest n (retry + 1) attempts
  end.
Definition draw (n : Z) (digest : Z -> bytes) : result Z :=
  if n =? 0 then Err invalid
  else if n =? 1 then Ok 0
  else draw_from digest n 0 ATTEMPTS.

(** [for i in 0..count], from [i] on with [todo] positions to go. *)
Fixpoint sampleLoop (todo : nat) (transcript : bytes) (population i : Z) (swaps : gmap Z Z) (positions : list Z)
    : result (list Z) :=
  match todo with
  | O => Ok positions
  | S todo =>
      let n := population - i in
      let! d := draw n (fun retry => sha256 (transcript ++ be i 8 ++ be retry 4)) in
      let p := default d (swaps !! d) in
      let tail := default (n - 1) (swaps !! (n - 1)) in
      sampleLoop todo transcript population (i + 1) (delete (n - 1) (<[d := tail]> swaps)) (positions ++ [p])
  end.

Definition sample_with_domain (domain hash seed : bytes) (population count max_count : Z) : result (list Z) :=
  throw_if (population <? count) || (max_count <? count) with invalid else
  sampleLoop (Z.to_nat count) (append_lp domain ++ hash ++ seed) population 0 ∅ [].

Definition sample (hash seed : bytes) (population count : Z) : result (list Z) :=
  sample_with_domain (ascii "polystore/audit-position/v2") hash seed population count MAX_SAMPLES.

(** ** Points and challenges *)

Definition hash_to_point_from (valid_point : bytes -> bool) :=
  fix go (digest : Z -> bytes) (retry : Z) (attempts : nat) : result bytes :=
  match attempts with
  | O => Err "C2 point rejection exhausted"%string
  | S attempts =>
      let candidate := digest retry in
      if valid_point candidate then Ok candidate else go digest (retry + 1) attempts
  end.
End core.

(** The scalar field: [from_bytes] reads 32 bytes, least significant first. *)
Class ScalarField := {
  Scalar : Type; scalar_eq_dec :: EqDecision Scalar; scalar_zero : Scalar; scalar_one : Scalar;
  scalar_from_bytes : bytes -> option Scalar; scalar_square : Scalar -> Scalar }.

Section points.
Context `{field : ScalarField} (sha256 : bytes -> bytes).

Definition nonzero_scalar (bs : bytes) : option Scalar :=
  match scalar_from_bytes (reverse bs) with
  | Some s => if bool_decide (s = scalar_zero) then None else Some s
  | None => None
  end.

(** Not zero and not in the evaluation domain of 4096 points. *)
Definition valid_point (bs : bytes) : bool :=
  match nonzero_scalar bs with
  | Some value => negb (bool_decide (Nat.iter 12 scalar_square value = scalar_one))
  | None => false
  end.

Definition hash_to_point (digest : Z -> bytes) : result bytes := hash_to_point_from valid_point digest 0 ATTEMPTS.

Definition derive_z_with_domain (domain hash seed : bytes) (ordinal : Z) (t : option Z) (mdu leaf : Z) : result bytes :=
  let transcript := append_lp domain ++ hash ++ seed ++ be ordinal 8
                    ++ match t with Some t => be t 8 | None => [] end ++ be mdu 8 ++ be leaf 4 in
  hash_to_point (fun retry => sha256 (transcript ++ be retry 4)).

Definition derive_z (hash seed : bytes) (ordinal mdu leaf : Z) : result bytes :=
  derive_z_with_domain (ascii "polystore/blob-challenge/v2") hash seed ordinal None mdu leaf.

Record Challenge := {
  ch_ordinal : Z; ch_population_index : Z; ch_mdu_index : Z; ch_leaf_index : Z; ch_z : bytes }.

Fixpoint challengeAt (c : Context) (seed : bytes) (i : Z) (positions : list Z) : result (list Challenge) :=
  match positions with
  | [] => Ok []
  | p :: positions =>
      let mdu := cx_metadata c + p / cx_rows c in
      let leaf := cx_slot c * cx_rows c + p mod cx_rows c in
      let! z := derive_z (cx_hash c) seed i mdu leaf in
      let! rest := challengeAt c seed (i + 1) positions in
      Ok ({| ch_ordinal := i; ch_population_index := p; ch_mdu_index := mdu; ch_leaf_index := leaf; ch_z := z |} :: rest)
  end.

Definition challenges (c : Context) (seed : bytes) : result (list Challenge) :=
  let! positions := if cx_kind c =? 1 then Ok (seqZ (cx_start c) (cx_count c))
                    else sample sha256 (cx_hash c) seed (cx_population c) (cx_count c) in
  challengeAt c seed 0 positions.

Definition challenges_flat (c : Context) (seed : bytes) : result bytes :=
  let! l := challenges c seed in
  Ok (concat (map (fun x => be (ch_ordinal x) 8 ++ be (ch_population_index x) 8 ++ be (ch_mdu_index x) 8
                            ++ be (ch_leaf_index x) 4 ++ ch_z x) l)).
End points.

(** ** Lemmas *)

(** *** Draws *)

Lemma draw_from_bounds digest n retry attempts d : 0 < n -> draw_from digest n retry attempts = Ok d -> 0 <= d < n.
Proof.
  intros Hn. revert retry. induction attempts as [|a IH]; intros retry; cbn [draw_from]; [done|].
  destruct (_ <? _); [|apply IH]. intros [= <-]. apply Z.mod_pos_bound. lia.
Qed.
Lemma draw_bounds n digest d : 0 <= n -> draw n digest = Ok d -> 0 <= d < n.
Proof.
  unfold draw. intros Hn. destruct (Z.eqb_spec n 0); [done|]. destruct (Z.eqb_spec n 1); [intros [= <-]; lia|].
  apply draw_from_bounds. lia.
Qed.

(** The array that the swaps stand for. *)
Definition at_ (swaps : gmap Z Z) (j : Z) : Z := default j (swaps !! j).

(** Taking one position out of the array leaves the others. *)
Lemma swap_perm (swaps : gmap Z Z) n d : 0 <= d < n ->
  at_ swaps d :: map (at_ (delete (n - 1) (<[d := at_ swaps (n - 1)]> swaps))) (seqZ 0 (n - 1))
  ≡ₚ map (at_ swaps) (seqZ 0 n).
Proof.
  intros Hd. set (swaps' := delete _ _).
  assert (Hother : forall j, 0 <= j < n - 1 -> j <> d -> at_ swaps' j = at_ swaps j).
  { intros j Hj Hne. unfold at_, swaps'. rewrite lookup_delete_ne, lookup_insert_ne by lia. done. }
  assert (Hn : seqZ 0 n = seqZ 0 (n - 1) ++ [n - 1]).
  { replace n with ((n - 1) + 1) at 1 by lia. rewrite seqZ_app by lia. done. }
  rewrite Hn, map_app. destruct (decide (d = n - 1)) as [->|Hne].
  - assert (Hm : map (at_ swaps') (seqZ 0 (n - 1)) = map (at_ swaps) (seqZ 0 (n - 1))).
    { apply map_ext_in. intros j Hj%list_elem_of_In%elem_of_seqZ. apply Hother; lia. }
    rewrite Hm. cbn [map]. apply Permutation_cons_append.
  - assert (Hs : seqZ 0 (n - 1) = seqZ 0 d ++ d :: seqZ (d + 1) (n - 2 - d)).
    { replace (n - 1) with (d + (1 + (n - 2 - d))) by lia. rewrite seqZ_app, Z.add_0_l by lia.
      f_equal. rewrite (seqZ_app _ 1) by lia. rewrite (seqZ_cons d 1) by lia. done. }
    assert (Hd' : at_ swaps' d = at_ swaps (n - 1)).
    { unfold at_ at 1, swaps'. rewrite lookup_delete_ne, lookup_insert_eq by lia. done. }
    rewrite Hs, !map_app. cbn [map]. rewrite Hd'.
    assert (H1 : map (at_ swaps') (seqZ 0 d) = map (at_ swaps) (seqZ 0 d)).
    { apply map_ext_in. intros j Hj%list_elem_of_In%elem_of_seqZ. apply Hother; lia. }
    assert (H2 : map (at_ swaps') (seqZ (d + 1) (n - 2 - d)) = map (at_ swaps) (seqZ (d + 1) (n - 2 - d))).
    { apply map_ext_in. intros j Hj%list_elem_of_In%elem_of_seqZ. apply Hother; lia. }
    rewrite H1, H2. solve_Permutation.
Qed.

Lemma sampleLoop_perm sha256 todo transcript population i swaps positions r :
  0 <= i -> i + Z.of_nat todo <= population ->
  sampleLoop sha256 todo transcript population i swaps positions = Ok r ->
  exists drawn rest, r = positions ++ drawn /\ length drawn = todo
    /\ drawn ++ rest ≡ₚ map (at_ swaps) (seqZ 0 (population - i)).
Proof.
  revert i swaps positions. induction todo as [|todo IH]; intros i swaps positions Hi Hle H; cbn [sampleLoop] in H.
  - apply Ok_inj in H as <-. exists [], (map (at_ swaps) (seqZ 0 (population - i))). by rewrite app_nil_r.
  - cbv zeta in H. ok_step H. rename v into d. apply draw_bounds in Hv; [|lia].
    apply IH in H as (drawn & rest & -> & Hl & Hp); [|lia|lia].
    exists (at_ swaps d :: drawn), rest. rewrite <- app_assoc. split_and!; [done | cbn; lia |].
    rewrite <- (swap_perm swaps (population - i) d Hv). cbn [app]. constructor.
    replace (population - (i + 1)) with (population - i - 1) in Hp by lia. exact Hp.
Qed.

(** Every draw takes another member of the population. *)
Lemma sample_distinct sha256 domain hash seed population count max_count positions : 0 <= count ->
  sample_with_domain sha256 domain hash seed population count max_count = Ok positions ->
  Z.of_nat (length positions) = count /\ NoDup positions
  /\ Forall (fun p => 0 <= p < population) positions
  /\ (count = population -> positions ≡ₚ seqZ 0 population).
Proof.
  unfold sample_with_domain. intros Hc H. ok_step H. bool_to_prop.
  apply sampleLoop_perm in H as (drawn & rest & -> & Hl & Hp); [|lia|lia]. rewrite Z.sub_0_r in Hp.
  assert (Hid : map (at_ ∅) (seqZ 0 population) = seqZ 0 population).
  { rewrite <- (map_id (seqZ 0 population)) at 2. apply map_ext. intros j. unfold at_. by rewrite lookup_empty. }
  rewrite Hid in Hp. cbn [app]. assert (Hnd : NoDup (drawn ++ rest)) by (rewrite Hp; apply NoDup_seqZ).
  split_and!; [lia | by apply NoDup_app in Hnd as [? _] | |].
  - apply Forall_forall. intros p Hin. assert (Hin' : p ∈ seqZ 0 population) by (rewrite <- Hp; apply elem_of_app; by left).
    apply elem_of_seqZ in Hin'. lia.
  - intros ->. assert (Hr : rest = []); [|by rewrite Hr, app_nil_r in Hp].
    apply Permutation_length in Hp. rewrite length_app, length_seqZ in Hp. apply length_zero_iff_nil. lia.
Qed.

(** *** Reading what was written *)

Lemma rbind_run {A B} (m : reader A) (k : A -> reader B) l a l' : m l = Ok (a, l') -> rbind m k l = k a l'.
Proof. unfold rbind. by intros ->. Qed.

Lemma run_take a l n : blen a = n -> take_ n (a ++ l) = Ok (a, l).
Proof.
  intros <-. unfold take_. rewrite blen_app. pose proof (blen_nonneg l).
  rewrite (proj2 (Z.ltb_ge _ _)) by lia. unfold blen. by rewrite Nat2Z.id, take_app_length, drop_app_length.
Qed.

Lemma from_be_snoc l b : from_be (l ++ [b]) = from_be l * 256 + b.
Proof. unfold from_be. by rewrite foldl_app. Qed.

Lemma from_be_be v n : from_be (be v n) = v mod 256 ^ Z.of_nat n.
Proof.
  revert v. induction n as [|n IH]; intros v; [by rewrite Z.mod_1_r|].
  cbn [be]. rewrite from_be_snoc, IH, Nat2Z.inj_succ, Z.pow_succ_r by lia.
  assert (0 < 256 ^ Z.of_nat n) by (apply Z.pow_pos_nonneg; lia). rewrite Z.rem_mul_r by lia. lia.
Qed.

Lemma run_uint v n l : 0 <= v < 256 ^ Z.of_nat n -> read_uint (Z.of_nat n) (be v n ++ l) = Ok (v, l).
Proof.
  intros Hv. unfold read_uint. erewrite rbind_run by (apply run_take; unfold blen; by rewrite length_be).
  unfold rret. by rewrite from_be_be, Z.mod_small.
Qed.
Lemma run_u8 v l : 0 <= v < 256 -> r_u8 (be v 1 ++ l) = Ok (v, l).
Proof. exact (run_uint v 1 l). Qed.
Lemma run_u16 v l : 0 <= v < 2 ^ 16 -> r_u16 (be v 2 ++ l) = Ok (v, l).
Proof. exact (run_uint v 2 l). Qed.
Lemma run_u32 v l : 0 <= v < 2 ^ 32 -> r_u32 (be v 4 ++ l) = Ok (v, l).
Proof. exact (run_uint v 4 l). Qed.
Lemma run_u64 v l : 0 <= v < 2 ^ 64 -> r_u64 (be v 8 ++ l) = Ok (v, l).
Proof. exact (run_uint v 8 l). Qed.

Lemma run_lp v l : blen v < 2 ^ 32 -> r_lp (append_lp v ++ l) = Ok (v, l).
Proof.
  intros Hv. unfold r_lp, append_lp. rewrite <- app_assoc. pose proof (blen_nonneg v).
  erewrite rbind_run by (apply run_u32; lia). by apply run_take.
Qed.

(** Read the parts in front of the bytes, as far as they are known. *)
Ltac run_reader :=
  repeat (cbv beta; cbn [negb];
    lazymatch goal with
    | |- context [rbind r_u8 _ (be _ 1 ++ _)] => erewrite rbind_run by (apply run_u8; lia)
    | |- context [rbind r_u16 _ (be _ 2 ++ _)] => erewrite rbind_run by (apply run_u16; lia)
    | |- context [rbind r_u32 _ (be _ 4 ++ _)] => erewrite rbind_run by (apply run_u32; lia)
    | |- context [rbind r_u64 _ (be _ 8 ++ _)] => erewrite rbind_run by (apply run_u64; lia)
    | |- context [rbind r_lp _ (append_lp _ ++ _)] => erewrite rbind_run by (apply run_lp; lia)
    | |- context [rbind (take_ _) _ (_ ++ _)] => erewrite rbind_run by (apply run_take; (done || lia))
    end).
