(* ===== verification/FrField.v ===== *)
(** * The scalar field of BLS12-381

    Models the constants and roots of unity of src/polystore_core/src/utils.rs
    ([FR_MODULUS_HEX], [GENERATOR], [get_modulus], [get_root_of_unity_4096],
    [fr_to_bytes_be], [z_for_cell]): numbers modulo [FR_MODULUS], and the domain of 4096
    points on which a blob lists the values of a polynomial.

    The modulus is shown to be a prime with a Pocklington certificate, and
    the generator of the domain to have order 4096. *)

From S2P Require Import Prelude JsBytes Canonical.
From Stdlib Require Import Zpow_facts Zdivisibility Zmod.
Local Open Scope Z_scope.

(** [BigUint::from_str_radix(FR_MODULUS_HEX, 16)] *)
Definition FR_MODULUS : Z := 0x73eda753299d7d483339d80809a1d80553bda402fffe5bfeffffffff00000001.
Definition GENERATOR : Z := 7.

(** [base.modpow(exponent, modulus)] *)
Definition modpow (base exponent modulus : Z) : Z := Zpow_mod base exponent modulus.

Definition get_root_of_unity_4096 : Z := modpow GENERATOR ((FR_MODULUS - 1) / 4096) FR_MODULUS.

(** 32 bytes, most significant first, of a number below [2 ^ 256]. *)
Definition fr_to_bytes_be (fr : Z) : bytes := be fr 32.

Definition z_for_cell (idx : Z) : bytes := fr_to_bytes_be (modpow get_root_of_unity_4096 idx FR_MODULUS).

(** ** Lemmas *)

Lemma modpow_spec a n m : 0 < m -> 0 <= n -> modpow a n m = a ^ n mod m.
Proof. intros. apply Zpow_mod_correct; lia. Qed.

(** *** Orders *)

Lemma order_least a p n : 0 < n -> a ^ n mod p = 1 ->
  exists e, 0 < e /\ a ^ e mod p = 1 /\ forall j, 0 < j < e -> a ^ j mod p <> 1.
Proof.
  induction n as [n IH] using (well_founded_induction (Z.lt_wf 0)). intros Hn H.
  destruct (decide (Exists (fun j => a ^ j mod p = 1) (seqZ 1 (n - 1)))) as [He|He].
  - apply Exists_exists in He as (j & Hj%elem_of_seqZ & Hp). apply (IH j); (done || lia).
  - exists n. split_and!; [done..|]. intros j Hj Hp. apply He, Exists_exists. exists j.
    split; [apply elem_of_seqZ; lia | done].
Qed.

(** A number that some power takes to 1 has an order, and it divides all such exponents. *)
Lemma order_exists a p n : 1 < p -> 0 < n -> a ^ n mod p = 1 ->
  exists e, 0 < e /\ forall k, 0 <= k -> (e | k) <-> a ^ k mod p = 1.
Proof.
  intros Hp Hn H. destruct (order_least a p n Hn H) as (e & He & He1 & Hmin).
  assert (Hmul : forall q, 0 <= q -> a ^ (e * q) mod p = 1).
  { intros q Hq. rewrite Z.pow_mul_r, <- Z.mod_pow_l, He1, Z.pow_1_l by lia. apply Z.mod_1_l. lia. }
  exists e. split; [done|]. intros k Hk. split.
  - intros [q ->]. rewrite Z.mul_comm. apply Hmul. nia.
  - intros Hk1. rewrite (Z.div_mod k e), Z.pow_add_r in Hk1 by (lia || (apply Z.mul_nonneg_nonneg; [lia | apply Z.div_pos; lia]) || (apply Z.mod_pos_bound; lia)).
    rewrite <- Z.mul_mod_idemp_l, Hmul, Z.mul_1_l in Hk1 by (try apply Z.div_pos; lia).
    apply Z.mod_divide; [lia|]. pose proof (Z.mod_pos_bound k e He).
    destruct (Z.eq_dec (k mod e) 0); [done|]. by destruct (Hmin (k mod e)); [lia|].
Qed.

(** The order keeps a prime power of the exponent when the exponent without that prime
    does not do. *)
Lemma order_keeps_power a p n q k e : Z.prime q -> 0 <= k -> 0 < n -> (q ^ k | n) -> (q | n) ->
  0 < e -> (forall j, 0 <= j -> (e | j) <-> a ^ j mod p = 1) ->
  a ^ n mod p = 1 -> a ^ (n / q) mod p <> 1 -> (q ^ k | e).
Proof.
  intros Hq Hk Hn Hqk Hqn He Hord H1 H2. pose proof (Z.prime_ge_2 q Hq).
  apply Hord in H1 as [t Ht]; [|lia].
  assert (Hqt : ~ (q | t)).
  { intros [u ->]. apply H2, Hord; [apply Z.div_pos; lia|]. exists u. rewrite Ht.
    replace (u * q * e) with (u * e * q) by ring. apply Z.div_mul. lia. }
  rewrite Ht in Hqk. apply Z.gauss in Hqk; [done|].
  apply Z.coprime_pow_l; [done|]. by apply Z.coprime_prime_l.
Qed.

(** *** A certificate of primality *)

Lemma prime_divisor n : 1 < n -> exists p, Z.prime p /\ (p | n) /\ p <= n.
Proof.
  induction n as [n IH] using (well_founded_induction (Z.lt_wf 0)). intros Hn.
  destruct (decide (Exists (fun d => n mod d = 0) (seqZ 2 (n - 2)))) as [He|He].
  - apply Exists_exists in He as (d & Hd%elem_of_seqZ & Hm). destruct (IH d) as (p & Hp & Hpd & Hle); [lia..|].
    exists p. split_and!; [done | | lia]. apply Z.mod_divide in Hm; [|lia]. by etransitivity.
  - exists n. split_and!; [|done|done]. split; [done|]. intros d Hd Hdn. apply He, Exists_exists. exists d.
    split; [apply elem_of_seqZ; lia|]. apply Z.mod_divide; [lia | done].
Qed.

Lemma prime_if_large n : 1 < n -> (forall p, Z.prime p -> (p | n) -> n < p * p) -> Z.prime n.
Proof.
  intros Hn H. split; [done|]. intros d Hd [m Hm].
  assert (Hsmall : exists x, 1 < x /\ x * x <= n /\ (x | n)).
  { destruct (Z.le_gt_cases d m).
    - exists d. split_and!; [lia | nia | by exists m].
    - exists m. split_and!; [nia | nia | exists d; lia]. }
  destruct Hsmall as (x & Hx & Hxx & Hxn). destruct (prime_divisor x Hx) as (p & Hp & Hpx & Hle).
  pose proof (Z.prime_ge_2 p Hp). specialize (H p Hp (Z.divide_trans _ _ _ Hpx Hxn)). nia.
Qed.

(** Trial division. *)
Fixpoint no_divisor (fuel : nat) (d n : Z) : bool :=
  match fuel with
  | O => true
  | S fuel => negb (n mod d =? 0) && no_divisor fuel (d + 1) n
  end.

Lemma no_divisor_spec fuel d n j : no_divisor fuel d n = true -> d <= j < d + Z.of_nat fuel -> n mod j <> 0.
Proof.
  revert d. induction fuel as [|fuel IH]; intros d H Hj; [lia|]. cbn in H. bool_to_prop.
  destruct (Z.eq_dec j d) as [->|]; [done | apply (IH (d + 1)); [done | lia]].
Qed.

Lemma trial_division n : 1 < n -> no_divisor (Z.to_nat (Z.sqrt n - 1)) 2 n = true -> Z.prime n.
Proof.
  intros Hn H. apply prime_if_large; [done|]. intros p Hp Hd. pose proof (Z.prime_ge_2 p Hp).
  destruct (Z.lt_ge_cases n (p * p)) as [|Hge]; [done|]. apply Z.sqrt_le_square in Hge; [|lia..].
  exfalso. eapply no_divisor_spec; [exact H | | apply Z.mod_divide; [|exact Hd]]; lia.
Qed.

(** For each of the prime powers [q ^ k] of [n - 1]. *)
Definition certified (n a : Z) (qk : Z * Z) : Prop :=
  Z.prime qk.1 /\ 0 < qk.2 /\ (qk.1 ^ qk.2 | n - 1) /\ Z.gcd (modpow a ((n - 1) / qk.1) n - 1) n = 1.

Lemma certified_divides n a p qk : 1 < n -> modpow a (n - 1) n = 1 -> certified n a qk -> Z.prime p -> (p | n) ->
  (qk.1 ^ qk.2 | p - 1).
Proof.
  destruct qk as [q k]. intros Hn H1 (Hq & Hk & Hdiv & Hgcd) Hp Hpn. cbn [fst snd] in *.
  pose proof (Z.prime_ge_2 p Hp). pose proof (Z.prime_ge_2 q Hq).
  assert (Hqn : (q | n - 1)).
  { etransitivity; [|exact Hdiv]. exists (q ^ (k - 1)). replace k with (Z.succ (k - 1)) at 1 by lia.
    rewrite Z.pow_succ_r by lia. ring. }
  assert (Hdown : forall x, x mod p = (x mod n) mod p) by (intros x; by rewrite Z.mod_mod_divide).
  rewrite modpow_spec in H1, Hgcd by (try apply Z.div_pos; lia).
  assert (H1p : a ^ (n - 1) mod p = 1) by (rewrite Hdown, H1; apply Z.mod_1_l; lia).
  assert (H2 : a ^ ((n - 1) / q) mod p <> 1).
  { intros Hc. assert (Hd : (p | a ^ ((n - 1) / q) mod n - 1)).
    { apply Z.mod_divide; [lia|]. rewrite Zminus_mod, <- Hdown, Hc. by rewrite (Z.mod_1_l p) by lia. }
    pose proof (Z.gcd_greatest _ _ _ Hd Hpn) as Hone. rewrite Hgcd in Hone. apply Z.divide_1_r in Hone. lia. }
  destruct (order_exists a p (n - 1)) as (e & He & Hord); [lia..|done|].
  transitivity e; [apply (order_keeps_power a p (n - 1) q k e); (done || lia)|].
  apply Hord; [lia|]. apply Z.fermat_nz; [done|].
  intros Ha. rewrite <- Z.mod_pow_l, Ha, Z.pow_0_l in H1p by lia. by rewrite Z.mod_0_l in H1p by lia.
Qed.

Lemma coprime_product a b x : Z.gcd a b = 1 -> (a | x) -> (b | x) -> (a * b | x).
Proof.
  intros Hc [m ->] Hb. rewrite Z.mul_comm in Hb. apply Z.gauss in Hb as [k ->]; [|by rewrite Z.gcd_comm].
  exists k. ring.
Qed.

(** A number all of whose prime divisors are 1 modulo a factor [f] that is larger than its
    cube root has at most two, and they would be the roots of a quadratic. *)
Lemma prime_if_cube n f : 1 < f -> 1 < n < f ^ 3 -> (f | n - 1) ->
  (forall p, Z.prime p -> (p | n) -> (f | p - 1)) ->
  let c1 := ((n - 1) / f) mod f in let c2 := ((n - 1) / f) / f in
  c1 <> 0 -> (forall s, s * s <> c1 * c1 - 4 * c2) -> Z.prime n.
Proof.
  intros Hf [Hn Hcube] [r Hr] Hall c1 c2 Hc1 Hsq. destruct (prime_divisor n Hn) as (p & Hp & [m Hm] & Hle).
  pose proof (Z.prime_ge_2 p Hp). destruct (Z.eq_dec m 1) as [->|Hm1]; [by rewrite Hm, Z.mul_1_l|]. exfalso.
  destruct (Hall p Hp) as [a Ha]; [by exists m|].
  assert (Hmf : exists b, m - 1 = b * f) by (exists (r - a * m); nia). destruct Hmf as [b Hb].
  assert (Ha0 : 0 < a) by nia. assert (Hb0 : 0 < b) by nia.
  assert (Hr' : r = a * b * f + (a + b)).
  { assert (Hx : r * f = (a * b * f + (a + b)) * f) by nia. apply Z.mul_cancel_r in Hx; lia. }
  assert (Hab : a * b < f) by nia. assert (Hsum : a + b <= f) by nia.
  assert (Hdiv : (n - 1) / f = r) by (rewrite Hr; apply Z.div_mul; lia). unfold c1, c2 in *. rewrite Hdiv, Hr' in *.
  destruct (Z.eq_dec (a + b) f) as [He|He].
  - apply Hc1. rewrite He. replace (a * b * f + f) with ((a * b + 1) * f) by ring. apply Z.mod_mul. lia.
  - rewrite div_base, mod_base in Hsq by lia. apply (Hsq (a - b)). ring.
Qed.

Lemma modpow_mul a x y n : 0 < n -> 0 <= x -> 0 <= y -> modpow (modpow a x n) y n = modpow a (x * y) n.
Proof. intros. rewrite !modpow_spec by nia. by rewrite Z.mod_pow_l, Z.pow_mul_r. Qed.

(** The certificate: a factor of [FR_MODULUS - 1], and a power of the generator. *)
Definition fr_factor : Z := 254760293.
Definition fr_power : Z := 0x528429a99038cdf678c3785e999cdd9dcd0f0135907f3896fd8b3c36e93f6ca.

Lemma fr_power_spec : modpow GENERATOR ((FR_MODULUS - 1) / (2 * fr_factor)) FR_MODULUS = fr_power.
Proof. vm_compute. reflexivity. Qed.

Lemma fr_power_mul m x : 0 <= m -> x = (FR_MODULUS - 1) / (2 * fr_factor) * m ->
  modpow GENERATOR x FR_MODULUS = modpow fr_power m FR_MODULUS.
Proof.
  intros Hm ->. rewrite <- modpow_mul; [by rewrite fr_power_spec | | | exact Hm].
  - vm_compute. reflexivity.
  - vm_compute. discriminate.
Qed.

Lemma fr_half : modpow GENERATOR ((FR_MODULUS - 1) / 2) FR_MODULUS = FR_MODULUS - 1.
Proof. rewrite (fr_power_mul fr_factor); vm_compute; (reflexivity || discriminate). Qed.

Lemma fr_order : modpow GENERATOR (FR_MODULUS - 1) FR_MODULUS = 1.
Proof.
  replace (FR_MODULUS - 1) with ((FR_MODULUS - 1) / 2 * 2) at 1 by (vm_compute; reflexivity).
  rewrite <- modpow_mul; [rewrite fr_half | ..]; vm_compute; (reflexivity || discriminate).
Qed.

Lemma fr_certified_2 : certified FR_MODULUS GENERATOR (2, 32).
Proof.
  split; [apply Z.prime_2|]. split; [done|]. cbn [fst snd]. split.
  - apply Z.mod_divide; vm_compute; (discriminate || reflexivity).
  - rewrite fr_half. vm_compute. reflexivity.
Qed.

Lemma fr_certified_factor : certified FR_MODULUS GENERATOR (fr_factor, 2).
Proof.
  split; [apply trial_division; vm_compute; reflexivity|]. split; [done|]. cbn [fst snd]. split.
  - apply Z.mod_divide; vm_compute; (discriminate || reflexivity).
  - rewrite (fr_power_mul 2); vm_compute; (reflexivity || discriminate).
Qed.

Lemma not_square_7 x : x mod 7 = 3 -> forall s, s * s <> x.
Proof.
  intros Hx s <-. rewrite Zmult_mod in Hx. pose proof (Z.mod_pos_bound s 7 ltac:(lia)).
  assert (Hcases : s mod 7 ∈ seqZ 0 7) by (apply elem_of_seqZ; lia).
  repeat (apply elem_of_cons in Hcases as [Hc7|Hcases]; [rewrite Hc7 in Hx; discriminate Hx|]). by apply elem_of_nil in Hcases.
Qed.

Lemma fr_prime : Z.prime FR_MODULUS.
Proof.
  apply (prime_if_cube FR_MODULUS (2 ^ 32 * fr_factor ^ 2)).
  - vm_compute. reflexivity.
  - split; vm_compute; reflexivity.
  - apply Z.mod_divide; vm_compute; [discriminate | reflexivity].
  - assert (Hn : 1 < FR_MODULUS) by (vm_compute; reflexivity). intros p Hp Hpn.
    apply coprime_product; [vm_compute; reflexivity | |].
    + exact (certified_divides FR_MODULUS GENERATOR p (2, 32) Hn fr_order fr_certified_2 Hp Hpn).
    + exact (certified_divides FR_MODULUS GENERATOR p (fr_factor, 2) Hn fr_order fr_certified_factor Hp Hpn).
  - vm_compute. discriminate.
  - apply not_square_7. vm_compute. reflexivity.
Qed.

(** *** The domain *)

Lemma primitive_order w p k m : 1 < p -> 0 < k -> w ^ (2 ^ k) mod p = 1 -> w ^ (2 ^ k / 2) mod p <> 1 ->
  0 < m < 2 ^ k -> w ^ m mod p <> 1.
Proof.
  intros Hn Hk H1 H2 Hm H. assert (Hpow : 0 < 2 ^ k) by (apply Z.pow_pos_nonneg; lia).
  destruct (order_exists w p (2 ^ k) Hn Hpow H1) as (e & He & Hord).
  assert (Hd : (2 ^ k | e)).
  { apply (order_keeps_power w p (2 ^ k) 2 k e); try done; [apply Z.prime_2 | lia |].
    exists (2 ^ (k - 1)). rewrite Z.mul_comm, <- Z.pow_succ_r by lia. f_equal. lia. }
  apply Hord in H; [|lia]. pose proof (Z.divide_trans _ _ _ Hd H) as Hkm. apply Z.divide_pos_le in Hkm; lia.
Qed.

Lemma fr_modulus_bounds : 1 < FR_MODULUS < 2 ^ 256.
Proof. split; vm_compute; reflexivity. Qed.

Lemma root_spec : get_root_of_unity_4096 = GENERATOR ^ ((FR_MODULUS - 1) / 4096) mod FR_MODULUS.
Proof. apply modpow_spec; vm_compute; (reflexivity || discriminate). Qed.

Lemma root_bounds : 0 <= get_root_of_unity_4096 < FR_MODULUS.
Proof. rewrite root_spec. apply Z.mod_pos_bound. vm_compute. reflexivity. Qed.

Lemma root_pow m x : 0 <= m -> x = (FR_MODULUS - 1) / 4096 * m ->
  get_root_of_unity_4096 ^ m mod FR_MODULUS = modpow GENERATOR x FR_MODULUS.
Proof.
  intros Hm ->. assert (H0 : 0 <= (FR_MODULUS - 1) / 4096) by (vm_compute; discriminate).
  rewrite root_spec, Z.mod_pow_l, <- Z.pow_mul_r by assumption. symmetry. apply modpow_spec; [vm_compute; reflexivity|].
  by apply Z.mul_nonneg_nonneg.
Qed.

Lemma root_power : get_root_of_unity_4096 ^ 4096 mod FR_MODULUS = 1.
Proof. rewrite (root_pow 4096 (FR_MODULUS - 1)); [exact fr_order | lia | vm_compute; reflexivity]. Qed.

Lemma root_order m : 0 < m < 4096 -> get_root_of_unity_4096 ^ m mod FR_MODULUS <> 1.
Proof.
  apply (primitive_order _ _ 12); [apply fr_modulus_bounds | lia | exact root_power |].
  rewrite (root_pow (2 ^ 12 / 2) ((FR_MODULUS - 1) / 2)), fr_half; vm_compute; (reflexivity || discriminate).
Qed.
