(* ===== verification/Curve.v ===== *)
(** * The curve that the core library computes with

    The packages that src/polystore_core/src/kzg.rs and session_batch.rs use for
    BLS12-381 ([bls12_381], [ff], [group], [blst]): class [Curve] has the
    operations, class [CurveLaws] what their documentation states, namely that
    the scalars are the numbers modulo [FR_MODULUS], that the points form a group in which a
    scalar multiplies as the number it stands for, and that the pairing is bilinear.

    [exponent_curve] is an instance: points are given by their discrete logarithms.
    Scalars, points and pairings obey the laws there. *)

From S2P Require Import Prelude JsBytes Canonical Challenge FrField.
From Stdlib Require Import Zmod Ring.
Local Open Scope Z_scope.

(** A number from its bytes, least significant first, and back. *)
Definition from_le (l : bytes) : Z := from_be (reverse l).
Definition le (n : Z) (size : nat) : bytes := reverse (be n size).

Lemma from_be_nonneg l : Forall byte_ok l -> 0 <= from_be l.
Proof.
  induction l as [|b l IH] using rev_ind; [done|]. intros [Hl Hb]%Forall_app.
  rewrite from_be_snoc. apply Forall_cons in Hb as [[Hb _] _]. specialize (IH Hl). lia.
Qed.

Lemma be_from_be l : Forall byte_ok l -> be (from_be l) (length l) = l.
Proof.
  induction l as [|b l IH] using rev_ind; [done|]. intros [Hl Hb]%Forall_app. apply Forall_cons in Hb as [Hb _]. unfold byte_ok in Hb.
  rewrite from_be_snoc, length_app, Nat.add_comm. cbn [length Nat.add be]. rewrite div_base, mod_base by lia. by rewrite IH.
Qed.

Class Curve `{field : ScalarField} := {
  scalar_add : Scalar -> Scalar -> Scalar;
  scalar_sub : Scalar -> Scalar -> Scalar;
  scalar_mul : Scalar -> Scalar -> Scalar;
  scalar_neg : Scalar -> Scalar;
  scalar_invert : Scalar -> option Scalar;
  batch_invert : list Scalar -> list Scalar;
  scalar_to_repr : Scalar -> bytes;
  scalar_from_bytes_wide : bytes -> Scalar;
  G1 : Type;
  g1_eq_dec :: EqDecision G1;
  g1_identity : G1;
  g1_add : G1 -> G1 -> G1;
  g1_neg : G1 -> G1;
  g1_double : G1 -> G1;
  g1_mul : G1 -> Scalar -> G1;
  g1_from_compressed : bytes -> option G1;
  g1_to_compressed : G1 -> bytes;
  (** [points.mult(scalars, 256)] and [blst_p1s_mult_pippenger] of [blst] *)
  blst_mult : list G1 -> list bytes -> G1;
  G2 : Type;
  g2_sub : G2 -> G2 -> G2;
  g2_mul : G2 -> Scalar -> G2;
  Gt : Type;
  gt_eq_dec :: EqDecision Gt;
  gt_identity : Gt;
  gt_mul : Gt -> Gt -> Gt;
  pairing : G1 -> G2 -> Gt }.

Declare Scope curve_scope.
Delimit Scope curve_scope with curve.
Infix "⊞" := g1_add (at level 50, left associativity) : curve_scope.
Infix "+" := scalar_add : curve_scope.
Infix "-" := scalar_sub : curve_scope.
Infix "*" := scalar_mul : curve_scope.
Notation "- x" := (scalar_neg x) : curve_scope.

(** ** Sums and multiples of points *)

Section sums.
Context `{curve : Curve}.

(** [n] times a point. *)
Definition times (n : Z) (p : G1) : G1 := Nat.iter (Z.to_nat n) (g1_add p) g1_identity.
Definition g1_sum (l : list G1) : G1 := foldr g1_add g1_identity l.
Definition scalar_sum (l : list Scalar) : Scalar := foldr scalar_add scalar_zero l.
Definition scalar_pow (s : Scalar) (n : nat) : Scalar := Nat.iter n (scalar_mul s) scalar_one.
(** The sum of the points, each multiplied by its scalar. *)
Definition combination (points : list G1) (scalars : list Scalar) : G1 := g1_sum (zip_with g1_mul points scalars).
End sums.

Class CurveLaws `{curve : Curve} := {
  fr : Z -> Scalar;
  fr_surj : forall s, exists n, 0 <= n < FR_MODULUS /\ s = fr n;
  fr_eq : forall a b, fr a = fr b <-> a mod FR_MODULUS = b mod FR_MODULUS;
  fr_0 : scalar_zero = fr 0;
  fr_1 : scalar_one = fr 1;
  fr_add : forall a b, scalar_add (fr a) (fr b) = fr (a + b);
  fr_sub : forall a b, scalar_sub (fr a) (fr b) = fr (a - b);
  fr_mul : forall a b, scalar_mul (fr a) (fr b) = fr (a * b);
  fr_neg : forall a, scalar_neg (fr a) = fr (- a);
  fr_square : forall a, scalar_square (fr a) = fr (a * a);
  fr_invert_zero : scalar_invert scalar_zero = None;
  fr_invert : forall s, s <> scalar_zero -> exists u, scalar_invert s = Some u /\ scalar_mul s u = scalar_one;
  fr_batch_invert : forall l, batch_invert l = map (fun s => default s (scalar_invert s)) l;
  fr_from_bytes : forall l, blen l = 32 -> Forall byte_ok l ->
    scalar_from_bytes l = if from_le l <? FR_MODULUS then Some (fr (from_le l)) else None;
  fr_to_repr : forall n, 0 <= n < FR_MODULUS -> scalar_to_repr (fr n) = le n 32;
  fr_from_bytes_wide : forall l, blen l = 64 -> Forall byte_ok l -> scalar_from_bytes_wide l = fr (from_le l);
  g1_comm : forall p q, g1_add p q = g1_add q p;
  g1_assoc : forall p q t, g1_add p (g1_add q t) = g1_add (g1_add p q) t;
  g1_id_l : forall p, g1_add g1_identity p = p;
  g1_neg_r : forall p, g1_add p (g1_neg p) = g1_identity;
  g1_double_add : forall p, g1_double p = g1_add p p;
  g1_mul_fr : forall p n, 0 <= n -> g1_mul p (fr n) = times n p;
  g1_compressed : forall p, g1_from_compressed (g1_to_compressed p) = Some p /\ blen (g1_to_compressed p) = 48;
  blst_mult_sum : forall points scalars, length points = length scalars ->
    Forall (fun l => blen l = 32 /\ Forall byte_ok l) scalars ->
    blst_mult points scalars = g1_sum (zip_with (fun p l => times (from_le l) p) points scalars);
  gt_id_l : forall a, gt_mul gt_identity a = a;
  gt_comm : forall a b, gt_mul a b = gt_mul b a;
  gt_assoc : forall a b c, gt_mul a (gt_mul b c) = gt_mul (gt_mul a b) c;
  gt_cancel : forall a b c, gt_mul a c = gt_mul b c -> a = b;
  pairing_add : forall p q t, pairing (g1_add p q) t = gt_mul (pairing p t) (pairing q t);
  pairing_mul : forall p t s, pairing p (g2_mul t s) = pairing (g1_mul p s) t;
  pairing_sub : forall p t t', gt_mul (pairing p (g2_sub t t')) (pairing p t') = pairing p t;
  pairing_identity : forall t, pairing g1_identity t = gt_identity }.

(** ** Scalars *)

Section scalars.
Context `{laws : CurveLaws}.
Local Open Scope curve_scope.

Ltac as_numbers :=
  repeat match goal with s : Scalar |- _ =>
    let n := fresh "n" in let Hn := fresh "Hn" in destruct (fr_surj s) as (n & Hn & ->) end.

Lemma scalar_ring : ring_theory scalar_zero scalar_one scalar_add scalar_mul scalar_sub scalar_neg eq.
Proof.
  constructor; intros; as_numbers; rewrite ?fr_0, ?fr_1, ?fr_neg, ?fr_add, ?fr_mul, ?fr_sub, ?fr_add, ?fr_mul, ?fr_neg, ?fr_add; f_equal; ring.
Qed.
Add Ring scalars : scalar_ring.

Lemma scalar_sub_eq s t : s - t = scalar_zero -> s = t.
Proof. intros H. replace s with (s - t + t) by ring. rewrite H. ring. Qed.

Lemma scalar_integral s t : s * t = scalar_zero -> s = scalar_zero \/ t = scalar_zero.
Proof.
  intros H. destruct (decide (s = scalar_zero)) as [|Hs]; [by left|]. right.
  destruct (fr_invert s Hs) as (u & _ & Hu). replace t with (u * (s * t)); [rewrite H; ring|].
  replace (u * (s * t)) with (s * u * t) by ring. rewrite Hu. ring.
Qed.

Lemma scalar_one_not_zero : scalar_one <> scalar_zero.
Proof. rewrite fr_0, fr_1. intros H%fr_eq. vm_compute in H. discriminate. Qed.

Lemma invert_spec s u : scalar_invert s = Some u -> s * u = scalar_one.
Proof.
  intros H. destruct (decide (s = scalar_zero)) as [->|Hs]; [by rewrite fr_invert_zero in H|].
  destruct (fr_invert s Hs) as (u' & Hu & ?). congruence.
Qed.

Lemma scalar_pow_S s n : scalar_pow s (S n) = s * scalar_pow s n.
Proof. done. Qed.

Lemma scalar_pow_add s n m : scalar_pow s (n + m) = scalar_pow s n * scalar_pow s m.
Proof. induction n as [|n IH]; cbn [Nat.add]; [cbn; ring|]. rewrite !scalar_pow_S, IH. ring. Qed.

Lemma scalar_pow_mul s n m : scalar_pow s (n * m) = scalar_pow (scalar_pow s n) m.
Proof.
  induction m as [|m IH]; [by rewrite Nat.mul_0_r|].
  rewrite Nat.mul_succ_r, Nat.add_comm, scalar_pow_add, IH. done.
Qed.

Lemma scalar_pow_one n : scalar_pow scalar_one n = scalar_one.
Proof. induction n as [|n IH]; [done|]. rewrite scalar_pow_S, IH. ring. Qed.

Lemma scalar_pow_fr a n : scalar_pow (fr a) n = fr (a ^ Z.of_nat n).
Proof.
  induction n as [|n IH]; [exact fr_1|].
  rewrite scalar_pow_S, IH, fr_mul, Nat2Z.inj_succ, Z.pow_succ_r by lia. done.
Qed.

Lemma scalar_sum_app l l' : scalar_sum (l ++ l') = scalar_sum l + scalar_sum l'.
Proof.
  unfold scalar_sum. induction l as [|x l IH]; cbn [app foldr]; [ring|]. rewrite IH. ring.
Qed.

Lemma scalar_sum_mul_l {A} (f : A -> Scalar) c l : scalar_sum (map (fun x => c * f x) l) = c * scalar_sum (map f l).
Proof. unfold scalar_sum. induction l as [|x l IH]; cbn [map foldr]; [ring|]. rewrite IH. ring. Qed.

Lemma scalar_sum_add {A} (f g : A -> Scalar) l :
  scalar_sum (map (fun x => f x + g x) l) = scalar_sum (map f l) + scalar_sum (map g l).
Proof. unfold scalar_sum. induction l as [|x l IH]; cbn [map foldr]; [ring|]. rewrite IH. ring. Qed.

Lemma scalar_sum_zero {A} (f : A -> Scalar) l : (forall x, x ∈ l -> f x = scalar_zero) -> scalar_sum (map f l) = scalar_zero.
Proof.
  induction l as [|x l IH]; intros H; [done|]. cbn. rewrite H by by left. unfold scalar_sum in IH.
  rewrite IH; [ring|]. intros y Hy. apply H. by right.
Qed.
End scalars.

(** ** Points *)

Section points.
Context `{laws : CurveLaws}.

Local Infix "⊞" := g1_add (at level 50, left associativity).

Lemma g1_id_r p : p ⊞ g1_identity = p.
Proof. by rewrite g1_comm, g1_id_l. Qed.

Lemma g1_swap p q t : p ⊞ (q ⊞ t) = q ⊞ (p ⊞ t).
Proof. by rewrite !g1_assoc, (g1_comm p q). Qed.

Lemma g1_exchange p q t u : (p ⊞ q) ⊞ (t ⊞ u) = (p ⊞ t) ⊞ (q ⊞ u).
Proof. by rewrite <- !g1_assoc, (g1_swap q t u). Qed.

Lemma g1_cancel p q t : p ⊞ t = q ⊞ t -> p = q.
Proof.
  intros H. apply (f_equal (fun x => x ⊞ g1_neg t)) in H. by rewrite <- !g1_assoc, g1_neg_r, !g1_id_r in H.
Qed.

Lemma times_0 p : times 0 p = g1_identity.
Proof. done. Qed.

Lemma times_succ n p : 0 <= n -> times (n + 1) p = p ⊞ times n p.
Proof. intros Hn. unfold times. by rewrite Z2Nat.inj_add, Nat.add_comm by lia. Qed.

Lemma times_1 p : times 1 p = p.
Proof. rewrite (times_succ 0) by lia. apply g1_id_r. Qed.

Lemma times_add a b p : 0 <= a -> 0 <= b -> times (a + b) p = times a p ⊞ times b p.
Proof.
  intros Ha Hb. revert a Ha. apply natlike_ind; [by rewrite times_0, g1_id_l|].
  intros a Ha IH. replace (Z.succ a + b) with (a + b + 1) by lia.
  rewrite times_succ, IH, g1_assoc, <- times_succ by lia. done.
Qed.

Lemma times_identity n : 0 <= n -> times n g1_identity = g1_identity.
Proof.
  revert n. apply natlike_ind; [done|]. intros n Hn IH. unfold Z.succ. by rewrite times_succ, IH, g1_id_l by lia.
Qed.

Lemma times_point n p q : 0 <= n -> times n (p ⊞ q) = times n p ⊞ times n q.
Proof.
  revert n. apply natlike_ind; [by rewrite !times_0, g1_id_l|]. intros n Hn IH. unfold Z.succ.
  by rewrite !times_succ, IH, g1_exchange by lia.
Qed.

Lemma times_mul a b p : 0 <= a -> 0 <= b -> times (a * b) p = times a (times b p).
Proof.
  intros Ha Hb. revert a Ha. apply natlike_ind; [done|]. intros a Ha IH.
  rewrite Z.mul_succ_l, times_add, IH by nia. unfold Z.succ. rewrite times_succ by lia. apply g1_comm.
Qed.

Lemma times_double n p : 0 <= n -> g1_double (times n p) = times (2 * n) p.
Proof. intros Hn. rewrite g1_double_add, <- times_add by lia. f_equal. lia. Qed.

(** *** Multiples by scalars *)

Lemma scalar_number s : exists n, 0 <= n < FR_MODULUS /\ s = fr n /\ forall p, g1_mul p s = times n p.
Proof.
  destruct (fr_surj s) as (n & Hn & ->). exists n. split_and!; [lia | lia | done |]. intros p. apply g1_mul_fr. lia.
Qed.

Lemma g1_mul_zero p : g1_mul p scalar_zero = g1_identity.
Proof. rewrite fr_0, g1_mul_fr by lia. done. Qed.

Lemma g1_mul_one p : g1_mul p scalar_one = p.
Proof. rewrite fr_1, g1_mul_fr by lia. apply times_1. Qed.

Lemma g1_mul_identity s : g1_mul g1_identity s = g1_identity.
Proof. destruct (scalar_number s) as (n & Hn & _ & ->). apply times_identity. lia. Qed.

Lemma g1_mul_point p q s : g1_mul (p ⊞ q) s = g1_mul p s ⊞ g1_mul q s.
Proof. destruct (scalar_number s) as (n & Hn & _ & Ht). rewrite !Ht. apply times_point. lia. Qed.

Lemma g1_mul_add p s t : g1_mul p (scalar_add s t) = g1_mul p s ⊞ g1_mul p t.
Proof.
  destruct (scalar_number s) as (n & Hn & -> & ->). destruct (scalar_number t) as (m & Hm & -> & ->).
  rewrite fr_add, g1_mul_fr by lia. apply times_add; lia.
Qed.

Lemma g1_mul_mul p s t : g1_mul (g1_mul p s) t = g1_mul p (scalar_mul s t).
Proof.
  destruct (scalar_number s) as (n & Hn & -> & ->). destruct (scalar_number t) as (m & Hm & -> & ->).
  rewrite fr_mul, g1_mul_fr, Z.mul_comm by nia. symmetry. apply times_mul; lia.
Qed.

Lemma g1_mul_neg p s : g1_mul p (scalar_neg s) = g1_neg (g1_mul p s).
Proof.
  apply (g1_cancel _ _ (g1_mul p s)). rewrite <- g1_mul_add, (g1_comm (g1_neg _)), g1_neg_r.
  rewrite (Radd_comm scalar_ring), (Ropp_def scalar_ring). apply g1_mul_zero.
Qed.

(** No point but the identity vanishes under a scalar that is not zero. *)
Lemma g1_mul_cancel p s : g1_mul p s = g1_identity -> p = g1_identity \/ s = scalar_zero.
Proof.
  intros H. destruct (decide (s = scalar_zero)) as [|Hs]; [by right|]. left.
  destruct (fr_invert s Hs) as (u & _ & Hu). by rewrite <- (g1_mul_one p), <- Hu, <- g1_mul_mul, H, g1_mul_identity.
Qed.

(** *** Sums *)

Lemma g1_sum_cons p l : g1_sum (p :: l) = p ⊞ g1_sum l.
Proof. done. Qed.

Lemma g1_sum_app l l' : g1_sum (l ++ l') = g1_sum l ⊞ g1_sum l'.
Proof. induction l as [|p l IH]; cbn [app]; [symmetry; apply g1_id_l|]. by rewrite !g1_sum_cons, IH, g1_assoc. Qed.

Lemma g1_sum_mul {A} (f : A -> G1) s l : g1_mul (g1_sum (map f l)) s = g1_sum (map (fun x => g1_mul (f x) s) l).
Proof. induction l as [|x l IH]; [apply g1_mul_identity|]. cbn [map]. by rewrite !g1_sum_cons, g1_mul_point, IH. Qed.

Lemma g1_sum_point {A} (f g : A -> G1) l :
  g1_sum (map (fun x => f x ⊞ g x) l) = g1_sum (map f l) ⊞ g1_sum (map g l).
Proof. induction l as [|x l IH]; cbn [map]; [symmetry; apply g1_id_l|]. by rewrite !g1_sum_cons, IH, g1_exchange. Qed.

Lemma g1_sum_scalar {A} (f : A -> Scalar) p l :
  g1_sum (map (fun x => g1_mul p (f x)) l) = g1_mul p (scalar_sum (map f l)).
Proof.
  induction l as [|x l IH]; [symmetry; apply g1_mul_zero|]. cbn [map]. rewrite g1_sum_cons, IH, <- g1_mul_add. done.
Qed.
End points.

(** ** An instance: points as multiples of a generator *)

Module Exponent.

Abbreviation F := (Zmod FR_MODULUS).
Definition el (n : Z) : F := Zmod.of_Z FR_MODULUS n.

#[export] Instance F_eq_dec : EqDecision F.
Proof.
  intros x y. destruct (Zmod.eqb x y) eqn:He.
  - left. by apply Zmod.eqb_eq.
  - right. intros ->. by rewrite Zmod.eqb_refl in He.
Defined.

#[export] Instance scalars : ScalarField := {|
  Scalar := F; scalar_zero := el 0; scalar_one := el 1;
  scalar_from_bytes l := if from_le l <? FR_MODULUS then Some (el (from_le l)) else None;
  scalar_square x := Zmod.mul x x |}.

Definition invert (x : F) : option F := if decide (x = el 0) then None else Some (Zmod.inv x).

#[export] Instance exponent_curve : Curve := {|
  scalar_add := Zmod.add (m := FR_MODULUS); scalar_sub := Zmod.sub (m := FR_MODULUS);
  scalar_mul := Zmod.mul (m := FR_MODULUS); scalar_neg := Zmod.opp (m := FR_MODULUS);
  scalar_invert := invert; batch_invert := map (fun s => default s (invert s));
  scalar_to_repr s := le (Zmod.to_Z s) 32; scalar_from_bytes_wide l := el (from_le l);
  G1 := F; g1_identity := el 0; g1_add := Zmod.add (m := FR_MODULUS); g1_neg := Zmod.opp (m := FR_MODULUS);
  g1_double p := Zmod.add p p; g1_mul := Zmod.mul (m := FR_MODULUS);
  g1_from_compressed l := if from_be l <? FR_MODULUS then Some (el (from_be l)) else None;
  g1_to_compressed p := be (Zmod.to_Z p) 48;
  blst_mult points scalars := foldr Zmod.add (el 0) (zip_with (fun p l => Zmod.mul p (el (from_le l))) points scalars);
  G2 := F; g2_sub := Zmod.sub (m := FR_MODULUS); g2_mul := Zmod.mul (m := FR_MODULUS);
  Gt := F; gt_identity := el 0; gt_mul := Zmod.add (m := FR_MODULUS); pairing := Zmod.mul (m := FR_MODULUS) |}.

Lemma modulus_positive : 0 < FR_MODULUS.
Proof. pose proof fr_modulus_bounds. lia. Qed.

Add Ring F_ring : (Zmod.ring_theory FR_MODULUS).

Lemma of_0 : el 0 = @Zmod.zero FR_MODULUS.
Proof. apply Zmod.of_Z_0. Qed.
Lemma of_1 : el 1 = @Zmod.one FR_MODULUS.
Proof. apply Zmod.of_Z_1. Qed.

Lemma of_succ n : el (n + 1) = Zmod.add (el 1) (el n).
Proof. unfold el. rewrite Zmod.of_Z_add. ring. Qed.

Lemma times_of (p : F) n : 0 <= n -> @times scalars exponent_curve n p = Zmod.mul p (el n) :> F.
Proof.
  revert n. apply natlike_ind.
  - change (@times scalars exponent_curve 0 p) with (el 0). rewrite of_0. ring.
  - intros n Hn IH. unfold Z.succ.
    transitivity (Zmod.add p (@times scalars exponent_curve n p)).
    + unfold times. by rewrite Z2Nat.inj_add, Nat.add_comm by lia.
    + rewrite IH, of_succ, of_1. ring.
Qed.

Lemma to_Z_bounds (x : F) : 0 <= Zmod.to_Z x < FR_MODULUS.
Proof. apply Zmod.to_Z_pos_bound, modulus_positive. Qed.

Lemma invert_nonzero (x : F) : x <> el 0 -> Zmod.mul x (Zmod.inv x) = el 1.
Proof. intros Hx. rewrite of_1. apply Zmod.mul_inv_same_r_prime; [exact fr_prime | by rewrite <- of_0]. Qed.

Lemma compressed (p : F) : from_be (be (Zmod.to_Z p) 48) = Zmod.to_Z p.
Proof.
  rewrite from_be_be. apply Z.mod_small. pose proof (to_Z_bounds p). pose proof fr_modulus_bounds.
  assert (2 ^ 256 < 256 ^ Z.of_nat 48) by (vm_compute; reflexivity). lia.
Qed.

#[export] Instance exponent_laws : CurveLaws.
Proof.
  refine {| fr := el |}; cbn -[el Zmod.mul Zmod.add Zmod.sub Zmod.opp times FR_MODULUS from_le le be from_be].
  - intros s. exists (Zmod.to_Z s). split; [apply to_Z_bounds | symmetry; apply Zmod.of_Z_to_Z].
  - intros a b. apply Zmod.of_Z_inj.
  - done.
  - done.
  - intros a b. symmetry. apply Zmod.of_Z_add.
  - intros a b. symmetry. apply Zmod.of_Z_sub.
  - intros a b. symmetry. apply Zmod.of_Z_mul.
  - intros a. symmetry. apply Zmod.of_Z_opp.
  - intros a. symmetry. apply Zmod.of_Z_mul.
  - unfold invert. by rewrite decide_True.
  - intros s Hs. exists (Zmod.inv s). split; [unfold invert; by rewrite decide_False | by apply invert_nonzero].
  - done.
  - done.
  - intros n Hn. unfold el. rewrite Zmod.to_Z_of_Z. by rewrite Z.mod_small.
  - done.
  - intros. ring.
  - intros. ring.
  - intros p. rewrite of_0. ring.
  - intros p. rewrite of_0. ring.
  - done.
  - intros p n Hn. symmetry. by apply times_of.
  - intros p. rewrite compressed. pose proof (to_Z_bounds p). rewrite (proj2 (Z.ltb_lt _ _)) by lia. split.
    + f_equal. apply Zmod.of_Z_to_Z.
    + unfold blen. by rewrite length_be.
  - intros points scalars Hl Hs. unfold g1_sum. cbn -[el Zmod.mul Zmod.add times from_le FR_MODULUS]. f_equal.
    clear Hl. revert points. induction Hs as [|l scalars [_ Hb] _ IH]; intros [|p points]; [done..|].
    cbn [zip_with]. f_equal; [|apply IH]. symmetry. apply times_of. unfold from_le. apply from_be_nonneg, Forall_reverse, Hb.
  - intros a. rewrite of_0. ring.
  - intros. ring.
  - intros. ring.
  - intros a b c H. replace a with (Zmod.sub (Zmod.add a c) c) by ring. rewrite H. ring.
  - intros. ring.
  - intros. ring.
  - intros. ring.
  - intros t. rewrite of_0. ring.
Qed.
End Exponent.
