(* ===== verification/Msm.v ===== *)
(** * Multi-scalar multiplication

    Models the bucket method of src/polystore_core/src/kzg.rs ([pippenger_window_size],
    [default_pippenger_window_size], [pippenger_window], [msm_pippenger_g1] and
    [msm_pippenger_g1_with_window]): the scalars are cut into windows of bits, and each
    window's points are sorted into buckets that are summed with their weights.  Shown: the
    result is the sum of the points multiplied by their scalars.

    [debug_assert!] is a check in a build with debug assertions ([Build]); a failed one ends
    the call with an error. *)

From S2P Require Import Prelude JsBytes Canonical Challenge FrField Curve.
Local Open Scope Z_scope.

(** [cfg!(debug_assertions)] *)
Class Build := { debug_assertions : bool }.

(** [PIPPENGER_WINDOW_OVERRIDE], or the size for the number of points. *)
Definition default_pippenger_window_size (n : Z) : Z :=
  if n <=? 32 then 3 else if n <=? 64 then 4 else if n <=? 128 then 5 else if n <=? 256 then 6
  else if n <=? 512 then 7 else if n <=? 1024 then 8 else if n <=? 2048 then 9 else if n <=? 4096 then 9
  else if n <=? 8192 then 11 else 12.
Definition pippenger_window_size (override_bits n : Z) : Z :=
  if 0 <? override_bits then override_bits else default_pippenger_window_size n.

(** The bits of a window, through a word of 32 bits: shifting a byte into the word drops
    what does not fit, and without debug assertions the mask is shifted modulo 32. *)
Definition u32 (n : Z) : Z := n mod 2 ^ 32.
Definition pippenger_window `{build : Build} (bytes_le : bytes) (bit_offset window_bits : Z) : result Z :=
  throw_if debug_assertions && negb ((0 <? window_bits) && (window_bits <=? 16))
    with "assertion failed: window_bits > 0 && window_bits <= 16" else
  let start_byte := bit_offset / 8 in
  if 32 <=? start_byte then Ok 0 else
  let start_bit := bit_offset mod 8 in
  let word := foldl (fun word i =>
    if start_byte + i <? 32 then Z.lor word (u32 (Z.shiftl (get bytes_le (start_byte + i)) (8 * i))) else word)
    0 [0; 1; 2; 3] in
  let shifted := Z.shiftr word start_bit in
  let mask := Z.shiftl 1 (window_bits mod 32) - 1 in
  Ok (Z.land shifted mask).

Section msm.
Context `{curve : Curve} `{build : Build}.

(** [buckets[w] += *point] for the points in order. *)
Fixpoint fillBuckets (buckets_len bit_offset window_bits : Z) (buckets : list G1) (points : list (G1 * bytes))
    : result (list G1) :=
  match points with
  | [] => Ok buckets
  | (point, scalar_bytes) :: points =>
      let! w := pippenger_window scalar_bytes bit_offset window_bits in
      fillBuckets buckets_len bit_offset window_bits
        (if negb (w =? 0) && (w <? buckets_len)
         then alter (fun b => g1_add b point) (Z.to_nat w) buckets else buckets) points
  end.

(** [for idx in (1..buckets_len).rev()], on [buckets[1..]] *)
Definition addBucket (sums : G1 * G1) (bucket : G1) : G1 * G1 :=
  let running := g1_add sums.1 bucket in (running, g1_add sums.2 running).
Definition reduceBuckets (buckets : list G1) : G1 :=
  (foldl addBucket (g1_identity, g1_identity) (reverse (drop 1 buckets))).2.

(** One round of [for window_index in (0..windows).rev()]. *)
Definition windowRound (windows buckets_len window_bits : Z) (points : list (G1 * bytes)) (acc : G1) (window_index : Z)
    : result G1 :=
  let acc := if window_index =? windows - 1 then acc else Nat.iter (Z.to_nat window_bits) g1_double acc in
  let! buckets := fillBuckets buckets_len (window_index * window_bits) window_bits
                    (replicate (Z.to_nat buckets_len) g1_identity) points in
  Ok (g1_add acc (reduceBuckets buckets)).
Fixpoint windowLoop (windows buckets_len window_bits : Z) (points : list (G1 * bytes)) (acc : G1) (indices : list Z) : result G1 :=
  match indices with
  | [] => Ok acc
  | window_index :: indices =>
      let! acc := windowRound windows buckets_len window_bits points acc window_index in
      windowLoop windows buckets_len window_bits points acc indices
  end.

Definition msm_pippenger_g1_with_window (points : list G1) (scalars : list Scalar) (window_bits : Z) : result G1 :=
  throw_if debug_assertions && negb (bool_decide (length points = length scalars))
    with "assertion failed: points.len() == scalars.len()" else
  let n := Nat.min (length points) (length scalars) in
  if bool_decide (n = 0%nat) then Ok g1_identity else
  let points := take n points in
  let scalars := take n scalars in
  let buckets_len := Z.shiftl 1 window_bits in
  let windows := (256 + window_bits - 1) / window_bits in
  windowLoop windows buckets_len window_bits (zip points (map scalar_to_repr scalars))
    g1_identity (reverse (seqZ 0 windows)).

Definition msm_pippenger_g1 (override_bits : Z) (points : list G1) (scalars : list Scalar) : result G1 :=
  msm_pippenger_g1_with_window points scalars (pippenger_window_size override_bits (Z.of_nat (length points))).
End msm.

(** ** Windows of bits *)

Lemma from_le_cons b l : from_le (b :: l) = from_le l * 256 + b.
Proof. unfold from_le. by rewrite reverse_cons, from_be_snoc. Qed.

Lemma from_le_bound l : Forall byte_ok l -> 0 <= from_le l < 256 ^ blen l.
Proof.
  induction 1 as [|b l Hb Hl IH]; [done|]. rewrite from_le_cons. unfold byte_ok, blen in *. cbn [length].
  rewrite Nat2Z.inj_succ, Z.pow_succ_r by lia. lia.
Qed.

Lemma from_le_testbit l k : Forall byte_ok l -> 0 <= k ->
  Z.testbit (from_le l) k = Z.testbit (get l (k / 8)) (k mod 8).
Proof.
  intros Hl. revert k. induction Hl as [|b l Hb Hl IH]; intros k Hk.
  - change (from_le []) with 0. unfold get. destruct (Z.to_nat (k / 8)); by rewrite !Z.bits_0.
  - rewrite from_le_cons. unfold byte_ok in Hb. destruct (Z.lt_ge_cases k 8).
    + rewrite (Z.div_small k), (Z.mod_small k) by lia. change (get (b :: l) 0) with b.
      rewrite <- (Z.mod_pow2_bits_low _ 8 k) by lia. f_equal. change (2 ^ 8) with 256. apply mod_base. lia.
    + replace k with (k - 8 + 8) at 1 by lia. rewrite <- Z.div_pow2_bits by lia.
      change (2 ^ 8) with 256. rewrite div_base by lia. rewrite IH by lia.
      replace (k / 8) with ((k - 8) / 8 + 1) by div_lia_linear.
      replace (k mod 8) with ((k - 8) mod 8) by div_lia_linear.
      unfold get. by rewrite Z2Nat.inj_add, Nat.add_comm by (try apply Z.div_pos; lia).
Qed.

Lemma get_byte l i : Forall byte_ok l -> 0 <= get l i < 256.
Proof.
  intros Hl. unfold get. rewrite nth_lookup. destruct (l !! _) eqn:He; cbn; [|lia].
  by apply (Forall_lookup_1 _ _ _ _ Hl) in He.
Qed.

Lemma get_beyond l i : blen l <= i -> get l i = 0.
Proof. intros Hi. unfold get, blen in *. apply nth_overflow. lia. Qed.

(** Four bytes in a word. *)
Lemma word_testbit b0 b1 b2 b3 j : 0 <= j < 32 ->
  0 <= b0 < 256 -> 0 <= b1 < 256 -> 0 <= b2 < 256 -> 0 <= b3 < 256 ->
  Z.testbit (Z.lor (Z.lor (Z.lor (Z.lor 0 (u32 (Z.shiftl b0 0))) (u32 (Z.shiftl b1 8))) (u32 (Z.shiftl b2 16))) (u32 (Z.shiftl b3 24))) j
  = Z.testbit (if j <? 8 then b0 else if j <? 16 then b1 else if j <? 24 then b2 else b3) (j mod 8).
Proof.
  intros Hj H0 H1 H2 H3. unfold u32. rewrite !Z.lor_spec, Z.bits_0, !Z.mod_pow2_bits_low, !Z.shiftl_spec by lia.
  assert (Hhigh : forall b m, 0 <= b < 256 -> 8 <= m -> Z.testbit b m = false).
  { intros b m Hb Hm. rewrite <- (Z.mod_small b (2 ^ 8)) by (change (2 ^ 8) with 256; lia).
    apply Z.mod_pow2_bits_high. lia. }
  destruct (Z.ltb_spec j 8); [|destruct (Z.ltb_spec j 16); [|destruct (Z.ltb_spec j 24)]].
  - rewrite (Z.testbit_neg_r b1), (Z.testbit_neg_r b2), (Z.testbit_neg_r b3) by lia.
    rewrite !orb_false_r, orb_false_l. f_equal. div_lia_linear.
  - rewrite (Hhigh b0), (Z.testbit_neg_r b2), (Z.testbit_neg_r b3) by lia. rewrite !orb_false_r, ?orb_false_l. f_equal. div_lia_linear.
  - rewrite (Hhigh b0), (Hhigh b1), (Z.testbit_neg_r b3) by lia. rewrite !orb_false_r, ?orb_false_l. f_equal. div_lia_linear.
  - rewrite (Hhigh b0), (Hhigh b1), (Hhigh b2) by lia. rewrite !orb_false_l. f_equal. div_lia_linear.
Qed.

Lemma or_if (c : bool) w x : (c = false -> x = 0) -> (if c then Z.lor w x else w) = Z.lor w x.
Proof. destruct c; [done|]. intros ->; [|done]. by rewrite Z.lor_0_r. Qed.

Lemma pippenger_window_spec `{build : Build} l off bits : Forall byte_ok l -> blen l = 32 -> 0 <= off -> 0 < bits <= 16 ->
  pippenger_window l off bits = Ok ((from_le l / 2 ^ off) mod 2 ^ bits).
Proof.
  intros Hl H32 Ho Hb. unfold pippenger_window.
  rewrite (proj2 (Z.ltb_lt _ _)), (proj2 (Z.leb_le _ _)), andb_false_r by lia. rewrite (Z.mod_small bits) by lia. destruct (Z.leb_spec 32 (off / 8)) as [Hbig|Hsmall].
  - rewrite Z.div_small, Z.mod_0_l; [done | apply Z.pow_nonzero; lia |].
    pose proof (from_le_bound l Hl) as Hle. rewrite H32 in Hle. change 256 with (2 ^ 8) in Hle.
    rewrite <- Z.pow_mul_r in Hle by lia. split; [lia|].
    apply Z.lt_le_trans with (2 ^ (8 * 32)); [lia|]. apply Z.pow_le_mono_r; div_lia_linear.
  - cbn [foldl]. set (sb := off / 8) in *.
    assert (Hout : forall i s, (sb + i <? 32) = false -> u32 (Z.shiftl (get l (sb + i)) s) = 0).
    { intros i s Hi. bool_to_prop. rewrite get_beyond by lia. by rewrite Z.shiftl_0_l. }
    rewrite !or_if by apply Hout. clear Hout. f_equal.
    apply Z.bits_inj'. intros j Hj. rewrite Z.land_spec, Z.shiftr_spec by lia.
    replace (Z.shiftl 1 bits - 1) with (Z.ones bits) by (rewrite Z.shiftl_1_l, Z.ones_equiv; lia).
    rewrite Z.testbit_ones_nonneg by lia. destruct (Z.ltb_spec j bits).
    + rewrite andb_true_r, Z.mod_pow2_bits_low, Z.div_pow2_bits by lia.
      pose proof (Z.mod_pos_bound off 8 ltac:(lia)). change (8 * 0) with 0. change (8 * 1) with 8.
      change (8 * 2) with 16. change (8 * 3) with 24.
      rewrite word_testbit by (lia || by apply get_byte).
      rewrite from_le_testbit by (done || lia). set (m := j + off mod 8).
      assert (Hd : (j + off) / 8 = sb + m / 8) by (unfold m, sb; div_lia_linear).
      assert (Hm : (j + off) mod 8 = m mod 8) by (unfold m; div_lia_linear). rewrite Hd, Hm. f_equal.
      assert (0 <= m < 32) by lia.
      destruct (Z.ltb_spec m 8); [|destruct (Z.ltb_spec m 16); [|destruct (Z.ltb_spec m 24)]]; f_equal; div_lia_linear.
    + by rewrite andb_false_r, Z.mod_pow2_bits_high by lia.
Qed.

(** ** Buckets *)

Section buckets.
Context `{laws : CurveLaws} `{build : Build}.

(** The buckets from the [k]-th on, each counted as often as its number says. *)
Fixpoint weighted (k : Z) (l : list G1) : G1 :=
  match l with
  | [] => g1_identity
  | b :: l => g1_add (times k b) (weighted (k + 1) l)
  end.

Lemma weighted_shift k l : 0 <= k -> weighted (k + 1) l = g1_add (weighted k l) (g1_sum l).
Proof.
  revert k. induction l as [|b l IH]; intros k Hk; cbn [weighted]; [symmetry; apply g1_id_l|].
  rewrite (IH (k + 1)), g1_sum_cons, times_succ, (g1_comm b) by lia. apply g1_exchange.
Qed.

Lemma weighted_alter k l i p : 0 <= k -> (i < length l)%nat ->
  weighted k (alter (fun b => g1_add b p) i l) = g1_add (weighted k l) (times (k + Z.of_nat i) p).
Proof.
  revert k i. induction l as [|b l IH]; intros k [|i] Hk Hi; cbn [length] in Hi; [lia..| |].
  - change (weighted k (alter _ 0%nat (b :: l))) with (g1_add (times k (g1_add b p)) (weighted (k + 1) l)).
    cbn [weighted]. rewrite times_point, Z.add_0_r, <- !g1_assoc, (g1_comm (times k p)) by lia. done.
  - change (weighted k (alter ?g (S i) (b :: l))) with (g1_add (times k b) (weighted (k + 1) (alter g i l))).
    cbn [weighted]. rewrite IH, g1_assoc by lia. do 2 f_equal. lia.
Qed.

Lemma weighted_empty k n : 0 <= k -> weighted k (replicate n g1_identity) = g1_identity.
Proof.
  revert k. induction n as [|n IH]; intros k Hk; [done|]. cbn [replicate weighted].
  by rewrite times_identity, IH, g1_id_l by lia.
Qed.

(** The running sums weigh each bucket with its number. *)
Lemma reduceBuckets_weighted b l : reduceBuckets (b :: l) = weighted 1 l.
Proof.
  unfold reduceBuckets. change (drop 1 (b :: l)) with l.
  enough (H : foldl addBucket (g1_identity, g1_identity) (reverse l) = (g1_sum l, weighted 1 l)) by by rewrite H.
  induction l as [|c l IH]; [done|]. rewrite reverse_cons, foldl_app, IH. unfold addBucket. cbn [foldl weighted fst snd].
  rewrite g1_sum_cons, times_1, (g1_comm (g1_sum l) c). f_equal.
  rewrite (weighted_shift 1) by lia. apply g1_swap.
Qed.

Definition digit (off bits : Z) (ps : G1 * bytes) : G1 := times ((from_le ps.2 / 2 ^ off) mod 2 ^ bits) ps.1.

Definition scalar_bytes_ok (ps : G1 * bytes) : Prop := Forall byte_ok ps.2 /\ blen ps.2 = 32.

Lemma fillBuckets_reduce bits off points b l : 0 <= off -> 0 < bits <= 16 ->
  Z.of_nat (length (b :: l)) = 2 ^ bits -> Forall scalar_bytes_ok points ->
  exists buckets, fillBuckets (2 ^ bits) off bits (b :: l) points = Ok buckets
    /\ reduceBuckets buckets = g1_add (weighted 1 l) (g1_sum (map (digit off bits) points)).
Proof.
  intros Ho Hb Hl Hp. revert l Hl. induction Hp as [|[p s] points [Hs H32] Hp IH]; intros l Hl.
  - eexists. split; [reflexivity|]. cbn [map]. rewrite reduceBuckets_weighted. symmetry. apply g1_id_r.
  - cbn [fillBuckets map fst snd] in *. rewrite pippenger_window_spec by done. cbn [bind].
    set (d := (from_le s / 2 ^ off) mod 2 ^ bits).
    assert (Hd : 0 <= d < 2 ^ bits) by (apply Z.mod_pos_bound, Z.pow_pos_nonneg; lia).
    rewrite g1_sum_cons. unfold digit at 1. cbn [fst snd]. fold d.
    rewrite (proj2 (Z.ltb_lt d _)), andb_true_r by lia. destruct (Z.eqb_spec d 0) as [->|Hd0]; cbn [negb].
    + rewrite times_0, g1_id_l. by apply IH.
    + replace (Z.to_nat d) with (S (Z.to_nat (d - 1))) by lia. cbn [length] in Hl.
      change (alter ?g (S ?i) (b :: l)) with (b :: alter g i l).
      destruct (IH (alter (fun b0 => g1_add b0 p) (Z.to_nat (d - 1)) l)) as (buckets & Hf & Hb');
        [cbn [length]; by rewrite length_alter|]. exists buckets. split; [exact Hf|]. rewrite Hb'.
      rewrite weighted_alter by lia. replace (1 + Z.of_nat (Z.to_nat (d - 1))) with d by lia.
      symmetry. apply g1_assoc.
Qed.

Lemma window_sum bits off points : 0 <= off -> 0 < bits <= 16 -> Forall scalar_bytes_ok points ->
  exists buckets, fillBuckets (2 ^ bits) off bits (replicate (Z.to_nat (2 ^ bits)) g1_identity) points = Ok buckets
    /\ reduceBuckets buckets = g1_sum (map (digit off bits) points).
Proof.
  intros Ho Hb Hp. assert (0 < 2 ^ bits) by (apply Z.pow_pos_nonneg; lia).
  destruct (Z.to_nat (2 ^ bits)) as [|n] eqn:Hn; [lia|]. cbn [replicate].
  destruct (fillBuckets_reduce bits off points g1_identity (replicate n g1_identity)) as (buckets & Hf & Hr);
    [done | done | cbn [length]; rewrite length_replicate; lia | done |].
  exists buckets. split; [exact Hf|]. by rewrite Hr, weighted_empty, g1_id_l.
Qed.

(** ** Windows *)

Lemma iter_double n p : Nat.iter n g1_double p = times (2 ^ Z.of_nat n) p.
Proof.
  induction n as [|n IH]; [symmetry; apply times_1|]. cbn [Nat.iter nat_rect]. change (nat_rect _ p _ n) with (Nat.iter n g1_double p).
  rewrite IH, times_double, Nat2Z.inj_succ, Z.pow_succ_r by (try apply Z.pow_nonneg; lia). done.
Qed.

Lemma g1_sum_times {A} (f : A -> G1) n l : 0 <= n -> times n (g1_sum (map f l)) = g1_sum (map (fun x => times n (f x)) l).
Proof.
  intros Hn. induction l as [|x l IH]; [by apply times_identity|]. cbn [map]. by rewrite !g1_sum_cons, times_point, IH by done.
Qed.

(** What is left of the scalars above [off] bits. *)
Definition above (off : Z) (points : list (G1 * bytes)) : G1 :=
  g1_sum (map (fun ps => times (from_le ps.2 / 2 ^ off) ps.1) points).

Lemma above_step off bits points : 0 <= off -> 0 < bits -> Forall scalar_bytes_ok points ->
  g1_add (times (2 ^ bits) (above (off + bits) points)) (g1_sum (map (digit off bits) points)) = above off points.
Proof.
  intros Ho Hb Hp. unfold above. assert (0 < 2 ^ bits) by (apply Z.pow_pos_nonneg; lia).
  rewrite g1_sum_times, <- g1_sum_point by lia. f_equal. apply map_ext_in. intros [p s] Hin. unfold digit. cbn [fst snd].
  apply list_elem_of_In in Hin. rewrite Forall_forall in Hp. destruct (Hp _ Hin) as [Hs _]. cbn [snd] in Hs.
  pose proof (from_le_bound s Hs). assert (0 < 2 ^ off) by (apply Z.pow_pos_nonneg; lia).
  assert (0 <= from_le s / 2 ^ off) by (apply Z.div_pos; lia).
  rewrite Z.pow_add_r, <- Z.div_div by lia. set (x := from_le s / 2 ^ off) in *.
  rewrite <- times_mul, <- times_add by (try apply Z.mul_nonneg_nonneg; try apply Z.div_pos; try apply Z.mod_pos_bound; lia).
  f_equal. symmetry. apply Z.div_mod. lia.
Qed.

Lemma windowRound_step windows bits points acc k : 0 <= k < windows -> 0 < bits <= 16 -> Forall scalar_bytes_ok points ->
  acc = above ((k + 1) * bits) points -> (k = windows - 1 -> acc = g1_identity) ->
  windowRound windows (2 ^ bits) bits points acc k = Ok (above (k * bits) points).
Proof.
  intros Hk Hb Hp Hacc Hlast. unfold windowRound. cbv zeta.
  destruct (window_sum bits (k * bits) points) as (buckets & -> & Hr); [nia | done | done |]. cbn [bind]. rewrite Hr. f_equal.
  rewrite <- (above_step (k * bits) bits) by (done || nia). f_equal.
  replace (k * bits + bits) with ((k + 1) * bits) by ring. rewrite <- Hacc.
  destruct (Z.eqb_spec k (windows - 1)) as [He|_].
  - rewrite (Hlast He). symmetry. apply times_identity, Z.pow_nonneg. lia.
  - rewrite iter_double. do 2 f_equal. lia.
Qed.

Lemma above_all bits windows points : 0 < bits -> 256 <= windows * bits -> Forall scalar_bytes_ok points ->
  above (windows * bits) points = g1_identity.
Proof.
  intros Hb Hw Hp. unfold above. induction Hp as [|[p s] points [Hs H32] _ IH]; [done|]. cbn [map fst snd] in *.
  rewrite g1_sum_cons, IH, g1_id_r. pose proof (from_le_bound s Hs) as Hle. rewrite H32 in Hle.
  rewrite Z.div_small; [done|]. split; [lia|]. eapply Z.lt_le_trans; [apply Hle|].
  change 256 with (2 ^ 8). rewrite <- Z.pow_mul_r by lia. apply Z.pow_le_mono_r; lia.
Qed.

Lemma windowLoop_app windows len bits points acc l l' :
  windowLoop windows len bits points acc (l ++ l')
  = let! acc := windowLoop windows len bits points acc l in windowLoop windows len bits points acc l'.
Proof.
  revert acc. induction l as [|k l IH]; intros acc; [done|]. cbn [app windowLoop].
  destruct (windowRound _ _ _ _ _ _); cbn [bind]; [apply IH | done].
Qed.

Lemma rounds_above bits windows points : 0 < bits <= 16 -> 256 <= windows * bits -> 0 <= windows ->
  Forall scalar_bytes_ok points ->
  forall k, 0 <= k <= windows ->
  windowLoop windows (2 ^ bits) bits points g1_identity (reverse (seqZ k (windows - k))) = Ok (above (k * bits) points).
Proof.
  intros Hb Hw H0 Hp k Hk. replace k with (windows - Z.of_nat (Z.to_nat (windows - k))) by lia.
  set (n := Z.to_nat (windows - k)). assert (Hn : Z.of_nat n <= windows) by lia. clearbody n. clear k Hk.
  induction n as [|n IH].
  - rewrite Z.sub_0_r, Z.sub_diag. cbn. by rewrite above_all by (done || lia).
  - set (k := windows - Z.of_nat (S n)) in *.
    assert (Hs : seqZ k (windows - k) = k :: seqZ (windows - Z.of_nat n) (windows - (windows - Z.of_nat n))).
    { rewrite seqZ_cons by lia. f_equal. f_equal; lia. }
    rewrite Hs, reverse_cons, windowLoop_app, IH by lia. cbn [bind windowLoop].
    erewrite windowRound_step; [reflexivity | lia | done | done | f_equal; lia |].
    intros He. replace (windows - Z.of_nat n) with windows by lia. apply above_all; (done || lia).
Qed.

(** ** The result *)

Lemma le_spec n size : 0 <= n < 256 ^ Z.of_nat size -> from_le (le n size) = n.
Proof. intros Hn. unfold from_le, le. by rewrite reverse_involutive, from_be_be, Z.mod_small. Qed.

Lemma repr_ok s : Forall byte_ok (scalar_to_repr s) /\ blen (scalar_to_repr s) = 32
  /\ forall p, times (from_le (scalar_to_repr s)) p = g1_mul p s.
Proof.
  destruct (scalar_number s) as (n & Hn & -> & Ht). rewrite fr_to_repr by done.
  split_and!; [apply Forall_reverse, be_bytes | unfold le, blen; by rewrite length_reverse, length_be |].
  intros p. rewrite Ht, le_spec; [done|]. pose proof fr_modulus_bounds. change (256 ^ Z.of_nat 32) with (2 ^ 256). lia.
Qed.

Lemma above_repr points scalars :
  above 0 (zip points (map scalar_to_repr scalars)) = combination points scalars.
Proof.
  unfold above, combination. f_equal. revert scalars. induction points as [|p points IH]; intros [|s scalars]; [done..|].
  cbn [map zip zip_with fst snd]. f_equal; [|apply IH]. rewrite Z.pow_0_r, Z.div_1_r. by apply repr_ok.
Qed.

Lemma zip_repr_ok points scalars : Forall scalar_bytes_ok (zip points (map scalar_to_repr scalars)).
Proof.
  revert scalars. induction points as [|p points IH]; intros [|s scalars]; [constructor..|].
  constructor; [|apply IH]. destruct (repr_ok s) as (? & ? & _). done.
Qed.

Lemma combination_take points scalars :
  combination (take (Nat.min (length points) (length scalars)) points) (take (Nat.min (length points) (length scalars)) scalars)
  = combination points scalars.
Proof.
  unfold combination. f_equal. revert scalars. induction points as [|p points IH]; intros [|s scalars]; [done..|].
  cbn [length Nat.min take zip_with]. f_equal. apply IH.
Qed.

Lemma msm_with_window_sum points scalars window_bits : 0 < window_bits <= 16 -> length points = length scalars ->
  msm_pippenger_g1_with_window points scalars window_bits = Ok (combination points scalars).
Proof.
  intros Hb Hlen. unfold msm_pippenger_g1_with_window. rewrite (bool_decide_eq_true_2 _ Hlen), andb_false_r.
  case_bool_decide as Hn.
  - unfold combination. destruct points, scalars; done.
  - cbv zeta. rewrite Z.shiftl_1_l. set (windows := (256 + window_bits - 1) / window_bits).
    assert (Hw : 256 <= windows * window_bits) by (unfold windows; div_lia).
    assert (H0 : 0 <= windows) by (apply Z.div_pos; lia).
    pose proof (rounds_above window_bits windows _ Hb Hw H0
      (zip_repr_ok (take (Nat.min (length points) (length scalars)) points)
         (take (Nat.min (length points) (length scalars)) scalars)) 0 ltac:(lia)) as Hr.
    rewrite Z.sub_0_r, Z.mul_0_l, above_repr, combination_take in Hr. exact Hr.
Qed.

Lemma default_window_bounds n : 3 <= default_pippenger_window_size n <= 12.
Proof. unfold default_pippenger_window_size. repeat case_match; lia. Qed.

Lemma msm_pippenger_sum override points scalars : 0 <= override <= 16 -> length points = length scalars ->
  msm_pippenger_g1 override points scalars = Ok (combination points scalars).
Proof.
  intros Ho Hlen. unfold msm_pippenger_g1, pippenger_window_size.
  destruct (Z.ltb_spec 0 override); apply msm_with_window_sum; [lia | done | | done].
  pose proof (default_window_bounds (Z.of_nat (length points))). lia.
Qed.

(** Windows beyond the size that is asserted, in a build that checks assertions. *)
Lemma fillBuckets_asserts len off bits buckets point points : debug_assertions = true -> 16 < bits ->
  exists e, fillBuckets len off bits buckets (point :: points) = Err e.
Proof.
  intros Hd Hb. destruct point as [p s]. cbn [fillBuckets]. unfold pippenger_window.
  rewrite Hd, (proj2 (Z.leb_gt _ _)), andb_false_r by lia. by eexists.
Qed.

Lemma msm_asserts points scalars bits : debug_assertions = true -> 16 < bits -> length points = length scalars -> points <> [] ->
  exists e, msm_pippenger_g1_with_window points scalars bits = Err e.
Proof.
  intros Hd Hb Hlen Hne. unfold msm_pippenger_g1_with_window. rewrite (bool_decide_eq_true_2 _ Hlen), andb_false_r.
  destruct points as [|p points]; [done|]. destruct scalars as [|s scalars]; [done|].
  rewrite bool_decide_eq_false_2 by done. cbv zeta. set (windows := (256 + bits - 1) / bits).
  assert (Hw : 0 < windows) by (apply Z.div_str_pos; lia).
  assert (Hs : reverse (seqZ 0 windows) = windows - 1 :: reverse (seqZ 0 (windows - 1))).
  { replace windows with ((windows - 1) + 1) at 1 by lia. rewrite seqZ_app, reverse_app by lia. done. }
  rewrite Hs. set (n := Nat.min _ _). set (l := zip (take n (p :: points)) _).
  assert (Hl : exists x l', l = x :: l') by (eexists _, _; reflexivity). destruct Hl as (x & l' & ->).
  cbn [windowLoop]. unfold windowRound. cbv zeta.
  destruct (fillBuckets_asserts (Z.shiftl 1 bits) ((windows - 1) * bits) bits
    (replicate (Z.to_nat (Z.shiftl 1 bits)) g1_identity) x l' Hd Hb) as [e He].
  exists e. by rewrite He.
Qed.

(** C31: For as many points as scalars the bucket method computes the sum of the points, each
    multiplied by its scalar, in every build: with the size of the windows that the number of points chooses, and with
    every size from 1 to 16 bits that is set instead, the sizes that the code asserts.
    With a larger setting, a build that checks assertions fails on any points. *)
Theorem msm_pippenger_correct override points scalars : 0 <= override -> length points = length scalars ->
  (override <= 16 -> msm_pippenger_g1 override points scalars = Ok (combination points scalars))
  /\ (16 < override -> points <> [] -> debug_assertions = true ->
      exists e, msm_pippenger_g1 override points scalars = Err e).
Proof.
  intros Ho Hlen. split; [intros; by apply msm_pippenger_sum|]. intros Hbig Hne Hd.
  unfold msm_pippenger_g1, pippenger_window_size. rewrite (proj2 (Z.ltb_lt _ _)) by lia. by apply msm_asserts.
Qed.
End buckets.

Lemma msm_pippenger_correct_witness :
  @msm_pippenger_g1 _ Exponent.exponent_curve {| debug_assertions := true |} 5 [Exponent.el 3; Exponent.el 10]
    [Exponent.el 1000; Exponent.el 70001]
  = Ok (Exponent.el (3 * 1000 + 10 * 70001)).
Proof.
  destruct (@msm_pippenger_correct _ _ Exponent.exponent_laws {| debug_assertions := true |} 5
    [Exponent.el 3; Exponent.el 10] [Exponent.el 1000; Exponent.el 70001]) as [H _]; [lia | reflexivity |].
  rewrite H by lia. vm_compute. reflexivity.
Defined.
