(* ===== verification/Kzg.v ===== *)
(** * Commitments and opening proofs of the core library

    Models src/polystore_core/src/kzg.rs: the context that a trusted setup loads into,
    commitments of blobs ([blob_to_commitment], [commit_received_blob],
    [mdu_to_kzg_commitments], [commit_blobs_flat]), opening proofs ([compute_proof],
    [verify_proof], for setups of both forms), the Merkle roots and paths of commitments,
    and the proofs that a cell of MDU 0 holds the root of an MDU.

    The curve is class [Curve]; Blake2s and the trees of [rs_merkle] are class
    [MerkleTrees].  [Target] is what a build and its settings choose: WebAssembly or not,
    and the settings of [set_wasm_msm_basis_mode] and [set_pippenger_window_override], which
    the methods of src/polystore_core/src/wasm.rs change; class [Build] (Msm.v) says whether
    debug assertions are checked.
    [g1_points_blst] holds the points of [g1_points] in the form of another package and is
    not kept apart; times that are measured are left out. *)

From S2P Require Import Prelude JsBytes Canonical Challenge FrField Curve Msm.
Local Open Scope Z_scope.

Definition MDU_SIZE : Z := 8 * 1024 * 1024.
Definition BLOB_SIZE : Z := 131072.
Definition BLOBS_PER_MDU : Z := MDU_SIZE / BLOB_SIZE.
Definition SCALARS_PER_BLOB : Z := BLOB_SIZE / 32.
Definition MDU0_ROOT_TABLE_DUS : Z := 16.
Definition MDU0_ROOT_TABLE_CAPACITY : Z := MDU0_ROOT_TABLE_DUS * SCALARS_PER_BLOB.
Definition DOMAIN : nat := Z.to_nat SCALARS_PER_BLOB.

(** [l.chunks_exact(size)] *)
Fixpoint chunksN {A} (count size : nat) (l : list A) : list (list A) :=
  match count with
  | O => []
  | S count => take size l :: chunksN count size (drop size l)
  end.
Definition chunks_exact {A} (size : nat) (l : list A) : list (list A) := chunksN (length l / size) size l.

(** ** Merkle trees *)

(** [while leaves > 1] *)
Fixpoint siblingLoop (fuel : nat) (index leaves count : Z) : Z :=
  match fuel with
  | O => count
  | S fuel =>
      if 1 <? leaves then
        siblingLoop fuel (index / 2) (leaves / 2 + leaves mod 2) (if Z.lxor index 1 <? leaves then count + 1 else count)
      else count
  end.
Definition merkle_sibling_count (index leaves : Z) : result Z :=
  throw_if (leaves =? 0) || (leaves <=? index) with invalid else
  Ok (siblingLoop (Z.to_nat leaves) index leaves 0).

Record RootTablePosition := { rp_mdu_index : Z; rp_root_table_index : Z; rp_root_table_du : Z; rp_root_table_cell : Z }.

Definition root_table_position_for_mdu_index (mdu_index : Z) : result RootTablePosition :=
  throw_if (mdu_index =? 0) || (MDU0_ROOT_TABLE_CAPACITY <? mdu_index) with "InvalidMduIndex" else
  let root_table_index := mdu_index - 1 in
  Ok {| rp_mdu_index := mdu_index; rp_root_table_index := root_table_index;
        rp_root_table_du := root_table_index / SCALARS_PER_BLOB;
        rp_root_table_cell := root_table_index mod SCALARS_PER_BLOB |}.

(** [Blake2s256Hasher::hash], the root of a tree, the bytes of the path of a leaf, and the
    check of a path. *)
Class MerkleTrees := {
  blake2s : bytes -> bytes;
  tree_root : list bytes -> option bytes;
  tree_proof : list bytes -> Z -> bytes;
  tree_verify : list bytes -> bytes -> Z -> bytes -> Z -> bool }.

Section merkle.
Context `{trees : MerkleTrees}.

Definition create_mdu_merkle_root (commitments : list bytes) : result bytes :=
  match tree_root (map blake2s commitments) with
  | Some root => Ok root
  | None => Err "Root not found"
  end.

Definition verify_mdu_merkle_proof (mdu_merkle_root commitment : bytes) (index : Z) (merkle_proof_bytes : bytes)
    (num_leaves : Z) : result bool :=
  throw_if negb (blen mdu_merkle_root =? 32) || negb (blen commitment =? 48) with invalid else
  let! siblings := merkle_sibling_count index num_leaves in
  throw_if negb (blen merkle_proof_bytes =? 32 * siblings) with invalid else
  Ok (tree_verify (chunks_exact 32 merkle_proof_bytes) mdu_merkle_root index (blake2s commitment) num_leaves).
End merkle.

Record Target := { wasm : bool; basis_mode : Z; window_override : Z }.

(** The settings, as the methods of the WebAssembly module change them. *)
Definition set_pippenger_window_bits (bits : Z) (t : Target) : result Target :=
  throw_if bits <? 0 with "window bits must be non-negative" else
  Ok {| wasm := wasm t; basis_mode := basis_mode t; window_override := bits |}.
Definition set_wasm_msm_basis_mode (mode : string) (t : Target) : result Target :=
  let set m := Ok {| wasm := wasm t; basis_mode := m; window_override := window_override t |} in
  if bool_decide (mode = "blst")%string then set 0
  else if bool_decide (mode = "projective")%string then set 2
  else if bool_decide (mode = "affine")%string then set 1
  else Err "basis mode must be 'blst', 'projective' or 'affine'".

Section kzg.
Context `{curve : Curve} `{build : Build}.
Local Open Scope curve_scope.

Record KzgContext := {
  g1_points : list G1; g2_h : G2; g2_tau : G2; g1_generator : G1; g1_points_are_monomial : bool }.

(** The end of [load_from_reader], once the points are read. *)
Definition load_points (g1_base : G1) (g2_eqb : G2 -> G2 -> bool) (g2_base g2_identity : G2) (g1 : list G1) (g2 : list G2)
    : result KzgContext :=
  match g1, g2 with
  | p0 :: p1 :: _, h :: tau :: _ =>
      let monomial := bool_decide (pairing p1 h = pairing p0 tau) in
      let generator := if monomial then p0 else foldl g1_add g1_identity g1 in
      throw_if monomial || negb (bool_decide (generator = g1_base)) || negb (g2_eqb h g2_base)
               || existsb (fun p => bool_decide (p = g1_identity)) g1 || existsb (fun p => g2_eqb p g2_identity) g2
        with "Invalid approved Lagrange setup basis" else
      Ok {| g1_points := g1; g2_h := h; g2_tau := tau; g1_generator := generator; g1_points_are_monomial := monomial |}
  | _, _ => Err "Trusted setup too small"
  end.

(** ** Points and scalars from bytes *)

Definition parse_g1 (bs : bytes) : result G1 :=
  throw_if negb (blen bs =? 48) with invalid else
  match g1_from_compressed bs with Some p => Ok p | None => Err "Invalid G1" end.

Definition parse_scalar (bs : bytes) : result Scalar :=
  throw_if negb (blen bs =? 32) with invalid else
  match scalar_from_bytes (reverse bs) with Some s => Ok s | None => Err "Invalid scalar" end.

(** One chunk of [bytes_to_scalars]. *)
Definition cell_scalar (chunk : bytes) : Scalar :=
  let le := reverse chunk in
  match scalar_from_bytes le with
  | Some s => s
  | None => scalar_from_bytes_wide (le ++ zeros 32)
  end.
Definition bytes_to_scalars (bs : bytes) : list Scalar := map cell_scalar (chunks_exact 32 bs).

Definition reduce_bytes32_to_scalar (bs : bytes) : Scalar := scalar_from_bytes_wide (reverse bs ++ zeros 32).
Definition scalar_to_bytes_be (s : Scalar) : bytes := reverse (scalar_to_repr s).
Definition scalar_for_cell_index (idx : Z) : result Scalar := parse_scalar (z_for_cell idx).

Definition encode_mdu_root_for_root_table (mdu_root_bytes : bytes) : result bytes :=
  throw_if negb (blen mdu_root_bytes =? 32) with invalid else
  Ok (scalar_to_bytes_be (reduce_bytes32_to_scalar mdu_root_bytes)).

(** ** Transforms *)

(** The lowest [bits] bits of [i], reversed. *)
Fixpoint reverse_low (bits : nat) (i acc : Z) : Z :=
  match bits with
  | O => acc
  | S bits => reverse_low bits (i / 2) (2 * acc + i mod 2)
  end.
Definition swapAt (values : list Scalar) (i j : nat) : list Scalar :=
  match values !! i, values !! j with
  | Some a, Some b => <[j := a]> (<[i := b]> values)
  | _, _ => values
  end.
Definition bit_reverse_permute (values : list Scalar) : list Scalar :=
  let n := Z.of_nat (length values) in
  let bits := Z.to_nat (Z.log2 n) in
  foldl (fun values i =>
    let j := reverse_low bits i 0 in
    if i <? j then swapAt values (Z.to_nat i) (Z.to_nat j) else values) values (seqZ 0 n).

(** The butterfly of [values[a]] and [values[b]], with the factor [w]. *)
Definition butterfly (values : list Scalar) (a b : nat) (w : Scalar) : list Scalar :=
  match values !! a, values !! b with
  | Some u, Some x => let v := x * w in <[b := u - v]> (<[a := u + v]> values)
  | _, _ => values
  end.
(** [for j in 0..half] *)
Definition butterflies (values : list Scalar) (i half : nat) (wlen : Scalar) : list Scalar :=
  (foldl (fun '(values, w) j => (butterfly values (i + j) (i + j + half) w, w * wlen))
     (values, scalar_one) (seq 0 half)).1.
(** [while len <= n], from [len = 2 * half] on. *)
Fixpoint fftLoop (fuel : nat) (omega : Scalar) (half : nat) (values : list Scalar) : list Scalar :=
  match fuel with
  | O => values
  | S fuel =>
      let n := length values in
      let len := (2 * half)%nat in
      if (len <=? n)%nat then
        let wlen := scalar_pow omega (n / len) in
        fftLoop fuel omega len
          (foldl (fun values block => butterflies values (block * len) half wlen) values (seq 0 (n / len)))
      else values
  end.
Definition fft_in_place (values : list Scalar) (omega : Scalar) : result (list Scalar) :=
  let n := Z.of_nat (length values) in
  throw_if (n =? 0) || negb (n =? 2 ^ Z.log2 n) with invalid else
  Ok (fftLoop (length values) omega 1 (bit_reverse_permute values)).

(** [Scalar::from(n)] is a sum of ones. *)
Definition scalar_of_nat (n : nat) : Scalar := Nat.iter n (scalar_add scalar_one) scalar_zero.

Definition ifft_in_place (values : list Scalar) (omega : Scalar) : result (list Scalar) :=
  throw_if negb (bool_decide (length values = DOMAIN)) with invalid else
  match scalar_invert omega with
  | None => Err "omega is not invertible"
  | Some omega_inv =>
      let! values := fft_in_place values omega_inv in
      match scalar_invert (scalar_of_nat (length values)) with
      | None => Err "n is not invertible"
      | Some n_inv => Ok (map (fun v => v * n_inv) values)
      end
  end.

(** ** Commitments *)

Definition zero_blob_commitment : bytes := g1_to_compressed g1_identity.

(** [msm_blst_g1_commitment_from_blob_profiled], on either target; its debug assertion on
    the length of the blob is checked by the callers before. *)
Definition msm_blst_g1_commitment_from_blob (points : list G1) (blob_bytes : bytes) : bytes :=
  let cells := chunks_exact 32 blob_bytes in
  let n := Nat.min (length points) (length cells) in
  if bool_decide (n = 0%nat) then zero_blob_commitment else
  g1_to_compressed (blst_mult (take n points) (map (@reverse Z) (take n cells))).

(** The points and scalars that are not zero. *)
Definition nonzero_terms (points : list G1) (scalars : list Scalar) : list (G1 * Scalar) :=
  List.filter (fun '(_, s) => negb (bool_decide (s = scalar_zero))) (zip points scalars).

Section context.
Context (target : Target) (ctx : KzgContext).

Definition msm_nonzero (terms : list (G1 * Scalar)) : result G1 :=
  if bool_decide (terms = []) then Ok g1_identity
  else msm_pippenger_g1 (window_override target) terms.*1 terms.*2.

Definition blob_to_commitment (blob_bytes : bytes) : result bytes :=
  throw_if negb (blen blob_bytes =? BLOB_SIZE)%Z with invalid else
  if forallb (fun b => b =? 0)%Z blob_bytes then Ok zero_blob_commitment else
  if g1_points_are_monomial ctx then
    let! omega := scalar_for_cell_index 1 in
    let! coeffs := ifft_in_place (bytes_to_scalars blob_bytes) omega in
    let! acc := msm_nonzero (nonzero_terms (g1_points ctx) coeffs) in
    Ok (g1_to_compressed acc)
  else if wasm target && ((basis_mode target =? 1) || (basis_mode target =? 2))%Z then
    let! acc := msm_pippenger_g1 (window_override target) (g1_points ctx) (bytes_to_scalars blob_bytes) in
    Ok (g1_to_compressed acc)
  else Ok (msm_blst_g1_commitment_from_blob (g1_points ctx) blob_bytes).

Definition commit_received_blob (blob : bytes) : result bytes :=
  throw_if negb (blen blob =? BLOB_SIZE)%Z with invalid else
  let! _ := mapR parse_scalar (chunks_exact 32 blob) in
  blob_to_commitment blob.

Definition mdu_to_kzg_commitments (mdu_bytes : bytes) : result (list bytes) :=
  throw_if negb (blen mdu_bytes =? MDU_SIZE)%Z with "InvalidMduSize" else
  mapR blob_to_commitment (chunksN (Z.to_nat BLOBS_PER_MDU) (Z.to_nat BLOB_SIZE) mdu_bytes).

(** [commit_blobs_flat_impl]: WebAssembly with its default setting goes to [blst] directly. *)
Definition commit_blobs_flat (blobs_flat : bytes) : result bytes :=
  throw_if negb (blen blobs_flat mod BLOB_SIZE =? 0)%Z with invalid else
  let blobs := chunks_exact (Z.to_nat BLOB_SIZE) blobs_flat in
  if wasm target && negb (g1_points_are_monomial ctx) && (basis_mode target =? 0)%Z then
    Ok (concat (map (fun blob => if forallb (fun b => b =? 0)%Z blob then zero_blob_commitment
                                 else msm_blst_g1_commitment_from_blob (g1_points ctx) blob) blobs))
  else let! commitments := mapR blob_to_commitment blobs in Ok (concat commitments).

(** ** Opening proofs *)

(** [y *= z; y += coeff], the highest coefficient first *)
Definition horner (z : Scalar) (coeffs : list Scalar) : Scalar :=
  foldl (fun y coeff => y * z + coeff) scalar_zero (reverse coeffs).
(** The list [b] of the synthetic division. *)
Fixpoint synthetic (z : Scalar) (coeffs : list Scalar) : list Scalar :=
  match coeffs with
  | [] => []
  | c :: coeffs =>
      match synthetic z coeffs with
      | [] => [c]
      | b :: bs => (c + b * z) :: b :: bs
      end
  end.

Definition prove_monomial (blob_bytes : bytes) (z : Scalar) : result (bytes * bytes) :=
  let! omega := scalar_for_cell_index 1 in
  let! coeffs := ifft_in_place (bytes_to_scalars blob_bytes) omega in
  let y := horner z coeffs in
  let b := synthetic z coeffs in
  let! proof := msm_nonzero (nonzero_terms (g1_points ctx) (drop 1 b)) in
  Ok (g1_to_compressed proof, scalar_to_bytes_be y).

(** [x *= omega], [n] times from [x] *)
Fixpoint powersFrom (x omega : Scalar) (n : nat) : list Scalar :=
  match n with
  | O => []
  | S n => x :: powersFrom (x * omega) omega n
  end.

Fixpoint find_index (z : Scalar) (domain : list Scalar) : option nat :=
  match domain with
  | [] => None
  | x :: domain => if bool_decide (x = z) then Some 0%nat else S <$> find_index z domain
  end.

(** The sums of the barycentric formula. *)
Definition barycentric (evals domain inverses : list Scalar) : Scalar * Scalar :=
  foldl (fun '(num, den) '(fi, (xi, inv)) => let t := - xi * inv in (num + fi * t, den + t))
    (scalar_zero, scalar_zero) (zip evals (zip domain inverses)).

(** [for i in 0..4096] when [z] is the [k]-th point of the domain. *)
Fixpoint inDomain (i k : nat) (y : Scalar) (terms : list (Scalar * (Scalar * Scalar))) (sum : Scalar)
    : list Scalar * Scalar :=
  match terms with
  | [] => ([], sum)
  | (fi, (xi, inv)) :: terms =>
      if bool_decide (i = k) then let '(qs, sum) := inDomain (S i) k y terms sum in (inv :: qs, sum)
      else
        let qi := (fi - y) * inv in
        let '(qs, sum) := inDomain (S i) k y terms (sum + qi * xi) in (qi :: qs, sum)
  end.

Definition quotient (evals domain : list Scalar) (z : Scalar) : result (Scalar * list Scalar) :=
  let inverses := batch_invert (map (fun xi => xi - z) domain) in
  match find_index z domain with
  | Some k =>
      let y := nth k evals scalar_zero in
      let '(q_evals, sum) := inDomain 0 k y (zip evals (zip domain inverses)) scalar_zero in
      match scalar_invert z with
      | None => Err "domain point must be invertible"
      | Some inv_z => Ok (y, <[k := - sum * inv_z]> q_evals)
      end
  | None =>
      let '(num, den) := barycentric evals domain inverses in
      match scalar_invert den with
      | None => Err "barycentric denominator is not invertible"
      | Some den_inv =>
          let y := num * den_inv in
          Ok (y, zip_with (fun inv fi => inv * (fi - y)) inverses evals)
      end
  end.

Definition prove_lagrange (blob_bytes : bytes) (z : Scalar) : result (bytes * bytes) :=
  let evals := bytes_to_scalars blob_bytes in
  let! omega := scalar_for_cell_index 1 in
  let domain := powersFrom scalar_one omega DOMAIN in
  let! yq := quotient evals domain z in
  let '(y, q_evals) := yq in
  let! proof := if wasm target then msm_pippenger_g1 (window_override target) (g1_points ctx) q_evals
                else Ok (blst_mult (g1_points ctx) (map scalar_to_repr q_evals)) in
  Ok (g1_to_compressed proof, scalar_to_bytes_be y).

Definition compute_proof (blob_bytes input_point_bytes : bytes) : result (bytes * bytes) :=
  throw_if negb (blen blob_bytes =? BLOB_SIZE)%Z with invalid else
  throw_if negb (blen input_point_bytes =? 32)%Z with invalid else
  let! z := parse_scalar input_point_bytes in
  if g1_points_are_monomial ctx then prove_monomial blob_bytes z else prove_lagrange blob_bytes z.

Definition verify_proof (commitment_bytes input_point_bytes claimed_value_bytes proof_bytes : bytes) : result bool :=
  let! commitment := parse_g1 commitment_bytes in
  let! proof := parse_g1 proof_bytes in
  let! z := parse_scalar input_point_bytes in
  let! y := parse_scalar claimed_value_bytes in
  let s_min_z := g2_sub (g2_tau ctx) (g2_mul (g2_h ctx) z) in
  let c_min_y := g1_add commitment (g1_neg (g1_mul (g1_generator ctx) y)) in
  Ok (bool_decide (pairing proof s_min_z = pairing c_min_y (g2_h ctx))).

(** ** Proofs of the table of roots *)

Definition compute_manifest_commitment (mdu_roots : list bytes) : result (bytes * bytes) :=
  let! cells := mapR encode_mdu_root_for_root_table (take 4096 mdu_roots) in
  let blob_bytes := concat cells ++ zeros (BLOB_SIZE - blen (concat cells)) in
  let! commitment := blob_to_commitment blob_bytes in
  Ok (commitment, blob_bytes).

Definition verify_manifest_inclusion (manifest_commitment_bytes mdu_root_bytes : bytes) (mdu_index : Z)
    (proof_bytes : bytes) : result bool :=
  if (4096 <=? mdu_index)%Z then Ok false else
  throw_if negb (blen mdu_root_bytes =? 32)%Z || negb (blen proof_bytes =? 48)%Z with invalid else
  let! y_bytes := encode_mdu_root_for_root_table mdu_root_bytes in
  verify_proof manifest_commitment_bytes (z_for_cell mdu_index) y_bytes proof_bytes.

Record Mdu0RootTableProof := {
  tp_position : RootTablePosition; tp_target_mdu_root : bytes; tp_root_table_du_commitment : bytes;
  tp_root_table_du_merkle_proof : bytes; tp_root_table_opening_proof : bytes; tp_root_table_opening_y : bytes }.

Context `{trees : MerkleTrees}.

Definition compute_mdu0_root_table_proof (mdu0_bytes : bytes) (mdu_index : Z) (target_mdu_root_bytes : bytes)
    : result Mdu0RootTableProof :=
  throw_if negb (blen mdu0_bytes =? MDU_SIZE)%Z || negb (blen target_mdu_root_bytes =? 32)%Z with invalid else
  let! position := root_table_position_for_mdu_index mdu_index in
  let! expected_y := encode_mdu_root_for_root_table target_mdu_root_bytes in
  let! commitments := mdu_to_kzg_commitments mdu0_bytes in
  let du := rp_root_table_du position in
  let root_table_du_commitment := nth (Z.to_nat du) commitments [] in
  let merkle_proof := tree_proof (map blake2s commitments) du in
  let start := (du * BLOB_SIZE)%Z in
  let blob := subarray mdu0_bytes start (start + BLOB_SIZE)%Z in
  let! opening := compute_proof blob (z_for_cell (rp_root_table_cell position)) in
  throw_if negb (bool_decide (opening.2 = expected_y)) with "root-table cell does not match target MDU root" else
  Ok {| tp_position := position; tp_target_mdu_root := target_mdu_root_bytes;
        tp_root_table_du_commitment := root_table_du_commitment; tp_root_table_du_merkle_proof := merkle_proof;
        tp_root_table_opening_proof := opening.1; tp_root_table_opening_y := opening.2 |}.

Definition verify_mdu0_root_table_proof (polyfs_root_bytes : bytes) (mdu_index : Z)
    (target_mdu_root_bytes root_table_du_commitment_bytes root_table_du_merkle_proof_bytes
     root_table_opening_proof_bytes : bytes) : result bool :=
  throw_if negb (blen polyfs_root_bytes =? 32)%Z || negb (blen target_mdu_root_bytes =? 32)%Z
           || negb (blen root_table_du_commitment_bytes =? 48)%Z || negb (blen root_table_opening_proof_bytes =? 48)%Z
    with invalid else
  let! position := root_table_position_for_mdu_index mdu_index in
  let! merkle_ok := verify_mdu_merkle_proof polyfs_root_bytes root_table_du_commitment_bytes (rp_root_table_du position)
    root_table_du_merkle_proof_bytes BLOBS_PER_MDU in
  if negb merkle_ok then Ok false else
  let! expected_y := encode_mdu_root_for_root_table target_mdu_root_bytes in
  verify_proof root_table_du_commitment_bytes (z_for_cell (rp_root_table_cell position)) expected_y
    root_table_opening_proof_bytes.
End context.
End kzg.
