(* ===== verification/KzgProof.v ===== *)
(** * Opening proofs verify

    Theory of Kzg.v.  A blob lists the values of a polynomial on the 4096 powers of a root
    of unity; [lagrange] is the basis of such polynomials and [evaluate] the polynomial
    itself.  Shown: the quotient that [compute_proof] computes, inside and outside the
    domain, is the quotient of that polynomial, its barycentric formula never divides by
    zero, and the opening that is computed verifies against the commitment of the blob. *)

From S2P Require Import Prelude JsBytes Canonical Challenge FrField Curve Msm Kzg.
From Stdlib Require Import Ring.
Local Open Scope Z_scope.

Section lagrange.
Context `{laws : CurveLaws}.
Local Open Scope curve_scope.
Add Ring scalars : scalar_ring.

(** A domain: the powers of a root of unity of order [n]. *)
Context (n : nat) (omega omega_inv n_inv : Scalar).

(** The sum over the domain. *)
Definition total (f : nat -> Scalar) : Scalar := scalar_sum (map f (seq 0 n)).

(** The [i]-th polynomial of the basis at [x]: it is 1 at the [i]-th point of the domain,
    and 0 at the others. *)
Definition lagrange (i : nat) (x : Scalar) : Scalar :=
  n_inv * total (fun j => scalar_pow (x * scalar_pow omega_inv i) j).

(** The polynomial with the values [evals] on the domain. *)
Definition evaluate (evals : list Scalar) (x : Scalar) : Scalar :=
  total (fun i => nth i evals scalar_zero * lagrange i x).

(** What makes [omega] a root of unity of order [n]. *)
Record root_of_unity : Prop := {
  ru_inv : omega * omega_inv = scalar_one;
  ru_pow : scalar_pow omega n = scalar_one;
  ru_order : forall m, (0 < m < n)%nat -> scalar_pow omega m <> scalar_one;
  ru_n : n_inv * scalar_of_nat n = scalar_one }.

Lemma total_ext f g : (forall i, (i < n)%nat -> f i = g i) -> total f = total g.
Proof. intros H. unfold total. f_equal. apply map_ext_in. intros i Hi%in_seq. apply H. lia. Qed.
Lemma total_mul c f : total (fun i => c * f i) = c * total f.
Proof. apply scalar_sum_mul_l. Qed.
Lemma total_add f g : total (fun i => f i + g i) = total f + total g.
Proof. apply scalar_sum_add. Qed.
Lemma total_zero f : (forall i, (i < n)%nat -> f i = scalar_zero) -> total f = scalar_zero.
Proof. intros H. apply scalar_sum_zero. intros i Hi%list_elem_of_In%in_seq. apply H. lia. Qed.

Lemma sum_swap (f : nat -> nat -> Scalar) l l' :
  scalar_sum (map (fun i => scalar_sum (map (f i) l')) l) = scalar_sum (map (fun j => scalar_sum (map (fun i => f i j) l)) l').
Proof.
  induction l as [|i l IH]; cbn [map].
  - symmetry. by apply scalar_sum_zero.
  - change (scalar_sum (?a :: ?r)) with (a + scalar_sum r). rewrite IH, <- scalar_sum_add. done.
Qed.
Lemma total_swap f : total (fun i => total (fun j => f i j)) = total (fun j => total (fun i => f i j)).
Proof. apply sum_swap. Qed.

(** A sum with one term of interest. *)
Lemma total_single k f : (k < n)%nat -> (forall i, (i < n)%nat -> i <> k -> f i = scalar_zero) -> total f = f k.
Proof.
  intros Hk H. unfold total. replace n with (k + S (n - k - 1))%nat by lia.
  rewrite seq_app, map_app, scalar_sum_app. cbn [seq map]. rewrite Nat.add_0_l.
  change (scalar_sum (?a :: ?r)) with (a + scalar_sum r).
  rewrite !scalar_sum_zero; [ring | |]; intros i Hi%list_elem_of_In%in_seq; apply H; lia.
Qed.

Lemma total_ones : total (fun _ => scalar_one) = scalar_of_nat n.
Proof.
  unfold total, scalar_of_nat. generalize 0%nat. induction n as [|m IH]; intros s; [done|].
  cbn [seq map]. change (scalar_sum (?a :: ?r)) with (a + scalar_sum r). by rewrite IH.
Qed.

Lemma geometric t : (t - scalar_one) * total (fun j => scalar_pow t j) = scalar_pow t n - scalar_one.
Proof.
  unfold total. induction n as [|m IH]; [cbn; ring|].
  rewrite seq_S, map_app, scalar_sum_app. cbn [map]. rewrite Nat.add_0_l.
  change (scalar_sum [?a]) with (a + scalar_zero). rewrite scalar_pow_S.
  transitivity ((t - scalar_one) * scalar_sum (map (fun j => scalar_pow t j) (seq 0 m)) + (t - scalar_one) * scalar_pow t m); [ring|].
  rewrite IH. ring.
Qed.

Lemma pow_product s t m : scalar_pow (s * t) m = scalar_pow s m * scalar_pow t m.
Proof. induction m as [|m IH]; [cbn; ring|]. rewrite !scalar_pow_S, IH. ring. Qed.

Lemma pow_swap s i j : scalar_pow (scalar_pow s i) j = scalar_pow (scalar_pow s j) i.
Proof. by rewrite <- !scalar_pow_mul, Nat.mul_comm. Qed.

Context (root : root_of_unity).

Lemma pow_inverse i : scalar_pow omega i * scalar_pow omega_inv i = scalar_one.
Proof. by rewrite <- pow_product, (ru_inv root), scalar_pow_one. Qed.

Lemma inverse_pow : scalar_pow omega_inv n = scalar_one.
Proof. pose proof (pow_inverse n) as H. rewrite (ru_pow root) in H. rewrite <- H. ring. Qed.

Lemma inverse_order m : (0 < m < n)%nat -> scalar_pow omega_inv m <> scalar_one.
Proof.
  intros Hm H. pose proof (pow_inverse m) as Hi. rewrite H in Hi. apply (ru_order root m Hm). rewrite <- Hi. ring.
Qed.

Lemma domain_distinct i j : (i < n)%nat -> (j < n)%nat -> scalar_pow omega i = scalar_pow omega j -> i = j.
Proof.
  intros Hi Hj H.
  assert (Hlt : forall a b, (a < b < n)%nat -> scalar_pow omega a <> scalar_pow omega b).
  { intros a b Hab He. apply (ru_order root (b - a)); [lia|].
    replace b with ((b - a) + a)%nat in He by lia. rewrite scalar_pow_add in He.
    pose proof (pow_inverse a) as Ha.
    transitivity (scalar_pow omega (b - a) * (scalar_pow omega a * scalar_pow omega_inv a)); [rewrite Ha; ring|].
    transitivity (scalar_pow omega (b - a) * scalar_pow omega a * scalar_pow omega_inv a); [ring|]. by rewrite <- He. }
  destruct (Nat.lt_trichotomy i j) as [Hl|[He|Hl]]; [|done|]; exfalso; eapply Hlt; (done || eauto).
Qed.

(** [L_i(x) (x - x_i) = x_i (x^n - 1) / n] *)
Lemma lagrange_root i x :
  lagrange i x * (x - scalar_pow omega i) = scalar_pow omega i * n_inv * (scalar_pow x n - scalar_one).
Proof.
  unfold lagrange. set (u := scalar_pow omega_inv i). set (xi := scalar_pow omega i).
  assert (Hxu : xi * u = scalar_one) by apply pow_inverse.
  assert (Hx : x - xi = xi * (x * u - scalar_one)).
  { transitivity (x * (xi * u) - xi); [rewrite Hxu; ring | ring]. }
  rewrite Hx. transitivity (n_inv * xi * ((x * u - scalar_one) * total (fun j => scalar_pow (x * u) j))); [ring|].
  rewrite geometric, pow_product. replace (scalar_pow u n) with scalar_one; [ring|].
  unfold u. rewrite pow_swap, inverse_pow. symmetry. apply scalar_pow_one.
Qed.

Lemma column_sum j : (j < n)%nat -> j <> 0%nat -> total (fun i => scalar_pow (scalar_pow omega_inv i) j) = scalar_zero.
Proof.
  intros Hj Hj0. rewrite (total_ext _ (fun i => scalar_pow (scalar_pow omega_inv j) i)) by (intros; apply pow_swap).
  pose proof (geometric (scalar_pow omega_inv j)) as H. rewrite pow_swap, inverse_pow, scalar_pow_one in H.
  assert (Hz : scalar_one - scalar_one = scalar_zero) by ring. rewrite Hz in H.
  apply scalar_integral in H as [H|H]; [|done]. apply scalar_sub_eq in H. by apply inverse_order in H; [|lia].
Qed.

(** The basis sums to 1. *)
Lemma lagrange_sum x : (0 < n)%nat -> total (fun i => lagrange i x) = scalar_one.
Proof.
  intros Hn. unfold lagrange. rewrite total_mul, total_swap.
  rewrite (total_single 0%nat _ Hn).
  - rewrite (total_ext _ (fun _ => scalar_one)) by done. rewrite total_ones. apply (ru_n root).
  - intros j Hj Hj0.
    rewrite (total_ext _ (fun i => scalar_pow x j * scalar_pow (scalar_pow omega_inv i) j)) by (intros; apply pow_product).
    rewrite total_mul, column_sum by done. ring.
Qed.

Lemma lagrange_other i k : (i < n)%nat -> (k < n)%nat -> i <> k -> lagrange i (scalar_pow omega k) = scalar_zero.
Proof.
  intros Hi Hk Hne. pose proof (lagrange_root i (scalar_pow omega k)) as H.
  rewrite pow_swap, (ru_pow root), scalar_pow_one in H.
  assert (Hz : lagrange i (scalar_pow omega k) * (scalar_pow omega k - scalar_pow omega i) = scalar_zero) by (rewrite H; ring).
  apply scalar_integral in Hz as [|Hz]; [done|]. apply scalar_sub_eq, domain_distinct in Hz; (done || congruence).
Qed.

(** The polynomial takes the values it was given. *)
Lemma evaluate_domain evals k : (k < n)%nat -> evaluate evals (scalar_pow omega k) = nth k evals scalar_zero.
Proof.
  intros Hk. pose proof (lagrange_sum (scalar_pow omega k) ltac:(lia)) as H1.
  rewrite (total_single k) in H1; [|done|intros; by apply lagrange_other].
  unfold evaluate. rewrite (total_single k); [rewrite H1; ring | done |].
  intros i Hi Hne. rewrite lagrange_other by done. ring.
Qed.

(** ** Quotients *)

(** [q] is the quotient of [evals - y] by [x - z], on the domain. *)
Record is_quotient (evals : nat -> Scalar) (z y : Scalar) (q : nat -> Scalar) : Prop := {
  iq_points : forall i, (i < n)%nat -> q i * (scalar_pow omega i - z) = evals i - y;
  iq_top : total (fun i => q i * scalar_pow omega i) = scalar_zero }.

(** The quotient is one of polynomials: at every point. *)
Lemma quotient_identity evals z y q x : (0 < n)%nat -> is_quotient evals z y q ->
  total (fun i => q i * lagrange i x) * (x - z) = total (fun i => evals i * lagrange i x) - y.
Proof.
  intros Hn [Hq Ht].
  transitivity (total (fun i => q i * lagrange i x * (x - z))).
  { rewrite (total_ext (fun i => q i * lagrange i x * (x - z)) (fun i => (x - z) * (q i * lagrange i x))) by (intros; ring).
    rewrite total_mul. ring. }
  rewrite (total_ext _ (fun i => n_inv * (scalar_pow x n - scalar_one) * (q i * scalar_pow omega i)
    + (evals i * lagrange i x + - y * lagrange i x))).
  - rewrite total_add, total_mul, Ht, total_add, total_mul, (lagrange_sum x Hn). ring.
  - intros i Hi. transitivity (q i * (lagrange i x * (x - scalar_pow omega i)) + q i * (scalar_pow omega i - z) * lagrange i x); [ring|].
    rewrite lagrange_root, Hq by done. ring.
Qed.

(** Outside the domain a value and a sum that is zero give the value of the polynomial. *)
Lemma barycentric_denominator z inv : (0 < n)%nat ->
  (forall i, (i < n)%nat -> inv i * (scalar_pow omega i - z) = scalar_one) ->
  total (fun i => - scalar_pow omega i * inv i) <> scalar_zero
  /\ forall evals, evaluate evals z * total (fun i => - scalar_pow omega i * inv i)
                   = total (fun i => nth i evals scalar_zero * (- scalar_pow omega i * inv i)).
Proof.
  intros Hn Hinv. set (c := n_inv * (scalar_pow z n - scalar_one)).
  assert (HL : forall i, (i < n)%nat -> lagrange i z = c * (- scalar_pow omega i * inv i)).
  { intros i Hi. pose proof (lagrange_root i z) as H. specialize (Hinv i Hi).
    transitivity (lagrange i z * (z - scalar_pow omega i) * (- inv i)).
    - transitivity (lagrange i z * (inv i * (scalar_pow omega i - z))); [rewrite Hinv; ring | ring].
    - rewrite H. unfold c. ring. }
  pose proof (lagrange_sum z Hn) as Hs. rewrite (total_ext _ _ HL), total_mul in Hs. split.
  - intros H0. rewrite H0 in Hs. apply scalar_one_not_zero. rewrite <- Hs. ring.
  - intros evals. unfold evaluate.
    rewrite (total_ext _ (fun i => c * (nth i evals scalar_zero * (- scalar_pow omega i * inv i)))) by
      (intros i Hi; rewrite HL by done; ring).
    rewrite total_mul. set (T := total _) in *. set (U := total _).
    transitivity (c * T * U); [ring|]. rewrite Hs. ring.
Qed.

(** ** The computed quotient *)

Lemma powersFrom_map x m s : powersFrom (x * scalar_pow omega s) omega m = map (fun i => x * scalar_pow omega i) (seq s m).
Proof.
  revert s. induction m as [|m IH]; intros s; [done|]. cbn [powersFrom seq map]. f_equal. rewrite <- IH. f_equal.
  rewrite scalar_pow_S. ring.
Qed.
Lemma domain_map : powersFrom scalar_one omega n = map (scalar_pow omega) (seq 0 n).
Proof.
  replace scalar_one with (scalar_one * scalar_pow omega 0) at 1 by (cbn; ring). rewrite powersFrom_map.
  apply map_ext. intros i. ring.
Qed.

Lemma map_nth_seq (l : list Scalar) : length l = n -> l = map (fun i => nth i l scalar_zero) (seq 0 n).
Proof.
  intros <-. clear. apply nth_ext with (d := scalar_zero) (d' := scalar_zero); [by rewrite length_map, length_seq|].
  intros i Hi. rewrite nth_lookup, nth_lookup. change (map ?f ?x) with (f <$> x).
  rewrite list_lookup_fmap, lookup_seq_lt by done. cbn. by rewrite nth_lookup.
Qed.

Lemma find_index_spec z s m :
  match find_index z (map (scalar_pow omega) (seq s m)) with
  | Some k => (k < m)%nat /\ scalar_pow omega (s + k) = z
  | None => forall i, (i < m)%nat -> scalar_pow omega (s + i) <> z
  end.
Proof.
  revert s. induction m as [|m IH]; intros s; [intros i Hi; lia|]. cbn [seq map find_index]. case_bool_decide as He.
  - split; [lia | by rewrite Nat.add_0_r].
  - specialize (IH (S s)). destruct (find_index z _) as [k|]; cbn.
    + destruct IH as [Hk Hz]. split; [lia|]. by rewrite <- Nat.add_succ_comm.
    + intros [|i] Hi; [by rewrite Nat.add_0_r|]. rewrite <- Nat.add_succ_comm. apply IH. lia.
Qed.

(** The terms that the loops go through. *)
Definition terms (f inv : nat -> Scalar) (s m : nat) : list (Scalar * (Scalar * Scalar)) :=
  map (fun i => (f i, (scalar_pow omega i, inv i))) (seq s m).

Lemma terms_zip f inv s m :
  zip (map f (seq s m)) (zip (map (scalar_pow omega) (seq s m)) (map inv (seq s m))) = terms f inv s m.
Proof. revert s. induction m as [|m IH]; intros s; [done|]. cbn. f_equal. apply IH. Qed.

Lemma evals_terms evals inv : length evals = n ->
  zip evals (zip (map (scalar_pow omega) (seq 0 n)) (map inv (seq 0 n))) = terms (fun i => nth i evals scalar_zero) inv 0 n.
Proof. intros Hl. rewrite <- terms_zip. f_equal. by apply map_nth_seq. Qed.

Lemma barycentric_terms f inv s m a b :
  foldl (fun '(num, den) '(fi, (xi, inv)) => let t := - xi * inv in (num + fi * t, den + t)) (a, b) (terms f inv s m)
  = (a + scalar_sum (map (fun i => f i * (- scalar_pow omega i * inv i)) (seq s m)),
     b + scalar_sum (map (fun i => - scalar_pow omega i * inv i) (seq s m))).
Proof.
  revert s a b. induction m as [|m IH]; intros s a b; [cbn; f_equal; ring|].
  cbn [terms seq map foldl]. fold (terms f inv (S s) m). rewrite IH. change (scalar_sum (?a :: ?r)) with (a + scalar_sum r). f_equal; ring.
Qed.

Lemma inDomain_terms f inv k y s m a :
  inDomain s k y (terms f inv s m) a
  = (map (fun i => if bool_decide (i = k) then inv i else (f i - y) * inv i) (seq s m),
     a + scalar_sum (map (fun i => if bool_decide (i = k) then scalar_zero else (f i - y) * inv i * scalar_pow omega i) (seq s m))).
Proof.
  revert s a. induction m as [|m IH]; intros s a; [cbn; f_equal; ring|].
  cbn [terms seq map inDomain]. change (scalar_sum (?a :: ?r)) with (a + scalar_sum r).
  case_bool_decide; fold (terms f inv (S s) m); rewrite IH; f_equal; ring.
Qed.

Lemma insert_map_seq (f : nat -> Scalar) k v s m : <[k := v]> (map f (seq s m)) = map (fun i => if bool_decide (i = (s + k)%nat) then v else f i) (seq s m).
Proof.
  revert s k. induction m as [|m IH]; intros s k; [done|]. cbn [seq map]. destruct k as [|k].
  - change (<[0%nat := v]> (?a :: ?l)) with (v :: l). rewrite Nat.add_0_r, bool_decide_eq_true_2 by done. f_equal.
    apply map_ext_in. intros i Hi%in_seq. by rewrite bool_decide_eq_false_2 by lia.
  - change (<[S k := v]> (?a :: ?l)) with (a :: <[k := v]> l). rewrite IH, bool_decide_eq_false_2 by lia. f_equal.
    apply map_ext_in. intros i Hi. by rewrite (bool_decide_ext (i = (S s + k)%nat) (i = (s + S k)%nat)) by lia.
Qed.

Lemma inverse_at z i : scalar_pow omega i <> z ->
  default (scalar_pow omega i - z) (scalar_invert (scalar_pow omega i - z)) * (scalar_pow omega i - z) = scalar_one.
Proof.
  intros Hne. destruct (fr_invert (scalar_pow omega i - z)) as (u & -> & Hu); [by intros ?%scalar_sub_eq|].
  cbn. rewrite <- Hu. ring.
Qed.

Definition inverse_of (z : Scalar) (i : nat) : Scalar :=
  default (scalar_pow omega i - z) (scalar_invert (scalar_pow omega i - z)).

(** Inside the domain, the value is read and the top coefficient is made zero. *)
Lemma quotient_inside f k u sum : (k < n)%nat -> scalar_pow omega k * u = scalar_one ->
  let z := scalar_pow omega k in let inv := inverse_of z in
  sum = total (fun i => if bool_decide (i = k) then scalar_zero else (f i - f k) * inv i * scalar_pow omega i) ->
  is_quotient f z (f k) (fun i => if bool_decide (i = k) then - sum * u
    else if bool_decide (i = k) then inv i else (f i - f k) * inv i).
Proof.
  intros Hk Hu z inv Hsum. split.
  - intros i Hi. case_bool_decide as He; [subst i; unfold z; ring|].
    transitivity ((f i - f k) * (inv i * (scalar_pow omega i - z))); [ring|].
    unfold inv, inverse_of. rewrite inverse_at; [ring|]. intros Hp. by apply domain_distinct in Hp.
  - rewrite (total_ext _ (fun i => (if bool_decide (i = k) then - sum else scalar_zero)
      + (if bool_decide (i = k) then scalar_zero else (f i - f k) * inv i * scalar_pow omega i))).
    + rewrite total_add, <- Hsum, (total_single k _ Hk); [rewrite bool_decide_eq_true_2 by done; ring|].
      intros i _ Hne. by rewrite bool_decide_eq_false_2.
    + intros i _. case_bool_decide as He; [subst i|ring].
      transitivity (- sum * (scalar_pow omega k * u)); [ring|]. rewrite Hu. ring.
Qed.

(** Outside the domain, the value is that of the barycentric formula. *)
Lemma quotient_outside evals z : (0 < n)%nat -> (forall i, (i < n)%nat -> scalar_pow omega i <> z) ->
  let f i := nth i evals scalar_zero in let inv := inverse_of z in
  is_quotient f z (evaluate evals z) (fun i => inv i * (f i - evaluate evals z)).
Proof.
  intros Hn Hne f inv.
  assert (Hinv : forall i, (i < n)%nat -> inv i * (scalar_pow omega i - z) = scalar_one).
  { intros i Hi. apply inverse_at, Hne, Hi. }
  destruct (barycentric_denominator z inv Hn Hinv) as [_ Hval]. specialize (Hval evals). split.
  - intros i Hi. transitivity ((f i - evaluate evals z) * (inv i * (scalar_pow omega i - z))); [ring|].
    rewrite Hinv by done. ring.
  - rewrite (total_ext _ (fun i => evaluate evals z * (- scalar_pow omega i * inv i)
      + - scalar_one * (f i * (- scalar_pow omega i * inv i)))) by (intros; ring).
    rewrite total_add, !total_mul. unfold f. rewrite <- Hval. ring.
Qed.

Lemma quotients_map (inv f : nat -> Scalar) y s m :
  zip_with (fun inv fi => inv * (fi - y)) (map inv (seq s m)) (map f (seq s m)) = map (fun i => inv i * (f i - y)) (seq s m).
Proof. revert s. induction m as [|m IH]; intros s; [done|]. cbn. f_equal. apply IH. Qed.

(** The quotient is computed, and its value is that of the polynomial. *)
Lemma quotient_spec evals z : (0 < n)%nat -> length evals = n ->
  exists q, quotient evals (powersFrom scalar_one omega n) z = Ok (evaluate evals z, map q (seq 0 n))
    /\ is_quotient (fun i => nth i evals scalar_zero) z (evaluate evals z) q.
Proof.
  intros Hn Hl. unfold quotient. rewrite domain_map, fr_batch_invert, !map_map.
  change (fun x => default _ _) with (inverse_of z). set (f := fun i => nth i evals scalar_zero).
  pose proof (find_index_spec z 0 n) as Hf. destruct (find_index z _) as [k|].
  - destruct Hf as [Hk Hz]. rewrite Nat.add_0_l in Hz. subst z. rewrite evaluate_domain by done.
    rewrite evals_terms, inDomain_terms by done. change (nth k evals scalar_zero) with (f k).
    destruct (fr_invert (scalar_pow omega k)) as (u & -> & Hu).
    { intros H0. pose proof (pow_inverse k) as Hi. rewrite H0 in Hi. apply scalar_one_not_zero. rewrite <- Hi. ring. }
    rewrite insert_map_seq, Nat.add_0_l. eexists. split; [reflexivity|].
    apply quotient_inside; [done | done |]. apply (Radd_0_l scalar_ring).
  - unfold barycentric. rewrite evals_terms, barycentric_terms by done.
    assert (Hinv : forall i, (i < n)%nat -> inverse_of z i * (scalar_pow omega i - z) = scalar_one).
    { intros i Hi. apply inverse_at, Hf, Hi. }
    destruct (barycentric_denominator z (inverse_of z) Hn Hinv) as [Hden Hval]. specialize (Hval evals). unfold total in Hval at 2. rewrite <- Hval.
    fold (total (fun i => - scalar_pow omega i * inverse_of z i)). set (T := total (fun i => - scalar_pow omega i * inverse_of z i)) in *.
    assert (H0 : scalar_zero + T = T) by ring. rewrite H0. destruct (fr_invert T Hden) as (u & -> & Hu).
    assert (Hy : (scalar_zero + evaluate evals z * T) * u = evaluate evals z).
    { transitivity (evaluate evals z * (T * u)); [ring|]. rewrite Hu. ring. }
    exists (fun i => inverse_of z i * (f i - evaluate evals z)). rewrite Hy. split; [|by apply quotient_outside].
    do 2 f_equal. rewrite <- quotients_map. f_equal. by apply map_nth_seq.
Qed.
End lagrange.

(** ** The domain of blobs *)

Lemma DOMAIN_Z : Z.of_nat DOMAIN = 4096.
Proof. unfold DOMAIN. rewrite Z2Nat.id; [reflexivity | discriminate]. Qed.
#[global] Opaque DOMAIN get_root_of_unity_4096 modpow FR_MODULUS.

Section opening.
Context `{laws : CurveLaws} `{build : Build}.
Add Ring scalars' : scalar_ring.

Definition root_4096 : Scalar := fr get_root_of_unity_4096.
Definition root_4096_inv : Scalar := scalar_pow root_4096 (DOMAIN - 1).
Definition domain_inv : Scalar := default scalar_zero (scalar_invert (scalar_of_nat DOMAIN)).

Lemma scalar_of_nat_fr n : scalar_of_nat n = fr (Z.of_nat n).
Proof.
  induction n as [|n IH]; [exact fr_0|]. cbn [scalar_of_nat Nat.iter nat_rect].
  change (nat_rect _ _ _ n) with (scalar_of_nat n). rewrite IH, fr_1, fr_add. f_equal. lia.
Qed.

Lemma fr_pow_one a m : scalar_pow (fr a) m = scalar_one <-> a ^ Z.of_nat m mod FR_MODULUS = 1.
Proof. rewrite scalar_pow_fr, fr_1, fr_eq. by rewrite (Z.mod_1_l FR_MODULUS (proj1 fr_modulus_bounds)). Qed.

Lemma root_pow_one m : scalar_pow root_4096 m = scalar_one <-> get_root_of_unity_4096 ^ Z.of_nat m mod FR_MODULUS = 1.
Proof. apply fr_pow_one. Qed.

Lemma domain_root : root_of_unity DOMAIN root_4096 root_4096_inv domain_inv.
Proof.
  pose proof DOMAIN_Z as HD. assert (Hpow : scalar_pow root_4096 DOMAIN = scalar_one).
  { apply root_pow_one. rewrite HD. exact root_power. }
  split.
  - unfold root_4096_inv. rewrite <- scalar_pow_S. replace (S (DOMAIN - 1)) with DOMAIN by lia. exact Hpow.
  - exact Hpow.
  - intros m Hm. rewrite root_pow_one. apply root_order. lia.
  - unfold domain_inv. destruct (fr_invert (scalar_of_nat DOMAIN)) as (u & -> & Hu); [|cbn; rewrite <- Hu; apply (Rmul_comm scalar_ring)].
    rewrite scalar_of_nat_fr, HD, fr_0, fr_eq. vm_compute. discriminate.
Qed.

(** ** Bytes *)

Lemma from_le_reverse l : from_le (reverse l) = from_be l.
Proof. unfold from_le. by rewrite reverse_involutive. Qed.

Lemma from_be_bound l : Forall byte_ok l -> 0 <= from_be l < 256 ^ blen l.
Proof.
  intros Hl. rewrite <- from_le_reverse. replace (blen l) with (blen (reverse l)) by (unfold blen; by rewrite length_reverse).
  by apply from_le_bound, Forall_reverse.
Qed.

Lemma parse_scalar_spec l : blen l = 32 -> Forall byte_ok l ->
  parse_scalar l = if from_be l <? FR_MODULUS then Ok (fr (from_be l)) else Err "Invalid scalar".
Proof.
  intros H32 Hl. unfold parse_scalar. rewrite H32, Z.eqb_refl. cbn [negb].
  rewrite fr_from_bytes; [| unfold blen in *; by rewrite length_reverse | by apply Forall_reverse].
  rewrite from_le_reverse. by destruct (_ <? _).
Qed.

Lemma parse_scalar_be n : 0 <= n < FR_MODULUS -> parse_scalar (be n 32) = Ok (fr n).
Proof.
  intros Hn. pose proof fr_modulus_bounds. rewrite parse_scalar_spec; [|unfold blen; by rewrite length_be|apply be_bytes].
  rewrite from_be_be, Z.mod_small by (change (256 ^ Z.of_nat 32) with (2 ^ 256); lia).
  by rewrite (proj2 (Z.ltb_lt _ _)) by lia.
Qed.

Lemma scalar_bytes_be n : 0 <= n < FR_MODULUS -> scalar_to_bytes_be (fr n) = be n 32.
Proof. intros Hn. unfold scalar_to_bytes_be. rewrite fr_to_repr by done. unfold le. apply reverse_involutive. Qed.

Lemma parse_scalar_bytes s : parse_scalar (scalar_to_bytes_be s) = Ok s.
Proof. destruct (fr_surj s) as (n & Hn & ->). rewrite scalar_bytes_be by done. by apply parse_scalar_be. Qed.

Lemma length_scalar_bytes s : blen (scalar_to_bytes_be s) = 32.
Proof. destruct (fr_surj s) as (n & Hn & ->). rewrite scalar_bytes_be by done. unfold blen. by rewrite length_be. Qed.

Lemma parse_compressed p : parse_g1 (g1_to_compressed p) = Ok p.
Proof. destruct (g1_compressed p) as [H1 H2]. unfold parse_g1. by rewrite H2, H1. Qed.

Lemma cell_scalar_spec l : blen l = 32 -> Forall byte_ok l -> cell_scalar l = fr (from_be l).
Proof.
  intros H32 Hl. unfold cell_scalar. assert (Hr : Forall byte_ok (reverse l)) by by apply Forall_reverse.
  assert (Hb : blen (reverse l) = 32) by (unfold blen in *; by rewrite length_reverse).
  rewrite fr_from_bytes, from_le_reverse by done. destruct (_ <? _); [done|].
  rewrite fr_from_bytes_wide.
  - f_equal. unfold from_le. rewrite reverse_app, reverse_involutive. unfold from_be. rewrite foldl_app. f_equal.
  - rewrite blen_app, Hb. reflexivity.
  - apply Forall_app. split; [done|]. apply Forall_replicate. unfold byte_ok. lia.
Qed.

Lemma cell_for_index i : 0 <= i -> scalar_for_cell_index i = Ok (scalar_pow root_4096 (Z.to_nat i)).
Proof.
  intros Hi. unfold scalar_for_cell_index, z_for_cell, fr_to_bytes_be. pose proof fr_modulus_bounds.
  rewrite modpow_spec, parse_scalar_be by (try apply Z.mod_pos_bound; lia).
  f_equal. unfold root_4096. rewrite scalar_pow_fr, Z2Nat.id by lia. apply fr_eq. apply Z.mod_mod. lia.
Qed.

(** *** Cells *)

Lemma chunksN_length {A} count size (l : list A) : length (chunksN count size l) = count.
Proof. revert l. induction count as [|c IH]; intros l; [done|]. cbn. f_equal. apply IH. Qed.

Lemma chunksN_spec {A} (P : A -> Prop) count size (l : list A) : (count * size <= length l)%nat -> Forall P l ->
  Forall (fun c => length c = size /\ Forall P c) (chunksN count size l).
Proof.
  revert l. induction count as [|c IH]; intros l Hl HP; [constructor|]. cbn [chunksN]. constructor.
  - rewrite length_take. split; [nia | by apply Forall_take].
  - apply IH; [rewrite length_drop; nia | by apply Forall_drop].
Qed.

Lemma chunksN_lookup {A} count size (l : list A) i : (i < count)%nat ->
  chunksN count size l !! i = Some (take size (drop (i * size) l)).
Proof.
  revert l i. induction count as [|c IH]; intros l [|i] Hi; [lia..|by rewrite drop_0|].
  cbn [chunksN]. change ((?a :: ?r) !! S i) with (r !! i). rewrite IH by lia. by rewrite drop_drop.
Qed.

Lemma blob_cells blob : blen blob = BLOB_SIZE -> chunks_exact 32 blob = chunksN DOMAIN 32 blob.
Proof.
  intros Hb. unfold chunks_exact. f_equal. apply Nat2Z.inj. rewrite DOMAIN_Z, Nat2Z.inj_div. unfold blen in Hb. rewrite Hb. reflexivity.
Qed.

Lemma blob_cells_ok blob : blen blob = BLOB_SIZE -> Forall byte_ok blob ->
  Forall (fun c => blen c = 32 /\ Forall byte_ok c) (chunks_exact 32 blob) /\ length (chunks_exact 32 blob) = DOMAIN.
Proof.
  intros Hb Hok. rewrite blob_cells by done. split; [|apply chunksN_length].
  eapply Forall_impl; [apply (chunksN_spec byte_ok); [|done]|].
  - apply Nat2Z.inj_le. rewrite Nat2Z.inj_mul, DOMAIN_Z. unfold blen in Hb. rewrite Hb. discriminate.
  - intros c [Hc ?]. unfold blen. rewrite Hc. done.
Qed.

Lemma length_scalars blob : blen blob = BLOB_SIZE -> length (bytes_to_scalars blob) = DOMAIN.
Proof. intros Hb. unfold bytes_to_scalars. rewrite length_map, blob_cells by done. apply chunksN_length. Qed.

(** ** Commitments *)

(** The size of the windows is left to the library (0) or is one that the code asserts. *)
Definition target_ok (t : Target) : Prop := 0 <= window_override t <= 16.

Lemma msm_spec t points scalars : target_ok t -> length points = length scalars ->
  msm_pippenger_g1 (window_override t) points scalars = Ok (combination points scalars).
Proof. apply msm_pippenger_sum. Qed.

(** The methods that change the settings keep them so, for these sizes. *)
Lemma settings_ok t bits mode t' : target_ok t ->
  (bits <= 16 -> set_pippenger_window_bits bits t = Ok t' -> target_ok t')
  /\ (set_wasm_msm_basis_mode mode t = Ok t' -> target_ok t').
Proof.
  unfold target_ok, set_pippenger_window_bits, set_wasm_msm_basis_mode. intros Ht. split.
  - intros Hb H. ok_step H. bool_to_prop. apply Ok_inj in H as <-. cbn. lia.
  - intros H. repeat case_bool_decide; try done; by apply Ok_inj in H as <-.
Qed.

Lemma blst_scalars points scalars : length points = length scalars ->
  blst_mult points (map scalar_to_repr scalars) = combination points scalars.
Proof.
  intros Hl. rewrite blst_mult_sum; [|by rewrite length_map|].
  - unfold combination. f_equal. clear Hl. revert scalars. induction points as [|p points IH]; intros [|s scalars]; [done..|].
    cbn [map zip_with]. f_equal; [apply (proj2 (proj2 (repr_ok s))) | apply IH].
  - apply Forall_map, Forall_forall. intros s _. destruct (repr_ok s) as (? & ? & _). done.
Qed.

Lemma blst_cells points cells : length points = length cells -> Forall (fun c => blen c = 32 /\ Forall byte_ok c) cells ->
  blst_mult points (map (@reverse Z) cells) = combination points (map cell_scalar cells).
Proof.
  intros Hl Hc. rewrite blst_mult_sum; [|by rewrite length_map|].
  - unfold combination. f_equal. clear Hl. revert points. induction Hc as [|c cells [H32 Hok] _ IH]; intros [|p points]; [done..|].
    cbn [map zip_with]. f_equal; [|apply IH]. rewrite from_le_reverse, cell_scalar_spec, g1_mul_fr; [done | | done | done].
    by apply from_be_nonneg.
  - apply Forall_map. eapply Forall_impl; [exact Hc|]. intros c [H32 Hok]. cbn.
    split; [unfold blen in *; by rewrite length_reverse | by apply Forall_reverse].
Qed.

Lemma combination_zero points scalars : Forall (fun s => s = scalar_zero) scalars -> combination points scalars = g1_identity.
Proof.
  intros Hs. revert points. induction Hs as [|s scalars -> _ IH]; intros [|p points]; [done..|].
  change (combination (p :: points) (scalar_zero :: scalars)) with (g1_add (g1_mul p scalar_zero) (combination points scalars)).
  by rewrite IH, g1_mul_zero, g1_id_l.
Qed.

Lemma from_be_zero l : Forall (fun b => b = 0) l -> from_be l = 0.
Proof.
  induction l as [|b l IH] using rev_ind; [done|]. intros [Hl Hb]%Forall_app.
  apply Forall_cons in Hb as [-> _]. by rewrite from_be_snoc, IH.
Qed.

Lemma zero_scalars blob : blen blob = BLOB_SIZE -> Forall (fun b => b = 0) blob ->
  Forall (fun s => s = scalar_zero) (bytes_to_scalars blob).
Proof.
  intros Hb Hz. assert (Hok : Forall byte_ok blob) by (eapply Forall_impl; [exact Hz|]; unfold byte_ok; lia).
  apply Forall_map. rewrite blob_cells by done. eapply Forall_impl; [apply (chunksN_spec (fun b => b = 0)); [|done]|].
  - apply Nat2Z.inj_le. rewrite Nat2Z.inj_mul, DOMAIN_Z. unfold blen in Hb. rewrite Hb. discriminate.
  - intros c [H32 Hc]. cbn. rewrite cell_scalar_spec.
    + by rewrite fr_0, from_be_zero.
    + unfold blen. by rewrite H32.
    + eapply Forall_impl; [exact Hc|]. unfold byte_ok. lia.
Qed.

(** A commitment is the sum of the points of the setup, each multiplied by its cell; the
    target and its settings make no difference. *)
Lemma blob_to_commitment_spec t ctx blob : target_ok t -> g1_points_are_monomial ctx = false ->
  length (g1_points ctx) = DOMAIN -> blen blob = BLOB_SIZE -> Forall byte_ok blob ->
  blob_to_commitment t ctx blob = Ok (g1_to_compressed (combination (g1_points ctx) (bytes_to_scalars blob))).
Proof.
  intros Ht Hm Hp Hb Hok. unfold blob_to_commitment. rewrite Hb, Z.eqb_refl, Hm. cbn [negb].
  destruct (forallb _ blob) eqn:Hz.
  - rewrite combination_zero; [done|]. apply zero_scalars; [done|].
    apply Forall_forall. intros b Hin. rewrite forallb_forall in Hz. apply list_elem_of_In, Hz in Hin. by apply Z.eqb_eq.
  - destruct (_ && _); [by rewrite msm_spec by (done || rewrite Hp; symmetry; by apply length_scalars)|].
    destruct (blob_cells_ok blob Hb Hok) as [Hc Hl]. unfold msm_blst_g1_commitment_from_blob. rewrite Hl, Hp, Nat.min_id.
    pose proof DOMAIN_Z. rewrite bool_decide_eq_false_2 by lia.
    rewrite !take_ge by lia. rewrite blst_cells by (done || congruence). done.
Qed.

(** ** Openings *)

(** The [i]-th polynomial of the basis for blobs, and the polynomial of a blob. *)
Definition blob_basis (i : nat) (x : Scalar) : Scalar := lagrange DOMAIN root_4096_inv domain_inv i x.
Definition blob_polynomial (blob : bytes) (x : Scalar) : Scalar :=
  evaluate DOMAIN root_4096_inv domain_inv (bytes_to_scalars blob) x.

(** A context loaded from a setup with the secret [tau]: its points commit to the basis. *)
Record setup_ok (ctx : KzgContext) (tau : Scalar) : Prop := {
  so_lagrange : g1_points_are_monomial ctx = false;
  so_points : g1_points ctx = map (fun i => g1_mul (g1_generator ctx) (blob_basis i tau)) (seq 0 DOMAIN);
  so_tau : g2_tau ctx = g2_mul (g2_h ctx) tau }.

Lemma setup_length ctx tau : setup_ok ctx tau -> length (g1_points ctx) = DOMAIN.
Proof. intros [_ -> _]. by rewrite length_map, length_seq. Qed.

Lemma combination_basis g (f l : nat -> Scalar) s m :
  combination (map (fun i => g1_mul g (l i)) (seq s m)) (map f (seq s m))
  = g1_mul g (scalar_sum (map (fun i => scalar_mul (f i) (l i)) (seq s m))).
Proof.
  rewrite <- g1_sum_scalar. unfold combination. f_equal. revert s. induction m as [|m IH]; intros s; [done|].
  cbn [seq map zip_with]. f_equal; [|apply IH]. rewrite g1_mul_mul. f_equal. apply (Rmul_comm scalar_ring).
Qed.

(** A list of values is committed to as the polynomial at the secret. *)
Lemma commit_values ctx tau f : setup_ok ctx tau ->
  combination (g1_points ctx) (map f (seq 0 DOMAIN))
  = g1_mul (g1_generator ctx) (total DOMAIN (fun i => scalar_mul (f i) (blob_basis i tau))).
Proof. intros [_ -> _]. apply combination_basis. Qed.

Lemma commit_blob ctx tau blob : setup_ok ctx tau -> blen blob = BLOB_SIZE ->
  combination (g1_points ctx) (bytes_to_scalars blob) = g1_mul (g1_generator ctx) (blob_polynomial blob tau).
Proof.
  intros Hs Hb. rewrite (map_nth_seq DOMAIN (bytes_to_scalars blob)) at 1 by by apply length_scalars.
  by rewrite (commit_values ctx tau).
Qed.

Lemma DOMAIN_positive : (0 < DOMAIN)%nat.
Proof. pose proof DOMAIN_Z. lia. Qed.

(** The proof commits to a quotient of the blob's polynomial, and the value is its value. *)
Lemma compute_proof_spec t ctx tau blob zb z : target_ok t -> setup_ok ctx tau -> blen blob = BLOB_SIZE ->
  parse_scalar zb = Ok z ->
  exists q, compute_proof t ctx blob zb
    = Ok (g1_to_compressed (combination (g1_points ctx) (map q (seq 0 DOMAIN))), scalar_to_bytes_be (blob_polynomial blob z))
    /\ is_quotient DOMAIN root_4096 (fun i => nth i (bytes_to_scalars blob) scalar_zero) z (blob_polynomial blob z) q.
Proof.
  intros Ht Hs Hb Hz. assert (Hzl : (blen zb =? 32) = true) by (unfold parse_scalar in Hz; ok_step Hz; by bool_to_prop; apply Z.eqb_eq).
  destruct (quotient_spec DOMAIN root_4096 root_4096_inv domain_inv domain_root (bytes_to_scalars blob) z
    DOMAIN_positive (length_scalars blob Hb)) as (q & Hq & Hiq).
  exists q. split; [|exact Hiq]. unfold compute_proof. rewrite Hb, Z.eqb_refl, Hzl, Hz. cbn [negb bind].
  rewrite (so_lagrange _ _ Hs). unfold prove_lagrange. rewrite cell_for_index by lia. cbn [bind].
  change (Z.to_nat 1) with 1%nat. replace (scalar_pow root_4096 1) with root_4096 by (cbn; ring).
  rewrite Hq. cbn [bind].
  assert (Hlq : length (g1_points ctx) = length (map q (seq 0 DOMAIN)))
    by (rewrite length_map, length_seq; by apply (setup_length _ tau)).
  destruct (wasm t); [by rewrite msm_spec | cbn [bind]; by rewrite blst_scalars].
Qed.

Lemma pairing_check ctx tau p c z y : g2_tau ctx = g2_mul (g2_h ctx) tau ->
  g1_add (g1_mul p z) (g1_add c (g1_neg (g1_mul (g1_generator ctx) y))) = g1_mul p tau ->
  verify_proof ctx (g1_to_compressed c) (scalar_to_bytes_be z) (scalar_to_bytes_be y) (g1_to_compressed p) = Ok true.
Proof.
  intros Htau H. unfold verify_proof. rewrite !parse_compressed, !parse_scalar_bytes. cbn [bind]. f_equal.
  apply bool_decide_eq_true_2. apply (gt_cancel _ _ (pairing p (g2_mul (g2_h ctx) z))).
  rewrite pairing_sub, Htau, !pairing_mul, <- H, pairing_add. apply gt_comm.
Qed.

Lemma move_factor q p tau z y : scalar_mul q (scalar_sub tau z) = scalar_sub p y ->
  scalar_add (scalar_mul q z) (scalar_add p (scalar_neg y)) = scalar_mul q tau.
Proof. intros H. transitivity (scalar_add (scalar_mul q z) (scalar_sub p y)); [ring|]. rewrite <- H. ring. Qed.

Lemma opening_equation ctx tau blob z q : setup_ok ctx tau -> blen blob = BLOB_SIZE ->
  is_quotient DOMAIN root_4096 (fun i => nth i (bytes_to_scalars blob) scalar_zero) z (blob_polynomial blob z) q ->
  let p := combination (g1_points ctx) (map q (seq 0 DOMAIN)) in
  let c := combination (g1_points ctx) (bytes_to_scalars blob) in
  g1_add (g1_mul p z) (g1_add c (g1_neg (g1_mul (g1_generator ctx) (blob_polynomial blob z)))) = g1_mul p tau.
Proof.
  intros Hs Hb Hq p c. unfold p, c. rewrite (commit_values ctx tau), (commit_blob ctx tau) by done.
  pose proof (quotient_identity DOMAIN root_4096 root_4096_inv domain_inv domain_root _ _ _ _ tau DOMAIN_positive Hq) as Hid.
  rewrite <- g1_mul_neg, !g1_mul_mul, <- !g1_mul_add. f_equal. apply move_factor. exact Hid.
Qed.

(** ** Theorems *)

Lemma opening_exists t ctx tau blob z : target_ok t -> setup_ok ctx tau ->
  blen blob = BLOB_SIZE -> Forall byte_ok blob ->
  let zb := scalar_to_bytes_be z in
  exists commitment proof, blob_to_commitment t ctx blob = Ok commitment
    /\ compute_proof t ctx blob zb = Ok (proof, scalar_to_bytes_be (blob_polynomial blob z))
    /\ verify_proof ctx commitment zb (scalar_to_bytes_be (blob_polynomial blob z)) proof = Ok true.
Proof.
  intros Ht Hs Hb Hok zb. destruct (compute_proof_spec t ctx tau blob zb z Ht Hs Hb (parse_scalar_bytes z)) as (q & Hp & Hq).
  eexists _, _. split; [|split; [exact Hp|]].
  - apply blob_to_commitment_spec; (done || apply so_lagrange with tau || apply setup_length with tau); done.
  - apply (pairing_check ctx tau); [apply so_tau, Hs|]. by apply opening_equation.
Qed.

(** At a point of the domain the value is the cell of the blob. *)
Lemma polynomial_cell blob i : (i < DOMAIN)%nat -> blen blob = BLOB_SIZE ->
  blob_polynomial blob (scalar_pow root_4096 i) = nth i (bytes_to_scalars blob) scalar_zero.
Proof. intros Hi _. exact (evaluate_domain DOMAIN root_4096 root_4096_inv domain_inv domain_root _ i Hi). Qed.

Lemma mapR_total {A B} (f : A -> B) (g : A -> result B) l : Forall (fun x => g x = Ok (f x)) l -> mapR g l = Ok (map f l).
Proof. induction 1 as [|x l Hx _ IH]; [done|]. cbn. by rewrite Hx, IH. Qed.

Lemma flat_blobs flat : Forall byte_ok flat ->
  Forall (fun blob => blen blob = BLOB_SIZE /\ Forall byte_ok blob) (chunks_exact (Z.to_nat BLOB_SIZE) flat).
Proof.
  intros Hok. unfold chunks_exact. eapply Forall_impl; [apply (chunksN_spec byte_ok); [|done]|].
  - rewrite Nat.mul_comm. apply Nat.Div0.mul_div_le.
  - intros c [Hc ?]. split; [|done]. unfold blen. rewrite Hc. apply Z2Nat.id. discriminate.
Qed.

(** Committing to many blobs at once gives the commitments of the blobs. *)
Lemma commit_blobs_flat_spec t ctx flat : target_ok t -> g1_points_are_monomial ctx = false ->
  length (g1_points ctx) = DOMAIN -> blen flat mod BLOB_SIZE = 0 -> Forall byte_ok flat ->
  commit_blobs_flat t ctx flat
  = Ok (concat (map (fun blob => g1_to_compressed (combination (g1_points ctx) (bytes_to_scalars blob)))
                    (chunks_exact (Z.to_nat BLOB_SIZE) flat))).
Proof.
  intros Ht Hm Hp Hl Hok. unfold commit_blobs_flat. rewrite Hl, Z.eqb_refl. cbn [negb].
  pose proof (flat_blobs flat Hok) as Hc. rewrite Hm, andb_true_r.
  assert (Hall : forall t', target_ok t' -> Forall (fun blob => blob_to_commitment t' ctx blob
    = Ok (g1_to_compressed (combination (g1_points ctx) (bytes_to_scalars blob)))) (chunks_exact (Z.to_nat BLOB_SIZE) flat)).
  { intros t' Ht'. eapply Forall_impl; [exact Hc|]. intros blob [Hb ?]. by apply blob_to_commitment_spec. }
  destruct (wasm t && (basis_mode t =? 0)) eqn:Hw; [|by rewrite (mapR_total _ _ _ (Hall t Ht))].
  do 2 f_equal. apply map_ext_in. intros blob Hin%list_elem_of_In. specialize (Hall t Ht). rewrite Forall_forall in Hall, Hc.
  specialize (Hall blob Hin). destruct (Hc blob Hin) as [Hb _]. unfold blob_to_commitment in Hall.
  rewrite Hb, Z.eqb_refl, Hm in Hall. apply andb_prop in Hw as [Hw Hmode]. apply Z.eqb_eq in Hmode. rewrite Hw, Hmode in Hall. cbn in Hall.
  destruct (forallb _ blob); by injection Hall.
Qed.

Lemma prove_msm t ctx q : target_ok t -> length (g1_points ctx) = length q ->
  (if wasm t then msm_pippenger_g1 (window_override t) (g1_points ctx) q else Ok (blst_mult (g1_points ctx) (map scalar_to_repr q)))
  = Ok (combination (g1_points ctx) q).
Proof. intros Ht Hl. destruct (wasm t); [by apply msm_spec | by rewrite blst_scalars]. Qed.

(** Commitments, alone or many at once, and openings do not depend on the target, the
    arithmetic that its settings choose, nor the size of the windows, up to the 16 bits
    that the code asserts. *)
Theorem kzg_targets_agree t t' ctx tau blob : target_ok t -> target_ok t' -> setup_ok ctx tau -> Forall byte_ok blob ->
  blob_to_commitment t ctx blob = blob_to_commitment t' ctx blob
  /\ commit_blobs_flat t ctx blob = commit_blobs_flat t' ctx blob
  /\ forall zb, compute_proof t ctx blob zb = compute_proof t' ctx blob zb.
Proof.
  intros Ht Ht' Hs Hok. pose proof (so_lagrange _ _ Hs) as Hm. pose proof (setup_length _ _ Hs) as Hp. split_and!.
  - destruct (Z.eq_dec (blen blob) BLOB_SIZE) as [Hb|Hb]; [by rewrite !blob_to_commitment_spec|].
    unfold blob_to_commitment. by rewrite (proj2 (Z.eqb_neq _ _) Hb).
  - destruct (Z.eq_dec (blen blob mod BLOB_SIZE) 0) as [Hb|Hb]; [by rewrite !commit_blobs_flat_spec|].
    unfold commit_blobs_flat. by rewrite (proj2 (Z.eqb_neq _ _) Hb).
  - intros zb. unfold compute_proof. destruct (Z.eq_dec (blen blob) BLOB_SIZE) as [Hb|Hb]; [|by rewrite (proj2 (Z.eqb_neq _ _) Hb)].
    rewrite Hb, Z.eqb_refl. cbn [negb]. destruct (negb _); [done|]. destruct (parse_scalar zb) as [z|]; [cbn [bind]|done].
    rewrite Hm. unfold prove_lagrange. rewrite cell_for_index by lia. cbn [bind]. change (Z.to_nat 1) with 1%nat.
    replace (scalar_pow root_4096 1) with root_4096 by (cbn; ring).
    destruct (quotient_spec DOMAIN root_4096 root_4096_inv domain_inv domain_root (bytes_to_scalars blob) z
      DOMAIN_positive (length_scalars blob Hb)) as (q & -> & _).
    cbn [bind]. by rewrite !prove_msm by (done || (rewrite length_map, length_seq; done)).
Qed.

(** C12: An opening that is computed for a blob verifies against its commitment, and the value
    it claims is the value of the blob's polynomial at the point: for every blob, every
    point that is a scalar, inside the domain or outside it, every secret of a setup in the
    Lagrange form that the library ships, native code and WebAssembly, each basis mode, with
    and without debug assertions, and every window size up to the 16 bits that the code
    asserts.  In particular no step of the computation fails, nor any assertion. *)
Theorem kzg_opening_verifies t ctx tau blob z : target_ok t -> setup_ok ctx tau ->
  blen blob = BLOB_SIZE -> Forall byte_ok blob ->
  let zb := scalar_to_bytes_be z in
  exists commitment proof, blob_to_commitment t ctx blob = Ok commitment
    /\ compute_proof t ctx blob zb = Ok (proof, scalar_to_bytes_be (blob_polynomial blob z))
    /\ verify_proof ctx commitment zb (scalar_to_bytes_be (blob_polynomial blob z)) proof = Ok true.
Proof. apply opening_exists. Qed.
End opening.

(** ** A setup whose secret is known *)

#[local] Existing Instance Exponent.scalars.
#[local] Existing Instance Exponent.exponent_curve.
#[local] Existing Instance Exponent.exponent_laws.

(** A build that checks its assertions. *)
Definition sample_build : Build := {| debug_assertions := true |}.
#[local] Existing Instance sample_build.

Definition sample_tau : Scalar := Exponent.el 12345.
Definition sample_setup : KzgContext :=
  {| g1_points := map (fun i => g1_mul (Exponent.el 1) (blob_basis i sample_tau)) (seq 0 DOMAIN);
     g2_h := Exponent.el 1; g2_tau := g2_mul (Exponent.el 1) sample_tau; g1_generator := Exponent.el 1;
     g1_points_are_monomial := false |}.
Definition sample_target : Target := {| wasm := false; basis_mode := 0; window_override := 0 |}.
Definition other_target : Target := {| wasm := true; basis_mode := 1; window_override := 7 |}.
Definition sample_blob : bytes := 200 :: zeros (BLOB_SIZE - 1).

Lemma sample_setup_ok : setup_ok sample_setup sample_tau.
Proof. constructor; exact eq_refl. Qed.

Lemma sample_blob_ok : blen sample_blob = BLOB_SIZE /\ Forall byte_ok sample_blob.
Proof.
  split.
  - change (blen sample_blob) with (blen ([200] ++ zeros (BLOB_SIZE - 1))). rewrite blen_app, blen_zeros by discriminate. reflexivity.
  - constructor; [unfold byte_ok; lia|]. apply Forall_replicate. unfold byte_ok. lia.
Qed.

Lemma kzg_opening_verifies_witness :
  exists commitment proof, blob_to_commitment sample_target sample_setup sample_blob = Ok commitment
    /\ verify_proof sample_setup commitment (scalar_to_bytes_be (Exponent.el 9))
         (scalar_to_bytes_be (blob_polynomial sample_blob (Exponent.el 9))) proof = Ok true.
Proof.
  destruct sample_blob_ok as [Hb Hok]. assert (Ht : target_ok sample_target) by (unfold target_ok; cbn; lia).
  destruct (kzg_opening_verifies sample_target sample_setup sample_tau sample_blob (Exponent.el 9) Ht sample_setup_ok Hb Hok)
    as (c & p & Hc & _ & Hv).
  exact (ex_intro _ c (ex_intro _ p (conj Hc Hv))).
Defined.

Lemma kzg_targets_agree_witness :
  blob_to_commitment sample_target sample_setup sample_blob = blob_to_commitment other_target sample_setup sample_blob.
Proof.
  destruct sample_blob_ok as [Hb Hok]. assert (Ht : target_ok sample_target) by (unfold target_ok; cbn; lia).
  assert (Ht' : target_ok other_target) by (unfold target_ok; cbn; lia).
  exact (proj1 (kzg_targets_agree sample_target other_target sample_setup sample_tau sample_blob Ht Ht' sample_setup_ok Hok)).
Defined.
