(* ===== verification/RootTable.v ===== *)
(** * Proofs of the table of roots

    MDU 0 of a generation holds the Merkle roots of the other MDUs, one per cell of 32
    bytes.  Shown here of [compute_mdu0_root_table_proof] and
    [verify_mdu0_root_table_proof] (Kzg.v): a proof is computed exactly when the cell holds
    the root that is asked for, and it verifies against the Merkle root of MDU 0.

    Class [MerkleLaws] states what [rs_merkle] documents of its trees: a path has the
    length that [merkle_sibling_count] counts, and verifies. *)

From S2P Require Import Prelude JsBytes Canonical Challenge FrField Curve Msm Kzg KzgProof.
From Stdlib Require Import Ring.
Local Open Scope Z_scope.

Class MerkleLaws `{trees : MerkleTrees} := {
  tree_root_exists : forall leaves, leaves <> [] -> exists root, tree_root leaves = Some root /\ blen root = 32 /\ Forall byte_ok root;
  tree_proof_length : forall leaves i, 0 <= i < Z.of_nat (length leaves) ->
    exists siblings, merkle_sibling_count i (Z.of_nat (length leaves)) = Ok siblings
      /\ blen (tree_proof leaves i) = 32 * siblings;
  tree_proof_verifies : forall leaves i leaf root, 0 <= i -> leaves !! Z.to_nat i = Some leaf -> tree_root leaves = Some root ->
    tree_verify (chunks_exact 32 (tree_proof leaves i)) root i leaf (Z.of_nat (length leaves)) = true }.

Section root_table.
Context `{laws : CurveLaws} `{build : Build} `{merkle : MerkleLaws}.

(** The cell of MDU 0 for the root of an MDU. *)
Definition root_cell (mdu0 : bytes) (mdu_index : Z) : bytes := subarray mdu0 (32 * (mdu_index - 1)) (32 * mdu_index).

Lemma z_for_cell_bytes i : 0 <= i -> z_for_cell i = scalar_to_bytes_be (scalar_pow root_4096 (Z.to_nat i)).
Proof.
  intros Hi. pose proof fr_modulus_bounds. assert (Hb : 0 <= get_root_of_unity_4096 ^ i mod FR_MODULUS < FR_MODULUS) by (apply Z.mod_pos_bound; lia).
  unfold root_4096. rewrite scalar_pow_fr, Z2Nat.id by lia.
  rewrite (proj2 (fr_eq (get_root_of_unity_4096 ^ i) (get_root_of_unity_4096 ^ i mod FR_MODULUS))) by (symmetry; apply Z.mod_mod; lia).
  rewrite scalar_bytes_be by done. unfold z_for_cell, fr_to_bytes_be. by rewrite modpow_spec by lia.
Qed.

Lemma scalar_bytes_inj s s' : scalar_to_bytes_be s = scalar_to_bytes_be s' -> s = s'.
Proof. intros H. apply (f_equal parse_scalar) in H. rewrite !parse_scalar_bytes in H. by injection H. Qed.

Lemma encode_root_spec root : blen root = 32 -> Forall byte_ok root ->
  encode_mdu_root_for_root_table root = Ok (scalar_to_bytes_be (fr (from_be root))).
Proof.
  intros H32 Hok. unfold encode_mdu_root_for_root_table. rewrite H32. cbn [Z.eqb Pos.eqb negb]. do 2 f_equal.
  unfold reduce_bytes32_to_scalar. rewrite fr_from_bytes_wide.
  - f_equal. unfold from_le. rewrite reverse_app, reverse_involutive. unfold from_be. rewrite foldl_app. f_equal.
  - rewrite blen_app. unfold blen in *. rewrite length_reverse. change (length (zeros 32)) with 32%nat. lia.
  - apply Forall_app. split; [by apply Forall_reverse|]. apply Forall_replicate. unfold byte_ok. lia.
Qed.

Lemma subarray_bytes (l : bytes) a b : Forall byte_ok l -> Forall byte_ok (subarray l a b).
Proof. intros H. by apply Forall_take, Forall_drop. Qed.

(** A cell of a blob of MDU 0. *)
Lemma cell_of_blob mdu0 mdu_index : blen mdu0 = MDU_SIZE -> Forall byte_ok mdu0 -> 0 < mdu_index <= MDU0_ROOT_TABLE_CAPACITY ->
  let du := (mdu_index - 1) / SCALARS_PER_BLOB in let cell := (mdu_index - 1) mod SCALARS_PER_BLOB in
  nth (Z.to_nat cell) (bytes_to_scalars (subarray mdu0 (du * BLOB_SIZE) (du * BLOB_SIZE + BLOB_SIZE))) scalar_zero
  = fr (from_be (root_cell mdu0 mdu_index)).
Proof.
  intros Hl Hok Hi du cell. change MDU0_ROOT_TABLE_CAPACITY with 65536 in Hi. change MDU_SIZE with 8388608 in Hl.
  assert (Hdu : 0 <= du < 16) by (unfold du; change SCALARS_PER_BLOB with 4096; div_lia_linear).
  assert (Hcell : 0 <= cell < 4096) by (apply Z.mod_pos_bound; reflexivity).
  assert (Hix : mdu_index - 1 = du * 4096 + cell) by (unfold du, cell; change SCALARS_PER_BLOB with 4096; div_lia_linear).
  change BLOB_SIZE with 131072. set (blob := subarray _ _ _).
  assert (Hb : blen blob = BLOB_SIZE) by (unfold blob; rewrite blen_subarray by lia; change BLOB_SIZE with 131072; lia).
  unfold bytes_to_scalars. rewrite blob_cells by done. rewrite nth_lookup. change (map cell_scalar ?x) with (cell_scalar <$> x).
  rewrite list_lookup_fmap, chunksN_lookup by (pose proof DOMAIN_Z; lia). cbn [fmap option_fmap option_map default from_option].
  assert (Heq : take 32 (drop (Z.to_nat cell * 32) blob) = root_cell mdu0 mdu_index).
  { unfold blob, root_cell, subarray. rewrite skipn_firstn_comm, drop_drop, firstn_firstn.
    f_equal; [lia | f_equal; lia]. }
  rewrite Heq. apply cell_scalar_spec.
  - unfold root_cell. rewrite blen_subarray by lia. lia.
  - by apply subarray_bytes.
Qed.

(** The commitments of the blobs of an MDU. *)
Definition mdu_commitments (ctx : KzgContext) (mdu : bytes) : list bytes :=
  map (fun blob => g1_to_compressed (combination (g1_points ctx) (bytes_to_scalars blob)))
      (chunksN (Z.to_nat BLOBS_PER_MDU) (Z.to_nat BLOB_SIZE) mdu).

Lemma mdu_commitments_spec t ctx tau mdu : target_ok t -> setup_ok ctx tau -> blen mdu = MDU_SIZE -> Forall byte_ok mdu ->
  mdu_to_kzg_commitments t ctx mdu = Ok (mdu_commitments ctx mdu).
Proof.
  intros Ht Hs Hl Hok. unfold mdu_to_kzg_commitments. rewrite Hl, Z.eqb_refl. cbn [negb]. apply mapR_total.
  eapply Forall_impl; [apply (chunksN_spec byte_ok); [|done]|].
  - unfold blen in Hl. apply Nat2Z.inj_le. rewrite Nat2Z.inj_mul, !Z2Nat.id, Hl by discriminate. discriminate.
  - intros blob [Hb Hbok]. apply blob_to_commitment_spec; [done | by apply so_lagrange with tau | by apply setup_length with tau | | done].
    unfold blen. rewrite Hb. apply Z2Nat.id. discriminate.
Qed.

Lemma length_commitments ctx mdu : Z.of_nat (length (mdu_commitments ctx mdu)) = BLOBS_PER_MDU.
Proof. unfold mdu_commitments. rewrite length_map, chunksN_length. apply Z2Nat.id. discriminate. Qed.

Lemma commitment_lookup ctx mdu du : 0 <= du < BLOBS_PER_MDU ->
  mdu_commitments ctx mdu !! Z.to_nat du = Some (g1_to_compressed (combination (g1_points ctx)
    (bytes_to_scalars (subarray mdu (du * BLOB_SIZE) (du * BLOB_SIZE + BLOB_SIZE))))).
Proof.
  intros Hdu. unfold mdu_commitments. change (map ?f ?x) with (f <$> x). rewrite list_lookup_fmap, chunksN_lookup by lia.
  cbn [fmap option_fmap option_map]. do 4 f_equal. unfold subarray. f_equal; [f_equal; lia|]. f_equal.
  rewrite Z2Nat.inj_mul by (lia || discriminate). done.
Qed.

(** The path of a commitment verifies, in the tree of any number of them. *)
Lemma merkle_path commitments i c root : 0 <= i -> commitments !! Z.to_nat i = Some c -> blen c = 48 ->
  tree_root (map blake2s commitments) = Some root -> blen root = 32 ->
  verify_mdu_merkle_proof root c i (tree_proof (map blake2s commitments) i) (Z.of_nat (length commitments)) = Ok true.
Proof.
  intros Hi Hc H48 Hroot H32. pose proof (lookup_lt_Some _ _ _ Hc) as Hlt. unfold verify_mdu_merkle_proof. rewrite H32, H48.
  cbn [Z.eqb Pos.eqb negb orb]. destruct (tree_proof_length (map blake2s commitments) i) as (siblings & Hs & Hpl); [rewrite length_map; lia|].
  rewrite length_map in Hs. rewrite Hs. cbn [bind]. rewrite Hpl, Z.eqb_refl. cbn [negb]. f_equal.
  rewrite <- (length_map blake2s commitments). apply tree_proof_verifies; [done | | done].
  change (map blake2s commitments) with (blake2s <$> commitments). by rewrite list_lookup_fmap, Hc.
Qed.

Lemma commitment_path ctx mdu du root : 0 <= du < BLOBS_PER_MDU ->
  let commitments := mdu_commitments ctx mdu in
  tree_root (map blake2s commitments) = Some root -> blen root = 32 ->
  verify_mdu_merkle_proof root (nth (Z.to_nat du) commitments []) du (tree_proof (map blake2s commitments) du) BLOBS_PER_MDU = Ok true.
Proof.
  intros Hdu commitments Hroot H32. pose proof (commitment_lookup ctx mdu du Hdu) as Hc. fold commitments in Hc.
  rewrite (nth_lookup_Some _ _ _ _ Hc), <- (length_commitments ctx mdu). apply merkle_path; [lia | done | apply g1_compressed | done | done].
Qed.

Definition position_of (mdu_index : Z) : RootTablePosition :=
  {| rp_mdu_index := mdu_index; rp_root_table_index := mdu_index - 1;
     rp_root_table_du := (mdu_index - 1) / SCALARS_PER_BLOB; rp_root_table_cell := (mdu_index - 1) mod SCALARS_PER_BLOB |}.

Lemma position_spec mdu_index : 0 < mdu_index <= MDU0_ROOT_TABLE_CAPACITY ->
  root_table_position_for_mdu_index mdu_index = Ok (position_of mdu_index)
  /\ 0 <= rp_root_table_du (position_of mdu_index) < 16 /\ 0 <= rp_root_table_cell (position_of mdu_index) < 4096.
Proof.
  intros Hi. change MDU0_ROOT_TABLE_CAPACITY with 65536 in Hi. split_and!; cbn [rp_root_table_du rp_root_table_cell position_of].
  - unfold root_table_position_for_mdu_index. change MDU0_ROOT_TABLE_CAPACITY with 65536.
    by rewrite (proj2 (Z.eqb_neq _ _)), (proj2 (Z.ltb_ge _ _)) by lia.
  - apply Z.div_pos; [lia | reflexivity].
  - change SCALARS_PER_BLOB with 4096. div_lia_linear.
  - by apply Z.mod_pos_bound.
  - by apply Z.mod_pos_bound.
Qed.

(** The opening of a cell of MDU 0 is for the cell's value, and verifies. *)
Lemma cell_opening t ctx tau mdu0 mdu_index : target_ok t -> setup_ok ctx tau -> blen mdu0 = MDU_SIZE ->
  Forall byte_ok mdu0 -> 0 < mdu_index <= MDU0_ROOT_TABLE_CAPACITY ->
  let du := rp_root_table_du (position_of mdu_index) in let zb := z_for_cell (rp_root_table_cell (position_of mdu_index)) in
  let y := scalar_to_bytes_be (fr (from_be (root_cell mdu0 mdu_index))) in
  exists proof, compute_proof t ctx (subarray mdu0 (du * BLOB_SIZE) (du * BLOB_SIZE + BLOB_SIZE)) zb = Ok (proof, y)
    /\ verify_proof ctx (nth (Z.to_nat du) (mdu_commitments ctx mdu0) []) zb y proof = Ok true /\ blen proof = 48.
Proof.
  intros Ht Hs Hl Hok Hi du zb y. destruct (position_spec mdu_index Hi) as (_ & Hdu & Hc). fold du in Hdu.
  set (blob := subarray _ _ _).
  assert (Hb : blen blob = BLOB_SIZE).
  { unfold blob. change BLOB_SIZE with 131072. change MDU_SIZE with 8388608 in Hl. rewrite blen_subarray; lia. }
  assert (Hbok : Forall byte_ok blob) by by apply subarray_bytes.
  destruct (opening_exists t ctx tau blob (scalar_pow root_4096 (Z.to_nat (rp_root_table_cell (position_of mdu_index)))) Ht Hs Hb Hbok)
    as (c & proof & Hcom & Hproof & Hver).
  pose proof (cell_of_blob mdu0 mdu_index Hl Hok Hi : nth _ (bytes_to_scalars blob) scalar_zero = _) as Hcell.
  rewrite polynomial_cell in Hproof, Hver by (done || (pose proof DOMAIN_Z; lia)).
  change (Z.to_nat (rp_root_table_cell (position_of mdu_index))) with (Z.to_nat ((mdu_index - 1) mod SCALARS_PER_BLOB)) in Hproof, Hver.
  rewrite Hcell in Hproof, Hver. rewrite <- z_for_cell_bytes in Hproof, Hver by apply Hc.
  assert (Hnth : nth (Z.to_nat du) (mdu_commitments ctx mdu0) [] = c).
  { assert (Hd64 : 0 <= du < BLOBS_PER_MDU) by (change BLOBS_PER_MDU with 64; lia).
    rewrite (nth_lookup_Some _ _ _ _ (commitment_lookup ctx mdu0 du Hd64)). fold blob.
    rewrite blob_to_commitment_spec in Hcom; [by injection Hcom | done | by apply so_lagrange with tau | by apply setup_length with tau | done | done]. }
  exists proof. rewrite Hnth. split; [exact Hproof|]. split; [exact Hver|].
  unfold verify_proof in Hver. ok_step Hver. ok_step Hver. clear - Hv0. unfold parse_g1 in Hv0. ok_step Hv0. by bool_to_prop.
Qed.

Lemma root_table_opening t ctx tau mdu0 mdu_index target :
  target_ok t -> setup_ok ctx tau -> blen mdu0 = MDU_SIZE -> Forall byte_ok mdu0 ->
  blen target = 32 -> Forall byte_ok target -> 0 < mdu_index <= MDU0_ROOT_TABLE_CAPACITY ->
  exists commitments polyfs_root, mdu_to_kzg_commitments t ctx mdu0 = Ok commitments
    /\ create_mdu_merkle_root commitments = Ok polyfs_root
    /\ if decide (from_be (root_cell mdu0 mdu_index) mod FR_MODULUS = from_be target mod FR_MODULUS)
       then exists p, compute_mdu0_root_table_proof t ctx mdu0 mdu_index target = Ok p
         /\ verify_mdu0_root_table_proof ctx polyfs_root mdu_index target (tp_root_table_du_commitment p)
              (tp_root_table_du_merkle_proof p) (tp_root_table_opening_proof p) = Ok true
       else compute_mdu0_root_table_proof t ctx mdu0 mdu_index target
            = Err "root-table cell does not match target MDU root".
Proof.
  intros Ht Hs Hl Hok H32 Htok Hi. set (commitments := mdu_commitments ctx mdu0).
  destruct (tree_root_exists (map blake2s commitments)) as (root & Hroot & Hr32 & _).
  { intros H0. pose proof (length_commitments ctx mdu0) as Hlen. fold commitments in Hlen. apply (f_equal length) in H0.
    rewrite length_map in H0. cbn in H0. rewrite H0 in Hlen. discriminate Hlen. }
  destruct (position_spec mdu_index Hi) as (Hpos & Hdu & _).
  destruct (cell_opening t ctx tau mdu0 mdu_index Ht Hs Hl Hok Hi) as (proof & Hproof & Hver & H48).
  pose proof (mdu_commitments_spec t ctx tau mdu0 Ht Hs Hl Hok) as Hcom.
  exists commitments, root. split; [exact Hcom|]. split; [unfold create_mdu_merkle_root; by rewrite Hroot|].
  unfold compute_mdu0_root_table_proof. rewrite Hl, H32, Z.eqb_refl. cbn [negb orb Z.eqb Pos.eqb].
  rewrite Hpos, encode_root_spec, Hcom by done. cbn [bind]. rewrite Hproof. cbn [bind fst snd]. destruct (decide _) as [He|He].
  - apply fr_eq in He. rewrite He, bool_decide_eq_true_2 by done. eexists. split; [reflexivity|].
    cbn [tp_root_table_du_commitment tp_root_table_du_merkle_proof tp_root_table_opening_proof].
    assert (Hpath : verify_mdu_merkle_proof root (nth (Z.to_nat (rp_root_table_du (position_of mdu_index))) commitments [])
      (rp_root_table_du (position_of mdu_index)) (tree_proof (map blake2s commitments) (rp_root_table_du (position_of mdu_index))) BLOBS_PER_MDU = Ok true)
      by (apply commitment_path; [change BLOBS_PER_MDU with 64; lia | done | done]).
    fold commitments in Hver |- *. unfold verify_mdu0_root_table_proof.
    assert (Hc48 : blen (nth (Z.to_nat (rp_root_table_du (position_of mdu_index))) commitments []) = 48).
    { clear - Hpath. unfold verify_mdu_merkle_proof in Hpath. ok_step Hpath. by bool_to_prop. }
    rewrite Hr32, H32, Hc48, H48. cbn [Z.eqb Pos.eqb negb orb]. rewrite Hpos. cbn [bind]. rewrite Hpath. cbn [bind negb].
    rewrite encode_root_spec by done. cbn [bind]. by rewrite <- He.
  - rewrite bool_decide_eq_false_2; [done|]. intros Heq%scalar_bytes_inj%fr_eq. done.
Qed.
(** ** Theorems *)

(** For an MDU 0 of any content and an MDU in its table: if the cell of that MDU holds the
    root that is asked for, as a scalar, a proof is computed, and it verifies against the
    Merkle root of MDU 0; otherwise the computation says that the root does not match. *)
Theorem root_table_proof_verifies t ctx tau mdu0 mdu_index target :
  target_ok t -> setup_ok ctx tau -> blen mdu0 = MDU_SIZE -> Forall byte_ok mdu0 ->
  blen target = 32 -> Forall byte_ok target -> 0 < mdu_index <= MDU0_ROOT_TABLE_CAPACITY ->
  exists commitments polyfs_root, mdu_to_kzg_commitments t ctx mdu0 = Ok commitments
    /\ create_mdu_merkle_root commitments = Ok polyfs_root
    /\ if decide (from_be (root_cell mdu0 mdu_index) mod FR_MODULUS = from_be target mod FR_MODULUS)
       then exists p, compute_mdu0_root_table_proof t ctx mdu0 mdu_index target = Ok p
         /\ verify_mdu0_root_table_proof ctx polyfs_root mdu_index target (tp_root_table_du_commitment p)
              (tp_root_table_du_merkle_proof p) (tp_root_table_opening_proof p) = Ok true
       else compute_mdu0_root_table_proof t ctx mdu0 mdu_index target
            = Err "root-table cell does not match target MDU root".
Proof. apply root_table_opening. Qed.
End root_table.

(** ** An example: an empty table *)

#[local] Existing Instance Exponent.scalars.
#[local] Existing Instance Exponent.exponent_curve.
#[local] Existing Instance KzgProof.sample_build.
#[local] Existing Instance Exponent.exponent_laws.

#[local] Instance sample_trees : MerkleTrees := {|
  blake2s l := zeros 32;
  tree_root leaves := match leaves with [] => None | _ => Some (zeros 32) end;
  tree_proof leaves i := match merkle_sibling_count i (Z.of_nat (length leaves)) with Ok n => zeros (32 * n) | Err _ => [] end;
  tree_verify path root i leaf n := bool_decide (root = zeros 32) |}.

Lemma siblingLoop_nonneg fuel index leaves count : 0 <= count -> 0 <= siblingLoop fuel index leaves count.
Proof.
  revert index leaves count. induction fuel as [|fuel IH]; intros index leaves count Hc; [done|]. cbn [siblingLoop].
  destruct (1 <? leaves); [|done]. apply IH. destruct (_ <? _); lia.
Qed.

#[local] Instance sample_merkle : MerkleLaws.
Proof.
  constructor.
  - intros [|leaf leaves] H; [done|]. exists (zeros 32). split_and!; [done | done |]. apply Forall_replicate. unfold byte_ok. lia.
  - intros leaves i Hi. unfold tree_proof, sample_trees, merkle_sibling_count.
    rewrite (proj2 (Z.eqb_neq _ _)), (proj2 (Z.leb_gt _ _)) by lia. cbn [orb]. eexists. split; [reflexivity|].
    apply blen_zeros. pose proof (siblingLoop_nonneg (Z.to_nat (Z.of_nat (length leaves))) i (Z.of_nat (length leaves)) 0). lia.
  - intros [|leaf0 leaves] i leaf root _ Hl Hr; [done|]. unfold tree_root, sample_trees in Hr. injection Hr as <-. done.
Qed.

Lemma root_table_proof_verifies_witness :
  exists root p, compute_mdu0_root_table_proof sample_target sample_setup (zeros MDU_SIZE) 5000 (zeros 32) = Ok p
    /\ verify_mdu0_root_table_proof sample_setup root 5000 (zeros 32) (tp_root_table_du_commitment p)
         (tp_root_table_du_merkle_proof p) (tp_root_table_opening_proof p) = Ok true.
Proof.
  assert (Ht : target_ok sample_target) by (unfold target_ok; cbn; lia).
  assert (Hl : blen (zeros MDU_SIZE) = MDU_SIZE) by (apply blen_zeros; discriminate).
  assert (Hok : Forall byte_ok (zeros MDU_SIZE)) by (apply Forall_replicate; unfold byte_ok; lia).
  assert (Hok' : Forall byte_ok (zeros 32)) by (apply Forall_replicate; unfold byte_ok; lia).
  assert (Hi : 0 < 5000 <= MDU0_ROOT_TABLE_CAPACITY) by (split; [lia | discriminate]).
  destruct (root_table_proof_verifies sample_target sample_setup sample_tau (zeros MDU_SIZE) 5000 (zeros 32) Ht sample_setup_ok
    Hl Hok eq_refl Hok' Hi) as (commitments & root & _ & _ & H).
  destruct (decide _) as [_|He].
  - destruct H as (p & Hp & Hv). exact (ex_intro _ root (ex_intro _ p (conj Hp Hv))).
  - exfalso. apply He. rewrite (from_be_zero (root_cell (zeros MDU_SIZE) 5000)), (from_be_zero (zeros 32)).
    + exact eq_refl.
    + by apply Forall_replicate.
    + by apply Forall_take, Forall_drop, Forall_replicate.
Defined.
