(* ===== verification/SessionBatch.v ===== *)
(** * Batches of proofs

    Models src/polystore_core/src/session_batch.rs: the formats PSB1 (the proofs of one
    session) and PSB2 (of several), with [parse_record], [Batch::parse] and
    [CrossSessionBatch::parse], the transcripts and openings that are prepared from them,
    the coefficients, and the check of all openings with one equation.

    A record's paths are kept as their bytes.  [Option] results of the preparation are
    [None] where the source returns [Ok(None)]. *)

From S2P Require Import Prelude JsBytes Canonical Challenge FrField Curve Msm Kzg.
Local Open Scope Z_scope.

Definition SESSION_BATCH_MAX_PROOFS : Z := 64.
Definition SESSION_BATCH_MAX_BYTES : Z := 60522.
Definition CROSS_SESSION_BATCH_MAX_BYTES : Z := 70028.
Definition HEADER_BYTES : Z := 106.
Definition RECORD_BYTES : Z := 304.
Definition CROSS_SESSION_HEADER_BYTES : Z := 12.
Definition CROSS_SESSION_ENTRY_BYTES : Z := 134.
Definition CROSS_SESSION_RECORD_BYTES : Z := 320.
Definition MAX_LEAVES : Z := 16384.

Record BatchRecord := {
  br_mdu : Z; br_leaf : Z; br_root : bytes; br_root_commitment : bytes; br_root_proof : bytes; br_commitment : bytes;
  br_z : bytes; br_y : bytes; br_proof : bytes; br_root_path : bytes; br_blob_path : bytes }.
Record Batch := { ba_leaves : Z; ba_root : bytes; ba_context : bytes; ba_seed : bytes; ba_records : list BatchRecord }.

Record CrossSessionRecord := { cr_ordinal : Z; cr_t : Z; cr_proof : BatchRecord }.
Record CrossSessionEntry := {
  ce_session : bytes; ce_context : bytes; ce_seed : bytes; ce_root : bytes; ce_slot : Z; ce_records : list CrossSessionRecord }.
Record CrossSessionBatch := { cb_leaves : Z; cb_entries : list CrossSessionEntry }.

(** ** Parsing *)

Definition rlift {A} (r : result A) : reader A := fun l => let! a := r in Ok (a, l).

(** [for _ in 0..n { out.push(m?) }] *)
Fixpoint read_many {A} (n : nat) (m : reader A) : reader (list A) :=
  match n with
  | O => rret []
  | S n => read! x := m in read! xs := read_many n m in rret (x :: xs)
  end.

Definition parse_record (leaves : Z) : reader BatchRecord :=
  read! mdu := r_u64 in
  read! leaf := r_u32 in
  read! root := take_ 32 in
  read! root_commitment := take_ 48 in
  read! root_proof := take_ 48 in
  read! commitment := take_ 48 in
  read! z := take_ 32 in
  read! y := take_ 32 in
  read! proof := take_ 48 in
  read! _ := rlift (root_table_position_for_mdu_index mdu) in
  read! root_count := r_u16 in
  read! blob_count := r_u16 in
  reject_if negb (root_count =? 6) || (14 <? blob_count) else
  read! siblings := rlift (merkle_sibling_count leaf leaves) in
  reject_if negb (blob_count =? siblings) else
  read! root_path := take_ (root_count * 32) in
  read! blob_path := take_ (blob_count * 32) in
  rret {| br_mdu := mdu; br_leaf := leaf; br_root := root; br_root_commitment := root_commitment;
          br_root_proof := root_proof; br_commitment := commitment; br_z := z; br_y := y; br_proof := proof;
          br_root_path := root_path; br_blob_path := blob_path |}.

Definition batch_fields : reader Batch :=
  read! magic := take_ 4 in
  reject_if negb (bool_decide (magic = ascii "PSB1")) else
  read! n := r_u16 in
  read! leaves := r_u32 in
  reject_if (n =? 0) || (SESSION_BATCH_MAX_PROOFS <? n) || (leaves =? 0) || (MAX_LEAVES <? leaves) else
  read! root := take_ 32 in
  read! context := take_ 32 in
  read! seed := take_ 32 in
  read! records := read_many (Z.to_nat n) (parse_record leaves) in
  read! _ := r_end in
  rret {| ba_leaves := leaves; ba_root := root; ba_context := context; ba_seed := seed; ba_records := records |}.

(** [Batch::parse] *)
Definition batch_parse (bs : bytes) : result Batch :=
  throw_if (blen bs <? HEADER_BYTES + RECORD_BYTES) || (SESSION_BATCH_MAX_BYTES <? blen bs) with invalid else
  let! r := batch_fields bs in Ok r.1.

Definition cross_record (leaves : Z) : reader CrossSessionRecord :=
  read! ordinal := r_u64 in
  read! t := r_u64 in
  read! proof := parse_record leaves in
  rret {| cr_ordinal := ordinal; cr_t := t; cr_proof := proof |}.

(** [for _ in 0..entry_count], with the number of proofs that were announced so far. *)
Fixpoint cross_entries (n : nat) (leaves total_proofs parsed_proofs : Z) : reader (list CrossSessionEntry * Z) :=
  match n with
  | O => rret ([], parsed_proofs)
  | S n =>
      read! session := take_ 32 in
      read! context := take_ 32 in
      read! seed := take_ 32 in
      read! root := take_ 32 in
      read! slot := r_u32 in
      read! proof_count := r_u16 in
      reject_if (proof_count =? 0) || (total_proofs <? proof_count) || (total_proofs - proof_count <? parsed_proofs) else
      read! records := read_many (Z.to_nat proof_count) (cross_record leaves) in
      read! rest := cross_entries n leaves total_proofs (parsed_proofs + proof_count) in
      rret ({| ce_session := session; ce_context := context; ce_seed := seed; ce_root := root; ce_slot := slot;
               ce_records := records |} :: rest.1, rest.2)
  end.

Definition cross_fields : reader CrossSessionBatch :=
  read! magic := take_ 4 in
  reject_if negb (bool_decide (magic = ascii "PSB2")) else
  read! entry_count := r_u16 in
  read! total_proofs := r_u16 in
  read! leaves := r_u32 in
  reject_if (entry_count =? 0) || (SESSION_BATCH_MAX_PROOFS <? entry_count) || (total_proofs =? 0)
            || (SESSION_BATCH_MAX_PROOFS <? total_proofs) || (total_proofs <? entry_count) || negb (leaves =? 96) else
  read! entries := cross_entries (Z.to_nat entry_count) leaves total_proofs 0 in
  reject_if negb (entries.2 =? total_proofs) else
  read! _ := r_end in
  rret {| cb_leaves := leaves; cb_entries := entries.1 |}.

(** [CrossSessionBatch::parse] *)
Definition cross_parse (bs : bytes) : result CrossSessionBatch :=
  throw_if (blen bs <? CROSS_SESSION_HEADER_BYTES + CROSS_SESSION_ENTRY_BYTES + CROSS_SESSION_RECORD_BYTES)
           || (CROSS_SESSION_BATCH_MAX_BYTES <? blen bs) with invalid else
  let! r := cross_fields bs in Ok r.1.

(** ** Openings and their transcript *)

Definition TRUSTED_SETUP_SHA256 : bytes :=
  [0xd3; 0x9b; 0x9f; 0x2d; 0x04; 0x7c; 0xc9; 0xdc; 0xa2; 0xde; 0x58; 0xf2; 0x64; 0xb6; 0xa0; 0x94;
   0x48; 0xcc; 0xd3; 0x4d; 0xb9; 0x67; 0x88; 0x1a; 0x67; 0x13; 0xea; 0xca; 0xcf; 0x0f; 0x26; 0xb7].

Section batch.
Context `{curve : Curve} `{build : Build} `{trees : MerkleTrees} (sha256 : bytes -> bytes) (ctx : KzgContext).

Record Opening := { op_c : G1; op_z : Scalar; op_y : Scalar; op_p : G1 }.

(** The opening, and what it adds to the transcript. *)
Definition append_opening (role : Z) (c z y p : bytes) : result (bytes * Opening) :=
  let! c' := parse_g1 c in
  let! z' := parse_scalar z in
  let! y' := parse_scalar y in
  let! p' := parse_g1 p in
  Ok ([role] ++ c ++ z ++ y ++ p, {| op_c := c'; op_z := z'; op_y := y'; op_p := p' |}).

Fixpoint coefficient_from_candidates (attempts : nat) (retry : Z) (digest : Z -> bytes) : result Scalar :=
  match attempts with
  | O => Err "Batch coefficient rejection exhausted"
  | S attempts =>
      match parse_scalar (digest retry) with
      | Ok value => if bool_decide (value = scalar_zero) then coefficient_from_candidates attempts (retry + 1) digest else Ok value
      | Err _ => coefficient_from_candidates attempts (retry + 1) digest
      end
  end.
Definition coefficient_with_domain (domain hash : bytes) (index : Z) : result Scalar :=
  let prefix := append_lp domain ++ hash ++ be index 2 in
  coefficient_from_candidates 256 0 (fun retry => sha256 (prefix ++ be retry 2)).
Definition coefficient (hash : bytes) (index : Z) : result Scalar :=
  coefficient_with_domain (ascii "polystore/kzg-batch-coefficient/v1") hash index.
Definition cross_session_coefficient (hash : bytes) (index : Z) : result Scalar :=
  coefficient_with_domain (ascii "polystore/kzg-batch-coefficient/v2") hash index.

Definition checked_msm (points : list G1) (scalars : list Scalar) : result G1 :=
  throw_if negb (bool_decide (length points = length scalars)) || (4 * SESSION_BATCH_MAX_PROOFS <? Z.of_nat (length points))
    with invalid else
  msm_pippenger_g1_with_window points scalars (default_pippenger_window_size (Z.of_nat (length points))).

(** [for (opening, r) in openings.iter().zip(coefficients)]: the points and scalars of [A],
    and the weighted sum of the values. *)
Fixpoint weigh (openings : list Opening) (coefficients : list Scalar) (weighted_y : Scalar)
    : result (list G1 * list Scalar * Scalar) :=
  match openings, coefficients with
  | opening :: openings, r :: coefficients =>
      throw_if bool_decide (r = scalar_zero) with invalid else
      let! rest := weigh openings coefficients (scalar_add weighted_y (scalar_mul r (op_y opening))) in
      let '(points, scalars, weighted_y) := rest in
      Ok (op_c opening :: op_p opening :: points, r :: scalar_mul r (op_z opening) :: scalars, weighted_y)
  | _, _ => Ok ([], [], weighted_y)
  end.

Definition verify_opening_batch (openings : list Opening) (coefficients : list Scalar) : result bool :=
  throw_if bool_decide (openings = []) || (2 * SESSION_BATCH_MAX_PROOFS <? Z.of_nat (length openings))
           || negb (bool_decide (length openings = length coefficients)) with invalid else
  let! w := weigh openings coefficients scalar_zero in
  let '(points, scalars, weighted_y) := w in
  let! sum := checked_msm points scalars in
  let a := g1_add sum (g1_neg (g1_mul (g1_generator ctx) weighted_y)) in
  let! b := checked_msm (map op_p openings) coefficients in
  let minus_b := g1_neg b in
  Ok (bool_decide (gt_mul (pairing a (g2_h ctx)) (pairing minus_b (g2_tau ctx)) = gt_identity)).

Definition prepare_record_openings (root : bytes) (record : BatchRecord) (leaves : Z)
    : result (option (bytes * list Opening)) :=
  let! position := root_table_position_for_mdu_index (br_mdu record) in
  let! in_table := verify_mdu_merkle_proof root (br_root_commitment record) (rp_root_table_du position)
    (br_root_path record) 64 in
  if negb in_table then Ok None else
  let! in_mdu := verify_mdu_merkle_proof (br_root record) (br_commitment record) (br_leaf record) (br_blob_path record) leaves in
  if negb in_mdu then Ok None else
  let root_z := z_for_cell (rp_root_table_cell position) in
  let! root_y := encode_mdu_root_for_root_table (br_root record) in
  let! o0 := append_opening 0 (br_root_commitment record) root_z root_y (br_root_proof record) in
  let! o1 := append_opening 1 (br_commitment record) (br_z record) (br_y record) (br_proof record) in
  Ok (Some (br_root record ++ be (rp_root_table_du position) 2 ++ be (rp_root_table_cell position) 2 ++ o0.1 ++ o1.1,
            [o0.2; o1.2])).

(** The records from the [i]-th on. *)
Fixpoint prepareRecords (batch : Batch) (i : Z) (records : list BatchRecord) : result (option (bytes * list Opening)) :=
  match records with
  | [] => Ok (Some ([], []))
  | record :: records =>
      let! z := derive_z sha256 (ba_context batch) (ba_seed batch) i (br_mdu record) (br_leaf record) in
      if negb (bool_decide (br_z record = z)) then Ok None else
      let prefix := be i 2 ++ be i 8 ++ be (br_mdu record) 8 ++ be (br_leaf record) 4 ++ be (ba_leaves batch) 4 in
      let! opened := prepare_record_openings (ba_root batch) record (ba_leaves batch) in
      match opened with
      | None => Ok None
      | Some (transcript, openings) =>
          let! rest := prepareRecords batch (i + 1) records in
          Ok (match rest with
              | None => None
              | Some (transcript', openings') => Some (prefix ++ transcript ++ transcript', openings ++ openings')
              end)
      end
  end.

Definition prepare_session_batch (batch : Batch) : result (option (bytes * list Opening)) :=
  let n := Z.of_nat (length (ba_records batch)) in
  let header := append_lp (ascii "polystore/kzg-batch/v1") ++ TRUSTED_SETUP_SHA256 ++ be 4096 4
    ++ append_lp (ascii "bls12-381/fr-be/polyfs-natural-order") ++ be n 2 ++ be (2 * n) 2
    ++ ba_context batch ++ ba_seed batch ++ ba_root batch in
  let! prepared := prepareRecords batch 0 (ba_records batch) in
  Ok (match prepared with
      | None => None
      | Some (transcript, openings) => Some (header ++ transcript, openings)
      end).

(** [(0..openings.len()).map(|i| coefficient(&hash, i as u16))] *)
Definition coefficients_of (coefficient : bytes -> Z -> result Scalar) (hash : bytes) (openings : list Opening)
    : result (list Scalar) :=
  mapR (coefficient hash) (seqZ 0 (Z.of_nat (length openings))).

Definition verify_polyfs_session_batch (input : bytes) : result bool :=
  let! batch := batch_parse input in
  let! prepared := prepare_session_batch batch in
  match prepared with
  | None => Ok false
  | Some (transcript, openings) =>
      let! coefficients := coefficients_of coefficient (sha256 transcript) openings in
      verify_opening_batch openings coefficients
  end.

(** ** Batches of several sessions *)

(** The proofs of an entry from the [proof_index]-th on, with the index over all entries. *)
Fixpoint prepareProofs (leaves : Z) (entry : CrossSessionEntry) (flat_index proof_index : Z) (items : list CrossSessionRecord)
    : result (option (bytes * list Opening)) :=
  match items with
  | [] => Ok (Some ([], []))
  | item :: items =>
      let record := cr_proof item in
      let! z := derive_z_with_domain sha256 (ascii "polystore/blob-challenge/v3") (ce_context entry) (ce_seed entry)
        (cr_ordinal item) (Some (cr_t item)) (br_mdu record) (br_leaf record) in
      if negb (bool_decide (br_z record = z)) then Ok None else
      let prefix := be flat_index 2 ++ be proof_index 2 ++ be (cr_ordinal item) 8 ++ be (cr_t item) 8 ++ be (br_mdu record) 8
        ++ be (br_leaf record) 4 ++ be leaves 4 ++ be (blen (br_root_path record)) 2 ++ br_root_path record
        ++ be (blen (br_blob_path record)) 2 ++ br_blob_path record in
      let! opened := prepare_record_openings (ce_root entry) record leaves in
      match opened with
      | None => Ok None
      | Some (transcript, openings) =>
          let! rest := prepareProofs leaves entry (flat_index + 1) (proof_index + 1) items in
          Ok (match rest with
              | None => None
              | Some (transcript', openings') => Some (prefix ++ transcript ++ transcript', openings ++ openings')
              end)
      end
  end.

Fixpoint prepareEntries (leaves entry_index flat_index : Z) (entries : list CrossSessionEntry)
    : result (option (bytes * list Opening)) :=
  match entries with
  | [] => Ok (Some ([], []))
  | entry :: entries =>
      let count := Z.of_nat (length (ce_records entry)) in
      let prefix := be entry_index 2 ++ ce_session entry ++ ce_context entry ++ ce_seed entry ++ ce_root entry
        ++ be (ce_slot entry) 4 ++ be count 2 in
      let! proofs := prepareProofs leaves entry flat_index 0 (ce_records entry) in
      match proofs with
      | None => Ok None
      | Some (transcript, openings) =>
          let! rest := prepareEntries leaves (entry_index + 1) (flat_index + count) entries in
          Ok (match rest with
              | None => None
              | Some (transcript', openings') => Some (prefix ++ transcript ++ transcript', openings ++ openings')
              end)
      end
  end.

Definition prepare_cross_session_batch (batch : CrossSessionBatch) : result (option (bytes * list Opening)) :=
  let proof_count := Z.of_nat (length (concat (map ce_records (cb_entries batch)))) in
  let header := append_lp (ascii "polystore/kzg-cross-session-batch/v1") ++ TRUSTED_SETUP_SHA256 ++ be 4096 4
    ++ append_lp (ascii "bls12-381/fr-be/polyfs-natural-order") ++ be (Z.of_nat (length (cb_entries batch))) 2
    ++ be proof_count 2 ++ be (2 * proof_count) 2 in
  let! prepared := prepareEntries (cb_leaves batch) 0 0 (cb_entries batch) in
  Ok (match prepared with
      | None => None
      | Some (transcript, openings) => Some (header ++ transcript, openings)
      end).

Definition verify_polyfs_cross_session_batch (input : bytes) : result bool :=
  let! batch := cross_parse input in
  let! prepared := prepare_cross_session_batch batch in
  match prepared with
  | None => Ok false
  | Some (transcript, openings) =>
      let! coefficients := coefficients_of cross_session_coefficient (sha256 transcript) openings in
      verify_opening_batch openings coefficients
  end.
End batch.
