(* ===== verification/BatchProof.v ===== *)
(** * What a batch of openings proves

    Theory of SessionBatch.v.  Shown: the one equation that [verify_opening_batch] checks
    holds when every opening verifies on its own, for all coefficients, and fails when
    exactly one of them does not; and an opening that does not verify is hidden among
    others by at most one value of its coefficient. *)

From S2P Require Import Prelude JsBytes Canonical Challenge FrField Curve Msm Kzg KzgProof SessionBatch.
From Stdlib Require Import Ring Zmod.
Local Open Scope Z_scope.

Section batch.
Context `{laws : CurveLaws} `{build : Build} (ctx : KzgContext).
Add Ring scalars : scalar_ring.

(** The equation of [verify_proof] for one opening. *)
Definition opening_ok (o : Opening) : Prop :=
  pairing (op_p o) (g2_sub (g2_tau ctx) (g2_mul (g2_h ctx) (op_z o)))
  = pairing (g1_add (op_c o) (g1_neg (g1_mul (g1_generator ctx) (op_y o)))) (g2_h ctx).

#[global] Instance opening_ok_dec o : Decision (opening_ok o).
Proof. unfold opening_ok. apply _. Defined.

(** How far a pair of points is from satisfying the equation. *)
Definition defect (x y : G1) : Gt := gt_mul (pairing x (g2_h ctx)) (pairing y (g2_tau ctx)).
Definition left_point (o : Opening) : G1 :=
  g1_add (g1_add (op_c o) (g1_mul (op_p o) (op_z o))) (g1_neg (g1_mul (g1_generator ctx) (op_y o))).
Definition right_point (o : Opening) : G1 := g1_neg (op_p o).

Lemma gt_exchange a b c d : gt_mul (gt_mul a b) (gt_mul c d) = gt_mul (gt_mul a c) (gt_mul b d).
Proof. rewrite !gt_assoc. f_equal. by rewrite <- !gt_assoc, (gt_comm b c). Qed.

Lemma gt_id_r a : gt_mul a gt_identity = a.
Proof. by rewrite gt_comm, gt_id_l. Qed.

Lemma defect_add x y x' y' : defect (g1_add x x') (g1_add y y') = gt_mul (defect x y) (defect x' y').
Proof. unfold defect. rewrite !pairing_add. apply gt_exchange. Qed.

Lemma defect_identity : defect g1_identity g1_identity = gt_identity.
Proof. unfold defect. by rewrite !pairing_identity, gt_id_l. Qed.

Lemma defect_times n x y : 0 <= n -> defect x y = gt_identity -> defect (times n x) (times n y) = gt_identity.
Proof.
  intros Hn H. revert n Hn. apply natlike_ind; [apply defect_identity|]. intros n Hn IH. unfold Z.succ.
  by rewrite !times_succ, defect_add, H, IH, gt_id_l by done.
Qed.

(** A factor that is not zero changes nothing. *)
Lemma defect_scale x y r : r <> scalar_zero -> defect (g1_mul x r) (g1_mul y r) = gt_identity <-> defect x y = gt_identity.
Proof.
  assert (Hscale : forall u v s, defect u v = gt_identity -> defect (g1_mul u s) (g1_mul v s) = gt_identity).
  { intros u v s H. destruct (scalar_number s) as (n & Hn & _ & Hs). rewrite !Hs. apply defect_times; [lia | done]. }
  intros Hr. split; [|apply Hscale]. intros H. destruct (fr_invert r Hr) as (u & _ & Hu).
  apply (Hscale _ _ u) in H. by rewrite !g1_mul_mul, Hu, !g1_mul_one in H.
Qed.

Lemma opening_defect o : opening_ok o <-> defect (left_point o) (right_point o) = gt_identity.
Proof.
  unfold opening_ok, defect, left_point, right_point. set (p := op_p o). set (c := op_c o). set (yg := g1_neg _).
  assert (Hsub : gt_mul (pairing p (g2_sub (g2_tau ctx) (g2_mul (g2_h ctx) (op_z o)))) (pairing (g1_mul p (op_z o)) (g2_h ctx))
    = pairing p (g2_tau ctx)) by (rewrite <- pairing_mul; apply pairing_sub).
  assert (Hneg : gt_mul (pairing p (g2_tau ctx)) (pairing (g1_neg p) (g2_tau ctx)) = gt_identity)
    by (rewrite <- pairing_add, g1_neg_r; apply pairing_identity).
  assert (Hx : pairing (g1_add (g1_add c (g1_mul p (op_z o))) yg) (g2_h ctx)
    = gt_mul (pairing (g1_add c yg) (g2_h ctx)) (pairing (g1_mul p (op_z o)) (g2_h ctx))).
  { rewrite <- pairing_add. f_equal. rewrite <- !g1_assoc. f_equal. apply g1_comm. }
  rewrite Hx. split.
  - intros Heq. by rewrite <- Heq, Hsub.
  - intros Heq. apply (gt_cancel _ _ (pairing (g1_mul p (op_z o)) (g2_h ctx))). rewrite Hsub.
    apply (gt_cancel _ _ (pairing (g1_neg p) (g2_tau ctx))). by rewrite Hneg.
Qed.

(** ** The combined equation *)

Definition weighted_left (openings : list Opening) (rs : list Scalar) : G1 :=
  g1_sum (zip_with (fun o r => g1_mul (left_point o) r) openings rs).
Definition weighted_right (openings : list Opening) (rs : list Scalar) : G1 :=
  g1_sum (zip_with (fun o r => g1_mul (right_point o) r) openings rs).

Lemma g1_neg_add p q : g1_neg (g1_add p q) = g1_add (g1_neg p) (g1_neg q).
Proof.
  apply (g1_cancel _ _ (g1_add p q)). rewrite (g1_comm (g1_neg (g1_add p q))), g1_neg_r, g1_exchange.
  rewrite (g1_comm (g1_neg p)), (g1_comm (g1_neg q)), !g1_neg_r. symmetry. apply g1_id_l.
Qed.
Lemma g1_neg_identity : g1_neg g1_identity = g1_identity.
Proof. rewrite <- (g1_id_l (g1_neg g1_identity)). apply g1_neg_r. Qed.
Lemma g1_neg_mul p s : g1_mul (g1_neg p) s = g1_neg (g1_mul p s).
Proof.
  apply (g1_cancel _ _ (g1_mul p s)). rewrite <- g1_mul_point, (g1_comm (g1_neg p)), g1_neg_r, g1_mul_identity.
  symmetry. rewrite g1_comm. apply g1_neg_r.
Qed.

Lemma right_sum openings rs : g1_neg (combination (map op_p openings) rs) = weighted_right openings rs.
Proof.
  unfold combination, weighted_right. revert rs. induction openings as [|o openings IH]; intros [|r rs]; [apply g1_neg_identity..|].
  cbn [map zip_with]. rewrite !g1_sum_cons, g1_neg_add, IH. f_equal. symmetry. apply g1_neg_mul.
Qed.

Lemma weigh_spec openings rs y0 : length openings = length rs -> Forall (fun r => r <> scalar_zero) rs ->
  exists points scalars y, weigh openings rs y0 = Ok (points, scalars, y) /\ length points = length scalars
    /\ length points = (2 * length openings)%nat
    /\ g1_add (combination points scalars) (g1_neg (g1_mul (g1_generator ctx) y))
       = g1_add (weighted_left openings rs) (g1_neg (g1_mul (g1_generator ctx) y0)).
Proof.
  revert rs y0. induction openings as [|o openings IH]; intros [|r rs] y0 Hl Hr; try discriminate Hl.
  - exists [], [], y0. done.
  - apply Forall_cons in Hr as [Hr0 Hr]. injection Hl as Hl. cbn [weigh]. rewrite bool_decide_eq_false_2 by done.
    destruct (IH rs (scalar_add y0 (scalar_mul r (op_y o))) Hl Hr) as (points & scalars & y & -> & Hps & Hlen & Heq).
    eexists _, _, _. split; [reflexivity|]. cbn [length]. split; [lia|]. split; [lia|].
    change (combination (?a :: ?b :: ?l) (?s :: ?t :: ?m)) with (g1_add (g1_mul a s) (g1_add (g1_mul b t) (combination l m))).
    rewrite <- !g1_assoc, Heq. unfold weighted_left. cbn [zip_with]. rewrite g1_sum_cons. fold (weighted_left openings rs).
    unfold left_point at 1. rewrite !g1_mul_point, g1_neg_mul, !g1_mul_mul, g1_mul_add, g1_neg_add.
    rewrite (Rmul_comm scalar_ring (op_z o) r), (Rmul_comm scalar_ring (op_y o) r).
    set (W := weighted_left openings rs). set (C := g1_mul (op_c o) r). set (P := g1_mul (op_p o) _).
    set (Y := g1_neg (g1_mul _ (scalar_mul r _))). set (Y0 := g1_neg _).
    rewrite <- !g1_assoc. do 2 f_equal. rewrite g1_assoc. apply g1_comm.
Qed.

Lemma checked_msm_spec points scalars : length points = length scalars -> Z.of_nat (length points) <= 256 ->
  checked_msm points scalars = Ok (combination points scalars).
Proof.
  intros Hl Hn. unfold checked_msm. rewrite bool_decide_eq_true_2 by done. change (4 * SESSION_BATCH_MAX_PROOFS) with 256.
  rewrite (proj2 (Z.ltb_ge _ _)) by lia. cbn [negb orb]. apply msm_with_window_sum; [|done].
  pose proof (default_window_bounds (Z.of_nat (length points))). lia.
Qed.

(** The batch checks the weighted product of the defects. *)
Lemma verify_opening_batch_spec openings rs : openings <> [] -> Z.of_nat (length openings) <= 128 ->
  length openings = length rs -> Forall (fun r => r <> scalar_zero) rs ->
  verify_opening_batch ctx openings rs
  = Ok (bool_decide (defect (weighted_left openings rs) (weighted_right openings rs) = gt_identity)).
Proof.
  intros Hne Hn Hl Hr. unfold verify_opening_batch. rewrite bool_decide_eq_false_2, (bool_decide_eq_true_2 (_ = _)) by done.
  change (2 * SESSION_BATCH_MAX_PROOFS) with 128. rewrite (proj2 (Z.ltb_ge _ _)) by lia. cbn [negb orb].
  destruct (weigh_spec openings rs scalar_zero Hl Hr) as (points & scalars & y & -> & Hps & Hlen & Heq). cbn [bind].
  rewrite checked_msm_spec by (done || lia). cbn [bind]. rewrite checked_msm_spec by (rewrite length_map; (done || lia)). cbn [bind].
  rewrite Heq, g1_mul_zero, g1_neg_identity, g1_id_r, right_sum. done.
Qed.

Lemma weighted_defect_cons o r openings rs :
  defect (weighted_left (o :: openings) (r :: rs)) (weighted_right (o :: openings) (r :: rs))
  = gt_mul (defect (g1_mul (left_point o) r) (g1_mul (right_point o) r))
           (defect (weighted_left openings rs) (weighted_right openings rs)).
Proof. unfold weighted_left, weighted_right. cbn [zip_with]. rewrite !g1_sum_cons. apply defect_add. Qed.

Lemma weighted_defect_ok openings rs : Forall opening_ok openings -> Forall (fun r => r <> scalar_zero) rs ->
  length openings = length rs -> defect (weighted_left openings rs) (weighted_right openings rs) = gt_identity.
Proof.
  intros Ho. revert rs. induction Ho as [|o openings Hok _ IH]; intros [|r rs] Hr Hl; try discriminate Hl; [apply defect_identity|].
  apply Forall_cons in Hr as [Hr0 Hr]. injection Hl as Hl. rewrite weighted_defect_cons, (IH rs Hr Hl), gt_id_r.
  apply defect_scale; [done|]. by apply opening_defect.
Qed.

Lemma weighted_defect_single openings rs i o : openings !! i = Some o ->
  (forall j o', j <> i -> openings !! j = Some o' -> opening_ok o') ->
  Forall (fun r => r <> scalar_zero) rs -> length openings = length rs ->
  defect (weighted_left openings rs) (weighted_right openings rs) = gt_identity <-> opening_ok o.
Proof.
  revert rs i. induction openings as [|o0 openings IH]; intros [|r rs] i Hi Hother Hr Hl; try done.
  apply Forall_cons in Hr as [Hr0 Hr]. injection Hl as Hl. rewrite weighted_defect_cons, opening_defect. destruct i as [|i].
  - injection Hi as ->. rewrite (weighted_defect_ok openings rs), gt_id_r; [by apply defect_scale | | done | done].
    apply Forall_lookup. intros j o' Hj. by apply (Hother (S j)).
  - assert (Hok : opening_ok o0) by by apply (Hother 0%nat).
    apply opening_defect in Hok. rewrite (proj2 (defect_scale _ _ r Hr0) Hok), gt_id_l, <- opening_defect.
    apply (IH rs i); [done | | done | done]. intros j o' Hj Hlook. apply (Hother (S j)); [lia | done].
Qed.

(** What one coefficient contributes. *)
Lemma weighted_defect_insert openings rs i o : openings !! i = Some o -> length openings = length rs ->
  exists rest, forall s, defect (weighted_left openings (<[i:=s]> rs)) (weighted_right openings (<[i:=s]> rs))
    = gt_mul (defect (g1_mul (left_point o) s) (g1_mul (right_point o) s)) rest.
Proof.
  revert rs i. induction openings as [|o0 openings IH]; intros [|r rs] i Hi Hl; try done. injection Hl as Hl. destruct i as [|i].
  - injection Hi as ->. eexists. intros s. change (<[0%nat:=s]> (r :: rs)) with (s :: rs). apply weighted_defect_cons.
  - destruct (IH rs i Hi Hl) as [rest Hrest].
    exists (gt_mul (defect (g1_mul (left_point o0) r) (g1_mul (right_point o0) r)) rest). intros s.
    change (<[S i:=s]> (r :: rs)) with (r :: <[i:=s]> rs). rewrite weighted_defect_cons, Hrest, !gt_assoc. f_equal. apply gt_comm.
Qed.

(** An opening that does not verify is hidden by at most one value of its coefficient. *)
Lemma weighted_defect_unique openings rs i o r r' : openings !! i = Some o -> rs !! i = Some r ->
  length openings = length rs -> ~ opening_ok o ->
  defect (weighted_left openings rs) (weighted_right openings rs) = gt_identity ->
  defect (weighted_left openings (<[i:=r']> rs)) (weighted_right openings (<[i:=r']> rs)) = gt_identity -> r' = r.
Proof.
  intros Ho Hr Hl Hbad H H'. destruct (weighted_defect_insert openings rs i o Ho Hl) as [rest Hrest].
  rewrite <- (list_insert_id rs i r Hr), Hrest in H. rewrite Hrest in H'.
  destruct (decide (scalar_sub r' r = scalar_zero)) as [Heq|Hne].
  { transitivity (scalar_add (scalar_sub r' r) r); [ring|]. rewrite Heq. ring. }
  exfalso. apply Hbad, opening_defect, (defect_scale _ _ _ Hne).
  apply (gt_cancel _ _ (defect (g1_mul (left_point o) r) (g1_mul (right_point o) r))).
  rewrite gt_id_l, <- defect_add, <- !g1_mul_add. replace (scalar_add (scalar_sub r' r) r) with r' by ring.
  apply (gt_cancel _ _ rest). by rewrite H, H'.
Qed.

(** ** Theorems *)

Definition batch_size_ok (openings : list Opening) (rs : list Scalar) : Prop :=
  Z.of_nat (length openings) <= 128 /\ length openings = length rs /\ Forall (fun r => r <> scalar_zero) rs.

(** C13: One bad opening cannot hide in a batch: whatever the coefficients, as long as none is
    zero, a batch in which all openings but one verify is accepted exactly when that one
    verifies as well.  The check itself never fails on a batch of a legal size. *)
Theorem batch_detects_bad_opening openings rs i o :
  batch_size_ok openings rs -> openings !! i = Some o ->
  (forall j o', j <> i -> openings !! j = Some o' -> opening_ok o') ->
  verify_opening_batch ctx openings rs = Ok (bool_decide (opening_ok o)).
Proof.
  intros (Hn & Hl & Hr) Hi Hother. rewrite verify_opening_batch_spec; [|by intros ->|done|done|done].
  f_equal. apply bool_decide_ext. by apply (weighted_defect_single openings rs i).
Qed.

(** A batch that is accepted: every opening in it verifies, or its coefficient is the one
    value, of all that are not zero, that hides it among the others. *)
Lemma batch_binds openings rs i o r : Forall (fun r => r <> scalar_zero) rs ->
  verify_opening_batch ctx openings rs = Ok true -> openings !! i = Some o -> rs !! i = Some r ->
  opening_ok o
  \/ forall r', r' <> scalar_zero -> verify_opening_batch ctx openings (<[i:=r']> rs) = Ok true -> r' = r.
Proof.
  intros Hr H Ho Hi. assert (Hsize : openings <> [] /\ Z.of_nat (length openings) <= 128 /\ length openings = length rs).
  { unfold verify_opening_batch in H. ok_step H. bool_to_prop. change (2 * SESSION_BATCH_MAX_PROOFS) with 128 in *. by split_and!; [eapply bool_decide_eq_false_1 | | eapply bool_decide_eq_true_1]; eauto. }
  destruct Hsize as (Hne & Hn & Hl). destruct (decide (opening_ok o)) as [|Hbad]; [by left|right]. intros r' Hr' H'.
  rewrite verify_opening_batch_spec in H, H' by (done || rewrite ?length_insert; done || by apply Forall_insert).
  apply Ok_inj, bool_decide_eq_true in H, H'. exact (weighted_defect_unique openings rs i o r r' Ho Hi Hl Hbad H H').
Qed.

Lemma batch_accepts openings rs : batch_size_ok openings rs -> openings <> [] -> Forall opening_ok openings ->
  verify_opening_batch ctx openings rs = Ok true.
Proof.
  intros (Hn & Hl & Hr) Hne Hok. rewrite verify_opening_batch_spec by done. f_equal.
  apply bool_decide_eq_true_2. by apply weighted_defect_ok.
Qed.

(** An opening read from bytes is the one that [verify_proof] checks. *)
Lemma opening_verified role c z y p bs o : append_opening role c z y p = Ok (bs, o) ->
  verify_proof ctx c z y p = Ok (bool_decide (opening_ok o)).
Proof.
  unfold append_opening, verify_proof. intros H. do 4 ok_step H. apply Ok_inj in H. injection H as _ <-.
  by rewrite Hv, Hv2, Hv0, Hv1.
Qed.
End batch.

(** ** A batch with one bad opening *)

#[local] Existing Instance Exponent.scalars.
#[local] Existing Instance Exponent.exponent_curve.
#[local] Existing Instance KzgProof.sample_build.
#[local] Existing Instance Exponent.exponent_laws.

(** The commitment of the polynomial x under the secret 5, opened at 2, and a wrong claim
    about its value at 3. *)
Definition batch_setup : KzgContext :=
  {| g1_points := []; g2_h := Exponent.el 1; g2_tau := Exponent.el 5; g1_generator := Exponent.el 1;
     g1_points_are_monomial := true |}.
Definition good_opening : Opening :=
  {| op_c := Exponent.el 5; op_z := Exponent.el 2; op_y := Exponent.el 2; op_p := Exponent.el 1 |}.
Definition bad_opening : Opening :=
  {| op_c := Exponent.el 5; op_z := Exponent.el 3; op_y := Exponent.el 4; op_p := Exponent.el 1 |}.

Lemma batch_detects_bad_opening_witness :
  verify_opening_batch batch_setup [good_opening; bad_opening] [Exponent.el 7; Exponent.el 9] = Ok false.
Proof.
  rewrite (batch_detects_bad_opening batch_setup [good_opening; bad_opening] [Exponent.el 7; Exponent.el 9] 1 bad_opening).
  - rewrite bool_decide_eq_false_2; [reflexivity|]. intros H. apply (f_equal Zmod.to_Z) in H. vm_compute in H. discriminate H.
  - split_and!; [vm_compute; discriminate | reflexivity |].
    repeat constructor; intros H; apply (f_equal Zmod.to_Z) in H; vm_compute in H; discriminate H.
  - reflexivity.
  - intros [|[|j]] o' Hj Ho; cbn in Ho; [|done|done]. injection Ho as <-. unfold opening_ok. vm_compute. reflexivity.
Defined.
