(* ===== verification/Sessions.v ===== *)
(** * Frozen sessions of the older protocol

    Models the chain queries of src/polystore-website/src/lib/retrieval.ts
    ([committedQuery], [fetchPinnedGeneration], [fetchRetrievalAvailability],
    [fetchActiveRetrievalGeneration], [fetchFrozenSession]) and [parseFrozenSession]: a
    session that the chain reports is accepted only when it is the one that was asked for
    and the chain's challenge context is the one these values encode.

    The node is an argument: a function from a path and a height to its answer; every
    query of a function has its own path or height.  Decoding and parsing JSON is a
    parameter. *)

From S2P Require Import Prelude JsMap JsNumber JsBytes JsString JsText Encoding Layout Windows Pinned Canonical Response.
From Stdlib Require Import Ascii.
Local Open Scope Z_scope.

Definition RETRIEVAL_SETUP : string := "d39b9f2d047cc9dca2de58f264b6a09448ccd34db967881a6713eacacf0f26b7".

Record FrozenSession := {
  fz_browserTransactionKey : option string; fz_sessionId : string; fz_pin : PinnedGeneration;
  fz_window : RetrievalWindow; fz_owner : string; fz_payee : string; fz_height : Z; fz_openedHeight : Z;
  fz_expiry : Z; fz_status : Z; fz_funding : Z; fz_context : bytes; fz_contextHash : bytes;
  fz_seed : option bytes }.

(** What a session is asked for with; [ex_payee] is [None] also for an empty string. *)
Record ExpectedSession := {
  ex_sessionId : string; ex_pin : PinnedGeneration; ex_window : RetrievalWindow; ex_owner : string;
  ex_payee : option string; ex_funding : Z }.

Definition U32_MAX : Z := 2 ^ 32 - 1.

(** [/^(0|[1-9][0-9]{0,77})$/] and below [2 ^ 256] *)
Definition isAmount (value : unknown) : bool :=
  match value with
  | Some (JStr s) => canonical_decimal s && (slen s <=? 78) && (parse_decimal s <? 2 ^ 256)
  | _ => false
  end.

(** [value == null || value === ''] *)
Definition absent (value : unknown) : bool :=
  match value with None | Some JNull => true | Some (JStr s) => String.eqb s "" | _ => false end.

Definition STATUS_NAMES : list string :=
  ["RETRIEVAL_SESSION_STATUS_UNSPECIFIED"; "RETRIEVAL_SESSION_STATUS_OPEN"; "RETRIEVAL_SESSION_STATUS_PROOF_SUBMITTED";
   "RETRIEVAL_SESSION_STATUS_USER_CONFIRMED"; "RETRIEVAL_SESSION_STATUS_COMPLETED"; "RETRIEVAL_SESSION_STATUS_EXPIRED";
   "RETRIEVAL_SESSION_STATUS_CANCELED"].
Definition FUNDING_NAMES : list string :=
  ["RETRIEVAL_SESSION_FUNDING_UNSPECIFIED"; "RETRIEVAL_SESSION_FUNDING_DEAL_ESCROW"; "RETRIEVAL_SESSION_FUNDING_REQUESTER";
   "RETRIEVAL_SESSION_FUNDING_PROTOCOL"].
Definition PURPOSE_NAMES : list string :=
  ["RETRIEVAL_SESSION_PURPOSE_UNSPECIFIED"; "RETRIEVAL_SESSION_PURPOSE_USER"; "RETRIEVAL_SESSION_PURPOSE_PROTOCOL_AUDIT";
   "RETRIEVAL_SESSION_PURPOSE_PROTOCOL_REPAIR"].

(** The parts of [context]. *)
Definition contextParts (pin : PinnedGeneration) (window : RetrievalWindow)
    (setup id root assigned payee : bytes) (openedHeight expiry : Z) : list bytes :=
  [lp "polystore/challenge-context/v2"; be 2 4; lp (p_chainId pin); setup; [1]; id;
   be (p_dealId pin) 8; be (p_generation pin) 8; root; assigned; payee; be (p_layout pin) 1;
   be (p_k pin) 4; be (p_m pin) 4; be (w_slot window) 4;
   be (metadataMdus pin) 8; be (userMdus pin) 8; be (mduIndex window) 8;
   be (startBlobIndex window) 4; be (blobCount window) 8; be 0 8; be 0 8; be 0 8; be openedHeight 8;
   be (openedHeight + 1) 8; be (openedHeight + 2) 8; be expiry 8; be (p_endHeight pin) 8].

Definition encodeContext (pin : PinnedGeneration) (window : RetrievalWindow)
    (setup id root assigned payee : bytes) (openedHeight expiry : Z) : bytes :=
  concat (contextParts pin window setup id root assigned payee openedHeight expiry).

Definition is_str (v : unknown) (s : string) : bool := match v with Some (JStr t) => String.eqb t s | _ => false end.

Section sessions.
Context `{bech : Bech32}.

Definition addressBytes (v : string) : result bytes :=
  let! decoded := bech32_decode v in bech32_fromWords decoded.2.

Definition parseFrozenSession (payload : unknown) (height : Z) (expected : ExpectedSession)
    : result FrozenSession :=
  let! response := record payload in
  let! s := record (mget response "session") in
  let! x := record (mget s "challenge_snapshot") in
  let pin := ex_pin expected in
  let window := ex_window expected in
  let! id := base64Of (mget s "session_id") 32 in
  let sessionId := hex id in
  let! root := base64Of (mget s "manifest_root") 32 in
  let! setup := base64Of (mget x "setup_digest") 32 in
  let! owner := account (mget s "owner") in
  let! assigned := account (mget s "provider") in
  let! payee := account (mget s "authorized_proof_provider") in
  let! openedHeight := protoU64 (mget s "opened_height") in
  let! expiry := protoU64 (mget s "expires_at") in
  let! status := enumeration (mget s "status") STATUS_NAMES in
  let! funding := enumeration (mget s "funding") FUNDING_NAMES in
  let! purpose := enumeration (mget s "purpose") PURPOSE_NAMES in
  let mismatch := "session does not match authorized request"%string in
  let! version := protoUint (mget s "challenge_version") U32_MAX in
  throw_if negb (version =? 2) || negb (String.eqb sessionId (ex_sessionId expected))
           || negb (String.eqb (hex root) (p_root pin)) with mismatch else
  let! dealId := protoU64 (mget s "deal_id") in
  throw_if negb (dealId =? p_dealId pin) || negb (String.eqb owner (ex_owner expected))
           || negb (String.eqb assigned (w_provider window))
           || negb (String.eqb payee (default assigned (ex_payee expected)))
           || negb (funding =? ex_funding expected) || negb (purpose =? 1)
           || negb (is_str (mget x "chain_id") (p_chainId pin))
           || negb (String.eqb (hex setup) ("0x" +:+ RETRIEVAL_SETUP)) with mismatch else
  let! generation := protoU64 (mget x "generation") in
  throw_if negb (generation =? p_generation pin) with mismatch else
  let! layout := protoUint (mget x "layout") U32_MAX in
  throw_if negb (layout =? p_layout pin) with mismatch else
  let! k := protoUint (mget x "k") U32_MAX in
  throw_if negb (k =? p_k pin) with mismatch else
  let! m := protoUint (mget x "m") U32_MAX in
  throw_if negb (m =? p_m pin) with mismatch else
  let! slot := protoUint (mget x "slot") U32_MAX in
  throw_if negb (slot =? w_slot window) with mismatch else
  let! metadata := protoU64 (mget x "metadata_mdus") in
  throw_if negb (metadata =? metadataMdus pin) with mismatch else
  let! user := protoU64 (mget x "user_mdus") in
  throw_if negb (user =? userMdus pin) with mismatch else
  let! dealEnd := protoU64 (mget x "deal_end") in
  throw_if negb (dealEnd =? p_endHeight pin) with mismatch else
  let! startMdu := protoU64 (mget s "start_mdu_index") in
  throw_if negb (startMdu =? mduIndex window) with mismatch else
  let! startBlob := protoUint (mget s "start_blob_index") U32_MAX in
  throw_if negb (startBlob =? startBlobIndex window) with mismatch else
  let! blobs := protoU64 (mget s "blob_count") in
  throw_if negb (blobs =? blobCount window) with mismatch else
  let! total := protoU64 (mget s "total_bytes") in
  throw_if negb (total =? blobCount window * BLOB_SIZE_BYTES) || (openedHeight =? 0)
           || (openedHeight <? p_height pin) || (expiry <? openedHeight + 2) || (p_endHeight pin <? expiry)
           || (2 ^ 63 - 1 <? expiry) || (height <? openedHeight) || (expiry <? height)
           || (status <? 1) || (4 <? status) with mismatch else
  let! _ := protoU64 (mget s "nonce") in
  let! _ := protoU64 (mget s "updated_height") in
  let unfunded := "invalid session funding"%string in
  throw_if negb (isAmount (mget s "locked_fee")) with unfunded else
  let! wrongPayer :=
    if funding =? 2 then let! payer := account (mget s "payer") in Ok (negb (String.eqb payer owner))
    else Ok (negb match mget s "payer" with None => true | Some (JStr s) => String.eqb s "" | _ => false end) in
  throw_if wrongPayer with unfunded else
  let! idBytes := unhex sessionId 32 in
  let! assignedBytes := addressBytes assigned in
  let! payeeBytes := addressBytes payee in
  let context := encodeContext pin window setup idBytes root assignedBytes payeeBytes openedHeight expiry in
  let! reported := base64Of (mget response "challenge_context") (blen context) in
  throw_if negb (equal context reported) with "nonmatching canonical challenge context" else
  let! contextHash := base64Of (mget response "challenge_context_hash") 32 in
  let! seed := if absent (mget response "challenge_seed") then Ok None
               else let! seed := base64Of (mget response "challenge_seed") 32 in Ok (Some seed) in
  Ok {| fz_browserTransactionKey := None; fz_sessionId := sessionId; fz_pin := pin; fz_window := window;
        fz_owner := owner; fz_payee := payee; fz_height := height; fz_openedHeight := openedHeight;
        fz_expiry := expiry; fz_status := status; fz_funding := funding; fz_context := context;
        fz_contextHash := contextHash; fz_seed := seed |}.

(** ** Queries of the chain *)

(** [encodeURIComponent] *)
Definition unreserved (c : Z) : bool :=
  ((48 <=? c) && (c <=? 57)) || ((65 <=? c) && (c <=? 90)) || ((97 <=? c) && (c <=? 122))
  || bool_decide (c ∈ [45; 95; 46; 33; 126; 42; 39; 40; 41]).
Definition hexUpper (n : Z) : Z := if n <? 10 then 48 + n else 55 + n.
Definition encodeURIComponent (s : string) : string :=
  of_codes (concat (map (fun c => if unreserved c then [c]
    else concat (map (fun b => [37; hexUpper (b / 16); hexUpper (b mod 16)]) (encode_char c))) (codes s))).

(** The identifier as URL-safe base 64. *)
Definition lcdSessionID (sessionId : string) : result string :=
  let! id := unhex sessionId 32 in
  Ok (of_codes (map (fun c => if c =? 43 then 45 else if c =? 47 then 95 else c) (codes (btoa id)))).

Definition API : string := "/polystorechain/polystorechain/v1".

Section queries.
Context (json_parse : bytes -> result json).
(** The answer to a query at a path, at a height when one is asked for. *)
Context (node : string -> option Z -> result Response).

Definition committedQuery (path : string) (height : option Z) : result (json * Z) :=
  let! res := node path height in
  throw_if negb (r_ok res) with "chain query failed (" +:+ pretty (r_status res) +:+ ")" else
  match u64 (JStr <$> r_blockHeight res) with
  | Err _ => Err "missing or malformed committed height"
  | Ok actual =>
      throw_if (actual =? 0) || match height with Some h => negb (actual =? h) | None => false end
        with "missing or mismatched committed height" else
      let! body := readBoundedResponse res (256 * 1024) in
      let! payload := json_parse body in
      Ok (payload, actual)
  end.

Definition fetchPinnedGeneration (chainId dealId : string) : result PinnedGeneration :=
  let! id := u64 (Some (JStr dealId)) in
  let! answer := committedQuery (API +:+ "/deals/" +:+ pretty id) None in
  let '(payload, height) := answer in
  parsePinnedGeneration (Some payload) chainId height id.

(** [Some reason] when verified downloads are unavailable. *)
Definition fetchRetrievalAvailability (height : option Z) : result (option string) :=
  let! answer := committedQuery (API +:+ "/params") height in
  let '(payload, actual) := answer in
  let! p := record (Some payload) in
  let! params := record (mget p "params") in
  let! v2 := protoU64 (mget params "retrieval_v2_activation_height") in
  let! v3 := protoU64 (mget params "retrieval_v3_activation_height") in
  match List.filter (fun value => 0 <? value) [v2; v3] with
  | [] => Ok (Some "Verified downloads are unavailable until this network activates secured retrieval.")
  | a :: rest =>
      let activation := foldl (fun earliest value => if value <? earliest then value else earliest) a rest in
      if actual <? activation
      then Ok (Some ("Verified downloads become available at block " +:+ pretty activation +:+ " (current block "
                     +:+ pretty actual +:+ ")."))
      else Ok None
  end.

Definition fetchActiveRetrievalGeneration (chainId dealId : string) : result PinnedGeneration :=
  let! pin := fetchPinnedGeneration chainId dealId in
  let! unavailable := fetchRetrievalAvailability (Some (p_height pin)) in
  match unavailable with
  | Some reason => Err reason
  | None => Ok pin
  end.

Definition fetchFrozenSession (expected : ExpectedSession) : result FrozenSession :=
  let! id := lcdSessionID (ex_sessionId expected) in
  let! answer := committedQuery (API +:+ "/retrieval-sessions/" +:+ encodeURIComponent id) None in
  let '(payload, height) := answer in
  parseFrozenSession (Some payload) height expected.
End queries.

(** ** Lemmas *)

Lemma account_bytes v s : account v = Ok s -> v = Some (JStr s) /\ exists bs, addressBytes s = Ok bs /\ blen bs = 20.
Proof.
  unfold account, addressBytes. destruct v as [[]|]; try done. intros H. ok_steps H. bool_to_prop.
  split; [done|]. exists v0. rewrite Hv. cbn [bind]. by rewrite Hv0.
Qed.

Lemma base64Of_bytes v n l : 0 <= n <= MAX_SAFE_INTEGER -> base64Of v n = Ok l ->
  v = Some (JStr (btoa l)) /\ Forall byte_ok l /\ blen l = n.
Proof.
  intros Hn. unfold base64Of. destruct v as [[]|]; try done. intros (-> & ? & ?)%base64_iff; done.
Qed.

Lemma hex_inj l l' : Forall byte_ok l -> Forall byte_ok l' -> hex l = hex l' -> l = l'.
Proof.
  intros Hl Hl' H. apply (f_equal codes) in H. rewrite !codes_hex in H by done. injection H as H.
  pose proof (unhex_hex_codes l Hl) as (H1 & _ & _). pose proof (unhex_hex_codes l' Hl') as (H2 & _ & _).
  congruence.
Qed.

(** What a session that was accepted is known to be. *)
Record accepted (e : ExpectedSession) (height : Z) (f : FrozenSession) : Prop := {
  ac_pin : fz_pin f = ex_pin e;
  ac_window : fz_window f = ex_window e;
  ac_id : fz_sessionId f = ex_sessionId e;
  ac_owner : fz_owner f = ex_owner e;
  ac_payee : fz_payee f = default (w_provider (ex_window e)) (ex_payee e);
  ac_funding : fz_funding f = ex_funding e;
  ac_heights : fz_height f = height /\ 0 < fz_openedHeight f /\ p_height (ex_pin e) <= fz_openedHeight f
    /\ fz_openedHeight f + 2 <= fz_expiry f /\ fz_expiry f <= p_endHeight (ex_pin e)
    /\ fz_expiry f < 2 ^ 63 /\ fz_openedHeight f <= height <= fz_expiry f;
  ac_status : 1 <= fz_status f <= 4;
  ac_u64 : Forall (fun v => 0 <= v <= U64_MAX)
    [p_dealId (ex_pin e); p_generation (ex_pin e); metadataMdus (ex_pin e); userMdus (ex_pin e);
     p_endHeight (ex_pin e); mduIndex (ex_window e); blobCount (ex_window e)];
  ac_u32 : Forall (fun v => 0 <= v < 2 ^ 32)
    [p_layout (ex_pin e); p_k (ex_pin e); p_m (ex_pin e); w_slot (ex_window e); startBlobIndex (ex_window e)];
  ac_context : exists setup id root assigned payee,
    fz_context f = encodeContext (ex_pin e) (ex_window e) setup id root assigned payee
                     (fz_openedHeight f) (fz_expiry f)
    /\ blen setup = 32
    /\ fz_sessionId f = hex id /\ blen id = 32
    /\ p_root (ex_pin e) = hex root /\ Forall byte_ok root /\ blen root = 32
    /\ addressBytes (w_provider (ex_window e)) = Ok assigned /\ blen assigned = 20
    /\ addressBytes (fz_payee f) = Ok payee /\ blen payee = 20 }.

Lemma protoUint_u32 v n : protoUint v U32_MAX = Ok n -> 0 <= n < 2 ^ 32.
Proof. intros H. apply protoUint_bounds in H; unfold U32_MAX in *; lia. Qed.

#[local] Opaque encodeContext.
Lemma parseFrozenSession_accepted payload height e f : parseFrozenSession payload height e = Ok f -> accepted e height f.
Proof.
  unfold parseFrozenSession. cbv zeta. intros H. ok_steps H. bool_to_prop.
  repeat match goal with H : String.eqb _ _ = true |- _ => apply String.eqb_eq in H end.
  repeat match goal with
  | H : protoU64 _ = Ok _ |- _ => apply protoU64_bounds in H
  | H : protoUint _ U32_MAX = Ok _ |- _ => apply protoUint_u32 in H
  | H : account _ = Ok _ |- _ => apply account_bytes in H as [_ (? & ? & ?)]
  | H : base64Of _ 32 = Ok _ |- _ => apply base64Of_bytes in H as (_ & ? & ?); [|unfold MAX_SAFE_INTEGER; lia]
  | H : unhex _ 32 = Ok _ |- _ => apply unhex_iff in H as (? & _ & _ & ?)
  end.
  subst. constructor; cbn [fz_pin fz_window fz_sessionId fz_owner fz_payee fz_funding fz_height fz_openedHeight fz_expiry
    fz_status fz_context]; try done; try lia.
  - by repeat (apply Forall_cons_2; [lia|]).
  - by repeat (apply Forall_cons_2; [lia|]).
  - eexists _, _, _, _, _. split; [reflexivity|]. split_and!; (done || congruence).
Qed.
#[local] Transparent encodeContext.

Lemma utf8_length_encode s : utf8_length s = blen (TextEncoder_encode s).
Proof.
  unfold TextEncoder_encode, codes. induction s as [|c s IH]; [done|]. cbn [utf8_length String.list_ascii_of_string map concat].
  rewrite blen_app, <- IH. unfold encode_char. by destruct (code c <? 128).
Qed.

(** A generation that was read from the chain. *)
Definition pin_parsed (pin : PinnedGeneration) : Prop :=
  exists payload chainId height dealId, parsePinnedGeneration payload chainId height dealId = Ok pin.

Lemma pin_parsed_facts pin : pin_parsed pin -> short (p_chainId pin) /\ 0 <= p_layout pin < 256.
Proof.
  intros (payload & chainId & height & dealId & Hp). pose proof (parsePinnedGeneration_wf _ _ _ _ _ Hp) as [Hl _].
  split; [|lia]. unfold parsePinnedGeneration in Hp. ok_steps Hp. bool_to_prop. cbn [p_chainId].
  unfold short. rewrite <- utf8_length_encode. lia.
Qed.

Lemma delimited_context pin window setup id root a b o x pin' window' setup' id' root' a' b' o' x' :
  short (p_chainId pin) -> short (p_chainId pin') -> blen setup = blen setup' -> blen id = blen id' ->
  blen root = blen root' -> blen a = blen a' -> blen b = blen b' ->
  encodeContext pin window setup id root a b o x = encodeContext pin' window' setup' id' root' a' b' o' x' ->
  contextParts pin window setup id root a b o x = contextParts pin' window' setup' id' root' a' b' o' x'.
Proof.
  unfold encodeContext, blen. intros Hc Hc' Hs Hi Hr Ha Hb. apply concat_delimited.
  repeat (apply Forall2_cons; split);
    first [apply delimited_be | by apply delimited_lp | apply delimited_length; (done || lia) | apply Forall2_nil; done | idtac].
Qed.

(** ** Theorems *)

(** What the challenge context commits to. *)
Definition session_identity (f : FrozenSession) :=
  (fz_sessionId f,
   (p_chainId (fz_pin f), p_dealId (fz_pin f), p_generation (fz_pin f), p_root (fz_pin f), p_endHeight (fz_pin f)),
   (p_layout (fz_pin f), p_k (fz_pin f), p_m (fz_pin f), metadataMdus (fz_pin f), userMdus (fz_pin f)),
   (w_slot (fz_window f), mduIndex (fz_window f), startBlobIndex (fz_window f), blobCount (fz_window f)),
   (fz_openedHeight f, fz_expiry f),
   (addressBytes (w_provider (fz_window f)), addressBytes (fz_payee f))).

(** C24: The challenge context of an accepted session says which session it is: two sessions
    that were accepted, from whatever answers and for whatever requests, and that have the
    same context bytes have the same identifier, chain, deal, generation, root and end,
    the same geometry, blobs and slot, heights, and the accounts of provider and payee. *)
Theorem challenge_context_binds p1 h1 e1 f1 p2 h2 e2 f2 :
  pin_parsed (ex_pin e1) -> pin_parsed (ex_pin e2) ->
  parseFrozenSession p1 h1 e1 = Ok f1 -> parseFrozenSession p2 h2 e2 = Ok f2 ->
  fz_context f1 = fz_context f2 -> session_identity f1 = session_identity f2.
Proof.
  intros [Hs1 Hl1]%pin_parsed_facts [Hs2 Hl2]%pin_parsed_facts H1%parseFrozenSession_accepted
    H2%parseFrozenSession_accepted Hctx.
  destruct H1 as [Hp1 Hw1 _ _ _ _ Hh1 _ HA1 HB1 (setup1 & id1 & root1 & a1 & b1 & Hc1 & ? & Hi1 & ? & Hr1 & ? & ? & Ha1 & ? & Hb1 & ?)].
  destruct H2 as [Hp2 Hw2 _ _ _ _ Hh2 _ HA2 HB2 (setup2 & id2 & root2 & a2 & b2 & Hc2 & ? & Hi2 & ? & Hr2 & ? & ? & Ha2 & ? & Hb2 & ?)].
  rewrite Hc1, Hc2 in Hctx. apply delimited_context in Hctx; [|done|done|lia|lia|lia|lia|lia].
  unfold session_identity. rewrite Hp1, Hw1, Hp2, Hw2, Hi1, Hi2, Hr1, Hr2, Ha1, Ha2, Hb1, Hb2.
  repeat match goal with H : Forall _ (_ :: _) |- _ => apply Forall_cons in H as [? H] end.
  assert (U64_MAX = 2 ^ 64 - 1) by done. unfold contextParts in Hctx. open_parts Hctx. read_parts. congruence.
Qed.
End sessions.

(** ** A concrete session *)

#[local] Existing Instance sample_bech32.

Definition sample_pin : PinnedGeneration :=
  match parsePinnedGeneration sample_payload "chain-1" 10 7 with
  | Ok pin => pin
  | Err _ => {| p_chainId := ""; p_height := 0; p_dealId := 0; p_generation := 0; p_root := ""; p_owner := "";
                p_endHeight := 0; p_layout := 0; p_k := 0; p_m := 0; p_rows := 0; p_leafCount := 0; metadataMdus := 0;
                userMdus := 0; totalMdus := 0; assignments := [] |}
  end.
Definition sample_window : RetrievalWindow :=
  {| mduIndex := 2; w_slot := 0; w_provider := "nil1a"; startBlobIndex := 5; blobCount := 1;
     slices := [{| s_encodedBlobIndex := 5; rawOffset := 0; s_length := 100; outputOffset := 0 |}] |}.
Definition sample_expected : ExpectedSession :=
  {| ex_sessionId := hex (replicate 32 9); ex_pin := sample_pin; ex_window := sample_window; ex_owner := "nil1owner";
     ex_payee := None; ex_funding := 1 |}.
Definition sample_setup : bytes :=
  match unhex ("0x" +:+ RETRIEVAL_SETUP) 32 with Ok bs => bs | Err _ => [] end.
Definition sample_context : bytes :=
  encodeContext sample_pin sample_window sample_setup (replicate 32 9) (zeros 32) (replicate 20 0) (replicate 20 0) 12 40.
Definition sample_answer : unknown :=
  Some (JObj [("session", JObj [
      ("session_id", JStr (btoa (replicate 32 9))); ("manifest_root", JStr (btoa (zeros 32)));
      ("owner", JStr "nil1owner"); ("provider", JStr "nil1a"); ("authorized_proof_provider", JStr "nil1a");
      ("opened_height", JStr "12"); ("expires_at", JStr "40"); ("status", JStr "RETRIEVAL_SESSION_STATUS_OPEN");
      ("funding", JStr "RETRIEVAL_SESSION_FUNDING_DEAL_ESCROW"); ("purpose", JStr "RETRIEVAL_SESSION_PURPOSE_USER");
      ("challenge_version", JNum (int 2)); ("deal_id", JStr "7"); ("start_mdu_index", JStr "2");
      ("start_blob_index", JNum (int 5)); ("blob_count", JStr "1"); ("total_bytes", JStr "131072");
      ("locked_fee", JStr "100");
      ("challenge_snapshot", JObj [
        ("setup_digest", JStr (btoa sample_setup)); ("chain_id", JStr "chain-1"); ("generation", JStr "3");
        ("layout", JNum (int 2)); ("k", JNum (int 1)); ("m", JNum (int 1)); ("metadata_mdus", JStr "2");
        ("user_mdus", JStr "3"); ("deal_end", JStr "1000")])]);
    ("challenge_context", JStr (btoa sample_context)); ("challenge_context_hash", JStr (btoa (zeros 32)))]).

(** Two readings of a session, at different heights. *)
Lemma challenge_context_binds_witness :
  exists f1 f2, parseFrozenSession sample_answer 12 sample_expected = Ok f1
    /\ parseFrozenSession sample_answer 13 sample_expected = Ok f2
    /\ fz_height f1 <> fz_height f2 /\ session_identity f1 = session_identity f2.
Proof.
  eexists _, _.
  assert (H1 : parseFrozenSession sample_answer 12 sample_expected = Ok _) by (vm_compute; reflexivity).
  assert (H2 : parseFrozenSession sample_answer 13 sample_expected = Ok _) by (vm_compute; reflexivity).
  split; [exact H1|]. split; [exact H2|]. split; [vm_compute; lia|].
  assert (Hp : pin_parsed (ex_pin sample_expected)).
  { exists sample_payload, "chain-1"%string, 10, 7. vm_compute. reflexivity. }
  exact (challenge_context_binds _ _ _ _ _ _ _ _ Hp Hp H1 H2 eq_refl).
Defined.
