(* ===== verification/Agreement.v ===== *)
(** * The client and the core library agree on a session

    The website encodes the challenge context of a session (Sessions.v); the core
    library, which the chain, the providers and the website's WebAssembly share, parses
    those bytes and derives what a proof must open (Challenge.v).  Shown here: what the
    planner plans and the client accepts, the library parses, and the blobs it challenges
    are the blobs that were planned. *)

From S2P Require Import Prelude JsNumber JsBytes JsString JsText Utf8 Encoding Layout Windows Pinned Canonical Challenge Sessions.
Local Open Scope Z_scope.

(** ** Lemmas *)

Lemma lp_append s : lp s = append_lp (TextEncoder_encode s).
Proof. done. Qed.

Lemma encode_utf8 s : TextEncoder_encode s = utf8_encode (codes s).
Proof.
  unfold TextEncoder_encode, utf8_encode. f_equal. apply map_ext_in. intros c Hc%list_elem_of_In.
  pose proof (proj1 (Forall_forall _ _) (codes_bytes s) c Hc) as Hb. cbv beta in Hb.
  unfold encode_char, utf8_char.
  destruct (Z.ltb_spec c 128); [done|]. by rewrite (proj2 (Z.ltb_lt c 2048)) by lia.
Qed.

Lemma includes_zero s : includes_char s Ascii.zero = false -> 0 ∉ codes s.
Proof.
  induction s as [|c s IH]; cbn [includes_char codes String.list_ascii_of_string map]; [by intros _ ?%elem_of_nil|].
  rewrite orb_false_iff. intros [Hc Hs] [H0|Hin]%elem_of_cons; [|by apply IH].
  change 0 with (code Ascii.zero) in H0. apply code_inj in H0. subst c. by rewrite Ascii.eqb_refl in Hc.
Qed.

Lemma encode_no_zero s : 0 ∉ codes s -> 0 ∉ TextEncoder_encode s.
Proof.
  unfold TextEncoder_encode. pose proof (codes_bytes s) as Hb. induction Hb as [|c l Hc _ IH]; [done|].
  intros [Hne Hl]%not_elem_of_cons. cbn [map concat]. intros [H|H]%elem_of_app; [|by apply IH].
  unfold encode_char in H. destruct (Z.ltb_spec c 128).
  - apply list_elem_of_singleton in H. congruence.
  - apply elem_of_cons in H as [H|H%list_elem_of_singleton]; [div_lia_linear|].
    pose proof (Z.mod_pos_bound c 64). lia.
Qed.

Section agreement.
Context `{bech : Bech32}.

(** The chain identifier of a generation that was read. *)
Lemma parsed_chain pin : pin_parsed pin -> valid_chain (TextEncoder_encode (p_chainId pin)) = true.
Proof.
  intros (payload & chainId & height & dealId & Hp). unfold parsePinnedGeneration in Hp. ok_steps Hp. bool_to_prop.
  cbn [p_chainId]. unfold valid_chain. rewrite !andb_true_iff. split_and!.
  - apply negb_true_iff, bool_decide_eq_false. intros He. destruct chainId as [|c s]; [done|].
    unfold TextEncoder_encode, encode_char in He. cbn in He. by destruct (code c <? 128).
  - apply Z.leb_le. rewrite <- utf8_length_encode. lia.
  - apply negb_true_iff, bool_decide_eq_false. by apply encode_no_zero, includes_zero.
  - apply bool_decide_eq_true. rewrite encode_utf8, utf8_decode_encode; [done|].
    eapply Forall_impl; [apply codes_bytes|]. unfold scalar_value. cbn. lia.
Qed.

(** Where a planned window lies in the user MDUs. *)
Lemma planned_position pin file rs len ws w : pin_wf pin ->
  planRetrievalWindows pin file rs len true = (ws, Ok tt) -> w ∈ ws ->
  exists row, metadataMdus pin <= mduIndex w < metadataMdus pin + userMdus pin
    /\ 0 <= w_slot w < stripe pin /\ 0 <= row /\ startBlobIndex w = w_slot w * p_rows pin + row
    /\ 0 < blobCount w /\ row + blobCount w <= p_rows pin.
Proof.
  intros Hwf Hplan Hin. destruct (pin_wf_plannable pin Hwf) as [Hgeo Hav]. pose proof Hplan as Hp.
  unfold planRetrievalWindows in Hp. destruct (negb (f_flags file =? 0)) eqn:Hfl; [done|].
  destruct (_ || _) eqn:Hg; [done|]. clear Hp. bool_to_prop.
  destruct (planRetrievalWindows_spec pin file rs len true) as (ws' & tl & Heq & Hperm & Ht & Hall & _); [done..| |].
  { lia. }
  rewrite Hplan in Heq. injection Heq as <-. rewrite Forall_forall in Hall.
  destruct (Hall w Hin) as (Hb & row & Hm & Hs & Hr & _ & Hst & Hlen & Hrow & Hloc & _).
  destruct (slices w) as [|sl sls] eqn:Hsl; [cbn in Hlen; lia|].
  apply Forall_cons in Hloc as [(Hpos & Hblob & Hraw & Hl & Hend) _].
  assert (Hsin : sl ∈ tl).
  { rewrite <- Hperm. apply list_elem_of_In, in_concat. exists (slices w).
    split; [by apply list_elem_of_In, list_elem_of_fmap; exists w | rewrite Hsl; by left]. }
  destruct (tiles_within outputOffset s_length 0 tl len sl Ht Hsin) as (? & _ & ?).
  exists row. change RAW_MDU with 8126464 in *. unfold RAW_BLOB_BYTES, BLOBS_PER_MDU in *.
  split_and!; (done || lia).
Qed.

Context (sha256 : bytes -> bytes).

Lemma layout_rows_wf pin slot : pin_wf pin -> 0 <= slot < stripe pin ->
  layout_rows (p_layout pin) (p_k pin) (p_m pin) slot = Some (p_rows pin).
Proof.
  intros ([(Hl & Hm & Hkm & _)|(Hl & Hk & Hm & _)] & Hk0 & Hrows & _) Hs; unfold stripe in Hs; rewrite Hl in *; cbn in Hs.
  - assert (0 < p_rows pin) by nia. assert (p_k pin <= 64) by nia.
    unfold layout_rows. cbn [Z.eqb Pos.eqb andb]. rewrite !(proj2 (Z.ltb_lt _ _)), !(proj2 (Z.leb_le _ _)) by lia.
    assert (Hdiv : 64 / p_k pin = p_rows pin) by (rewrite <- Hrows, Z.mul_comm; apply Z.div_mul; lia).
    assert (Hmod : 64 mod p_k pin = 0) by (rewrite <- Hrows, Z.mul_comm; apply Z.mod_mul; lia).
    by rewrite Hmod, Hdiv.
  - rewrite Hk, Hm in *. unfold layout_rows. replace slot with 0 by lia. cbn. f_equal. lia.
Qed.

Lemma session_span_run rows population metadata users slot start_mdu start_leaf blobs snapshot deadline deal_end row :
  0 < snapshot -> snapshot + 2 <= deadline -> deadline <= deal_end ->
  metadata <= start_mdu < metadata + users -> start_leaf = slot * rows + row -> 0 <= row -> 0 < blobs ->
  row + blobs <= rows -> rows <= 64 -> population = users * rows ->
  session_span rows population metadata users slot start_mdu start_leaf blobs 0 0 0
    snapshot (snapshot + 1) (snapshot + 2) deadline deal_end
  = if MAX_HEIGHT <? deal_end then Err invalid else Ok ((start_mdu - metadata) * rows + row, blobs).
Proof.
  intros Hs Hd He Hmdu Hleaf Hr Hb Hrow H64 Hpop. unfold session_span, MAX_SAMPLES.
  destruct (Z.ltb_spec MAX_HEIGHT deal_end) as [Hm|Hm]; [by rewrite !orb_true_r|]. unfold MAX_HEIGHT in *.
  rewrite !Z.eqb_refl. cbn [negb orb].
  rewrite !(proj2 (Z.eqb_neq _ _)), !(proj2 (Z.ltb_ge _ _)), !(proj2 (Z.leb_gt _ _)) by lia. cbn [orb].
  replace (start_leaf - slot * rows) with row by lia.
  rewrite !(proj2 (Z.ltb_ge _ _)); [done | lia | nia].
Qed.

Lemma context_fields_run pin window setup id root assigned payee opened expiry row :
  pin_parsed pin -> blen setup = 32 -> blen id = 32 -> blen root = 32 -> blen assigned = 20 -> blen payee = 20 ->
  Forall (fun v => 0 <= v <= U64_MAX) [p_dealId pin; p_generation pin; p_endHeight pin; mduIndex window; blobCount window] ->
  0 < opened -> opened + 2 <= expiry -> expiry <= p_endHeight pin ->
  metadataMdus pin <= mduIndex window < metadataMdus pin + userMdus pin -> 0 <= w_slot window < stripe pin ->
  startBlobIndex window = w_slot window * p_rows pin + row -> 0 <= row -> 0 < blobCount window ->
  row + blobCount window <= p_rows pin ->
  context_fields (encodeContext pin window setup id root assigned payee opened expiry)
  = if MAX_HEIGHT <? p_endHeight pin then Err invalid else
    Ok ({| cx_hash := []; cx_kind := 1; cx_rows := p_rows pin; cx_population := userMdus pin * p_rows pin;
           cx_metadata := metadataMdus pin; cx_slot := w_slot window;
           cx_start := (mduIndex window - metadataMdus pin) * p_rows pin + row; cx_count := blobCount window |}, []).
Proof.
  intros Hpin Hl1 Hl2 Hl3 Hl4 Hl5 HF Ho He1 He2 Hmdu Hslot Hstart Hrow Hb Hrb.
  pose proof (parsed_chain pin Hpin) as Hchain. destruct (pin_parsed_facts pin Hpin) as [Hshort Hlay].
  destruct Hpin as (payload & chainId & height & dealId & Hp). pose proof (parsePinnedGeneration_wf _ _ _ _ _ Hp) as Hwf.
  pose proof (layout_rows_wf pin (w_slot window) Hwf Hslot) as Hrows.
  repeat match goal with H : Forall _ (_ :: _) |- _ => apply Forall_cons in H as [? H] end. clear HF Hp.
  assert (HU : U64_MAX = 2 ^ 64 - 1) by done. unfold short in *.
  destruct (pin_wf_plannable pin Hwf) as [[Hst Hsr] _]. unfold BLOBS_PER_MDU in Hsr.
  destruct Hwf as (Hl & Hk & Hkr & _ & Hmeta & Huser & Htot & Hmax & Hh).
  assert (H64 : 0 < p_rows pin <= 64) by nia. assert (Hst' : stripe pin <= 64) by nia.
  assert (Hkm : 0 <= p_k pin <= 64 /\ 0 <= p_m pin <= 256) by (split; [nia | lia]).
  assert (Hleaf : 0 <= startBlobIndex window < 2 ^ 32) by nia. clear Hl Hk Hkr Hsr.
  unfold encodeContext, contextParts. cbn [concat]. rewrite !lp_append. change [1] with (be 1 1).
  unfold context_fields.
  erewrite rbind_run by (apply run_lp; vm_compute; reflexivity).
  cbv beta. rewrite bool_decide_eq_true_2 by reflexivity. cbn [negb]. run_reader. cbn [Z.eqb Pos.eqb negb].
  run_reader. rewrite Hchain. cbn [negb]. run_reader.
  rewrite Hrows. run_reader. erewrite rbind_run by reflexivity. cbv beta.
  rewrite !(proj2 (Z.eqb_neq _ _)), !(proj2 (Z.ltb_ge _ _)) by lia. cbn [orb Z.eqb Pos.eqb].
  erewrite session_span_run; [|(done || lia) ..]. by destruct (MAX_HEIGHT <? p_endHeight pin).
Qed.

Lemma blen_be v n : blen (be v n) = Z.of_nat n.
Proof. unfold blen. by rewrite length_be. Qed.

Lemma blen_encodeContext pin window setup id root assigned payee opened expiry : pin_parsed pin ->
  blen setup = 32 -> blen id = 32 -> blen root = 32 -> blen assigned = 20 -> blen payee = 20 ->
  blen (encodeContext pin window setup id root assigned payee opened expiry) <= 512.
Proof.
  intros Hpin%parsed_chain H1 H2 H3 H4 H5. unfold valid_chain in Hpin. bool_to_prop.
  unfold encodeContext, contextParts, lp. cbn [concat]. rewrite !blen_app, !blen_be, H1, H2, H3, H4, H5.
  change (blen (TextEncoder_encode "polystore/challenge-context/v2")) with 30. change (blen [1]) with 1. change (blen []) with 0. lia.
Qed.

(** ** Theorems *)

Context `{field : ScalarField}.

Lemma challengeAt_places c seed positions i l : challengeAt sha256 c seed i positions = Ok l ->
  map (fun x => (ch_mdu_index x, ch_leaf_index x)) l
  = map (fun p => (cx_metadata c + p / cx_rows c, cx_slot c * cx_rows c + p mod cx_rows c)) positions.
Proof.
  revert i l. induction positions as [|p positions IH]; intros i l H; cbn [challengeAt] in H; [by apply Ok_inj in H as <-|].
  cbv zeta in H. ok_steps H. cbn [map ch_mdu_index ch_leaf_index]. f_equal. by eapply IH.
Qed.

(** C23: The blobs that are challenged are the blobs that were asked for.  When the planner
    plans a window of a generation that was read from the chain, and the client accepts
    the session that the chain reports for it, the core library parses the challenge
    context of that session, and whatever the seed, its challenges are, in order, for the
    consecutive leaves of that window, in its MDU.  This is so for a deal that ends at a
    height of the chain, an integer of 64 bits with a sign; the client also reads an end
    beyond those, and there the library refuses the context. *)
Theorem planned_blobs_challenged pin file rs len ws payload height e f :
  pin_parsed pin ->
  planRetrievalWindows pin file rs len true = (ws, Ok tt) -> ex_pin e = pin -> ex_window e ∈ ws ->
  parseFrozenSession payload height e = Ok f ->
  if MAX_HEIGHT <? p_endHeight pin then context_parse sha256 (fz_context f) = Err invalid else
  exists c, context_parse sha256 (fz_context f) = Ok c /\ cx_hash c = sha256 (fz_context f)
    /\ forall seed l, challenges sha256 c seed = Ok l ->
         map (fun x => (ch_mdu_index x, ch_leaf_index x)) l
         = map (fun i => (mduIndex (fz_window f), startBlobIndex (fz_window f) + i)) (seqZ 0 (blobCount (fz_window f))).
Proof.
  intros Hpin Hplan He Hin Hf. apply parseFrozenSession_accepted in Hf.
  destruct Hf as [_ Hw _ _ _ _ (_ & Ho & _ & He1 & He2 & _) _ HA _ (setup & id & root & a & b & Hc & Hl1 & _ & Hl2 & _ & _ & Hl3 & _ & Hl4 & _ & Hl5)].
  rewrite He in *. set (w := ex_window e) in *. rewrite Hw.
  assert (Hwf : pin_wf pin) by (destruct Hpin as (? & ? & ? & ? & Hp); by eapply parsePinnedGeneration_wf).
  destruct (planned_position pin file rs len ws w Hwf Hplan Hin) as (row & Hmdu & Hslot & Hrow & Hst & Hb & Hrb).
  assert (HF : Forall (fun v => 0 <= v <= U64_MAX) [p_dealId pin; p_generation pin; p_endHeight pin; mduIndex w; blobCount w]).
  { repeat match goal with H : Forall _ (_ :: _) |- _ => apply Forall_cons in H as [? H] end.
    by repeat (apply Forall_cons_2; [done|]). }
  pose proof (context_fields_run pin w setup id root a b (fz_openedHeight f) (fz_expiry f) row Hpin Hl1 Hl2 Hl3 Hl4 Hl5
    HF Ho He1 He2 Hmdu Hslot Hst Hrow Hb Hrb) as Hrun.
  destruct (Z.ltb_spec MAX_HEIGHT (p_endHeight pin)).
  { unfold context_parse. rewrite Hc, (proj2 (Z.ltb_ge _ _)) by (by apply blen_encodeContext). rewrite Hrun. reflexivity. }
  eexists. split; [|split].
  - unfold context_parse. rewrite Hc, (proj2 (Z.ltb_ge _ _)) by (by apply blen_encodeContext). rewrite Hrun. reflexivity.
  - by rewrite Hc.
  - intros seed l Hch. unfold challenges in Hch. cbn [cx_kind cx_start cx_count fst Z.eqb Pos.eqb bind] in Hch.
    apply challengeAt_places in Hch. rewrite Hch. cbn [cx_metadata cx_rows cx_slot fst].
    set (start := (mduIndex w - metadataMdus pin) * p_rows pin + row).
    replace (seqZ start (blobCount w)) with (map (Z.add start) (seqZ 0 (blobCount w))) by
      (change (map ?g ?x) with (g <$> x); by rewrite fmap_add_seqZ, Z.add_0_r).
    rewrite map_map. apply map_ext_in. intros i Hi%list_elem_of_In%elem_of_seqZ.
    replace (start + i) with ((mduIndex w - metadataMdus pin) * p_rows pin + (row + i)) by (unfold start; lia).
    rewrite div_base, mod_base by lia. f_equal; lia.
Qed.
End agreement.

(** ** An example *)

#[local] Existing Instance sample_bech32.
#[local] Instance sample_field : ScalarField := {|
  Scalar := Z; scalar_zero := 0; scalar_one := 1; scalar_from_bytes l := Some (from_be l);
  scalar_square x := x * x mod 1009 |}.

Definition sample_digest (l : bytes) : bytes := replicate 31 0 ++ [7].

Definition sample_frozen : FrozenSession :=
  {| fz_browserTransactionKey := None; fz_sessionId := hex (replicate 32 9); fz_pin := Sessions.sample_pin;
     fz_window := sample_window; fz_owner := "nil1owner"; fz_payee := "nil1a"; fz_height := 12; fz_openedHeight := 12;
     fz_expiry := 40; fz_status := 1; fz_funding := 1; fz_context := sample_context; fz_contextHash := zeros 32;
     fz_seed := None |}.
Definition sample_parsed : Context :=
  {| cx_hash := sample_digest sample_context; cx_kind := 1; cx_rows := 64; cx_population := 192; cx_metadata := 2;
     cx_slot := 0; cx_start := 5; cx_count := 1 |}.

Lemma planned_blobs_challenged_witness :
  parseFrozenSession sample_answer 12 sample_expected = Ok sample_frozen
  /\ context_parse sample_digest sample_context = Ok sample_parsed
  /\ forall seed l, challenges sample_digest sample_parsed seed = Ok l ->
       map (fun x => (ch_mdu_index x, ch_leaf_index x)) l = [(2, 5)].
Proof.
  assert (Hf : parseFrozenSession sample_answer 12 sample_expected = Ok sample_frozen) by (vm_compute; reflexivity).
  assert (Hpin : pin_parsed Sessions.sample_pin) by (exists sample_payload, "chain-1"%string, 10, 7; vm_compute; reflexivity).
  assert (Hplan : planRetrievalWindows Sessions.sample_pin sample_file (5 * RAW_BLOB_BYTES) 100 true = ([sample_window], Ok tt))
    by (vm_compute; reflexivity).
  assert (Hin : ex_window sample_expected ∈ [sample_window]) by by left.
  assert (Hc : context_parse sample_digest sample_context = Ok sample_parsed) by (vm_compute; reflexivity).
  split; [exact Hf|]. split; [exact Hc|].
  destruct (planned_blobs_challenged sample_digest Sessions.sample_pin sample_file (5 * RAW_BLOB_BYTES) 100 [sample_window]
    sample_answer 12 sample_expected sample_frozen Hpin Hplan eq_refl Hin Hf) as (c & Hc' & _ & Hl).
  cbn [fz_context sample_frozen] in Hc'. rewrite Hc in Hc'. injection Hc' as <-. exact Hl.
Defined.
