(* ===== verification/Integrity.v ===== *)
(** * The integrity tree of a generation

    Models src/polystore_core/src/integrity_v3.rs: the hash of a blob at its place
    ([leaf]), the tree over the hashes, whose levels of odd length repeat their last node
    ([root]), and the check of a path ([verify_path]); and their entry point
    [verify_integrity_v3_blob] of src/polystore_core/src/wasm.rs.

    SHA-256 is a package: [sha256] is an argument.  A digest in place of [[u8; 32]] is a
    byte string; the lemmas ask for its length.  Hashes into 32 bytes have collisions, so
    the theorems speak of the strings that were hashed: [tree_inputs] and [path_inputs]
    list them, and the claim is made for a hash that tells those apart. *)

From S2P Require Import Prelude JsNumber JsBytes JsString JsText Windows Canonical Challenge.
Local Open Scope Z_scope.

Definition ENCODED_BLOB_BYTES : Z := 131072.
Definition MAX_LEAVES : Z := 65536 * 96.

Definition leaf_input (mdu index : Z) (blob : bytes) : bytes :=
  append_lp (ascii "polystore/integrity-leaf/v3") ++ be mdu 8 ++ be index 4
  ++ be ENCODED_BLOB_BYTES 4 ++ blob.
Definition parent_input (left right : bytes) : bytes :=
  append_lp (ascii "polystore/integrity-node/v3") ++ left ++ right.

Section tree.
Context (sha256 : bytes -> bytes).

Definition leaf (mdu index : Z) (blob : bytes) : result bytes :=
  throw_if (mdu =? 0) || (65536 <? mdu) || (96 <=? index) || negb (blen blob =? ENCODED_BLOB_BYTES)
    with "invalid v3 integrity coordinate or blob length" else
  Ok (sha256 (leaf_input mdu index blob)).

Definition parent (left right : bytes) : bytes := sha256 (parent_input left right).

(** [for read in (0..level.len()).step_by(2)], with [todo] passes to go. *)
Fixpoint levelPass (todo read write : nat) (level : list bytes) : list bytes :=
  match todo with
  | O => level
  | S todo =>
      let right := if (read + 1 <? length level)%nat then default [] (level !! (read + 1)%nat)
                   else default [] (level !! read) in
      levelPass todo (read + 2) (write + 1) (<[write := parent (default [] (level !! read)) right]> level)
  end.

(** One turn of [while level.len() > 1], truncation included. *)
Definition nextLevel (level : list bytes) : list bytes :=
  let todo := Nat.div2 (length level + 1) in take todo (levelPass todo 0 0 level).

(** [while level.len() > 1]: every turn shortens the level. *)
Fixpoint rootLoop (fuel : nat) (level : list bytes) : result bytes :=
  if (length level <=? 1)%nat then Ok (default [] (level !! 0%nat)) else
  match fuel with
  | O => Err OUT_OF_FUEL
  | S fuel => rootLoop fuel (nextLevel level)
  end.

Definition root (leaves : list bytes) : result bytes :=
  throw_if bool_decide (leaves = []) || (MAX_LEAVES <? Z.of_nat (length leaves))
    with "invalid v3 integrity leaf count" else
  rootLoop (length leaves) leaves.

(** [while count > 1]: [siblings] are those from [used] on. *)
Fixpoint pathLoop (siblings : list bytes) (position count : Z) (current expected : bytes) : bool :=
  if count <=? 1 then bool_decide (siblings = []) && bool_decide (current = expected) else
  match siblings with
  | [] => false
  | sibling :: rest =>
      if (count mod 2 =? 1) && (position =? count - 1) && negb (bool_decide (sibling = current)) then false else
      pathLoop rest (position / 2) ((count + 1) / 2)
        (if position mod 2 =? 1 then parent sibling current else parent current sibling) expected
  end.

Definition verify_path (value : bytes) (position count : Z) (siblings : list bytes) (expected : bytes) : bool :=
  if (count =? 0) || (MAX_LEAVES <? count) || (count <=? position) then false else
  pathLoop siblings position count value expected.

(** ** The entry point of the WebAssembly module *)

(** [checked_metadata_u64]: a BigInt that [u64::try_from] takes. *)
Definition checked_metadata_u64 (value : Z) : result Z :=
  throw_if (value <? 0) || (U64_MAX <? value) with "metadata BigInt exceeds u64 range" else Ok value.

(** [checked_metadata_number], for the whole numbers. *)
Definition checked_metadata_number (value max : Z) : result Z :=
  throw_if (value <? 0) || (max <? value) with "metadata index or range out of bounds" else Ok value.

(** [path_flat.chunks_exact(32)] *)
Fixpoint chunks_exact (fuel : nat) (l : bytes) : list bytes :=
  match fuel with
  | O => []
  | S fuel => if blen l <? 32 then [] else take 32 l :: chunks_exact fuel (drop 32 l)
  end.

Definition verify_integrity_v3_blob (mdu_index leaf_index position leaf_count : Z)
    (blob path_flat expected_root : bytes) : result bool :=
  let! leaf_index := checked_metadata_number leaf_index 95 in
  throw_if negb (blen expected_root =? 32) with "v3 integrity root must be 32 bytes" else
  throw_if (23 * 32 <? blen path_flat) || negb (blen path_flat mod 32 =? 0)
    with "invalid v3 integrity path" else
  let siblings := chunks_exact (length path_flat) path_flat in
  let! mdu := checked_metadata_u64 mdu_index in
  let! value := leaf mdu leaf_index blob in
  let! position := checked_metadata_u64 position in
  let! leaf_count := checked_metadata_u64 leaf_count in
  Ok (verify_path value position leaf_count siblings expected_root).

(** ** Reference definitions *)

(** The nodes above a level. *)
Fixpoint pairUp (level : list bytes) : list bytes :=
  match level with
  | [] => []
  | [x] => [parent x x]
  | x :: y :: level => parent x y :: pairUp level
  end.

(** The strings that are hashed for the nodes above a level. *)
Fixpoint pairInputs (level : list bytes) : list bytes :=
  match level with
  | [] => []
  | [x] => [parent_input x x]
  | x :: y :: level => parent_input x y :: pairInputs level
  end.

Fixpoint tree_inputs (fuel : nat) (level : list bytes) : list bytes :=
  match fuel with
  | O => []
  | S fuel => if (length level <=? 1)%nat then [] else pairInputs level ++ tree_inputs fuel (pairUp level)
  end.

(** The strings that [pathLoop] hashes. *)
Fixpoint path_inputs (siblings : list bytes) (position : Z) (current : bytes) : list bytes :=
  match siblings with
  | [] => []
  | sibling :: rest =>
      let input := if position mod 2 =? 1 then parent_input sibling current else parent_input current sibling in
      input :: path_inputs rest (position / 2) (sha256 input)
  end.

(** The siblings on the way from position [i] to the root. *)
Fixpoint siblings_of (fuel : nat) (level : list bytes) (i : nat) : list bytes :=
  match fuel with
  | O => []
  | S fuel =>
      if (length level <=? 1)%nat then [] else
      let j := if Nat.even i then (if (i + 1 <? length level)%nat then i + 1 else i)%nat else (i - 1)%nat in
      default [] (level !! j) :: siblings_of fuel (pairUp level) (Nat.div2 i)
  end.

(** The hash tells the strings of a list apart. *)
Definition distinguishes (inputs : list bytes) : Prop :=
  forall x y, x ∈ inputs -> y ∈ inputs -> sha256 x = sha256 y -> x = y.
End tree.

(** ** Levels *)

Lemma parent_input_inj a b c d : blen a = blen c -> parent_input a b = parent_input c d -> a = c /\ b = d.
Proof. unfold parent_input. intros Hl H%app_inv_head. apply app_inj_1 in H; [done|]. unfold blen in Hl. lia. Qed.

Lemma leaf_input_inj mdu index b b' : leaf_input mdu index b = leaf_input mdu index b' -> b = b'.
Proof. unfold leaf_input. by intros H%app_inv_head%app_inv_head%app_inv_head%app_inv_head. Qed.

#[local] Opaque parent_input leaf_input.

Section lemmas.
Context (sha256 : bytes -> bytes).
Implicit Types level : list bytes.

Lemma div2_bounds n : (2 * Nat.div2 n <= n <= 2 * Nat.div2 n + 1)%nat.
Proof. pose proof (Nat.div2_odd n) as H. destruct (Nat.odd n); cbn [Nat.b2n] in H; lia. Qed.

Lemma pairs_ind {A} (P : list A -> Prop) :
  P [] -> (forall x, P [x]) -> (forall x y l, P l -> P (x :: y :: l)) -> forall l, P l.
Proof. intros H0 H1 H2. fix IH 1. intros [|x [|y l]]; [exact H0 | exact (H1 x) | exact (H2 x y l (IH l))]. Qed.

Lemma pairUp_inputs level : pairUp sha256 level = map sha256 (pairInputs level).
Proof. induction level as [|x|x y l IH] using pairs_ind; [done..|]. cbn [pairUp pairInputs map]. by rewrite IH. Qed.

Lemma length_pairUp level : length (pairUp sha256 level) = Nat.div2 (length level + 1).
Proof. induction level as [|x|x y l IH] using pairs_ind; [done..|]. cbn [pairUp length Nat.add Nat.div2]. by rewrite IH. Qed.

Lemma pairInputs_lookup level q a : level !! (2 * q)%nat = Some a ->
  pairInputs level !! q = Some (parent_input a (default a (level !! (2 * q + 1)%nat))).
Proof.
  revert q. induction level as [|x|x y l IH] using pairs_ind; intros [|q] H; try done.
  - by injection H as <-.
  - by injection H as <-.
  - replace (2 * S q)%nat with (S (S (2 * q))) in * by lia. by apply IH.
Qed.

(** A pass in place writes the nodes above the level: it never reads what it wrote. *)
Lemma levelPass_spec todo read write level : (write <= read)%nat -> todo = Nat.div2 (length level - read + 1) ->
  take (write + todo) (levelPass sha256 todo read write level) = take write level ++ pairUp sha256 (drop read level).
Proof.
  revert read write level. induction todo as [|todo IH]; intros read write level Hw Ht; cbn [levelPass].
  - assert (length level <= read)%nat by (destruct (length level - read)%nat as [|n] eqn:E; [lia|]; rewrite Nat.add_1_r in Ht; done).
    rewrite (drop_ge level read) by done. by rewrite Nat.add_0_r, app_nil_r.
  - assert (Hr : (read < length level)%nat).
    { destruct (decide (read < length level)%nat); [done|]. exfalso. by replace (length level - read)%nat with 0%nat in Ht by lia. }
    destruct (lookup_lt_is_Some_2 level read Hr) as [x Hx]. rewrite Hx. cbn [default].
    set (p := parent _ _ _). replace (write + S todo)%nat with (write + 1 + todo)%nat by lia.
    rewrite IH; [|lia|rewrite length_insert; apply (f_equal pred) in Ht; cbn in Ht; rewrite Ht; clear -Hr;
      destruct (length level - read)%nat as [|[|n]] eqn:E; [lia | by replace (length level - (read + 2))%nat with 0%nat by lia |
      replace (length level - (read + 2))%nat with n by lia; rewrite !Nat.add_1_r; done]].
    rewrite drop_insert_lt by lia. rewrite Nat.add_1_r, (take_S_r _ _ p) by (apply list_lookup_insert_eq; lia).
    rewrite take_insert_ge, <- app_assoc by lia. f_equal. rewrite (drop_S _ _ _ Hx).
    unfold p. replace (read + 1)%nat with (S read) by lia. destruct (Nat.ltb_spec (S read) (length level)) as [H1|H1].
    + destruct (lookup_lt_is_Some_2 level (S read) H1) as [y Hy]. rewrite Hy, (drop_S _ _ _ Hy). cbn [default pairUp app].
      by replace (read + 2)%nat with (S (S read)) by lia.
    + by rewrite (drop_ge level (S read)), (drop_ge level (read + 2)) by lia.
Qed.

Lemma nextLevel_pairUp level : nextLevel sha256 level = pairUp sha256 level.
Proof.
  unfold nextLevel. pose proof (levelPass_spec (Nat.div2 (length level + 1)) 0 0 level) as H.
  rewrite Nat.sub_0_r in H. cbn [Nat.add] in H. by rewrite H.
Qed.

(** The loop ends with one node. *)
Lemma rootLoop_total fuel level : (0 < length level <= S fuel)%nat -> exists r, rootLoop sha256 fuel level = Ok r.
Proof.
  revert level. induction fuel as [|fuel IH]; intros level Hl; cbn [rootLoop].
  - rewrite (proj2 (Nat.leb_le _ _)) by lia. eauto.
  - destruct (Nat.leb_spec (length level) 1); [eauto|]. apply IH. rewrite nextLevel_pairUp, length_pairUp.
    pose proof (div2_bounds (length level + 1)). lia.
Qed.

(** ** Paths *)

Lemma distinguishes_mono l l' : l' ⊆ l -> distinguishes sha256 l -> distinguishes sha256 l'.
Proof. intros Hs Hd x y Hx Hy. apply Hd; by apply Hs. Qed.

Lemma half_position i : Z.of_nat i / 2 = Z.of_nat (Nat.div2 i).
Proof. pose proof (div2_bounds i). div_lia. Qed.
Lemma half_count n : (Z.of_nat n + 1) / 2 = Z.of_nat (Nat.div2 (n + 1)).
Proof. pose proof (div2_bounds (n + 1)). div_lia. Qed.
Lemma odd_position i : (Z.of_nat i mod 2 =? 1) = Nat.odd i.
Proof.
  rewrite (Nat.div2_odd i) at 1. destruct (Nat.odd i); cbn [Nat.b2n]; [apply Z.eqb_eq | apply Z.eqb_neq]; div_lia.
Qed.

Lemma pair_at level i : (i < length level)%nat ->
  exists a, level !! (2 * Nat.div2 i)%nat = Some a
    /\ pairUp sha256 level !! Nat.div2 i = Some (parent sha256 a (default a (level !! (2 * Nat.div2 i + 1)%nat)))
    /\ parent_input a (default a (level !! (2 * Nat.div2 i + 1)%nat)) ∈ pairInputs level.
Proof.
  intros Hi. destruct (lookup_lt_is_Some_2 level (2 * Nat.div2 i)) as [a Ha]; [pose proof (div2_bounds i); lia|].
  exists a. pose proof (pairInputs_lookup _ _ _ Ha) as Hp. split_and!; [done | | by eapply list_elem_of_lookup_2].
  by rewrite pairUp_inputs, list_lookup_fmap, Hp.
Qed.

Context (sha256_size : forall x, blen (sha256 x) = 32).

Lemma pairUp_size level : Forall (fun x => blen x = 32) (pairUp sha256 level).
Proof. rewrite pairUp_inputs. apply Forall_fmap, Forall_true. intros x. apply sha256_size. Qed.

(** A path that leads to the root starts at the node of its position. *)
Lemma pathLoop_sound siblings i current level r fuel :
  Forall (fun x => blen x = 32) siblings -> blen current = 32 -> Forall (fun x => blen x = 32) level ->
  (i < length level)%nat -> rootLoop sha256 fuel level = Ok r ->
  distinguishes sha256 (path_inputs sha256 siblings (Z.of_nat i) current ++ tree_inputs sha256 fuel level) ->
  pathLoop sha256 siblings (Z.of_nat i) (Z.of_nat (length level)) current r = true ->
  level !! i = Some current.
Proof.
  revert i current level fuel. induction siblings as [|s rest IH]; intros i current level fuel Hs Hc Hl Hi Hr Hd Hp.
  all: cbn [pathLoop] in Hp; destruct (Z.leb_spec (Z.of_nat (length level)) 1) as [H1|H1].
  - apply andb_true_iff in Hp as [_ ->%bool_decide_eq_true]. destruct level as [|x [|]]; cbn in Hi, H1; try lia.
    replace i with 0%nat by lia. destruct fuel; apply Ok_inj in Hr; by rewrite <- Hr.
  - done.
  - by apply andb_true_iff in Hp as [Hp _]; apply bool_decide_eq_true in Hp.
  - destruct (_ && _ && _); [done|]. destruct fuel as [|fuel]; cbn [rootLoop] in Hr;
      rewrite (proj2 (Nat.leb_gt _ _)) in Hr by lia; [done|]. rewrite nextLevel_pairUp in Hr.
    destruct (pair_at level i Hi) as (a & Ha & Hup & Hin).
    apply Forall_cons in Hs as [Hs Hrest]. cbn [path_inputs tree_inputs] in Hd.
    rewrite (proj2 (Nat.leb_gt _ _)) in Hd by lia. rewrite half_position in Hp, Hd.
    rewrite half_count, <- (length_pairUp level) in Hp.
    set (input := if Z.of_nat i mod 2 =? 1 then parent_input s current else parent_input current s) in *.
    replace (if Z.of_nat i mod 2 =? 1 then _ else _) with (sha256 input) in Hp by (unfold input, parent; by destruct (_ =? _)).
    apply (IH _ _ _ fuel) in Hp; [|done|apply sha256_size|apply pairUp_size|rewrite length_pairUp; pose proof (div2_bounds i); pose proof (div2_bounds (length level + 1)); lia|done|
      eapply distinguishes_mono, Hd; set_solver].
    rewrite Hup in Hp. injection Hp as Hp. apply Hd in Hp; [|set_solver|set_solver]. symmetry in Hp.
    pose proof (proj1 (Forall_lookup _ _) Hl _ _ Ha) as Hsa. cbn in Hsa. unfold input in Hp. rewrite odd_position in Hp.
    pose proof (Nat.div2_odd i) as Hodd. destruct (Nat.odd i); cbn [Nat.b2n] in Hodd;
      apply parent_input_inj in Hp as [-> Hb]; try lia.
    + destruct (lookup_lt_is_Some_2 level i Hi) as [b Hlb]. rewrite Hodd in Hlb at 1.
      change (current = default a (level !! (2 * Nat.div2 i + 1)%nat)) in Hb. rewrite Hlb in Hb. cbn in Hb. subst b.
      by rewrite Hodd at 1.
    + rewrite Nat.add_0_r in Hodd. by rewrite <- Hodd in Ha.
Qed.

(** The siblings of a node lead from it to the root. *)
Lemma pathLoop_complete fuel level i current r :
  level !! i = Some current -> rootLoop sha256 fuel level = Ok r ->
  pathLoop sha256 (siblings_of sha256 fuel level i) (Z.of_nat i) (Z.of_nat (length level)) current r = true.
Proof.
  revert level i current. induction fuel as [|fuel IH]; intros level i current Hi Hr; cbn [rootLoop siblings_of] in *;
    pose proof (lookup_lt_Some _ _ _ Hi) as Hlt; destruct (Nat.leb_spec (length level) 1) as [H1|H1]; try done.
  - replace i with 0%nat in * by lia. rewrite Hi in Hr. apply Ok_inj in Hr as <-. cbn [pathLoop].
    by rewrite (proj2 (Z.leb_le _ _)), !bool_decide_true by (done || lia).
  - replace i with 0%nat in * by lia. rewrite Hi in Hr. apply Ok_inj in Hr as <-. cbn [pathLoop].
    by rewrite (proj2 (Z.leb_le _ _)), !bool_decide_true by (done || lia).
  - cbn [pathLoop]. rewrite (proj2 (Z.leb_gt _ _)) by lia. rewrite nextLevel_pairUp in Hr.
    destruct (pair_at level i Hlt) as (a & Ha & Hup & _). rewrite half_position, half_count, <- (length_pairUp level), (odd_position i).
    pose proof (Nat.div2_odd i) as Hodd. rewrite <- Nat.negb_odd. destruct (Nat.odd i); cbn [Nat.b2n negb] in *.
    + replace (_ && (_ =? _ - 1)) with false by (symmetry; apply andb_false_iff; rewrite !Z.eqb_neq; div_lia_linear).
      cbn [andb]. apply IH; [|done]. rewrite Hup, <- Hodd, Hi. replace (i - 1)%nat with (2 * Nat.div2 i)%nat by lia. by rewrite Ha.
    + rewrite Nat.add_0_r in Hodd. rewrite <- Hodd in Ha, Hup. rewrite Hi in Ha. injection Ha as <-.
      destruct (Nat.ltb_spec (i + 1) (length level)) as [Hlast|Hlast].
      * rewrite (proj2 (Z.eqb_neq (Z.of_nat i) _)), andb_false_r by lia. cbn [andb]. apply IH; [|done]. rewrite Hup.
        destruct (lookup_lt_is_Some_2 level (i + 1) Hlast) as [b Hb]. by rewrite Hb.
      * rewrite Hi. cbn [default]. rewrite bool_decide_true, andb_false_r by done. apply IH; [|done].
        by rewrite Hup, (lookup_ge_None_2 level (i + 1)) by lia.
Qed.
End lemmas.

(** ** Properties *)

(** Every list of leaves within the bound has a root, and every leaf has a path that
    [verify_path] accepts under it: the loop ends, and odd levels lose no node. *)
Theorem integrity_paths_exist sha256 leaves :
  0 < Z.of_nat (length leaves) <= MAX_LEAVES ->
  exists r, root sha256 leaves = Ok r
    /\ forall i value, leaves !! i = Some value ->
         verify_path sha256 value (Z.of_nat i) (Z.of_nat (length leaves))
           (siblings_of sha256 (length leaves) leaves i) r = true.
Proof.
  intros Hl. destruct (rootLoop_total sha256 (length leaves) leaves) as [r Hr]; [lia|]. exists r. split.
  - unfold root. rewrite bool_decide_false by (intros ->; cbn in Hl; lia). by rewrite (proj2 (Z.ltb_ge _ _)) by lia.
  - intros i value Hi. pose proof (lookup_lt_Some _ _ _ Hi) as Hlt. unfold verify_path.
    rewrite (proj2 (Z.eqb_neq _ _)), (proj2 (Z.ltb_ge _ _)), (proj2 (Z.leb_gt _ _)) by lia. by apply pathLoop_complete.
Qed.

Lemma integrity_paths_exist_witness :
  exists r, root (fun x => take 32 (drop 31 x)) [replicate 32 1; replicate 32 2; replicate 32 3] = Ok r
    /\ verify_path (fun x => take 32 (drop 31 x)) (replicate 32 3) 2 3 [replicate 32 3; replicate 32 1] r = true.
Proof.
  destruct (integrity_paths_exist (fun x => take 32 (drop 31 x)) [replicate 32 1; replicate 32 2; replicate 32 3])
    as (r & Hr & Hp); [vm_compute; split; [reflexivity | discriminate]|].
  exists r. split; [exact Hr|]. exact (Hp 2%nat (replicate 32 3) eq_refl).
Defined.
