(* ===== verification/CoreV3.v ===== *)
(** * Ranges, plans and challenges of the newer protocol, in the core library

    Models src/polystore_core/src/retrieval_v3.rs: the range of a request in blobs, the
    plan of its obligations, the identifiers and messages hashed from them, the parser of
    a challenge context and the challenges drawn from it; and the entry points of
    src/polystore_core/src/wasm.rs that hand them to the browser.

    Every error of the library is [invalid].  Sums and products are checked as the code
    checks them; the remaining ones cannot leave 64 bits.  SHA-256 and the scalar field
    are arguments. *)

From S2P Require Import Prelude JsNumber JsBytes JsString JsText Utf8 Windows Canonical Challenge Integrity.
Local Open Scope Z_scope.

Definition VERSION : Z := 3.
Definition DATA_BLOB_PAYLOAD_BYTES : Z := 126976.
Definition MAX_RANGE_BYTES : Z := 2 ^ 30.
Definition MAX_SAMPLES_V3 : Z := 132.
Definition MAX_CONTEXT_BYTES : Z := 734.

Definition checked_u64 (v : Z) : result Z := throw_if (v <? 0) || (U64_MAX <? v) with invalid else Ok v.

(** ** Ranges *)

Record Range := { rg_first : Z; rg_last : Z; rg_population : Z }.

Definition validate (r : Range) : result unit :=
  let! d := checked_u64 (rg_last r - rg_first r) in
  let! expected := checked_u64 (d + 1) in
  throw_if (rg_population r =? 0) || negb (rg_population r =? expected) with invalid else
  Ok tt.

Definition checked_range (file_start file_length range_start range_length user_mdus : Z) : result Range :=
  throw_if (range_length =? 0) || (MAX_RANGE_BYTES <? range_length) || (user_mdus =? 0) with invalid else
  let! stop := checked_u64 (range_start + range_length) in
  throw_if file_length <? stop with invalid else
  let! absolute := checked_u64 (file_start + range_start) in
  let! end_ := checked_u64 (absolute + (range_length - 1)) in
  let first := absolute / DATA_BLOB_PAYLOAD_BYTES in
  let last := end_ / DATA_BLOB_PAYLOAD_BYTES in
  let! capacity := checked_u64 (user_mdus * 64) in
  throw_if capacity <=? last with invalid else
  Ok {| rg_first := first; rg_last := last; rg_population := last - first + 1 |}.

(** ** Plans *)

Record Obligation := { ob_slot : Z; ob_assigned : bytes; ob_payee : bytes; ob_blob_count : Z }.
Record Plan := { pl_range : Range; pl_obligations : list Obligation }.

Definition residue_count (first last residue : Z) : Z :=
  let delta := (residue + 8 - first mod 8) mod 8 in
  if last - first <? delta then 0 else 1 + (last - first - delta) / 8.

(** [Plan::build]; [providers] are the eight of them. *)
Definition build (range : Range) (providers : list bytes) : result Plan :=
  let! _ := validate range in
  Ok {| pl_range := range;
        pl_obligations := concat (map (fun slot =>
          let n := residue_count (rg_first range) (rg_last range) slot in
          if 0 <? n then
            let provider := default [] (providers !! Z.to_nat slot) in
            [{| ob_slot := slot; ob_assigned := provider; ob_payee := provider; ob_blob_count := n |}]
          else []) (seqZ 0 8)) |}.

(** [for o in &self.obligations]: the total, from [total] and the slot before. *)
Fixpoint checkObligations (range : Range) (prior : option Z) (total : Z) (l : list Obligation) : result Z :=
  match l with
  | [] => Ok total
  | o :: l =>
      throw_if (7 <? ob_slot o) || negb (bool_decide (ob_assigned o = ob_payee o))
               || negb (ob_blob_count o =? residue_count (rg_first range) (rg_last range) (ob_slot o))
               || (ob_blob_count o =? 0)
               || match prior with Some p => ob_slot o <=? p | None => false end
        with invalid else
      checkObligations range (Some (ob_slot o)) (total + ob_blob_count o) l
  end.

Definition obligation_bytes (o : Obligation) : bytes :=
  be (ob_slot o) 4 ++ ob_assigned o ++ ob_payee o ++ be (ob_blob_count o) 8.

(** [Plan::bytes] *)
Definition plan_bytes (p : Plan) : result bytes :=
  let! _ := validate (pl_range p) in
  throw_if bool_decide (pl_obligations p = []) || (8 <? Z.of_nat (length (pl_obligations p))) with invalid else
  let! total := checkObligations (pl_range p) None 0 (pl_obligations p) in
  throw_if negb (total =? rg_population (pl_range p)) with invalid else
  Ok (append_lp (ascii "polystore/retrieval-plan/v3")
      ++ be (rg_first (pl_range p)) 8 ++ be (rg_last (pl_range p)) 8 ++ be (rg_population (pl_range p)) 8
      ++ be (Z.of_nat (length (pl_obligations p))) 4 ++ concat (map obligation_bytes (pl_obligations p))).

(** ** Texts and amounts in a context *)

Definition is_ascii_alphabetic (b : Z) : bool := ((65 <=? b) && (b <=? 90)) || ((97 <=? b) && (b <=? 122)).
Definition is_ascii_digit (b : Z) : bool := (48 <=? b) && (b <=? 57).

Definition valid_denom (v : bytes) : bool :=
  match v with
  | [] => false
  | b :: rest =>
      (3 <=? blen v) && (blen v <=? 128) && is_ascii_alphabetic b
      && forallb (fun b => is_ascii_alphabetic b || is_ascii_digit b || bool_decide (b ∈ ascii "/:._-")) rest
  end.

Definition decimal_value (v : bytes) : Z := foldl (fun n b => n * 10 + (b - 48)) 0 v.

Definition valid_amount (v : bytes) : bool :=
  match v with
  | [] => false
  | b :: _ =>
      (blen v <=? 78) && forallb is_ascii_digit v && (bool_decide (v = ascii "0") || negb (b =? 48))
      && (decimal_value v <? 2 ^ 256)
  end.

(** ** Contexts *)

Record ContextV3 := {
  c3_hash : bytes; c3_first : Z; c3_population : Z; c3_samples : Z; c3_metadata : Z }.

Record ChallengeV3 := {
  h3_ordinal : Z; h3_position : Z; h3_t : Z; h3_mdu_index : Z; h3_leaf_index : Z; h3_slot : Z; h3_z : bytes }.

Section core.
Context (sha256 : bytes -> bytes).

(** [Plan::hash] *)
Definition plan_hash (p : Plan) : result bytes := let! b := plan_bytes p in Ok (sha256 b).

Definition session_id_input (chain owner : bytes) (deal generation record range_start range_length : Z)
    (plan_hash : bytes) (nonce : Z) : bytes :=
  append_lp (ascii "polystore/retrieval-session/v3") ++ be VERSION 4 ++ append_lp chain ++ owner
  ++ be deal 8 ++ be generation 8 ++ be record 4 ++ be range_start 8 ++ be range_length 8
  ++ plan_hash ++ be nonce 8.

Definition session_id (chain owner : bytes) (deal generation record range_start range_length : Z)
    (plan_hash : bytes) (nonce : Z) : result bytes :=
  throw_if negb (valid_chain chain) || (range_length =? 0) || (MAX_RANGE_BYTES <? range_length)
    with invalid else
  Ok (sha256 (session_id_input chain owner deal generation record range_start range_length plan_hash nonce)).

Definition generation_acceptance (chain setup : bytes) (deal generation : Z) (polyfs integrity : bytes)
    (metadata users slot : Z) (provider : bytes) : result bytes :=
  throw_if negb (valid_chain chain) || (metadata =? 0) || (65537 <? metadata) || (users =? 0)
           || (65537 - metadata <? users) || (12 <=? slot) with invalid else
  Ok (append_lp (ascii "polystore/generation-acceptance/v3") ++ append_lp chain ++ setup
      ++ be deal 8 ++ be generation 8 ++ polyfs ++ integrity ++ [2] ++ be 8 4 ++ be 4 4
      ++ be metadata 8 ++ be users 8 ++ be slot 4 ++ provider).

Definition obligation_ack (chain session context plan : bytes) (o : Obligation) (billed_encoded_bytes : Z)
    (integrity : bytes) : result bytes :=
  throw_if negb (valid_chain chain) || (8 <=? ob_slot o) || negb (bool_decide (ob_assigned o = ob_payee o))
           || (ob_blob_count o =? 0) || (U64_MAX <? ob_blob_count o * 131072)
           || negb (ob_blob_count o * 131072 =? billed_encoded_bytes) with invalid else
  Ok (append_lp (ascii "polystore/retrieval-obligation-ack/v3") ++ append_lp chain ++ session ++ context ++ plan
      ++ be (ob_slot o) 4 ++ ob_assigned o ++ ob_payee o ++ be (ob_blob_count o) 8
      ++ be billed_encoded_bytes 8 ++ integrity).

(** The fields of a context, before they are checked against each other. *)
Record ContextFields := {
  cf_chain : bytes; cf_sid : bytes; cf_owner : bytes; cf_deal : Z; cf_generation : Z; cf_record : Z;
  cf_file_start : Z; cf_file_length : Z; cf_range_start : Z; cf_range_length : Z; cf_metadata : Z; cf_users : Z;
  cf_plan : bytes; cf_population : Z; cf_samples : Z; cf_nonce : Z; cf_denom : bytes; cf_price : bytes;
  cf_base : bytes; cf_burn : Z; cf_funding : Z; cf_payer : bytes; cf_snapshot : Z; cf_anchor : Z;
  cf_first_response : Z; cf_deadline : Z; cf_deal_end : Z }.

Definition context_fields_v3 : reader ContextFields :=
  read! domain := r_lp in
  reject_if negb (bool_decide (domain = ascii "polystore/challenge-context/v3")) else
  read! version := r_u32 in
  reject_if negb (version =? VERSION) else
  read! chain := r_lp in
  reject_if negb (valid_chain chain) else
  read! _ := take_ 32 in
  read! sid := take_ 32 in
  read! owner := take_ 20 in
  read! deal := r_u64 in
  read! generation := r_u64 in
  read! _ := take_ 32 in
  read! _ := take_ 32 in
  read! record := r_u32 in
  read! file_start := r_u64 in
  read! file_length := r_u64 in
  read! range_start := r_u64 in
  read! range_length := r_u64 in
  read! layout := r_u8 in
  reject_if negb (layout =? 2) else
  read! k := r_u32 in
  reject_if negb (k =? 8) else
  read! m := r_u32 in
  reject_if negb (m =? 4) else
  read! metadata := r_u64 in
  read! users := r_u64 in
  read! plan := take_ 32 in
  read! population := r_u64 in
  read! samples := r_u64 in
  read! nonce := r_u64 in
  read! denom := r_lp in
  read! price := r_lp in
  read! base := r_lp in
  read! burn := r_u32 in
  read! funding := r_u8 in
  read! payer := take_ 20 in
  read! snapshot := r_u64 in
  read! anchor := r_u64 in
  read! first_response := r_u64 in
  read! deadline := r_u64 in
  read! deal_end := r_u64 in
  read! _ := r_end in
  rret {| cf_chain := chain; cf_sid := sid; cf_owner := owner; cf_deal := deal; cf_generation := generation;
          cf_record := record; cf_file_start := file_start; cf_file_length := file_length;
          cf_range_start := range_start; cf_range_length := range_length; cf_metadata := metadata;
          cf_users := users; cf_plan := plan; cf_population := population; cf_samples := samples;
          cf_nonce := nonce; cf_denom := denom; cf_price := price; cf_base := base; cf_burn := burn;
          cf_funding := funding; cf_payer := payer; cf_snapshot := snapshot; cf_anchor := anchor;
          cf_first_response := first_response; cf_deadline := deadline; cf_deal_end := deal_end |}.

(** What [Context::parse] rejects once the fields are read. *)
Definition fields_rejected (f : ContextFields) : bool :=
  (cf_metadata f =? 0) || (65537 <? cf_metadata f) || (cf_users f =? 0) || (65537 - cf_metadata f <? cf_users f)
  || negb (valid_denom (cf_denom f)) || negb (valid_amount (cf_price f)) || negb (valid_amount (cf_base f))
  || (10000 <? cf_burn f) || negb ((cf_funding f =? 1) || (cf_funding f =? 2))
  || negb (bool_decide (cf_payer f = cf_owner f)) || (cf_snapshot f =? 0) || (MAX_HEIGHT - 2 <? cf_snapshot f)
  || (cf_deal_end f =? 0) || (MAX_HEIGHT <? cf_deal_end f) || negb (cf_anchor f =? cf_snapshot f + 1)
  || negb (cf_first_response f =? cf_snapshot f + 2) || (cf_deadline f <? cf_first_response f)
  || (cf_deal_end f <? cf_deadline f) || (cf_deal_end f <=? cf_snapshot f).

(** [Context::parse] *)
Definition context_parse_v3 (bs : bytes) : result ContextV3 :=
  throw_if MAX_CONTEXT_BYTES <? blen bs with invalid else
  let! r := context_fields_v3 bs in
  let f := r.1 in
  throw_if fields_rejected f with invalid else
  let! range := checked_range (cf_file_start f) (cf_file_length f) (cf_range_start f) (cf_range_length f) (cf_users f) in
  throw_if negb (cf_population f =? rg_population range)
           || negb (cf_samples f =? Z.min (cf_population f) MAX_SAMPLES_V3) with invalid else
  let! sid := session_id (cf_chain f) (cf_owner f) (cf_deal f) (cf_generation f) (cf_record f) (cf_range_start f)
                (cf_range_length f) (cf_plan f) (cf_nonce f) in
  throw_if negb (bool_decide (cf_sid f = sid)) with invalid else
  Ok {| c3_hash := sha256 bs; c3_first := rg_first range; c3_population := cf_population f;
        c3_samples := cf_samples f; c3_metadata := cf_metadata f |}.

(** [Context::seed] *)
Definition context_seed (c : ContextV3) (anchor : bytes) : bytes :=
  sha256 (append_lp (ascii "polystore/challenge-seed/v3") ++ c3_hash c ++ anchor).

Context `{field : ScalarField}.

(** [positions.into_iter().enumerate().map(..)] *)
Fixpoint challengeAt_v3 (c : ContextV3) (seed : bytes) (i : Z) (positions : list Z) : result (list ChallengeV3) :=
  match positions with
  | [] => Ok []
  | p :: positions =>
      let t := c3_first c + p in
      let d := t mod 64 in
      let slot := d mod 8 in
      let leaf := slot * 8 + d / 8 in
      let mdu := c3_metadata c + t / 64 in
      let! z := derive_z_with_domain sha256 (ascii "polystore/blob-challenge/v3") (c3_hash c) seed i (Some t) mdu leaf in
      let! rest := challengeAt_v3 c seed (i + 1) positions in
      Ok ({| h3_ordinal := i; h3_position := p; h3_t := t; h3_mdu_index := mdu; h3_leaf_index := leaf;
             h3_slot := slot; h3_z := z |} :: rest)
  end.

(** [Context::challenges] *)
Definition challenges_v3 (c : ContextV3) (seed : bytes) : result (list ChallengeV3) :=
  let! positions := sample_with_domain sha256 (ascii "polystore/session-position/v3") (c3_hash c) seed
                      (c3_population c) (c3_samples c) MAX_SAMPLES_V3 in
  challengeAt_v3 c seed 0 positions.

Definition challenge_bytes (x : ChallengeV3) : bytes :=
  be (h3_ordinal x) 8 ++ be (h3_position x) 8 ++ be (h3_t x) 8 ++ be (h3_mdu_index x) 8
  ++ be (h3_leaf_index x) 4 ++ be (h3_slot x) 4 ++ h3_z x.

(** [Context::challenges_flat] *)
Definition challenges_flat_v3 (c : ContextV3) (seed : bytes) : result bytes :=
  let! l := challenges_v3 c seed in
  Ok (concat (map challenge_bytes l)).

(** ** Entry points of the WebAssembly module *)

(** [checked_metadata_text]; every string here has valid code units. *)
Definition checked_metadata_text (value : string) (max_bytes : Z) (message : string) : result bytes :=
  throw_if (slen value =? 0) || (max_bytes <? slen value) with message else
  let encoded := TextEncoder_encode value in
  throw_if max_bytes <? blen encoded with message else
  Ok encoded.

Definition checked_retrieval_v3_range (file_start file_length range_start range_length user_mdus : Z) : result bytes :=
  let! file_start := checked_metadata_u64 file_start in
  let! file_length := checked_metadata_u64 file_length in
  let! range_start := checked_metadata_u64 range_start in
  let! range_length := checked_metadata_u64 range_length in
  let! user_mdus := checked_metadata_u64 user_mdus in
  let! range := checked_range file_start file_length range_start range_length user_mdus in
  Ok (be (rg_first range) 8 ++ be (rg_last range) 8 ++ be (rg_population range) 8).

Definition retrieval_v3_plan (first last population : Z) (providers_flat : bytes) : result bytes :=
  throw_if negb (blen providers_flat =? 8 * 20) with "v3 plan requires eight 20-byte providers" else
  let providers := map (fun i => subarray providers_flat (i * 20) ((i + 1) * 20)) (seqZ 0 8) in
  let! first := checked_metadata_u64 first in
  let! last := checked_metadata_u64 last in
  let! population := checked_metadata_u64 population in
  let! plan := build {| rg_first := first; rg_last := last; rg_population := population |} providers in
  plan_bytes plan.

Definition retrieval_v3_session_id (chain : string) (owner : bytes)
    (deal generation record range_start range_length : Z) (plan_hash : bytes) (nonce : Z) : result bytes :=
  throw_if negb (blen owner =? 20) with "v3 owner must be 20 bytes" else
  throw_if negb (blen plan_hash =? 32) with "v3 plan hash must be 32 bytes" else
  let! chain := checked_metadata_text chain 50 "invalid v3 chain ID" in
  let! deal := checked_metadata_u64 deal in
  let! generation := checked_metadata_u64 generation in
  let! record := checked_metadata_number record (2 ^ 32 - 1) in
  let! range_start := checked_metadata_u64 range_start in
  let! range_length := checked_metadata_u64 range_length in
  let! nonce := checked_metadata_u64 nonce in
  session_id chain owner deal generation record range_start range_length plan_hash nonce.

Definition retrieval_v3_obligation_ack_hash (chain : string) (session context plan : bytes) (slot : Z)
    (assigned payee : bytes) (blob_count billed_encoded_bytes : Z) (integrity : bytes) : result bytes :=
  throw_if negb (blen session =? 32) with "v3 session ID must be 32 bytes" else
  throw_if negb (blen context =? 32) with "v3 context hash must be 32 bytes" else
  throw_if negb (blen plan =? 32) with "v3 plan hash must be 32 bytes" else
  throw_if negb (blen assigned =? 20) with "v3 assigned provider must be 20 bytes" else
  throw_if negb (blen payee =? 20) with "v3 payee must be 20 bytes" else
  throw_if negb (blen integrity =? 32) with "v3 integrity root must be 32 bytes" else
  let! slot := checked_metadata_number slot 7 in
  let! blob_count := checked_metadata_u64 blob_count in
  let! chain := checked_metadata_text chain 50 "invalid v3 chain ID" in
  let! billed := checked_metadata_u64 billed_encoded_bytes in
  let! b := obligation_ack chain session context plan
              {| ob_slot := slot; ob_assigned := assigned; ob_payee := payee; ob_blob_count := blob_count |}
              billed integrity in
  Ok (sha256 b).

Definition retrieval_v3_context_hash (bs : bytes) : result bytes :=
  let! context := context_parse_v3 bs in Ok (c3_hash context).

Definition retrieval_v3_seed (bs anchor : bytes) : result bytes :=
  let! context := context_parse_v3 bs in
  throw_if negb (blen anchor =? 32) with "v3 anchor must be 32 bytes" else
  Ok (context_seed context anchor).

Definition derive_retrieval_v3_challenges (bs seed : bytes) : result bytes :=
  let! context := context_parse_v3 bs in
  throw_if negb (blen seed =? 32) with "v3 seed must be 32 bytes" else
  challenges_flat_v3 context seed.
End core.
