(* ===== verification/V3Chunks.v ===== *)
(** * Retrieval v3: ranges, obligations and chunks

    Models src/polystore-website/src/lib/retrievalV3.ts ([decodeRangeV3],
    [expectedObligationsV3], [planV3Chunks] and the frozen data), the chunk checks of src/polystore-website/src/lib/retrievalWire.ts
    ([validateV3GenerationAuthority], [validateV3ChunkAuthority],
    [verifyRetrievalDataV3]) and the cursor arithmetic of
    src/polystore-website/src/lib/retrievalV3Flow.ts.

    A range is the user blobs [first] to [last]; blob [t] belongs to slot
    [t mod 8] and to user MDU [t / 64].  The generators are the lists they yield;
    their loops run on the number of values they count through.  The integrity
    check of the WebAssembly module is an argument. *)

From S2P Require Import Prelude JsNumber JsBytes Encoding Layout Windows Pinned.
Local Open Scope Z_scope.

Record FrozenGenerationV3 := {
  g_chainId : string; g_height : Z; g_dealId : Z; g_generation : Z; g_owner : string;
  g_dealEnd : Z; g_polyfsRoot : string; g_integrityRoot : string; g_setupDigest : string;
  g_retrievalPolicyMode : Z; g_integrityLeafCount : Z; g_metadataMdus : Z; g_userMdus : Z;
  g_totalMdus : Z; g_witnessMdus : Z; g_providers : list string }.

Record RetrievalRangeV3 := { r_first : Z; r_last : Z; r_population : Z }.

Record RetrievalObligationV3 := {
  o_slot : Z; o_assigned : string; o_payee : string; o_blobCount : Z; o_sampleCount : Z;
  o_lockedFee : Z }.

Record EntryAuthority := {
  e_t : Z; e_mduIndex : Z; e_leafIndex : Z; e_integrityPosition : Z }.

(** The spread [...session.authority] of a chunk is its [c_authority]. *)
Record ChunkAuthority := {
  c_authority : FrozenGenerationV3; c_sessionId : string; c_contextHash : bytes; c_slot : Z;
  c_mduIndex : Z; c_startBlobIndex : Z; c_entries : list EntryAuthority }.

(** The fields of a session that planning reads. *)
Record SessionRangeV3 := {
  s_authority : FrozenGenerationV3; s_sessionId : string; s_contextHash : bytes;
  s_first : Z; s_last : Z }.

(** ** Ranges and obligations *)

(** [view.getBigUint64(at)] *)
Definition getBigUint64 (l : bytes) (at_ : Z) : Z :=
  foldl (fun n b => n * 256 + b) 0 (subarray l at_ (at_ + 8)).

Definition decodeRangeV3 (bs : bytes) : result RetrievalRangeV3 :=
  throw_if negb (blen bs =? 24) with "invalid v3 range result" else
  let range := {| r_first := getBigUint64 bs 0; r_last := getBigUint64 bs 8;
                  r_population := getBigUint64 bs 16 |} in
  throw_if (r_population range =? 0)
    || negb (r_last range - r_first range + 1 =? r_population range)
    with "invalid v3 range result" else
  Ok range.

(** The first blob of the range that slot [slot] serves. *)
Definition obligationFirst (range : RetrievalRangeV3) (slot : Z) : Z :=
  if r_first range <=? slot then slot
  else r_first range + Z.rem (slot - Z.rem (r_first range) 8 + 8) 8.

Definition expectedObligationsV3 (range : RetrievalRangeV3) (providers : list string)
    : result (list RetrievalObligationV3) :=
  throw_if Z.of_nat (length providers) <? 8 with "missing systematic providers" else
  Ok (concat (map (fun slot =>
    let first := obligationFirst range slot in
    if r_last range <? first then [] else
    let provider := default "" (providers !! Z.to_nat slot) in
    [{| o_slot := slot; o_assigned := provider; o_payee := provider;
        o_blobCount := Z.quot (r_last range - first) 8 + 1; o_sampleCount := 0;
        o_lockedFee := 0 |}]) (seqZ 0 8))).

(** ** Chunks *)

(** [for (let t = first; t <= high; t += 8n)]: at most 8 blobs of one MDU. *)
Fixpoint chunkEntries (fuel : nat) (metadataMdus slot t high : Z) : list EntryAuthority :=
  match fuel with
  | O => []
  | S fuel =>
      if t <=? high then
        let leafIndex := slot * 8 + Z.quot (Z.rem t 64) 8 in
        {| e_t := t; e_mduIndex := metadataMdus + Z.quot t 64; e_leafIndex := leafIndex;
           e_integrityPosition := Z.quot t 64 * 96 + leafIndex |}
        :: chunkEntries fuel metadataMdus slot (t + 8) high
      else []
  end.

(** One pass of the loop over user MDUs: a chunk, or none when [continue]. *)
Definition chunkOfMdu (session : SessionRangeV3) (slot userMdu : Z) : list ChunkAuthority :=
  let low := if s_first session <? userMdu * 64 then userMdu * 64 else s_first session in
  let high := if userMdu * 64 + 63 <? s_last session then userMdu * 64 + 63 else s_last session in
  let first := low + Z.rem (slot - Z.rem low 8 + 8) 8 in
  if high <? first then [] else
  let entries := chunkEntries 8 (g_metadataMdus (s_authority session)) slot first high in
  match entries with
  | [] => []
  | entry :: _ =>
      [{| c_authority := s_authority session; c_sessionId := s_sessionId session;
          c_contextHash := s_contextHash session; c_slot := slot;
          c_mduIndex := g_metadataMdus (s_authority session) + userMdu;
          c_startBlobIndex := e_leafIndex entry; c_entries := entries |}]
  end.

Definition slotChunks (session : SessionRangeV3) (slot : Z) : list ChunkAuthority :=
  let firstMdu := Z.quot (s_first session) 64 in
  let lastMdu := Z.quot (s_last session) 64 in
  concat (map (chunkOfMdu session slot) (seqZ firstMdu (lastMdu - firstMdu + 1))).

Definition planV3Chunks (session : SessionRangeV3) (onlySlot : option number)
    : result (list ChunkAuthority) :=
  match onlySlot with
  | Some n =>
      throw_if negb (isSafeInteger n) || num_ltz n || (7 <? num_int n)
        with "invalid v3 chunk slot" else
      Ok (concat (map (fun slot => if slot =? num_int n then slotChunks session slot else [])
                    (seqZ 0 8)))
  | None => Ok (concat (map (slotChunks session) (seqZ 0 8)))
  end.

(** ** Checks on a chunk *)

Definition validateV3GenerationAuthority (a : FrozenGenerationV3) : result (bytes * bytes) :=
  let! polyfsRoot := unhex (g_polyfsRoot a) 32 in
  let! integrityRoot := unhex (g_integrityRoot a) 32 in
  throw_if (g_metadataMdus a <? 2) || (65536 <? g_metadataMdus a) || (g_userMdus a <? 1)
    || (65537 - g_metadataMdus a <? g_userMdus a)
    || negb (g_integrityLeafCount a =? g_userMdus a * 96)
    with "invalid frozen v3 generation authority" else
  Ok (polyfsRoot, integrityRoot).

(** [entries.some((entry, i) => ...)] negated. *)
Fixpoint entriesFollow (mdu start i : Z) (l : list EntryAuthority) : bool :=
  match l with
  | [] => true
  | e :: l => (e_mduIndex e =? mdu) && (e_leafIndex e =? start + i) && entriesFollow mdu start (i + 1) l
  end.

Definition validateV3ChunkAuthority (a : ChunkAuthority) : result unit :=
  let! _ := validateV3GenerationAuthority (c_authority a) in
  let! _ := unhex (c_sessionId a) 32 in
  throw_if bool_decide (c_entries a = []) || (8 <? Z.of_nat (length (c_entries a)))
    with "invalid frozen v3 authority" else
  let! slot := uint (Some (JNum (int (c_slot a)))) 7 in
  let! start := uint (Some (JNum (int (c_startBlobIndex a)))) 95 in
  throw_if negb (blen (c_contextHash a) =? 32)
    || negb (entriesFollow (c_mduIndex a) (c_startBlobIndex a) 0 (c_entries a))
    with "invalid frozen v3 authority" else
  Ok tt.

Record EnvelopeEntry := { ee_entry : EntryAuthority; ee_integrityPath : list bytes }.
Record EnvelopeV3 := { env_bytes : bytes; env_entries : list EnvelopeEntry }.

Definition entry_eqb (a b : EntryAuthority) : bool :=
  (e_t a =? e_t b) && (e_mduIndex a =? e_mduIndex b) && (e_leafIndex a =? e_leafIndex b)
  && (e_integrityPosition a =? e_integrityPosition b).

Section verify.
(** [verify_integrity_v3_blob(mdu, leaf, position, leafCount, blob, path, root)] *)
Context (verify_integrity_v3_blob : Z -> Z -> Z -> Z -> bytes -> bytes -> bytes -> bool).

(** One call of the callback of [envelope.entries.forEach]. *)
Definition verifyEntryV3 (a : ChunkAuthority) (integrityRoot bs : bytes) (i : Z)
    (entry : EnvelopeEntry) (expected : EntryAuthority) : result unit :=
  throw_if 23 <? Z.of_nat (length (ee_integrityPath entry))
    with "retrieval v3 integrity path exceeds protocol depth" else
  let g := c_authority a in
  let tOffset := Z.rem (e_t expected) 64 in
  let mdu := g_metadataMdus g + Z.quot (e_t expected) 64 in
  let slot := Z.rem tOffset 8 in
  let leaf := slot * 8 + Z.quot tOffset 8 in
  let position := (mdu - g_metadataMdus g) * 96 + leaf in
  throw_if negb (e_mduIndex expected =? c_mduIndex a) || negb (e_mduIndex expected =? mdu)
    || negb (e_leafIndex expected =? leaf) || negb (slot =? c_slot a)
    || negb (e_leafIndex expected =? c_startBlobIndex a + i)
    || negb (e_integrityPosition expected =? position)
    || (g_integrityLeafCount g <=? position) || negb (entry_eqb (ee_entry entry) expected)
    with "noncanonical frozen v3 coordinate" else
  throw_if existsb (fun sibling => negb (blen sibling =? 32)) (ee_integrityPath entry)
    with "invalid v3 integrity path" else
  let path := concat (ee_integrityPath entry) in
  let blob := subarray bs (i * BLOB_SIZE_BYTES) ((i + 1) * BLOB_SIZE_BYTES) in
  throw_if negb (verify_integrity_v3_blob mdu leaf position (g_integrityLeafCount g) blob path
                   integrityRoot)
    with "v3 retrieval bytes failed integrity verification" else
  Ok tt.

Fixpoint verifyEntriesV3 (a : ChunkAuthority) (integrityRoot bs : bytes) (i : Z)
    (entries : list EnvelopeEntry) (expected : list EntryAuthority) : result unit :=
  match entries, expected with
  | entry :: entries, e :: expected =>
      let! _ := verifyEntryV3 a integrityRoot bs i entry e in
      verifyEntriesV3 a integrityRoot bs (i + 1) entries expected
  | _, _ => Ok tt
  end.

Definition verifyRetrievalDataV3 (a : ChunkAuthority) (envelope : EnvelopeV3) : result bytes :=
  let! _ := validateV3ChunkAuthority a in
  let! integrityRoot := unhex (g_integrityRoot (c_authority a)) 32 in
  throw_if negb (Z.of_nat (length (env_entries envelope)) =? Z.of_nat (length (c_entries a)))
    || negb (blen (env_bytes envelope) =? Z.of_nat (length (c_entries a)) * BLOB_SIZE_BYTES)
    with "incomplete v3 retrieval bytes" else
  let! _ := verifyEntriesV3 a integrityRoot (env_bytes envelope) 0 (env_entries envelope)
              (c_entries a) in
  Ok (env_bytes envelope).

End verify.

(** ** Cursors (src/polystore-website/src/lib/retrievalV3Flow.ts) *)

Definition retrievalV3SlotEnd (last slot : Z) : Z :=
  let offset := Z.rem (Z.rem last 8 - slot + 8) 8 in
  last - offset.

(** [cursors[slot] ?? -1n] is given as a function. *)
Definition retrievalV3OutputComplete (last : Z) (obligations : list RetrievalObligationV3)
    (cursors : Z -> option Z) : bool :=
  forallb (fun o => default (-1) (cursors (o_slot o)) =? retrievalV3SlotEnd last (o_slot o))
    obligations.

(** ** What they are compared with *)

(** The blobs of the range that slot [slot] serves, in order. *)
Definition slotBlobs (first last slot : Z) : list Z :=
  filter (fun t => t mod 8 = slot) (seqZ first (last - first + 1)).

(** The coordinates of blob [t]. *)
Definition entryOf (metadataMdus t : Z) : EntryAuthority :=
  let leaf := t mod 8 * 8 + t mod 64 / 8 in
  {| e_t := t; e_mduIndex := metadataMdus + t / 64; e_leafIndex := leaf;
     e_integrityPosition := t / 64 * 96 + leaf |}.

(** A planned chunk: one to eight blobs of one slot and one MDU, on consecutive
    leaves. *)
Definition chunk_wf (session : SessionRangeV3) (slot : Z) (c : ChunkAuthority) : Prop :=
  c_authority c = s_authority session /\ c_sessionId c = s_sessionId session
  /\ c_contextHash c = s_contextHash session /\ c_slot c = slot
  /\ c_entries c <> [] /\ Z.of_nat (length (c_entries c)) <= 8
  /\ forall i e, c_entries c !! i = Some e ->
       e = entryOf (g_metadataMdus (s_authority session)) (e_t e)
       /\ s_first session <= e_t e <= s_last session /\ e_t e mod 8 = slot
       /\ e_mduIndex e = c_mduIndex c
       /\ e_leafIndex e = c_startBlobIndex c + Z.of_nat i.

(** ** Lemmas *)

(** The blobs of the inner loop. *)
Fixpoint steps8 (fuel : nat) (t high : Z) : list Z :=
  match fuel with
  | O => []
  | S fuel => if t <=? high then t :: steps8 fuel (t + 8) high else []
  end.

Lemma elem_of_steps8 fuel t high x :
  x ∈ steps8 fuel t high <-> t <= x <= high /\ (x - t) mod 8 = 0 /\ x < t + 8 * Z.of_nat fuel.
Proof.
  revert t; induction fuel as [|fuel IH]; intros t; cbn [steps8].
  - split; [by intros ?%elem_of_nil | lia].
  - destruct (Z.leb_spec t high); [|split; [by intros ?%elem_of_nil | lia]].
    rewrite elem_of_cons, IH. div_lia_linear.
Qed.

Lemma ascending_steps8 fuel t high : StronglySorted Z.lt (steps8 fuel t high).
Proof.
  revert t; induction fuel as [|fuel IH]; intros t; cbn [steps8]; [constructor|].
  case_match; constructor; [apply IH|]. apply Forall_forall. intros x (? & _ & _)%elem_of_steps8. lia.
Qed.

Lemma steps8_lookup fuel t high i x :
  steps8 fuel t high !! i = Some x -> x = t + 8 * Z.of_nat i.
Proof.
  revert t i; induction fuel as [|fuel IH]; intros t [|i]; cbn [steps8]; try done;
    case_match; cbn; try done; [intros [= <-]; lia | intros ->%IH; lia].
Qed.

Lemma length_steps8 fuel t high : (length (steps8 fuel t high) <= fuel)%nat.
Proof. revert t; induction fuel as [|fuel IH]; intros t; cbn; [lia|]. case_match; cbn; [specialize (IH (t + 8))|]; lia. Qed.

Lemma chunkEntries_eq fuel meta slot t high :
  0 <= t -> t mod 8 = slot ->
  chunkEntries fuel meta slot t high = map (entryOf meta) (steps8 fuel t high).
Proof.
  revert t; induction fuel as [|fuel IH]; intros t Ht Hs; cbn [chunkEntries steps8 map]; [done|].
  case_match; [|done]. rewrite IH by (lia || div_lia_linear). cbn [map]. f_equal.
  unfold entryOf. rewrite Z.rem_mod_nonneg, !Z.quot_div_nonneg by (lia || div_lia_linear).
  by subst slot.
Qed.

Section plan.
Context (session : SessionRangeV3) (slot : Z).
Context (Hfirst : 0 <= s_first session) (Hslot : 0 <= slot < 8).

(** The blobs of slot [slot] in user MDU [u], and the chunk made of them. *)
Definition mduFirst (u : Z) : Z :=
  let low := Z.max (u * 64) (s_first session) in low + (slot - low) mod 8.
Definition mduHigh (u : Z) : Z := Z.min (u * 64 + 63) (s_last session).
Definition mduBlobs (u : Z) : list Z := steps8 8 (mduFirst u) (mduHigh u).

Lemma chunkOfMdu_eq u :
  0 <= u ->
  chunkOfMdu session slot u =
  match mduBlobs u with
  | [] => []
  | t :: _ =>
      [{| c_authority := s_authority session; c_sessionId := s_sessionId session;
          c_contextHash := s_contextHash session; c_slot := slot;
          c_mduIndex := g_metadataMdus (s_authority session) + u;
          c_startBlobIndex := e_leafIndex (entryOf (g_metadataMdus (s_authority session)) t);
          c_entries := map (entryOf (g_metadataMdus (s_authority session))) (mduBlobs u) |}]
  end.
Proof.
  intros Hu. unfold chunkOfMdu, mduBlobs.
  replace (if s_first session <? u * 64 then u * 64 else s_first session)
    with (Z.max (u * 64) (s_first session)) by (destruct (Z.ltb_spec (s_first session) (u * 64)); lia).
  replace (if u * 64 + 63 <? s_last session then u * 64 + 63 else s_last session)
    with (mduHigh u) by (unfold mduHigh; destruct (Z.ltb_spec (u * 64 + 63) (s_last session)); lia).
  set (low := Z.max _ _).
  assert (Hf : low + Z.rem (slot - Z.rem low 8 + 8) 8 = mduFirst u).
  { unfold mduFirst. fold low. rewrite (Z.rem_mod_nonneg low) by lia.
    rewrite Z.rem_mod_nonneg by div_lia_linear. f_equal. div_lia_linear. }
  rewrite Hf. rewrite chunkEntries_eq by (unfold mduFirst; fold low; div_lia_linear).
  destruct (Z.ltb_spec (mduHigh u) (mduFirst u)).
  - cbn [steps8]. by rewrite (proj2 (Z.leb_gt _ _)) by lia.
  - cbn [steps8]. by rewrite (proj2 (Z.leb_le _ _)) by lia.
Qed.

Lemma elem_of_mduBlobs u x :
  0 <= u ->
  x ∈ mduBlobs u <-> s_first session <= x <= s_last session /\ x / 64 = u /\ x mod 8 = slot.
Proof.
  intros Hu. unfold mduBlobs. rewrite elem_of_steps8. unfold mduFirst, mduHigh.
  set (low := Z.max (u * 64) (s_first session)).
  assert (low = u * 64 \/ low = s_first session) by (unfold low; lia).
  assert (u * 64 <= low /\ s_first session <= low) by (unfold low; lia).
  div_lia_linear.
Qed.

Lemma entries_chunkOfMdu u :
  0 <= u -> map e_t (concat (map c_entries (chunkOfMdu session slot u))) = mduBlobs u.
Proof.
  intros Hu. rewrite chunkOfMdu_eq by done.
  destruct (mduBlobs u) as [|t ts]; [done|].
  cbn [map concat c_entries app e_t entryOf]. f_equal. rewrite app_nil_r, map_map. apply map_id.
Qed.

Lemma entries_slotChunks :
  map e_t (concat (map c_entries (slotChunks session slot)))
  = slotBlobs (s_first session) (s_last session) slot.
Proof.
  assert (Hdiv : s_first session <= s_last session -> 0 <= s_last session) by lia.
  assert (Heq : map e_t (concat (map c_entries (slotChunks session slot))) =
    concat (map mduBlobs (seqZ (Z.quot (s_first session) 64)
      (Z.quot (s_last session) 64 - Z.quot (s_first session) 64 + 1)))).
  { unfold slotChunks. set (us := seqZ _ _).
    assert (Hus : forall u, u ∈ us -> 0 <= u).
    { intros u [? _]%elem_of_seqZ. rewrite Z.quot_div_nonneg in * by lia. div_lia_linear. }
    clearbody us. induction us as [|u us IH]; [done|]. cbn [map concat].
    rewrite map_app, concat_app, map_app, IH by (intros v Hv; apply Hus; by right).
    by rewrite entries_chunkOfMdu by (apply Hus; left). }
  rewrite Heq. clear Heq. rewrite Z.quot_div_nonneg by lia.
  apply ascending_eq; [apply ascending_concat | apply ascending_filter, ascending_seqZ |].
  - apply ascending_seqZ.
  - intros u _. apply ascending_steps8.
  - intros u v x y Hu Hv Huv Hx Hy.
    apply elem_of_seqZ in Hu, Hv. rewrite elem_of_mduBlobs in Hx, Hy by div_lia_linear.
    div_lia_linear.
  - intros x. unfold slotBlobs. rewrite elem_of_concat_map, list_elem_of_filter, elem_of_seqZ. split.
    + intros (u & Hu & Hx). apply elem_of_seqZ in Hu. rewrite elem_of_mduBlobs in Hx by div_lia_linear. lia.
    + intros [Hm Hx]. exists (x / 64). rewrite elem_of_seqZ, elem_of_mduBlobs by div_lia_linear.
      rewrite Z.quot_div_nonneg by lia. div_lia_linear.
Qed.

Lemma slotChunks_wf : Forall (chunk_wf session slot) (slotChunks session slot).
Proof.
  apply Forall_forall. intros c Hc. unfold slotChunks in Hc.
  apply elem_of_concat_map in Hc as (u & Hu & Hc). apply elem_of_seqZ in Hu.
  rewrite Z.quot_div_nonneg in Hu by lia.
  assert (Hu0 : 0 <= u) by div_lia_linear. rewrite chunkOfMdu_eq in Hc by done.
  destruct (mduBlobs u) as [|t0 ts] eqn:E; [by apply elem_of_nil in Hc|].
  apply list_elem_of_singleton in Hc as ->. unfold chunk_wf; cbn [c_authority c_sessionId
    c_contextHash c_slot c_entries c_mduIndex c_startBlobIndex].
  split_and!; try done.
  - rewrite length_map, <- E. unfold mduBlobs. pose proof (length_steps8 8 (mduFirst u) (mduHigh u)). lia.
  - intros i e He. rewrite <- E in He.
    apply list_lookup_fmap_Some in He as (t & -> & Ht).
    pose proof (list_elem_of_lookup_2 _ _ _ Ht) as Hin. rewrite elem_of_mduBlobs in Hin by done.
    pose proof (steps8_lookup _ _ _ _ _ Ht) as Hi.
    assert (Ht0 : mduBlobs u !! 0%nat = Some t0) by by rewrite E.
    pose proof (list_elem_of_lookup_2 _ _ _ Ht0) as Hin0. rewrite elem_of_mduBlobs in Hin0 by done.
    pose proof (steps8_lookup _ _ _ _ _ Ht0) as Hi0.
    cbn [e_t e_mduIndex e_leafIndex entryOf].
    split_and!; try done; try lia. div_lia_linear.
Qed.

End plan.

Lemma slotBlobs_all first last :
  concat (map (slotBlobs first last) (seqZ 0 8)) ≡ₚ seqZ first (last - first + 1).
Proof.
  apply NoDup_Permutation; [|apply NoDup_seqZ|].
  - cbn [seqZ map concat]. change (seqZ 0 8) with [0; 1; 2; 3; 4; 5; 6; 7]. cbn [map concat].
    repeat (apply NoDup_app; split_and!;
      [apply NoDup_filter, NoDup_seqZ | intros x [Hx _]%list_elem_of_filter;
       rewrite ?elem_of_app, ?elem_of_nil; unfold slotBlobs;
       rewrite ?list_elem_of_filter; lia |]). constructor.
  - intros x. rewrite elem_of_concat_map. split.
    + intros (s & _ & [_ Hx]%list_elem_of_filter). done.
    + intros Hx. exists (x mod 8). unfold slotBlobs.
      rewrite list_elem_of_filter, elem_of_seqZ. split; [div_lia_linear | done].
Qed.

Lemma length_steps8_exact fuel t high :
  high < t + 8 * Z.of_nat fuel ->
  Z.of_nat (length (steps8 fuel t high)) = Z.max 0 ((high - t) / 8 + 1).
Proof.
  revert t; induction fuel as [|fuel IH]; intros t Hf; cbn [steps8 length]; [div_lia_linear|].
  destruct (Z.leb_spec t high); cbn [length]; [|div_lia_linear].
  rewrite Nat2Z.inj_succ, IH by lia. div_lia_linear.
Qed.

(** The first blob at or after [first] of slot [slot]. *)
Lemma slotBlobs_steps first last slot f :
  0 <= slot < 8 -> first <= f < first + 8 -> f mod 8 = slot ->
  slotBlobs first last slot = steps8 (Z.to_nat (last - f + 1)) f last.
Proof.
  intros Hs Hf Hm. apply ascending_eq.
  - apply ascending_filter, ascending_seqZ.
  - apply ascending_steps8.
  - intros x. unfold slotBlobs. rewrite list_elem_of_filter, elem_of_seqZ, elem_of_steps8.
    div_lia_linear.
Qed.

Lemma obligationFirst_spec range slot :
  0 <= r_first range -> 0 <= slot < 8 ->
  let f := obligationFirst range slot in
  f mod 8 = slot /\ r_first range <= f < r_first range + 8.
Proof.
  intros Hf Hs. unfold obligationFirst. destruct (Z.leb_spec (r_first range) slot); cbv zeta.
  - rewrite Z.mod_small by lia. lia.
  - rewrite (Z.rem_mod_nonneg (r_first range)) by lia.
    rewrite Z.rem_mod_nonneg by div_lia_linear. div_lia_linear.
Qed.

Lemma slotBlobs_count range slot :
  0 <= r_first range -> 0 <= slot < 8 ->
  let f := obligationFirst range slot in
  Z.of_nat (length (slotBlobs (r_first range) (r_last range) slot))
  = if r_last range <? f then 0 else Z.quot (r_last range - f) 8 + 1.
Proof.
  intros Hf Hs f.
  destruct (obligationFirst_spec range slot) as [Hm Hb]; [done | done |].
  fold f in Hm, Hb. rewrite (slotBlobs_steps _ _ _ f) by done.
  rewrite length_steps8_exact by lia.
  destruct (Z.ltb_spec (r_last range) f); [div_lia_linear|].
  rewrite Z.quot_div_nonneg by lia. div_lia_linear.
Qed.

Lemma last_steps8 fuel t high :
  t <= high -> high < t + 8 * Z.of_nat fuel ->
  last (steps8 fuel t high) = Some (high - (high - t) mod 8).
Proof.
  revert t; induction fuel as [|fuel IH]; intros t Ht Hf; cbn [steps8]; [lia|].
  rewrite (proj2 (Z.leb_le _ _)) by done.
  destruct (Z.le_gt_cases (t + 8) high) as [Hle|Hgt].
  - rewrite last_cons, IH by lia. f_equal. div_lia_linear.
  - destruct fuel; cbn [steps8]; [|rewrite (proj2 (Z.leb_gt _ _)) by lia];
      cbn [last]; f_equal; div_lia_linear.
Qed.

(** The obligation of one slot, from the blobs it serves. *)
Definition obligationOf (range : RetrievalRangeV3) (providers : list string) (slot : Z)
    : list RetrievalObligationV3 :=
  match slotBlobs (r_first range) (r_last range) slot with
  | [] => []
  | blobs =>
      let provider := default "" (providers !! Z.to_nat slot) in
      [{| o_slot := slot; o_assigned := provider; o_payee := provider;
          o_blobCount := Z.of_nat (length blobs); o_sampleCount := 0; o_lockedFee := 0 |}]
  end.

Lemma expectedObligationsV3_eq range providers :
  0 <= r_first range -> 8 <= Z.of_nat (length providers) ->
  expectedObligationsV3 range providers
  = Ok (concat (map (obligationOf range providers) (seqZ 0 8))).
Proof.
  intros Hf Hp. unfold expectedObligationsV3. rewrite (proj2 (Z.ltb_ge _ _)) by done.
  do 2 f_equal. apply map_ext_in. intros slot Hs%list_elem_of_In%elem_of_seqZ. unfold obligationOf.
  pose proof (slotBlobs_count range slot Hf ltac:(lia)) as Hc. cbv zeta in Hc.
  destruct (Z.ltb_spec (r_last range) (obligationFirst range slot)).
  - by destruct (slotBlobs _ _ slot); [|cbn in Hc; lia].
  - rewrite <- Hc. destruct (slotBlobs _ _ slot) eqn:E; [|done]. exfalso. cbn [length] in Hc.
    assert (0 <= Z.quot (r_last range - obligationFirst range slot) 8) by (apply Z.quot_pos; lia). lia.
Qed.

(** Which obligations a range has. *)
Lemma obligations_spec range providers :
  0 <= r_first range -> r_first range <= r_last range ->
  r_population range = r_last range - r_first range + 1 ->
  8 <= Z.of_nat (length providers) ->
  exists os, expectedObligationsV3 range providers = Ok os
    /\ map o_slot os = filter (fun s => slotBlobs (r_first range) (r_last range) s <> []) (seqZ 0 8)
    /\ Forall (fun o => o_blobCount o
         = Z.of_nat (length (slotBlobs (r_first range) (r_last range) (o_slot o)))
         /\ providers !! Z.to_nat (o_slot o) = Some (o_assigned o) /\ o_payee o = o_assigned o) os
    /\ foldr Z.add 0 (map o_blobCount os) = r_population range.
Proof.
  intros Hf Hl Hpop Hp. rewrite expectedObligationsV3_eq by done. eexists; split; [reflexivity|].
  pose proof (Permutation_length (slotBlobs_all (r_first range) (r_last range))) as Hlen.
  rewrite length_seqZ in Hlen. rewrite Hpop.
  replace (r_last range - r_first range + 1) with (Z.of_nat (length
    (concat (map (slotBlobs (r_first range) (r_last range)) (seqZ 0 8))))) by lia.
  assert (Hall : Forall (fun s => 0 <= s < 8) (seqZ 0 8)) by (apply Forall_seqZ; lia).
  clear Hlen Hpop. induction Hall as [|s l Hs Hl' IH]; cbn [map concat filter].
  { split_and!; [done | constructor | done]. }
  destruct IH as (IH1 & IH2 & IH3). rewrite filter_cons. unfold obligationOf at 1 3 5.
  rewrite map_app, map_app, foldr_app, IH1, IH3, length_app.
  destruct (slotBlobs (r_first range) (r_last range) s) as [|t ts] eqn:E.
  - rewrite decide_False by tauto. split_and!; [done | done | done].
  - rewrite decide_True by done. split_and!; [done | | cbn [map foldr o_blobCount]; lia].
    cbn [app]. constructor; [|done]. cbn [o_blobCount o_slot o_assigned o_payee]. rewrite E.
    split_and!; [done | | done].
    destruct (lookup_lt_is_Some_2 providers (Z.to_nat s)) as [p Hpr]; [lia|]. by rewrite Hpr.
Qed.

Lemma entry_eqb_eq a b : entry_eqb a b = true <-> a = b.
Proof.
  unfold entry_eqb. rewrite !andb_true_iff, !Z.eqb_eq. destruct a, b; cbn. split.
  - intros [[[-> ->] ->] ->]. done.
  - by intros [= -> -> -> ->].
Qed.

Lemma entriesFollow_spec mdu start i l :
  entriesFollow mdu start i l = true <->
  forall j e, l !! j = Some e -> e_mduIndex e = mdu /\ e_leafIndex e = start + i + Z.of_nat j.
Proof.
  revert i; induction l as [|e l IH]; intros i; cbn [entriesFollow]; [done|].
  rewrite !andb_true_iff, !Z.eqb_eq, IH. split.
  - intros [[? ?] Hl] [|j] e'; cbn; [intros [= <-]; lia|]. intros Hj. destruct (Hl j e' Hj). lia.
  - intros Hl. destruct (Hl 0%nat e eq_refl). split_and!; [done | lia |].
    intros j e' Hj. destruct (Hl (S j) e' Hj). lia.
Qed.

Section verify_facts.
Context (vf : Z -> Z -> Z -> Z -> bytes -> bytes -> bytes -> bool).
Context (session : SessionRangeV3) (slot : Z) (c : ChunkAuthority) (integrityRoot : bytes).
Context (Hwf : chunk_wf session slot c) (Hslot : 0 <= slot < 8) (Hfirst : 0 <= s_first session).
Context (Hlast : s_last session < g_userMdus (s_authority session) * 64).
Context (Hleaves : g_integrityLeafCount (s_authority session)
                   = g_userMdus (s_authority session) * 96).

(** What acceptance of entry [i] means: it is the planned entry, its path has the
    right shape and the integrity check passes at its coordinates. *)
Definition entry_verified (bs : bytes) (i : Z) (entry : EnvelopeEntry) (e : EntryAuthority) : Prop :=
  ee_entry entry = e /\ Z.of_nat (length (ee_integrityPath entry)) <= 23
  /\ Forall (fun sibling => blen sibling = 32) (ee_integrityPath entry)
  /\ vf (e_mduIndex e) (e_leafIndex e) (e_integrityPosition e)
       (g_integrityLeafCount (c_authority c))
       (subarray bs (i * BLOB_SIZE_BYTES) ((i + 1) * BLOB_SIZE_BYTES))
       (concat (ee_integrityPath entry)) integrityRoot = true.

Lemma verifyEntryV3_iff bs i e entry :
  c_entries c !! i = Some e ->
  verifyEntryV3 vf c integrityRoot bs (Z.of_nat i) entry e = Ok tt
  <-> entry_verified bs (Z.of_nat i) entry e.
Proof.
  destruct Hwf as (Ha & _ & _ & Hs & _ & _ & He). intros Hi.
  destruct (He i e Hi) as (Heq & Hr & Hm & Hmdu & Hleaf).
  assert (Ht : 0 <= e_t e) by lia.
  unfold verifyEntryV3, entry_verified. rewrite Ha in *.
  rewrite (Z.rem_mod_nonneg (e_t e) 64) by lia.
  rewrite (Z.rem_mod_nonneg _ 8), !Z.quot_div_nonneg by (lia || div_lia_linear).
  assert (Hmod : e_t e mod 64 mod 8 = e_t e mod 8) by div_lia_linear. rewrite Hmod.
  remember (e_t e) as t eqn:Et.
  assert (E1 : e_mduIndex e = g_metadataMdus (s_authority session) + t / 64) by by rewrite Heq.
  assert (E2 : e_leafIndex e = t mod 8 * 8 + t mod 64 / 8) by by rewrite Heq.
  assert (E3 : e_integrityPosition e = t / 64 * 96 + e_leafIndex e) by by rewrite Heq.
  assert (Hpos : e_integrityPosition e < g_integrityLeafCount (s_authority session)).
  { rewrite E3, E2, Hleaves. clear -Hr Ht Hlast. div_lia_linear. }
  rewrite Z.add_simpl_l, <- E1, <- E2, <- E3, Hs, Hm, <- Hmdu, <- Hleaf, !Z.eqb_refl.
  rewrite (proj2 (Z.leb_gt _ _)) by done. cbn [negb orb].
  destruct (Z.ltb_spec 23 (Z.of_nat (length (ee_integrityPath entry)))).
  { split; [done|]. intros (_ & ? & _). lia. }
  destruct (entry_eqb (ee_entry entry) e) eqn:Eq; cbn [negb].
  2: { split; [done|]. intros (Hee & _). apply entry_eqb_eq in Hee. congruence. }
  apply entry_eqb_eq in Eq.
  destruct (existsb _ _) eqn:Ex.
  { split; [done|]. intros (_ & _ & Hall & _). exfalso.
    apply existsb_exists in Ex as (x & Hx & Hx'). rewrite Forall_forall in Hall.
    apply list_elem_of_In, Hall in Hx. rewrite Hx in Hx'. done. }
  assert (Forall (fun sibling => blen sibling = 32) (ee_integrityPath entry)).
  { apply Forall_forall. intros x Hx. apply Z.eqb_eq. destruct (blen x =? 32) eqn:E; [done|].
    enough (existsb (fun sibling => negb (blen sibling =? 32)) (ee_integrityPath entry) = true) by congruence.
    apply existsb_exists. exists x. by rewrite E, <- list_elem_of_In. }
  destruct (vf _ _ _ _ _ _ _); cbn [negb]; split; try done. by intros (_ & _ & _ & ?).
Qed.

Lemma verifyEntriesV3_iff bs entries :
  length entries = length (c_entries c) ->
  verifyEntriesV3 vf c integrityRoot bs 0 entries (c_entries c) = Ok tt
  <-> forall i e entry, c_entries c !! i = Some e -> entries !! i = Some entry ->
        entry_verified bs (Z.of_nat i) entry e.
Proof.
  assert (Hgen : forall l k entries, drop k (c_entries c) = l -> length entries = length l ->
    verifyEntriesV3 vf c integrityRoot bs (Z.of_nat k) entries l = Ok tt
    <-> forall i e entry, l !! i = Some e -> entries !! i = Some entry ->
          entry_verified bs (Z.of_nat (k + i)) entry e).
  { induction l as [|e l IH]; intros k ens Hd Hl; destruct ens as [|en ens]; try done.
    cbn [verifyEntriesV3]. injection Hl as Hl.
    assert (Hk : c_entries c !! k = Some e)
      by (rewrite <- (Nat.add_0_r k), <- lookup_drop, Hd; done).
    rewrite bind_Ok. replace (Z.of_nat k + 1) with (Z.of_nat (S k)) by lia.
    split.
    - intros ([] & Hv & Hrest). rewrite verifyEntryV3_iff in Hv by done.
      rewrite IH in Hrest; [|by rewrite <- Nat.add_1_r, <- drop_drop, Hd | done].
      intros [|i] e' en' He' Hen'; cbn in *; [rewrite Nat.add_0_r; by simplify_eq|].
      rewrite Nat.add_succ_r. by apply Hrest.
    - intros Hall. exists tt. split.
      + apply verifyEntryV3_iff; [done|]. specialize (Hall 0%nat e en eq_refl eq_refl).
        by rewrite Nat.add_0_r in Hall.
      + apply IH; [by rewrite <- Nat.add_1_r, <- drop_drop, Hd | done |].
        intros i e' en' He' Hen'. specialize (Hall (S i) e' en' He' Hen').
        by rewrite Nat.add_succ_r in Hall. }
  intros Hl. apply (Hgen (c_entries c) 0%nat entries); [by rewrite drop_0 | done].
Qed.

Lemma validateV3ChunkAuthority_wf roots sid :
  validateV3GenerationAuthority (s_authority session) = Ok roots ->
  unhex (s_sessionId session) 32 = Ok sid -> blen (s_contextHash session) = 32 ->
  validateV3ChunkAuthority c = Ok tt.
Proof.
  destruct Hwf as (Ha & Hsid & Hch & Hs & Hne & Hlen & He). intros Hg Hu Hc.
  unfold validateV3ChunkAuthority. rewrite Ha, Hsid, Hch, Hs, Hg, Hu, Hc. cbn [bind].
  rewrite bool_decide_eq_false_2, (proj2 (Z.ltb_ge _ _)) by done. cbn [orb].
  assert (Hst : 0 <= c_startBlobIndex c <= 63).
  { destruct (c_entries c) as [|e l] eqn:E; [done|].
    destruct (He 0%nat e eq_refl) as (Heq & Hr & Hm & _ & Hleaf).
    rewrite Heq in Hleaf. cbn [e_leafIndex entryOf] in Hleaf. div_lia_linear. }
  assert (Huint : forall z max, 0 <= z <= max -> max <= 1000 ->
            uint (Some (JNum (int z))) max = Ok z).
  { intros z max Hz Hmax. unfold uint. rewrite isSafeInteger_int, num_int_int.
    assert (num_ltz (int z) = false) as -> by (cbn; lia).
    rewrite (proj2 (Z.leb_le _ _)), (proj2 (Z.ltb_ge _ _)) by (unfold MAX_SAFE_INTEGER; lia). done. }
  rewrite !Huint by lia. cbn [bind].
  rewrite (proj2 (entriesFollow_spec _ _ _ _)); [done|].
  intros j e Hj. destruct (He j e Hj) as (_ & _ & _ & ? & ?). lia.
Qed.

End verify_facts.

Lemma planV3Chunks_slot session slot :
  0 <= slot < 8 -> planV3Chunks session (Some (int slot)) = Ok (slotChunks session slot).
Proof.
  intros Hs.
  unfold planV3Chunks. rewrite isSafeInteger_int, num_int_int.
  assert (num_ltz (int slot) = false) as -> by (cbn; lia).
  rewrite (proj2 (Z.leb_le _ _)), (proj2 (Z.ltb_ge 7 slot)) by (unfold MAX_SAFE_INTEGER; lia).
  cbn [negb orb]. f_equal. change (seqZ 0 8) with [0; 1; 2; 3; 4; 5; 6; 7].
  assert (slot = 0 \/ slot = 1 \/ slot = 2 \/ slot = 3 \/ slot = 4 \/ slot = 5 \/ slot = 6 \/ slot = 7)
    as Hc by lia.
  by repeat destruct Hc as [->|Hc]; [..|subst]; cbn [map concat Z.eqb Pos.eqb app]; rewrite ?app_nil_r.
Qed.

(** ** Theorems *)

(** The chunks of one slot carry exactly the blobs of the range that the slot
    serves, each once and in ascending order; every chunk holds one to eight
    blobs of one MDU on consecutive leaves, with the coordinates of the blob. *)
Theorem v3_slot_plan_exact session slot :
  0 <= s_first session -> 0 <= slot < 8 ->
  exists chunks, planV3Chunks session (Some (int slot)) = Ok chunks
    /\ map e_t (concat (map c_entries chunks))
       = slotBlobs (s_first session) (s_last session) slot
    /\ Forall (chunk_wf session slot) chunks.
Proof.
  intros Hf Hs. exists (slotChunks session slot).
  split_and!; [by apply planV3Chunks_slot | by apply entries_slotChunks | by apply slotChunks_wf].
Qed.

Definition sample_generation : FrozenGenerationV3 :=
  {| g_chainId := "polystore-1"; g_height := 5; g_dealId := 7; g_generation := 1;
     g_owner := "nil1owner"; g_dealEnd := 1000;
     g_polyfsRoot := hex (replicate 32 1); g_integrityRoot := hex (replicate 32 2);
     g_setupDigest := hex (replicate 32 3); g_retrievalPolicyMode := 5;
     g_integrityLeafCount := 288; g_metadataMdus := 2; g_userMdus := 3; g_totalMdus := 5;
     g_witnessMdus := 1; g_providers := replicate 12 "nil1p" |}.
Definition sample_session : SessionRangeV3 :=
  {| s_authority := sample_generation; s_sessionId := hex (replicate 32 4);
     s_contextHash := replicate 32 5; s_first := 60; s_last := 140 |}.

Lemma v3_slot_plan_exact_witness :
  exists chunks, planV3Chunks sample_session (Some (int 4)) = Ok chunks
    /\ map e_t (concat (map c_entries chunks)) = [60; 68; 76; 84; 92; 100; 108; 116; 124; 132; 140].
Proof.
  destruct (v3_slot_plan_exact sample_session 4) as (c & Hc & He & _); [cbn; lia | lia |].
  exists c. exact (conj Hc He).
Defined.

(** Without a slot the plan carries every blob of the range exactly once. *)
Theorem v3_full_plan_exact session :
  0 <= s_first session ->
  exists chunks, planV3Chunks session None = Ok chunks
    /\ map e_t (concat (map c_entries chunks))
       ≡ₚ seqZ (s_first session) (s_last session - s_first session + 1).
Proof.
  intros Hf. eexists; split; [reflexivity|]. rewrite <- slotBlobs_all.
  assert (Hall : forall l, Forall (fun s => 0 <= s < 8) l ->
    map e_t (concat (map c_entries (concat (map (slotChunks session) l))))
    = concat (map (slotBlobs (s_first session) (s_last session)) l)).
  { induction 1 as [|s l Hs Hl IH]; [done|]. cbn [map concat].
    by rewrite map_app, concat_app, map_app, IH, entries_slotChunks. }
  rewrite Hall; [done|]. apply Forall_seqZ. lia.
Qed.

Lemma v3_full_plan_exact_witness :
  exists chunks, planV3Chunks sample_session None = Ok chunks.
Proof.
  destruct (v3_full_plan_exact sample_session) as (c & Hc & _); [cbn; lia|]. exists c. exact Hc.
Defined.

(** The obligations of a range are the slots that serve a blob of it, in
    order; each owes as many blobs as it serves, to the provider of its slot, and
    together they owe the population of the range. *)
Theorem v3_obligations_exact range providers :
  0 <= r_first range -> r_first range <= r_last range ->
  r_population range = r_last range - r_first range + 1 ->
  8 <= Z.of_nat (length providers) ->
  exists os, expectedObligationsV3 range providers = Ok os
    /\ map o_slot os = filter (fun s => slotBlobs (r_first range) (r_last range) s <> []) (seqZ 0 8)
    /\ Forall (fun o => o_blobCount o
         = Z.of_nat (length (slotBlobs (r_first range) (r_last range) (o_slot o)))
         /\ providers !! Z.to_nat (o_slot o) = Some (o_assigned o) /\ o_payee o = o_assigned o) os
    /\ foldr Z.add 0 (map o_blobCount os) = r_population range.
Proof. apply obligations_spec. Qed.

Lemma v3_obligations_exact_witness :
  exists os, expectedObligationsV3 {| r_first := 60; r_last := 65; r_population := 6 |}
               (replicate 12 "nil1p") = Ok os /\ foldr Z.add 0 (map o_blobCount os) = 6.
Proof.
  destruct (v3_obligations_exact {| r_first := 60; r_last := 65; r_population := 6 |}
    (replicate 12 "nil1p")) as (os & H & _ & _ & Hs);
    [cbn; lia | cbn; lia | reflexivity | cbn; lia |].
  exists os. exact (conj H Hs).
Defined.

(** The cursor value that marks a slot as complete is the last blob its plan
    carries, so an output is complete exactly when every obligation's cursor has
    reached the end of its slot. *)
Theorem v3_output_complete_iff range providers os cursors :
  0 <= r_first range -> expectedObligationsV3 range providers = Ok os ->
  retrievalV3OutputComplete (r_last range) os cursors = true <->
  forall o, o ∈ os ->
    cursors (o_slot o) = last (slotBlobs (r_first range) (r_last range) (o_slot o)).
Proof.
  intros Hf He. assert (Hp : 8 <= Z.of_nat (length providers)).
  { unfold expectedObligationsV3 in He. ok_step He. bool_to_prop. done. }
  rewrite expectedObligationsV3_eq in He by done.
  assert (os = concat (map (obligationOf range providers) (seqZ 0 8))) as -> by congruence.
  unfold retrievalV3OutputComplete. rewrite forallb_forall.
  apply forall_proper. intros o. rewrite <- list_elem_of_In. apply forall_proper. intros Ho.
  apply elem_of_concat_map in Ho as (s & Hs%elem_of_seqZ & Ho). unfold obligationOf in Ho.
  destruct (slotBlobs (r_first range) (r_last range) s) as [|t ts] eqn:E; [by apply elem_of_nil in Ho|].
  apply list_elem_of_singleton in Ho as ->. cbn [o_slot]. rewrite E, <- E.
  destruct (obligationFirst_spec range s) as [Hm Hb]; [done | lia |]. cbv zeta in *.
  rewrite (slotBlobs_steps _ _ _ (obligationFirst range s)) in E |- * by (done || lia).
  assert (Hle : obligationFirst range s <= r_last range).
  { destruct (Z.le_gt_cases (obligationFirst range s) (r_last range)) as [|Hgt]; [done|].
    replace (Z.to_nat _) with 0%nat in E by lia. done. }
  rewrite last_steps8 by lia. unfold retrievalV3SlotEnd. rewrite Z.eqb_eq.
  rewrite (Z.rem_mod_nonneg (r_last range)) by lia.
  rewrite Z.rem_mod_nonneg by div_lia_linear.
  replace ((r_last range mod 8 - s + 8) mod 8) with ((r_last range - obligationFirst range s) mod 8)
    by div_lia_linear.
  destruct (cursors s) as [c|]; cbn [default from_option id].
  - split; [by intros -> | by intros [= ->]].
  - split; [|done]. intros Hc. exfalso. pose proof (Z.mod_le (r_last range - obligationFirst range s) 8). lia.
Qed.

Lemma v3_output_complete_iff_witness :
  retrievalV3OutputComplete 60 [{| o_slot := 4; o_assigned := "nil1p"; o_payee := "nil1p";
    o_blobCount := 1; o_sampleCount := 0; o_lockedFee := 0 |}] (fun _ => Some 60) = true.
Proof.
  apply (v3_output_complete_iff {| r_first := 60; r_last := 60; r_population := 1 |}
    (replicate 12 "nil1p")); [cbn; lia | reflexivity |].
  intros o ->%list_elem_of_singleton. reflexivity.
Defined.

(** A chunk of the plan of an admitted generation is never rejected for its
    coordinates: verification returns the received bytes exactly when they are
    complete, each entry is the planned one with a well-formed path, and the
    integrity check passes on every blob at the blob's own coordinates. *)
Theorem v3_planned_chunk_verifies vf session slot c polyfsRoot integrityRoot sid env :
  0 <= s_first session -> 0 <= slot < 8 ->
  s_last session < g_userMdus (s_authority session) * 64 ->
  validateV3GenerationAuthority (s_authority session) = Ok (polyfsRoot, integrityRoot) ->
  unhex (s_sessionId session) 32 = Ok sid -> blen (s_contextHash session) = 32 ->
  c ∈ slotChunks session slot ->
  verifyRetrievalDataV3 vf c env = Ok (env_bytes env) <->
  length (env_entries env) = length (c_entries c)
  /\ blen (env_bytes env) = Z.of_nat (length (c_entries c)) * BLOB_SIZE_BYTES
  /\ forall i e entry, c_entries c !! i = Some e -> env_entries env !! i = Some entry ->
       entry_verified vf c integrityRoot (env_bytes env) (Z.of_nat i) entry e.
Proof.
  intros Hf Hs Hl Hg Hu Hc Hin.
  assert (Hwf : chunk_wf session slot c)
    by (pose proof (slotChunks_wf session slot Hf Hs) as Hall; rewrite Forall_forall in Hall; by apply Hall).
  assert (unhex (g_integrityRoot (s_authority session)) 32 = Ok integrityRoot
          /\ g_integrityLeafCount (s_authority session) = g_userMdus (s_authority session) * 96)
    as [Hroot Hleaves].
  { unfold validateV3GenerationAuthority in Hg. ok_steps Hg. bool_to_prop. by simplify_eq. }
  unfold verifyRetrievalDataV3.
  rewrite (validateV3ChunkAuthority_wf vf session slot c Hwf Hs _ _ Hg Hu Hc). cbn [bind].
  rewrite (proj1 Hwf), Hroot. cbn [bind].
  destruct (Z.eqb_spec (Z.of_nat (length (env_entries env))) (Z.of_nat (length (c_entries c))))
    as [Hlen|]; cbn [negb orb]; [|split; [done | intros (? & _); lia]].
  destruct (Z.eqb_spec (blen (env_bytes env)) (Z.of_nat (length (c_entries c)) * BLOB_SIZE_BYTES))
    as [Hblen|]; cbn [negb]; [|split; [done | by intros (_ & ? & _)]].
  apply Nat2Z.inj in Hlen. rewrite <- (verifyEntriesV3_iff vf session slot c integrityRoot Hwf Hs Hf Hl Hleaves) by done.
  destruct (verifyEntriesV3 vf c integrityRoot (env_bytes env) 0 _ _) as [[]|msg]; cbn [bind].
  - split; [done|done].
  - split; [done | by intros (_ & _ & ?)].
Qed.

Definition sample_blob_session : SessionRangeV3 :=
  {| s_authority := sample_generation; s_sessionId := hex (replicate 32 4);
     s_contextHash := replicate 32 5; s_first := 60; s_last := 60 |}.

Lemma v3_planned_chunk_verifies_witness :
  exists c bs, verifyRetrievalDataV3 (fun _ _ _ _ _ _ _ => true) c
    {| env_bytes := bs; env_entries := [{| ee_entry := entryOf 2 60; ee_integrityPath := [] |}] |}
  = Ok bs.
Proof.
  assert (exists c, slotChunks sample_blob_session 4 = [c] /\ c_entries c = [entryOf 2 60])
    as (c & Hc & He) by (eexists; split; vm_compute; reflexivity).
  assert (exists bs, blen bs = 131072) as (bs & Hbs)
    by (exists (zeros 131072); apply blen_zeros; lia).
  exists c, bs.
  apply (v3_planned_chunk_verifies (fun _ _ _ _ _ _ _ => true) sample_blob_session 4 c
    (replicate 32 1) (replicate 32 2) (replicate 32 4)
    {| env_bytes := bs; env_entries := [{| ee_entry := entryOf 2 60; ee_integrityPath := [] |}] |});
    [cbn; lia | lia | cbn; lia | vm_compute; reflexivity | vm_compute; reflexivity
    | vm_compute; reflexivity | rewrite Hc; left |].
  rewrite He. split; [reflexivity|]. split; [exact Hbs|].
  intros [|i] e entry Hi Hen; [|destruct i; discriminate Hen].
  injection Hi as <-. injection Hen as <-.
  split; [reflexivity|]. split; [cbn; lia|]. split; [constructor | reflexivity].
Defined.
