(* ===== verification/V3Integrity.v ===== *)
(** * Verified chunks are the committed blobs

    Joins the chunk checks of src/polystore-website/src/lib/retrievalWire.ts (V3Chunks)
    with the integrity tree of the core library (Integrity): the browser passes the check
    of the WebAssembly module to [verifyRetrievalDataV3], and what it accepts is what the
    root of the generation commits to. *)

From S2P Require Import Prelude JsNumber JsBytes Encoding Layout Windows Pinned Canonical Challenge V3Chunks Integrity.
Local Open Scope Z_scope.

Section committed.
Context (sha256 : bytes -> bytes).

(** The module as [verifyEntryV3] calls it: an error of the module rejects the blob as
    well, with its own message. *)
Definition moduleCheck (mdu leaf position leafCount : Z) (blob path root : bytes) : bool :=
  match verify_integrity_v3_blob sha256 mdu leaf position leafCount blob path root with
  | Ok b => b
  | Err _ => false
  end.

(** The encoded blobs of a generation, by user MDU and leaf. *)
Context (committed : Z -> Z -> bytes).

(** The blob that holds the payload of index [t]. *)
Definition blobOf (t : Z) : bytes := committed (t / 64) (t mod 8 * 8 + t mod 64 / 8).

Definition generationLeafInputs (g : FrozenGenerationV3) : list bytes :=
  map (fun p => leaf_input (g_metadataMdus g + p / 96) (p mod 96) (committed (p / 96) (p mod 96)))
      (seqZ 0 (g_userMdus g * 96)).
Definition generationLeaves (g : FrozenGenerationV3) : list bytes := map sha256 (generationLeafInputs g).

(** The strings that are hashed to build the tree, and to check a received chunk. *)
Definition generationInputs (g : FrozenGenerationV3) : list bytes :=
  generationLeafInputs g ++ tree_inputs sha256 (length (generationLeaves g)) (generationLeaves g).
Definition entryInputs (blob : bytes) (entry : EnvelopeEntry) : list bytes :=
  let e := ee_entry entry in
  let input := leaf_input (e_mduIndex e) (e_leafIndex e) blob in
  input :: path_inputs sha256 (ee_integrityPath entry) (e_integrityPosition e) (sha256 input).
Definition chunkInputs (env : EnvelopeV3) : list bytes :=
  concat (imap (fun i entry =>
    entryInputs (subarray (env_bytes env) (Z.of_nat i * BLOB_SIZE_BYTES) ((Z.of_nat i + 1) * BLOB_SIZE_BYTES)) entry)
    (env_entries env)).

(** ** Lemmas *)

Lemma chunks_exact_concat fuel l : (length l <= fuel)%nat -> Forall (fun s => blen s = 32) l ->
  chunks_exact fuel (concat l) = l.
Proof.
  intros Hf Hl. revert fuel Hf. induction Hl as [|s l Hs _ IH]; intros [|fuel] Hf; cbn in Hf; try lia; try done.
  cbn [concat chunks_exact]. rewrite blen_app. pose proof (blen_nonneg (concat l)).
  rewrite (proj2 (Z.ltb_ge _ _)) by lia. unfold blen in Hs.
  rewrite take_app_length', drop_app_length' by lia. rewrite IH; [done|lia].
Qed.

Lemma length_concat_32 l : Forall (fun s => blen s = 32) l -> length (concat l) = (32 * length l)%nat.
Proof. induction 1 as [|s l Hs _ IH]; [done|]. cbn [concat length]. rewrite length_app, IH. unfold blen in Hs. lia. Qed.

(** Blocks of a byte string make it up. *)
Lemma bytes_of_blocks B bs l : 0 < B -> Forall (fun x => blen x = B) l -> blen bs = Z.of_nat (length l) * B ->
  (forall i x, l !! i = Some x -> subarray bs (Z.of_nat i * B) ((Z.of_nat i + 1) * B) = x) -> bs = concat l.
Proof.
  intros HB Hl. revert bs. induction Hl as [|x l Hx Hl IH]; intros bs Hb Hs; cbn [length concat] in *.
  - destruct bs; [done|]. unfold blen in Hb. cbn in Hb. lia.
  - rewrite <- (take_drop (Z.to_nat B) bs). f_equal.
    + rewrite <- (Hs 0%nat x eq_refl). unfold subarray. rewrite Z.mul_0_l, drop_0. f_equal. lia.
    + apply IH; [unfold blen in *; rewrite length_drop; lia|]. intros i y Hy. rewrite <- (Hs (S i) y Hy).
      unfold subarray. rewrite drop_drop. f_equal; [lia|]. f_equal. lia.
Qed.

Context (sha256_size : forall x, blen (sha256 x) = 32).

Lemma generationLeaves_lookup g p : 0 <= p < g_userMdus g * 96 ->
  generationLeafInputs g !! Z.to_nat p
  = Some (leaf_input (g_metadataMdus g + p / 96) (p mod 96) (committed (p / 96) (p mod 96))).
Proof.
  intros Hp. unfold generationLeafInputs. rewrite list_lookup_fmap, lookup_seqZ_lt by lia. cbn [fmap option_fmap option_map].
  by rewrite Z2Nat.id, Z.add_0_l by lia.
Qed.

Lemma moduleCheck_true mdu leaf position count blob path r :
  Forall (fun s => blen s = 32) path -> moduleCheck mdu leaf position count blob (concat path) r = true ->
  blen blob = ENCODED_BLOB_BYTES
  /\ verify_path sha256 (sha256 (leaf_input mdu leaf blob)) position count path r = true.
Proof.
  intros Hpath Hm. unfold moduleCheck in Hm.
  destruct (verify_integrity_v3_blob _ _ _ _ _ _ _ _) as [b|] eqn:Hv; [subst b|done].
  unfold verify_integrity_v3_blob, checked_metadata_number, checked_metadata_u64, Integrity.leaf in Hv.
  ok_steps Hv. ok_steps Hv0. ok_steps Hv1. ok_steps Hv2. ok_steps Hv3. ok_steps Hv4. bool_to_prop.
  rewrite chunks_exact_concat in Hv by (done || (rewrite length_concat_32 by done; lia)). done.
Qed.

(** A blob that the module accepts is the committed one. *)
Lemma moduleCheck_sound g r mdu leaf position blob path :
  root sha256 (generationLeaves g) = Ok r -> 0 < g_userMdus g -> 0 <= position ->
  mdu = g_metadataMdus g + position / 96 -> leaf = position mod 96 ->
  Forall (fun s => blen s = 32) path ->
  distinguishes sha256 (generationInputs g ++ leaf_input mdu leaf blob
    :: path_inputs sha256 path position (sha256 (leaf_input mdu leaf blob))) ->
  moduleCheck mdu leaf position (g_userMdus g * 96) blob (concat path) r = true ->
  blob = committed (position / 96) leaf /\ blen blob = ENCODED_BLOB_BYTES.
Proof.
  intros Hroot Hu Hpos -> -> Hpath Hd [Hblob Hv]%moduleCheck_true; [|done]. split; [|done].
  set (input := leaf_input _ _ blob) in *. unfold verify_path in Hv. destruct (_ || _ || _) eqn:Eb in Hv; [done|]. bool_to_prop.
  assert (Hlen : Z.of_nat (length (generationLeaves g)) = g_userMdus g * 96).
  { unfold generationLeaves, generationLeafInputs. rewrite !length_map, length_seqZ. lia. }
  unfold root in Hroot. ok_step Hroot.
  rewrite <- Hlen, <- (Z2Nat.id position) in Hv by lia.
  apply (pathLoop_sound _ sha256_size _ _ _ _ _ (length (generationLeaves g)) Hpath) in Hv; [|apply sha256_size| |lia|exact Hroot|].
  - unfold generationLeaves in Hv. rewrite list_lookup_fmap, generationLeaves_lookup in Hv by lia. injection Hv as Hv.
    apply Hd in Hv; [by apply leaf_input_inj in Hv | |set_solver].
    apply elem_of_app. left. apply elem_of_app. left. eapply list_elem_of_lookup_2, generationLeaves_lookup. lia.
  - apply Forall_fmap, Forall_true. intros x. apply sha256_size.
  - rewrite Z2Nat.id by lia. eapply distinguishes_mono, Hd. unfold generationInputs. set_solver.
Qed.
End committed.

(** ** Properties *)

(** C6: A chunk that passes verification is made of the blobs that the integrity root of the
    generation commits to, whoever sent it: the browser's checks of coordinates and
    paths and the module's check of the tree leave no other bytes, as long as SHA-256
    tells apart the strings that were hashed for the tree and for the check. *)
Theorem v3_verified_chunk_committed sha256 committed session slot c polyfsRoot integrityRoot sid env bs :
  (forall x, blen (sha256 x) = 32) ->
  0 <= s_first session -> 0 <= slot < 8 ->
  s_last session < g_userMdus (s_authority session) * 64 ->
  validateV3GenerationAuthority (s_authority session) = Ok (polyfsRoot, integrityRoot) ->
  unhex (s_sessionId session) 32 = Ok sid -> blen (s_contextHash session) = 32 ->
  c ∈ slotChunks session slot ->
  root sha256 (generationLeaves sha256 committed (s_authority session)) = Ok integrityRoot ->
  distinguishes sha256 (generationInputs sha256 committed (s_authority session) ++ chunkInputs sha256 env) ->
  verifyRetrievalDataV3 (moduleCheck sha256) c env = Ok bs ->
  bs = concat (map (fun e => blobOf committed (e_t e)) (c_entries c))
  /\ Forall (fun e => blen (blobOf committed (e_t e)) = BLOB_SIZE_BYTES) (c_entries c).
Proof.
  intros Hsize Hf Hs Hl Hg Hu Hc Hin Hroot Hd Hv.
  assert (Hbs : bs = env_bytes env) by (unfold verifyRetrievalDataV3 in Hv; by ok_steps Hv). subst bs.
  pose proof (slotChunks_wf session slot Hf Hs) as Hall. rewrite Forall_forall in Hall.
  pose proof (Hall c Hin) as (Ha & _ & _ & _ & _ & _ & He).
  apply (v3_planned_chunk_verifies _ _ _ _ _ _ _ _ Hf Hs Hl Hg Hu Hc Hin) in Hv as (Hlen & Hblen & Hentries).
  assert (Hone : forall i e, c_entries c !! i = Some e ->
    subarray (env_bytes env) (Z.of_nat i * BLOB_SIZE_BYTES) ((Z.of_nat i + 1) * BLOB_SIZE_BYTES) = blobOf committed (e_t e)
    /\ blen (blobOf committed (e_t e)) = BLOB_SIZE_BYTES).
  { intros i e Hi. destruct (lookup_lt_is_Some_2 (env_entries env) i) as [entry Hen];
      [rewrite Hlen; by eapply lookup_lt_Some|].
    destruct (Hentries i e entry Hi Hen) as (Hee & _ & Hpath & Hm). destruct (He i e Hi) as (Heq & Hr & _).
    assert (Ht : 0 <= e_t e) by lia. remember (e_t e) as t eqn:Et.
    assert (Hgl : g_integrityLeafCount (s_authority session) = g_userMdus (s_authority session) * 96
                  /\ 1 <= g_userMdus (s_authority session)).
    { unfold validateV3GenerationAuthority in Hg. ok_steps Hg. bool_to_prop. lia. }
    rewrite Ha, (proj1 Hgl) in Hm. rewrite Heq in Hm. cbn [entryOf e_mduIndex e_leafIndex e_integrityPosition] in Hm.
    apply (moduleCheck_sound sha256 committed Hsize (s_authority session)) in Hm as [Hb Hlen'];
      [|done|lia|div_lia_linear|f_equal; div_lia_linear|div_lia_linear|done|].
    - rewrite Hb in Hlen' |- *. unfold blobOf. by replace ((t / 64 * 96 + (t mod 8 * 8 + t mod 64 / 8)) / 96) with (t / 64) in * by div_lia_linear.
    - eapply distinguishes_mono, Hd. intros x [Hx|Hx]%elem_of_app; apply elem_of_app; [by left|right].
      unfold chunkInputs. apply list_elem_of_In, in_concat. eexists.
      split; [apply list_elem_of_In, (list_elem_of_lookup_2 _ i); by rewrite list_lookup_imap, Hen|].
      unfold entryInputs. rewrite Hee, Heq. by apply list_elem_of_In. }
  split.
  - apply (bytes_of_blocks BLOB_SIZE_BYTES); [done| | |].
    + apply Forall_fmap, Forall_lookup. intros i e Hi. by apply (Hone i).
    + by rewrite length_map.
    + intros i x Hx. rewrite list_lookup_fmap in Hx. destruct (c_entries c !! i) as [e|] eqn:Hi; [|done].
      injection Hx as <-. by apply (Hone i).
  - apply Forall_lookup. intros i e Hi. by apply (Hone i).
Qed.

(** ** One blob of a generation of one user MDU *)

(** A stand-in for SHA-256 that tells the strings of a small tree apart: it keeps the
    level of a node and its place in the level. *)
Definition tag (level place : Z) : bytes := level :: place :: zeros 30.
Definition sample_sha256 (x : bytes) : bytes :=
  if get x 24 =? 108 then tag 0 (get x 42) else tag (get x 31 + 1) (get x 32 / 2).

Definition sample_leaves : list bytes := map (tag 0) (seqZ 0 96).
Definition sample_root : bytes := tag 7 0.
Definition sample_path : list bytes := siblings_of sample_sha256 96 sample_leaves 39.
Definition sample_tree_generation : FrozenGenerationV3 :=
  {| g_chainId := "polystore-1"; g_height := 5; g_dealId := 7; g_generation := 1;
     g_owner := "nil1owner"; g_dealEnd := 1000;
     g_polyfsRoot := hex (replicate 32 1); g_integrityRoot := hex sample_root;
     g_setupDigest := hex (replicate 32 3); g_retrievalPolicyMode := 5;
     g_integrityLeafCount := 96; g_metadataMdus := 2; g_userMdus := 1; g_totalMdus := 3;
     g_witnessMdus := 1; g_providers := replicate 12 "nil1p" |}.
Definition sample_tree_session : SessionRangeV3 :=
  {| s_authority := sample_tree_generation; s_sessionId := hex (replicate 32 4);
     s_contextHash := replicate 32 5; s_first := 60; s_last := 60 |}.
Definition sample_envelope (bs : bytes) : EnvelopeV3 :=
  {| env_bytes := bs; env_entries := [{| ee_entry := entryOf 2 60; ee_integrityPath := sample_path |}] |}.

Lemma sample_sha256_size x : blen (sample_sha256 x) = 32.
Proof. unfold sample_sha256. by destruct (_ =? _). Qed.

Lemma sample_generationLeaves bs : generationLeaves sample_sha256 (fun _ _ => bs) sample_tree_generation = sample_leaves.
Proof. vm_compute. reflexivity. Qed.

Lemma nodup_distinguishes sha256 l : NoDup (map sha256 l) -> distinguishes sha256 l.
Proof.
  intros Hn x y [i Hi]%list_elem_of_lookup [j Hj]%list_elem_of_lookup He.
  assert (i = j) as ->; [|congruence]. eapply NoDup_lookup; [exact Hn | |].
  - by rewrite list_lookup_fmap, Hi.
  - by rewrite list_lookup_fmap, Hj, He.
Qed.

Lemma sample_distinguishes bs : blen bs = BLOB_SIZE_BYTES ->
  distinguishes sample_sha256 (generationInputs sample_sha256 (fun _ _ => bs) sample_tree_generation
                               ++ chunkInputs sample_sha256 (sample_envelope bs)).
Proof.
  intros Hbs. unfold generationInputs. rewrite sample_generationLeaves.
  eapply distinguishes_mono; [|apply (nodup_distinguishes _
    (generationLeafInputs (fun _ _ => bs) sample_tree_generation ++ tree_inputs sample_sha256 96 sample_leaves))].
  - intros x [Hx|Hx]%elem_of_app; [exact Hx|]. unfold chunkInputs in Hx. cbn [env_entries env_bytes sample_envelope imap concat] in Hx.
    rewrite app_nil_r, subarray_all in Hx by (rewrite ?Hbs; cbn; lia). apply elem_of_app.
    apply elem_of_cons in Hx as [->|Hx].
    + left. apply (list_elem_of_lookup_2 _ 39). by rewrite (generationLeaves_lookup _ sample_tree_generation 39).
    + right. cbn [ee_entry] in Hx. change (sample_sha256 (leaf_input _ _ bs)) with (tag 0 39) in Hx. revert x Hx. apply Forall_forall, (bool_decide_unpack _). vm_compute. exact I.
  - rewrite map_app. change (map sample_sha256 (generationLeafInputs _ _)) with (generationLeaves sample_sha256 (fun _ _ => bs) sample_tree_generation).
    rewrite sample_generationLeaves. apply (bool_decide_unpack _). vm_compute. exact I.
Qed.

Lemma sample_accepted bs : blen bs = BLOB_SIZE_BYTES ->
  moduleCheck sample_sha256 2 39 39 96 bs (concat sample_path) sample_root = true.
Proof.
  intros Hbs. unfold moduleCheck, verify_integrity_v3_blob, Integrity.leaf. rewrite Hbs. vm_compute. reflexivity.
Qed.

Lemma v3_verified_chunk_committed_witness :
  exists c bs, verifyRetrievalDataV3 (moduleCheck sample_sha256) c (sample_envelope bs) = Ok bs
    /\ bs = concat (map (fun e => blobOf (fun _ _ => zeros BLOB_SIZE_BYTES) (e_t e)) (c_entries c)).
Proof.
  assert (exists c, slotChunks sample_tree_session 4 = [c] /\ c_entries c = [entryOf 2 60] /\ c_authority c = sample_tree_generation)
    as (c & Hc & He & Ha) by (eexists; split_and!; vm_compute; reflexivity).
  assert (Hin : c ∈ slotChunks sample_tree_session 4) by (rewrite Hc; left).
  assert (Hbs : blen (zeros BLOB_SIZE_BYTES) = BLOB_SIZE_BYTES) by (apply blen_zeros; unfold BLOB_SIZE_BYTES; lia).
  revert Hbs. generalize (zeros BLOB_SIZE_BYTES). intros bs Hbs.
  assert (Hv : verifyRetrievalDataV3 (moduleCheck sample_sha256) c (sample_envelope bs) = Ok bs).
  { apply (v3_planned_chunk_verifies (moduleCheck sample_sha256) sample_tree_session 4 c
      (replicate 32 1) sample_root (replicate 32 4) (sample_envelope bs));
      [cbn; lia | lia | cbn; lia | vm_compute; reflexivity | vm_compute; reflexivity | vm_compute; reflexivity | exact Hin |].
    rewrite He. split; [reflexivity|]. split; [cbn; lia|].
    intros [|i] e entry Hi Hen; [|destruct i; discriminate Hen]. injection Hi as <-. injection Hen as <-.
    split; [reflexivity|]. split; [vm_compute; discriminate|]. split; [apply (bool_decide_unpack _); vm_compute; exact I |].
    cbn [env_bytes sample_envelope]. rewrite Ha, subarray_all by (cbn; lia). exact (sample_accepted bs Hbs). }
  exists c, bs. split; [exact Hv|].
  apply (v3_verified_chunk_committed sample_sha256 (fun _ _ => bs) sample_tree_session 4 c
    (replicate 32 1) sample_root (replicate 32 4) (sample_envelope bs) bs);
    [exact sample_sha256_size | cbn; lia | lia | cbn; lia | vm_compute; reflexivity | vm_compute; reflexivity
    | vm_compute; reflexivity | exact Hin | rewrite sample_generationLeaves; vm_compute; reflexivity
    | exact (sample_distinguishes bs Hbs) | exact Hv].
Defined.
