(* ===== verification/V3Session.v ===== *)
(** * Frozen retrieval sessions

    Models the frozen session of src/polystore-website/src/lib/retrievalV3.ts and the
    comparisons the recovery code makes between sessions, generations and
    requests. *)

From S2P Require Import Prelude JsNumber JsBytes Windows V3Chunks.
Local Open Scope Z_scope.

(** The fields that planning reads are those of its [fs_range]. *)
Record FrozenSessionV3 := {
  fs_range : SessionRangeV3; fs_height : Z; fs_planHash : bytes; fs_owner : string;
  fs_payer : string; fs_fileRecordIndex : Z; fs_file : RetrievalFile; fs_rangeStart : Z;
  fs_rangeLength : Z; fs_population : Z; fs_sampleCount : Z; fs_nonce : Z; fs_priceDenom : string;
  fs_pricePerBlob : Z; fs_baseFee : Z; fs_completionBurnBps : Z; fs_funding : Z; fs_snapshot : Z;
  fs_anchor : Z; fs_firstResponse : Z; fs_deadline : Z; fs_dealEnd : Z;
  fs_obligations : list RetrievalObligationV3; fs_acceptedBitmap : bytes; fs_ackedMask : Z;
  fs_settledMask : Z; fs_refundedMask : Z; fs_lockedFee : Z; fs_expired : bool; fs_context : bytes;
  fs_anchorSeed : option bytes; fs_browserTransactionKey : option string }.

#[export] Instance file_eq_dec : EqDecision RetrievalFile.
Proof. solve_decision. Defined.

(** [height] is not compared. *)
Definition sameFrozenGenerationV3 (a b : FrozenGenerationV3) : bool :=
  bool_decide (g_chainId a = g_chainId b) && (g_dealId a =? g_dealId b)
  && (g_generation a =? g_generation b) && bool_decide (g_owner a = g_owner b)
  && (g_dealEnd a =? g_dealEnd b) && bool_decide (g_polyfsRoot a = g_polyfsRoot b)
  && bool_decide (g_integrityRoot a = g_integrityRoot b)
  && bool_decide (g_setupDigest a = g_setupDigest b)
  && (g_integrityLeafCount a =? g_integrityLeafCount b) && (g_metadataMdus a =? g_metadataMdus b)
  && (g_userMdus a =? g_userMdus b) && (g_totalMdus a =? g_totalMdus b)
  && (g_witnessMdus a =? g_witnessMdus b)
  && (g_retrievalPolicyMode a =? g_retrievalPolicyMode b)
  && bool_decide (g_providers a = g_providers b).

Record FrozenRetrievalRequestV3 := {
  q_authority : FrozenGenerationV3; q_recordIndex : Z; q_file : RetrievalFile; q_rangeStart : Z;
  q_rangeLength : Z }.

Definition sameFrozenRetrievalRequestV3 (a b : FrozenRetrievalRequestV3) : bool :=
  sameFrozenGenerationV3 (q_authority a) (q_authority b) && (q_recordIndex a =? q_recordIndex b)
  && bool_decide (f_path (q_file a) = f_path (q_file b))
  && (start_offset (q_file a) =? start_offset (q_file b))
  && (size_bytes (q_file a) =? size_bytes (q_file b)) && (f_flags (q_file a) =? f_flags (q_file b))
  && (q_rangeStart a =? q_rangeStart b) && (q_rangeLength a =? q_rangeLength b).

(** [{ ...current, browserTransactionKey: previous.browserTransactionKey }] *)
Definition preserveV3BrowserTransactionKey (previous current : FrozenSessionV3) : FrozenSessionV3 :=
  match fs_browserTransactionKey previous with
  | None | Some "" => current
  | Some key =>
      {| fs_range := fs_range current; fs_height := fs_height current;
         fs_planHash := fs_planHash current; fs_owner := fs_owner current;
         fs_payer := fs_payer current; fs_fileRecordIndex := fs_fileRecordIndex current;
         fs_file := fs_file current; fs_rangeStart := fs_rangeStart current;
         fs_rangeLength := fs_rangeLength current; fs_population := fs_population current;
         fs_sampleCount := fs_sampleCount current; fs_nonce := fs_nonce current;
         fs_priceDenom := fs_priceDenom current; fs_pricePerBlob := fs_pricePerBlob current;
         fs_baseFee := fs_baseFee current; fs_completionBurnBps := fs_completionBurnBps current;
         fs_funding := fs_funding current; fs_snapshot := fs_snapshot current;
         fs_anchor := fs_anchor current; fs_firstResponse := fs_firstResponse current;
         fs_deadline := fs_deadline current; fs_dealEnd := fs_dealEnd current;
         fs_obligations := fs_obligations current;
         fs_acceptedBitmap := fs_acceptedBitmap current; fs_ackedMask := fs_ackedMask current;
         fs_settledMask := fs_settledMask current; fs_refundedMask := fs_refundedMask current;
         fs_lockedFee := fs_lockedFee current; fs_expired := fs_expired current;
         fs_context := fs_context current; fs_anchorSeed := fs_anchorSeed current;
         fs_browserTransactionKey := Some key |}
  end.

Inductive sponsored_auth := auth_none | auth_allowlist | auth_voucher.

Definition assertSponsoredPolicyV3 (authority : FrozenGenerationV3) (requester : string)
    (authType : sponsored_auth) : result unit :=
  if bool_decide (requester = g_owner authority) then Ok tt else
  let mode := g_retrievalPolicyMode authority in
  throw_if match authType with
           | auth_none => negb (mode =? 5)
           | auth_allowlist => negb (mode =? 2) && negb (mode =? 4)
           | auth_voucher => negb (mode =? 3) && negb (mode =? 4)
           end
    with "the committed deal retrieval policy does not authorize this sponsored request" else
  Ok tt.

Definition generationAsPinnedV2Shape (g : FrozenGenerationV3) : PinnedGeneration :=
  {| p_chainId := g_chainId g; p_height := g_height g; p_dealId := g_dealId g;
     p_generation := g_generation g; p_root := g_polyfsRoot g; p_owner := g_owner g;
     p_endHeight := g_dealEnd g; p_layout := 2; p_k := 8; p_m := 4; p_rows := 8; p_leafCount := 96;
     metadataMdus := g_metadataMdus g; userMdus := g_userMdus g; totalMdus := g_totalMdus g;
     assignments := map (fun p => {| provider := p; active := true |}) (g_providers g) |}.

(** ** Lemmas *)

Lemma same_generation_refl a : sameFrozenGenerationV3 a a = true.
Proof. unfold sameFrozenGenerationV3. by rewrite !Z.eqb_refl, !bool_decide_eq_true_2. Qed.

(** Everything but the height the generation was read at. *)
Lemma same_generation_iff a b :
  sameFrozenGenerationV3 a b = true <->
  b = {| g_chainId := g_chainId a; g_height := g_height b; g_dealId := g_dealId a;
         g_generation := g_generation a; g_owner := g_owner a; g_dealEnd := g_dealEnd a;
         g_polyfsRoot := g_polyfsRoot a; g_integrityRoot := g_integrityRoot a;
         g_setupDigest := g_setupDigest a; g_retrievalPolicyMode := g_retrievalPolicyMode a;
         g_integrityLeafCount := g_integrityLeafCount a; g_metadataMdus := g_metadataMdus a;
         g_userMdus := g_userMdus a; g_totalMdus := g_totalMdus a; g_witnessMdus := g_witnessMdus a;
         g_providers := g_providers a |}.
Proof.
  unfold sameFrozenGenerationV3. rewrite !andb_true_iff, !Z.eqb_eq, !bool_decide_eq_true.
  destruct a, b; cbn. split.
  - intros H. repeat match type of H with _ /\ _ => destruct H as [H ?] end. by subst.
  - intros H. injection H. intros. subst. by repeat split.
Qed.
