(* ===== verification/V3Parse.v ===== *)
(** * Reading generations and sessions of the newer protocol

    Models what src/polystore-website/src/lib/retrievalV3.ts reads from the chain: the
    admitted generation of a deal ([parseGeneration], [fetchActiveGenerationV3]), the
    binding of a request ([prepareV3Binding]), the challenge context of a session
    ([encodeContextV3]), the session itself ([parseFrozenSessionV3], [fetchSessionV3]) and
    the nonces of an owner ([fetchLatestNonceV3], [fetchSessionIDByNonceV3]).

    The functions of the WebAssembly worker that a reader is given, SHA-256, JSON parsing
    and the node are arguments.  Field readers that throw in the middle of a condition
    stand where the condition reaches them. *)

From S2P Require Import Prelude JsMap JsNumber JsBytes JsString JsText Encoding Layout Windows Pinned Canonical Response Sessions V3Chunks V3Session.
Local Open Scope Z_scope.

Definition RETRIEVAL_V3_SETUP : string := "0x" +:+ RETRIEVAL_SETUP.
Definition MAX_MDUS : Z := 65537.

Definition amount (value : unknown) : result Z :=
  match value with
  | Some (JStr s) =>
      throw_if negb (canonical_decimal s && (slen s <=? 78)) with "invalid v3 amount" else
      let n := parse_decimal s in
      throw_if 2 ^ 256 <=? n with "v3 amount overflow" else
      Ok n
  | _ => Err "invalid v3 amount"
  end.

Definition POLICY_NAMES : list string :=
  ["RETRIEVAL_POLICY_MODE_UNSPECIFIED"; "RETRIEVAL_POLICY_MODE_OWNER_ONLY"; "RETRIEVAL_POLICY_MODE_ALLOWLIST";
   "RETRIEVAL_POLICY_MODE_VOUCHER"; "RETRIEVAL_POLICY_MODE_ALLOWLIST_OR_VOUCHER"; "RETRIEVAL_POLICY_MODE_PUBLIC"].
Definition V3_FUNDING_NAMES : list string :=
  ["RETRIEVAL_SESSION_FUNDING_UNSPECIFIED"; "RETRIEVAL_SESSION_FUNDING_DEAL_ESCROW"; "RETRIEVAL_SESSION_FUNDING_REQUESTER"].

(** [value == null] *)
Definition nullish (value : unknown) : bool := match value with None | Some JNull => true | _ => false end.

(** [deal.assignments.some((assignment, slot) => ...)] *)
Fixpoint assignmentsDiffer (l : list Assignment) (providers : list string) : bool :=
  match l with
  | [] => false
  | a :: l =>
      negb (active a) || negb (bool_decide (head providers = Some (provider a)))
      || assignmentsDiffer l (tail providers)
  end.

Section parse.
Context `{bech : Bech32}.

Definition parseGeneration (payload : unknown) (chainId : string) (height dealId : Z) (dealPayload : unknown)
    : result (option FrozenGenerationV3) :=
  let! response := record payload in
  if nullish (mget response "admitted") then Ok None else
  let! g := record (mget response "admitted") in
  let! deal := parsePinnedGeneration dealPayload chainId height dealId in
  let! p := record dealPayload in
  let! d := record (mget p "deal") in
  let! policy := record (mget d "retrieval_policy") in
  let! retrievalPolicyMode := enumeration (mget policy "mode") POLICY_NAMES in
  let! generation := protoU64 (mget g "generation") in
  let! polyfs := base64Of (mget g "polyfs_root") 32 in
  let! integrity := base64Of (mget g "integrity_root") 32 in
  let! setup := base64Of (mget g "setup_digest") 32 in
  let! totalMdus := protoU64 (mget g "total_mdus") in
  let! witnessMdus := protoU64 (mget g "witness_mdus") in
  let! metadataMdus := protoU64 (mget g "metadata_mdus") in
  let! userMdus := protoU64 (mget g "user_mdus") in
  let! integrityLeafCount := protoU64 (mget g "integrity_leaf_count") in
  let invalid := "invalid admitted v3 generation"%string in
  let! id := protoU64 (mget g "deal_id") in
  throw_if negb (id =? dealId) with invalid else
  let! owner := account (mget g "owner") in
  throw_if negb (String.eqb owner (p_owner deal)) || negb (is_str (mget g "chain_id") chainId)
           || negb (generation =? p_generation deal) || negb (String.eqb (hex polyfs) (p_root deal))
           || negb (String.eqb (hex setup) RETRIEVAL_V3_SETUP) || negb (totalMdus =? metadataMdus + userMdus)
           || negb (metadataMdus =? witnessMdus + 1) || (metadataMdus =? 0) || (userMdus =? 0)
           || (MAX_MDUS <? totalMdus) || negb (integrityLeafCount =? userMdus * 96) with invalid else
  let! size := protoU64 (mget g "size") in
  throw_if userMdus * RAW_MDU_CAPACITY_BYTES <? size with invalid else
  let! mask := protoUint (mget g "accepted_slots_mask") 4095 in
  throw_if negb (mask =? 4095) with invalid else
  let! proposed := protoU64 (mget g "proposed_height") in
  throw_if (proposed <? 1) || (height <? proposed) with invalid else
  match mget g "providers" with
  | Some (JArr l) =>
      throw_if negb (Z.of_nat (length l) =? 12) with invalid else
      let! providers := mapR (fun p => account (Some p)) l in
      throw_if negb (bool_decide (NoDup providers)) || negb (p_layout deal =? 2) || negb (p_k deal =? 8)
               || negb (p_m deal =? 4) || negb (Windows.metadataMdus deal =? metadataMdus)
               || negb (Windows.userMdus deal =? userMdus) || assignmentsDiffer (assignments deal) providers
        with "v3 generation does not match active deal" else
      throw_if (retrievalPolicyMode <? 1) || (5 <? retrievalPolicyMode) with "invalid v3 retrieval policy" else
      Ok (Some {| g_chainId := chainId; g_height := height; g_dealId := dealId; g_generation := generation;
                  g_owner := p_owner deal; g_dealEnd := p_endHeight deal; g_polyfsRoot := hex polyfs;
                  g_integrityRoot := hex integrity; g_setupDigest := hex setup;
                  g_retrievalPolicyMode := retrievalPolicyMode; g_integrityLeafCount := integrityLeafCount;
                  g_metadataMdus := metadataMdus; g_userMdus := userMdus; g_totalMdus := totalMdus;
                  g_witnessMdus := witnessMdus; g_providers := providers |})
  | _ => Err invalid
  end.

(** ** Contexts *)

(** The parts of a context, from the bytes its fields stand for. *)
Definition contextPartsV3 (s : FrozenSessionV3) (setup id owner polyfs integrity payer : bytes) : list bytes :=
  let g := s_authority (fs_range s) in
  [lp "polystore/challenge-context/v3"; be 3 4; lp (g_chainId g); setup; id; owner;
   be (g_dealId g) 8; be (g_generation g) 8; polyfs; integrity; be (fs_fileRecordIndex s) 4;
   be (start_offset (fs_file s)) 8; be (size_bytes (fs_file s)) 8; be (fs_rangeStart s) 8; be (fs_rangeLength s) 8;
   [2]; be 8 4; be 4 4; be (g_metadataMdus g) 8; be (g_userMdus g) 8; fs_planHash s;
   be (fs_population s) 8; be (fs_sampleCount s) 8; be (fs_nonce s) 8; lp (fs_priceDenom s);
   lp (pretty (fs_pricePerBlob s)); lp (pretty (fs_baseFee s)); be (fs_completionBurnBps s) 4;
   be (fs_funding s) 1; payer; be (fs_snapshot s) 8; be (fs_anchor s) 8; be (fs_firstResponse s) 8;
   be (fs_deadline s) 8; be (fs_dealEnd s) 8].

(** [fs_context] and what follows it are not read. *)
Definition encodeContextV3 (s : FrozenSessionV3) : result bytes :=
  let g := s_authority (fs_range s) in
  let! setup := unhex (g_setupDigest g) 32 in
  let! id := unhex (s_sessionId (fs_range s)) 32 in
  let! owner := accountBytes (fs_owner s) in
  let! polyfs := unhex (g_polyfsRoot g) 32 in
  let! integrity := unhex (g_integrityRoot g) 32 in
  let! payer := accountBytes (fs_payer s) in
  Ok (concat (contextPartsV3 s setup id owner polyfs integrity payer)).

(** ** Sessions *)

Record ExpectedSessionV3 := {
  x_sessionId : string; x_owner : string; x_recordIndex : Z; x_file : RetrievalFile; x_rangeStart : Z;
  x_rangeLength : Z; x_nonce : Z; x_planHash : bytes; x_frozenContextHash : option bytes;
  x_deadline : option Z; x_funding : option Z;
  x_range : Z -> Z -> Z -> Z -> Z -> result bytes;
  x_contextHash : bytes -> result bytes;
  x_seed : bytes -> bytes -> result bytes;
  x_challenges : bytes -> bytes -> result bytes }.

Definition parseObligation (value : json) : result RetrievalObligationV3 :=
  let! o := record (Some value) in
  let! slot := protoUint (mget o "slot") 7 in
  let! assigned := account (mget o "assigned_provider") in
  let! payee := account (mget o "payee") in
  let! blobCount := protoU64 (mget o "blob_count") in
  let! sampleCount := protoU64 (mget o "sample_count") in
  let! lockedFee := amount (mget o "locked_fee") in
  Ok {| o_slot := slot; o_assigned := assigned; o_payee := payee; o_blobCount := blobCount;
        o_sampleCount := sampleCount; o_lockedFee := lockedFee |}.

Definition parseObligations (value : unknown) : result (list RetrievalObligationV3) :=
  match value with
  | Some (JArr l) =>
      throw_if bool_decide (l = []) || (8 <? Z.of_nat (length l)) with "invalid v3 obligations" else
      mapR parseObligation l
  | _ => Err "invalid v3 obligations"
  end.

(** The fields of [out]. *)
Definition parseSessionFields (raw : fields) (height : Z) (authority : FrozenGenerationV3) (file : RetrievalFile)
    : result FrozenSessionV3 :=
  let! sessionId := base64Of (mget raw "session_id") 32 in
  let! contextHash := base64Of (mget raw "context_hash") 32 in
  let! planHash := base64Of (mget raw "plan_hash") 32 in
  let! owner := account (mget raw "owner") in
  let! payer := account (mget raw "payer") in
  let! funding := enumeration (mget raw "funding") V3_FUNDING_NAMES in
  let! obligations := parseObligations (mget raw "obligations") in
  let! fileRecordIndex := protoUint (mget raw "file_record_index") U32_MAX in
  let! rangeStart := protoU64 (mget raw "range_start") in
  let! rangeLength := protoU64 (mget raw "range_length") in
  let! first := protoU64 (mget raw "first_blob") in
  let! last := protoU64 (mget raw "last_blob") in
  let! population := protoU64 (mget raw "population") in
  let! sampleCount := protoU64 (mget raw "sample_count") in
  let! nonce := protoU64 (mget raw "nonce") in
  let! pricePerBlob := amount (mget raw "price_per_blob") in
  let! baseFee := amount (mget raw "base_fee") in
  let! completionBurnBps := protoUint (mget raw "completion_burn_bps") 10000 in
  let! snapshot := protoU64 (mget raw "snapshot_height") in
  let! anchor := protoU64 (mget raw "anchor_height") in
  let! firstResponse := protoU64 (mget raw "first_response_height") in
  let! deadline := protoU64 (mget raw "deadline_height") in
  let! dealEnd := protoU64 (mget raw "deal_end_height") in
  let! acceptedBitmap := base64Of (mget raw "accepted_sample_bitmap") 17 in
  let! ackedMask := protoUint (mget raw "acked_slots_mask") 255 in
  let! settledMask := protoUint (mget raw "settled_slots_mask") 255 in
  let! refundedMask := protoUint (mget raw "refunded_slots_mask") 255 in
  let! lockedFee := amount (mget raw "locked_fee") in
  Ok {| fs_range := {| s_authority := authority; s_sessionId := hex sessionId; s_contextHash := contextHash;
                       s_first := first; s_last := last |};
        fs_height := height; fs_planHash := planHash; fs_owner := owner; fs_payer := payer;
        fs_fileRecordIndex := fileRecordIndex; fs_file := file; fs_rangeStart := rangeStart;
        fs_rangeLength := rangeLength; fs_population := population; fs_sampleCount := sampleCount;
        fs_nonce := nonce;
        fs_priceDenom := match mget raw "price_denom" with Some (JStr s) => s | _ => "" end;
        fs_pricePerBlob := pricePerBlob; fs_baseFee := baseFee; fs_completionBurnBps := completionBurnBps;
        fs_funding := funding; fs_snapshot := snapshot; fs_anchor := anchor; fs_firstResponse := firstResponse;
        fs_deadline := deadline; fs_dealEnd := dealEnd; fs_obligations := obligations;
        fs_acceptedBitmap := acceptedBitmap; fs_ackedMask := ackedMask; fs_settledMask := settledMask;
        fs_refundedMask := refundedMask; fs_lockedFee := lockedFee;
        fs_expired := match mget raw "expired" with Some (JBool true) => true | _ => false end;
        fs_context := []; fs_anchorSeed := None; fs_browserTransactionKey := None |}.

(** [if (sessionId !== expected.sessionId || ...) throw ...] *)
Definition checkRequest (raw : fields) (out : FrozenSessionV3) (expected : ExpectedSessionV3) : result unit :=
  let authority := s_authority (fs_range out) in
  let mismatch := "session does not match frozen v3 request"%string in
  let! openedHeight := protoU64 (mget raw "opened_height") in
  let! updatedHeight := protoU64 (mget raw "updated_height") in
  throw_if negb (String.eqb (s_sessionId (fs_range out)) (x_sessionId expected))
           || negb (String.eqb (fs_owner out) (x_owner expected)) || negb (String.eqb (fs_payer out) (fs_owner out))
           || negb (fs_fileRecordIndex out =? x_recordIndex expected) with mismatch else
  let! dealId := protoU64 (mget raw "deal_id") in
  throw_if negb (dealId =? g_dealId authority) with mismatch else
  let! generation := protoU64 (mget raw "generation") in
  throw_if negb (generation =? g_generation authority) with mismatch else
  let! polyfs := base64Of (mget raw "polyfs_root") 32 in
  throw_if negb (String.eqb (hex polyfs) (g_polyfsRoot authority)) with mismatch else
  let! integrity := base64Of (mget raw "integrity_root") 32 in
  throw_if negb (String.eqb (hex integrity) (g_integrityRoot authority)) with mismatch else
  let! setup := base64Of (mget raw "setup_digest") 32 in
  throw_if negb (String.eqb (hex setup) (g_setupDigest authority)) with mismatch else
  let! fileStart := protoU64 (mget raw "file_start_offset") in
  throw_if negb (fileStart =? start_offset (x_file expected)) with mismatch else
  let! fileLength := protoU64 (mget raw "file_length") in
  throw_if negb (fileLength =? size_bytes (x_file expected)) || negb (fs_rangeStart out =? x_rangeStart expected)
           || negb (fs_rangeLength out =? x_rangeLength expected) with mismatch else
  let! metadata := protoU64 (mget raw "metadata_mdus") in
  throw_if negb (metadata =? g_metadataMdus authority) with mismatch else
  let! users := protoU64 (mget raw "user_mdus") in
  throw_if negb (users =? g_userMdus authority) || negb (equal (fs_planHash out) (x_planHash expected))
           || negb (fs_nonce out =? x_nonce expected) || negb (is_str (mget raw "chain_id") (g_chainId authority))
           || (negb (fs_funding out =? 1) && negb (fs_funding out =? 2))
           || match x_funding expected with Some f => negb (fs_funding out =? f) | None => false end
           || match x_deadline expected with Some d => negb (fs_deadline out =? d) | None => false end
           || String.eqb (fs_priceDenom out) "" || (fs_snapshot out <? g_height authority)
           || negb (fs_anchor out =? fs_snapshot out + 1) || negb (fs_firstResponse out =? fs_snapshot out + 2)
           || (fs_deadline out <? fs_firstResponse out) || (fs_dealEnd out <? fs_deadline out)
           || negb (fs_dealEnd out =? g_dealEnd authority) || (fs_height out <? fs_snapshot out)
           || negb (openedHeight =? fs_snapshot out) || (updatedHeight <? openedHeight)
           || (fs_height out <? updatedHeight) || negb (Z.land (get (fs_acceptedBitmap out) 16) 240 =? 0)
    with mismatch else
  Ok tt.

Definition bit (mask slot : Z) : bool := negb (Z.land mask (Z.shiftl 1 slot) =? 0).

(** [for (const o of obligations)]: what is left to pay, and the stored samples. *)
Fixpoint sumObligations (out : FrozenSessionV3) (remaining storedSamples : Z) (l : list RetrievalObligationV3)
    : result (Z * Z) :=
  match l with
  | [] => Ok (remaining, storedSamples)
  | o :: l =>
      throw_if negb (o_lockedFee o =? fs_pricePerBlob out * o_blobCount o)
        with "session has noncanonical v3 obligation fee" else
      sumObligations out
        (if negb (bit (fs_settledMask out) (o_slot o)) && negb (bit (fs_refundedMask out) (o_slot o))
         then remaining + o_lockedFee o else remaining)
        (storedSamples + o_sampleCount o) l
  end.

(** [out.acceptedBitmap.some((byte, i) => ...)], from index [i] on. *)
Fixpoint acceptedPastSamples (sampleCount i : Z) (bitmap : bytes) : bool :=
  match bitmap with
  | [] => false
  | byte :: bitmap =>
      let first := i * 8 in
      (if sampleCount <=? first then negb (byte =? 0)
       else let remaining := sampleCount - first in
            (remaining <? 8) && negb (Z.land byte (Z.lnot (Z.shiftl 1 remaining - 1)) =? 0))
      || acceptedPastSamples sampleCount (i + 1) bitmap
  end.

(** [obligations.some((o, i) => ...)] *)
Fixpoint obligationsDiffer (l expected : list RetrievalObligationV3) : bool :=
  match l, expected with
  | o :: l, e :: expected =>
      negb (o_slot o =? o_slot e) || negb (String.eqb (o_assigned o) (o_assigned e))
      || negb (String.eqb (o_payee o) (o_assigned o)) || negb (o_blobCount o =? o_blobCount e)
      || obligationsDiffer l expected
  | _, _ => false
  end.

(** The range, the obligations and the masks; the result is [storedSamples]. *)
Definition checkPlan (out : FrozenSessionV3) (checkedRange : RetrievalRangeV3) : result Z :=
  throw_if negb (s_first (fs_range out) =? r_first checkedRange) || negb (s_last (fs_range out) =? r_last checkedRange)
           || negb (fs_population out =? r_population checkedRange)
    with "session has noncanonical v3 range" else
  let! expectedObligations := expectedObligationsV3 checkedRange (g_providers (s_authority (fs_range out))) in
  let represented := foldl (fun mask o => Z.lor mask (Z.shiftl 1 (o_slot o))) 0 (fs_obligations out) in
  let! sums := sumObligations out 0 0 (fs_obligations out) in
  let '(remaining, storedSamples) := sums in
  let stateMaterialized := existsb (fun b => negb (b =? 0)) (fs_acceptedBitmap out)
                           || negb (fs_ackedMask out =? 0) || negb (fs_settledMask out =? 0) in
  throw_if negb (fs_sampleCount out =? (if fs_population out <? 132 then fs_population out else 132))
           || negb (Z.of_nat (length (fs_obligations out)) =? Z.of_nat (length expectedObligations))
           || obligationsDiffer (fs_obligations out) expectedObligations
           || negb (Z.land (Z.lor (Z.lor (fs_ackedMask out) (fs_settledMask out)) (fs_refundedMask out))
                      (Z.lnot represented) =? 0)
           || negb (Z.land (fs_settledMask out) (fs_refundedMask out) =? 0)
           || negb (Z.land (fs_settledMask out) (Z.lnot (fs_ackedMask out)) =? 0)
           || negb (remaining =? fs_lockedFee out)
           || acceptedPastSamples (fs_sampleCount out) 0 (fs_acceptedBitmap out)
           || (negb (storedSamples =? 0) && negb (storedSamples =? fs_sampleCount out))
           || (stateMaterialized && (storedSamples =? 0))
    with "session has noncanonical v3 plan" else
  Ok storedSamples.

(** [view.getUint32(at)] *)
Definition getUint32 (l : bytes) (at_ : Z) : Z := foldl (fun n b => n * 256 + b) 0 (subarray l at_ (at_ + 4)).

(** [counts[slot]] after [todo] records from [offset] on. *)
Fixpoint countSlot (todo : nat) (challenges : bytes) (offset slot : Z) : Z :=
  match todo with
  | O => 0
  | S todo => (if getUint32 challenges (offset + 36) =? slot then 1 else 0) + countSlot todo challenges (offset + 72) slot
  end.

Definition rawAnchorSeed (response : fields) : result (option bytes) :=
  if absent (mget response "anchor_seed") then Ok None
  else let! seed := base64Of (mget response "anchor_seed") 32 in Ok (Some seed).

(** [if (anchor) {...}] *)
Definition checkAnchor (out : FrozenSessionV3) (expected : ExpectedSessionV3) (context anchor : bytes)
    (storedSamples : Z) : result unit :=
  let! seed := x_seed expected context anchor in
  let! challenges := x_challenges expected context seed in
  throw_if negb (blen challenges =? fs_sampleCount out * 72) with "invalid v3 challenge partition" else
  throw_if negb (storedSamples =? 0)
           && existsb (fun o => negb (o_sampleCount o =? countSlot (Z.to_nat (fs_sampleCount out)) challenges 0 (o_slot o)))
                (fs_obligations out)
    with "session sample partition does not match anchor" else
  Ok tt.

(** [{ ...out, context, ...(anchor ? { anchorSeed: anchor } : {}) }] *)
Definition with_context (out : FrozenSessionV3) (context : bytes) (anchor : option bytes) : FrozenSessionV3 :=
  {| fs_range := fs_range out; fs_height := fs_height out; fs_planHash := fs_planHash out; fs_owner := fs_owner out;
     fs_payer := fs_payer out; fs_fileRecordIndex := fs_fileRecordIndex out; fs_file := fs_file out;
     fs_rangeStart := fs_rangeStart out; fs_rangeLength := fs_rangeLength out; fs_population := fs_population out;
     fs_sampleCount := fs_sampleCount out; fs_nonce := fs_nonce out; fs_priceDenom := fs_priceDenom out;
     fs_pricePerBlob := fs_pricePerBlob out; fs_baseFee := fs_baseFee out;
     fs_completionBurnBps := fs_completionBurnBps out; fs_funding := fs_funding out;
     fs_snapshot := fs_snapshot out; fs_anchor := fs_anchor out; fs_firstResponse := fs_firstResponse out;
     fs_deadline := fs_deadline out; fs_dealEnd := fs_dealEnd out; fs_obligations := fs_obligations out;
     fs_acceptedBitmap := fs_acceptedBitmap out; fs_ackedMask := fs_ackedMask out;
     fs_settledMask := fs_settledMask out; fs_refundedMask := fs_refundedMask out;
     fs_lockedFee := fs_lockedFee out; fs_expired := fs_expired out; fs_context := context;
     fs_anchorSeed := anchor; fs_browserTransactionKey := None |}.

Definition parseFrozenSessionV3 (payload : unknown) (height : Z) (authority : FrozenGenerationV3)
    (expected : ExpectedSessionV3) : result FrozenSessionV3 :=
  let! response := record payload in
  let! raw := record (mget response "session") in
  let! out := parseSessionFields raw height authority (x_file expected) in
  let! _ := checkRequest raw out expected in
  let! rangeBytes := x_range expected (start_offset (x_file expected)) (size_bytes (x_file expected))
                       (x_rangeStart expected) (x_rangeLength expected) (g_userMdus authority) in
  let! checkedRange := decodeRangeV3 rangeBytes in
  let! storedSamples := checkPlan out checkedRange in
  let! context := encodeContextV3 out in
  let! computed := x_contextHash expected context in
  let contextHash := s_contextHash (fs_range out) in
  throw_if negb (equal computed contextHash)
           || match x_frozenContextHash expected with Some h => negb (equal contextHash h) | None => false end
    with "session context does not match frozen v3 authority" else
  let! anchor := rawAnchorSeed response in
  let! _ := match anchor with
            | Some anchor => checkAnchor out expected context anchor storedSamples
            | None => Ok tt
            end in
  Ok (with_context out context anchor).

(** ** The binding of a request *)

Record BindingV3 := {
  b3_range : RetrievalRangeV3; b3_plan : bytes; b3_planHash : bytes; b3_sessionId : string;
  b3_obligations : list RetrievalObligationV3 }.

Definition prepareV3Binding
    (retrievalV3Range : Z -> Z -> Z -> Z -> Z -> result bytes)
    (retrievalV3Plan : Z -> Z -> Z -> bytes -> result bytes)
    (retrievalV3SessionId : string -> bytes -> Z -> Z -> Z -> Z -> Z -> bytes -> Z -> result bytes)
    (sha256 : bytes -> bytes)
    (authority : FrozenGenerationV3) (owner : string) (recordIndex : Z) (file : RetrievalFile)
    (rangeStart rangeLength nonce : Z) : result BindingV3 :=
  let! rangeBytes := retrievalV3Range (start_offset file) (size_bytes file) rangeStart rangeLength (g_userMdus authority) in
  let! range := decodeRangeV3 rangeBytes in
  let! accounts := mapR accountBytes (take 8 (g_providers authority)) in
  let! plan := retrievalV3Plan (r_first range) (r_last range) (r_population range) (concat accounts) in
  let planHash := sha256 plan in
  let! ownerBytes := accountBytes owner in
  let! sessionId := retrievalV3SessionId (g_chainId authority) ownerBytes (g_dealId authority) (g_generation authority)
                      recordIndex rangeStart rangeLength planHash nonce in
  let! obligations := expectedObligationsV3 range (g_providers authority) in
  Ok {| b3_range := range; b3_plan := plan; b3_planHash := planHash; b3_sessionId := hex sessionId;
        b3_obligations := obligations |}.

(** ** Queries of the chain *)

Section queries.
Context (json_parse : bytes -> result json).
Context (node : string -> option Z -> result Response).

Abbreviation query := (committedQuery json_parse node).
Definition NOT_FOUND : string := "chain query failed (404)".

Definition fetchActiveGenerationV3 (chainId dealIdRaw : string) : result (option FrozenGenerationV3) :=
  let! dealId := u64 (Some (JStr dealIdRaw)) in
  match query (API +:+ "/deals/" +:+ pretty dealId +:+ "/generation-v3") None with
  | Err message => if String.eqb message NOT_FOUND then Ok None else Err message
  | Ok (payload, height) =>
      let! params := query (API +:+ "/params") (Some height) in
      let! p := record (Some params.1) in
      let! p := record (mget p "params") in
      let! activation := protoU64 (mget p "retrieval_v3_activation_height") in
      if (activation =? 0) || (height <? activation) then Ok None else
      let! deal := query (API +:+ "/deals/" +:+ pretty dealId) (Some height) in
      parseGeneration (Some payload) chainId height dealId (Some deal.1)
  end.

Definition fetchSessionV3 (authority : FrozenGenerationV3) (expected : ExpectedSessionV3) : result FrozenSessionV3 :=
  let! id := lcdSessionID (x_sessionId expected) in
  let! answer := query (API +:+ "/retrieval-sessions-v3/" +:+ encodeURIComponent id) None in
  let '(payload, height) := answer in
  parseFrozenSessionV3 (Some payload) height authority expected.

Definition OWNERS : string := API +:+ "/retrieval-sessions-v3/by-owner/".

(** [found], [nonce] and [height]. *)
Definition fetchLatestNonceV3 (owner : string) (dealId : Z) : result (bool * Z * Z) :=
  let! account := account (Some (JStr owner)) in
  let! answer := query (OWNERS +:+ encodeURIComponent account +:+ "/deals/" +:+ pretty dealId +:+ "/nonce") None in
  let '(payload, height) := answer in
  let! value := record (Some payload) in
  throw_if match mget value "found" with Some (JBool _) | None => false | _ => true end
    with "invalid v3 nonce response" else
  let found := match mget value "found" with Some (JBool true) => true | _ => false end in
  let! nonce := protoU64 (mget value "nonce") in
  throw_if negb found && negb (nonce =? 0) with "invalid empty v3 nonce response" else
  Ok (found, nonce, height).

Definition fetchSessionIDByNonceV3 (owner : string) (dealId nonce : Z) : result (option string) :=
  let found :=
    let! account := account (Some (JStr owner)) in
    let! answer := query (OWNERS +:+ encodeURIComponent account +:+ "/deals/" +:+ pretty dealId +:+ "/nonces/" +:+ pretty nonce) None in
    let! p := record (Some answer.1) in
    let! id := base64Of (mget p "session_id") 32 in
    Ok (hex id) in
  match found with
  | Ok id => Ok (Some id)
  | Err message => if String.eqb message NOT_FOUND then Ok None else Err message
  end.
End queries.
End parse.
