(* ===== verification/Packing.v ===== *)
(** * Scalar packing of user data

    - [encodeToMdu] (src/polystore-website/src/components/FileSharder.tsx) packs
      raw bytes into 32-byte scalars, 31 payload bytes each, aligned to the end
      of the scalar;
    - [decodeRetrievalSlice] and [decodeRetrievalOutput]
      (src/polystore-website/src/lib/retrievalFlow.ts) check and undo it blob by
      blob;
    - [consume], [selectWindow] (src/polystore-website/src/hooks/useFetch.ts) and
      [output_write] ([createRetrievalOutput] of retrievalFlow.ts) carry the
      decoded parts to the output.

    Indices stay below 2^23, where [Number] arithmetic is exact, so they are
    plain [Z].  The encoder runs on fuel [length rawData] and the decoder on fuel
    [len]: every pass of either loop moves at least one byte. *)

From S2P Require Import Prelude JsNumber JsBytes Layout Windows.
Local Open Scope Z_scope.

(** ** The encoder *)

Definition MDU_SIZE : Z := 8 * 1024 * 1024.
Definition SCALAR_BYTES : Z := 32.
Definition SCALAR_PAYLOAD_BYTES : Z := 31.

Fixpoint encodeLoop (fuel : nat) (rawData : bytes) (readOffset writeOffset : Z) (mdu : bytes)
    : result bytes :=
  if (readOffset <? blen rawData) && (writeOffset <? MDU_SIZE) then
    match fuel with
    | O => Err OUT_OF_FUEL
    | S fuel =>
        let chunkLen := Z.min SCALAR_PAYLOAD_BYTES (blen rawData - readOffset) in
        let chunk := subarray rawData readOffset (readOffset + chunkLen) in
        let pad := SCALAR_BYTES - chunkLen in
        let! mdu := set_at mdu chunk (writeOffset + pad) in
        encodeLoop fuel rawData (readOffset + chunkLen) (writeOffset + SCALAR_BYTES) mdu
    end
  else Ok mdu.

Definition encodeToMdu (rawData : bytes) : result bytes :=
  encodeLoop (length rawData) rawData 0 0 (zeros MDU_SIZE).

(** ** The decoder *)

(** The index of the first payload byte of a scalar, 32 when it has none. *)
Definition paddingOf (complete remainder scalar : Z) : Z :=
  if scalar <? complete then 1
  else if (scalar =? complete) && negb (remainder =? 0) then 32 - remainder else 32.

(** The loop over the 4096 scalars of a blob: prefix and padding bytes are zero. *)
Definition checkPadding (encoded : bytes) (complete remainder : Z) : result unit :=
  for_range 4096 0 (fun scalar =>
    let start := scalar * 32 in
    throw_if negb (get encoded start =? 0) with "nonzero user payload prefix" else
    let padding := paddingOf complete remainder scalar in
    for_range (Z.to_nat (padding - 1)) 1 (fun i =>
      throw_if negb (get encoded (start + i) =? 0) with "nonzero user payload padding" else
      Ok tt)).

Fixpoint decodeLoop (fuel : nat) (encoded : bytes) (complete remainder offset len : Z)
    (i : Z) (out : bytes) : result bytes :=
  if i <? len then
    match fuel with
    | O => Err OUT_OF_FUEL
    | S fuel =>
        let at_ := offset + i in
        let scalar := floor_div at_ 31 in
        let position := Z.rem at_ 31 in
        let count := Z.min (len - i) (31 - position) in
        let start := scalar * 32
          + (if (scalar =? complete) && negb (remainder =? 0) then 32 - remainder else 1)
          + position in
        let! out := set_at out (subarray encoded start (start + count)) i in
        decodeLoop fuel encoded complete remainder offset len (i + count) out
    end
  else Ok out.

Definition decodeRetrievalSlice (encoded : bytes) (validLength offset len : Z) : result bytes :=
  throw_if negb (blen encoded =? 131072)
    || negb (forallb (fun z => isSafeInteger (int z)) [validLength; offset; len])
    || (validLength <? 0) || (RAW_BLOB_BYTES <? validLength) || (offset <? 0) || (len <? 0)
    || (validLength <? num_add offset len) with "invalid packed range" else
  let complete := floor_div validLength 31 in
  let remainder := Z.rem validLength 31 in
  let! _ := checkPadding encoded complete remainder in
  decodeLoop (Z.to_nat len) encoded complete remainder offset len 0 (zeros len).

(** [window.slices.map((slice, i) => ...)] *)
Fixpoint decodeSlices (pin : PinnedGeneration) (file : RetrievalFile) (mduStart : Z)
    (bs : bytes) (i : Z) (l : list Slice) : result (list (Z * bytes)) :=
  match l with
  | [] => Ok []
  | slice :: l =>
      let blobStart := mduStart + s_encodedBlobIndex slice * RAW_BLOB_BYTES in
      let remaining := start_offset file + size_bytes file - blobStart in
      let validLength := Number (if remaining <? RAW_BLOB_BYTES then remaining else RAW_BLOB_BYTES) in
      let! decoded := decodeRetrievalSlice (subarray bs (i * 131072) ((i + 1) * 131072))
                        validLength (rawOffset slice) (s_length slice) in
      let! rest := decodeSlices pin file mduStart bs (i + 1) l in
      Ok ((outputOffset slice, decoded) :: rest)
  end.

Definition decodeRetrievalOutput (pin : PinnedGeneration) (file : RetrievalFile)
    (window : RetrievalWindow) (bs : bytes) : result (list (Z * bytes)) :=
  throw_if negb (blen bs =? blobCount window * 131072)
    || negb (Z.of_nat (length (slices window)) =? blobCount window)
    with "incomplete encoded output" else
  let mduStart := (mduIndex window - metadataMdus pin) * RAW_MDU in
  decodeSlices pin file mduStart bs 0 (slices window).

(** ** From verified blobs to the output (src/polystore-website/src/hooks/useFetch.ts) *)

(** [output.write] of [createRetrievalOutput] on an output that was not removed. *)
Definition output_write (out : bytes) (offset : Z) (bs : bytes) : result bytes :=
  throw_if (offset <? 0) || (blen out <? offset + blen bs) with "output write out of range" else
  set_at out bs offset.

Fixpoint write_parts (out : bytes) (parts : list (Z * bytes)) : result bytes :=
  match parts with
  | [] => Ok out
  | (offset, bs) :: parts => let! out := output_write out offset bs in write_parts out parts
  end.

Definition consume (pin : PinnedGeneration) (file : RetrievalFile) (window : RetrievalWindow)
    (bs out : bytes) : result bytes :=
  let! parts := decodeRetrievalOutput pin file window bs in
  write_parts out parts.

(** The blobs of a window, gathered from its reconstructed MDU. *)
Fixpoint selectSlices (encoded : bytes) (i : Z) (l : list Slice) (selected : bytes)
    : result bytes :=
  match l with
  | [] => Ok selected
  | slice :: l =>
      let! selected := set_at selected
        (subarray encoded (s_encodedBlobIndex slice * BLOB_SIZE_BYTES)
           ((s_encodedBlobIndex slice + 1) * BLOB_SIZE_BYTES)) (i * BLOB_SIZE_BYTES) in
      selectSlices encoded (i + 1) l selected
  end.
Definition selectWindow (encoded : bytes) (window : RetrievalWindow) : result bytes :=
  selectSlices encoded 0 (slices window) (zeros (blobCount window * BLOB_SIZE_BYTES)).

(** The loop over the windows of a plan in [consumeAndFlush], [encodedMdu] giving the
    authenticated MDU of an index.  The check before the loop,
    [validateRetrievalMduPacking], is modelled in Allocation.v. *)
Fixpoint consumeWindows (pin : PinnedGeneration) (file : RetrievalFile)
    (encodedMdu : Z -> bytes) (windows : list RetrievalWindow) (out : bytes) : result bytes :=
  match windows with
  | [] => Ok out
  | window :: windows =>
      let! selected := selectWindow (encodedMdu (mduIndex window)) window in
      let! out := consume pin file window selected out in
      consumeWindows pin file encodedMdu windows out
  end.

(** ** What they are compared with *)

(** Byte [i] of the MDU that packs [d]. *)
Definition packed_byte (d : bytes) (i : Z) : Z :=
  let s := i / 32 in
  let c := Z.min 31 (blen d - 31 * s) in
  let j := i mod 32 - (32 - c) in
  if (0 <? c) && (0 <=? j) then get d (31 * s + j) else 0.

(** A blob with [v] payload bytes: everything before the payload of each scalar
    is zero. *)
Definition blob_padding (v scalar : Z) : Z := paddingOf (v / 31) (v mod 31) scalar.
Definition canonical_blob (v : Z) (encoded : bytes) : Prop :=
  blen encoded = 131072 /\
  forall i, 0 <= i < 131072 -> i mod 32 < blob_padding v (i / 32) -> get encoded i = 0.

(** Where payload byte [p] of such a blob is. *)
Definition payload_index (v p : Z) : Z := 32 * (p / 31) + blob_padding v (p / 31) + p mod 31.

(** ** Lemmas *)

Lemma blob_padding_bounds v s : 0 <= v -> 1 <= blob_padding v s <= 32.
Proof.
  intros Hv. unfold blob_padding, paddingOf.
  pose proof (Z.mod_pos_bound v 31). repeat case_match; bool_to_prop; lia.
Qed.

Lemma encodeLoop_spec fuel d s mdu :
  0 <= s -> blen mdu = MDU_SIZE -> blen d - 31 * s <= Z.of_nat fuel ->
  (forall i, 32 * s <= i < MDU_SIZE -> get mdu i = 0) ->
  exists mdu', encodeLoop fuel d (Z.min (31 * s) (blen d)) (32 * s) mdu = Ok mdu'
    /\ blen mdu' = MDU_SIZE
    /\ forall i, 0 <= i < MDU_SIZE ->
         get mdu' i = if i <? 32 * s then get mdu i else packed_byte d i.
Proof.
  revert s mdu; induction fuel as [|fuel IH]; intros s mdu Hs Hl Hf Hz; cbn [encodeLoop].
  all: assert (Hend : (Z.min (31 * s) (blen d) <? blen d) && (32 * s <? MDU_SIZE) = false ->
     exists mdu', Ok mdu = Ok mdu' /\ blen mdu' = MDU_SIZE /\ forall i, 0 <= i < MDU_SIZE ->
       get mdu' i = if i <? 32 * s then get mdu i else packed_byte d i).
  1,3: intros Hc; exists mdu; split_and!; [done | done |]; intros i Hi;
    destruct (Z.ltb_spec i (32 * s)); [done|]; rewrite Hz by lia; unfold packed_byte;
    destruct (Z.ltb_spec 0 (Z.min 31 (blen d - 31 * (i / 32)))); [|done];
    apply andb_false_iff in Hc as [?|?]; bool_to_prop; div_lia_linear.
  - destruct (_ && _) eqn:Hc; [|by apply Hend]. bool_to_prop. lia.
  - destruct (_ && _) eqn:Hc; [|by apply Hend]. clear Hend. bool_to_prop.
    replace (Z.min (31 * s) (blen d)) with (31 * s) in * by lia.
    unfold SCALAR_PAYLOAD_BYTES, SCALAR_BYTES.
    set (c := Z.min 31 (blen d - 31 * s)) in *.
    assert (Hsub : blen (subarray d (31 * s) (31 * s + c)) = c)
      by (rewrite blen_subarray; lia).
    destruct (set_at_Ok mdu (subarray d (31 * s) (31 * s + c)) (32 * s + (32 - c)))
      as (mdu1 & -> & Hl1 & Hg1); [lia | rewrite Hsub, Hl; unfold MDU_SIZE in *; div_lia_linear |].
    cbn [bind]. rewrite Hsub in Hg1.
    destruct (IH (s + 1) mdu1) as (mdu' & He & Hl' & Hg'); [lia | lia | lia | |].
    { intros i Hi. rewrite Hg1 by lia. rewrite (proj2 (Z.ltb_ge _ _)), andb_false_r by lia.
      apply Hz. lia. }
    replace (31 * s + c) with (Z.min (31 * (s + 1)) (blen d)) by lia.
    replace (32 * s + 32) with (32 * (s + 1)) by lia.
    exists mdu'. split_and!; [exact He | lia |]. intros i Hi. rewrite Hg' by done.
    destruct (Z.ltb_spec i (32 * s)), (Z.ltb_spec i (32 * (s + 1))); try lia; try done.
    + rewrite Hg1 by lia. rewrite (proj2 (Z.leb_gt _ _)) by lia. done.
    + rewrite Hg1 by lia. unfold packed_byte.
      assert (i / 32 = s) as -> by div_lia_linear. fold c.
      rewrite (proj2 (Z.ltb_lt 0 c)), (proj2 (Z.ltb_lt i _)), andb_true_r by lia. cbn [andb].
      assert (i mod 32 = i - 32 * s) as -> by div_lia_linear.
      destruct (Z.leb_spec (32 * s + (32 - c)) i), (Z.leb_spec 0 (i - 32 * s - (32 - c)));
        try lia; [|apply Hz; lia].
      rewrite get_subarray by lia. f_equal. lia.
Qed.

Lemma encodeToMdu_spec d :
  exists mdu, encodeToMdu d = Ok mdu /\ blen mdu = MDU_SIZE
    /\ forall i, 0 <= i < MDU_SIZE -> get mdu i = packed_byte d i.
Proof.
  destruct (encodeLoop_spec (length d) d 0 (zeros MDU_SIZE)) as (mdu & He & Hl & Hg);
    [lia | by apply blen_zeros | unfold blen; lia | intros; apply get_zeros |].
  exists mdu. split_and!; [|done|].
  - rewrite Z.min_l in He by (pose proof (blen_nonneg d); lia). done.
  - intros i Hi. rewrite Hg by done. by rewrite (proj2 (Z.ltb_ge _ _)) by lia.
Qed.

(** Below the payload length, the decoder's start index is the payload index. *)
Lemma payload_start v at_ :
  0 <= at_ < v ->
  (if (at_ / 31 =? v / 31) && negb (v mod 31 =? 0) then 32 - v mod 31 else 1)
  = blob_padding v (at_ / 31).
Proof.
  intros Ha. unfold blob_padding, paddingOf.
  destruct (Z.ltb_spec (at_ / 31) (v / 31)).
  - rewrite (proj2 (Z.eqb_neq _ _)) by lia. done.
  - assert (at_ / 31 = v / 31 /\ v mod 31 <> 0) as [-> ?] by div_lia_linear.
    rewrite Z.eqb_refl. cbn [andb]. destruct (Z.eqb_spec (v mod 31) 0); [done|]. done.
Qed.

Lemma payload_index_run v at_ n :
  0 <= at_ < v -> 0 <= n < 31 - at_ mod 31 -> at_ + n < v ->
  payload_index v (at_ + n) = payload_index v at_ + n /\ payload_index v at_ + n < 32 * (at_ / 31 + 1).
Proof.
  intros Ha Hn Hv. unfold payload_index.
  assert ((at_ + n) / 31 = at_ / 31 /\ (at_ + n) mod 31 = at_ mod 31 + n) as [-> ->] by div_lia_linear.
  split; [lia|]. rewrite <- payload_start by done.
  destruct (_ && _) eqn:E; bool_to_prop; div_lia_linear.
Qed.

Lemma payload_index_bound v p :
  0 <= p < v -> v <= RAW_BLOB_BYTES -> 0 <= payload_index v p < 131072.
Proof.
  intros Hp Hv. destruct (payload_index_run v p 0) as [_ Hb]; [done | div_lia_linear | lia |].
  unfold payload_index in *. pose proof (blob_padding_bounds v (p / 31)).
  unfold RAW_BLOB_BYTES in *. div_lia_linear.
Qed.

Lemma decodeLoop_spec fuel enc v off len i out :
  blen enc = 131072 -> v <= RAW_BLOB_BYTES -> 0 <= off -> off + len <= v ->
  0 <= i -> blen out = len -> len - i <= Z.of_nat fuel ->
  exists out', decodeLoop fuel enc (v / 31) (v mod 31) off len i out = Ok out'
    /\ blen out' = len
    /\ forall j, 0 <= j < len ->
         get out' j = if j <? i then get out j else get enc (payload_index v (off + j)).
Proof.
  intros He Hv Ho Hol. revert i out.
  induction fuel as [|fuel IH]; intros i out Hi Hout Hf; cbn [decodeLoop];
    (destruct (Z.ltb_spec i len);
     [|exists out; split_and!; [done | done |]; intros j Hj; by rewrite (proj2 (Z.ltb_lt j i)) by lia]).
  { lia. }
  rewrite floor_div_exact by (unfold safe, MAX_SAFE_INTEGER, RAW_BLOB_BYTES in *; lia).
  rewrite Z.rem_mod_nonneg, payload_start by lia.
  set (pos := (off + i) mod 31). set (count := Z.min (len - i) (31 - pos)).
  assert (0 <= pos < 31) by by apply Z.mod_pos_bound.
  assert (Hidx : (off + i) / 31 * 32 + blob_padding v ((off + i) / 31) + pos
                 = payload_index v (off + i)) by (unfold payload_index; fold pos; lia).
  rewrite Hidx. pose proof (payload_index_bound v (off + i) ltac:(lia) Hv) as Hb.
  pose proof (payload_index_run v (off + i) (count - 1) ltac:(lia) ltac:(lia) ltac:(lia)) as [_ Hb2].
  assert (payload_index v (off + i) + count <= 131072)
    by (unfold RAW_BLOB_BYTES in *; clear -Hb2 Ho Hi Hol Hv H; div_lia_linear).
  destruct (set_at_Ok out (subarray enc (payload_index v (off + i))
    (payload_index v (off + i) + count)) i) as (out1 & -> & Hl1 & Hg1);
    [lia | rewrite blen_subarray by lia; lia |]. cbn [bind].
  rewrite blen_subarray in Hg1 by lia.
  destruct (IH (i + count) out1) as (out' & -> & Hl' & Hg'); [lia | lia | lia |].
  exists out'. split_and!; [done | done |]. intros j Hj. rewrite Hg' by done.
  destruct (Z.ltb_spec j (i + count)), (Z.ltb_spec j i); try lia; try done; rewrite Hg1 by lia.
  - by rewrite (proj2 (Z.leb_gt _ _)) by lia.
  - rewrite (proj2 (Z.leb_le _ _)), (proj2 (Z.ltb_lt _ _)) by lia. cbn [andb].
    rewrite get_subarray by lia. f_equal.
    destruct (payload_index_run v (off + i) (j - i)) as [<- _]; [lia.. |]. f_equal. lia.
Qed.

Lemma padding_check_iff v enc :
  0 <= v <= RAW_BLOB_BYTES ->
  checkPadding enc (v / 31) (v mod 31) = Ok tt
  <-> forall i, 0 <= i < 131072 -> i mod 32 < blob_padding v (i / 32) -> get enc i = 0.
Proof.
  intros Hv. unfold checkPadding. rewrite for_range_Ok. split.
  - intros Hall i Hi Hp. specialize (Hall (i / 32) ltac:(div_lia_linear)).
    fold (blob_padding v (i / 32)) in Hall. ok_steps Hall. bool_to_prop.
    rewrite for_range_Ok in Hall. destruct (Z.eq_dec (i mod 32) 0).
    + by replace i with (i / 32 * 32) at 1 by div_lia_linear.
    + specialize (Hall (i mod 32) ltac:(pose proof (Z.mod_pos_bound i 32); lia)).
      ok_steps Hall. bool_to_prop. by replace i with (i / 32 * 32 + i mod 32) at 1 by div_lia_linear.
  - intros Hall j Hj. fold (blob_padding v j). pose proof (blob_padding_bounds v j ltac:(lia)).
    rewrite (Hall (j * 32)); [| lia |].
    + apply for_range_Ok. intros i Hi. rewrite (Hall (j * 32 + i)); [done | lia |].
      rewrite div_base, mod_base by lia. lia.
    + rewrite Z.mod_mul, Z.div_mul by lia. lia.
Qed.

Lemma decode_guard_iff enc v off len :
  negb (blen enc =? 131072)
    || negb (forallb (fun z => isSafeInteger (int z)) [v; off; len])
    || (v <? 0) || (RAW_BLOB_BYTES <? v) || (off <? 0) || (len <? 0)
    || (v <? num_add off len) = false
  <-> blen enc = 131072 /\ 0 <= v <= RAW_BLOB_BYTES /\ 0 <= off /\ 0 <= len /\ off + len <= v.
Proof.
  cbn [forallb]. rewrite !isSafeInteger_int. unfold RAW_BLOB_BYTES. split.
  - intros H. bool_to_prop.
    rewrite num_add_le in * by (unfold MAX_SAFE_INTEGER in *; lia). lia.
  - intros (-> & ? & ? & ? & ?). rewrite num_add_exact by (unfold safe, MAX_SAFE_INTEGER; lia).
    rewrite !(proj2 (Z.leb_le _ _)), !(proj2 (Z.ltb_ge _ _)) by (unfold MAX_SAFE_INTEGER; lia). done.
Qed.

(** The decoder succeeds exactly on canonical blobs and ranges inside the
    payload, and returns the payload bytes of the range. *)
Lemma decodeRetrievalSlice_iff enc v off len out :
  decodeRetrievalSlice enc v off len = Ok out <->
  canonical_blob v enc /\ 0 <= v <= RAW_BLOB_BYTES /\ 0 <= off /\ 0 <= len /\ off + len <= v
  /\ blen out = len
  /\ forall j, 0 <= j < len -> get out j = get enc (payload_index v (off + j)).
Proof.
  unfold decodeRetrievalSlice, canonical_blob. split.
  - intros H. ok_step H. apply decode_guard_iff in Hg as (? & ? & ? & ? & ?).
    rewrite floor_div_exact, Z.rem_mod_nonneg in H
      by (unfold safe, MAX_SAFE_INTEGER, RAW_BLOB_BYTES in *; lia).
    apply bind_Ok in H as ([] & Hc & H). rewrite padding_check_iff in Hc by lia.
    destruct (decodeLoop_spec (Z.to_nat len) enc v off len 0 (zeros len))
      as (out' & He & Hl & Hget); try lia; [apply blen_zeros; lia|].
    rewrite H in He. injection He as <-. split_and!; try done; try lia.
    intros j Hj. rewrite Hget by done. by rewrite (proj2 (Z.ltb_ge _ _)) by lia.
  - intros ([? Hc] & ? & ? & ? & ? & Hl & Hget).
    rewrite (proj2 (decode_guard_iff enc v off len)) by done.
    rewrite floor_div_exact, Z.rem_mod_nonneg
      by (unfold safe, MAX_SAFE_INTEGER, RAW_BLOB_BYTES in *; lia).
    rewrite (proj2 (padding_check_iff v enc ltac:(lia))) by done. cbn [bind].
    destruct (decodeLoop_spec (Z.to_nat len) enc v off len 0 (zeros len))
      as (out' & -> & Hl' & Hget'); try lia; [apply blen_zeros; lia|].
    f_equal. apply bytes_ext; [lia|]. intros j Hj. rewrite Hget, Hget' by lia.
    by rewrite (proj2 (Z.ltb_ge _ _)) by lia.
Qed.

(** The fuel of its loop is enough on every input. *)
Lemma decodeRetrievalSlice_fuel enc v off len : decodeRetrievalSlice enc v off len <> Err OUT_OF_FUEL.
Proof.
  unfold decodeRetrievalSlice. destruct (_ || _) eqn:Hg; [done|].
  apply decode_guard_iff in Hg as (? & ? & ? & ? & ?).
  rewrite floor_div_exact, Z.rem_mod_nonneg
    by (unfold safe, MAX_SAFE_INTEGER, RAW_BLOB_BYTES in *; lia).
  intros [He|(a & _ & He)]%bind_Err.
  - apply for_range_Err in He as (j & He). cbv zeta in He. case_match; [done|].
    apply for_range_Err in He as (i & He). by case_match.
  - destruct (decodeLoop_spec (Z.to_nat len) enc v off len 0 (zeros len))
      as (out & He' & _); try lia; [apply blen_zeros; lia|]. by rewrite He' in He.
Qed.

(** The padding of a scalar, from the payload bytes left for it. *)
Lemma blob_padding_eq v s :
  0 <= v -> 0 <= s -> blob_padding v s = 32 - Z.max 0 (Z.min 31 (v - 31 * s)).
Proof.
  intros. unfold blob_padding, paddingOf.
  destruct (Z.ltb_spec s (v / 31)), (Z.eqb_spec s (v / 31)), (Z.eqb_spec (v mod 31) 0);
    cbn [andb negb]; div_lia_linear.
Qed.

(** Blob [b] of an encoded MDU is canonical and holds its part of the data. *)
Lemma encoded_blob d mdu b v :
  encodeToMdu d = Ok mdu -> 0 <= b < 64 ->
  v = Z.max 0 (Z.min RAW_BLOB_BYTES (blen d - b * RAW_BLOB_BYTES)) ->
  let blob := subarray mdu (b * 131072) ((b + 1) * 131072) in
  canonical_blob v blob
  /\ forall p, 0 <= p < v -> get blob (payload_index v p) = get d (b * RAW_BLOB_BYTES + p).
Proof.
  intros He Hb Hv blob. destruct (encodeToMdu_spec d) as (mdu' & He' & Hl & Hg).
  rewrite He in He'. injection He' as <-. unfold MDU_SIZE, RAW_BLOB_BYTES in *.
  assert (Hget : forall i, 0 <= i < 131072 -> get blob i = packed_byte d (b * 131072 + i)).
  { intros i Hi. unfold blob. rewrite get_subarray by lia. apply Hg. lia. }
  assert (Hdiv : forall i, (b * 131072 + i) / 32 = 4096 * b + i / 32) by (intros; div_lia_linear).
  assert (Hmod : forall i, (b * 131072 + i) mod 32 = i mod 32) by (intros; div_lia_linear).
  split; [split|].
  - unfold blob. rewrite blen_subarray; lia.
  - intros i Hi Hp. rewrite Hget by done. unfold packed_byte. rewrite Hdiv, Hmod.
    rewrite blob_padding_eq in Hp by div_lia_linear.
    destruct (Z.ltb_spec 0 (Z.min 31 (blen d - 31 * (4096 * b + i / 32)))); [|done]. cbn [andb].
    rewrite (proj2 (Z.leb_gt _ _)); [done|]. div_lia_linear.
  - intros p Hp. pose proof (payload_index_bound v p Hp ltac:(unfold RAW_BLOB_BYTES; lia)) as Hb'.
    rewrite Hget by done. unfold packed_byte. rewrite Hdiv, Hmod.
    assert (payload_index v p / 32 = p / 31
            /\ payload_index v p mod 32 = 32 - Z.min 31 (v - 31 * (p / 31)) + p mod 31) as [-> ->].
    { unfold payload_index. rewrite blob_padding_eq by div_lia_linear. div_lia_linear. }
    assert (Z.min 31 (blen d - 31 * (4096 * b + p / 31)) = Z.min 31 (v - 31 * (p / 31))) as ->
      by div_lia_linear.
    rewrite (proj2 (Z.ltb_lt _ _)), (proj2 (Z.leb_le _ _)) by div_lia_linear. cbn [andb].
    f_equal. div_lia_linear.
Qed.

(** A canonical blob is determined by its payload. *)
Lemma packed_byte_canonical enc v d i :
  0 <= v <= RAW_BLOB_BYTES -> blen d = v ->
  (forall i, 0 <= i < 131072 -> i mod 32 < blob_padding v (i / 32) -> get enc i = 0) ->
  (forall j, 0 <= j < v -> get d j = get enc (payload_index v (0 + j))) ->
  0 <= i < 131072 -> packed_byte d i = get enc i.
Proof.
  intros Hv Hd Hz Hg Hi. unfold packed_byte. rewrite Hd.
  set (s := i / 32). set (c := Z.min 31 (v - 31 * s)). set (j := i mod 32 - (32 - c)).
  assert (Hs : 0 <= s /\ i = 32 * s + i mod 32 /\ 0 <= i mod 32 < 32)
    by (unfold s; div_lia_linear).
  destruct (Z.ltb_spec 0 c), (Z.leb_spec 0 j); cbn [andb].
  2-4: symmetry; apply Hz; [done|]; fold s; rewrite blob_padding_eq by lia; lia.
  rewrite Hg by (unfold c, j in *; lia). rewrite Z.add_0_l. f_equal. unfold payload_index.
  assert ((31 * s + j) / 31 = s /\ (31 * s + j) mod 31 = j) as [-> ->]
    by (split; [rewrite Z.mul_comm; apply div_base | rewrite Z.mul_comm; apply mod_base];
        unfold c, j in *; lia).
  rewrite blob_padding_eq by lia. unfold c, j in *. lia.
Qed.

(** The bytes of blob [b] depend on its stretch of the data only. *)
Lemma packed_byte_blob d b i :
  0 <= b -> 0 <= i < 131072 ->
  packed_byte d (b * 131072 + i)
  = packed_byte (subarray d (b * RAW_BLOB_BYTES) ((b + 1) * RAW_BLOB_BYTES)) i.
Proof.
  intros Hb Hi. unfold packed_byte, RAW_BLOB_BYTES.
  rewrite blen_subarray_clamp by lia.
  assert ((b * 131072 + i) / 32 = 4096 * b + i / 32) as -> by div_lia_linear.
  assert ((b * 131072 + i) mod 32 = i mod 32) as -> by div_lia_linear.
  set (c := Z.min 31 (blen d - 31 * (4096 * b + i / 32))).
  set (c' := Z.min 31 _).
  assert (Hc : c = c' \/ (c <= 0 /\ c' <= 0)) by (unfold c, c'; div_lia_linear).
  destruct Hc as [Hc|[? ?]]; [|by rewrite !(proj2 (Z.ltb_ge _ _)) by lia].
  rewrite <- Hc. destruct (Z.ltb_spec 0 c), (Z.leb_spec 0 (i mod 32 - (32 - c))); cbn [andb]; try done.
  rewrite get_subarray by (unfold c, c' in *; div_lia_linear). f_equal. lia.
Qed.

Lemma decode_encoded_blob d mdu b v off len :
  encodeToMdu d = Ok mdu -> 0 <= b < 64 -> v = Z.min RAW_BLOB_BYTES (blen d - b * RAW_BLOB_BYTES) ->
  0 <= off -> 0 <= len -> off + len <= v ->
  decodeRetrievalSlice (subarray mdu (b * 131072) ((b + 1) * 131072)) v off len
  = Ok (subarray d (b * RAW_BLOB_BYTES + off) (b * RAW_BLOB_BYTES + off + len)).
Proof.
  intros He Hb Hv Ho Hl Hol.
  destruct (encoded_blob d mdu b v He Hb ltac:(lia)) as [Hc Hg].
  apply decodeRetrievalSlice_iff. unfold RAW_BLOB_BYTES in *.
  split_and!; [done | lia | lia | lia | lia | lia | rewrite blen_subarray; lia |].
  intros j Hj. rewrite Hg, get_subarray by lia. f_equal. lia.
Qed.

(** A list of writes of parts of [target], over an output of its length. *)
Lemma write_parts_spec target out parts :
  blen out = blen target ->
  Forall (fun p => 0 <= p.1 /\ p.1 + blen p.2 <= blen target /\
                   p.2 = subarray target p.1 (p.1 + blen p.2)) parts ->
  exists out', write_parts out parts = Ok out' /\ blen out' = blen target
    /\ forall i, 0 <= i < blen target ->
         (get out i = get target i \/ exists p, p ∈ parts /\ p.1 <= i < p.1 + blen p.2) ->
         get out' i = get target i.
Proof.
  revert out; induction parts as [|[o bs] parts IH]; intros out Hl Hall; cbn [write_parts].
  - exists out. split_and!; [done | done |]. intros i Hi [?|(p & Hp & _)]; [done|].
    by apply elem_of_nil in Hp.
  - apply Forall_cons in Hall as [(Ho & Hob & Hbs) Hall]. cbn [fst snd] in *.
    unfold output_write. rewrite !(proj2 (Z.ltb_ge _ _)) by lia. cbn [orb].
    destruct (set_at_Ok out bs o) as (out1 & -> & Hl1 & Hg1); [lia | lia |]. cbn [bind].
    destruct (IH out1) as (out' & -> & Hl' & Hg'); [lia | done |].
    exists out'. split_and!; [done | done |]. intros i Hi Hcov. apply Hg'; [done|].
    destruct (Z.leb_spec o i), (Z.ltb_spec i (o + blen bs)); cbn [andb] in *.
    1: { left. rewrite Hg1 by lia. rewrite (proj2 (Z.leb_le _ _)), (proj2 (Z.ltb_lt _ _)) by lia.
         cbn [andb]. rewrite Hbs, get_subarray by lia. f_equal. lia. }
    all: destruct Hcov as [Hcov|(p & [->|Hp]%elem_of_cons & Hpi)]; [|cbn in Hpi; lia|eauto].
    all: left; rewrite Hg1 by lia.
    + by rewrite (proj2 (Z.ltb_ge _ _)), andb_false_r by lia.
    + by rewrite (proj2 (Z.leb_gt _ _)) by lia.
    + by rewrite (proj2 (Z.leb_gt _ _)) by lia.
Qed.

(** The gathered window holds blob [i] of its slices at [i * 131072]. *)
Lemma selectSlices_spec enc i l sel n :
  blen enc = MDU_SIZE -> 0 <= i -> blen sel = n * 131072 -> i + Z.of_nat (length l) <= n ->
  Forall (fun sl => 0 <= s_encodedBlobIndex sl < 64) l ->
  exists sel', selectSlices enc i l sel = Ok sel' /\ blen sel' = blen sel
    /\ (forall j, 0 <= j < i * 131072 -> get sel' j = get sel j)
    /\ forall t sl, l !! t = Some sl ->
         subarray sel' ((i + Z.of_nat t) * 131072) ((i + Z.of_nat t + 1) * 131072)
         = subarray enc (s_encodedBlobIndex sl * 131072) ((s_encodedBlobIndex sl + 1) * 131072).
Proof.
  intros He. unfold MDU_SIZE in He.
  revert i sel; induction l as [|sl l IH]; intros i sel Hi Hs Hn Hall; cbn [selectSlices].
  { by exists sel. }
  apply Forall_cons in Hall as [Hsl Hall]. cbn [length] in Hn. unfold BLOB_SIZE_BYTES.
  assert (Hb : blen (subarray enc (s_encodedBlobIndex sl * (128 * 1024))
                       ((s_encodedBlobIndex sl + 1) * (128 * 1024))) = 131072)
    by (rewrite blen_subarray; lia).
  destruct (set_at_Ok sel (subarray enc (s_encodedBlobIndex sl * (128 * 1024))
    ((s_encodedBlobIndex sl + 1) * (128 * 1024))) (i * (128 * 1024))) as (sel1 & -> & Hl1 & Hg1);
    [lia | rewrite Hb; lia |]. cbn [bind]. rewrite Hb in Hg1.
  destruct (IH (i + 1) sel1) as (sel' & Heq & Hl' & Hkeep & Hsub); [lia | lia | lia | done |].
  exists sel'. split_and!; [done | lia | |].
  - intros j Hj. rewrite Hkeep, Hg1 by lia. by rewrite (proj2 (Z.leb_gt _ _)) by lia.
  - intros [|t] sl'; cbn [lookup list_lookup]; intros Ht.
    + injection Ht as <-. apply bytes_ext; [rewrite !blen_subarray; lia|].
      rewrite blen_subarray by lia. intros j Hj. rewrite get_subarray by lia.
      rewrite Hkeep, Hg1 by lia. rewrite (proj2 (Z.leb_le _ _)), (proj2 (Z.ltb_lt _ _)) by lia.
      cbn [andb]. rewrite !get_subarray by lia. f_equal. lia.
    + rewrite <- (Hsub t sl' Ht). f_equal; lia.
Qed.

Lemma write_parts_app out l1 l2 :
  write_parts out (l1 ++ l2) = bind (write_parts out l1) (fun out => write_parts out l2).
Proof.
  revert out; induction l1 as [|[o b] l1 IH]; intros out; cbn [write_parts app]; [done|].
  destruct (output_write out o b); cbn [bind]; [apply IH | done].
Qed.

(** A stored file: it starts at an MDU boundary and MDU [j] of it is the encoding
    of its [j]-th stretch of raw bytes. *)
Definition stored_as (pin : PinnedGeneration) (file : RetrievalFile) (data : bytes)
    (encodedMdu : Z -> bytes) : Prop :=
  start_offset file mod RAW_MDU = 0 /\ 0 <= start_offset file
  /\ blen data = size_bytes file
  /\ forall j, 0 <= j -> j * RAW_MDU < blen data ->
       encodeToMdu (subarray data (j * RAW_MDU) ((j + 1) * RAW_MDU))
       = Ok (encodedMdu (metadataMdus pin + start_offset file / RAW_MDU + j)).

Section end_to_end.
Context (pin : PinnedGeneration) (file : RetrievalFile) (data : bytes) (encodedMdu : Z -> bytes).
Context (rs len : Z).
Context (Hst : stored_as pin file data encodedMdu).
Context (Hrs : 0 <= rs) (Hlen : rs + len <= blen data).

(** The part of the output that a slice stands for. *)
Definition part_of (sl : Slice) : Z * bytes :=
  (outputOffset sl, subarray data (rs + outputOffset sl) (rs + outputOffset sl + s_length sl)).

Definition slice_in_range (ordinal : Z) (sl : Slice) : Prop :=
  slice_located (start_offset file + rs) ordinal sl
  /\ 0 <= outputOffset sl /\ outputOffset sl + s_length sl <= len.

Lemma decode_stored_slice ordinal sl :
  slice_in_range ordinal sl ->
  let remaining := start_offset file + size_bytes file
    - (ordinal * RAW_MDU + s_encodedBlobIndex sl * RAW_BLOB_BYTES) in
  let enc := encodedMdu (metadataMdus pin + ordinal) in
  decodeRetrievalSlice
    (subarray enc (s_encodedBlobIndex sl * 131072) ((s_encodedBlobIndex sl + 1) * 131072))
    (Number (if remaining <? RAW_BLOB_BYTES then remaining else RAW_BLOB_BYTES))
    (rawOffset sl) (s_length sl)
  = Ok (part_of sl).2
  /\ blen enc = MDU_SIZE.
Proof.
  intros [(Hloc & Hb & Hraw & Hpos & Hfit) [Ho Hol]] remaining enc.
  destruct Hst as (Hal & Hs0 & Hsz & Henc).
  set (A := start_offset file / RAW_MDU) in *.
  assert (HA : start_offset file = A * RAW_MDU) by (unfold A; win_consts; div_lia_linear).
  set (j := ordinal - A). set (d := subarray data (j * RAW_MDU) ((j + 1) * RAW_MDU)).
  assert (Hj : 0 <= j /\ j * RAW_MDU < blen data) by (unfold j; win_consts; lia).
  specialize (Henc j (proj1 Hj) (proj2 Hj)). fold d in Henc.
  replace (metadataMdus pin + A + j) with (metadataMdus pin + ordinal) in Henc by (unfold j; lia).
  fold enc in Henc.
  assert (Hd : blen d = Z.min ((j + 1) * RAW_MDU) (blen data) - j * RAW_MDU)
    by (unfold d; rewrite blen_subarray_clamp; win_consts; lia).
  split; [|destruct (encodeToMdu_spec d) as (m & Hm & Hl & _); congruence].
  assert (Hv : Number (if remaining <? RAW_BLOB_BYTES then remaining else RAW_BLOB_BYTES)
               = Z.min RAW_BLOB_BYTES (blen d - s_encodedBlobIndex sl * RAW_BLOB_BYTES)).
  { rewrite Number_exact; unfold remaining, j in *; win_consts;
      destruct (Z.ltb_spec (start_offset file + size_bytes file
        - (ordinal * 8126464 + s_encodedBlobIndex sl * 126976)) 126976);
      unfold MAX_SAFE_INTEGER; lia. }
  rewrite Hv, (decode_encoded_blob d enc _ _ _ _ Henc);
    [ | win_consts; lia | done | lia | lia | rewrite Hd; unfold j in *; win_consts; lia].
  f_equal. cbn [snd part_of]. unfold d.
  rewrite subarray_subarray by (win_consts; lia). f_equal; unfold j; win_consts; lia.
Qed.

Lemma decodeSlices_spec ordinal bs i l :
  Forall (slice_in_range ordinal) l ->
  (forall t sl, l !! t = Some sl ->
     subarray bs ((i + Z.of_nat t) * 131072) ((i + Z.of_nat t + 1) * 131072)
     = subarray (encodedMdu (metadataMdus pin + ordinal))
         (s_encodedBlobIndex sl * 131072) ((s_encodedBlobIndex sl + 1) * 131072)) ->
  decodeSlices pin file (ordinal * RAW_MDU) bs i l = Ok (part_of <$> l).
Proof.
  revert i; induction l as [|sl l IH]; intros i Hall Hsub; cbn [decodeSlices]; [done|].
  apply Forall_cons in Hall as [Hsl Hall].
  pose proof (Hsub 0%nat sl eq_refl) as H0. rewrite Z.add_0_r in H0. rewrite H0.
  rewrite (proj1 (decode_stored_slice ordinal sl Hsl)). cbn [bind].
  rewrite IH; [done | done |]. intros t sl' Ht. rewrite <- (Hsub (S t) sl' Ht). f_equal; lia.
Qed.

Lemma consume_window w out :
  0 < blobCount w ->
  (exists row0, window_of pin (start_offset file + rs) (mduIndex w - metadataMdus pin) row0 w) ->
  Forall (fun sl => 0 <= outputOffset sl /\ outputOffset sl + s_length sl <= len) (slices w) ->
  exists sel, selectWindow (encodedMdu (mduIndex w)) w = Ok sel
    /\ consume pin file w sel out = write_parts out (part_of <$> slices w).
Proof.
  intros Hpos (row0 & _ & _ & _ & _ & _ & Hcnt & _ & Hloc & _) Hin.
  set (ordinal := mduIndex w - metadataMdus pin) in *.
  assert (Hall : Forall (slice_in_range ordinal) (slices w))
    by (apply Forall_and; split; done).
  assert (Hm : mduIndex w = metadataMdus pin + ordinal) by (unfold ordinal; lia).
  assert (Henc : blen (encodedMdu (metadataMdus pin + ordinal)) = MDU_SIZE).
  { destruct (slices w) as [|sl l]; [cbn in Hcnt; lia|].
    apply Forall_cons in Hall as [Hsl _]. apply (decode_stored_slice ordinal sl Hsl). }
  unfold selectWindow. rewrite Hm.
  destruct (selectSlices_spec (encodedMdu (metadataMdus pin + ordinal)) 0 (slices w)
    (zeros (blobCount w * BLOB_SIZE_BYTES)) (blobCount w)) as (sel & Hsel & Hl & _ & Hsub);
    [done | lia | by rewrite blen_zeros by (unfold BLOB_SIZE_BYTES; lia) | lia | |].
  { eapply Forall_impl; [exact Hloc|]. intros sl (_ & Hb & _). exact Hb. }
  exists sel. split; [done|]. unfold consume, decodeRetrievalOutput.
  rewrite Hl, blen_zeros by (unfold BLOB_SIZE_BYTES; lia).
  rewrite <- Hcnt. change BLOB_SIZE_BYTES with 131072. rewrite !Z.eqb_refl. cbn [negb orb].
  fold ordinal. rewrite (decodeSlices_spec ordinal sel 0 (slices w)); [done | done |].
  exact Hsub.
Qed.

Lemma consumeWindows_spec ws out :
  Forall (planned_window pin (start_offset file + rs)) ws ->
  Forall (fun sl => 0 <= outputOffset sl /\ outputOffset sl + s_length sl <= len)
    (concat (slices <$> ws)) ->
  consumeWindows pin file encodedMdu ws out
  = write_parts out (part_of <$> concat (slices <$> ws)).
Proof.
  revert out; induction ws as [|w ws IH]; intros out Hw Hsl; cbn [consumeWindows]; [done|].
  csimpl in *. apply Forall_cons in Hw as [[Hpos Hwin] Hw]. apply Forall_app in Hsl as [Hs1 Hs2].
  destruct (consume_window w out Hpos Hwin Hs1) as (sel & -> & Hc). cbn [bind]. rewrite Hc.
  rewrite fmap_app, write_parts_app. destruct (write_parts out _); cbn [bind]; [by apply IH | done].
Qed.

End end_to_end.

(** ** Theorems *)

(** C1: End to end: for a file that is stored untransformed, without flags,
    from an MDU boundary in MDUs packed by [encodeToMdu], and a generation whose slots are
    available, planning a range, gathering every window's blobs, decoding them and writing
    the parts into an output of the range's length succeeds and leaves exactly the bytes of
    the range, whatever the output held before. *)
Theorem retrieval_returns_file_bytes pin file data encodedMdu rs len allowInactive out :
  pin_geometry pin -> slots_available pin allowInactive -> f_flags file = 0 ->
  stored_as pin file data encodedMdu ->
  start_offset file + size_bytes file <= userMdus pin * RAW_MDU ->
  0 <= rs -> 0 < len -> rs + len <= size_bytes file -> blen out = len ->
  exists ws, planRetrievalWindows pin file rs len allowInactive = (ws, Ok tt)
    /\ consumeWindows pin file encodedMdu ws out = Ok (subarray data rs (rs + len)).
Proof.
  intros Hgeo Hav Hfl Hst Hum Hrs Hlen Hrl Hout. pose proof Hst as (_ & Hs0 & Hsz & _).
  destruct (planRetrievalWindows_spec pin file rs len allowInactive)
    as (ws & tl & Hplan & Hperm & Htl & Hw & _); [done.. |].
  exists ws. split; [done|].
  assert (Hin : forall sl, sl ∈ concat (slices <$> ws) ->
            0 <= outputOffset sl /\ 0 < s_length sl /\ outputOffset sl + s_length sl <= len).
  { intros sl. rewrite Hperm. intros Hsl.
    destruct (tiles_within _ _ _ _ _ sl Htl Hsl) as (? & ? & ?). lia. }
  rewrite (consumeWindows_spec pin file data encodedMdu rs len Hst);
    [|done | lia | done | apply Forall_forall; intros sl (? & ? & ?)%Hin; lia].
  assert (Ht : blen (subarray data rs (rs + len)) = len) by (rewrite blen_subarray; lia).
  destruct (write_parts_spec (subarray data rs (rs + len)) out
    (part_of data rs <$> concat (slices <$> ws))) as (out' & -> & Hl & Hg); [lia | |].
  { apply Forall_fmap, Forall_forall. intros sl (? & ? & ?)%Hin. unfold compose, part_of.
    cbn [fst snd]. rewrite blen_subarray by lia. split_and!; [done | lia |].
    rewrite subarray_subarray by lia. f_equal; lia. }
  f_equal. apply bytes_ext; [lia|]. intros i Hi. apply Hg; [lia|]. right.
  destruct (tiles_cover _ _ _ _ _ i Htl) as (sl & Hsl & Hpos); [lia|].
  exists (part_of data rs sl). split.
  - apply list_elem_of_fmap. exists sl. split; [done|]. by rewrite Hperm.
  - rewrite <- Hperm in Hsl. apply Hin in Hsl as (? & ? & ?). cbn [fst snd part_of].
    rewrite blen_subarray by lia. lia.
Qed.

Definition sample_data : bytes := [11; 22; 33; 44; 55].
Definition sample_stored_file : RetrievalFile :=
  {| f_path := "b.bin"; start_offset := 8126464; size_bytes := 5; f_flags := 0 |}.

Lemma sample_stored mdu :
  encodeToMdu sample_data = Ok mdu ->
  stored_as sample_pin sample_stored_file sample_data (fun _ => mdu).
Proof.
  intros Hm. split_and!; [reflexivity | cbn; lia | reflexivity |].
  intros j Hj Hlt. change (blen sample_data) with 5 in Hlt.
  assert (j = 0) as -> by (win_consts; lia). rewrite Z.mul_0_l, Z.add_0_l, Z.mul_1_l.
  by rewrite subarray_all by (change (blen sample_data) with 5; win_consts; lia).
Qed.

Lemma retrieval_returns_file_bytes_witness :
  exists mdu ws, consumeWindows sample_pin sample_stored_file mdu ws [0; 0; 0]
             = Ok [22; 33; 44].
Proof.
  destruct (encodeToMdu_spec sample_data) as (mdu & Hm & _).
  destruct (retrieval_returns_file_bytes sample_pin sample_stored_file sample_data (fun _ => mdu)
    1 3 false [0; 0; 0]) as (ws & _ & H);
    [exact sample_pin_geometry | apply sample_pin_available | reflexivity
    | apply sample_stored; exact Hm
    | cbn [start_offset size_bytes userMdus sample_pin sample_stored_file]; win_consts; lia
    | lia | lia | cbn; lia | reflexivity |].
  exists (fun _ => mdu), ws. exact H.
Defined.

(** Decoding a range of a blob of an encoded MDU gives back the raw bytes of
    the range. *)
Theorem decode_encode_roundtrip d b off len :
  0 <= b < BLOBS_PER_MDU -> 0 <= off -> 0 <= len ->
  b * RAW_BLOB_BYTES + off + len <= blen d -> off + len <= RAW_BLOB_BYTES ->
  exists mdu, encodeToMdu d = Ok mdu
    /\ blen mdu = MDU_SIZE_BYTES
    /\ decodeRetrievalSlice
         (subarray mdu (b * BLOB_SIZE_BYTES) ((b + 1) * BLOB_SIZE_BYTES))
         (Z.min RAW_BLOB_BYTES (blen d - b * RAW_BLOB_BYTES)) off len
       = Ok (subarray d (b * RAW_BLOB_BYTES + off) (b * RAW_BLOB_BYTES + off + len)).
Proof.
  intros Hb Ho Hl Hd Hol. destruct (encodeToMdu_spec d) as (mdu & He & Hlen & _).
  exists mdu. split_and!; [done | done |].
  apply (decode_encoded_blob d mdu); (done || lia).
Qed.

Lemma decode_encode_roundtrip_witness :
  exists mdu, encodeToMdu sample_data = Ok mdu /\ blen mdu = MDU_SIZE_BYTES.
Proof.
  destruct (decode_encode_roundtrip sample_data 0 2 3) as (mdu & H & Hl & _);
    [unfold BLOBS_PER_MDU; lia | lia | lia | change (blen sample_data) with 5; lia
    | unfold RAW_BLOB_BYTES; lia |].
  exists mdu. exact (conj H Hl).
Defined.

(** The decoder accepts nothing but the encoder's output: a blob that decodes
    to [v] raw bytes is, byte for byte, the first blob of their encoding. *)
Theorem decode_only_canonical enc v d :
  decodeRetrievalSlice enc v 0 v = Ok d ->
  exists mdu, encodeToMdu d = Ok mdu /\ subarray mdu 0 BLOB_SIZE_BYTES = enc.
Proof.
  intros ((Hl & Hz) & Hv & _ & _ & _ & Hd & Hg)%decodeRetrievalSlice_iff.
  destruct (encodeToMdu_spec d) as (mdu & He & Hm & Hp). exists mdu. split; [done|].
  unfold MDU_SIZE in *. change BLOB_SIZE_BYTES with 131072.
  apply bytes_ext; rewrite blen_subarray by lia; [lia|].
  intros i Hi. rewrite get_subarray, Hp by lia. rewrite Z.add_0_l.
  by apply (packed_byte_canonical enc v).
Qed.

Lemma decode_only_canonical_witness :
  exists mdu, encodeToMdu sample_data = Ok mdu.
Proof.
  destruct (encodeToMdu_spec sample_data) as (m & Hm & _).
  destruct (decode_only_canonical (subarray m 0 131072) 5 sample_data) as (mdu & H & _).
  - apply (decode_encoded_blob sample_data m 0 5 0 5 Hm);
      [lia | reflexivity | lia | lia | lia].
  - exists mdu. exact H.
Defined.
