(* ===== verification/Allocation.v ===== *)
(** * Allocation and packing checks (src/polystore-website/src/lib/retrievalFlow.ts)

    [validateRetrievalAllocation] admits a file table only when every stored file
    starts at an MDU boundary and shares no MDU with another;
    [validateRetrievalMduPacking] admits a retrieved MDU only when it is packed as
    that allocation says.  [records.sort] is the stable sort of the prelude. *)

From S2P Require Import Prelude JsNumber JsBytes Layout Windows Packing.
Local Open Scope Z_scope.

(** ** Allocation and packing checks *)

(** [for (const file of extents)] with the running [end]. *)
Fixpoint checkExtents (pin : PinnedGeneration) (end_ : Z) (extents : list RetrievalFile)
    : result unit :=
  match extents with
  | [] => Ok tt
  | file :: extents =>
      throw_if negb (Z.rem (start_offset file) RAW_MDU =? 0) || (start_offset file <? end_)
        || (userMdus pin * RAW_MDU <? start_offset file + size_bytes file)
        with "unsupported or ambiguous packed allocation before payment" else
      checkExtents pin
        (Z.quot (start_offset file + size_bytes file + RAW_MDU - 1) RAW_MDU * RAW_MDU) extents
  end.

Definition validateRetrievalAllocation (pin : PinnedGeneration) (records : list RetrievalFile)
    : result unit :=
  checkExtents pin 0 (sort_on start_offset (filter (fun r => 0 < size_bytes r) records)).

(** The payload length that [records] give blob [blob] of MDU [ordinal]. *)
Definition validBytes (records : list RetrievalFile) (ordinal blob : Z) : Z :=
  let start := ordinal * RAW_MDU + blob * RAW_BLOB_BYTES in
  let file := find (fun r => (0 <? size_bytes r) && (start_offset r <=? start)
                             && (start <? start_offset r + size_bytes r)) records in
  let remaining := match file with
                   | Some file => start_offset file + size_bytes file - start
                   | None => 0
                   end in
  Number (if RAW_BLOB_BYTES <? remaining then RAW_BLOB_BYTES else remaining).

Definition validateRetrievalMduPacking (pin : PinnedGeneration) (records : list RetrievalFile)
    (ordinal : Z) (bs : bytes) : result unit :=
  throw_if (ordinal <? 0) || (userMdus pin <=? ordinal) || negb (blen bs =? 8388608)
    with "invalid retrieved MDU" else
  for_range 64 0 (fun blob =>
    let! _ := decodeRetrievalSlice (subarray bs (blob * 131072) ((blob + 1) * 131072))
                (validBytes records ordinal blob) 0 0 in
    Ok tt).

(** ** What they are compared with *)

(** The end of the last MDU that a file occupies. *)
Definition mdu_end (r : RetrievalFile) : Z :=
  (start_offset r + size_bytes r + RAW_MDU - 1) / RAW_MDU * RAW_MDU.

(** File [r] has bytes and occupies MDU [o]. *)
Definition occupies (o : Z) (r : RetrievalFile) : Prop :=
  0 < size_bytes r /\ start_offset r / RAW_MDU <= o /\ o * RAW_MDU < start_offset r + size_bytes r.
#[export] Instance occupies_dec o r : Decision (occupies o r).
Proof. unfold occupies. apply _. Defined.

(** Every stored file is aligned and inside the user MDUs, and no MDU is occupied
    by two of them. *)
Definition extent_ok (pin : PinnedGeneration) (r : RetrievalFile) : Prop :=
  start_offset r mod RAW_MDU = 0 /\ 0 <= start_offset r
  /\ start_offset r + size_bytes r <= userMdus pin * RAW_MDU.
Definition allocation_ok (pin : PinnedGeneration) (records : list RetrievalFile) : Prop :=
  (forall r, r ∈ records -> 0 < size_bytes r -> extent_ok pin r)
  /\ forall o, (length (filter (occupies o) records) <= 1)%nat.

(** ** Lemmas *)

Lemma mdu_end_spec r o :
  start_offset r mod RAW_MDU = 0 -> 0 < size_bytes r ->
  occupies o r <-> start_offset r <= o * RAW_MDU < mdu_end r.
Proof. intros Hal Hs. unfold occupies, mdu_end. win_consts. div_lia_linear. Qed.

Lemma checkExtents_sound pin e l :
  0 <= e -> Forall (fun r => 0 < size_bytes r) l -> checkExtents pin e l = Ok tt ->
  Forall (fun r => extent_ok pin r /\ e <= start_offset r) l
  /\ forall o, (length (filter (occupies o) l) <= 1)%nat.
Proof.
  revert e; induction l as [|r l IH]; intros e He Hpos; cbn [checkExtents].
  { intros _. split; [constructor|]. intros o. cbn. lia. }
  apply Forall_cons in Hpos as [Hr Hpos]. intros H. ok_step H. bool_to_prop.
  rewrite Z.rem_mod_nonneg in * by (win_consts; lia).
  rewrite Z.quot_div_nonneg in H by (win_consts; lia). fold (mdu_end r) in H.
  assert (start_offset r < mdu_end r) by (unfold mdu_end; win_consts; div_lia_linear).
  destruct (IH (mdu_end r)) as [Hall Hone]; [lia | done | done |]. split.
  - constructor; [unfold extent_ok; split_and!; (done || lia)|].
    eapply Forall_impl; [exact Hall|]. cbn. intros x [? ?]. split; [done | lia].
  - intros o. rewrite filter_cons. destruct (decide (occupies o r)) as [Ho|]; [|apply Hone].
    apply mdu_end_spec in Ho; [|done..].
    assert (filter (occupies o) l = []) as ->; [|cbn; lia].
    clear -Hall Ho Hpos. induction l as [|x l IH]; [done|].
    apply Forall_cons in Hall as [[Hx1 Hx2] Hall], Hpos as [Hx Hpos].
    rewrite filter_cons_False; [by apply IH|].
    intros Hox%mdu_end_spec; [lia | apply Hx1 | done].
Qed.

Lemma checkExtents_complete pin e l :
  0 <= e -> Forall (fun r => 0 < size_bytes r) l -> ascending start_offset l ->
  Forall (fun r => extent_ok pin r /\ e <= start_offset r) l ->
  (forall o, (length (filter (occupies o) l) <= 1)%nat) ->
  checkExtents pin e l = Ok tt.
Proof.
  revert e; induction l as [|r l IH]; intros e He Hpos Hasc Hall Hone; cbn [checkExtents]; [done|].
  apply Forall_cons in Hpos as [Hr Hpos], Hall as [[(Hal & H0 & Hub) Her] Hall].
  destruct Hasc as [Hle Hasc].
  rewrite Z.rem_mod_nonneg by (win_consts; lia).
  rewrite Hal, !(proj2 (Z.ltb_ge _ _)) by lia. cbn [Z.eqb negb orb].
  rewrite Z.quot_div_nonneg by (win_consts; lia). fold (mdu_end r).
  assert (Hend : start_offset r < mdu_end r) by (unfold mdu_end; win_consts; div_lia_linear).
  apply IH; [lia | done | done | |].
  - apply Forall_forall. intros x Hx.
    rewrite Forall_forall in Hall, Hle, Hpos. destruct (Hall x Hx) as [Hxok _].
    specialize (Hle x Hx). specialize (Hpos x Hx). cbn in Hle. split; [done|].
    destruct (Z.le_gt_cases (mdu_end r) (start_offset x)) as [|Hlt]; [done|exfalso].
    destruct Hxok as (Hxal & ? & ?).
    set (o := start_offset x / RAW_MDU).
    assert (Ho : start_offset x = o * RAW_MDU) by (unfold o; win_consts; div_lia_linear).
    specialize (Hone o). rewrite filter_cons_True in Hone by (apply mdu_end_spec; (done || lia)).
    cbn in Hone. assert (x ∈ filter (occupies o) l) as Hin.
    { apply list_elem_of_filter. split; [|done]. apply mdu_end_spec; [done | done |].
      unfold mdu_end. win_consts. div_lia_linear. }
    destruct (filter (occupies o) l); [by apply elem_of_nil in Hin | cbn in Hone; lia].
  - intros o. specialize (Hone o). rewrite filter_cons in Hone. case_decide; cbn in Hone; lia.
Qed.

Lemma occupies_sorted o records :
  length (filter (occupies o)
    (sort_on start_offset (filter (fun r => 0 < size_bytes r) records)))
  = length (filter (occupies o) records).
Proof.
  transitivity (length (filter (occupies o) (filter (fun r => 0 < size_bytes r) records))).
  - apply Permutation_length. by rewrite sort_on_perm.
  - rewrite list_filter_filter. f_equal. apply list_filter_iff.
    intros r. unfold occupies. tauto.
Qed.

Lemma validateRetrievalAllocation_iff pin records :
  validateRetrievalAllocation pin records = Ok tt <-> allocation_ok pin records.
Proof.
  unfold validateRetrievalAllocation, allocation_ok.
  set (l := sort_on start_offset _).
  assert (Hpos : Forall (fun r => 0 < size_bytes r) l).
  { unfold l. rewrite sort_on_perm. apply Forall_forall. by intros r [? _]%list_elem_of_filter. }
  assert (Hin : forall r, r ∈ l <-> 0 < size_bytes r /\ r ∈ records).
  { intros r. unfold l. by rewrite sort_on_perm, list_elem_of_filter. }
  split.
  - intros [Hall Hone]%checkExtents_sound; [|lia|done]. split.
    + intros r Hr Hs. rewrite Forall_forall in Hall. apply Hall. by apply Hin.
    + intros o. rewrite <- occupies_sorted. apply Hone.
  - intros [Hall Hone]. apply checkExtents_complete; [lia | done | apply sort_on_ascending | |].
    + apply Forall_forall. intros r [Hs Hr]%Hin. pose proof (Hall r Hr Hs) as Hok.
      split; [done|]. apply Hok.
    + intros o. unfold l. rewrite occupies_sorted. apply Hone.
Qed.

(** The payload bytes that MDU [ordinal] should hold. *)
Definition owned (records : list RetrievalFile) (ordinal : Z) : Z :=
  match filter (occupies ordinal) records with
  | r :: _ => Z.min RAW_MDU (start_offset r + size_bytes r - ordinal * RAW_MDU)
  | [] => 0
  end.

Lemma find_owner pin records ordinal blob :
  allocation_ok pin records -> 0 <= ordinal -> 0 <= blob < 64 ->
  let start := ordinal * RAW_MDU + blob * RAW_BLOB_BYTES in
  find (fun r => (0 <? size_bytes r) && (start_offset r <=? start)
                 && (start <? start_offset r + size_bytes r)) records
  = match filter (occupies ordinal) records with
    | r :: _ => if start <? start_offset r + size_bytes r then Some r else None
    | [] => None
    end.
Proof.
  intros [Hok Hone] Ho Hb start. specialize (Hone ordinal).
  induction records as [|r records IH]; [done|].
  rewrite filter_cons in *. cbn [find].
  assert (Hiff : (0 <? size_bytes r) && (start_offset r <=? start)
                 && (start <? start_offset r + size_bytes r) = true
                 <-> occupies ordinal r /\ start < start_offset r + size_bytes r).
  { rewrite !andb_true_iff, Z.ltb_lt, Z.leb_le, Z.ltb_lt.
    destruct (Z.le_gt_cases (size_bytes r) 0); [unfold occupies; lia|].
    destruct (Hok r) as (Hal & ? & ?); [left | lia |].
    unfold occupies, start. win_consts. div_lia_linear. }
  destruct (_ && _) eqn:E.
  - destruct (proj1 Hiff eq_refl) as [Hocc Hlt].
    by rewrite decide_True, (proj2 (Z.ltb_lt _ _)) by done.
  - case_decide as Hd.
    + cbn in Hone. assert (Hnil : filter (occupies ordinal) records = [])
        by (destruct (filter _ records); [done | cbn in Hone; lia]).
      rewrite Hnil in IH. destruct (Z.ltb_spec start (start_offset r + size_bytes r)).
      { discriminate (proj2 Hiff (conj Hd H)). }
      apply IH; [by intros x Hx; apply Hok; right | cbn; lia].
    + apply IH; [by intros x Hx; apply Hok; right | done].
Qed.

(** The payload length of blob [b] of an MDU with [n] payload bytes. *)
Definition blob_valid (n b : Z) : Z := Z.max 0 (Z.min RAW_BLOB_BYTES (n - b * RAW_BLOB_BYTES)).

Lemma owned_bounds records ordinal : 0 <= owned records ordinal <= RAW_MDU.
Proof.
  unfold owned. destruct (filter _ records) as [|r l] eqn:E; [win_consts; lia|].
  assert (r ∈ filter (occupies ordinal) records) as [(? & ? & ?) _]%list_elem_of_filter
    by (rewrite E; left). win_consts. lia.
Qed.

Lemma validBytes_eq pin records ordinal b :
  allocation_ok pin records -> 0 <= ordinal -> 0 <= b < 64 ->
  validBytes records ordinal b = blob_valid (owned records ordinal) b.
Proof.
  intros Hok Ho Hb. unfold validBytes. rewrite (find_owner pin) by done.
  unfold blob_valid, owned.
  assert (H0 : Number (if RAW_BLOB_BYTES <? 0 then RAW_BLOB_BYTES else 0) = 0) by reflexivity.
  destruct (filter _ records) as [|r l]; [rewrite H0; win_consts; lia|].
  destruct (Z.ltb_spec (ordinal * RAW_MDU + b * RAW_BLOB_BYTES) (start_offset r + size_bytes r));
    [|rewrite H0; win_consts; lia].
  destruct (Z.ltb_spec RAW_BLOB_BYTES
    (start_offset r + size_bytes r - (ordinal * RAW_MDU + b * RAW_BLOB_BYTES)));
    rewrite Number_exact; unfold MAX_SAFE_INTEGER; win_consts; lia.
Qed.

Lemma packing_check_iff pin records ordinal bs :
  allocation_ok pin records -> 0 <= ordinal < userMdus pin -> blen bs = MDU_SIZE_BYTES ->
  validateRetrievalMduPacking pin records ordinal bs = Ok tt <->
  forall b, 0 <= b < 64 ->
    canonical_blob (blob_valid (owned records ordinal) b)
      (subarray bs (b * 131072) ((b + 1) * 131072)).
Proof.
  intros Hok Ho Hl. unfold validateRetrievalMduPacking.
  rewrite Hl, (proj2 (Z.ltb_ge _ _)), (proj2 (Z.leb_gt _ _)) by lia.
  change (MDU_SIZE_BYTES =? 8388608) with true. cbn [negb orb]. rewrite for_range_Ok.
  apply forall_proper. intros b.
  split; intros H Hb; specialize (H ltac:(lia)); rewrite (validBytes_eq pin) in * by (done || lia).
  - apply bind_Ok in H as (out & H & _). by apply decodeRetrievalSlice_iff in H as [? _].
  - assert (Hd : decodeRetrievalSlice (subarray bs (b * 131072) ((b + 1) * 131072))
      (blob_valid (owned records ordinal) b) 0 0 = Ok []).
    { apply decodeRetrievalSlice_iff. unfold blob_valid in *. split_and!; try done; try lia.
      unfold RAW_BLOB_BYTES. lia. }
    by rewrite Hd.
Qed.

(** The raw byte that an MDU whose blobs are canonical holds at [p]. *)
Definition unpacked_byte (bs : bytes) (n p : Z) : Z :=
  get bs (p / RAW_BLOB_BYTES * 131072
          + payload_index (blob_valid n (p / RAW_BLOB_BYTES)) (p mod RAW_BLOB_BYTES)).

Lemma canonical_blobs_encode bs n :
  blen bs = MDU_SIZE_BYTES -> 0 <= n <= RAW_MDU ->
  (forall b, 0 <= b < 64 ->
     canonical_blob (blob_valid n b) (subarray bs (b * 131072) ((b + 1) * 131072))) ->
  encodeToMdu (tabulate n (unpacked_byte bs n)) = Ok bs.
Proof.
  intros Hl Hn Hc. change MDU_SIZE_BYTES with 8388608 in Hl.
  set (d := tabulate n (unpacked_byte bs n)).
  destruct (encodeToMdu_spec d) as (mdu & -> & Hm & Hg). f_equal. unfold MDU_SIZE in *.
  apply bytes_ext; [lia|]. intros i Hi. rewrite Hg by lia.
  assert (exists b i', 0 <= b < 64 /\ 0 <= i' < 131072 /\ i = b * 131072 + i')
    as (b & i' & Hb & Hi' & ->)
    by (exists (i / 131072), (i mod 131072); div_lia_linear).
  rewrite packed_byte_blob by lia.
  destruct (Hc b Hb) as [_ Hz]. set (v := blob_valid n b) in *.
  assert (Hv : 0 <= v <= RAW_BLOB_BYTES) by (unfold v, blob_valid, RAW_BLOB_BYTES; lia).
  rewrite (packed_byte_canonical (subarray bs (b * 131072) ((b + 1) * 131072)) v);
    [apply get_subarray; lia | done | | done | | done].
  - rewrite blen_subarray_clamp by (unfold RAW_BLOB_BYTES; lia). unfold d.
    rewrite blen_tabulate by lia. unfold v, blob_valid, RAW_BLOB_BYTES. lia.
  - intros j Hj.
    assert (b * RAW_BLOB_BYTES + j < n) by (unfold v, blob_valid, RAW_BLOB_BYTES in *; lia).
    rewrite get_subarray by (unfold RAW_BLOB_BYTES in *; lia).
    unfold d. rewrite get_tabulate by (unfold RAW_BLOB_BYTES in *; lia). unfold unpacked_byte.
    rewrite div_base, mod_base by (unfold RAW_BLOB_BYTES in *; lia). fold v.
    rewrite get_subarray; [done | lia |].
    pose proof (payload_index_bound v (0 + j) ltac:(lia) ltac:(lia)). lia.
Qed.

(** ** Theorems *)

(** A file table is admitted before payment exactly when every file with bytes
    starts at an MDU boundary, lies inside the user MDUs and shares no MDU with
    another file. *)
Theorem allocation_admitted_iff pin records :
  validateRetrievalAllocation pin records = Ok tt <-> allocation_ok pin records.
Proof. apply validateRetrievalAllocation_iff. Qed.

(** Under an admitted allocation, a retrieved MDU passes the packing check
    exactly when it is the encoding of as many raw bytes as the file that owns
    the MDU has in it (none when no file does). *)
Theorem packing_admitted_iff pin records ordinal bs :
  validateRetrievalAllocation pin records = Ok tt -> 0 <= ordinal < userMdus pin ->
  validateRetrievalMduPacking pin records ordinal bs = Ok tt <->
  exists d, blen d = owned records ordinal /\ encodeToMdu d = Ok bs.
Proof.
  rewrite validateRetrievalAllocation_iff. intros Hok Ho. split.
  - intros H. assert (Hl : blen bs = MDU_SIZE_BYTES).
    { pose proof H as H'. unfold validateRetrievalMduPacking in H'. ok_step H'. bool_to_prop. done. }
    rewrite (packing_check_iff pin) in H by done.
    exists (tabulate (owned records ordinal) (unpacked_byte bs (owned records ordinal))).
    pose proof (owned_bounds records ordinal).
    split; [apply blen_tabulate; lia | by apply canonical_blobs_encode].
  - intros (d & Hd & He). assert (Hl : blen bs = MDU_SIZE_BYTES).
    { destruct (encodeToMdu_spec d) as (m & Hm & Hl & _). rewrite He in Hm. by injection Hm as ->. }
    apply (packing_check_iff pin); [done..|]. intros b Hb. rewrite <- Hd.
    by apply (encoded_blob d).
Qed.

Lemma packing_admitted_iff_witness :
  exists bs, validateRetrievalMduPacking sample_pin [sample_stored_file] 1 bs = Ok tt.
Proof.
  destruct (encodeToMdu_spec sample_data) as (m & Hm & _). exists m.
  apply (packing_admitted_iff sample_pin [sample_stored_file] 1 m);
    [reflexivity | cbn; lia |].
  exists sample_data. split; [reflexivity | exact Hm].
Defined.
