(* ===== verification/Sparse.v ===== *)
(** * Sparse artifacts

    Models src/polystore-website/src/lib/upload/sparseArtifacts.ts (dropping and
    restoring the trailing zeros of an upload artifact) and
    src/polystore-website/src/lib/upload/sparseTransport.ts (posting one, with a
    second attempt when a provider rejects the short body).  The HTTP client is
    an argument, the answer to each request; a post records the requests it
    makes. *)

From S2P Require Import Prelude JsMap JsNumber JsBytes.
Local Open Scope Z_scope.

Inductive SparseArtifactKind := Kmdu | Kmanifest | Kshard.
#[export] Instance kind_eq_dec : EqDecision SparseArtifactKind.
Proof. solve_decision. Defined.

Record SparseArtifactInput := {
  a_kind : SparseArtifactKind; a_bytes : bytes; a_fullSize : option number;
  a_index : option number; a_slot : option number }.

Record SparseArtifact := {
  sp_kind : SparseArtifactKind; sp_bytes : bytes; sp_fullSize : Z;
  sp_index : option number; sp_slot : option number }.

Record SparsePayloadPlan := { fullSize : Z; sendSize : Z; sparse : bool }.

Definition isIntegerOpt (n : option number) : bool :=
  match n with Some n => isInteger n | None => false end.

Definition validateArtifactIdentity (input : SparseArtifactInput) : result unit :=
  throw_if bool_decide (a_kind input = Kmdu) && negb (isIntegerOpt (a_index input))
    with "MDU artifacts require an integer index" else
  if bool_decide (a_kind input = Kshard) then
    throw_if negb (isIntegerOpt (a_index input))
      with "Shard artifacts require an integer index" else
    throw_if negb (isIntegerOpt (a_slot input))
      with "Shard artifacts require an integer slot" else
    Ok tt
  else Ok tt.

(** [for (let i = bytes.byteLength - 1; i >= 0; i -= 1)]: the index of the last
    byte that is not zero among the first [n]. *)
Fixpoint lastNonZero (bs : bytes) (n : nat) : option Z :=
  match n with
  | O => None
  | S i => if negb (get bs (Z.of_nat i) =? 0) then Some (Z.of_nat i) else lastNonZero bs i
  end.

Definition computeSparsePayloadPlan (bs : bytes) (declaredFullSize : number)
    : result SparsePayloadPlan :=
  throw_if negb (isInteger declaredFullSize) || num_ltz declaredFullSize
    with "fullSize must be a non-negative integer" else
  let full := num_int declaredFullSize in
  throw_if full <? blen bs
    with "artifact bytes exceed fullSize: " +:+ pretty (blen bs) +:+ " > " +:+ pretty full else
  if full =? 0 then Ok {| fullSize := 0; sendSize := 0; sparse := false |} else
  if (blen bs =? full) && (0 <? blen bs) && negb (get bs (blen bs - 1) =? 0)
  then Ok {| fullSize := full; sendSize := full; sparse := false |} else
  match lastNonZero bs (length bs) with
  | Some i => Ok {| fullSize := full; sendSize := i + 1; sparse := i + 1 <? full |}
  | None => Ok {| fullSize := full; sendSize := 1;
                  sparse := (1 <? full) || negb (blen bs =? 1) |}
  end.

Definition makeSparseArtifact (input : SparseArtifactInput) : result SparseArtifact :=
  let! _ := validateArtifactIdentity input in
  let full := default (int (blen (a_bytes input))) (a_fullSize input) in
  let! plan := computeSparsePayloadPlan (a_bytes input) full in
  let! bs :=
    if fullSize plan =? 0 then Ok []
    else if sendSize plan =? blen (a_bytes input) then Ok (a_bytes input)
    else if sendSize plan <=? blen (a_bytes input) then Ok (subarray (a_bytes input) 0 (sendSize plan))
    else if (sendSize plan =? 1) && (blen (a_bytes input) =? 0) then Ok [0]
    else Err ("artifact bytes shorter than planned send size: " +:+ pretty (blen (a_bytes input))
              +:+ " < " +:+ pretty (sendSize plan)) in
  Ok {| sp_kind := a_kind input; sp_bytes := bs; sp_fullSize := fullSize plan;
        sp_index := a_index input; sp_slot := a_slot input |}.

Definition expandSparseBytes (bs : bytes) (full : number) : result bytes :=
  throw_if negb (isInteger full) || num_ltz full
    with "fullSize must be a non-negative integer" else
  let full := num_int full in
  throw_if full <? blen bs
    with "artifact bytes exceed fullSize: " +:+ pretty (blen bs) +:+ " > " +:+ pretty full else
  if blen bs =? full then Ok bs else
  set_at (zeros full) bs 0.

(** ** Posting (sparseTransport.ts) *)

Record SparseUploadRequest := {
  su_url : string; su_headers : list (string * string); su_artifact : SparseArtifactInput }.

(** A request as the provider sees it; the full-size header is kept apart from
    the others, as the number it carries. *)
Record Post := {
  p_url : string; p_headers : list (string * string); full_size_header : option Z; body : bytes }.

(** What [fetch] comes to: it rejects with an error, or it resolves to a response
    with a status and a text ([None] when reading the text fails). *)
Inductive Answer :=
| Failed (errorName errorMessage : string)
| Replied (status : Z) (text : option string).

Definition shouldRetrySparseUpload (response : Answer) (sendSize fullSize : Z) : bool :=
  match response with
  | Replied status _ => (sendSize <? fullSize) && ((status =? 400) || (status =? 411))
  | Failed _ _ => false
  end.

(** [request.headers] with a content type. *)
Definition requestHeaders (request : SparseUploadRequest) : list (string * string) :=
  let given := default "" (mget (su_headers request) "Content-Type") in
  let defaultContentType := if bool_decide (given = "") then "application/octet-stream" else given in
  if bool_decide (mget (su_headers request) "Content-Type" = Some defaultContentType)
  then su_headers request
  else mset (su_headers request) "Content-Type" defaultContentType.

Definition post (request : SparseUploadRequest) (bodyBytes : bytes) (fullSizeHeader : option Z)
    : Post :=
  {| p_url := su_url request; p_headers := requestHeaders request; body := bodyBytes;
     full_size_header := match fullSizeHeader with
                         | Some n => if blen bodyBytes <? n then Some n else None
                         | None => None
                         end |}.

(** The posts made and the answer returned, for a [fetchImpl] that answers the
    [i]-th request. *)
Definition postSparseArtifact (fetchImpl : nat -> Post -> Answer) (request : SparseUploadRequest)
    : result (list Post * Answer) :=
  let! sparseArtifact := makeSparseArtifact (su_artifact request) in
  let fullPayload := a_bytes (su_artifact request) in
  let first := post request (sp_bytes sparseArtifact) (Some (sp_fullSize sparseArtifact)) in
  let response := fetchImpl 0%nat first in
  if shouldRetrySparseUpload response (blen (sp_bytes sparseArtifact)) (sp_fullSize sparseArtifact)
  then let second := post request fullPayload None in
       Ok ([first; second], fetchImpl 1%nat second)
  else Ok ([first], response).

(** ** What they are compared with *)

(** The artifact meant: the bytes, filled with zeros up to [full]. *)
Definition padded (bs : bytes) (full : Z) : bytes := bs ++ zeros (full - blen bs).

(** ** Lemmas *)

Lemma lastNonZero_spec bs n :
  (n <= length bs)%nat ->
  match lastNonZero bs n with
  | Some i => 0 <= i < Z.of_nat n /\ get bs i <> 0 /\ forall j, i < j < Z.of_nat n -> get bs j = 0
  | None => forall j, 0 <= j < Z.of_nat n -> get bs j = 0
  end.
Proof.
  induction n as [|n IH]; intros Hn; cbn [lastNonZero]; [lia|].
  destruct (Z.eqb_spec (get bs (Z.of_nat n)) 0) as [Hz|Hz]; cbn [negb].
  - specialize (IH ltac:(lia)). destruct (lastNonZero bs n) as [i|].
    + destruct IH as (? & ? & Hall). split_and!; [lia | lia | done |]. intros j Hj.
      destruct (Z.eq_dec j (Z.of_nat n)) as [->|]; [done | apply Hall; lia].
    + intros j Hj. destruct (Z.eq_dec j (Z.of_nat n)) as [->|]; [done | apply IH; lia].
  - split_and!; [lia | lia | done | lia].
Qed.

Lemma blen_padded bs full : blen bs <= full -> blen (padded bs full) = full.
Proof. intros. unfold padded. rewrite blen_app, blen_zeros; lia. Qed.

Lemma get_app l l' i :
  0 <= i -> get (l ++ l') i = if i <? blen l then get l i else get l' (i - blen l).
Proof.
  intros Hi. unfold get, blen. rewrite !nth_lookup. destruct (Z.ltb_spec i (Z.of_nat (length l))).
  - by rewrite lookup_app_l by lia.
  - rewrite lookup_app_r by lia. do 2 f_equal. lia.
Qed.

Lemma get_padded bs full i :
  0 <= i -> get (padded bs full) i = if i <? blen bs then get bs i else 0.
Proof. intros. unfold padded. rewrite get_app by done. case_match; [done | apply get_zeros]. Qed.

(** Two arrays that agree up to their zeros have the same padding. *)
Lemma padded_prefix bs full n :
  0 <= n <= blen bs -> blen bs <= full -> (forall j, n <= j < blen bs -> get bs j = 0) ->
  padded (subarray bs 0 n) full = padded bs full.
Proof.
  intros Hn Hf Hz. assert (blen (subarray bs 0 n) = n) by (rewrite blen_subarray; lia).
  apply bytes_ext; [rewrite !blen_padded; lia|]. rewrite blen_padded by lia. intros i Hi.
  rewrite !get_padded by lia. rewrite H.
  destruct (Z.ltb_spec i n), (Z.ltb_spec i (blen bs)); try lia; try done.
  - rewrite get_subarray by lia. f_equal.
  - symmetry. apply Hz. lia.
Qed.

Lemma expandSparseBytes_eq bs full :
  blen bs <= full -> expandSparseBytes bs (int full) = Ok (padded bs full).
Proof.
  intros Hf. unfold expandSparseBytes. pose proof (blen_nonneg bs).
  assert (isInteger (int full) = true) as -> by (cbn; rewrite Z.mod_1_r; done).
  assert (num_ltz (int full) = false) as -> by (cbn; lia).
  rewrite num_int_int, (proj2 (Z.ltb_ge _ _)) by lia. cbn [negb orb].
  destruct (Z.eqb_spec (blen bs) full) as [<-|].
  - unfold padded. rewrite Z.sub_diag. cbn. by rewrite app_nil_r.
  - destruct (set_at_Ok (zeros full) bs 0) as (r & -> & Hl & Hg); [lia | rewrite blen_zeros; lia |].
    rewrite blen_zeros in Hl by lia. f_equal. apply bytes_ext; [rewrite blen_padded; lia|].
    intros i Hi. rewrite Hg, get_padded by lia. rewrite (proj2 (Z.leb_le _ _)) by lia. cbn [andb].
    rewrite Z.sub_0_r, Z.add_0_l. case_match; [done | apply get_zeros].
Qed.

(** The size the caller declares. *)
Definition declared (input : SparseArtifactInput) : Z :=
  num_int (default (int (blen (a_bytes input))) (a_fullSize input)).

Lemma makeSparseArtifact_spec input a :
  makeSparseArtifact input = Ok a ->
  sp_fullSize a = declared input /\ blen (a_bytes input) <= declared input
  /\ blen (sp_bytes a) <= declared input
  /\ padded (sp_bytes a) (declared input) = padded (a_bytes input) (declared input)
  /\ (0 < declared input ->
      blen (sp_bytes a) = 1 \/ 0 < blen (sp_bytes a) /\ get (sp_bytes a) (blen (sp_bytes a) - 1) <> 0).
Proof.
  unfold makeSparseArtifact. intros H. apply bind_Ok in H as (_ & _ & H).
  apply bind_Ok in H as (plan & Hp & H). apply bind_Ok in H as (bs & Hb & H).
  injection H as <-. cbn [sp_fullSize sp_bytes]. unfold declared.
  set (n := default _ _) in *. set (ib := a_bytes input) in *. pose proof (blen_nonneg ib).
  unfold computeSparsePayloadPlan in Hp. ok_step Hp. ok_step Hp. bool_to_prop.
  set (full := num_int n) in *.
  destruct (Z.eqb_spec full 0) as [Hf0|Hf0].
  { injection Hp as <-. cbn in *. injection Hb as <-. assert (ib = []) as ->.
    { destruct ib; [done | unfold blen in *; cbn [length] in *; lia]. }
    split_and!; try done; lia. }
  assert (Hpl : exists s, fullSize plan = full /\ sendSize plan = s
    /\ ((0 < s <= blen ib /\ get ib (s - 1) <> 0 /\ (forall j, s <= j < blen ib -> get ib j = 0))
        \/ (s = 1 /\ forall j, 0 <= j < blen ib -> get ib j = 0))).
  { destruct (_ && _) eqn:Efull; [bool_to_prop|].
    - injection Hp as <-. exists full. split; [done|]. split; [done|]. left. split_and!; try lia. congruence.
    - pose proof (lastNonZero_spec ib (length ib) (le_n _)) as Hl. fold (blen ib) in Hl.
      destruct (lastNonZero ib (length ib)) as [i|]; injection Hp as <-.
      + destruct Hl as (? & ? & Hz). exists (i + 1). split; [done|]. split; [done|]. left.
        split_and!; try lia; [by rewrite Z.add_simpl_r | intros j Hj; apply Hz; lia].
      + exists 1. split; [done|]. split; [done|]. by right. }
  destruct Hpl as (s & Hfull & Hsend & Hs). rewrite Hfull, Hsend in *.
  rewrite (proj2 (Z.eqb_neq full 0)) in Hb by done.
  assert (Hsub : 0 < s <= blen ib -> (forall j, s <= j < blen ib -> get ib j = 0) ->
     bs = subarray ib 0 s -> padded bs full = padded ib full /\ blen bs = s).
  { intros ? ? ->. split; [by apply padded_prefix; try lia | rewrite blen_subarray; lia]. }
  destruct (Z.eqb_spec s (blen ib)) as [Hsb|Hsb].
  { injection Hb as <-. split_and!; try done; try lia. intros _. rewrite <- Hsb.
    destruct Hs as [(? & ? & _)|[-> _]]; [right; split; [lia | done] | by left]. }
  destruct (Z.leb_spec s (blen ib)) as [Hle|Hlt].
  { injection Hb as <-. destruct Hs as [(Hs1 & Hs2 & Hs3)|[-> Hz]].
    - destruct (Hsub Hs1 Hs3 eq_refl) as [-> Hbl]. rewrite Hbl. split_and!; try done; try lia.
      intros _. right. split; [lia|]. rewrite get_subarray by lia. by rewrite Z.add_0_l.
    - destruct Hsub as [-> Hbl]; [lia | intros j Hj; apply Hz; lia | done |]. rewrite Hbl.
      split_and!; try done; lia. }
  destruct ((s =? 1) && (blen ib =? 0)) eqn:E1; [|discriminate Hb]. injection Hb as <-. bool_to_prop.
  change (blen [0]) with 1. split_and!; try done; try lia.
  apply bytes_ext; [rewrite !blen_padded by (change (blen [0]) with 1; lia); done|].
    rewrite blen_padded by (change (blen [0]) with 1; lia). intros i Hi.
    rewrite !get_padded by lia. change (blen [0]) with 1. replace (i <? blen ib) with false by (symmetry; apply Z.ltb_ge; lia).
    destruct (Z.ltb_spec i 1); [|done]. by replace i with 0 by lia.
Qed.

(** ** Theorems *)

(** Expanding a sparse artifact to its full size gives the input bytes followed
    by zeros up to the declared size: dropping the trailing zeros loses nothing. *)
Theorem sparse_roundtrip input a :
  makeSparseArtifact input = Ok a ->
  expandSparseBytes (sp_bytes a) (int (sp_fullSize a))
  = Ok (padded (a_bytes input) (declared input)).
Proof.
  intros (Hf & _ & Hb & Hp & _)%makeSparseArtifact_spec.
  rewrite Hf, expandSparseBytes_eq by done. by rewrite Hp.
Qed.

Definition sample_artifact : SparseArtifactInput :=
  {| a_kind := Kmdu; a_bytes := [1; 2; 0; 0]; a_fullSize := Some (int 6);
     a_index := Some (int 0); a_slot := None |}.

Definition sample_request : SparseUploadRequest :=
  {| su_url := "http://provider/sp/upload_mdu"; su_headers := [("X-PolyStore-Deal-ID", "7")];
     su_artifact := sample_artifact |}.

Lemma sparse_roundtrip_witness :
  expandSparseBytes [1; 2] (int 6) = Ok [1; 2; 0; 0; 0; 0].
Proof.
  exact (sparse_roundtrip sample_artifact {| sp_kind := Kmdu; sp_bytes := [1; 2]; sp_fullSize := 6;
    sp_index := Some (int 0); sp_slot := None |} eq_refl).
Defined.

(** The bytes sent for a non-empty artifact are the shortest possible: any
    non-empty array that expands to the same artifact is at least as long. *)
Theorem sparse_minimal input a shorter :
  makeSparseArtifact input = Ok a -> 0 < declared input ->
  0 < blen shorter <= declared input ->
  padded shorter (declared input) = padded (a_bytes input) (declared input) ->
  0 < blen (sp_bytes a) <= blen shorter.
Proof.
  intros (_ & _ & Hb & Hp & Hlast)%makeSparseArtifact_spec Hpos Hs Heq.
  destruct (Hlast Hpos) as [?|[? Hne]]; [lia|]. split; [done|].
  destruct (Z.le_gt_cases (blen (sp_bytes a)) (blen shorter)) as [|Hlt]; [done|exfalso].
  apply Hne. pose proof (get_padded (sp_bytes a) (declared input) (blen (sp_bytes a) - 1)) as H1.
  rewrite Hp, <- Heq, get_padded in H1 by lia.
  rewrite (proj2 (Z.ltb_ge _ (blen shorter))), (proj2 (Z.ltb_lt _ _)) in H1 by lia.
  symmetry. apply H1. lia.
Qed.

Lemma sparse_minimal_witness : 0 < blen [1; 2] <= blen [1; 2; 0].
Proof.
  apply (sparse_minimal sample_artifact {| sp_kind := Kmdu; sp_bytes := [1; 2]; sp_fullSize := 6;
    sp_index := Some (int 0); sp_slot := None |} [1; 2; 0]);
    [reflexivity | reflexivity | vm_compute; split; [reflexivity | discriminate] | reflexivity].
Defined.

(** The first request announces the whole artifact: its body, filled with zeros up to the
    announced size, is the input followed by zeros. *)
Theorem sparse_first_post_complete fetchImpl request posts answer :
  postSparseArtifact fetchImpl request = Ok (posts, answer) ->
  exists first rest, posts = first :: rest /\ (length rest <= 1)%nat
    /\ padded (body first) (default (blen (body first)) (full_size_header first))
       = padded (a_bytes (su_artifact request)) (declared (su_artifact request)).
Proof.
  unfold postSparseArtifact. intros (a & Ha & H)%bind_Ok.
  pose proof (makeSparseArtifact_spec _ a Ha) as (Hf & _ & Hb & Hp & _).
  assert (Hst : let p := post request (sp_bytes a) (Some (sp_fullSize a)) in
    padded (body p) (default (blen (body p)) (full_size_header p)) = padded (a_bytes (su_artifact request)) (declared (su_artifact request))).
  { rewrite <- Hp, Hf. unfold post, padded. cbn [body full_size_header].
    destruct (Z.ltb_spec (blen (sp_bytes a)) (declared (su_artifact request))); cbn [default from_option id]; [done|].
    do 2 f_equal. lia. }
  destruct (shouldRetrySparseUpload _ _ _); injection H as <- <-;
    (eexists _, _; split_and!; [reflexivity | cbn; lia | exact Hst]).
Qed.

Lemma sparse_first_post_complete_witness :
  exists first rest, [post sample_request [1; 2] (Some 6)] = first :: rest /\ (length rest <= 1)%nat
    /\ padded (body first) (default (blen (body first)) (full_size_header first)) = [1; 2; 0; 0; 0; 0].
Proof. exact (sparse_first_post_complete (fun _ _ => Replied 200 (Some EmptyString)) sample_request _ _ eq_refl). Defined.
