(* ===== verification/Planner.v ===== *)
(** * The upload planner

    Models src/polystore-website/src/lib/upload/planner.ts: from the size of a
    file, the capacity of an MDU, the erasure-coding profile and what the deal
    already stores, the MDUs of the new generation and the payload of each.  The
    progress weights are binary64 fractions, rounded as the code rounds them. *)

From S2P Require Import Prelude JsNumber JsText Layout.
Local Open Scope Z_scope.

Definition PLANNER_BLOBS_PER_MDU : Z := 64.
Definition PLANNER_BLOB_BYTES : Z := 128 * 1024.
Definition PLANNER_SCALAR_PAYLOAD_BYTES : Z := 31.
Definition PLANNER_SCALAR_BYTES : Z := 32.
Definition PLANNER_TRIVIAL_BLOB_WEIGHT : Q := nearest 1 10.
Definition WITNESS_COMMITMENT_BYTES : Z := 48.

Record UploadPlannerInput := {
  in_fileBytes : number; in_rawMduCapacity : number; in_useMode2 : bool;
  in_rsK : option number; in_rsM : option number;
  in_existingUserMdus : option number; in_existingMaxEnd : option number }.

(** The [status] of an item is always [pending] and is left out. *)
Record UploadShardItemPlan := { item_id : Z; item_commitments : list string }.

Record UploadPlannerResult := {
  pl_leafCount : Z; pl_blobsPerMdu : Z; pl_appendStartOffset : Z; pl_newUserMdus : Z;
  pl_totalUserMdus : Z; pl_totalFileBytes : Z; pl_totalMdus : Z; pl_witnessBytesPerMdu : Z;
  pl_witnessMduCount : Z; pl_witnessPayloads : list Z; pl_userPayloads : list Z;
  pl_workTotal : Q; pl_blobsTotal : Z; pl_shardItems : list UploadShardItemPlan }.

Definition asNonNegativeInteger (value : option number) (label : string) : result Z :=
  let safe := default (int 0) value in
  throw_if negb (isFinite safe) || num_ltz safe
    with label +:+ " must be a non-negative finite number" else
  Ok (num_int safe).

(** [Math.ceil(payloadBytes / 31)], for any double. *)
Definition ceil_ratio (n : number) (d : Z) : Z :=
  match n with Fin q => ceil_div (Qnum q) (QDen q * d) | _ => 0 end.

Definition nonTrivialBlobsForPayload (payloadBytes : number) : Z :=
  if negb (isFinite payloadBytes) || num_lez payloadBytes then 0 else
  let scalarsUsed := ceil_ratio payloadBytes PLANNER_SCALAR_PAYLOAD_BYTES in
  let encodedBytes := num_mul scalarsUsed PLANNER_SCALAR_BYTES in
  let blobsUsed := ceil_div encodedBytes PLANNER_BLOB_BYTES in
  Z.max 0 (Z.min PLANNER_BLOBS_PER_MDU blobsUsed).

(** A sum and a product of non-negative doubles. *)
Definition fl (q : Q) : Q := nearest (Qnum q) (QDen q).
Definition fl_add (a b : Q) : Q := fl (a + b).
Definition fl_mul (a b : Q) : Q := fl (a * b).

Definition weightedWorkForMdu (nonTrivialBlobs : Z) : Q :=
  let bounded := Z.max 0 (Z.min PLANNER_BLOBS_PER_MDU nonTrivialBlobs) in
  let trivial := PLANNER_BLOBS_PER_MDU - bounded in
  fl_add (inject_Z bounded) (fl_mul (inject_Z trivial) PLANNER_TRIVIAL_BLOB_WEIGHT).

Definition computeLeafCount (useMode2 : bool) (rsK rsM : option number) : result Z :=
  if negb useMode2 then Ok PLANNER_BLOBS_PER_MDU else
  let! safeK := asNonNegativeInteger rsK "rsK" in
  let! safeM := asNonNegativeInteger rsM "rsM" in
  throw_if safeK <=? 0 with "rsK must be positive when Mode 2 is enabled" else
  throw_if negb (Z.rem PLANNER_BLOBS_PER_MDU safeK =? 0)
    with "rsK must divide " +:+ pretty PLANNER_BLOBS_PER_MDU +:+ " when Mode 2 is enabled" else
  Ok (num_mul (num_add safeK safeM) (floor_div PLANNER_BLOBS_PER_MDU safeK)).

Definition buildUploadShardItems (totalUserMdus witnessMduCount : number)
    : result (list UploadShardItemPlan) :=
  let! safeUsers := asNonNegativeInteger (Some totalUserMdus) "totalUserMdus" in
  let! safeWitness := asNonNegativeInteger (Some witnessMduCount) "witnessMduCount" in
  Ok ([{| item_id := 0; item_commitments := ["MDU #0"] |}]
      ++ map (fun i => {| item_id := num_add 1 i; item_commitments := ["Witness"] |})
             (seqZ 0 safeWitness)
      ++ map (fun i => {| item_id := num_add (num_add 1 safeWitness) i;
                          item_commitments := ["User Data"] |})
             (seqZ 0 safeUsers)).

(** The loop over the witness MDUs: [n] of them left. *)
Fixpoint witnessLoop (capacity remaining : Z) (n : nat) : list Z :=
  match n with
  | O => []
  | S n =>
      let take := Z.max 0 (Z.min capacity remaining) in
      take :: witnessLoop capacity (num_sub remaining take) n
  end.

(** The part of the first [stop] bytes that falls in the [i]-th MDU. *)
Definition payloadOf (capacity stop i : Z) : Z :=
  let start := num_mul i capacity in
  let stop := Z.min (num_add start capacity) stop in
  Z.max 0 (num_sub stop start).

Definition workOf (payloads : list Z) : Q :=
  foldl (fun acc p => fl_add acc (weightedWorkForMdu (nonTrivialBlobsForPayload (int p)))) 0%Q payloads.

Definition buildUploadPlan (input : UploadPlannerInput) : result UploadPlannerResult :=
  let! fileBytes := asNonNegativeInteger (Some (in_fileBytes input)) "fileBytes" in
  let! rawMduCapacity := asNonNegativeInteger (Some (in_rawMduCapacity input)) "rawMduCapacity" in
  throw_if rawMduCapacity <=? 0 with "rawMduCapacity must be positive" else
  let! existingUserMdus := asNonNegativeInteger (in_existingUserMdus input) "existingUserMdus" in
  let! existingMaxEnd := asNonNegativeInteger (in_existingMaxEnd input) "existingMaxEnd" in
  let! leafCount := computeLeafCount (in_useMode2 input) (in_rsK input) (in_rsM input) in
  let blobsPerMdu := if in_useMode2 input then leafCount else PLANNER_BLOBS_PER_MDU in
  let appendStartOffset := num_mul existingUserMdus rawMduCapacity in
  let newUserMdus := ceil_div fileBytes rawMduCapacity in
  let totalUserMdus := num_add existingUserMdus newUserMdus in
  let totalFileBytes := num_add appendStartOffset fileBytes in
  let witnessBytesPerMdu := num_mul leafCount WITNESS_COMMITMENT_BYTES in
  let witnessMduCount :=
    Z.max 1 (ceil_div (num_mul witnessBytesPerMdu totalUserMdus) rawMduCapacity) in
  let totalWitnessPayloadBytes := num_mul totalUserMdus witnessBytesPerMdu in
  let witnessPayloads :=
    witnessLoop rawMduCapacity totalWitnessPayloadBytes (Z.to_nat witnessMduCount) in
  let userPayloads :=
    map (payloadOf rawMduCapacity existingMaxEnd) (seqZ 0 existingUserMdus)
    ++ map (payloadOf rawMduCapacity fileBytes) (seqZ 0 newUserMdus) in
  let workTotal :=
    fl_add (fl_add (weightedWorkForMdu 1) (workOf witnessPayloads)) (workOf userPayloads) in
  let! shardItems := buildUploadShardItems (int totalUserMdus) (int witnessMduCount) in
  Ok {| pl_leafCount := leafCount; pl_blobsPerMdu := blobsPerMdu;
        pl_appendStartOffset := appendStartOffset; pl_newUserMdus := newUserMdus;
        pl_totalUserMdus := totalUserMdus; pl_totalFileBytes := totalFileBytes;
        pl_totalMdus := num_add (num_add 1 witnessMduCount) totalUserMdus;
        pl_witnessBytesPerMdu := witnessBytesPerMdu; pl_witnessMduCount := witnessMduCount;
        pl_witnessPayloads := witnessPayloads; pl_userPayloads := userPayloads;
        pl_workTotal := workTotal;
        pl_blobsTotal := num_mul (num_add (num_add 1 witnessMduCount) totalUserMdus) blobsPerMdu;
        pl_shardItems := shardItems |}.

(** ** Lemmas *)

Definition zsum (l : list Z) : Z := foldr Z.add 0 l.

Lemma zsum_app l l' : zsum (l ++ l') = zsum l + zsum l'.
Proof. induction l; cbn [zsum foldr app]; [done|]. unfold zsum in *. lia. Qed.

Lemma planner_int value label v :
  0 <= value -> asNonNegativeInteger (Some (int value)) label = Ok v -> v = value.
Proof.
  unfold asNonNegativeInteger. intros Hv H. ok_step H. injection H as <-. apply num_int_int.
Qed.

Lemma witnessLoop_spec capacity n remaining :
  0 <= capacity -> safe remaining -> remaining <= Z.of_nat n * capacity ->
  length (witnessLoop capacity remaining n) = n
  /\ Forall (fun p => 0 <= p <= capacity) (witnessLoop capacity remaining n)
  /\ zsum (witnessLoop capacity remaining n) = remaining.
Proof.
  intros Hc. revert remaining. induction n as [|n IH]; intros remaining Hs Hle; cbn [witnessLoop].
  - unfold safe in Hs. split_and!; [done | constructor | cbn; lia].
  - set (take := Z.max 0 (Z.min capacity remaining)).
    assert (0 <= take <= remaining /\ take <= capacity
      /\ (remaining <= capacity -> take = remaining)
      /\ (capacity < remaining -> take = capacity)) as (? & ? & ? & ?)
      by (unfold safe in Hs; unfold take; lia).
    clearbody take.
    rewrite num_sub_exact by (unfold safe in Hs; lia).
    destruct (IH (remaining - take)) as (Hl & Hf & Hz); [unfold safe in *; lia | |].
    { unfold safe in Hs. destruct (Z.le_gt_cases remaining capacity); [|nia].
      nia. }
    cbn [length zsum foldr]. fold (zsum (witnessLoop capacity (remaining - take) n)).
    split_and!; [lia | constructor; [lia|done] | lia].
Qed.

(** The payloads of consecutive MDUs cover the bytes up to [stop]. *)
Lemma payloads_sum capacity stop n :
  0 < capacity -> 0 <= stop -> safe (Z.of_nat n * capacity) ->
  zsum (map (payloadOf capacity stop) (seqZ 0 (Z.of_nat n))) = Z.min stop (Z.of_nat n * capacity).
Proof.
  intros Hc Hs. induction n as [|n IH]; intros Hsafe; [by rewrite Z.min_r by lia|].
  rewrite seqZ_S, map_app, zsum_app. rewrite Nat2Z.inj_succ in *.
  rewrite IH by (unfold safe in *; nia). cbn [map zsum foldr]. unfold payloadOf.
  rewrite Z.add_0_l, num_mul_exact by (unfold safe in *; nia).
  rewrite num_add_exact by (unfold safe in *; nia).
  rewrite num_sub_exact by (unfold safe in *; lia). lia.
Qed.

Lemma payloads_bounded capacity stop n :
  0 < capacity -> 0 <= stop -> safe (n * capacity) ->
  Forall (fun p => 0 <= p <= capacity) (map (payloadOf capacity stop) (seqZ 0 n)).
Proof.
  intros Hc Hs Hsafe. apply Forall_map, Forall_forall. intros i Hi. apply elem_of_seqZ in Hi.
  unfold payloadOf. rewrite num_mul_exact by (unfold safe in *; nia).
  rewrite num_add_exact by (unfold safe in *; nia).
  destruct (Z.le_gt_cases (i * capacity) stop).
  - rewrite num_sub_exact by (unfold safe in *; nia). lia.
  - rewrite num_sub_exact by (unfold safe in *; nia). lia.
Qed.

Lemma shard_items users witness l :
  0 <= users -> 0 <= witness -> safe (1 + witness + users) ->
  buildUploadShardItems (int users) (int witness) = Ok l ->
  map item_id l = seqZ 0 (1 + witness + users).
Proof.
  intros Hu Hw Hs H. unfold buildUploadShardItems in H. ok_step H. ok_step H. injection H as <-.
  apply planner_int in Hv, Hv0; [|done..]. subst v v0.
  cbn [app map item_id]. rewrite map_app, !map_map. cbn [item_id].
  rewrite (map_ext_in _ (Z.add 1)).
  2:{ intros i Hi%list_elem_of_In%elem_of_seqZ. apply num_add_exact. unfold safe in *. lia. }
  rewrite (map_ext_in (fun i => num_add (num_add 1 witness) i) (Z.add (1 + witness))).
  2:{ intros i Hi%list_elem_of_In%elem_of_seqZ.
      rewrite (num_add_exact 1) by (unfold safe in *; lia). apply num_add_exact. unfold safe in *. lia. }
  change (map (Z.add 1) (seqZ 0 witness)) with (Z.add 1 <$> seqZ 0 witness).
  change (map (Z.add (1 + witness)) (seqZ 0 users)) with (Z.add (1 + witness) <$> seqZ 0 users).
  rewrite !fmap_add_seqZ, !Z.add_0_r.
  rewrite (seqZ_app 0 (1 + witness) users), (seqZ_app 0 1 witness), <- app_assoc by lia.
  change (seqZ 0 1) with [0]. by rewrite !Z.add_0_l.
Qed.

Lemma mode2_leafCount k m c :
  0 < k -> 0 <= m -> safe ((k + m) * 64) ->
  computeLeafCount true (Some (int k)) (Some (int m)) = Ok c ->
  (k | 64) /\ c = (k + m) * (64 / k).
Proof.
  intros Hk Hm Hs H. unfold computeLeafCount in H. cbn [negb] in H. ok_steps H.
  apply planner_int in Hv, Hv0; [|lia..]. subst v v0. bool_to_prop.
  unfold PLANNER_BLOBS_PER_MDU in *. apply Z.rem_divide in Hg0; [|lia]. split; [done|].
  rewrite num_add_exact by (unfold safe in *; lia).
  rewrite floor_div_exact by (unfold safe, MAX_SAFE_INTEGER; lia).
  apply num_mul_exact. unfold safe in *. pose proof (Z.div_le_upper_bound 64 k 64).
  pose proof (Z.div_pos 64 k). nia.
Qed.

(** The plan, its roundings gone. *)
Definition upload_input (file cap : Z) (mode2 : bool) (k m existing maxEnd : Z) : UploadPlannerInput :=
  {| in_fileBytes := int file; in_rawMduCapacity := int cap; in_useMode2 := mode2;
     in_rsK := Some (int k); in_rsM := Some (int m);
     in_existingUserMdus := Some (int existing); in_existingMaxEnd := Some (int maxEnd) |}.

(** The MDUs that [bytes] bytes need. *)
Definition mdus (bytes cap : Z) : Z := - (- bytes / cap).

Lemma mdus_bounds bytes cap :
  0 <= bytes -> 0 < cap ->
  0 <= mdus bytes cap /\ bytes <= mdus bytes cap * cap /\ mdus bytes cap * cap < bytes + cap.
Proof. intros. unfold mdus. div_lia. Qed.

(** Sizes for which none of the sums and products of the plan is rounded. *)
Record plannable (file cap leaf existing maxEnd : Z) : Prop := {
  pb_file : 0 <= file; pb_existing : 0 <= existing; pb_maxEnd : 0 <= maxEnd;
  pb_leaf : 0 <= leaf; pb_leafBytes : safe (leaf * 48);
  pb_bytes : safe (existing * cap + file + cap);
  pb_witness : safe (leaf * 48 * (existing + mdus file cap) + cap);
  pb_mdus : safe (1 + mdus (leaf * 48 * (existing + mdus file cap)) cap + 1 + existing + mdus file cap) }.

Lemma buildUploadPlan_Ok file cap mode2 k m existing maxEnd p :
  buildUploadPlan (upload_input file cap mode2 k m existing maxEnd) = Ok p ->
  0 <= file -> 0 <= cap -> 0 <= existing -> 0 <= maxEnd ->
  0 < cap /\ computeLeafCount mode2 (Some (int k)) (Some (int m)) = Ok (pl_leafCount p)
  /\ (plannable file cap (pl_leafCount p) existing maxEnd ->
      let total := existing + mdus file cap in
      let witnesses := Z.max 1 (mdus (pl_leafCount p * 48 * total) cap) in
      pl_newUserMdus p = mdus file cap /\ pl_totalUserMdus p = total
      /\ pl_totalFileBytes p = existing * cap + file
      /\ pl_witnessMduCount p = witnesses /\ pl_totalMdus p = 1 + witnesses + total
      /\ pl_witnessPayloads p
         = witnessLoop cap (pl_leafCount p * 48 * total) (Z.to_nat witnesses)
      /\ pl_userPayloads p = map (payloadOf cap maxEnd) (seqZ 0 existing)
                             ++ map (payloadOf cap file) (seqZ 0 (mdus file cap))
      /\ buildUploadShardItems (int total) (int witnesses) = Ok (pl_shardItems p)).
Proof.
  intros H Hf Hc He Hme. unfold buildUploadPlan, upload_input in H.
  cbn [in_fileBytes in_rawMduCapacity in_useMode2 in_rsK in_rsM in_existingUserMdus in_existingMaxEnd] in H.
  ok_step H. ok_step H. ok_step H. ok_step H. ok_step H. ok_step H. ok_step H.
  apply planner_int in Hv, Hv0, Hv1, Hv2; [|done..]. subst v v0 v1 v2.
  injection H as <-. bool_to_prop. split; [lia|]. split; [done|]. cbn [pl_leafCount]. intros [].
  destruct (mdus_bounds file cap Hf ltac:(lia)) as (Hn & _ & _).
  assert (Hceil : forall b, safe b -> ceil_div b cap = mdus b cap) by (intros; apply ceil_div_exact; [done|lia]).
  rewrite (Hceil file) in * by (unfold safe in *; nia).
  rewrite (num_mul_exact existing cap), (num_add_exact (existing * cap) file) in * by (unfold safe in *; nia).
  destruct (mdus_bounds (v3 * 48 * (existing + mdus file cap)) cap) as (Hwn & _ & _); [nia|lia|].
  rewrite (num_add_exact existing (mdus file cap)) in * by (unfold safe in *; nia).
  change WITNESS_COMMITMENT_BYTES with 48 in *. rewrite (num_mul_exact v3 48) in * by done.
  assert (Hw : safe (v3 * 48 * (existing + mdus file cap))) by (unfold safe in *; nia).
  rewrite (num_mul_exact (v3 * 48)) in * by done.
  rewrite (num_mul_exact (existing + mdus file cap)) in * by (by rewrite Z.mul_comm).
  rewrite (Z.mul_comm (existing + mdus file cap) (v3 * 48)) in *. rewrite (Hceil _ Hw) in *.
  cbn [pl_newUserMdus pl_totalUserMdus pl_totalFileBytes pl_witnessMduCount pl_totalMdus
       pl_witnessPayloads pl_userPayloads pl_shardItems]. cbv zeta.
  rewrite (num_add_exact 1) by (unfold safe in *; lia).
  rewrite num_add_exact by (unfold safe in *; lia). done.
Qed.

(** ** Theorems *)

(** An upload plan accounts for every byte: the payloads of the new user MDUs add
    up to the file, those of the witness MDUs to 48 bytes per leaf of every user
    MDU, none exceeds the capacity, there are as many as the plan counts, and the
    items numbered for the upload are 0, 1, ... up to the last MDU. *)
Theorem upload_plan_partitions file cap mode2 k m existing maxEnd p :
  buildUploadPlan (upload_input file cap mode2 k m existing maxEnd) = Ok p ->
  0 <= cap -> plannable file cap (pl_leafCount p) existing maxEnd ->
  zsum (drop (Z.to_nat existing) (pl_userPayloads p)) = file
  /\ zsum (pl_witnessPayloads p) = pl_leafCount p * 48 * pl_totalUserMdus p
  /\ Forall (fun b => 0 <= b <= cap) (pl_userPayloads p ++ pl_witnessPayloads p)
  /\ Z.of_nat (length (pl_userPayloads p)) = pl_totalUserMdus p
  /\ Z.of_nat (length (pl_witnessPayloads p)) = pl_witnessMduCount p
  /\ map item_id (pl_shardItems p) = seqZ 0 (pl_totalMdus p).
Proof.
  intros H Hc Hp. destruct (buildUploadPlan_Ok _ _ _ _ _ _ _ _ H) as (Hcap & _ & Hall); [by destruct Hp..|].
  specialize (Hall Hp). cbv zeta in Hall.
  destruct Hall as (Hnew & Htot & _ & Hwc & Hmd & Hwp & Hup & Hitems). destruct Hp.
  destruct (mdus_bounds file cap pb_file0 Hcap) as (Hn0 & Hn1 & Hn2).
  set (total := existing + mdus file cap) in *. set (w := pl_leafCount p * 48 * total) in *.
  assert (Hw0 : 0 <= w) by (unfold w, total; nia).
  destruct (mdus_bounds w cap Hw0 Hcap) as (Hm0 & Hm1 & _).
  destruct (witnessLoop_spec cap (Z.to_nat (Z.max 1 (mdus w cap))) w) as (Hl & Hf & Hz);
    [lia | unfold safe in *; lia | nia |].
  rewrite Hup, Hwp, Hwc, Htot, Hmd.
  rewrite drop_app_length' by (rewrite length_map, length_seqZ; lia).
  rewrite <- (Z2Nat.id (mdus file cap)) at 1 by lia.
  rewrite payloads_sum by (unfold safe in *; nia). rewrite Z2Nat.id by lia.
  split; [lia|]. split; [done|]. split.
  { rewrite !Forall_app. split_and!; [..|done]; apply payloads_bounded; unfold safe in *; nia. }
  rewrite length_app, !length_map, !length_seqZ, Hl. split_and!; [lia | lia |].
  eapply shard_items; [..|exact Hitems]; unfold safe in *; lia.
Qed.

Definition sample_plan_input : UploadPlannerInput := upload_input 100000 40000 true 8 4 2 70000.

Lemma planned_sample :
  exists p, buildUploadPlan sample_plan_input = Ok p /\ pl_leafCount p = 96
    /\ pl_userPayloads p = [40000; 30000; 40000; 40000; 20000].
Proof. eexists. split; [vm_compute; reflexivity | by split]. Qed.

Lemma upload_plan_partitions_witness :
  exists p, buildUploadPlan sample_plan_input = Ok p
    /\ pl_userPayloads p = [40000; 30000; 40000; 40000; 20000]
    /\ map item_id (pl_shardItems p) = seqZ 0 (pl_totalMdus p).
Proof.
  destruct planned_sample as (p & Hp & Hl & Hu). exists p. split; [exact Hp|]. split; [exact Hu|].
  apply (upload_plan_partitions 100000 40000 true 8 4 2 70000 p Hp); [lia|]. rewrite Hl.
  constructor; vm_compute; try split; discriminate.
Defined.

(** The planner and the layout library agree: for the capacity of a PolyFS MDU the
    user MDUs of a new file are those of [computeUserMduCount], and the witness
    MDUs those of [computeWitnessLayout] for the profile it was given. *)
Theorem planner_agrees_with_layout file k m existing maxEnd p c l :
  buildUploadPlan (upload_input file RAW_MDU_CAPACITY_BYTES true k m existing maxEnd) = Ok p ->
  plannable file RAW_MDU_CAPACITY_BYTES (pl_leafCount p) existing maxEnd ->
  computeUserMduCount (int file) (int RAW_MDU_CAPACITY_BYTES) = Ok c ->
  computeWitnessLayout (int (existing + c)) (int k) (int m) None = Ok l ->
  pl_newUserMdus p = c /\ pl_witnessMduCount p = witnessMduCount l.
Proof.
  intros H Hp Hc Hl. assert (0 <= RAW_MDU_CAPACITY_BYTES) by by vm_compute.
  destruct (buildUploadPlan_Ok _ _ _ _ _ _ _ _ H) as (_ & Hleaf & Hall); [by destruct Hp..|].
  specialize (Hall Hp). cbv zeta in Hall. destruct Hall as (Hnew & _ & _ & Hw & _).
  assert (Hn : c = mdus file RAW_MDU_CAPACITY_BYTES).
  { unfold computeUserMduCount in Hc. ok_step Hc. ok_step Hc.
    apply asNonNegativeInteger_int_Ok in Hv as [-> Hs], Hv0 as [-> _].
    destruct (Z.eqb_spec file 0) as [->|]; [by injection Hc as <-|]. ok_steps Hc.
    by rewrite ceil_div_exact. }
  destruct (witness_layout_value _ _ _ _ Hl) as (Hk & Hm & Hkm & _ & _ & ->).
  destruct (mode2_leafCount k m _ Hk Hm ltac:(unfold safe, MAX_SAFE_INTEGER; lia) Hleaf) as [_ Hlc].
  split; [congruence|]. rewrite Hw, Hlc, Hn. unfold mdus at 1. change BLOBS_PER_MDU with 64.
  change KZG_COMMITMENT_BYTES with 48. do 4 f_equal. ring.
Qed.

Lemma planner_agrees_with_layout_witness :
  exists p, buildUploadPlan (upload_input 20000000 RAW_MDU_CAPACITY_BYTES true 8 4 1 5) = Ok p
    /\ pl_newUserMdus p = 3 /\ pl_witnessMduCount p = 1.
Proof.
  eexists. split; [vm_compute; reflexivity|].
  apply (planner_agrees_with_layout 20000000 8 4 1 5 _ 3
    {| wl_profile := {| sp_k := 8; sp_m := 4; sp_n := 12; sp_rows := 8; sp_leafCount := 96 |};
       witnessBytesPerUserMdu := 4608; totalWitnessBytes := 18432; witnessMduCount := 1;
       wl_rawMduCapacityBytes := 8126464 |});
    [vm_compute; reflexivity | | vm_compute; reflexivity | vm_compute; reflexivity].
  constructor; vm_compute; try split; discriminate.
Defined.
