(* ===== verification/FileTable.v ===== *)
(** * The file table

    Models src/polystore-website/src/lib/polyfsLocal.ts and polyfsPath.ts: MDU 0 of a
    deal holds a table of root cells and, packed 31 bytes to a scalar, a header and
    the file records; [parsePolyfsRecordsFromMdu0] reads it.  Also the
    reconstruction of an MDU from the slices of its slots, and the comparison of a
    digest with a root cell.

    A path is the list of its code points (Utf8.v).  A file record keeps the exact
    integers it has on the wire. *)

From S2P Require Import Prelude JsMap JsNumber JsBytes Layout Utf8.
Local Open Scope Z_scope.

Definition POLYFS_RECORD_PATH_MAX_BYTES : Z := 232.
Definition FILE_TABLE_START : Z := 16 * BLOB_SIZE_BYTES.
Definition FILE_TABLE_HEADER_SIZE : Z := 128.
Definition FILE_RECORD_SIZE : Z := 256.

(** The order of the scalar field, big endian. *)
Definition FR : bytes :=
  [0x73; 0xed; 0xa7; 0x53; 0x29; 0x9d; 0x7d; 0x48; 0x33; 0x39; 0xd8; 0x08; 0x09; 0xa1; 0xd8; 0x05;
   0x53; 0xbd; 0xa4; 0x02; 0xff; 0xfe; 0x5b; 0xfe; 0xff; 0xff; 0xff; 0xff; 0x00; 0x00; 0x00; 0x01].

(** ** Paths *)

(** The code points with the property White_Space. *)
Definition white_space (c : Z) : bool :=
  ((9 <=? c) && (c <=? 13)) || (c =? 32) || (c =? 0x85) || (c =? 0xa0) || (c =? 0x1680)
  || ((0x2000 <=? c) && (c <=? 0x200a)) || (c =? 0x2028) || (c =? 0x2029) || (c =? 0x202f)
  || (c =? 0x205f) || (c =? 0x3000).

(** [value.split('/')] *)
Fixpoint split_slash (l : list Z) : list (list Z) :=
  match l with
  | [] => [[]]
  | c :: l =>
      if c =? 47 then [] :: split_slash l
      else match split_slash l with
           | part :: parts => (c :: part) :: parts
           | [] => [[c]]
           end
  end.

(** Backslash and the control characters. *)
Definition forbidden_char (c : Z) : bool :=
  (c =? 92) || ((0 <=? c) && (c <=? 0x1f)) || (c =? 0x7f).

Definition validatePolyfsRecordPath (value : list Z) : result (list Z) :=
  throw_if match value with
           | [] => true
           | c :: _ => white_space c || white_space (List.last value 0)
           end with "PolyFS path is empty or has outer whitespace" else
  let encoded := utf8_encode value in
  throw_if (POLYFS_RECORD_PATH_MAX_BYTES <? blen encoded)
           || negb (bool_decide (utf8_decode encoded = Some value))
    with "PolyFS path must be valid UTF-8 of at most 232 bytes" else
  throw_if (List.hd 0 value =? 47) || existsb forbidden_char value
           || bool_decide ([46; 46] ∈ split_slash value)
    with "invalid PolyFS path" else
  Ok value.

(** ** Reading the table *)

Definition requireMdu0 (mdu0 : bytes) : result unit :=
  throw_if negb (blen mdu0 =? MDU_SIZE_BYTES) with "invalid MDU0 size" else Ok tt.

(** The place of byte [logical] of the table. *)
Definition fat_position (logical : Z) : Z :=
  FILE_TABLE_START + floor_div logical 31 * 32 + 1 + Z.rem logical 31.

Definition readPolyfsFatRange (mdu0 : bytes) (offset len : number) : result bytes :=
  let! _ := requireMdu0 mdu0 in
  let! offset := asNonNegativeInteger offset "FAT offset" in
  let! len := asNonNegativeInteger len "FAT length" in
  throw_if (POLYFS_FAT_LOGICAL_BYTES <? offset) || (POLYFS_FAT_LOGICAL_BYTES - offset <? len)
    with "FAT range out of bounds" else
  Ok (tabulate len (fun i => get mdu0 (fat_position (offset + i)))).

(** [for (let i = 0; i < 32; i++)]: the first difference of a cell and [FR]. *)
Fixpoint cellComparison (mdu0 : bytes) (off : Z) (n : nat) (i comparison : Z) : Z :=
  match n with
  | O => comparison
  | S n =>
      let comparison := get mdu0 (off + i) - get FR i in
      if comparison =? 0 then cellComparison mdu0 off n (i + 1) comparison else comparison
  end.

Definition validateRootCells (mdu0 : bytes) : result unit :=
  for_range (Z.to_nat (FILE_TABLE_START / 32)) 0 (fun cell =>
    throw_if 0 <=? cellComparison mdu0 (cell * 32) 32 0 0
      with "noncanonical root-table scalar" else Ok tt).

Definition validateAuthenticatedMdu0Structure (mdu0 : bytes) (count : number) : result unit :=
  let! _ := requireMdu0 mdu0 in
  let! _ := validateRootCells mdu0 in
  let! _ := for_range (Z.to_nat ((blen mdu0 - FILE_TABLE_START) / 32)) 0 (fun scalar =>
              throw_if negb (get mdu0 (FILE_TABLE_START + scalar * 32) =? 0)
                with "nonzero FAT scalar reserved byte" else Ok tt) in
  let! count := asNonNegativeInteger count "FAT record count" in
  throw_if POLYFS_FILE_RECORD_CAPACITY <? count with "FAT record count exceeds capacity" else
  let end_ := FILE_TABLE_HEADER_SIZE + count * FILE_RECORD_SIZE in
  let physicalEnd := fat_position end_ in
  for_range (Z.to_nat (blen mdu0 - physicalEnd)) physicalEnd (fun i =>
    throw_if negb (get mdu0 i =? 0) with "nonzero FAT padding" else Ok tt).

(** [view.getUint16(at, true)] and the like. *)
Definition little_endian (l : bytes) : Z := foldr (fun b n => b + 256 * n) 0 l.

Definition validatedRecordCount (mdu0 : bytes) : result Z :=
  let! _ := requireMdu0 mdu0 in
  let! header := readPolyfsFatRange mdu0 (int 0) (int FILE_TABLE_HEADER_SIZE) in
  match utf8_decode (subarray header 0 4) with
  | None => Err "The encoded data was not valid for encoding utf-8"
  | Some magic =>
      throw_if negb (bool_decide (magic = [78; 73; 76; 70])) || negb (get header 4 =? 2)
               || negb (get header 5 =? 0)
               || negb (little_endian (subarray header 6 8) =? FILE_RECORD_SIZE)
               || existsb (fun v => negb (v =? 0)) (drop 12 header)
        with "invalid or unsupported FAT v2 header; legacy recovery must be explicit" else
      Ok (little_endian (subarray header 8 12))
  end.

Record PolyfsFileRecord := {
  fr_path : list Z; fr_start_offset : Z; fr_size_bytes : Z; fr_timestamp : Z; fr_flags : Z }.

(** [bytes.indexOf(0)] *)
Fixpoint index_of_zero (l : bytes) : option nat :=
  match l with
  | [] => None
  | b :: l => if b =? 0 then Some 0%nat else S <$> index_of_zero l
  end.

Definition decodePolyfsFileRecord (bs : bytes) : result PolyfsFileRecord :=
  throw_if negb (blen bs =? FILE_RECORD_SIZE) with "invalid file record size" else
  let start := little_endian (subarray bs 0 8) in
  let packed := little_endian (subarray bs 8 16) in
  let size := Z.land packed 0xffffffffffffff in
  throw_if 0xffffffffffffffff <? start + size with "file extent overflow" else
  let pathBytes := drop 24 bs in
  let terminator := index_of_zero pathBytes in
  throw_if match terminator with
           | Some t => existsb (fun v => negb (v =? 0)) (drop t pathBytes)
           | None => false
           end with "nonzero file path suffix" else
  match utf8_decode (match terminator with Some t => take t pathBytes | None => pathBytes end) with
  | None => Err "The encoded data was not valid for encoding utf-8"
  | Some path =>
      let! _ := if bool_decide (path = []) then Ok path else validatePolyfsRecordPath path in
      Ok {| fr_path := path; fr_start_offset := start; fr_size_bytes := size;
            fr_timestamp := little_endian (subarray bs 16 24); fr_flags := Z.shiftr packed 56 |}
  end.

(** [for (let i = 0; i < count; i++)]: [n] records are left. *)
Fixpoint recordLoop (mdu0 : bytes) (n : nat) (i : Z) (paths : list (list Z))
    : result (list PolyfsFileRecord) :=
  match n with
  | O => Ok []
  | S n =>
      let! bs := readPolyfsFatRange mdu0 (int (FILE_TABLE_HEADER_SIZE + i * FILE_RECORD_SIZE))
                   (int FILE_RECORD_SIZE) in
      let! record := decodePolyfsFileRecord bs in
      throw_if negb (bool_decide (fr_path record = [])) && bool_decide (fr_path record ∈ paths)
        with "duplicate active file path" else
      let paths := if bool_decide (fr_path record = []) then paths else fr_path record :: paths in
      let! records := recordLoop mdu0 n (i + 1) paths in
      Ok (record :: records)
  end.

Definition parsePolyfsRecordsFromAuthenticatedMdu0 (mdu0 : bytes) (count : number)
    : result (list PolyfsFileRecord) :=
  let! _ := validateAuthenticatedMdu0Structure mdu0 count in
  recordLoop mdu0 (Z.to_nat (num_int count)) 0 [].

Definition parsePolyfsRecordsFromMdu0 (mdu0 : bytes) : result (list PolyfsFileRecord) :=
  let! count := validatedRecordCount mdu0 in
  parsePolyfsRecordsFromAuthenticatedMdu0 mdu0 (int count).

(** [start_offset] and [size_bytes] are numbers here. *)
Record PolyfsFileEntry := {
  fe_path : list Z; fe_start_offset : Z; fe_size_bytes : Z; fe_flags : Z }.

Fixpoint fileEntries (records : list PolyfsFileRecord) : result (list PolyfsFileEntry) :=
  match records with
  | [] => Ok []
  | record :: records =>
      if bool_decide (fr_path record = []) then fileEntries records else
      let! start := asNonNegativeInteger (int (Number (fr_start_offset record))) "start offset" in
      let! size := asNonNegativeInteger (int (Number (fr_size_bytes record))) "file size" in
      let! _ := asNonNegativeInteger (int (num_add start size)) "file end" in
      let! files := fileEntries records in
      Ok ({| fe_path := fr_path record; fe_start_offset := start; fe_size_bytes := size;
             fe_flags := fr_flags record |} :: files)
  end.

Definition parsePolyfsFilesFromMdu0 (mdu0 : bytes) : result (list PolyfsFileEntry) :=
  let! records := parsePolyfsRecordsFromMdu0 mdu0 in fileEntries records.

Definition parsePolyfsRootTableFromMdu0 (mdu0 : bytes) (count : number) : result (list bytes) :=
  let! _ := requireMdu0 mdu0 in
  let! count := asNonNegativeInteger count "root count" in
  throw_if POLYFS_ROOT_TABLE_CAPACITY <? count with "root count exceeds capacity" else
  let! _ := validateRootCells mdu0 in
  Ok (map (fun i => subarray mdu0 (i * 32) ((i + 1) * 32)) (seqZ 0 count)).

(** ** Slots *)

Definition mode2RowsForK (k : number) : result Z :=
  let! normalized := asNonNegativeInteger k "k" in
  throw_if (normalized =? 0) || negb (Z.rem 64 normalized =? 0)
    with "invalid Mode 2 K: " +:+ pretty normalized else
  Ok (Z.quot 64 normalized).

Record SlotSlice := { sl_slot : number; sl_data : bytes }.

Fixpoint collectSlots (k expectedSliceBytes : Z) (l : list SlotSlice) (bySlot : list (Z * bytes))
    : result (list (Z * bytes)) :=
  match l with
  | [] => Ok bySlot
  | slice :: l =>
      let! slot := asNonNegativeInteger (sl_slot slice) "slot" in
      throw_if (k <=? slot) || mhas bySlot slot with "invalid or duplicate data slot" else
      throw_if negb (blen (sl_data slice) =? expectedSliceBytes)
        with "invalid Mode 2 slot slice for slot " +:+ pretty slot +:+ ": expected "
             +:+ pretty expectedSliceBytes +:+ " bytes" else
      collectSlots k expectedSliceBytes l (mset bySlot slot (sl_data slice))
  end.

(** The two loops that copy the blobs, row by row. *)
Fixpoint copySlots (k row : Z) (bySlot : list (Z * bytes)) (n : nat) (slot : Z) (mdu : bytes)
    : result bytes :=
  match n with
  | O => Ok mdu
  | S n =>
      let shard := default [] (mget bySlot slot) in
      let shardOff := row * BLOB_SIZE_BYTES in
      let! mdu := set_at mdu (subarray shard shardOff (shardOff + BLOB_SIZE_BYTES))
                    ((row * k + slot) * BLOB_SIZE_BYTES) in
      copySlots k row bySlot n (slot + 1) mdu
  end.
Fixpoint copyRows (k : Z) (bySlot : list (Z * bytes)) (n : nat) (row : Z) (mdu : bytes)
    : result bytes :=
  match n with
  | O => Ok mdu
  | S n => let! mdu := copySlots k row bySlot (Z.to_nat k) 0 mdu in
           copyRows k bySlot n (row + 1) mdu
  end.

Definition reconstructMduFromMode2SlotSlices (slotSlices : list SlotSlice) (k : number)
    : result bytes :=
  let! rows := mode2RowsForK k in
  let k := num_int k in
  let expectedSliceBytes := rows * BLOB_SIZE_BYTES in
  let! bySlot := collectSlots k expectedSliceBytes slotSlices [] in
  let! _ := for_range (Z.to_nat k) 0 (fun slot =>
              throw_if negb (mhas bySlot slot)
                with "missing Mode 2 slot slice for slot " +:+ pretty slot else Ok tt) in
  copyRows k bySlot (Z.to_nat rows) 0 (zeros MDU_SIZE_BYTES).

(** ** Root cells *)

Definition big_endian (l : bytes) : Z := foldl (fun n b => Z.lor (Z.shiftl n 8) b) 0 l.

Definition assertPolyfsRootCell (digest cell : bytes) : result unit :=
  throw_if negb (blen digest =? 32) || negb (blen cell =? 32) with "invalid root identity" else
  let modulus := big_endian FR in
  let expected := big_endian cell in
  throw_if (modulus <=? expected) || negb (Z.rem (big_endian digest) modulus =? expected)
    with "MDU does not match authenticated root-table cell" else
  Ok tt.

(** ** What the table is compared with *)

Fixpoint le_bytes (n : nat) (v : Z) : bytes :=
  match n with O => [] | S n => v mod 256 :: le_bytes n (v / 256) end.

(** A record on the wire. *)
Definition record_bytes (r : PolyfsFileRecord) : bytes :=
  let path := utf8_encode (fr_path r) in
  le_bytes 8 (fr_start_offset r) ++ le_bytes 8 (fr_size_bytes r + fr_flags r * 2 ^ 56)
  ++ le_bytes 8 (fr_timestamp r) ++ path ++ zeros (232 - blen path).

Definition table_header (count : Z) : bytes :=
  [78; 73; 76; 70; 2; 0; 0; 1] ++ le_bytes 4 count ++ zeros 116.

Definition table_bytes (records : list PolyfsFileRecord) : bytes :=
  table_header (Z.of_nat (length records)) ++ concat (map record_bytes records).

(** MDU 0 with the given root cells and records, and zeros everywhere else. *)
Definition write_mdu0 (roots : bytes) (records : list PolyfsFileRecord) : bytes :=
  tabulate MDU_SIZE_BYTES (fun i =>
    if i <? FILE_TABLE_START then get roots i else
    let i := i - FILE_TABLE_START in
    if i mod 32 =? 0 then 0 else get (table_bytes records) (i / 32 * 31 + i mod 32 - 1)).

Record record_ok (r : PolyfsFileRecord) : Prop := {
  ro_start : 0 <= fr_start_offset r; ro_size : 0 <= fr_size_bytes r < 2 ^ 56;
  ro_end : fr_start_offset r + fr_size_bytes r < 2 ^ 64;
  ro_timestamp : 0 <= fr_timestamp r < 2 ^ 64; ro_flags : 0 <= fr_flags r < 256;
  ro_path : fr_path r = [] \/ validatePolyfsRecordPath (fr_path r) = Ok (fr_path r) }.

Definition active_paths (records : list PolyfsFileRecord) : list (list Z) :=
  filter (fun p => p <> []) (map fr_path records).

Record table_ok (records : list PolyfsFileRecord) : Prop := {
  to_count : Z.of_nat (length records) <= POLYFS_FILE_RECORD_CAPACITY;
  to_records : Forall record_ok records;
  to_paths : NoDup (active_paths records) }.

(** Every root cell is below the order of the field. *)
Definition canonical_roots (roots : bytes) : Prop :=
  forall cell, 0 <= cell < 65536 ->
    big_endian (subarray roots (cell * 32) (cell * 32 + 32)) < big_endian FR.

(** ** Lemmas: integers *)

Lemma length_le_bytes n v : length (le_bytes n v) = n.
Proof. revert v. induction n; intros v; cbn; auto. Qed.

Lemma blen_le_bytes n v : blen (le_bytes n v) = Z.of_nat n.
Proof. unfold blen. by rewrite length_le_bytes. Qed.

Lemma little_endian_bound l : Forall byte_ok l -> 0 <= little_endian l < 256 ^ blen l.
Proof.
  unfold byte_ok, blen. induction 1 as [|b l Hb Hl IH]; [cbn; lia|]. cbn [little_endian foldr length].
  fold (little_endian l). rewrite Nat2Z.inj_succ, Z.pow_succ_r by lia. lia.
Qed.

Lemma le_bytes_little_endian l : Forall byte_ok l -> le_bytes (length l) (little_endian l) = l.
Proof.
  unfold byte_ok. induction 1 as [|b l Hb Hl IH]; [done|]. cbn [little_endian foldr length le_bytes].
  fold (little_endian l). f_equal; [div_lia_linear|].
  replace ((b + 256 * little_endian l) / 256) with (little_endian l) by div_lia_linear. done.
Qed.

Lemma little_endian_le_bytes n v : 0 <= v < 256 ^ Z.of_nat n -> little_endian (le_bytes n v) = v.
Proof.
  revert v. induction n as [|n IH]; intros v Hv; [cbn in *; lia|].
  cbn [le_bytes little_endian foldr]. fold (little_endian (le_bytes n (v / 256))).
  rewrite Nat2Z.inj_succ, Z.pow_succ_r in Hv by lia. rewrite IH by div_lia_linear. div_lia_linear.
Qed.

Lemma le_bytes_ok n v : Forall byte_ok (le_bytes n v).
Proof.
  revert v. induction n; intros v; cbn; constructor; [|done]. unfold byte_ok. by apply Z.mod_pos_bound.
Qed.

(** ** Lemmas: paths *)

Lemma utf8_encode_nonzero cs : Forall scalar_value cs -> 0 ∉ cs -> 0 ∉ utf8_encode cs.
Proof.
  induction 1 as [|c cs Hc Hcs IH]; intros Hnz; [done|]. apply not_elem_of_cons in Hnz as [Hz Hnz].
  unfold utf8_encode. cbn [map concat]. fold (utf8_encode cs). rewrite elem_of_app.
  intros [Hin|Hin]; [|by apply IH]. unfold scalar_value in Hc. unfold utf8_char in Hin.
  repeat case_match; bool_to_prop; repeat (apply elem_of_cons in Hin as [Hin|Hin]; [div_lia_linear|]);
    by apply elem_of_nil in Hin.
Qed.

Lemma valid_path p q :
  validatePolyfsRecordPath p = Ok q ->
  q = p /\ Forall scalar_value p /\ (0 ∉ p) /\ blen (utf8_encode p) <= 232 /\ p <> [].
Proof.
  unfold validatePolyfsRecordPath. intros H. destruct (match p with [] => _ | _ => _ end) eqn:Hw in H; [done|].
  cbv zeta in H. ok_steps H. apply orb_false_elim in Hg as [Hl Hd].
  apply negb_false_iff, bool_decide_eq_true_1 in Hd. apply utf8_decode_iff in Hd as [Hs _].
  apply orb_false_elim in Hg0 as [Hg0 _]. apply orb_false_elim in Hg0 as [_ Hf].
  split_and!; [done | done | | by apply Z.ltb_ge in Hl | by intros ->].
  intros Hin. rewrite <- not_true_iff_false in Hf. apply Hf, existsb_exists. exists 0.
  split; [by apply list_elem_of_In | done].
Qed.

Lemma index_of_zero_None l : index_of_zero l = None -> 0 ∉ l.
Proof.
  induction l as [|b l IH]; [by intros _ ?%elem_of_nil|]. cbn [index_of_zero].
  destruct (Z.eqb_spec b 0); [done|]. destruct (index_of_zero l); [done|].
  intros _ [?|?]%elem_of_cons; [lia | by apply IH].
Qed.

Lemma index_of_zero_Some l t : index_of_zero l = Some t -> (t < length l)%nat /\ (0 ∉ take t l).
Proof.
  revert t. induction l as [|b l IH]; intros t; [done|]. cbn [index_of_zero].
  destruct (Z.eqb_spec b 0); [intros [= <-]; split; [cbn; lia | by intros ?%elem_of_nil]|].
  intros (u & Hu & ->)%fmap_Some. destruct (IH u Hu) as [Hlt Hnz]. cbn [length take].
  split; [lia|]. intros [?|?]%elem_of_cons; [lia | done].
Qed.

Lemma index_of_zero_app l n :
  0 ∉ l -> index_of_zero (l ++ replicate n 0) = match n with O => None | S _ => Some (length l) end.
Proof.
  induction l as [|b l IH]; intros Hnz; [by destruct n|]. apply not_elem_of_cons in Hnz as [Hb Hnz].
  cbn [app index_of_zero length]. rewrite (proj2 (Z.eqb_neq _ _)) by done. rewrite IH by done. by destruct n.
Qed.

Lemma all_zero l : existsb (fun v => negb (v =? 0)) l = false <-> l = replicate (length l) 0.
Proof.
  induction l as [|b l IH]; [done|]. cbn [existsb length replicate]. rewrite orb_false_iff, IH.
  destruct (Z.eqb_spec b 0) as [->|]; cbn [negb]; split; [by intros [_ <-] | | by intros [? _] |].
  - intros [= ->]. by rewrite length_replicate.
  - intros [= ??]. done.
Qed.

(** The path field: what is before the first zero, and zeros. *)
Definition path_field (l : bytes) : option (list Z) :=
  let terminator := index_of_zero l in
  if match terminator with
     | Some t => existsb (fun v => negb (v =? 0)) (drop t l)
     | None => false
     end then None
  else utf8_decode (match terminator with Some t => take t l | None => l end).

Lemma path_field_Some l path :
  blen l = 232 -> path_field l = Some path ->
  Forall scalar_value path /\ l = utf8_encode path ++ zeros (232 - blen (utf8_encode path)).
Proof.
  unfold path_field, blen, zeros. intros Hl H. destruct (index_of_zero l) as [t|] eqn:Ht.
  - destruct (existsb _ _) eqn:Hz; [done|]. apply all_zero in Hz.
    apply utf8_decode_iff in H as [Hs He]. split; [done|].
    apply index_of_zero_Some in Ht as [Hlt _]. rewrite <- He, length_take.
    rewrite <- (take_drop t l) at 1. f_equal. rewrite Hz, length_drop. f_equal. lia.
  - apply utf8_decode_iff in H as [Hs He]. split; [done|]. rewrite <- He, Hl. by rewrite app_nil_r.
Qed.

Lemma path_field_encode path :
  Forall scalar_value path -> 0 ∉ path -> blen (utf8_encode path) <= 232 ->
  path_field (utf8_encode path ++ zeros (232 - blen (utf8_encode path))) = Some path.
Proof.
  intros Hs Hnz Hl. unfold path_field, zeros. pose proof (utf8_encode_nonzero path Hs Hnz) as Hz.
  rewrite index_of_zero_app by done. destruct (Z.to_nat _) as [|n].
  - rewrite app_nil_r. by apply utf8_decode_encode.
  - rewrite drop_app_length, (proj2 (all_zero _)) by (by rewrite length_replicate).
    rewrite take_app_length. by apply utf8_decode_encode.
Qed.

(** ** Lemmas: records *)

Lemma Forall_subarray (P : Z -> Prop) l a b : Forall P l -> Forall P (subarray l a b).
Proof. intros. by apply Forall_take, Forall_drop. Qed.

Lemma le_bytes_subarray l a n :
  Forall byte_ok l -> 0 <= a -> a + Z.of_nat n <= blen l ->
  le_bytes n (little_endian (subarray l a (a + Z.of_nat n))) = subarray l a (a + Z.of_nat n).
Proof.
  intros Hb Ha Hn.
  assert (Hl : length (subarray l a (a + Z.of_nat n)) = n)
    by (pose proof (blen_subarray l a (a + Z.of_nat n) Ha ltac:(lia)); unfold blen in *; lia).
  rewrite <- Hl at 1. by apply le_bytes_little_endian, Forall_subarray.
Qed.

Lemma subarray_cut l a b c : 0 <= a -> a <= b -> b <= c ->
  subarray l a c = subarray l a b ++ subarray l b c.
Proof.
  intros. unfold subarray. rewrite <- (take_drop (Z.to_nat (b - a)) (take (Z.to_nat (c - a)) _)).
  rewrite take_take, skipn_firstn_comm, drop_drop. f_equal; [f_equal; lia|]. do 2 f_equal; lia.
Qed.

Lemma record_split bs :
  blen bs = 256 ->
  bs = subarray bs 0 8 ++ subarray bs 8 16 ++ subarray bs 16 24 ++ drop 24 bs.
Proof.
  intros Hl. rewrite <- (subarray_all bs 256) at 1 by lia.
  rewrite (subarray_cut bs 0 8), (subarray_cut bs 8 16), (subarray_cut bs 16 24) by lia.
  do 3 f_equal. unfold subarray, blen in *. apply take_ge. rewrite length_drop. lia.
Qed.

Lemma split_packed v : 0 <= v < 2 ^ 64 ->
  0 <= Z.land v 0xffffffffffffff < 2 ^ 56 /\ 0 <= Z.shiftr v 56 < 256
  /\ v = Z.land v 0xffffffffffffff + Z.shiftr v 56 * 2 ^ 56.
Proof.
  intros Hv. change 0xffffffffffffff with (Z.ones 56). rewrite Z.land_ones, Z.shiftr_div_pow2 by lia.
  div_lia_linear.
Qed.

Lemma join_packed size flags : 0 <= size < 2 ^ 56 -> 0 <= flags < 256 ->
  Z.land (size + flags * 2 ^ 56) 0xffffffffffffff = size
  /\ Z.shiftr (size + flags * 2 ^ 56) 56 = flags /\ 0 <= size + flags * 2 ^ 56 < 2 ^ 64.
Proof.
  intros Hs Hf. change 0xffffffffffffff with (Z.ones 56). rewrite Z.land_ones, Z.shiftr_div_pow2 by lia.
  split_and!; div_lia_linear.
Qed.

Lemma decode_record_Ok bs r :
  Forall byte_ok bs -> decodePolyfsFileRecord bs = Ok r -> record_ok r /\ bs = record_bytes r.
Proof.
  intros Hb H. unfold decodePolyfsFileRecord in H. ok_step H. cbv zeta in H. ok_step H.
  apply negb_false_iff, Z.eqb_eq in Hg. change FILE_RECORD_SIZE with 256 in Hg.
  set (size := Z.land _ _) in *.
  destruct (match index_of_zero (drop 24 bs) with Some _ => _ | None => false end) eqn:Hsuf in H; [done|].
  destruct (utf8_decode _) as [path|] eqn:Hp in H; [|done].
  assert (Hpf : path_field (drop 24 bs) = Some path) by (unfold path_field; by rewrite Hsuf).
  apply path_field_Some in Hpf as [Hs Hpath]; [|unfold blen in *; rewrite length_drop; lia].
  assert (forall a, 0 <= a -> a + 8 <= 256 -> 0 <= little_endian (subarray bs a (a + 8)) < 2 ^ 64) as Hbound.
  { intros a Ha Ha'. pose proof (little_endian_bound (subarray bs a (a + 8)) (Forall_subarray _ _ _ _ Hb)) as Hle.
    rewrite blen_subarray in Hle by lia. replace (a + 8 - a) with 8 in Hle by lia. exact Hle. }
  destruct (split_packed (little_endian (subarray bs 8 16)) (Hbound 8 ltac:(lia) ltac:(lia))) as (Hsz & Hfl & Hpk).
  apply bind_Ok in H as (q & Hv & H). injection H as <-. split.
  - constructor; cbn.
    + apply (Hbound 0); lia.
    + exact Hsz.
    + bool_to_prop. fold size. lia.
    + apply (Hbound 16); lia.
    + exact Hfl.
    + destruct (bool_decide (path = [])) eqn:Hn; [left; by apply bool_decide_eq_true_1 in Hn|].
      right. by destruct (valid_path _ _ Hv) as [-> _].
  - unfold record_bytes. cbn [fr_path fr_start_offset fr_size_bytes fr_timestamp fr_flags].
    unfold size. rewrite <- Hpk, <- Hpath.
    assert (H8 : forall a, 0 <= a -> a + 8 <= 256 ->
      le_bytes 8 (little_endian (subarray bs a (a + 8))) = subarray bs a (a + 8)).
    { intros a Ha Ha'. apply (le_bytes_subarray bs a 8); [done | lia | lia]. }
    rewrite (H8 0 : _ -> _ -> le_bytes 8 (little_endian (subarray bs 0 8)) = subarray bs 0 8) by lia.
    rewrite (H8 8 : _ -> _ -> le_bytes 8 (little_endian (subarray bs 8 16)) = subarray bs 8 16) by lia.
    rewrite (H8 16 : _ -> _ -> le_bytes 8 (little_endian (subarray bs 16 24)) = subarray bs 16 24) by lia.
    by apply record_split.
Qed.

Lemma record_path r :
  record_ok r -> Forall scalar_value (fr_path r) /\ (0 ∉ fr_path r) /\ blen (utf8_encode (fr_path r)) <= 232.
Proof.
  intros Hr. destruct (ro_path r Hr) as [->|Hv].
  - split_and!; [by apply Forall_nil | by intros ?%elem_of_nil | by vm_compute].
  - by destruct (valid_path _ _ Hv) as (_ & ? & ? & ? & _).
Qed.

Lemma blen_record r : record_ok r -> blen (record_bytes r) = 256.
Proof.
  intros Hr. destruct (record_path r Hr) as (_ & _ & Hl). unfold record_bytes.
  rewrite !blen_app, !blen_le_bytes, blen_zeros by lia. lia.
Qed.

Lemma utf8_char_bytes c : scalar_value c -> Forall byte_ok (utf8_char c).
Proof.
  unfold scalar_value, utf8_char, byte_ok. intros Hc.
  repeat case_match; bool_to_prop; repeat constructor; div_lia_linear.
Qed.

Lemma record_bytes_ok r : record_ok r -> Forall byte_ok (record_bytes r).
Proof.
  intros Hr. destruct (record_path r Hr) as (Hs & _). unfold record_bytes.
  rewrite !Forall_app. split_and!; try apply le_bytes_ok.
  - unfold utf8_encode. apply Forall_concat, Forall_map. eapply Forall_impl; [exact Hs|]. apply utf8_char_bytes.
  - apply Forall_replicate. unfold byte_ok. lia.
Qed.

Lemma record_fields r :
  record_ok r -> let bs := record_bytes r in
  subarray bs 0 8 = le_bytes 8 (fr_start_offset r)
  /\ subarray bs 8 16 = le_bytes 8 (fr_size_bytes r + fr_flags r * 2 ^ 56)
  /\ subarray bs 16 24 = le_bytes 8 (fr_timestamp r)
  /\ drop 24 bs = utf8_encode (fr_path r) ++ zeros (232 - blen (utf8_encode (fr_path r))).
Proof.
  intros Hr bs. unfold bs, record_bytes, subarray. cbn [Z.to_nat Pos.to_nat Z.sub].
  split_and!.
  - cbn [Z.to_nat Pos.to_nat Pos.iter_op Nat.add]. rewrite drop_0. apply take_app_length'.
    by rewrite length_le_bytes.
  - rewrite drop_app_length' by by rewrite length_le_bytes. apply take_app_length'. by rewrite length_le_bytes.
  - rewrite app_assoc, drop_app_length' by by rewrite length_app, !length_le_bytes.
    apply take_app_length'. by rewrite length_le_bytes.
  - rewrite !app_assoc, <- (app_assoc _ (utf8_encode _)).
    apply drop_app_length'. by rewrite !length_app, !length_le_bytes.
Qed.

Lemma decode_record_bytes r : record_ok r -> decodePolyfsFileRecord (record_bytes r) = Ok r.
Proof.
  intros Hr. unfold decodePolyfsFileRecord. rewrite blen_record by done.
  destruct (record_fields r Hr) as (-> & -> & -> & ->). destruct (record_path r Hr) as (Hs & Hz & Hl).
  pose proof (path_field_encode _ Hs Hz Hl) as Hp. unfold path_field in Hp.
  destruct Hr as [H1 H2 H3 H4 H5 H6].
  destruct (join_packed (fr_size_bytes r) (fr_flags r) H2 H5) as (Hsz & Hfl & Hpk).
  rewrite !little_endian_le_bytes by (cbn -[Z.mul Z.add] in *; lia). rewrite Hsz, Hfl. cbv zeta.
  change (256 =? FILE_RECORD_SIZE) with true. cbn [negb].
  rewrite (proj2 (Z.ltb_ge _ _)) by lia.
  destruct (match index_of_zero _ with Some _ => _ | None => _ end) in Hp |- *; [done|]. rewrite Hp.
  assert (exists q, (if bool_decide (fr_path r = []) then Ok (fr_path r)
    else validatePolyfsRecordPath (fr_path r)) = Ok q) as [q ->].
  { destruct (bool_decide _) eqn:Hn; [by eexists|]. destruct H6 as [H6|H6]; [|by eexists].
    by rewrite H6, bool_decide_eq_true_2 in Hn. }
  cbn [bind]. by destruct r.
Qed.

(** ** Lemmas: root cells *)

Lemma lor_byte n b : byte_ok b -> Z.lor (Z.shiftl n 8) b = n * 256 + b.
Proof.
  unfold byte_ok. intros Hb. pose proof (Z.add_lor_land (Z.shiftl n 8) b) as H.
  assert (Hz : Z.land (Z.shiftl n 8) b = 0).
  { apply Z.bits_inj'. intros i Hi. rewrite Z.land_spec, Z.bits_0.
    destruct (Z.ltb_spec i 8); [rewrite Z.shiftl_spec_low by lia; done|].
    apply andb_false_intro2. destruct (Z.eq_dec b 0) as [->|]; [apply Z.bits_0|].
    apply Z.bits_above_log2; [lia|]. apply Z.log2_lt_pow2; [lia|].
    assert (2 ^ 8 <= 2 ^ i) by (apply Z.pow_le_mono_r; lia). change (2 ^ 8) with 256 in *. lia. }
  rewrite Hz in H. rewrite Z.shiftl_mul_pow2 in * by lia. change (2 ^ 8) with 256 in *. lia.
Qed.

(** Reading bytes on, most significant first. *)
Definition read_be (n : Z) (l : bytes) : Z := foldl (fun n b => n * 256 + b) n l.

Lemma big_endian_read l : Forall byte_ok l -> big_endian l = read_be 0 l.
Proof.
  unfold big_endian, read_be. generalize 0. intros n Hl. revert n.
  induction Hl as [|b l Hb Hl IH]; intros n; [done|]. cbn [foldl]. by rewrite lor_byte, IH.
Qed.

Lemma read_be_bound l n :
  Forall byte_ok l -> n * 256 ^ blen l <= read_be n l < (n + 1) * 256 ^ blen l.
Proof.
  unfold byte_ok, blen. intros Hl. revert n. induction Hl as [|b l Hb Hl IH]; intros n; [cbn; lia|].
  cbn [read_be foldl length]. fold (read_be (n * 256 + b) l). specialize (IH (n * 256 + b)).
  rewrite Nat2Z.inj_succ, Z.pow_succ_r by lia. assert (0 < 256 ^ Z.of_nat (length l)) by (apply Z.pow_pos_nonneg; lia).
  nia.
Qed.

Lemma subarray_cons l i n :
  0 <= i -> i + Z.of_nat (S n) <= blen l ->
  subarray l i (i + Z.of_nat (S n)) = get l i :: subarray l (i + 1) (i + 1 + Z.of_nat n).
Proof.
  intros Hi Hn. unfold subarray. pose proof (get_lookup l i ltac:(lia)) as Hg.
  rewrite (drop_S _ _ _ Hg). replace (Z.to_nat (i + Z.of_nat (S n) - i)) with (S n) by lia. cbn [take].
  f_equal. f_equal; [lia|]. f_equal. lia.
Qed.

(** The first difference orders the cell and the field order. *)
Lemma cellComparison_lt mdu0 off n : forall i acc,
  Forall byte_ok mdu0 -> 0 <= off -> 0 <= i -> i + Z.of_nat n <= 32 -> off + 32 <= blen mdu0 ->
  cellComparison mdu0 off n i 0 < 0 <->
  read_be acc (subarray mdu0 (off + i) (off + i + Z.of_nat n))
  < read_be acc (subarray FR i (i + Z.of_nat n)).
Proof.
  induction n as [|n IH]; intros i acc Hb Hoff Hi Hn Hl.
  { cbn [cellComparison]. change (Z.of_nat 0) with 0. rewrite !Z.add_0_r. unfold subarray.
    rewrite !Z.sub_diag. change (Z.to_nat 0) with O. rewrite !take_0. lia. }
  assert (HF : Forall byte_ok FR) by (unfold byte_ok; repeat constructor; lia).
  assert (blen FR = 32) by done.
  rewrite !subarray_cons by lia. cbn [cellComparison read_be foldl].
  fold (read_be (acc * 256 + get mdu0 (off + i)) (subarray mdu0 (off + i + 1) (off + i + 1 + Z.of_nat n))).
  fold (read_be (acc * 256 + get FR i) (subarray FR (i + 1) (i + 1 + Z.of_nat n))).
  destruct (Z.eqb_spec (get mdu0 (off + i) - get FR i) 0) as [He|He].
  - replace (get mdu0 (off + i)) with (get FR i) by lia. rewrite Z.sub_diag.
    rewrite (IH (i + 1) (acc * 256 + get FR i)) by (done || lia).
    replace (off + (i + 1)) with (off + i + 1) by lia. done.
  - pose proof (read_be_bound (subarray mdu0 (off + i + 1) (off + i + 1 + Z.of_nat n))
      (acc * 256 + get mdu0 (off + i)) (Forall_subarray _ _ _ _ Hb)) as H1.
    pose proof (read_be_bound (subarray FR (i + 1) (i + 1 + Z.of_nat n))
      (acc * 256 + get FR i) (Forall_subarray _ _ _ _ HF)) as H2.
    rewrite blen_subarray in H1, H2 by lia.
    replace (off + i + 1 + Z.of_nat n - (off + i + 1)) with (Z.of_nat n) in H1 by lia.
    replace (i + 1 + Z.of_nat n - (i + 1)) with (Z.of_nat n) in H2 by lia.
    assert (0 < 256 ^ Z.of_nat n) by (apply Z.pow_pos_nonneg; lia). nia.
Qed.

Lemma validateRootCells_iff mdu0 :
  Forall byte_ok mdu0 -> blen mdu0 = MDU_SIZE_BYTES ->
  validateRootCells mdu0 = Ok tt <-> canonical_roots mdu0.
Proof.
  intros Hb Hl. unfold validateRootCells, canonical_roots. rewrite for_range_Ok.
  change (FILE_TABLE_START / 32) with 65536. rewrite Z2Nat.id by lia.
  assert (MDU_SIZE_BYTES = 8388608) by done.
  assert (HF : Forall byte_ok FR) by (unfold byte_ok; repeat constructor; lia).
  assert (Hcell : forall cell, 0 <= cell < 65536 ->
    (cellComparison mdu0 (cell * 32) 32 0 0 < 0 <->
     big_endian (subarray mdu0 (cell * 32) (cell * 32 + 32)) < big_endian FR)).
  { intros cell Hc. rewrite !big_endian_read by (done || by apply Forall_subarray).
    rewrite (cellComparison_lt mdu0 (cell * 32) 32 0 0) by (done || lia).
    rewrite Z.add_0_r. by rewrite (subarray_all FR (0 + Z.of_nat 32)) by (vm_compute; discriminate). }
  split; intros H1 cell Hc; specialize (H1 cell Hc); specialize (Hcell cell ltac:(lia)).
  - apply Hcell. destruct (Z.leb_spec 0 (cellComparison mdu0 (cell * 32) 32 0 0)); [done | lia].
  - apply Hcell in H1. by rewrite (proj2 (Z.leb_gt _ _)).
Qed.

(** ** Lemmas: the packed table *)

(** The logical bytes of the table. *)
Definition fat_of (mdu0 : bytes) : bytes :=
  tabulate POLYFS_FAT_LOGICAL_BYTES (fun j => get mdu0 (fat_position j)).

Lemma fat_position_eq j :
  0 <= j <= POLYFS_FAT_LOGICAL_BYTES -> fat_position j = FILE_TABLE_START + j / 31 * 32 + 1 + j mod 31.
Proof.
  rewrite POLYFS_FAT_LOGICAL_BYTES_eq. intros Hj. unfold fat_position.
  rewrite floor_div_exact, Z.rem_mod_nonneg by (unfold safe, MAX_SAFE_INTEGER; lia). done.
Qed.

Lemma blen_fat mdu0 : blen (fat_of mdu0) = POLYFS_FAT_LOGICAL_BYTES.
Proof. apply blen_tabulate. rewrite POLYFS_FAT_LOGICAL_BYTES_eq. lia. Qed.

Lemma Forall_get (P : Z -> Prop) l i : Forall P l -> P 0 -> P (get l i).
Proof.
  intros Hl H0. unfold get. rewrite nth_lookup. destruct (l !! Z.to_nat i) eqn:E; [|done]. cbn.
  by eapply Forall_lookup_1.
Qed.

Lemma fat_bytes_ok mdu0 : Forall byte_ok mdu0 -> Forall byte_ok (fat_of mdu0).
Proof.
  intros Hb. apply Forall_fmap, Forall_true. intros j. cbn. apply Forall_get; [done|]. unfold byte_ok. lia.
Qed.

Lemma readPolyfsFatRange_eq mdu0 o n :
  blen mdu0 = MDU_SIZE_BYTES -> 0 <= o -> 0 <= n -> o + n <= POLYFS_FAT_LOGICAL_BYTES ->
  readPolyfsFatRange mdu0 (int o) (int n) = Ok (subarray (fat_of mdu0) o (o + n)).
Proof.
  intros Hl Ho Hn Hon. unfold readPolyfsFatRange, requireMdu0. rewrite Hl, Z.eqb_refl. cbn [negb bind].
  pose proof POLYFS_FAT_LOGICAL_BYTES_eq.
  rewrite !asNonNegativeInteger_int, !safeb_true by (unfold safe, MAX_SAFE_INTEGER; lia).
  cbn [bind]. rewrite !(proj2 (Z.ltb_ge _ _)) by lia. cbn [orb]. f_equal.
  apply bytes_ext; [rewrite blen_tabulate, blen_subarray; rewrite ?blen_fat; lia|].
  intros i Hi. rewrite blen_tabulate in Hi by lia. rewrite get_tabulate, get_subarray by lia.
  unfold fat_of. by rewrite get_tabulate by lia.
Qed.


(** A chunk of bytes holds a record exactly when it decodes to it. *)
Lemma decode_record_iff bs r :
  Forall byte_ok bs -> decodePolyfsFileRecord bs = Ok r <-> record_ok r /\ bs = record_bytes r.
Proof.
  intros Hb. split; [by apply decode_record_Ok|]. intros [Hr ->]. by apply decode_record_bytes.
Qed.

Lemma active_cons r records :
  active_paths (r :: records)
  = if bool_decide (fr_path r = []) then active_paths records else fr_path r :: active_paths records.
Proof.
  unfold active_paths. cbn [map]. destruct (bool_decide _) eqn:Hp.
  - apply bool_decide_eq_true_1 in Hp. rewrite Hp. by rewrite filter_cons_False by (intros H; by apply H).
  - apply bool_decide_eq_false_1 in Hp. by rewrite filter_cons_True.
Qed.

Lemma recordLoop_iff mdu0 n : forall i paths records,
  Forall byte_ok mdu0 -> blen mdu0 = MDU_SIZE_BYTES -> 0 <= i ->
  128 + (i + Z.of_nat n) * 256 <= POLYFS_FAT_LOGICAL_BYTES ->
  recordLoop mdu0 n i paths = Ok records <->
  length records = n /\ Forall record_ok records
  /\ subarray (fat_of mdu0) (128 + i * 256) (128 + (i + Z.of_nat n) * 256) = concat (map record_bytes records)
  /\ NoDup (active_paths records) /\ (forall p, p ∈ active_paths records -> p ∉ paths).
Proof.
  induction n as [|n IH]; intros i paths records Hb Hl Hi Hn; cbn [recordLoop].
  { split.
    - intros [= <-]. split_and!; [done | by apply Forall_nil | | constructor | by intros p ?%elem_of_nil].
      unfold subarray. replace (128 + (i + Z.of_nat 0) * 256 - (128 + i * 256)) with 0 by lia. done.
    - intros (Hlen & _). by destruct records. }
  change FILE_TABLE_HEADER_SIZE with 128. change FILE_RECORD_SIZE with 256.
  rewrite readPolyfsFatRange_eq by lia. cbn [bind].
  set (chunk := subarray (fat_of mdu0) (128 + i * 256) (128 + i * 256 + 256)).
  assert (Hcb : Forall byte_ok chunk) by by apply Forall_subarray, fat_bytes_ok.
  assert (Hcut : subarray (fat_of mdu0) (128 + i * 256) (128 + (i + Z.of_nat (S n)) * 256)
    = chunk ++ subarray (fat_of mdu0) (128 + (i + 1) * 256) (128 + (i + 1 + Z.of_nat n) * 256)).
  { rewrite (subarray_cut _ _ (128 + i * 256 + 256)) by lia. do 2 f_equal; lia. }
  rewrite Hcut. split.
  - intros H. apply bind_Ok in H as (r & Hr & H). ok_step H. apply bind_Ok in H as (rest & Hrest & H).
    injection H as <-. apply decode_record_iff in Hr as [Hok Hc]; [|done].
    apply IH in Hrest as (Hlen & Hall & Hsub & Hnd & Hnew); [| done | done | lia | lia].
    cbn [length map concat]. rewrite Hsub, <- Hc. rewrite active_cons.
    split_and!; [lia | by constructor | done | |]; destruct (bool_decide (fr_path r = [])) eqn:Hp; try done.
    + constructor; [|done]. intros Hin. apply (Hnew _ Hin). by left.
    + cbn [negb andb] in Hg. apply bool_decide_eq_false_1 in Hg.
      intros p [->|Hin]%elem_of_cons; [done|]. intros Hin'. apply (Hnew _ Hin). by right.
  - intros (Hlen & Hall & Hsub & Hnd & Hnew). destruct records as [|r rest]; [done|].
    apply Forall_cons in Hall as [Hr Hall]. cbn [map concat] in Hsub.
    apply app_inj_1 in Hsub as [Hc Hsub].
    2:{ pose proof (blen_record r Hr). pose proof (blen_fat mdu0).
        assert (blen chunk = 256) by (unfold chunk; rewrite blen_subarray; lia). unfold blen in *. lia. }
    rewrite (proj2 (decode_record_iff chunk r Hcb)) by done. cbn [bind].
    rewrite active_cons in Hnd, Hnew. destruct (bool_decide (fr_path r = [])) eqn:Hp; cbn [negb andb].
    + rewrite (proj2 (IH (i + 1) paths rest Hb Hl ltac:(lia) ltac:(lia))); [done|].
      cbn in Hlen. split_and!; [lia | done | done | done | done].
    + apply NoDup_cons in Hnd as [Hni Hnd].
      rewrite bool_decide_eq_false_2 by (apply Hnew; by left).
      rewrite (proj2 (IH (i + 1) (fr_path r :: paths) rest Hb Hl ltac:(lia) ltac:(lia))); [done|].
      cbn in Hlen. split_and!; [lia | done | done | done |].
      intros p Hp' [->|Hin]%elem_of_cons; [done|]. eapply (Hnew p); [by right | done].
Qed.

(** The reserved byte of every scalar of the table is zero, and the table is zero
    from [e] on. *)
Definition reserved_zero (mdu0 : bytes) : Prop :=
  forall s, 0 <= s < 196608 -> get mdu0 (FILE_TABLE_START + s * 32) = 0.
Definition zero_from (mdu0 : bytes) (e : Z) : Prop :=
  forall j, e <= j < POLYFS_FAT_LOGICAL_BYTES -> get (fat_of mdu0) j = 0.

Lemma get_fat mdu0 j :
  0 <= j < POLYFS_FAT_LOGICAL_BYTES -> get (fat_of mdu0) j = get mdu0 (fat_position j).
Proof. intros Hj. unfold fat_of. by rewrite get_tabulate. Qed.

(** A position of the table is a reserved byte or holds a logical byte. *)
Lemma table_position i :
  FILE_TABLE_START <= i < MDU_SIZE_BYTES ->
  let d := i - FILE_TABLE_START in let j := d / 32 * 31 + d mod 32 - 1 in
  (d mod 32 = 0 /\ i = FILE_TABLE_START + d / 32 * 32 /\ 0 <= d / 32 < 196608)
  \/ (d mod 32 <> 0 /\ 0 <= j < POLYFS_FAT_LOGICAL_BYTES /\ i = fat_position j).
Proof.
  pose proof POLYFS_FAT_LOGICAL_BYTES_eq. assert (FILE_TABLE_START = 2097152) by done.
  assert (MDU_SIZE_BYTES = 8388608) by done. intros Hi d j.
  pose proof (Z.div_mod d 32 ltac:(lia)). pose proof (Z.mod_pos_bound d 32 ltac:(lia)).
  assert (0 <= d / 32 < 196608) by (unfold d in *; div_lia_linear).
  destruct (Z.eq_dec (d mod 32) 0) as [Hz|Hz]; [left; unfold d in *; lia|]. right.
  assert (0 <= j < POLYFS_FAT_LOGICAL_BYTES) by (unfold j; lia). split_and!; [done | lia | lia |].
  rewrite fat_position_eq by lia.
  replace j with (d / 32 * 31 + (d mod 32 - 1)) by (unfold j; lia). rewrite div_base, mod_base by lia.
  unfold d in *. lia.
Qed.

Lemma fat_position_bounds j :
  0 <= j < POLYFS_FAT_LOGICAL_BYTES -> FILE_TABLE_START <= fat_position j < MDU_SIZE_BYTES.
Proof.
  pose proof POLYFS_FAT_LOGICAL_BYTES_eq. assert (FILE_TABLE_START = 2097152) by done.
  assert (MDU_SIZE_BYTES = 8388608) by done. intros Hj. rewrite fat_position_eq by lia. div_lia_linear.
Qed.

Lemma fat_position_le a b :
  0 <= a -> a <= b <= POLYFS_FAT_LOGICAL_BYTES -> fat_position a <= fat_position b.
Proof. intros Ha Hb. rewrite !fat_position_eq by lia. div_lia_linear. Qed.

Lemma padding_iff mdu0 e :
  reserved_zero mdu0 -> 0 <= e <= POLYFS_FAT_LOGICAL_BYTES ->
  (forall i, fat_position e <= i < MDU_SIZE_BYTES -> get mdu0 i = 0) <-> zero_from mdu0 e.
Proof.
  intros Hr He. split.
  - intros H j Hj. rewrite get_fat by lia. apply H.
    split; [apply fat_position_le; lia | apply fat_position_bounds; lia].
  - intros H i Hi.
    assert (FILE_TABLE_START <= fat_position e) by (rewrite fat_position_eq by lia; div_lia_linear).
    destruct (table_position i) as [(_ & Heq & Hs)|(_ & Hj & Heq)]; [lia | rewrite Heq; by apply Hr |].
    rewrite Heq, <- get_fat by lia. apply H. split; [|lia].
    destruct (Z.le_gt_cases e ((i - FILE_TABLE_START) / 32 * 31 + (i - FILE_TABLE_START) mod 32 - 1)) as [|Hlt]; [done|].
    exfalso. rewrite Heq in Hi at 1.
    assert (forall a b, 0 <= a -> a < b <= POLYFS_FAT_LOGICAL_BYTES -> fat_position a < fat_position b) as Hmono.
    { intros a b Ha Hb. rewrite !fat_position_eq by lia. div_lia_linear. }
    specialize (Hmono _ e (proj1 Hj) ltac:(lia)). lia.
Qed.

Lemma requireMdu0_iff mdu0 : requireMdu0 mdu0 = Ok tt <-> blen mdu0 = MDU_SIZE_BYTES.
Proof.
  unfold requireMdu0. generalize MDU_SIZE_BYTES. intros n. destruct (Z.eqb_spec (blen mdu0) n); cbn [negb]; done.
Qed.

(** [for_range] over a test that the byte at [f i] is zero. *)
Lemma all_zero_iff n i mdu0 f m :
  for_range n i (fun j => throw_if negb (get mdu0 (f j) =? 0) with m else Ok tt) = Ok tt <->
  forall j, i <= j < i + Z.of_nat n -> get mdu0 (f j) = 0.
Proof.
  rewrite for_range_Ok. split; intros H j Hj; specialize (H j Hj).
  - by destruct (Z.eqb_spec (get mdu0 (f j)) 0).
  - by rewrite H, Z.eqb_refl.
Qed.

Lemma reserved_iff mdu0 :
  blen mdu0 = MDU_SIZE_BYTES ->
  for_range (Z.to_nat ((blen mdu0 - FILE_TABLE_START) / 32)) 0 (fun scalar =>
    throw_if negb (get mdu0 (FILE_TABLE_START + scalar * 32) =? 0)
      with "nonzero FAT scalar reserved byte" else Ok tt) = Ok tt <-> reserved_zero mdu0.
Proof.
  intros ->. rewrite (all_zero_iff _ _ mdu0 (fun s => FILE_TABLE_START + s * 32)).
  change ((MDU_SIZE_BYTES - FILE_TABLE_START) / 32) with 196608. rewrite Z2Nat.id by lia. done.
Qed.

Lemma trailing_iff mdu0 e :
  blen mdu0 = MDU_SIZE_BYTES -> reserved_zero mdu0 -> 0 <= e < POLYFS_FAT_LOGICAL_BYTES ->
  for_range (Z.to_nat (blen mdu0 - fat_position e)) (fat_position e) (fun i =>
    throw_if negb (get mdu0 i =? 0) with "nonzero FAT padding" else Ok tt) = Ok tt <-> zero_from mdu0 e.
Proof.
  intros Hl Hr He. rewrite <- padding_iff by (done || lia).
  rewrite (all_zero_iff _ _ mdu0 (fun i => i)), Hl. pose proof (fat_position_bounds e He).
  by replace (fat_position e + Z.of_nat (Z.to_nat (MDU_SIZE_BYTES - fat_position e)))
    with MDU_SIZE_BYTES by lia.
Qed.

Lemma structure_iff mdu0 count :
  Forall byte_ok mdu0 -> 0 <= count <= MAX_SAFE_INTEGER ->
  validateAuthenticatedMdu0Structure mdu0 (int count) = Ok tt <->
  blen mdu0 = MDU_SIZE_BYTES /\ canonical_roots mdu0 /\ reserved_zero mdu0
  /\ count <= POLYFS_FILE_RECORD_CAPACITY /\ zero_from mdu0 (128 + count * 256).
Proof.
  intros Hb Hc. unfold validateAuthenticatedMdu0Structure.
  rewrite (asNonNegativeInteger_int count), safeb_true by exact Hc.
  pose proof POLYFS_FILE_RECORD_CAPACITY_eq. pose proof POLYFS_FAT_LOGICAL_BYTES_eq.
  change FILE_TABLE_HEADER_SIZE with 128. change FILE_RECORD_SIZE with 256. cbv zeta. split.
  - intros Hv. apply bind_Ok in Hv as ([] & Hl%requireMdu0_iff & Hv).
    apply bind_Ok in Hv as ([] & Hroots & Hv). apply bind_Ok in Hv as ([] & Hres & Hv).
    apply validateRootCells_iff in Hroots; [|done..]. apply reserved_iff in Hres; [|done].
    apply bind_Ok in Hv as (c & [= <-] & Hv). ok_step Hv. apply Z.ltb_ge in Hg.
    apply trailing_iff in Hv; [|done|done|lia]. exact (conj Hl (conj Hroots (conj Hres (conj Hg Hv)))).
  - intros (Hl & Hroots & Hres & Hcap & Hz).
    rewrite (proj2 (requireMdu0_iff _) Hl), (proj2 (validateRootCells_iff _ Hb Hl) Hroots),
      (proj2 (reserved_iff _ Hl) Hres). cbn [bind]. rewrite (proj2 (Z.ltb_ge _ _)) by lia.
    apply trailing_iff; [done | done | lia | done].
Qed.

Lemma table_header_split c :
  table_header c = [78; 73; 76; 70] ++ [2; 0] ++ [0; 1] ++ le_bytes 4 c ++ replicate 116 0.
Proof. reflexivity. Qed.

Lemma header_split (h : bytes) :
  blen h = 128 ->
  h = subarray h 0 4 ++ subarray h 4 6 ++ subarray h 6 8 ++ subarray h 8 12 ++ drop 12 h.
Proof.
  intros Hl. rewrite <- (subarray_all h 128) at 1 by lia.
  rewrite (subarray_cut h 0 4), (subarray_cut h 4 6), (subarray_cut h 6 8), (subarray_cut h 8 12) by lia.
  do 4 f_equal. unfold subarray, blen in *. apply take_ge. rewrite length_drop. lia.
Qed.

(** The header of a table of [c] records. *)
Lemma header_iff mdu0 c :
  Forall byte_ok mdu0 -> blen mdu0 = MDU_SIZE_BYTES ->
  validatedRecordCount mdu0 = Ok c <->
  0 <= c < 2 ^ 32 /\ subarray (fat_of mdu0) 0 128 = table_header c.
Proof.
  intros Hb Hl. unfold validatedRecordCount. rewrite (proj2 (requireMdu0_iff mdu0) Hl). cbn [bind].
  change FILE_TABLE_HEADER_SIZE with 128.
  rewrite readPolyfsFatRange_eq by (done || (rewrite ?POLYFS_FAT_LOGICAL_BYTES_eq; lia)). cbn [bind].
  change (0 + 128) with 128. set (h := subarray (fat_of mdu0) 0 128).
  assert (Hhb : Forall byte_ok h) by by apply Forall_subarray, fat_bytes_ok.
  assert (Hhl : blen h = 128)
    by (unfold h; rewrite blen_subarray; rewrite ?blen_fat, ?POLYFS_FAT_LOGICAL_BYTES_eq; lia).
  split.
  - intros H. destruct (utf8_decode _) as [magic|] eqn:Hm; [|done]. ok_step H. apply Ok_inj in H as <-.
    repeat (apply orb_false_elim in Hg as [Hg ?]). bool_to_prop.
    apply bool_decide_eq_true_1 in Hg as ->. apply utf8_decode_iff in Hm as [_ Hm].
    pose proof (little_endian_bound (subarray h 8 12) (Forall_subarray _ _ _ _ Hhb)) as Hbd.
    rewrite blen_subarray in Hbd by lia. split; [exact Hbd|].
    rewrite (header_split h Hhl), table_header_split, Hm. f_equal.
    rewrite (subarray_cons h 4 1 : _ -> _ -> subarray h 4 6 = _) by lia.
    rewrite (subarray_cons h 5 0 : _ -> _ -> subarray h (4 + 1) (4 + 1 + Z.of_nat 1) = _) by lia.
    change (subarray h (5 + 1) (5 + 1 + Z.of_nat 0)) with ([] : bytes).
    assert (Hle : forall a n, 0 <= a -> a + Z.of_nat n <= 128 ->
      subarray h a (a + Z.of_nat n) = le_bytes n (little_endian (subarray h a (a + Z.of_nat n))))
      by (intros; symmetry; apply le_bytes_subarray; [done | lia | lia]).
    rewrite (Hle 6 2%nat : _ -> _ -> subarray h 6 8 = le_bytes 2 (little_endian (subarray h 6 8))) by lia.
    rewrite (Hle 8 4%nat : _ -> _ -> subarray h 8 12 = le_bytes 4 (little_endian (subarray h 8 12))) at 1 by lia.
    assert (Hz : drop 12 h = replicate 116 0).
    { assert (Hn : length (drop 12 h) = 116%nat) by (unfold blen in *; rewrite length_drop; lia).
      rewrite <- Hn. by apply all_zero. }
    rewrite Hz. change FILE_RECORD_SIZE with 256 in *.
    repeat match goal with E : get h _ = _ |- _ => rewrite E; clear E end.
    match goal with E : little_endian (subarray h 6 8) = 256 |- _ => rewrite E end. reflexivity.
  - intros [Hc ->].
    change (subarray (table_header c) 0 4) with ([78; 73; 76; 70] : bytes).
    change (utf8_decode [78; 73; 76; 70]) with (Some [78; 73; 76; 70]).
    change (get (table_header c) 4) with 2. change (get (table_header c) 5) with 0.
    change (subarray (table_header c) 6 8) with ([0; 1] : bytes).
    change (drop 12 (table_header c)) with (replicate 116 0).
    change (subarray (table_header c) 8 12) with (le_bytes 4 c).
    rewrite little_endian_le_bytes by done. reflexivity.
Qed.

(** ** Lemmas: the whole table *)

Lemma blen_records records : Forall record_ok records ->
  blen (concat (map record_bytes records)) = Z.of_nat (length records) * 256.
Proof.
  induction 1 as [|r records Hr Hrs IH]; [done|]. cbn [map concat length]. rewrite blen_app, blen_record, IH by done. lia.
Qed.

Lemma blen_table records : Forall record_ok records ->
  blen (table_bytes records) = 128 + Z.of_nat (length records) * 256.
Proof. intros Hr. unfold table_bytes. rewrite blen_app, blen_records by done. done. Qed.

Lemma get_past l i : blen l <= i -> get l i = 0.
Proof. intros Hi. unfold get, blen in *. apply nth_overflow. lia. Qed.

(** The table of [mdu0] is that of [records] and then zeros. *)
Definition holds_table (mdu0 : bytes) (records : list PolyfsFileRecord) : Prop :=
  forall j, 0 <= j < POLYFS_FAT_LOGICAL_BYTES -> get (fat_of mdu0) j = get (table_bytes records) j.

Lemma holds_table_iff mdu0 records :
  table_ok records ->
  holds_table mdu0 records <->
  subarray (fat_of mdu0) 0 (128 + Z.of_nat (length records) * 256) = table_bytes records
  /\ zero_from mdu0 (128 + Z.of_nat (length records) * 256).
Proof.
  intros [Hn Hr _]. pose proof (blen_table records Hr) as Hl. pose proof (blen_fat mdu0) as Hf.
  rewrite POLYFS_FILE_RECORD_CAPACITY_eq in Hn. pose proof POLYFS_FAT_LOGICAL_BYTES_eq. split.
  - intros H1. split.
    + apply bytes_ext; [rewrite blen_subarray; lia|]. intros i Hi. rewrite blen_subarray in Hi by lia.
      rewrite get_subarray by lia. apply H1. lia.
    + intros j Hj. rewrite H1 by lia. apply get_past. lia.
  - intros [H1 H2] j Hj. destruct (Z.lt_ge_cases j (128 + Z.of_nat (length records) * 256)).
    + rewrite <- H1, get_subarray by lia. done.
    + rewrite H2 by lia. symmetry. apply get_past. lia.
Qed.

Lemma write_mdu0_iff mdu0 records :
  mdu0 = write_mdu0 mdu0 records <->
  blen mdu0 = MDU_SIZE_BYTES /\ reserved_zero mdu0 /\ holds_table mdu0 records.
Proof.
  assert (0 <= FILE_TABLE_START < MDU_SIZE_BYTES) by done. split.
  - intros H1. assert (Hl : blen mdu0 = MDU_SIZE_BYTES) by (rewrite H1; by apply blen_tabulate).
    assert (Hg : forall i, 0 <= i < MDU_SIZE_BYTES -> get mdu0 i =
      if i <? FILE_TABLE_START then get mdu0 i else
      let i := i - FILE_TABLE_START in
      if i mod 32 =? 0 then 0 else get (table_bytes records) (i / 32 * 31 + i mod 32 - 1)).
    { intros i Hi. rewrite H1 at 1. unfold write_mdu0. by rewrite get_tabulate by lia. }
    split_and!; [done | |].
    + intros s Hs. rewrite Hg by (change FILE_TABLE_START with 2097152; change MDU_SIZE_BYTES with 8388608; lia).
      rewrite (proj2 (Z.ltb_ge _ _)) by lia. cbv zeta.
      replace (FILE_TABLE_START + s * 32 - FILE_TABLE_START) with (s * 32) by lia.
      by rewrite Z.mod_mul by lia.
    + intros j Hj. rewrite get_fat by lia. pose proof (fat_position_bounds j Hj) as Hb.
      rewrite Hg by lia. rewrite (proj2 (Z.ltb_ge _ _)) by lia. cbv zeta.
      rewrite fat_position_eq by lia. pose proof (Z.mod_pos_bound j 31).
      replace (FILE_TABLE_START + j / 31 * 32 + 1 + j mod 31 - FILE_TABLE_START)
        with (j / 31 * 32 + (1 + j mod 31)) by lia.
      rewrite div_base, mod_base by lia. rewrite (proj2 (Z.eqb_neq _ _)) by lia.
      f_equal. pose proof (Z.div_mod j 31). lia.
  - intros (Hl & Hr & Ht). apply bytes_ext; [rewrite Hl; symmetry; by apply blen_tabulate|].
    intros i Hi. unfold write_mdu0. rewrite get_tabulate by lia.
    destruct (Z.ltb_spec i FILE_TABLE_START) as [|Hge]; [done|]. cbv zeta.
    destruct (table_position i ltac:(lia)) as [(-> & Heq & Hs)|(Hz & Hj & Heq)].
    + rewrite Heq at 1. by apply Hr.
    + rewrite (proj2 (Z.eqb_neq _ _)) by done. rewrite <- Ht by done. rewrite get_fat by done. by rewrite <- Heq.
Qed.

Lemma parsePolyfsRecords_iff mdu0 records :
  Forall byte_ok mdu0 ->
  parsePolyfsRecordsFromMdu0 mdu0 = Ok records <->
  blen mdu0 = MDU_SIZE_BYTES /\ canonical_roots mdu0 /\ reserved_zero mdu0
  /\ table_ok records /\ holds_table mdu0 records.
Proof.
  intros Hb. unfold parsePolyfsRecordsFromMdu0, parsePolyfsRecordsFromAuthenticatedMdu0.
  pose proof POLYFS_FILE_RECORD_CAPACITY_eq as Hcap. pose proof POLYFS_FAT_LOGICAL_BYTES_eq as Hfat.
  assert (Hcut : forall n, 0 <= n -> 128 + n * 256 <= POLYFS_FAT_LOGICAL_BYTES ->
    subarray (fat_of mdu0) 0 (128 + n * 256)
    = subarray (fat_of mdu0) 0 128 ++ subarray (fat_of mdu0) (128 + 0 * 256) (128 + (0 + n) * 256)).
  { intros n Hn Hf. by rewrite (subarray_cut _ 0 128) by lia. }
  split.
  - intros H. apply bind_Ok in H as (c & Hc & H). apply bind_Ok in H as ([] & Hs & H).
    assert (Hl : blen mdu0 = MDU_SIZE_BYTES) by (apply bind_Ok in Hc as ([] & Hl & _); by apply requireMdu0_iff).
    apply header_iff in Hc as [Hc Hh]; [|done..].
    apply structure_iff in Hs as (_ & Hroots & Hres & Hn & Hz); [|done|unfold MAX_SAFE_INTEGER; lia].
    rewrite num_int_int in H. apply recordLoop_iff in H as (Hlen & Hok & Hsub & Hnd & _); [|done|done|lia|lia].
    rewrite Z2Nat.id in Hsub by lia.
    assert (Hcount : Z.of_nat (length records) = c) by lia.
    assert (Ht : table_ok records) by (constructor; [lia | done | done]).
    refine (conj Hl (conj Hroots (conj Hres (conj Ht _)))). apply holds_table_iff; [exact Ht|]. rewrite Hcount. split; [|done].
    rewrite Hcut by lia. unfold table_bytes. by rewrite Hcount, <- Hh, <- Hsub.
  - intros (Hl & Hroots & Hres & Ht & Hh). apply holds_table_iff in Hh as [Hsub Hz]; [|done].
    destruct Ht as [Hn Hr Hnd]. set (c := Z.of_nat (length records)) in *.
    assert (Hc : 0 <= c) by (unfold c; lia). assert (Hc32 : 0 <= c < 2 ^ 32) by lia.
    assert (Hsafe : 0 <= c <= MAX_SAFE_INTEGER) by (unfold MAX_SAFE_INTEGER; lia).
    rewrite Hcut in Hsub by lia. unfold table_bytes in Hsub. fold c in Hsub.
    apply app_inj_1 in Hsub as [Hhead Hrec].
    2:{ pose proof (blen_subarray (fat_of mdu0) 0 128 ltac:(lia) ltac:(rewrite blen_fat; lia)) as Hx.
        unfold blen in Hx. change (length (table_header c)) with 128%nat. lia. }
    rewrite (proj2 (header_iff mdu0 c Hb Hl) (conj Hc32 Hhead)). cbn [bind].
    rewrite (proj2 (structure_iff mdu0 c Hb Hsafe)
      (conj Hl (conj Hroots (conj Hres (conj Hn Hz))))). cbn [bind].
    rewrite num_int_int. apply recordLoop_iff; [done | done | lia | lia |].
    rewrite Z2Nat.id by lia. split_and!; [lia | done | done | done | by intros p _ ?%elem_of_nil].
Qed.

(** ** Lemmas: reconstruction *)

Section pieces.
Context (B : Z) (HB : 0 < B).

(** Equal pieces of an array. *)
Definition piece (l : bytes) (i : Z) : bytes := subarray l (i * B) (i * B + B).

Lemma blen_concat_map (f : Z -> bytes) l :
  Forall (fun i => blen (f i) = B) l -> blen (concat (map f l)) = Z.of_nat (length l) * B.
Proof using.
  induction 1 as [|i l Hi Hl IH]; [done|]. cbn [map concat length]. rewrite blen_app. lia.
Qed.

Lemma concat_pieces l (n : nat) :
  Z.of_nat n * B <= blen l -> concat (map (piece l) (seqZ 0 (Z.of_nat n))) = subarray l 0 (Z.of_nat n * B).
Proof using HB.
  induction n as [|n IH]; intros Hl; [done|].
  rewrite seqZ_S, map_app, concat_app, IH by lia. cbn [map concat]. rewrite app_nil_r, Z.add_0_l.
  unfold piece. rewrite (subarray_cut l 0 (Z.of_nat n * B) (Z.of_nat (S n) * B)) by nia. f_equal. f_equal. nia.
Qed.

(** A piece of a concatenation of pieces. *)
Lemma piece_concat (f : Z -> bytes) (n : nat) i :
  (forall j, 0 <= j < Z.of_nat n -> blen (f j) = B) -> 0 <= i < Z.of_nat n ->
  piece (concat (map f (seqZ 0 (Z.of_nat n)))) i = f i.
Proof using HB.
  intros Hf Hi. assert (Hall : forall a m, 0 <= a -> a + m <= Z.of_nat n ->
    Forall (fun j => blen (f j) = B) (seqZ a m)).
  { intros a m Ha Hm. apply Forall_forall. intros j Hj%elem_of_seqZ. apply Hf. lia. }
  replace (Z.of_nat n) with (i + (1 + (Z.of_nat n - i - 1))) by lia.
  rewrite (seqZ_app 0 i), (seqZ_app (0 + i) 1) by lia. rewrite !map_app, !concat_app.
  change (seqZ (0 + i) 1) with [0 + i]. cbn [map concat]. rewrite Z.add_0_l, app_nil_r. unfold piece.
  pose proof (blen_concat_map f (seqZ 0 i) (Hall 0 i ltac:(lia) ltac:(lia))) as Hl. rewrite length_seqZ in Hl.
  specialize (Hf i Hi). apply subarray_middle; lia.
Qed.
End pieces.

Abbreviation blob_piece := (piece BLOB_SIZE_BYTES).

Section copy.
Context (k : Z) (bySlot : list (Z * bytes)).

(** Blob [b] of the MDU: row [b / k] of slot [b mod k]. *)
Definition slot_blob (b : Z) : bytes := blob_piece (default [] (mget bySlot (b mod k))) (b / k).

(** The first [b] blobs are in place. *)
Definition copied (b : Z) : bytes :=
  concat (map slot_blob (seqZ 0 b)) ++ zeros ((64 - b) * BLOB_SIZE_BYTES).

Context (rows : Z) (Hk : 0 < k) (Hrows : rows * k = 64).
Context (Hdata : forall s, 0 <= s < k -> blen (default [] (mget bySlot s)) = rows * BLOB_SIZE_BYTES).

Lemma blen_slot_blob b : 0 <= b < 64 -> blen (slot_blob b) = BLOB_SIZE_BYTES.
Proof using Hk Hrows Hdata.
  intros Hb. unfold slot_blob, piece. assert (0 < BLOB_SIZE_BYTES) by done.
  assert (0 <= b / k < rows) by (split; [apply Z.div_pos; lia | apply Z.div_lt_upper_bound; lia]).
  rewrite blen_subarray; [lia | nia |]. rewrite Hdata by (by apply Z.mod_pos_bound). nia.
Qed.

Lemma copied_step b :
  0 <= b < 64 -> set_at (copied b) (slot_blob b) (b * BLOB_SIZE_BYTES) = Ok (copied (b + 1)).
Proof using Hk Hrows Hdata.
  intros Hb. unfold copied. assert (HB : 0 < BLOB_SIZE_BYTES) by done.
  set (pre := concat (map slot_blob (seqZ 0 b))).
  assert (Hpre : blen pre = b * BLOB_SIZE_BYTES).
  { unfold pre. rewrite (blen_concat_map BLOB_SIZE_BYTES); [rewrite length_seqZ; lia|].
    apply Forall_forall. intros j Hj%elem_of_seqZ. apply blen_slot_blob. lia. }
  pose proof (blen_slot_blob b Hb) as Hblob.
  rewrite (seqZ_app 0 b 1), map_app, concat_app by lia. change (seqZ (0 + b) 1) with [0 + b].
  cbn [map concat]. rewrite Z.add_0_l, app_nil_r. fold pre.
  unfold set_at. rewrite blen_app, Hpre, Hblob, blen_zeros by nia. rewrite (proj2 (Z.ltb_ge _ _)) by nia. f_equal.
  rewrite <- app_assoc. unfold blen in Hpre.
  rewrite take_app_length' by lia. f_equal. f_equal.
  rewrite drop_app_ge by lia. unfold zeros. rewrite drop_replicate. f_equal. lia.
Qed.

Lemma copySlots_eq n : forall row slot,
  0 <= row < rows -> 0 <= slot -> slot + Z.of_nat n = k ->
  copySlots k row bySlot n slot (copied (row * k + slot)) = Ok (copied (row * k + k)).
Proof using Hk Hrows Hdata.
  induction n as [|n IH]; intros row slot Hr Hs Hn; cbn [copySlots].
  { do 2 f_equal. lia. }
  assert (Hb : 0 <= row * k + slot < 64) by nia.
  pose proof (copied_step (row * k + slot) Hb) as Hstep.
  unfold slot_blob, piece in Hstep. rewrite div_base, mod_base in Hstep by lia.
  rewrite Hstep. cbn [bind]. replace (row * k + slot + 1) with (row * k + (slot + 1)) by lia. apply IH; lia.
Qed.

Lemma copyRows_eq n : forall row,
  0 <= row -> row + Z.of_nat n = rows ->
  copyRows k bySlot n row (copied (row * k)) = Ok (copied 64).
Proof using Hk Hrows Hdata.
  induction n as [|n IH]; intros row Hr Hn; cbn [copyRows].
  { do 2 f_equal. nia. }
  pose proof (copySlots_eq (Z.to_nat k) row 0 ltac:(lia) ltac:(lia) ltac:(lia)) as Hrow.
  rewrite Z.add_0_r in Hrow. rewrite Hrow. cbn [bind].
  replace (row * k + k) with ((row + 1) * k) by lia. apply IH; lia.
Qed.
End copy.

Lemma copied_0 k bySlot : copied k bySlot (0 * k) = zeros (64 * BLOB_SIZE_BYTES).
Proof.
  unfold copied. rewrite Z.mul_0_l, Z.sub_0_r, seqZ_nil by lia. cbn [map concat]. by rewrite app_nil_l.
Qed.

Lemma copied_64 k bySlot : copied k bySlot 64 = concat (map (slot_blob k bySlot) (seqZ 0 64)).
Proof.
  unfold copied. rewrite Z.sub_diag, Z.mul_0_l. change (zeros 0) with (@nil Z). by rewrite app_nil_r.
Qed.

(** The slice of slot [s] of an MDU striped over [k] slots. *)
Definition slot_slice (k : Z) (mdu : bytes) (s : Z) : bytes :=
  concat (map (fun row => blob_piece mdu (row * k + s)) (seqZ 0 (64 / k))).

Definition slices_of (l : list (Z * bytes)) : list SlotSlice :=
  map (fun x => {| sl_slot := int x.1; sl_data := x.2 |}) l.

Lemma collectSlots_iff k e l : forall m m',
  k <= MAX_SAFE_INTEGER ->
  collectSlots k e (slices_of l) m = Ok m' <->
  m' = m ++ l /\ Forall (fun x => 0 <= x.1 < k /\ blen x.2 = e) l
  /\ NoDup l.*1 /\ (forall s, s ∈ l.*1 -> s ∉ m.*1).
Proof.
  induction l as [|[s d] l IH]; intros m m' Hk; cbn [slices_of map collectSlots].
  { rewrite app_nil_r. split; [|by intros [-> _]].
    intros [= ->]. split_and!; [done | by apply Forall_nil | constructor | by intros s ?%elem_of_nil]. }
  fold (slices_of l). cbn [sl_slot sl_data fst snd]. rewrite asNonNegativeInteger_int.
  destruct (safeb_spec s) as [Hs|Hs]; cbn [bind].
  2:{ split; [done|]. intros (_ & [[? _] _]%Forall_cons & _). destruct Hs. unfold safe. cbn [fst] in *. lia. }
  unfold safe in Hs. destruct (Z.leb_spec k s); cbn [orb].
  { split; [done|]. intros (_ & [[? _] _]%Forall_cons & _). cbn [fst] in *. lia. }
  unfold mhas. destruct (mget m s) as [d'|] eqn:Hm.
  { split; [done|]. intros (_ & _ & _ & Hnew). apply mget_Some_elem, (list_elem_of_fmap_2 fst) in Hm.
    destruct (Hnew s); [by left | done]. }
  apply mget_None in Hm. destruct (Z.eqb_spec (blen d) e) as [Hd|Hd]; cbn [negb].
  2:{ split; [done|]. by intros (_ & [[_ ?] _]%Forall_cons & _). }
  rewrite IH, mset_keys_absent, <- app_assoc by done. cbn [app].
  rewrite fmap_app, !fmap_cons, Forall_cons, NoDup_cons. cbn [fst snd fmap list_fmap]. split.
  - intros (-> & Hall & Hnd & Hnew). split_and!; try done; try lia.
    + intros Hin. apply (Hnew s Hin), elem_of_app. right. by left.
    + intros x [->|Hx]%elem_of_cons; [done|]. intros Hxm. apply (Hnew x Hx), elem_of_app. by left.
  - intros (-> & [_ Hall] & [Hni Hnd] & Hnew). split_and!; try done.
    intros x Hx [Hxm|Hxs]%elem_of_app; [by apply (Hnew x); [right|]|].
    apply list_elem_of_singleton in Hxs as ->. done.
Qed.

Section reconstruct.
Context (k : Z) (Hk : 0 < k) (Hdiv : 64 mod k = 0).
Let rows : Z := 64 / k.

Lemma rows_k : rows * k = 64.
Proof using Hk Hdiv. unfold rows. pose proof (Z.div_mod 64 k). lia. Qed.

Lemma rows_pos : 0 < rows.
Proof using Hk Hdiv. pose proof rows_k. nia. Qed.

Lemma mode2RowsForK_eq : mode2RowsForK (int k) = Ok rows.
Proof using Hk Hdiv.
  unfold mode2RowsForK. pose proof rows_k. pose proof rows_pos.
  rewrite asNonNegativeInteger_int, safeb_true by (unfold safe, MAX_SAFE_INTEGER; nia). cbn [bind].
  rewrite Z.rem_mod_nonneg, Hdiv, Z.quot_div_nonneg, (proj2 (Z.eqb_neq k 0)) by lia. done.
Qed.

Lemma MDU_blobs : MDU_SIZE_BYTES = 64 * BLOB_SIZE_BYTES.
Proof using. done. Qed.

Lemma slot_data (l : list (Z * bytes)) n s :
  Forall (fun x => blen x.2 = n) l -> s ∈ l.*1 -> blen (default [] (mget l s)) = n.
Proof using.
  intros Hlen Hin. destruct (mget l s) as [d|] eqn:Hm.
  - apply mget_Some_elem in Hm. rewrite Forall_forall in Hlen. exact (Hlen _ Hm).
  - by apply mget_None in Hm.
Qed.

(** The MDU the slices of [l] make. *)
Lemma reconstruct_eq l mdu :
  reconstructMduFromMode2SlotSlices (slices_of l) (int k) = Ok mdu <->
  l.*1 ≡ₚ seqZ 0 k /\ Forall (fun x => blen x.2 = rows * BLOB_SIZE_BYTES) l
  /\ mdu = concat (map (slot_blob k l) (seqZ 0 64)).
Proof using Hk Hdiv.
  pose proof rows_k as Hrk. pose proof rows_pos as Hrp.
  unfold reconstructMduFromMode2SlotSlices. rewrite mode2RowsForK_eq. cbn [bind]. rewrite num_int_int. cbv zeta.
  assert (Hsafe : k <= MAX_SAFE_INTEGER) by (unfold MAX_SAFE_INTEGER; nia).
  assert (Hcopy : NoDup l.*1 -> Forall (fun x => blen x.2 = rows * BLOB_SIZE_BYTES) l ->
    (forall s, 0 <= s < k -> s ∈ l.*1) ->
    copyRows k l (Z.to_nat rows) 0 (zeros MDU_SIZE_BYTES) = Ok (concat (map (slot_blob k l) (seqZ 0 64)))).
  { intros Hnd Hlen Hin. rewrite MDU_blobs.
    rewrite <- (copied_0 k l).
    rewrite (copyRows_eq k l rows Hk Hrk) by (lia || (intros s Hs; apply slot_data; [done | by apply Hin])). by rewrite copied_64. }
  split.
  - intros H. apply bind_Ok in H as (m & Hm & H). apply collectSlots_iff in Hm as (-> & Hall & Hnd & _); [|done].
    cbn [app] in H. apply bind_Ok in H as ([] & Hf & H). rewrite for_range_Ok in Hf.
    assert (Hin : forall s, 0 <= s < k -> s ∈ l.*1).
    { intros s Hs. specialize (Hf s ltac:(lia)). unfold mhas in Hf. destruct (mget l s) as [d|] eqn:Hm; [|done].
      by apply mget_Some_elem, (list_elem_of_fmap_2 fst) in Hm. }
    assert (Hlen : Forall (fun x => blen x.2 = rows * BLOB_SIZE_BYTES) l)
      by (eapply Forall_impl; [exact Hall|]; by intros x [_ ?]).
    split_and!; [|done|].
    + apply NoDup_Permutation; [done | apply NoDup_seqZ|]. intros s. rewrite elem_of_seqZ. split; [|intros; apply Hin; lia].
      intros (x & -> & Hx)%list_elem_of_fmap. rewrite Forall_forall in Hall. destruct (Hall x Hx). lia.
    + rewrite Hcopy in H by done. apply Ok_inj in H. symmetry. exact H.
  - intros (Hperm & Hlen & ->).
    assert (Hnd : NoDup l.*1) by (rewrite Hperm; apply NoDup_seqZ).
    assert (Hin : forall s, s ∈ l.*1 <-> 0 <= s < k) by (intros s; rewrite Hperm, elem_of_seqZ; lia).
    rewrite (proj2 (collectSlots_iff k _ l [] l Hsafe)).
    2:{ split_and!; [done | | done | by intros s _ ?%elem_of_nil]. rewrite Forall_forall in *. intros x Hx.
        split; [apply Hin; by apply list_elem_of_fmap_2 | by apply Hlen]. }
    cbn [bind]. rewrite (proj2 (for_range_Ok _ _ _)).
    2:{ intros s Hs. unfold mhas. destruct (mget l s) eqn:Hm; [done|]. apply mget_None in Hm.
        destruct Hm. apply Hin. lia. }
    cbn [bind]. apply Hcopy; [done | done | by intros; apply Hin].
Qed.

Lemma row_slot row s : 0 <= row < rows -> 0 <= s < k -> 0 <= row * k + s < 64.
Proof using Hk Hdiv. pose proof rows_k. nia. Qed.

Lemma map_rows (f g : Z -> bytes) :
  (forall row, 0 <= row < rows -> f row = g row) -> map f (seqZ 0 rows) = map g (seqZ 0 rows).
Proof using. intros H. apply map_ext_in. intros row Hr. apply list_elem_of_In, elem_of_seqZ in Hr. apply H. lia. Qed.

(** The rows of the MDU that are a slot's are the slot's data. *)
Lemma slot_slice_blobs l s d :
  (forall b, 0 <= b < 64 -> blen (slot_blob k l b) = BLOB_SIZE_BYTES) ->
  0 <= s < k -> mget l s = Some d -> blen d = rows * BLOB_SIZE_BYTES ->
  d = slot_slice k (concat (map (slot_blob k l) (seqZ 0 64))) s.
Proof using Hk Hdiv.
  intros Hblob Hs Hd Hl. unfold slot_slice. fold rows. assert (HB : 0 < BLOB_SIZE_BYTES) by done.
  rewrite (map_rows _ (blob_piece d)).
  - pose proof rows_pos. rewrite <- (Z2Nat.id rows) by lia.
    rewrite concat_pieces, subarray_all by (done || lia). done.
  - intros row Hr. pose proof (piece_concat BLOB_SIZE_BYTES HB _ 64 (row * k + s) Hblob (row_slot row s Hr Hs)) as Hp.
    change (Z.of_nat 64) with 64 in Hp. rewrite Hp.
    unfold slot_blob. rewrite div_base, mod_base by lia. by rewrite Hd.
Qed.

(** A row of a slot's slice is a blob of the MDU. *)
Lemma slot_slice_piece mdu s row :
  blen mdu = MDU_SIZE_BYTES -> 0 <= s < k -> 0 <= row < rows ->
  blob_piece (slot_slice k mdu s) row = blob_piece mdu (row * k + s).
Proof using Hk Hdiv.
  intros Hl Hs Hr. assert (HB : 0 < BLOB_SIZE_BYTES) by done. unfold slot_slice. fold rows.
  rewrite <- (Z2Nat.id rows) by lia. apply (piece_concat BLOB_SIZE_BYTES HB (fun row => blob_piece mdu (row * k + s))); [|lia].
  intros j Hj. unfold piece. pose proof (row_slot j s ltac:(lia) Hs). rewrite MDU_blobs in Hl.
  rewrite blen_subarray; nia.
Qed.

Lemma blen_slot_slice mdu s :
  blen mdu = MDU_SIZE_BYTES -> 0 <= s < k -> blen (slot_slice k mdu s) = rows * BLOB_SIZE_BYTES.
Proof using Hk Hdiv.
  intros Hl Hs. assert (HB : 0 < BLOB_SIZE_BYTES) by done. unfold slot_slice. fold rows.
  rewrite (blen_concat_map BLOB_SIZE_BYTES), length_seqZ; [pose proof rows_pos; lia|].
  apply Forall_forall. intros j Hj%elem_of_seqZ. unfold piece.
  pose proof (row_slot j s ltac:(lia) Hs). rewrite MDU_blobs in Hl. rewrite blen_subarray; nia.
Qed.
End reconstruct.

(** ** Lemmas: the written table *)

Lemma tabulate_ext n (f g : Z -> Z) : (forall i, 0 <= i < n -> f i = g i) -> tabulate n f = tabulate n g.
Proof.
  intros H. apply list_fmap_ext. intros i x Hx. apply lookup_seqZ in Hx as [-> Hx]. apply H. lia.
Qed.

Lemma get_write roots records i :
  0 <= i < FILE_TABLE_START -> get (write_mdu0 roots records) i = get roots i.
Proof.
  intros Hi. assert (FILE_TABLE_START <= MDU_SIZE_BYTES) by done.
  etransitivity; [apply get_tabulate; lia|]. cbv beta. by rewrite (proj2 (Z.ltb_lt _ _)) by lia.
Qed.

Lemma write_mdu0_idem roots records : write_mdu0 (write_mdu0 roots records) records = write_mdu0 roots records.
Proof.
  apply tabulate_ext. intros i Hi. destruct (Z.ltb_spec i FILE_TABLE_START); [apply get_write; lia | reflexivity].
Qed.

Lemma write_bytes_ok roots records :
  Forall byte_ok roots -> Forall record_ok records -> Forall byte_ok (write_mdu0 roots records).
Proof.
  intros Hr Hrs. assert (H0 : byte_ok 0) by (unfold byte_ok; lia).
  assert (Ht : Forall byte_ok (table_bytes records)).
  { unfold table_bytes, table_header. rewrite !Forall_app. split_and!.
    - unfold byte_ok. repeat constructor; lia.
    - apply le_bytes_ok.
    - by apply Forall_replicate.
    - apply Forall_concat, Forall_map. eapply Forall_impl; [exact Hrs|]. apply record_bytes_ok. }
  apply Forall_fmap, Forall_true. intros i. unfold compose. cbv zeta.
  destruct (i <? FILE_TABLE_START); [by apply Forall_get|]. destruct (_ =? 0); [done | by apply Forall_get].
Qed.

Lemma read_be_inj l l' : forall n n',
  Forall byte_ok l -> Forall byte_ok l' -> length l = length l' ->
  read_be n l = read_be n' l' -> n = n' /\ l = l'.
Proof.
  revert l'. induction l as [|b l IH]; intros [|b' l'] n n' Hl Hl' Hlen H; try done.
  apply Forall_cons in Hl as [Hb Hl], Hl' as [Hb' Hl']. injection Hlen as Hlen. unfold byte_ok in Hb, Hb'.
  destruct (IH l' (n * 256 + b) (n' * 256 + b') Hl Hl' Hlen H) as [Hn ->].
  split; [|f_equal]; lia.
Qed.

(** ** Properties *)

(** C32: The reader of a file table accepts exactly what the writer of the format
    makes.  MDU 0 parses to [records] exactly when it is the canonical image of its
    root cells and of [records]: every cell is below the field order, every record
    is in range with a valid path, no two active records share a path, and nothing
    is left over: reserved bytes and padding are zero. *)
Theorem file_table_canonical mdu0 records :
  Forall byte_ok mdu0 ->
  parsePolyfsRecordsFromMdu0 mdu0 = Ok records <->
  mdu0 = write_mdu0 mdu0 records /\ canonical_roots mdu0 /\ table_ok records.
Proof.
  intros Hb. rewrite parsePolyfsRecords_iff, write_mdu0_iff by done. tauto.
Qed.

(** C33: Reconstruction inverts striping.  For a number of slots that divides 64 the
    slices give an MDU exactly when they are those of the slots [0 .. k - 1], each
    once and in any order, and each is the rows of that MDU for its slot. *)
Theorem reconstruction_inverts_striping k l mdu :
  0 < k -> 64 mod k = 0 ->
  reconstructMduFromMode2SlotSlices (slices_of l) (int k) = Ok mdu <->
  blen mdu = MDU_SIZE_BYTES /\ l.*1 ≡ₚ seqZ 0 k
  /\ Forall (fun x => x.2 = slot_slice k mdu x.1) l.
Proof.
  intros Hk Hdiv. rewrite (reconstruct_eq k Hk Hdiv). pose proof (rows_k k Hk Hdiv) as Hrk.
  pose proof (rows_pos k Hk Hdiv) as Hrp. set (rows := 64 / k) in *.
  assert (HB : 0 < BLOB_SIZE_BYTES) by done.
  assert (Hslot : forall row s, 0 <= row < rows -> 0 <= s < k -> 0 <= row * k + s < 64) by nia. split.
  - intros (Hperm & Hlen & ->).
    assert (Hnd : NoDup l.*1) by (rewrite Hperm; apply NoDup_seqZ).
    assert (Hin : forall s, s ∈ l.*1 <-> 0 <= s < k) by (intros s; rewrite Hperm, elem_of_seqZ; lia).
    assert (Hblob : forall b, 0 <= b < 64 -> blen (slot_blob k l b) = BLOB_SIZE_BYTES).
    { intros b Hb. apply (blen_slot_blob k l rows Hk Hrk); [|done].
      intros s Hs. apply slot_data; [done | by apply Hin]. }
    split_and!; [|done|].
    + rewrite (blen_concat_map BLOB_SIZE_BYTES), length_seqZ; [reflexivity|].
      apply Forall_forall. intros b Hb%elem_of_seqZ. apply Hblob. lia.
    + apply Forall_forall. intros [s d] Hx. cbn [fst snd].
      assert (Hs : 0 <= s < k) by (apply Hin; by apply (list_elem_of_fmap_2 fst _ (s, d))).
      rewrite Forall_forall in Hlen. specialize (Hlen _ Hx). cbn [snd] in Hlen.
      apply (slot_slice_blobs k Hk Hdiv l); [done | done | by apply mget_elem | done].
  - intros (Hl & Hperm & Hdata).
    assert (Hnd : NoDup l.*1) by (rewrite Hperm; apply NoDup_seqZ).
    assert (Hin : forall s, s ∈ l.*1 <-> 0 <= s < k) by (intros s; rewrite Hperm, elem_of_seqZ; lia).
    rewrite Forall_forall in Hdata. split_and!; [done | |].
    + apply Forall_forall. intros [s d] Hx. rewrite (Hdata _ Hx). apply (blen_slot_slice k Hk Hdiv); [done|].
      apply Hin. by apply (list_elem_of_fmap_2 fst _ (s, d)).
    + transitivity (concat (map (blob_piece mdu) (seqZ 0 (Z.of_nat 64)))).
      { rewrite concat_pieces, subarray_all; rewrite ?Hl, ?MDU_blobs; (done || lia). }
      f_equal. apply map_ext_in. intros b Hb. apply list_elem_of_In, elem_of_seqZ in Hb.
      unfold slot_blob. pose proof (Z.mod_pos_bound b k Hk) as Hm.
      assert (Hs : b mod k ∈ l.*1) by by apply Hin. apply list_elem_of_fmap in Hs as ([s d] & Hs & Hx).
      cbn [fst] in Hs. rewrite Hs in *. rewrite (mget_elem l s d Hnd Hx). cbn [default].
      pose proof (Hdata _ Hx) as Hd. cbn [fst snd] in Hd. cbn. rewrite Hd.
      rewrite (slot_slice_piece k Hk Hdiv) by (done || (split; [apply Z.div_pos; lia | apply Z.div_lt_upper_bound; lia])).
      f_equal. pose proof (Z.div_mod b k). lia.
Qed.

(** A root cell names one digest class.  An MDU's digest is accepted against a
    cell exactly when the cell is the digest reduced modulo the field order, so two
    cells that accept the same digest are the same bytes. *)
Theorem root_cell_unique digest cell cell' :
  Forall byte_ok digest -> Forall byte_ok cell -> Forall byte_ok cell' ->
  assertPolyfsRootCell digest cell = Ok tt -> assertPolyfsRootCell digest cell' = Ok tt ->
  cell = cell' /\ big_endian cell = big_endian digest mod big_endian FR.
Proof.
  intros Hd Hc Hc' H H'. unfold assertPolyfsRootCell in H, H'. cbv zeta in H, H'.
  ok_step H. ok_step H. ok_step H'. ok_step H'. bool_to_prop.
  assert (Heq : big_endian cell = big_endian cell') by lia. rewrite !big_endian_read in Heq by done. split.
  - apply (read_be_inj cell cell' 0 0); [done | done | unfold blen in *; lia | done].
  - rewrite <- Z.rem_mod_nonneg; [lia | | by vm_compute].
    rewrite big_endian_read by done. pose proof (read_be_bound digest 0 Hd). lia.
Qed.

(** ** Examples *)

Definition sample_record : PolyfsFileRecord :=
  {| fr_path := [100; 47; 97; 46; 98]; fr_start_offset := 0; fr_size_bytes := 5; fr_timestamp := 7;
     fr_flags := 0 |}.

Lemma sample_record_ok : record_ok sample_record.
Proof.
  constructor; cbn [fr_path fr_start_offset fr_size_bytes fr_timestamp fr_flags sample_record];
    [lia | lia | lia | lia | lia |]. right. vm_compute. reflexivity.
Qed.

Lemma sample_table_ok : table_ok [sample_record].
Proof.
  constructor; [by vm_compute | constructor; [exact sample_record_ok | constructor] |].
  change (active_paths [sample_record]) with [fr_path sample_record]. apply NoDup_singleton.
Qed.

Lemma sample_roots l : canonical_roots (write_mdu0 [] l).
Proof.
  intros cell Hc. assert (HS : FILE_TABLE_START = 2097152) by done.
  assert (HMS : MDU_SIZE_BYTES = 8388608) by done.
  assert (HM : blen (write_mdu0 [] l) = MDU_SIZE_BYTES) by (apply blen_tabulate; lia).
  assert (Hz : subarray (write_mdu0 [] l) (cell * 32) (cell * 32 + 32) = replicate 32 0).
  { apply bytes_ext; [rewrite blen_subarray by lia; unfold blen; rewrite length_replicate; lia|].
    intros i Hi. rewrite blen_subarray in Hi by lia. rewrite get_subarray, get_write by lia.
    change (replicate 32 0) with (zeros 32). rewrite get_zeros. apply get_past. unfold blen. cbn [length]. lia. }
  rewrite Hz. vm_compute. reflexivity.
Qed.

Lemma file_table_canonical_witness :
  parsePolyfsRecordsFromMdu0 (write_mdu0 [] [sample_record]) = Ok [sample_record].
Proof.
  apply (file_table_canonical (write_mdu0 [] [sample_record]) [sample_record]).
  - apply write_bytes_ok; [constructor | exact (to_records _ sample_table_ok)].
  - split; [symmetry; apply write_mdu0_idem | split; [apply sample_roots | exact sample_table_ok]].
Defined.

Definition sample_mdu : bytes := zeros MDU_SIZE_BYTES.

Lemma reconstruction_inverts_striping_witness :
  reconstructMduFromMode2SlotSlices
    (slices_of [(1, slot_slice 2 sample_mdu 1); (0, slot_slice 2 sample_mdu 0)]) (int 2) = Ok sample_mdu.
Proof.
  apply (reconstruction_inverts_striping 2 [(1, slot_slice 2 sample_mdu 1); (0, slot_slice 2 sample_mdu 0)]
    sample_mdu); [lia | reflexivity |]. split; [|split].
  - apply blen_zeros. vm_compute. discriminate.
  - cbn [fmap list_fmap fst]. apply perm_swap.
  - constructor; [reflexivity | constructor; [reflexivity | constructor]].
Defined.

Lemma root_cell_unique_witness :
  (replicate 31 0 ++ [1]) = (replicate 31 0 ++ [1]) /\ big_endian (replicate 31 0 ++ [1])
    = big_endian (replicate 31 0 ++ [1]) mod big_endian FR.
Proof.
  assert (H : Forall byte_ok (replicate 31 0 ++ [1]))
    by (apply Forall_app; split; [apply Forall_replicate | repeat constructor]; unfold byte_ok; lia).
  apply (root_cell_unique (replicate 31 0 ++ [1]) (replicate 31 0 ++ [1]) (replicate 31 0 ++ [1]) H H H);
    vm_compute; reflexivity.
Defined.
