(* ===== verification/CoreLayout.v ===== *)
(** * The records of the file table, in the core library

    Models src/polystore_core/src/layout.rs: the headers of both versions of the table,
    [FileRecordV1] with its bytes and its validation, lengths packed with flags, and the
    policy on paths; and [verify_fat_v3_header] of src/polystore_core/src/wasm.rs.

    A [&str] is the list of its scalar values; its bytes are their UTF-8 encoding. *)

From S2P Require Import Prelude JsBytes JsNumber JsText Utf8 Layout Windows Pinned Challenge Integrity FileTable.
Local Open Scope Z_scope.

Definition MAGIC_NILF : bytes := [0x4E; 0x49; 0x4C; 0x46].
Definition FILE_RECORD_PATH_BYTES : Z := FILE_RECORD_SIZE - 24.
Definition FAT_V3_INTEGRITY_LEAVES_PER_USER_MDU : Z := 96.
Definition FAT_V3_MAX_RECORDS : Z := 23807.

(** ** The header of version 3 *)

Record FileTableHeaderV3 := { h3_record_count : Z; h3_integrity_leaf_count : Z; h3_integrity_root : bytes }.

Definition header_v3_to_bytes (h : FileTableHeaderV3) : result bytes :=
  throw_if (FAT_V3_MAX_RECORDS <? h3_record_count h) || (h3_integrity_leaf_count h =? 0)
           || (MAX_LEAVES <? h3_integrity_leaf_count h)
           || negb (h3_integrity_leaf_count h mod FAT_V3_INTEGRITY_LEAVES_PER_USER_MDU =? 0)
    with "invalid FAT v3 header bounds" else
  Ok (MAGIC_NILF ++ le_bytes 2 3 ++ le_bytes 2 FILE_RECORD_SIZE ++ le_bytes 4 (h3_record_count h) ++ [1; 1; 0; 0]
      ++ le_bytes 4 ENCODED_BLOB_BYTES ++ le_bytes 8 (h3_integrity_leaf_count h) ++ h3_integrity_root h ++ zeros 68).

Definition header_v3_from_bytes (b : bytes) : result FileTableHeaderV3 :=
  throw_if negb (blen b =? 128) || negb (bool_decide (subarray b 0 4 = MAGIC_NILF))
           || negb (little_endian (subarray b 4 6) =? 3) || negb (little_endian (subarray b 6 8) =? FILE_RECORD_SIZE)
           || negb (get b 12 =? 1) || negb (get b 13 =? 1) || negb (get b 14 =? 0) || negb (get b 15 =? 0)
           || negb (little_endian (subarray b 16 20) =? ENCODED_BLOB_BYTES)
           || existsb (fun v => negb (v =? 0)) (subarray b 60 128)
    with "invalid FAT v3 header" else
  let h := {| h3_record_count := little_endian (subarray b 8 12); h3_integrity_leaf_count := little_endian (subarray b 20 28);
              h3_integrity_root := subarray b 28 60 |} in
  let! _ := header_v3_to_bytes h in
  Ok h.

Definition verify_fat_v3_header (bs expected_integrity_root : bytes) (expected_leaf_count : Z) : result Z :=
  throw_if negb (blen expected_integrity_root =? 32) with "v3 integrity root must be 32 bytes" else
  let! header := header_v3_from_bytes bs in
  let mismatch := "FAT v3 header does not match frozen authority"%string in
  throw_if negb (bool_decide (h3_integrity_root header = expected_integrity_root)) with mismatch else
  let! leaf_count := checked_metadata_u64 expected_leaf_count in
  throw_if negb (h3_integrity_leaf_count header =? leaf_count) with mismatch else
  Ok (h3_record_count header).

(** ** The header of version 2 *)

Record FileTableHeader := {
  fh_magic : bytes; fh_version : Z; fh_pad1 : Z; fh_record_size : Z; fh_record_count : Z; fh_reserved : bytes }.

Definition header_default : FileTableHeader :=
  {| fh_magic := MAGIC_NILF; fh_version := 2; fh_pad1 := 0; fh_record_size := FILE_RECORD_SIZE; fh_record_count := 0;
     fh_reserved := zeros 116 |}.

Definition header_to_bytes (h : FileTableHeader) : bytes :=
  fh_magic h ++ [fh_version h; fh_pad1 h] ++ le_bytes 2 (fh_record_size h) ++ le_bytes 4 (fh_record_count h) ++ fh_reserved h.

Definition header_from_bytes (b : bytes) : result FileTableHeader :=
  throw_if negb (blen b =? FILE_TABLE_HEADER_SIZE) with "invalid wire record size" else
  Ok {| fh_magic := subarray b 0 4; fh_version := get b 4; fh_pad1 := get b 5; fh_record_size := little_endian (subarray b 6 8);
        fh_record_count := little_endian (subarray b 8 12); fh_reserved := subarray b 12 128 |}.

(** ** Records *)

Record FileRecordV1 := { rv_start_offset : Z; rv_length_and_flags : Z; rv_timestamp : Z; rv_path : bytes }.

Definition record_default : FileRecordV1 :=
  {| rv_start_offset := 0; rv_length_and_flags := 0; rv_timestamp := 0; rv_path := zeros FILE_RECORD_PATH_BYTES |}.

Definition record_to_bytes (r : FileRecordV1) : bytes :=
  le_bytes 8 (rv_start_offset r) ++ le_bytes 8 (rv_length_and_flags r) ++ le_bytes 8 (rv_timestamp r) ++ rv_path r.

Definition record_from_bytes (b : bytes) : result FileRecordV1 :=
  throw_if negb (blen b =? FILE_RECORD_SIZE) with "invalid wire record size" else
  Ok {| rv_start_offset := little_endian (subarray b 0 8); rv_length_and_flags := little_endian (subarray b 8 16);
        rv_timestamp := little_endian (subarray b 16 24); rv_path := subarray b 24 256 |}.

Definition pack_length_and_flags (length flags : Z) : result Z :=
  throw_if 0xffffffffffffff <? length with "file length exceeds 56-bit capacity" else
  Ok (Z.lor (Z.shiftl flags 56) length).
Definition unpack_length_and_flags (val : Z) : Z * Z := (Z.land val 0xffffffffffffff, Z.shiftr val 56).

Definition validate_file_path (path : list Z) : result unit :=
  throw_if bool_decide (path = []) || (FILE_RECORD_PATH_BYTES <? blen (utf8_encode path))
           || negb (bool_decide (trim_codes white_space path = path))
    with "path must contain 1..232 UTF-8 bytes without outer whitespace" else
  throw_if (List.hd 0 path =? 47) || bool_decide (92 ∈ path)
           || existsb (fun b => (b <? 0x20) || (b =? 0x7f)) (utf8_encode path) || bool_decide ([46; 46] ∈ split_slash path)
    with "invalid PolyFS path" else
  Ok tt.

Definition record_validate (r : FileRecordV1) (legacy_recovery : bool) : result unit :=
  let length := (unpack_length_and_flags (rv_length_and_flags r)).1 in
  throw_if U64_MAX <? rv_start_offset r + length with "file extent overflow" else
  let end_ := default (List.length (rv_path r)) (index_of_zero (rv_path r)) in
  if legacy_recovery && bool_decide (end_ = 0%nat) then Ok tt else
  throw_if existsb (fun b => negb (b =? 0)) (drop end_ (rv_path r)) with "nonzero path padding" else
  if bool_decide (end_ = 0%nat) then Ok tt else
  match utf8_decode (take end_ (rv_path r)) with
  | None => Err "invalid path UTF-8"
  | Some path => validate_file_path path
  end.

Definition record_from_path (path : list Z) (length start_offset flags : Z) : result FileRecordV1 :=
  let! _ := validate_file_path path in
  let! length_and_flags := pack_length_and_flags length flags in
  let encoded := utf8_encode path in
  let rec := {| rv_start_offset := start_offset; rv_length_and_flags := length_and_flags; rv_timestamp := 0;
                rv_path := encoded ++ drop (List.length encoded) (zeros FILE_RECORD_PATH_BYTES) |} in
  let! _ := record_validate rec false in
  Ok rec.

(** ** Lemmas *)

Lemma trim_left_length white l : (length (trim_left white l) <= length l)%nat.
Proof. induction l as [|d l IH]; cbn [trim_left length]; [done|]. destruct (white d); cbn [length]; lia. Qed.

Lemma trim_left_eq white l : length (trim_left white l) = length l <-> match l with [] => True | c :: _ => white c = false end.
Proof.
  destruct l as [|c l]; [done|]. cbn [trim_left length]. destruct (white c) eqn:Hw; [|done]. split; [|done].
  pose proof (trim_left_length white l). lia.
Qed.

Lemma last_rev (p : list Z) d : List.last p d = match rev p with [] => d | c :: _ => c end.
Proof. destruct p as [|c p _] using rev_ind; [done|]. by rewrite last_last, rev_app_distr. Qed.

(** Nothing is trimmed when neither end is white space. *)
Lemma trim_eq white c l : trim_codes white (c :: l) = c :: l <-> white c || white (List.last (c :: l) 0) = false.
Proof.
  set (p := c :: l). unfold trim_codes. rewrite orb_false_iff, last_rev. split.
  - intros H. apply (f_equal length) in H. rewrite length_rev in H.
    pose proof (trim_left_length white p) as H1. pose proof (trim_left_length white (rev (trim_left white p))) as H2.
    rewrite length_rev in H2. assert (Hc : white c = false) by (apply (trim_left_eq white p); lia). split; [done|].
    assert (Hp : trim_left white p = p) by (unfold p; cbn; by rewrite Hc). rewrite Hp in *.
    destruct (rev p) as [|d r] eqn:Hr; [apply (f_equal length) in Hr; rewrite length_rev in Hr; discriminate Hr|].
    apply (trim_left_eq white (d :: r)). rewrite <- Hr, length_rev in *. lia.
  - intros [Hc Hd]. assert (Hp : trim_left white p = p) by (unfold p; cbn; by rewrite Hc). rewrite Hp.
    destruct (rev p) as [|d r] eqn:Hr; [apply (f_equal length) in Hr; rewrite length_rev in Hr; discriminate Hr|].
    cbn [trim_left]. rewrite Hd, <- Hr. apply rev_involutive.
Qed.

Lemma utf8_char_control c : scalar_value c ->
  existsb (fun b => (b <? 0x20) || (b =? 0x7f)) (utf8_char c) = ((0 <=? c) && (c <=? 0x1f)) || (c =? 0x7f).
Proof.
  unfold scalar_value. intros Hc. unfold utf8_char. repeat case_match; bool_to_prop; cbn [existsb]; apply eq_true_iff_eq;
    rewrite ?orb_true_iff, ?andb_true_iff, ?Z.ltb_lt, ?Z.eqb_eq, ?Z.leb_le; div_lia_linear.
Qed.

Lemma control_bytes path : Forall scalar_value path ->
  bool_decide (92 ∈ path) || existsb (fun b => (b <? 0x20) || (b =? 0x7f)) (utf8_encode path) = existsb forbidden_char path.
Proof.
  induction 1 as [|c path Hc _ IH]; [done|]. unfold utf8_encode. cbn [map concat existsb]. fold (utf8_encode path).
  rewrite existsb_app, utf8_char_control, <- IH by done. unfold forbidden_char.
  apply eq_true_iff_eq. rewrite !orb_true_iff, !bool_decide_eq_true, elem_of_cons, !andb_true_iff, !Z.eqb_eq, !Z.leb_le.
  intuition auto with lia.
Qed.

(** Both sides have one policy on paths. *)
Lemma path_policies path : Forall scalar_value path ->
  validate_file_path path = Ok tt <-> validatePolyfsRecordPath path = Ok path.
Proof.
  intros Hs. unfold validate_file_path, validatePolyfsRecordPath. destruct path as [|c l]; [done|].
  rewrite (bool_decide_eq_false_2 (c :: l = [])) by done. cbn [orb]. change POLYFS_RECORD_PATH_MAX_BYTES with 232.
  change FILE_RECORD_PATH_BYTES with 232.
  rewrite (bool_decide_eq_true_2 (utf8_decode _ = _)) by (by apply utf8_decode_encode). cbn [negb]. rewrite orb_false_r.
  rewrite <- (orb_assoc (_ =? 47)), control_bytes by done.
  destruct (232 <? blen _); cbn [orb]; [by destruct (white_space c || _)|].
  destruct (white_space c || _) eqn:Hw.
  - rewrite (bool_decide_eq_false_2 (trim_codes _ _ = _)); [done|]. rewrite trim_eq, Hw. done.
  - rewrite (bool_decide_eq_true_2 (trim_codes _ _ = _)) by (by apply trim_eq). cbn [negb].
    destruct (_ || bool_decide _); [done|]. done.
Qed.

(** ** Records of both sides *)

Record record_fields_ok (r : FileRecordV1) : Prop := {
  rf_start : 0 <= rv_start_offset r < 2 ^ 64; rf_length : 0 <= rv_length_and_flags r < 2 ^ 64;
  rf_timestamp : 0 <= rv_timestamp r < 2 ^ 64; rf_path : blen (rv_path r) = 232; rf_bytes : Forall byte_ok (rv_path r) }.

Lemma record_bytes_fields r : record_fields_ok r ->
  let b := record_to_bytes r in
  blen b = 256 /\ Forall byte_ok b /\ little_endian (subarray b 0 8) = rv_start_offset r
  /\ little_endian (subarray b 8 16) = rv_length_and_flags r /\ little_endian (subarray b 16 24) = rv_timestamp r
  /\ drop 24 b = rv_path r /\ subarray b 24 256 = rv_path r.
Proof.
  intros [Hs Hl Ht Hp Hb] b. unfold b, record_to_bytes. split_and!.
  - rewrite !blen_app, !blen_le_bytes. lia.
  - repeat (apply Forall_app; split); try apply le_bytes_ok. done.
  - rewrite subarray_head by apply blen_le_bytes. by apply little_endian_le_bytes.
  - rewrite subarray_middle by (rewrite !blen_le_bytes; done). by apply little_endian_le_bytes.
  - rewrite (app_assoc (le_bytes 8 (rv_start_offset r))), subarray_middle by (rewrite ?blen_app, !blen_le_bytes; done).
    by apply little_endian_le_bytes.
  - rewrite 2!app_assoc. apply drop_app_length'. rewrite !length_app, !length_le_bytes. done.
  - rewrite 2!app_assoc. rewrite <- (app_nil_r (rv_path r)) at 1. apply subarray_middle; rewrite ?blen_app, !blen_le_bytes; lia.
Qed.

Lemma path_decoded {A} (l : bytes) m m' (mk : list Z -> A) : l <> [] ->
  match utf8_decode l with None => Err m | Some path => validate_file_path path end = Ok tt
  <-> exists x, match utf8_decode l with
                | None => Err m'
                | Some path => let! _ := if bool_decide (path = []) then Ok path else validatePolyfsRecordPath path in Ok (mk path)
                end = Ok x.
Proof.
  intros Hne. destruct (utf8_decode l) as [path|] eqn:Hd; [|split; [done | by intros [x ?]]].
  apply utf8_decode_iff in Hd as [Hs Hl]. rewrite bool_decide_eq_false_2 by (intros ->; done).
  rewrite (path_policies path Hs). split.
  - intros ->. by eexists.
  - intros [x Hx]. apply bind_Ok in Hx as (q & Hq & _). rewrite Hq. by destruct (valid_path _ _ Hq) as [-> _].
Qed.

(** A record is valid exactly when the website reads it. *)
Lemma record_policies r : record_fields_ok r ->
  record_validate r false = Ok tt <-> exists x, decodePolyfsFileRecord (record_to_bytes r) = Ok x.
Proof.
  intros Hf. destruct (record_bytes_fields r Hf) as (Hl & Hb & Hstart & Hpacked & Hts & Hpath & _). destruct Hf as [Hs Hlf _ Hp Hpb].
  unfold decodePolyfsFileRecord, record_validate. rewrite Hl, Hstart, Hpacked, Hpath, Hts. change FILE_RECORD_SIZE with 256.
  cbn [Z.eqb Pos.eqb negb andb unpack_length_and_flags fst].
  change U64_MAX with 0xffffffffffffffff. destruct (_ <? _) eqn:Hov; [split; [done | by intros [x ?]]|].
  destruct (index_of_zero (rv_path r)) as [t|] eqn:Ht; cbn [from_option]; unfold id.
  - destruct (existsb _ (drop t _)) eqn:Hz; [split; [done | by intros [x ?]]|]. destruct t as [|t].
    + rewrite (bool_decide_eq_true_2 (0%nat = 0%nat)) by done. split; [|done]. intros _. by eexists.
    + rewrite bool_decide_eq_false_2 by done. apply path_decoded. destruct (rv_path r); [discriminate Hp | done].
  - rewrite drop_ge by done. cbn [existsb]. rewrite firstn_all. destruct (rv_path r) as [|c l]; [discriminate Hp|].
    rewrite bool_decide_eq_false_2 by done. by apply path_decoded.
Qed.

Lemma record_roundtrip r : record_fields_ok r -> record_from_bytes (record_to_bytes r) = Ok r.
Proof.
  intros Hf. destruct (record_bytes_fields r Hf) as (Hl & _ & Hstart & Hpacked & Hts & _ & Hpath).
  unfold record_from_bytes. rewrite Hl, Hstart, Hpacked, Hts, Hpath. change FILE_RECORD_SIZE with 256. cbn. by destruct r.
Qed.

(** ** The header of version 3 *)

Lemma subarray_skip (a l : bytes) i j n : blen a = n -> n <= i -> subarray (a ++ l) i j = subarray l (i - n) (j - n).
Proof.
  intros <- Hi. unfold subarray, blen in *. rewrite drop_app_ge by lia. f_equal; [lia|]. f_equal. lia.
Qed.

Lemma header_v3_parts (a b c d e f g i : bytes) : blen a = 4 -> blen b = 2 -> blen c = 2 -> blen d = 4 -> blen e = 4 -> blen f = 4 ->
  blen g = 8 -> blen i = 32 ->
  let l := a ++ b ++ c ++ d ++ e ++ f ++ g ++ i ++ zeros 68 in
  blen l = 128 /\ subarray l 0 4 = a /\ subarray l 4 6 = b /\ subarray l 6 8 = c /\ subarray l 8 12 = d /\ subarray l 12 16 = e
  /\ subarray l 16 20 = f /\ subarray l 20 28 = g /\ subarray l 28 60 = i /\ subarray l 60 128 = zeros 68.
Proof.
  intros Ha Hb Hc Hd He Hf Hg Hi l. unfold l. rewrite !blen_app, blen_zeros by lia. split; [lia|].
  split_and!; repeat (erewrite subarray_skip; [|eassumption | lia]); cbn [Z.sub Z.add Z.opp Z.pos_sub Pos.pred_double];
    [by apply subarray_head .. | by apply subarray_all].
Qed.

Definition header_v3_ok (h : FileTableHeaderV3) : Prop :=
  0 <= h3_record_count h < 2 ^ 32 /\ 0 <= h3_integrity_leaf_count h < 2 ^ 64 /\ blen (h3_integrity_root h) = 32.

Lemma get_part l a b x i : subarray l a b = x -> 0 <= a -> a <= i < b -> b <= blen l -> get l i = get x (i - a).
Proof. intros <- Ha Hi Hb. rewrite get_subarray by lia. f_equal. lia. Qed.

(** A header that is written is read back. *)
Lemma header_v3_roundtrip h b : header_v3_ok h -> header_v3_to_bytes h = Ok b -> header_v3_from_bytes b = Ok h.
Proof.
  intros (Hc & Hl & Hr) H. pose proof H as Hw. unfold header_v3_to_bytes in H. ok_step H. apply Ok_inj in H as <-.
  edestruct (header_v3_parts MAGIC_NILF (le_bytes 2 3) (le_bytes 2 FILE_RECORD_SIZE) (le_bytes 4 (h3_record_count h)) [1; 1; 0; 0]
    (le_bytes 4 ENCODED_BLOB_BYTES) (le_bytes 8 (h3_integrity_leaf_count h)) (h3_integrity_root h))
    as (Hlen & H1 & H2 & H3 & H4 & H5 & H6 & H7 & H8 & H9); try done. set (b := MAGIC_NILF ++ _) in *.
  unfold header_v3_from_bytes. rewrite Hlen, H1, H2, H3, H4, H6, H7, H8, H9.
  rewrite !(get_part b 12 16 _ _ H5) by (rewrite ?Hlen; lia).
  rewrite !little_endian_le_bytes by (done || (unfold FILE_RECORD_SIZE, ENCODED_BLOB_BYTES; lia)).
  rewrite bool_decide_eq_true_2, !Z.eqb_refl by done. change (existsb _ (zeros 68)) with false.
  change (get [1; 1; 0; 0] (12 - 12)) with 1. change (get [1; 1; 0; 0] (13 - 12)) with 1.
  change (get [1; 1; 0; 0] (14 - 12)) with 0. change (get [1; 1; 0; 0] (15 - 12)) with 0.
  cbn [negb orb Z.eqb Pos.eqb]. replace {| h3_record_count := _ |} with h by by destruct h. by rewrite Hw.
Qed.

(** The reader of a generation's header accepts what was written for it, and nothing else
    for another root or number of leaves. *)
Lemma verify_header_v3 h b root leaves : header_v3_ok h -> header_v3_to_bytes h = Ok b -> blen root = 32 -> 0 <= leaves <= U64_MAX ->
  verify_fat_v3_header b root leaves
  = if bool_decide (h3_integrity_root h = root /\ h3_integrity_leaf_count h = leaves) then Ok (h3_record_count h)
    else Err "FAT v3 header does not match frozen authority".
Proof.
  intros Hok Hb Hr Hl. unfold verify_fat_v3_header. rewrite Hr, (header_v3_roundtrip h b Hok Hb). cbn [Z.eqb Pos.eqb negb bind].
  unfold checked_metadata_u64. rewrite !(proj2 (Z.ltb_ge _ _)) by lia. cbn [orb bind].
  repeat case_bool_decide; cbn [negb]; try (destruct (Z.eqb_spec (h3_integrity_leaf_count h) leaves)); cbn [negb]; tauto.
Qed.
