(* ===== verification/Effects.v ===== *)
(** * Programs with effects

    An async function whose course depends on the answers of a store, a wallet, a
    provider or the chain is a tree: it ends, or asks for an effect and goes on
    with the answer.  The environment is a relation between the world before an
    effect, the answer and the world after it.  A tab may close between any two
    effects, so [safe_run] asks an invariant of the world at every one of them,
    and a postcondition of the answers the program ends with. *)

From S2P Require Import Prelude.

Inductive prog (E : Type -> Type) (A : Type) : Type :=
| Ret (a : A)
| Vis {X : Type} (e : E X) (k : X -> prog E A).
Arguments Ret {E A} a.
Arguments Vis {E A X} e k.

Fixpoint pbind {E A B} (p : prog E A) (f : A -> prog E B) : prog E B :=
  match p with
  | Ret a => f a
  | Vis e k => Vis e (fun x => pbind (k x) f)
  end.

(** [await e] in a function that throws: an error of the effect leaves it. *)
Definition await {E A X} (e : E (result X)) (k : X -> prog E (result A)) : prog E (result A) :=
  Vis e (fun r => match r with Ok x => k x | Err m => Ret (Err m) end).

(** A call of another such function. *)
Definition call {E A B} (p : prog E (result A)) (k : A -> prog E (result B)) : prog E (result B) :=
  pbind p (fun r => match r with Ok x => k x | Err m => Ret (Err m) end).

Section run.
Context {E : Type -> Type} {W : Type} (env : forall X, E X -> W -> X -> W -> Prop) (inv : W -> Prop).

Definition exec_step {A} (c c' : prog E A * W) : Prop :=
  match c.1 with
  | Ret _ => False
  | Vis e k => exists x, env _ e c.2 x c'.2 /\ c'.1 = k x
  end.

Fixpoint safe_run {A} (Q : A -> W -> Prop) (p : prog E A) (w : W) : Prop :=
  inv w /\
  match p with
  | Ret a => Q a w
  | Vis e k => forall x w', env _ e w x w' -> safe_run Q (k x) w'
  end.

Lemma safe_run_exec {A} (Q : A -> W -> Prop) p w p' w' :
  rtc exec_step (p, w) (p', w') -> safe_run Q p w -> safe_run Q p' w'.
Proof.
  intros H. remember (p, w) as c eqn:Hc. remember (p', w') as c' eqn:Hc'.
  revert p w Hc. induction H as [c|c1 c2 c3 Hs _ IH]; intros p w Hc Hr.
  - rewrite Hc in Hc'. by injection Hc' as <- <-.
  - subst c1 c3. destruct c2 as [p2 w2]. unfold exec_step in Hs. cbn [fst snd] in Hs.
    destruct p as [o|X e k]; [done|]. destruct Hs as (x & He & ->).
    apply (IH eq_refl _ _ eq_refl). destruct Hr as [_ Hr]. by apply Hr.
Qed.

Lemma safe_run_inv {A} (Q : A -> W -> Prop) p w : safe_run Q p w -> inv w.
Proof. destruct p; by intros [? _]. Qed.

Lemma safe_ret {A} (Q : A -> W -> Prop) a w : inv w -> Q a w -> safe_run Q (Ret a) w.
Proof. by split. Qed.

Lemma safe_vis {A X} (Q : A -> W -> Prop) (e : E X) k w :
  inv w -> (forall x w', env _ e w x w' -> safe_run Q (k x) w') -> safe_run Q (Vis e k) w.
Proof. by split. Qed.

Lemma safe_mono {A} (Q Q' : A -> W -> Prop) p w :
  (forall a w, inv w -> Q a w -> Q' a w) -> safe_run Q p w -> safe_run Q' p w.
Proof.
  intros HQ. revert w. induction p as [a|X e k IH]; intros w [Hi Hr]; (split; [done|]); [by apply HQ|].
  intros x w' He. by apply IH, Hr.
Qed.

Lemma safe_bind {A B} (Q : B -> W -> Prop) (p : prog E A) (f : A -> prog E B) w :
  safe_run (fun a w => safe_run Q (f a) w) p w -> safe_run Q (pbind p f) w.
Proof.
  revert w. induction p as [a|X e k IH]; intros w [Hi Hr]; cbn [pbind]; [done|].
  split; [done|]. intros x w' He. by apply IH, Hr.
Qed.

Lemma safe_await {A X} (Q : result A -> W -> Prop) (e : E (result X)) k w :
  inv w -> (forall m w', env _ e w (Err m) w' -> inv w' /\ Q (Err m) w') ->
  (forall x w', env _ e w (Ok x) w' -> safe_run Q (k x) w') -> safe_run Q (await e k) w.
Proof. intros Hi He Hk. split; [done|]. intros [x|m] w' H; [by apply Hk | by apply He]. Qed.

Lemma safe_call {A B} (Q : result B -> W -> Prop) (p : prog E (result A)) k w :
  safe_run (fun r w => match r with Ok x => safe_run Q (k x) w | Err m => Q (Err m) w end) p w ->
  safe_run Q (call p k) w.
Proof.
  intros H. apply safe_bind. eapply safe_mono; [|exact H].
  intros [x|m] w' Hi HQ; [done | by split].
Qed.

Lemma exec_answer {A X} (e : E X) (k : X -> prog E A) w x w' c :
  env _ e w x w' -> rtc exec_step (k x, w') c -> rtc exec_step (Vis e k, w) c.
Proof. intros He Hk. eapply rtc_l; [|exact Hk]. by exists x. Qed.

Lemma exec_bind {A B} (f : A -> prog E B) p w p' w' :
  rtc exec_step (p, w) (p', w') -> rtc exec_step (pbind p f, w) (pbind p' f, w').
Proof.
  intros H. remember (p, w) as c eqn:Hc. remember (p', w') as c' eqn:Hc'.
  revert p w Hc. induction H as [c|c1 c2 c3 Hs _ IH]; intros p w Hc.
  - rewrite Hc in Hc'. by injection Hc' as -> ->.
  - subst c1 c3. destruct c2 as [p2 w2]. unfold exec_step in Hs. cbn [fst snd] in Hs.
    destruct p as [o|X e k]; [done|]. destruct Hs as (x & He & ->). cbn [pbind].
    eapply rtc_l; [|by apply IH]. by exists x.
Qed.

(** An environment that always answers brings every program to its end. *)
Lemma exec_total {A} (p : prog E A) w :
  (forall X (e : E X) w, exists x w', env _ e w x w') -> exists a w', rtc exec_step (p, w) (Ret a, w').
Proof.
  intros Henv. revert w. induction p as [a|X e k IH]; intros w; [by exists a, w|].
  destruct (Henv X e w) as (x & w1 & He). destruct (IH x w1) as (a & w' & Hr).
  exists a, w'. by eapply exec_answer.
Qed.
End run.
