(* ===== verification/V3Execute.v ===== *)
(** * Executing a retrieval session

    Models [executeRetrievalV3] of src/polystore-website/src/lib/retrievalV3Flow.ts:
    for every obligation of a session, fetch and verify its chunks two ahead, decode
    and write them, flush, advance the saved cursor, then acknowledge the slot on
    the chain and ask the provider for its proof.

    It is a program of effects (Effects.v).  The world keeps what survives a closed
    tab: the flushed part of the output, the cursors, and the slots that were
    acknowledged.  Diagnostics and progress reports are left out. *)

From S2P Require Import Prelude JsNumber JsBytes Layout Windows Packing V3Chunks V3Session Effects.
Local Open Scope Z_scope.

(** The fields that the loop reads; [po_accepted] is [state === 'accepted']. *)
Record RetrievalProofV3Outcome := {
  po_slot : option Z; po_accepted : bool; po_remaining : option Z }.

Inductive effect : Type -> Type :=
| Observe (s : FrozenSessionV3) : effect (result FrozenSessionV3)
| Cursor (slot : Z) : effect (option Z)
| StartFetch (c : ChunkAuthority) : effect unit
| CheckAbort : effect (result unit)
| AwaitChunk (c : ChunkAuthority) : effect (result bytes)
| Write (offset : Z) (bs : bytes) : effect (result unit)
| Flush : effect (result unit)
| Advance (slot through : Z) : effect (result unit)
| AllSettled : effect unit
| Acknowledge (s : FrozenSessionV3) (slot : Z) : effect (result FrozenSessionV3)
| Refresh (s : FrozenSessionV3) : effect (result unit)
| RequestProof (s : FrozenSessionV3) (slot : Z) : effect (result RetrievalProofV3Outcome).

Abbreviation prog := (prog effect).

(** [chunk.entries[chunk.entries.length - 1].t] *)
Definition chunkLast (c : ChunkAuthority) : Z := default 0 (e_t <$> last (c_entries c)).

(** [while (pending.length < 2)]: the chunks whose fetch was started and those the
    generator still has. *)
Fixpoint enqueue (slot : Z) (pending source : list ChunkAuthority)
    : prog (list ChunkAuthority * list ChunkAuthority) :=
  match source with
  | [] => Ret (pending, [])
  | c :: rest =>
      if Nat.ltb (length pending) 2 then
        Vis (Cursor slot) (fun cursor =>
        if chunkLast c <=? default (-1) cursor then enqueue slot pending rest
        else Vis (StartFetch c) (fun _ => enqueue slot (pending ++ [c]) rest))
      else Ret (pending, source)
  end.

(** The body of [decode_write]: entry [i] and those after it. *)
Fixpoint writeEntries (session : FrozenSessionV3) (encoded : bytes) (i : Z)
    (entries : list EntryAuthority) : prog (result unit) :=
  match entries with
  | [] => Ret (Ok tt)
  | entry :: entries =>
      let wantedStart := start_offset (fs_file session) + fs_rangeStart session in
      let wantedEnd := wantedStart + fs_rangeLength session in
      let blobStart := e_t entry * RAW_BLOB_BYTES in
      let blobEnd := blobStart + RAW_BLOB_BYTES in
      let from := if wantedStart <? blobStart then blobStart else wantedStart in
      let to := if blobEnd <? wantedEnd then blobEnd else wantedEnd in
      if to <=? from then Ret (Err "v3 chunk lies outside the frozen requested range") else
      let valid := start_offset (fs_file session) + size_bytes (fs_file session) - blobStart in
      let validLength := Number (if valid <? RAW_BLOB_BYTES then valid else RAW_BLOB_BYTES) in
      match decodeRetrievalSlice (subarray encoded (i * BLOB_SIZE_BYTES) ((i + 1) * BLOB_SIZE_BYTES))
              validLength (Number (from - blobStart)) (Number (to - from)) with
      | Err m => Ret (Err m)
      | Ok bs => await (Write (from - wantedStart) bs) (fun _ => writeEntries session encoded (i + 1) entries)
      end
  end.

(** [while (pending.length)]; [fuel] is the number of chunks that may be left. *)
Fixpoint drain (fuel : nat) (session : FrozenSessionV3) (slot : Z)
    (pending source : list ChunkAuthority) : prog (result unit) :=
  match pending with
  | [] => Ret (Ok tt)
  | chunk :: pending =>
      match fuel with
      | O => Ret (Err OUT_OF_FUEL)
      | S fuel =>
          await CheckAbort (fun _ =>
          await (AwaitChunk chunk) (fun encoded =>
          pbind (enqueue slot pending source) (fun '(pending, source) =>
          call (writeEntries session encoded 0 (c_entries chunk)) (fun _ =>
          await Flush (fun _ =>
          await (Advance slot (chunkLast chunk)) (fun _ =>
          drain fuel session slot pending source))))))
      end
  end.

(** The [try] and its [finally]. *)
Definition fetchSlot (session : FrozenSessionV3) (slot : Z) : prog (result unit) :=
  pbind
    (match planV3Chunks (fs_range session) (Some (int slot)) with
     | Err m => Ret (Err m)
     | Ok source =>
         pbind (enqueue slot [] source) (fun '(pending, source') =>
         drain (length source) session slot pending source')
     end)
    (fun r => Vis AllSettled (fun _ => Ret r)).

(** [for (let attempt = 0; attempt < 3 && ...)]: [n] attempts are left. *)
Fixpoint proofLoop (n : nat) (session : FrozenSessionV3) (slot : Z)
    (outcomes : list RetrievalProofV3Outcome)
    : prog (result (FrozenSessionV3 * list RetrievalProofV3Outcome)) :=
  match n with
  | O => Ret (Ok (session, outcomes))
  | S n =>
      if Z.testbit (fs_settledMask session) slot then Ret (Ok (session, outcomes)) else
      await (RequestProof session slot) (fun outcome =>
      if match po_slot outcome with Some s => negb (s =? slot) | None => false end
      then Ret (Err "provider proof outcome has the wrong v3 slot") else
      let outcomes := outcomes ++ [outcome] in
      await (Observe session) (fun session =>
      await (Refresh session) (fun _ =>
      if negb (po_accepted outcome) || (default 0 (po_remaining outcome) =? 0)
      then Ret (Ok (session, outcomes))
      else proofLoop n session slot outcomes)))
  end.

Definition executeObligation (session : FrozenSessionV3) (obligation : RetrievalObligationV3)
    (outcomes : list RetrievalProofV3Outcome)
    : prog (result (FrozenSessionV3 * list RetrievalProofV3Outcome)) :=
  let slot := o_slot obligation in
  let end_ := retrievalV3SlotEnd (s_last (fs_range session)) slot in
  Vis (Cursor slot) (fun cursor =>
  let through := default (-1) cursor in
  if Z.testbit (fs_ackedMask session) slot && (through <? end_)
  then Ret (Err "v3 obligation was acknowledged before durable output completed") else
  call (if negb (Z.testbit (fs_ackedMask session) slot) then
          call (fetchSlot session slot) (fun _ =>
          await (Acknowledge session slot) (fun session =>
          await (Refresh session) (fun _ => Ret (Ok session))))
        else Ret (Ok session)) (fun session =>
  if negb (Z.testbit (fs_settledMask session) slot)
     && negb (Z.testbit (fs_refundedMask session) slot)
  then proofLoop 3 session slot outcomes
  else Ret (Ok (session, outcomes)))).

Fixpoint executeObligations (session : FrozenSessionV3) (obligations : list RetrievalObligationV3)
    (outcomes : list RetrievalProofV3Outcome)
    : prog (result (FrozenSessionV3 * list RetrievalProofV3Outcome)) :=
  match obligations with
  | [] => Ret (Ok (session, outcomes))
  | obligation :: obligations =>
      call (executeObligation session obligation outcomes) (fun '(session, outcomes) =>
      executeObligations session obligations outcomes)
  end.

Definition executeRetrievalV3 (initial : FrozenSessionV3)
    : prog (result (FrozenSessionV3 * list RetrievalProofV3Outcome)) :=
  await (Observe initial) (fun session =>
  executeObligations session (fs_obligations session) []).

(** ** The world *)

(** The cursors that are saved, the writes that were not flushed and those that were,
    the fetches under way, and the slots an acknowledgement was sent for. *)
Record world := {
  w_cursors : Z -> option Z; w_written : list (Z * bytes); w_flushed : list (Z * bytes);
  w_flight : nat; w_acked : list Z }.

Definition set_written (l : list (Z * bytes)) (w : world) : world :=
  {| w_cursors := w_cursors w; w_written := l; w_flushed := w_flushed w; w_flight := w_flight w;
     w_acked := w_acked w |}.
Definition set_flushed (l : list (Z * bytes)) (w : world) : world :=
  {| w_cursors := w_cursors w; w_written := w_written w; w_flushed := l; w_flight := w_flight w;
     w_acked := w_acked w |}.
Definition set_flight (n : nat) (w : world) : world :=
  {| w_cursors := w_cursors w; w_written := w_written w; w_flushed := w_flushed w; w_flight := n;
     w_acked := w_acked w |}.
Definition set_cursor (slot through : Z) (w : world) : world :=
  {| w_cursors := fun s => if s =? slot then Some through else w_cursors w s;
     w_written := w_written w; w_flushed := w_flushed w; w_flight := w_flight w;
     w_acked := w_acked w |}.
Definition add_ack (slot : Z) (w : world) : world :=
  {| w_cursors := w_cursors w; w_written := w_written w; w_flushed := w_flushed w;
     w_flight := w_flight w; w_acked := slot :: w_acked w |}.

Section execute.
(** The session as it was frozen, and the encoded blobs its integrity root commits to. *)
Context (frozen : FrozenSessionV3) (blob : Z -> bytes).

Definition wantedStart : Z := start_offset (fs_file frozen) + fs_rangeStart frozen.
Definition first_blob : Z := s_first (fs_range frozen).
Definition last_blob : Z := s_last (fs_range frozen).

(** A later reading of the same session. *)
Record same_session (s : FrozenSessionV3) : Prop := {
  ss_range : fs_range s = fs_range frozen; ss_file : fs_file s = fs_file frozen;
  ss_start : fs_rangeStart s = fs_rangeStart frozen;
  ss_length : fs_rangeLength s = fs_rangeLength frozen;
  ss_slots : map o_slot (fs_obligations s) = map o_slot (fs_obligations frozen) }.

(** The chain shows no acknowledgement that was not sent. *)
Definition acks_known (acked : list Z) (s : FrozenSessionV3) : Prop :=
  forall slot, Z.testbit (fs_ackedMask s) slot = true -> slot ∈ acked.

Definition env_error {A} (r : result A) : Prop := r <> Err OUT_OF_FUEL.

(** The answers of the environment: readings of the session are of the same session,
    a chunk that passes verification is made of the committed blobs, a flush makes
    the writes durable, and an effect that fails may have done part of its work. *)
Definition env_step {X} (e : effect X) (w : world) (x : X) (w' : world) : Prop :=
  match e in effect Y return Y -> Prop with
  | Observe _ => fun x => env_error x /\ w' = w
      /\ match x with Ok s => same_session s /\ acks_known (w_acked w) s | Err _ => True end
  | Cursor slot => fun x => x = w_cursors w slot /\ w' = w
  | StartFetch _ => fun _ => w' = set_flight (S (w_flight w)) w
  | CheckAbort => fun x => env_error x /\ w' = w
  | AwaitChunk c => fun x => env_error x /\ w' = set_flight (pred (w_flight w)) w
      /\ match x with
         | Ok encoded => encoded = concat (map (fun e => blob (e_t e)) (c_entries c))
             /\ Forall (fun e => blen (blob (e_t e)) = BLOB_SIZE_BYTES) (c_entries c)
         | Err _ => True
         end
  | Write offset bs => fun x => env_error x
      /\ match x with
         | Ok _ => w' = set_written (w_written w ++ [(offset, bs)]) w
         | Err _ => exists n, w' = set_written (w_written w ++ [(offset, take n bs)]) w
         end
  | Flush => fun x => env_error x
      /\ match x with
         | Ok _ => w' = set_written [] (set_flushed (w_flushed w ++ w_written w) w)
         | Err _ => exists l, l ⊆ w_written w /\ w' = set_flushed (w_flushed w ++ l) w
         end
  | Advance slot through => fun x => env_error x
      /\ match x with
         | Ok _ => default (-1) (w_cursors w slot) < through /\ w' = set_cursor slot through w
         | Err _ => w' = w
         end
  | AllSettled => fun _ => w' = set_flight 0 w
  | Acknowledge _ slot => fun x => env_error x
      /\ match x with
         | Ok s => w' = add_ack slot w /\ same_session s /\ acks_known (slot :: w_acked w) s
         | Err _ => w' = w \/ w' = add_ack slot w
         end
  | Refresh _ => fun x => env_error x /\ w' = w
  | RequestProof _ _ => fun x => env_error x /\ w' = w
  end x.

(** A closed tab: of the writes that were not flushed any part may be lost. *)
Definition crash (w w' : world) : Prop :=
  exists l, l ⊆ w_written w /\ w' = set_flight 0 (set_written [] (set_flushed (w_flushed w ++ l) w)).

Definition interrupted_run (w w' : world) : Prop :=
  exists initial p w1, rtc (exec_step (@env_step)) (executeRetrievalV3 initial, w) (p, w1)
    /\ crash w1 w'.
Definition fresh_world : world :=
  {| w_cursors := fun _ => None; w_written := []; w_flushed := []; w_flight := 0; w_acked := [] |}.
Definition reachable_world (w : world) : Prop := rtc interrupted_run fresh_world w.

(** ** What it promises *)

(** The payload byte at raw offset [x] of the deal, and the length of the payload of
    blob [t] that the file reaches. *)
Definition valid_length (t : Z) : Z :=
  let valid := start_offset (fs_file frozen) + size_bytes (fs_file frozen) - t * RAW_BLOB_BYTES in
  Number (if valid <? RAW_BLOB_BYTES then valid else RAW_BLOB_BYTES).
Definition raw_byte (x : Z) : Z :=
  let t := x / RAW_BLOB_BYTES in
  get (blob t) (payload_index (valid_length t) (x mod RAW_BLOB_BYTES)).

(** A write puts payload bytes at their place in the output. *)
Definition faithful (entry : Z * bytes) : Prop :=
  forall i, 0 <= i < blen entry.2 -> get entry.2 i = raw_byte (wantedStart + entry.1 + i).

Definition covers (entry : Z * bytes) (pos : Z) : Prop :=
  entry.1 <= pos < entry.1 + blen entry.2.

(** The part of blob [t] that was asked for is in the log [l]. *)
Definition holds_blob (l : list (Z * bytes)) (t : Z) : Prop :=
  forall pos, 0 <= pos < fs_rangeLength frozen -> (wantedStart + pos) / RAW_BLOB_BYTES = t ->
    exists entry, entry ∈ l /\ covers entry pos.

(** The byte that reading the output gives at [pos]: that of the last write there. *)
Definition read_log (l : list (Z * bytes)) (pos : Z) : option Z :=
  foldl (fun acc entry => if (entry.1 <=? pos) && (pos <? entry.1 + blen entry.2)
                          then Some (get entry.2 (pos - entry.1)) else acc) None l.

Definition slot_done (w : world) (slot : Z) : Prop :=
  forall t, t ∈ slotBlobs first_blob last_blob slot -> holds_blob (w_flushed w) t.

Record output_inv (w : world) : Prop := {
  oi_faithful : Forall faithful (w_flushed w ++ w_written w);
  oi_cursor : forall slot c t, w_cursors w slot = Some c ->
    t ∈ slotBlobs first_blob last_blob slot -> t <= c -> holds_blob (w_flushed w) t;
  oi_acked : forall slot, slot ∈ w_acked w -> slot_done w slot;
  oi_flight : (w_flight w <= 2)%nat }.

(** ** Lemmas *)

Abbreviation safe := (safe_run (@env_step) output_inv).

Lemma env_error_fuel {A} m : env_error (Err m : result A) -> m <> OUT_OF_FUEL.
Proof. intros H ->. by apply H. Qed.

Lemma holds_mono l l' t : l ⊆ l' -> holds_blob l t -> holds_blob l' t.
Proof. intros Hl Hh pos Hp Ht. destruct (Hh pos Hp Ht) as (e & He & Hc). exists e. auto. Qed.

Lemma faithful_take o bs n : faithful (o, bs) -> faithful (o, take n bs).
Proof.
  intros Hf i Hi. cbn [fst snd] in *. rewrite <- Hf; cbn [fst snd].
  - unfold get. rewrite !nth_lookup, lookup_take_lt; [done|]. unfold blen in Hi. rewrite length_take in Hi. lia.
  - unfold blen in *. rewrite length_take in Hi. lia.
Qed.

Lemma inv_flight w n : (n <= 2)%nat -> output_inv w -> output_inv (set_flight n w).
Proof. intros Hn []. by constructor. Qed.

Lemma inv_write w o bs : faithful (o, bs) -> output_inv w -> output_inv (set_written (w_written w ++ [(o, bs)]) w).
Proof.
  intros Hf [Hfa Hc Ha Hfl]. constructor; try done. cbn. rewrite app_assoc. apply Forall_app.
  split; [done | by apply Forall_singleton].
Qed.

Lemma inv_flush_some w l written :
  l ⊆ w_written w -> written ⊆ w_written w -> output_inv w ->
  output_inv (set_written written (set_flushed (w_flushed w ++ l) w)).
Proof.
  intros Hl Hw [Hfa Hc Ha Hfl]. rewrite Forall_app, !Forall_forall in Hfa. destruct Hfa as [Hf1 Hf2].
  constructor; cbn; [| | |done].
  - rewrite !Forall_app, !Forall_forall. split_and!; auto.
  - intros slot c t Hs Ht Hle. eapply holds_mono; [|by eapply Hc]. set_solver.
  - intros slot Hs t Ht. eapply holds_mono; [|by eapply Ha]. cbn. set_solver.
Qed.

Lemma inv_flush_part w l :
  l ⊆ w_written w -> output_inv w -> output_inv (set_flushed (w_flushed w ++ l) w).
Proof. intros Hl Hi. exact (inv_flush_some w l (w_written w) Hl (reflexivity _) Hi). Qed.

Lemma inv_flush_all w :
  output_inv w -> output_inv (set_written [] (set_flushed (w_flushed w ++ w_written w) w)).
Proof. apply inv_flush_some; [done | by intros x ?%elem_of_nil]. Qed.

Lemma inv_ack w slot : slot_done w slot -> output_inv w -> output_inv (add_ack slot w).
Proof.
  intros Hd [Hfa Hc Ha Hfl]. constructor; try done. cbn. intros s [->|Hs]%elem_of_cons; [done | by apply Ha].
Qed.

Lemma inv_cursor w slot through :
  (forall t, t ∈ slotBlobs (first_blob) (last_blob) slot -> t <= through -> holds_blob (w_flushed w) t) ->
  output_inv w -> output_inv (set_cursor slot through w).
Proof.
  intros Hd [Hfa Hc Ha Hfl]. constructor; try done. cbn. intros s c t.
  destruct (Z.eqb_spec s slot) as [->|]; [intros [= <-]; apply Hd | by apply Hc].
Qed.

(** ** Chunks of a slot *)

Definition chunk_blobs (c : ChunkAuthority) : list Z := map e_t (c_entries c).

Lemma chunks_blobs l : map e_t (concat (map c_entries l)) = concat (map chunk_blobs l).
Proof. rewrite concat_map, map_map. done. Qed.

Lemma sorted_last (l : list Z) x y : StronglySorted Z.lt l -> last l = Some x -> y ∈ l -> y <= x.
Proof.
  intros Hs [l' ->]%last_Some Hy. apply elem_of_app in Hy as [Hy|Hy%list_elem_of_singleton]; [|lia].
  assert (y < x); [|lia]. eapply (StronglySorted_app_1_elem_of Z.lt); [exact Hs | done | by left].
Qed.

Section chunks.
Context (all : list ChunkAuthority) (Hsorted : StronglySorted Z.lt (concat (map chunk_blobs all))).

Lemma chunk_sorted c : c ∈ all -> StronglySorted Z.lt (chunk_blobs c).
Proof using Hsorted.
  intros (l1 & l2 & ->)%list_elem_of_split. rewrite map_app, concat_app in Hsorted. cbn [map concat] in Hsorted.
  by apply StronglySorted_app_1_r, StronglySorted_app_1_l in Hsorted.
Qed.

Lemma chunk_le_last c t : c ∈ all -> t ∈ chunk_blobs c -> t <= chunkLast c.
Proof using Hsorted.
  intros Hc Ht. unfold chunkLast.
  destruct (last (c_entries c)) as [e|] eqn:He.
  - apply (sorted_last (chunk_blobs c)); [by apply chunk_sorted | | done].
    unfold chunk_blobs. change (map e_t (c_entries c)) with (e_t <$> c_entries c). by rewrite fmap_last, He.
  - apply last_None in He. unfold chunk_blobs in Ht. rewrite He in Ht. by apply elem_of_nil in Ht.
Qed.

Lemma chunk_last_in c : c_entries c <> [] -> chunkLast c ∈ chunk_blobs c.
Proof using.
  intros Hne. unfold chunkLast, chunk_blobs. destruct (last (c_entries c)) as [e|] eqn:He.
  - cbn. apply last_Some in He as [l' ->]. rewrite map_app. apply elem_of_app. right. by left.
  - by apply last_None in He.
Qed.

Lemma chunk_later c rest c' t :
  c :: rest `sublist_of` all -> c_entries c <> [] -> c' ∈ rest -> t ∈ chunk_blobs c' -> chunkLast c < t.
Proof using Hsorted.
  intros (k1 & k2 & Heq & Hrest)%sublist_cons_l Hne Hc' Ht.
  assert (Hs : StronglySorted Z.lt (chunk_blobs c ++ concat (map chunk_blobs k2))).
  { rewrite Heq, map_app, concat_app in Hsorted. by apply StronglySorted_app_1_r in Hsorted. }
  eapply (StronglySorted_app_1_elem_of Z.lt); [exact Hs | by apply chunk_last_in |].
  apply list_elem_of_In, in_concat. exists (chunk_blobs c'). split; [|by apply list_elem_of_In].
  apply in_map, list_elem_of_In. by eapply elem_of_sublist.
Qed.
End chunks.

(** ** Writing a chunk *)

Lemma blob_range t x : t * RAW_BLOB_BYTES <= x < t * RAW_BLOB_BYTES + RAW_BLOB_BYTES <-> x / RAW_BLOB_BYTES = t.
Proof. unfold RAW_BLOB_BYTES. split; intros; [|subst t]; div_lia. Qed.

(** What decoding one entry gives is faithful and is the whole wanted part of its
    blob. *)
Lemma decoded_entry t from to bs :
  let lo := t * RAW_BLOB_BYTES in
  from = (if wantedStart <? lo then lo else wantedStart) ->
  to = (if lo + RAW_BLOB_BYTES <? wantedStart + fs_rangeLength frozen then lo + RAW_BLOB_BYTES
        else wantedStart + fs_rangeLength frozen) ->
  from < to ->
  decodeRetrievalSlice (blob t) (valid_length t) (Number (from - lo)) (Number (to - from)) = Ok bs ->
  faithful (from - wantedStart, bs) /\ holds_blob [(from - wantedStart, bs)] t.
Proof.
  intros lo Hfrom Hto Hlt Hd.
  assert (lo <= from /\ wantedStart <= from /\ (from = lo \/ from = wantedStart)
    /\ to <= lo + RAW_BLOB_BYTES /\ to <= wantedStart + fs_rangeLength frozen
    /\ (to = lo + RAW_BLOB_BYTES \/ to = wantedStart + fs_rangeLength frozen)) as (? & ? & ? & ? & ? & ?).
  { subst from to. repeat case_match; bool_to_prop; lia. }
  assert (RAW_BLOB_BYTES = 126976) by done.
  rewrite !Number_exact in Hd by (unfold MAX_SAFE_INTEGER; lia).
  apply decodeRetrievalSlice_iff in Hd as (_ & _ & _ & _ & _ & Hl & Hg). split.
  - intros i Hi. cbn [fst snd] in *. rewrite Hg by lia. unfold raw_byte.
    replace (wantedStart + (from - wantedStart) + i) with (from + i) by lia.
    assert ((from + i) / RAW_BLOB_BYTES = t) as Ht by (apply blob_range; lia).
    rewrite Ht. f_equal. f_equal. rewrite Z.mod_eq, Ht by lia. lia.
  - intros pos Hp Ht%blob_range. eexists; split; [by left|]. unfold covers; cbn [fst snd]. lia.
Qed.

Lemma same_start s : same_session s -> start_offset (fs_file s) + fs_rangeStart s = wantedStart.
Proof. intros []. unfold wantedStart. congruence. Qed.

Lemma set_written_same w l : set_written l (set_written (w_written w) w) = set_written l w.
Proof. done. Qed.

Lemma writeEntries_safe s entries : forall encoded pre i w,
  same_session s -> encoded = pre ++ concat (map (fun e => blob (e_t e)) entries) ->
  blen pre = i * BLOB_SIZE_BYTES ->
  Forall (fun e => blen (blob (e_t e)) = BLOB_SIZE_BYTES) entries -> output_inv w ->
  safe (fun r w' => match r with
    | Ok _ => exists l, w' = set_written (w_written w ++ l) w
                /\ forall e, e ∈ entries -> holds_blob l (e_t e)
    | Err m => m <> OUT_OF_FUEL end) (writeEntries s encoded i entries) w.
Proof.
  induction entries as [|entry entries IH]; intros encoded pre i w Hss Henc Hpre Hlen Hi; cbn [writeEntries].
  { apply safe_ret; [done|]. exists []. rewrite app_nil_r. split; [by destruct w | by intros e ?%elem_of_nil]. }
  rewrite (same_start s Hss), (ss_length s Hss), (ss_file s Hss).
  set (from := if wantedStart <? _ then _ else wantedStart).
  set (to := if _ <? wantedStart + _ then _ else _).
  destruct (Z.leb_spec to from) as [|Hlt]; [by apply safe_ret|].
  apply Forall_cons in Hlen as [Hb Hlen]. cbn [map concat] in Henc.
  assert (Hsub : subarray encoded (i * BLOB_SIZE_BYTES) ((i + 1) * BLOB_SIZE_BYTES) = blob (e_t entry))
    by (rewrite Henc; apply subarray_middle; lia).
  rewrite Hsub. fold (valid_length (e_t entry)).
  destruct (decodeRetrievalSlice _ _ _ _) as [bs|m] eqn:Hd; cbv zeta iota.
  2:{ apply safe_ret; [done|]. intros ->. by eapply decodeRetrievalSlice_fuel. }
  destruct (decoded_entry (e_t entry) from to bs eq_refl eq_refl Hlt Hd) as [Hf Hh].
  apply safe_await; [done | |].
  - intros m w' (Hne & n & ->). split; [by apply inv_write; [apply faithful_take|] | by eapply env_error_fuel].
  - intros [] w' (_ & ->).
    eapply safe_mono; [|eapply (IH _ (pre ++ blob (e_t entry)));
      [done | by rewrite Henc, <- app_assoc | unfold blen in *; rewrite length_app; lia | done | by apply inv_write]].
    intros [[]|m] w' _; [|done]. intros (l & -> & Hl). exists ((from - wantedStart, bs) :: l). split.
    + cbn [w_written set_written]. rewrite <- app_assoc. done.
    + intros e [->|He]%elem_of_cons; [eapply holds_mono; [|exact Hh] | eapply holds_mono; [|by apply Hl]].
      * intros x ->%list_elem_of_singleton. by left.
      * intros x Hx. by right.
Qed.

(** ** The slot's loop *)

Definition durable (w : world) (c : ChunkAuthority) : Prop :=
  forall t, t ∈ chunk_blobs c -> holds_blob (w_flushed w) t.

Section slot.
Context (slot : Z) (Hfirst : 0 <= first_blob) (Hslot : 0 <= slot < 8).
Abbreviation all := (slotChunks (fs_range frozen) slot).

Lemma all_entries : concat (map chunk_blobs all) = slotBlobs first_blob last_blob slot.
Proof. rewrite <- chunks_blobs. by apply entries_slotChunks. Qed.

Lemma all_sorted : StronglySorted Z.lt (concat (map chunk_blobs all)).
Proof. rewrite all_entries. apply ascending_filter, ascending_seqZ. Qed.

Lemma all_blobs t :
  t ∈ slotBlobs first_blob last_blob slot <-> exists c, c ∈ all /\ t ∈ chunk_blobs c.
Proof.
  rewrite <- all_entries, list_elem_of_In, in_concat. split.
  - intros (x & (c & <- & Hc)%in_map_iff & Ht). exists c. by rewrite !list_elem_of_In.
  - intros (c & Hc & Ht). exists (chunk_blobs c). rewrite <- !list_elem_of_In. split; [|done].
    apply list_elem_of_In, in_map, list_elem_of_In, Hc.
Qed.

Lemma all_nonempty c : c ∈ all -> c_entries c <> [].
Proof.
  intros Hc. pose proof (slotChunks_wf (fs_range frozen) slot Hfirst Hslot) as Hall.
  rewrite Forall_forall in Hall. by destruct (Hall c Hc) as (_ & _ & _ & _ & ? & _).
Qed.

Lemma all_durable w : (forall c, c ∈ all -> durable w c) -> slot_done w slot.
Proof. intros H t (c & Hc & Ht)%all_blobs. by eapply H. Qed.

(** A chunk that the cursor has passed is in the flushed output. *)
Lemma cursor_durable w c :
  output_inv w -> c ∈ all -> chunkLast c <= default (-1) (w_cursors w slot) -> durable w c.
Proof.
  intros Hi Hc Hle t Ht.
  assert (Hin : t ∈ slotBlobs first_blob last_blob slot) by (apply all_blobs; by exists c).
  pose proof (chunk_le_last all all_sorted c t Hc Ht).
  destruct (w_cursors w slot) as [cur|] eqn:Hcur; cbn in Hle.
  - eapply oi_cursor; [done | exact Hcur | done | lia].
  - exfalso. unfold slotBlobs in Hin. apply list_elem_of_filter in Hin as [_ Hin].
    rewrite elem_of_seqZ in Hin. lia.
Qed.

(** What is left of the slot: fetches started, chunks the generator still has. *)
Record left_of (w : world) (pending source : list ChunkAuthority) : Prop := {
  lo_flight : w_flight w = length pending; lo_bound : (length pending <= 2)%nat;
  lo_sub : pending ++ source `sublist_of` all;
  lo_rest : forall c, c ∈ all -> c ∈ pending ++ source \/ durable w c;
  lo_done : pending = [] -> source = [] }.

Lemma enqueue_safe source : forall pending w,
  (length pending <= 2)%nat -> w_flight w = length pending -> (forall c, c ∈ source -> c ∈ all) ->
  output_inv w ->
  safe (fun r w' => w' = set_flight (length r.1) w /\ (length r.1 <= 2)%nat
      /\ r.1 ++ r.2 `sublist_of` pending ++ source
      /\ (forall c, c ∈ pending ++ source -> c ∈ r.1 ++ r.2 \/ durable w c)
      /\ (r.1 = [] -> r.2 = []))
    (enqueue slot pending source) w.
Proof.
  induction source as [|c source IH]; intros pending w Hp Hfl Hall Hi; cbn [enqueue].
  { apply safe_ret; [done|]. cbn. split_and!; [destruct w; by cbn in *; subst | done | done | by left | done]. }
  destruct (Nat.ltb_spec (length pending) 2) as [Hlt|Hge].
  2:{ apply safe_ret; [done|]. cbn. split_and!; [destruct w; by cbn in *; subst | done | done | by left |].
      intros ->. cbn in Hge. lia. }
  apply safe_vis; [done|]. intros cursor w' (-> & ->).
  destruct (Z.leb_spec (chunkLast c) (default (-1) (w_cursors w slot))) as [Hle|_].
  - eapply safe_mono; [|apply IH; [done | done | intros x Hx; apply Hall; by right | done]].
    intros [p' s'] w' _ (-> & Hb & Hsub & Hrest & Hd). cbn [fst snd] in *. split_and!; [done | done | | | done].
    + etrans; [exact Hsub|]. apply sublist_app; [done | by apply sublist_cons].
    + intros x Hx. apply elem_of_app in Hx as [Hx|[->|Hx]%elem_of_cons]; [apply Hrest, elem_of_app; by left | |
        apply Hrest, elem_of_app; by right].
      right. apply cursor_durable; [done | apply Hall; by left | done].
  - apply safe_vis; [done|]. intros [] w' ->.
    eapply safe_mono; [|apply IH; [rewrite length_app; cbn; lia | cbn; rewrite length_app, Hfl; cbn; lia |
      intros x Hx; apply Hall; by right | apply inv_flight; [lia | done]]].
    intros [p' s'] w' _ (-> & Hb & Hsub & Hrest & Hd). cbn [fst snd] in *.
    rewrite <- app_assoc in Hsub, Hrest. by split_and!.
Qed.

(** The chunk that was written and flushed is durable, and so is everything of the
    slot up to its last blob. *)
Lemma written_through w chunk rest :
  chunk :: rest `sublist_of` all -> durable w chunk ->
  (forall c, c ∈ all -> c = chunk \/ c ∈ rest \/ durable w c) ->
  forall t, t ∈ slotBlobs first_blob last_blob slot -> t <= chunkLast chunk -> holds_blob (w_flushed w) t.
Proof.
  intros Hsub Hd Hrest t (c & Hc & Ht)%all_blobs Hle.
  destruct (Hrest c Hc) as [->|[Hin|Hdur]]; [by apply Hd | | by apply Hdur].
  assert (chunkLast chunk < t); [|lia]. eapply chunk_later; [apply all_sorted | exact Hsub | | exact Hin | exact Ht].
  apply all_nonempty. eapply elem_of_sublist; [by left | exact Hsub].
Qed.

Lemma drain_safe fuel : forall s pending source w,
  (length (pending ++ source) <= fuel)%nat -> same_session s -> left_of w pending source -> output_inv w ->
  safe (fun r w' => match r with
      | Ok _ => slot_done w' slot /\ w_flushed w ⊆ w_flushed w'
      | Err m => m <> OUT_OF_FUEL end) (drain fuel s slot pending source) w.
Proof.
  induction fuel as [|fuel IH]; intros s pending source w Hfuel Hss Hlo Hi;
    (destruct pending as [|chunk pending]; cbn [drain];
     [apply safe_ret; [done|]; rewrite (lo_done _ _ _ Hlo eq_refl) in Hlo; split; [|done]; apply all_durable;
      intros c Hc; by destruct (lo_rest _ _ _ Hlo c Hc) as [?%elem_of_nil|] |]);
    [cbn in Hfuel; lia|].
  destruct Hlo as [Hfl Hb Hsub Hrest _]. cbn [length app] in *.
  apply safe_await; [done | intros m w' [He ->]; split; [done | by eapply env_error_fuel] |]. intros [] w' [_ ->].
  apply safe_await; [done | |].
  { intros m w' (He & -> & _). split; [apply inv_flight; [lia | done] | by eapply env_error_fuel]. }
  intros encoded w1 (_ & -> & -> & Hlen).
  apply safe_bind. eapply safe_mono; [|apply enqueue_safe; [lia | cbn; by rewrite Hfl | | apply inv_flight; [lia | done]]].
  2:{ intros c Hc. eapply elem_of_sublist; [|exact Hsub]. right. apply elem_of_app. by right. }
  intros [p' s'] w1 Hi1 (-> & Hb' & Hsub' & Hrest' & Hdone). cbn [fst snd] in *.
  apply safe_call. eapply safe_mono; [|apply (writeEntries_safe s (c_entries chunk) _ []); done].
  intros [[]|m] w2 Hi2; [|done]. intros (l & -> & Hl).
  apply safe_await; [done | intros m w' [He (l' & Hl' & ->)]; split; [|by eapply env_error_fuel] |].
  { by apply inv_flush_part. }
  intros [] w3 [_ ->]. cbn [w_flushed w_written set_written set_flushed set_flight].
  set (w3 := set_written [] _).
  assert (Hi3 : output_inv w3) by by apply inv_flush_all in Hi2.
  assert (Hmono : w_flushed w ⊆ w_flushed w3) by (intros x Hx; apply elem_of_app; by left).
  assert (Hchunk : durable w3 chunk).
  { intros t Ht. apply list_elem_of_In, in_map_iff in Ht as (e & <- & He%list_elem_of_In).
    eapply holds_mono; [|by apply Hl]. intros x Hx. apply elem_of_app. right. apply elem_of_app. by right. }
  assert (Hall : forall c, c ∈ all -> c = chunk \/ c ∈ p' ++ s' \/ durable w3 c).
  { assert (Hm : forall c, durable w c -> durable w3 c) by (intros c Hc t Ht; by eapply holds_mono, Hc).
    intros c Hc. destruct (Hrest c Hc) as [[->|Hin]%elem_of_cons|Hd]; [by left | | auto].
    destruct (Hrest' c Hin) as [|Hd]; auto. }
  assert (Hsub3 : chunk :: p' ++ s' `sublist_of` all) by (etrans; [|exact Hsub]; by apply sublist_skip).
  apply safe_await; [done | intros m w' [He ->]; split; [done | by eapply env_error_fuel] |].
  intros [] w4 (_ & _ & ->).
  eapply safe_mono; [|apply (IH s p' s'); [| done | |]].
  - intros [[]|m] w' _; [|done]. intros [? Hm']. split; [done|]. by etrans.
  - apply sublist_length in Hsub'. lia.
  - constructor; [done | done | | | done].
    + etrans; [|exact Hsub3]. by apply sublist_cons.
    + intros c Hc. destruct (Hall c Hc) as [->|[|]]; auto.
  - apply inv_cursor; [|done]. by apply (written_through w3 chunk (p' ++ s')).
Qed.

(** Every exit of the slot's loop has waited for the fetches it started. *)
Definition fetched (w : world) (r : result unit) (w' : world) : Prop :=
  w_flight w' = O /\ match r with
                     | Ok _ => slot_done w' slot /\ w_flushed w ⊆ w_flushed w'
                     | Err m => m <> OUT_OF_FUEL
                     end.

Lemma fetchSlot_safe s w :
  same_session s -> w_flight w = O -> output_inv w -> safe (fetched w) (fetchSlot s slot) w.
Proof.
  intros Hss Hfl Hi. unfold fetchSlot. apply safe_bind.
  rewrite (ss_range s Hss), planV3Chunks_slot by done.
  assert (Hsettle : forall r w', output_inv w' ->
    match r with Ok _ => slot_done w' slot /\ w_flushed w ⊆ w_flushed w' | Err m => m <> OUT_OF_FUEL end ->
    safe (fetched w) (Vis AllSettled (fun _ => Ret r)) w').
  { intros r w' Hi' HQ. apply safe_vis; [done|]. intros [] w2 ->. apply safe_ret; [apply inv_flight; [lia | done]|].
    split; [done|]. by destruct r. }
  apply safe_bind. eapply safe_mono; [|apply enqueue_safe; [cbn; lia | done | done | done]].
  intros [p' s'] w1 Hi1 (-> & Hb & Hsub & Hrest & Hd). cbn [fst snd app] in *.
  eapply safe_mono; [|apply (drain_safe _ s p' s'); [by apply sublist_length | done | | done]].
  - intros r w' Hi' HQ. apply Hsettle; [done|]. by destruct r.
  - by constructor.
Qed.
End slot.

(** ** The whole run *)

Record frozen_wf : Prop := {
  fw_first : first_blob = wantedStart / RAW_BLOB_BYTES;
  fw_last : last_blob = (wantedStart + fs_rangeLength frozen - 1) / RAW_BLOB_BYTES;
  fw_start : 0 <= wantedStart;
  fw_slots : map o_slot (fs_obligations frozen)
             = filter (fun slot => slotBlobs first_blob last_blob slot <> []) (seqZ 0 8) }.

(** What holds of the session in hand and the world between two obligations. *)
Definition at_rest (s : FrozenSessionV3) (w : world) : Prop :=
  same_session s /\ acks_known (w_acked w) s /\ w_flight w = O.

Section run.
Context (Hfirst : 0 <= first_blob).

Lemma proofLoop_safe n : forall s slot outcomes w,
  at_rest s w -> output_inv w ->
  safe (fun r w' => w' = w /\ match r with Ok x => at_rest x.1 w | Err m => m <> OUT_OF_FUEL end)
    (proofLoop n s slot outcomes) w.
Proof.
  induction n as [|n IH]; intros s slot outcomes w Hr Hi; cbn [proofLoop]; [by apply safe_ret|].
  destruct (Z.testbit _ _); [by apply safe_ret|].
  apply safe_await; [done | intros m w' [He ->]; (split; [done|]); (split; [done|]); by eapply env_error_fuel |]. intros outcome w' [_ ->].
  destruct (match po_slot outcome with Some _ => _ | None => _ end); [by apply safe_ret|].
  apply safe_await; [done | intros m w' (He & -> & _); (split; [done|]); (split; [done|]); by eapply env_error_fuel |].
  intros s1 w' (_ & -> & Hss & Hack).
  apply safe_await; [done | intros m w' [He ->]; (split; [done|]); (split; [done|]); by eapply env_error_fuel |]. intros [] w' [_ ->].
  destruct Hr as (_ & _ & Hfl). destruct (_ || _); [by apply safe_ret | by apply IH].
Qed.

Definition obligation_post (slots : list Z) (w : world)
    (r : result (FrozenSessionV3 * list RetrievalProofV3Outcome)) (w' : world) : Prop :=
  match r with
  | Ok x => at_rest x.1 w' /\ w_flushed w ⊆ w_flushed w' /\ forall slot, slot ∈ slots -> slot_done w' slot
  | Err m => m <> OUT_OF_FUEL
  end.

Lemma executeObligation_safe s o outcomes w :
  0 <= o_slot o < 8 -> at_rest s w -> output_inv w ->
  safe (obligation_post [o_slot o] w) (executeObligation s o outcomes) w.
Proof.
  intros Hslot (Hss & Hack & Hfl) Hi. unfold executeObligation. apply safe_vis; [done|]. intros cursor w' (-> & ->).
  destruct (_ && _); [by apply safe_ret|].
  lazymatch goal with |- safe_run _ _ _ (call _ ?k) _ => set (next := k) end.
  assert (Hnext : forall s1 w1, at_rest s1 w1 -> output_inv w1 -> w_flushed w ⊆ w_flushed w1 ->
    slot_done w1 (o_slot o) -> safe (obligation_post [o_slot o] w) (next s1) w1).
  { intros s1 w1 Hr Hi1 Hm Hd.
    assert (Hdone : forall x, at_rest x.1 w1 -> obligation_post [o_slot o] w (Ok x) w1)
      by (intros x Hx; split_and!; [done.. | by intros slot ->%list_elem_of_singleton]).
    unfold next. destruct (_ && _); [|apply safe_ret; [done | by apply Hdone]].
    eapply safe_mono; [|by apply proofLoop_safe].
    intros [x|m] w' _ [-> Hx]; [by apply Hdone | done]. }
  apply safe_call. destruct (Z.testbit (fs_ackedMask s) (o_slot o)) eqn:Hbit; cbn [negb].
  - apply safe_ret; [done|]. apply Hnext; [done | done | done |]. by apply (oi_acked w Hi), Hack.
  - apply safe_call. eapply safe_mono; [|by apply fetchSlot_safe].
    intros [[]|m] w1 Hi1 [Hfl1 Hd1]; [|done]. destruct Hd1 as [Hd1 Hm1].
    apply safe_await; [done | |].
    + intros m w2 [He [->| ->]]; (split; [|by eapply env_error_fuel]); [done | by apply inv_ack].
    + intros s2 w2 (_ & -> & Hss2 & Hack2). pose proof (inv_ack w1 (o_slot o) Hd1 Hi1) as Hi2.
      apply safe_await; [done | intros m w' [He ->]; split; [done | by eapply env_error_fuel] |].
      intros [] w' [_ ->]. apply safe_ret; [done|]. by apply Hnext.
Qed.

Lemma slot_done_mono w w' slot : w_flushed w ⊆ w_flushed w' -> slot_done w slot -> slot_done w' slot.
Proof. intros Hm Hd t Ht. by eapply holds_mono, Hd. Qed.

Lemma executeObligations_safe os : forall s outcomes w,
  Forall (fun o => 0 <= o_slot o < 8) os -> at_rest s w -> output_inv w ->
  safe (obligation_post (map o_slot os) w) (executeObligations s os outcomes) w.
Proof.
  induction os as [|o os IH]; intros s outcomes w Hos Hr Hi; cbn [executeObligations].
  { apply safe_ret; [done|]. split_and!; [done | done | by intros slot ?%elem_of_nil]. }
  apply Forall_cons in Hos as [Ho Hos]. apply safe_call.
  eapply safe_mono; [|by apply executeObligation_safe].
  intros [[s1 o1]|m] w1 Hi1; [|done]. intros (Hr1 & Hm1 & Hd1).
  eapply safe_mono; [|by apply IH]. intros [x|m] w2 _; [|done]. intros (Hr2 & Hm2 & Hd2).
  split_and!; [done | by etrans |]. intros slot [->|Hin]%elem_of_cons; [|by apply Hd2].
  eapply slot_done_mono; [exact Hm2|]. apply Hd1. by left.
Qed.

Lemma executeRetrievalV3_safe initial w :
  frozen_wf -> output_inv w -> w_flight w = O ->
  safe (fun r w' => match r with
    | Ok _ => forall slot, slot ∈ map o_slot (fs_obligations frozen) -> slot_done w' slot
    | Err m => m <> OUT_OF_FUEL end) (executeRetrievalV3 initial) w.
Proof.
  intros Hwf Hi Hfl. apply safe_await; [done | |].
  { intros m w' (He & -> & _). split; [done | by eapply env_error_fuel]. }
  intros s w' (_ & -> & Hss & Hack). eapply safe_mono; [|apply executeObligations_safe; [| |done]].
  - intros [x|m] w' _; [|done]. intros (_ & _ & Hd) slot Hin. apply Hd. by rewrite (ss_slots s Hss).
  - apply Forall_forall. intros o Ho.
    assert (Hin : o_slot o ∈ map o_slot (fs_obligations s)) by (by apply list_elem_of_In, in_map, list_elem_of_In).
    rewrite (ss_slots s Hss), (fw_slots Hwf), list_elem_of_filter, elem_of_seqZ in Hin. lia.
  - done.
Qed.
End run.

Lemma first_nonneg : frozen_wf -> 0 <= first_blob.
Proof. intros [-> _ ? _]. apply Z.div_pos; [done|]. by unfold RAW_BLOB_BYTES. Qed.

Lemma reachable_output w : frozen_wf -> reachable_world w -> output_inv w /\ w_flight w = O.
Proof.
  intros Hwf Hr. eapply (rtc_preserves _ (fun w => output_inv w /\ w_flight w = O)); [|exact Hr|].
  - intros w1 w2 (initial & p & w' & Hrun & l & Hl & ->) [Hi Hfl]. split; [|done].
    apply inv_flight; [lia|]. apply inv_flush_some; [done | by intros x ?%elem_of_nil |].
    eapply safe_run_inv, safe_run_exec; [exact Hrun|].
    apply executeRetrievalV3_safe; [by apply first_nonneg | done | done | done].
  - split; [|done]. constructor; cbn; [constructor | done | by intros slot ?%elem_of_nil | lia].
Qed.

Lemma run_safe initial w0 p w :
  frozen_wf -> reachable_world w0 -> rtc (exec_step (@env_step)) (executeRetrievalV3 initial, w0) (p, w) ->
  safe (fun r w' => match r with
    | Ok _ => forall slot, slot ∈ map o_slot (fs_obligations frozen) -> slot_done w' slot
    | Err m => m <> OUT_OF_FUEL end) p w.
Proof.
  intros Hwf Hr Hrun. destruct (reachable_output w0 Hwf Hr) as [Hi Hfl].
  eapply safe_run_exec; [exact Hrun|]. apply executeRetrievalV3_safe; [by apply first_nonneg | done | done | done].
Qed.

(** Reading the output: the last write that covers a position is as good as any. *)
Lemma read_faithful l pos :
  Forall faithful l -> (exists entry, entry ∈ l /\ covers entry pos) ->
  read_log l pos = Some (raw_byte (wantedStart + pos)).
Proof.
  induction l as [|e l IH] using rev_ind; [by intros _ (e & ?%elem_of_nil & _)|].
  intros [Hf He]%Forall_app (entry & Hin & Hc). unfold read_log. rewrite foldl_app.
  rewrite Forall_singleton in He. cbn [foldl]. fold (read_log l pos). destruct (_ && _) eqn:Hb; bool_to_prop.
  - rewrite (He (pos - e.1)) by lia. f_equal. f_equal. lia.
  - apply IH; [done|]. exists entry. split; [|done].
    apply elem_of_app in Hin as [Hin|Hin]; [done|].
    apply list_elem_of_singleton in Hin as ->. unfold covers in Hc. lia.
Qed.

(** The wanted bytes lie in blobs of the slots that owe them. *)
Lemma slots_cover w pos :
  frozen_wf -> (forall slot, slot ∈ map o_slot (fs_obligations frozen) -> slot_done w slot) ->
  0 <= pos < fs_rangeLength frozen -> exists entry, entry ∈ w_flushed w /\ covers entry pos.
Proof.
  intros Hwf Hd Hp. set (t := (wantedStart + pos) / RAW_BLOB_BYTES).
  assert (Ht : t ∈ slotBlobs first_blob last_blob (t mod 8)).
  { apply list_elem_of_filter. split; [done|]. rewrite elem_of_seqZ, (fw_first Hwf), (fw_last Hwf).
    assert (wantedStart / RAW_BLOB_BYTES <= t <= (wantedStart + fs_rangeLength frozen - 1) / RAW_BLOB_BYTES)
      by (split; apply Z.div_le_mono; unfold RAW_BLOB_BYTES; lia). lia. }
  apply (Hd (t mod 8)) in Ht; [by apply Ht|].
  rewrite (fw_slots Hwf). apply list_elem_of_filter. split; [|apply elem_of_seqZ; pose proof (Z.mod_pos_bound t 8); lia].
  intros Hnil. rewrite Hnil in Ht. by apply elem_of_nil in Ht.
Qed.
End execute.

(** ** Properties *)

(** C2: An acknowledgement, which releases the provider's fee, is only ever sent for
    a slot all of whose blobs are in the flushed output, with the committed payload
    bytes: in any run, after any number of runs that a closed tab cut short, with any
    failures of the network, the disk and the chain. *)
Theorem v3_acknowledges_durable_output frozen blob initial w0 s slot k w :
  frozen_wf frozen -> reachable_world frozen blob w0 ->
  rtc (exec_step (@env_step frozen blob)) (executeRetrievalV3 initial, w0) (Vis (Acknowledge s slot) k, w) ->
  slot_done frozen w slot /\ Forall (faithful frozen blob) (w_flushed w).
Proof.
  intros Hwf Hr Hrun. destruct (run_safe _ _ _ _ _ _ Hwf Hr Hrun) as [Hi Hk]. split.
  - specialize (Hk (Err "") (add_ack slot w)). apply safe_run_inv in Hk; [|by split; [|right]].
    apply (oi_acked _ _ _ Hk). cbn. by left.
  - by apply oi_faithful, Forall_app in Hi as [? _].
Qed.

(** C19: A run that ends well leaves the whole requested range in the flushed output:
    reading it gives the committed payload byte at every position. *)
Theorem v3_execution_complete frozen blob initial w0 x w :
  frozen_wf frozen -> reachable_world frozen blob w0 ->
  rtc (exec_step (@env_step frozen blob)) (executeRetrievalV3 initial, w0) (Ret (Ok x), w) ->
  forall pos, 0 <= pos < fs_rangeLength frozen ->
    read_log (w_flushed w) pos = Some (raw_byte frozen blob (wantedStart frozen + pos)).
Proof.
  intros Hwf Hr Hrun pos Hp. destruct (run_safe _ _ _ _ _ _ Hwf Hr Hrun) as [Hi Hd].
  apply read_faithful; [by apply oi_faithful, Forall_app in Hi as [? _] | by apply (slots_cover frozen)].
Qed.

(** A run never has more than two fetches under way, and its loops
    end with the chunks they were given. *)
Theorem v3_fetches_bounded frozen blob initial w0 p w :
  frozen_wf frozen -> reachable_world frozen blob w0 ->
  rtc (exec_step (@env_step frozen blob)) (executeRetrievalV3 initial, w0) (p, w) ->
  (w_flight w <= 2)%nat /\ p <> Ret (Err OUT_OF_FUEL).
Proof.
  intros Hwf Hr Hrun. pose proof (run_safe _ _ _ _ _ _ Hwf Hr Hrun) as Hs. split.
  - by eapply oi_flight, safe_run_inv.
  - intros ->. by destruct Hs as [_ Hs].
Qed.

(** ** A run over ten bytes of one blob *)

Definition sample_obligation : RetrievalObligationV3 :=
  {| o_slot := 4; o_assigned := "nil1p"; o_payee := "nil1p"; o_blobCount := 1; o_sampleCount := 1;
     o_lockedFee := 1 |}.
Definition sample_frozen (mask : Z) : FrozenSessionV3 :=
  {| fs_range := sample_blob_session; fs_height := 10; fs_planHash := []; fs_owner := "nil1owner";
     fs_payer := "nil1owner"; fs_fileRecordIndex := 0; fs_file := sample_file;
     fs_rangeStart := 60 * RAW_BLOB_BYTES + 5; fs_rangeLength := 10; fs_population := 1;
     fs_sampleCount := 1; fs_nonce := 1; fs_priceDenom := "stake"; fs_pricePerBlob := 1;
     fs_baseFee := 0; fs_completionBurnBps := 0; fs_funding := 1; fs_snapshot := 10; fs_anchor := 11;
     fs_firstResponse := 12; fs_deadline := 100; fs_dealEnd := 1000;
     fs_obligations := [sample_obligation]; fs_acceptedBitmap := []; fs_ackedMask := mask;
     fs_settledMask := mask; fs_refundedMask := 0; fs_lockedFee := 1; fs_expired := false;
     fs_context := []; fs_anchorSeed := None; fs_browserTransactionKey := None |}.
Definition sample_blobs (t : Z) : bytes := zeros BLOB_SIZE_BYTES.
Definition sample_world (done : bool) : world :=
  let w := set_flight 0 (set_cursor 4 60 (set_written [] (set_flushed [(0, zeros 10)]
             (set_flight 0 (set_flight 1 fresh_world))))) in
  if done then add_ack 4 w else w.

Lemma sample_wf : frozen_wf (sample_frozen 0).
Proof. split; [reflexivity | reflexivity | by vm_compute | reflexivity]. Qed.

Lemma sample_chunks : exists c, slotChunks sample_blob_session 4 = [c] /\ c_entries c = [entryOf 2 60].
Proof. eexists; split; vm_compute; reflexivity. Qed.

Lemma sample_decode :
  decodeRetrievalSlice (zeros BLOB_SIZE_BYTES) RAW_BLOB_BYTES 5 10 = Ok (zeros 10).
Proof.
  apply decodeRetrievalSlice_iff. assert (RAW_BLOB_BYTES = 126976) by done.
  split_and!; [|lia..| |]; [|rewrite blen_zeros; lia | intros j Hj; by rewrite !get_zeros].
  split; [rewrite blen_zeros; [done | by unfold BLOB_SIZE_BYTES] | intros i _ _; apply get_zeros].
Qed.

Lemma same_sample mask : same_session (sample_frozen 0) (sample_frozen mask).
Proof. by split. Qed.

Lemma sample_blob_length : blen (zeros BLOB_SIZE_BYTES) = BLOB_SIZE_BYTES.
Proof. apply blen_zeros. unfold BLOB_SIZE_BYTES. lia. Qed.

Lemma sample_writes enc :
  decodeRetrievalSlice (subarray enc 0 BLOB_SIZE_BYTES) RAW_BLOB_BYTES 5 10 = Ok (zeros 10) ->
  writeEntries (sample_frozen 0) enc 0 [entryOf 2 60]
  = await (Write 0 (zeros 10)) (fun _ => Ret (Ok tt)).
Proof.
  intros Hd. cbn [writeEntries].
  match goal with |- context [decodeRetrievalSlice ?e ?v ?o ?l] =>
    replace (decodeRetrievalSlice e v o l) with (Ok (zeros 10)) by
      (rewrite <- Hd; f_equal; vm_compute; reflexivity) end.
  vm_compute. reflexivity.
Qed.

Abbreviation sample_exec := (exec_step (@env_step (sample_frozen 0) sample_blobs)).

Lemma sample_fetches :
  rtc sample_exec (fetchSlot (sample_frozen 0) 4, fresh_world) (Ret (Ok tt), sample_world false).
Proof.
  destruct sample_chunks as (c & Hc & He).
  assert (Hlast : chunkLast c = 60) by (unfold chunkLast; by rewrite He).
  unfold fetchSlot. cbn [fs_range sample_frozen]. rewrite planV3Chunks_slot, Hc by lia.
  cbn [enqueue length Nat.ltb Nat.leb pbind].
  eapply exec_answer; [done|]. rewrite Hlast. cbn [fresh_world w_cursors default Z.leb Z.compare pbind app].
  eapply (exec_answer _ _ _ _ tt); [done|]. cbn [pbind drain].
  eapply (exec_answer _ _ _ _ (Ok tt)); [done|]. cbn [pbind].
  eapply (exec_answer _ _ _ _ (Ok (zeros BLOB_SIZE_BYTES))).
  { split_and!; [done | done | |].
    - rewrite He. cbn [map concat]. rewrite app_nil_r. unfold sample_blobs. reflexivity.
    - rewrite He. constructor; [exact sample_blob_length | constructor]. }
  cbn [pbind enqueue]. rewrite He, sample_writes
    by (rewrite subarray_all; [exact sample_decode | rewrite sample_blob_length; lia]).
  eapply (exec_answer _ _ _ _ (Ok tt)); [done|]. cbn [pbind].
  eapply (exec_answer _ _ _ _ (Ok tt)); [done|]. cbn [pbind].
  rewrite Hlast. eapply (exec_answer _ _ _ _ (Ok tt)); [done|]. cbn [pbind].
  eapply (exec_answer _ _ _ _ tt); [done|]. reflexivity.
Qed.

Lemma sample_runs :
  exists k, rtc sample_exec (executeRetrievalV3 (sample_frozen 0), fresh_world)
      (Vis (Acknowledge (sample_frozen 0) 4) k, sample_world false)
    /\ rtc sample_exec (k (Ok (sample_frozen 16)), sample_world true)
         (Ret (Ok (sample_frozen 16, [])), sample_world true).
Proof.
  eexists. split.
  - eapply (exec_answer _ _ _ _ (Ok (sample_frozen 0))).
    { split_and!; [done | done | apply same_sample |]. intros slot. cbn. by rewrite Z.testbit_0_l. }
    cbn [fs_obligations sample_frozen executeObligations]. unfold executeObligation, call.
    cbn [o_slot sample_obligation pbind].
    eapply exec_answer; [done|]. cbn [Z.testbit fs_ackedMask sample_frozen andb negb].
    etrans; [do 3 apply exec_bind; exact sample_fetches|]. cbn [pbind await]. reflexivity.
  - cbn [pbind await]. eapply (exec_answer _ _ _ _ (Ok tt)); [done|]. reflexivity.
Qed.

Lemma v3_acknowledges_durable_output_witness : slot_done (sample_frozen 0) (sample_world false) 4.
Proof.
  destruct sample_runs as (k & Hrun & _).
  apply (v3_acknowledges_durable_output (sample_frozen 0) sample_blobs (sample_frozen 0) fresh_world
    (sample_frozen 0) 4 k); [exact sample_wf | apply rtc_refl | exact Hrun].
Defined.

Lemma sample_acknowledged :
  rtc sample_exec (executeRetrievalV3 (sample_frozen 0), fresh_world)
    (Ret (Ok (sample_frozen 16, [])), sample_world true).
Proof.
  destruct sample_runs as (k & Hrun & Hend). etrans; [exact Hrun|].
  eapply exec_answer; [|exact Hend]. split_and!; [done | done | apply same_sample |].
  intros slot Hbit. change (Z.testbit (2 ^ 4) slot = true) in Hbit.
  destruct (Z.eq_dec 4 slot) as [<-|]; [by left|]. by rewrite Z.pow2_bits_false in Hbit.
Qed.

Lemma v3_execution_complete_witness :
  read_log (w_flushed (sample_world true)) 9
  = Some (raw_byte (sample_frozen 0) sample_blobs (wantedStart (sample_frozen 0) + 9)).
Proof.
  apply (v3_execution_complete (sample_frozen 0) sample_blobs (sample_frozen 0) fresh_world
    (sample_frozen 16, [])); [exact sample_wf | apply rtc_refl | exact sample_acknowledged | cbn; lia].
Defined.

Lemma v3_fetches_bounded_witness : (w_flight (sample_world true) <= 2)%nat.
Proof.
  apply (v3_fetches_bounded (sample_frozen 0) sample_blobs (sample_frozen 0) fresh_world
    (Ret (Ok (sample_frozen 16, [])))); [exact sample_wf | apply rtc_refl | exact sample_acknowledged].
Defined.
