(* ===== verification/V3Agreement.v ===== *)
(** * The client and the core library agree on a session of the newer protocol

    The website reads a generation and a session of it from the chain (V3Parse), with the
    ranges, hashes and challenges of the WebAssembly module, which is the core library
    (CoreV3).  Shown here: what it accepts is what the execution of a retrieval asks for
    (V3Execute), the library's plan of a request is the client's, and the library's
    challenges are for blobs of that plan. *)

From S2P Require Import Prelude JsMap JsNumber JsBytes JsString JsText Utf8 Encoding Layout Windows Pinned Canonical Response Challenge Sessions Agreement Integrity CoreV3 V3Chunks V3Session V3Parse Effects V3Execute.
Local Open Scope Z_scope.

#[local] Opaque be.

(** ** Ranges *)

Lemma getBigUint64_from_be l at_ : getBigUint64 l at_ = from_be (subarray l at_ (at_ + 8)).
Proof. done. Qed.

Lemma subarray_part a l b i j : blen a = i -> i + blen l = j -> subarray (a ++ l ++ b) i j = l.
Proof.
  intros <- <-. unfold subarray, blen. rewrite Nat2Z.id, drop_app_length.
  replace (Z.to_nat _) with (length l) by lia. apply take_app_length.
Qed.

Lemma decodeRange_be f l p : 0 <= f <= U64_MAX -> 0 <= l <= U64_MAX -> 0 <= p <= U64_MAX ->
  p <> 0 -> l - f + 1 = p ->
  decodeRangeV3 (be f 8 ++ be l 8 ++ be p 8) = Ok {| r_first := f; r_last := l; r_population := p |}.
Proof.
  intros Hf Hl Hp Hp0 Heq. unfold decodeRangeV3. assert (HU : U64_MAX = 2 ^ 64 - 1) by done.
  rewrite !blen_app, !blen_be. cbn [Z.eqb Z.add Pos.eqb negb].
  rewrite !getBigUint64_from_be.
  rewrite (subarray_head (be f 8) _ (0 + 8)) by (rewrite ?blen_be; lia).
  rewrite (subarray_part (be f 8) (be l 8) _ 8 (8 + 8)) by (rewrite ?blen_be; lia).
  replace (be f 8 ++ be l 8 ++ be p 8) with ((be f 8 ++ be l 8) ++ be p 8 ++ []) by (by rewrite app_nil_r, app_assoc).
  rewrite (subarray_part (be f 8 ++ be l 8) (be p 8) [] 16 (16 + 8)) by (rewrite ?blen_app, ?blen_be; lia).
  rewrite !from_be_be. change (256 ^ Z.of_nat 8) with (2 ^ 64). rewrite !Z.mod_small by lia.
  cbn [r_first r_last r_population]. rewrite (proj2 (Z.eqb_neq p 0)), (proj2 (Z.eqb_eq (l - f + 1) p)) by done. done.
Qed.

Record range_ok (fs fl rs rl users first last : Z) : Prop := {
  ro_length : 0 < rl <= MAX_RANGE_BYTES;
  ro_within : rs + rl <= fl;
  ro_first : first = (fs + rs) / RAW_BLOB_BYTES;
  ro_last : last = (fs + rs + rl - 1) / RAW_BLOB_BYTES;
  ro_capacity : last < users * 64;
  ro_end : fs + rs + rl - 1 <= U64_MAX }.

Lemma checked_u64_Ok v n : checked_u64 v = Ok n -> n = v /\ 0 <= v <= U64_MAX.
Proof. unfold checked_u64. intros H. ok_steps H. bool_to_prop. lia. Qed.

Lemma checked_range_spec fs fl rs rl users r : 0 <= fs -> 0 <= rs -> 0 <= rl ->
  checked_range fs fl rs rl users = Ok r ->
  range_ok fs fl rs rl users (rg_first r) (rg_last r) /\ rg_population r = rg_last r - rg_first r + 1.
Proof.
  unfold checked_range. intros Hfs Hrs Hrl H. ok_steps H. bool_to_prop.
  repeat match goal with H : checked_u64 _ = Ok _ |- _ => apply checked_u64_Ok in H as [-> ?] end.
  cbn [rg_first rg_last rg_population] in *. unfold DATA_BLOB_PAYLOAD_BYTES in *. split; [|done].
  replace (fs + rs + (rl - 1)) with (fs + rs + rl - 1) in * by lia. constructor; try done; try lia.
Qed.

Lemma range_ok_bounds fs fl rs rl users first last : 0 <= fs -> 0 <= rs ->
  range_ok fs fl rs rl users first last -> 0 <= first <= last /\ last < U64_MAX.
Proof.
  intros Hfs Hrs [Hl _ -> -> _ He]. unfold RAW_BLOB_BYTES in *.
  split; [split; [apply Z.div_pos; lia | apply Z.div_le_mono; lia]|]. assert (HU : U64_MAX = 2 ^ 64 - 1) by done. apply Z.div_lt_upper_bound; lia.
Qed.

(** The range that the module hands back is read as it was computed. *)
Lemma module_range_decodes fs fl rs rl users bs : checked_retrieval_v3_range fs fl rs rl users = Ok bs ->
  exists r, decodeRangeV3 bs = Ok r /\ range_ok fs fl rs rl users (r_first r) (r_last r)
    /\ r_population r = r_last r - r_first r + 1 /\ 0 <= r_first r <= r_last r
    /\ Forall (fun v => 0 <= v <= U64_MAX) [fs; fl; rs; rl; users].
Proof.
  unfold checked_retrieval_v3_range, checked_metadata_u64. intros Hb. ok_steps Hb.
  repeat match goal with H : (if _ then Err _ else _) = Ok _ |- _ => ok_steps H end. bool_to_prop.
  apply checked_range_spec in Hv4 as [Hok Hpop]; [|done..]. pose proof Hok as Hbo. apply range_ok_bounds in Hbo; [|done..].
  eexists. split; [apply decodeRange_be; lia|]. cbn [r_first r_last r_population].
  split_and!; try done; try lia. by repeat (apply Forall_cons_2; [lia|]).
Qed.

Lemma decode_module_range fs fl rs rl users bs r :
  checked_retrieval_v3_range fs fl rs rl users = Ok bs -> decodeRangeV3 bs = Ok r ->
  range_ok fs fl rs rl users (r_first r) (r_last r) /\ r_population r = r_last r - r_first r + 1
  /\ 0 <= r_first r <= r_last r.
Proof. intros (r' & Hd & ? & ? & ? & _)%module_range_decodes Hd'. rewrite Hd in Hd'. by apply Ok_inj in Hd' as <-. Qed.

(** ** Generations *)

Section agreement.
Context `{bech : Bech32}.

Lemma assignmentsDiffer_eq l providers : length l = length providers -> assignmentsDiffer l providers = false ->
  l = map (fun p => {| provider := p; active := true |}) providers.
Proof.
  revert providers. induction l as [|a l IH]; intros [|p providers] Hl H; try done. cbn [assignmentsDiffer head tail map] in *.
  apply orb_false_iff in H as [[Ha Hp]%orb_false_iff H]. apply negb_false_iff, bool_decide_eq_true in Hp. injection Hp as ->.
  rewrite <- IH; [|by injection Hl|done].
  destruct a as [q b]. cbn [provider active] in *. by destruct b.
Qed.

Lemma mapR_length {A B} (f : A -> result B) l r : mapR f l = Ok r -> length r = length l.
Proof. intros H%mapR_Ok%Forall2_length. done. Qed.

Lemma account_accountBytes v s : account v = Ok s -> exists bs, accountBytes s = Ok bs /\ blen bs = 20.
Proof.
  intros H. pose proof H as [-> (bs & Hbs & Hl)]%account_bytes. exists bs. split; [|done].
  unfold accountBytes. rewrite H. exact Hbs.
Qed.

Lemma pinned_identity payload chainId height dealId pin : parsePinnedGeneration payload chainId height dealId = Ok pin ->
  p_chainId pin = chainId /\ p_height pin = height /\ p_dealId pin = dealId /\ p_rows pin = floor_div 64 (p_k pin)
  /\ p_leafCount pin = floor_div 64 (p_k pin) * (p_k pin + p_m pin).
Proof. unfold parsePinnedGeneration. intros H. ok_steps H. by cbn. Qed.

(** What is known of a generation that was read. *)
Record generation_read (chainId : string) (height dealId : Z) (dealPayload : unknown) (g : FrozenGenerationV3) : Prop := {
  gr_pinned : parsePinnedGeneration dealPayload chainId height dealId = Ok (generationAsPinnedV2Shape g);
  gr_count : length (g_providers g) = 12%nat;
  gr_distinct : NoDup (g_providers g);
  gr_accounts : Forall (fun p => exists bs, accountBytes p = Ok bs /\ blen bs = 20) (g_providers g);
  gr_mdus : 1 <= g_metadataMdus g /\ 1 <= g_userMdus g /\ g_metadataMdus g + g_userMdus g <= 65537;
  gr_u64 : 0 <= g_generation g <= U64_MAX /\ 0 <= g_dealId g <= U64_MAX;
  gr_leaves : g_integrityLeafCount g = g_userMdus g * 96 }.

(** The generation is the one that the deal pins, in the shape of the older protocol. *)
Lemma generation_pinned payload chainId height dealId dealPayload g :
  parseGeneration payload chainId height dealId dealPayload = Ok (Some g) ->
  generation_read chainId height dealId dealPayload g.
Proof.
  unfold parseGeneration. cbv zeta. intros H. ok_step H. destruct (nullish _); [done|]. ok_steps H.
  destruct (mget _ "providers") as [[]|]; try done. ok_steps H. bool_to_prop.
  repeat match goal with H : String.eqb _ _ = true |- _ => apply String.eqb_eq in H end.
  repeat match goal with H : protoU64 _ = Ok _ |- _ => apply protoU64_bounds in H end.
  pose proof (mapR_length _ _ _ Hv20) as Hlen. unfold MAX_MDUS in *.
  constructor; cbn [g_providers g_metadataMdus g_userMdus g_generation g_dealId g_integrityLeafCount]; try done; try lia.
  - rewrite Hv1. f_equal. pose proof (parsePinnedGeneration_wf _ _ _ _ _ Hv1) as Hwf. pose proof (pinned_identity _ _ _ _ _ Hv1) as Hid.
    destruct Hwf as (Hl & _ & _ & _ & _ & _ & Htot & _ & _). destruct v1; cbn in *. subst.
    destruct Hl as [(_ & _ & _ & Hl)|(? & _)]; [|done]. destruct Hid as (-> & -> & -> & Hr & Hlc).
    unfold generationAsPinnedV2Shape. cbn. rewrite (assignmentsDiffer_eq assignments v20) by (done || lia).
    f_equal; try done. 
  - by apply bool_decide_eq_true in H1.
  - apply mapR_Ok in Hv20. apply Forall_forall. intros p [i Hi]%list_elem_of_lookup.
    destruct (Forall2_lookup_r _ _ _ _ _ Hv20 Hi) as (x & _ & Hx). by eapply account_accountBytes.
Qed.

(** ** Plans of a session *)

Lemma obligationsDiffer_eq l expected : length l = length expected -> obligationsDiffer l expected = false ->
  Forall2 (fun o e => o_slot o = o_slot e /\ o_assigned o = o_assigned e /\ o_payee o = o_assigned o
                      /\ o_blobCount o = o_blobCount e) l expected.
Proof.
  revert expected. induction l as [|o l IH]; intros [|e expected] Hl H; try done.
  cbn [obligationsDiffer] in H. bool_to_prop.
  repeat match goal with H : String.eqb _ _ = true |- _ => apply String.eqb_eq in H end.
  constructor; [done | apply IH; [by injection Hl | done]].
Qed.

(** The fee that is still locked for an obligation. *)
Definition lockedFor (out : FrozenSessionV3) (o : RetrievalObligationV3) : Z :=
  if negb (bit (fs_settledMask out) (o_slot o)) && negb (bit (fs_refundedMask out) (o_slot o)) then o_lockedFee o else 0.

Definition total (f : RetrievalObligationV3 -> Z) (l : list RetrievalObligationV3) : Z := foldr Z.add 0 (map f l).

Lemma sumObligations_spec out l a b r s : sumObligations out a b l = Ok (r, s) ->
  Forall (fun o => o_lockedFee o = fs_pricePerBlob out * o_blobCount o) l
  /\ r = a + total (lockedFor out) l /\ s = b + total o_sampleCount l.
Proof.
  revert a b. induction l as [|o l IH]; intros a b H; cbn [sumObligations] in H.
  - injection H as <- <-. split; [constructor|]. unfold total. cbn. lia.
  - ok_step H. bool_to_prop. apply IH in H as (Hf & -> & ->). split; [by constructor|].
    unfold total, lockedFor. cbn [map foldr]. destruct (_ && _); lia.
Qed.

Lemma bit_testbit mask slot : 0 <= slot -> bit mask slot = Z.testbit mask slot.
Proof.
  intros Hs. unfold bit. destruct (Z.testbit mask slot) eqn:E.
  - apply negb_true_iff, Z.eqb_neq. intros H0. apply (f_equal (fun z => Z.testbit z slot)) in H0.
    rewrite Z.land_spec, E, Z.shiftl_spec, Z.sub_diag, Z.testbit_0_l in H0 by lia. done.
  - apply negb_false_iff, Z.eqb_eq, Z.bits_inj'. intros n Hn. rewrite Z.land_spec, Z.shiftl_spec, Z.testbit_0_l by lia.
    destruct (Z.eq_dec n slot) as [->|Hne]; [by rewrite E|].
    destruct (Z.lt_ge_cases n slot); [by rewrite (Z.testbit_neg_r 1), andb_false_r by lia|].
    rewrite (Z.bits_above_log2 1 (n - slot)) by (cbn; lia). apply andb_false_r.
Qed.

(** A bit of a mask without bits outside another. *)
Lemma land_lnot_bits a b slot : 0 <= slot -> Z.land a (Z.lnot b) = 0 -> Z.testbit a slot = true -> Z.testbit b slot = true.
Proof.
  intros Hs H Ha. apply (f_equal (fun z => Z.testbit z slot)) in H.
  rewrite Z.land_spec, Z.lnot_spec, Z.testbit_0_l, Ha in H by done. by destruct (Z.testbit b slot).
Qed.

Lemma represented_bits l mask slot : Forall (fun o => 0 <= o_slot o) l -> 0 <= slot ->
  Z.testbit (foldl (fun mask o => Z.lor mask (Z.shiftl 1 (o_slot o))) mask l) slot = true ->
  Z.testbit mask slot = true \/ slot ∈ map o_slot l.
Proof.
  intros Hl Hs. revert mask. induction Hl as [|o l Ho Hl IH]; intros mask H; cbn [foldl map] in *; [by left|].
  apply IH in H as [H|H]; [|right; by right]. rewrite Z.lor_spec, orb_true_iff in H. destruct H as [H|H]; [by left|].
  right. rewrite Z.shiftl_spec in H by done. assert (slot = o_slot o) as ->; [|by left].
  destruct (Z.lt_trichotomy slot (o_slot o)) as [?|[?|?]]; [|done|].
  - by rewrite Z.testbit_neg_r in H by lia.
  - by rewrite Z.bits_above_log2 in H by (cbn; lia).
Qed.

Lemma parseObligations_slots v l : parseObligations v = Ok l -> Forall (fun o => 0 <= o_slot o <= 7) l.
Proof.
  unfold parseObligations. destruct v as [[]|]; try done. intros H. ok_step H. apply mapR_Ok in H.
  apply Forall_forall. intros o [i Hi]%list_elem_of_lookup. destruct (Forall2_lookup_r _ _ _ _ _ H Hi) as (x & _ & Hx).
  unfold parseObligation in Hx. ok_steps Hx. cbn [o_slot]. by eapply protoUint_bounds.
Qed.

(** What the fields of a session are, when they were read. *)
Record fields_read (height : Z) (authority : FrozenGenerationV3) (file : RetrievalFile) (out : FrozenSessionV3) : Prop := {
  fr_authority : s_authority (fs_range out) = authority;
  fr_height : fs_height out = height;
  fr_file : fs_file out = file;
  fr_id : exists id, s_sessionId (fs_range out) = hex id /\ Forall byte_ok id /\ blen id = 32;
  fr_hashes : blen (s_contextHash (fs_range out)) = 32 /\ blen (fs_planHash out) = 32;
  fr_accounts : (exists bs, accountBytes (fs_owner out) = Ok bs /\ blen bs = 20)
                /\ (exists bs, accountBytes (fs_payer out) = Ok bs /\ blen bs = 20);
  fr_u64 : Forall (fun v => 0 <= v <= U64_MAX)
    [fs_rangeStart out; fs_rangeLength out; s_first (fs_range out); s_last (fs_range out); fs_population out;
     fs_sampleCount out; fs_nonce out; fs_snapshot out; fs_anchor out; fs_firstResponse out; fs_deadline out; fs_dealEnd out];
  fr_u32 : 0 <= fs_fileRecordIndex out < 2 ^ 32 /\ 0 <= fs_completionBurnBps out <= 10000;
  fr_funding : 0 <= fs_funding out <= 2;
  fr_slots : Forall (fun o => 0 <= o_slot o <= 7) (fs_obligations out) }.

Lemma indexOf_bounds names v i : indexOf names v = Some i -> 0 <= i <= Z.of_nat (length names) - 1.
Proof.
  revert i. induction names as [|n names IH]; intros i; cbn [indexOf length]; [done|].
  destruct (String.eqb n v); [intros [= <-]; lia|]. destruct (indexOf names v) as [j|]; cbn; [|done].
  intros [= <-]. specialize (IH j eq_refl). lia.
Qed.

Lemma enumeration_bounds v names n : names <> [] -> enumeration v names = Ok n -> 0 <= n <= Z.of_nat (length names) - 1.
Proof.
  intros Hn. assert (0 <= Z.of_nat (length names) - 1) by (destruct names; [done|cbn; lia]). unfold enumeration.
  assert (Ho : protoUint v (Z.of_nat (length names) - 1) = Ok n -> 0 <= n <= Z.of_nat (length names) - 1) by by apply protoUint_bounds.
  destruct v as [[]|]; try exact Ho. destruct (indexOf names s) eqn:E; [|exact Ho]. intros [= <-]. by eapply indexOf_bounds.
Qed.

Lemma parseSessionFields_read raw height authority file out :
  parseSessionFields raw height authority file = Ok out -> fields_read height authority file out.
Proof.
  unfold parseSessionFields. intros H. ok_steps H.
  repeat match goal with
  | H : protoU64 _ = Ok _ |- _ => apply protoU64_bounds in H
  | H : protoUint _ U32_MAX = Ok _ |- _ => apply protoUint_u32 in H
  | H : protoUint _ _ = Ok _ |- _ => apply protoUint_bounds in H; [|lia]
  | H : account _ = Ok _ |- _ => apply account_accountBytes in H
  | H : enumeration _ _ = Ok _ |- _ => apply enumeration_bounds in H; [|done]
  | H : parseObligations _ = Ok _ |- _ => apply parseObligations_slots in H
  | H : base64Of _ 32 = Ok _ |- _ => apply base64Of_bytes in H as (_ & ? & ?); [|unfold MAX_SAFE_INTEGER; lia]
  end.
  constructor; cbn; try done; try lia; try (by eexists). by repeat (apply Forall_cons_2; [lia|]).
Qed.

(** ** Sessions that are accepted *)

(** A session that the execution can work through, and whose payments add up. *)
Record session_sound (f : FrozenSessionV3) : Prop := {
  so_wf : frozen_wf f;
  so_owed : Forall (fun o => o_lockedFee o = fs_pricePerBlob f * o_blobCount o
      /\ o_blobCount o = Z.of_nat (length (slotBlobs (s_first (fs_range f)) (s_last (fs_range f)) (o_slot o)))
      /\ g_providers (s_authority (fs_range f)) !! Z.to_nat (o_slot o) = Some (o_assigned o)
      /\ o_payee o = o_assigned o) (fs_obligations f);
  so_population : total o_blobCount (fs_obligations f) = fs_population f;
  so_locked : fs_lockedFee f = total (lockedFor f) (fs_obligations f);
  so_samples : fs_sampleCount f = Z.min (fs_population f) 132;
  so_masks : forall slot, 0 <= slot ->
    (Z.testbit (fs_settledMask f) slot = true -> Z.testbit (fs_ackedMask f) slot = true)
    /\ (Z.testbit (fs_settledMask f) slot = true -> Z.testbit (fs_refundedMask f) slot = false)
    /\ (Z.testbit (fs_ackedMask f) slot = true \/ Z.testbit (fs_refundedMask f) slot = true ->
        slot ∈ map o_slot (fs_obligations f)) }.

Lemma Forall2_map_eq {A B} (f : A -> B) (R : A -> A -> Prop) l l' :
  (forall x y, R x y -> f x = f y) -> Forall2 R l l' -> map f l = map f l'.
Proof. intros Hf. induction 1 as [|x y l l' Hxy _ IH]; [done|]. cbn [map]. by rewrite IH, (Hf _ _ Hxy). Qed.

Lemma masks_consistent acked settled refunded represented slot : 0 <= slot ->
  Z.land (Z.lor (Z.lor acked settled) refunded) (Z.lnot represented) = 0 ->
  Z.land settled refunded = 0 -> Z.land settled (Z.lnot acked) = 0 ->
  (Z.testbit settled slot = true -> Z.testbit acked slot = true)
  /\ (Z.testbit settled slot = true -> Z.testbit refunded slot = false)
  /\ (Z.testbit acked slot = true \/ Z.testbit refunded slot = true -> Z.testbit represented slot = true).
Proof.
  intros Hs Hall Hsr Hsa. split_and!.
  - by apply land_lnot_bits.
  - intros H. apply (f_equal (fun z => Z.testbit z slot)) in Hsr. rewrite Z.land_spec, Z.testbit_0_l, H in Hsr. exact Hsr.
  - intros H. eapply land_lnot_bits; [done | exact Hall |]. rewrite !Z.lor_spec.
    destruct H as [->| ->]; by rewrite ?orb_true_l, ?orb_true_r.
Qed.

(** The checks of the plan, with the range that the module computes. *)
Lemma checkPlan_sound raw out height authority e bs r stored :
  fields_read height authority (x_file e) out -> length (g_providers authority) = 12%nat ->
  checkRequest raw out e = Ok tt ->
  checked_retrieval_v3_range (start_offset (x_file e)) (size_bytes (x_file e)) (x_rangeStart e) (x_rangeLength e)
    (g_userMdus authority) = Ok bs ->
  decodeRangeV3 bs = Ok r -> checkPlan out r = Ok stored ->
  session_sound out /\ stored = total o_sampleCount (fs_obligations out)
  /\ s_last (fs_range out) < g_userMdus authority * 64.
Proof.
  intros Hread Hprov Hreq Hb Hd Hp.
  assert (Hreq' : fs_rangeStart out = x_rangeStart e /\ fs_rangeLength out = x_rangeLength e
                  /\ 0 <= start_offset (x_file e)).
  { unfold checkRequest in Hreq. cbv zeta in Hreq. ok_steps Hreq. bool_to_prop.
    repeat match goal with H : protoU64 _ = Ok _ |- _ => apply protoU64_bounds in H end. lia. }
  clear Hreq. destruct Hreq' as (Hrs & Hrl & Hfs).
  pose proof (decode_module_range _ _ _ _ _ _ _ Hb Hd) as (Hok & Hpop & Hr). clear Hb Hd.
  unfold checkPlan in Hp. cbv zeta in Hp. ok_step Hp. ok_step Hp. ok_step Hp. destruct v0 as [remaining st]. ok_steps Hp.
  bool_to_prop. rewrite (fr_authority _ _ _ _ Hread) in *.
  destruct (obligations_spec r (g_providers authority)) as (os & Hos & Hslots & Hall & Hsum); [lia|lia|done|lia|].
  rewrite Hos in Hv. injection Hv as <-.
  apply obligationsDiffer_eq in H7; [|lia]. apply sumObligations_spec in Hv0 as (Hfee & -> & ->).
  assert (Hslots' : map o_slot (fs_obligations out) = map o_slot os) by (eapply Forall2_map_eq; [|exact H7]; by intros x y (? & _)).
  assert (Hcounts : map o_blobCount (fs_obligations out) = map o_blobCount os)
    by (eapply Forall2_map_eq; [|exact H7]; by intros x y (_ & _ & _ & ?)).
  destruct Hok as [Hlen _ Hfirst Hlast Hcap _].
  split; [|split; [done | by rewrite H11]]. constructor.
  - constructor; unfold first_blob, last_blob, wantedStart; rewrite ?(fr_file _ _ _ _ Hread), ?Hrs, ?Hrl, ?H9, ?H11; try done.
    + pose proof (fr_u64 _ _ _ _ Hread) as Hu. apply Forall_cons in Hu as [Hu _]. lia.
    + by rewrite Hslots'.
  - apply Forall_forall. intros o Ho. apply list_elem_of_lookup in Ho as [i Hi].
    destruct (Forall2_lookup_l _ _ _ _ _ H7 Hi) as (o' & Hi' & Hs & Ha & Hpay & Hc).
    pose proof (proj1 (Forall_lookup _ _) Hall _ _ Hi') as (Hc' & Hpr & _).
    pose proof (proj1 (Forall_lookup _ _) Hfee _ _ Hi) as Hf. rewrite (fr_authority _ _ _ _ Hread), H9, H11, Ha, Hs.
    split_and!; (done || congruence).
  - unfold total. by rewrite Hcounts, H10.
  - done.
  - rewrite H. destruct (Z.ltb_spec (fs_population out) 132); lia.
  - intros slot Hs. pose proof (masks_consistent _ _ _ _ slot Hs H6 H5 H4) as (M1 & M2 & M3). split_and!; [done..|].
    intros Hm%M3. apply represented_bits in Hm as [Hm|Hm]; [by rewrite Z.testbit_0_l in Hm | done | |done].
    eapply Forall_impl; [exact (fr_slots _ _ _ _ Hread)|]. cbn. lia.
Qed.

(** ** The context that the library reads *)

(** The fields that stand in the context of a session. *)
Definition fields_of (s : FrozenSessionV3) (id owner payer : bytes) : ContextFields :=
  let g := s_authority (fs_range s) in
  {| cf_chain := TextEncoder_encode (g_chainId g); cf_sid := id; cf_owner := owner; cf_deal := g_dealId g;
     cf_generation := g_generation g; cf_record := fs_fileRecordIndex s; cf_file_start := start_offset (fs_file s);
     cf_file_length := size_bytes (fs_file s); cf_range_start := fs_rangeStart s; cf_range_length := fs_rangeLength s;
     cf_metadata := g_metadataMdus g; cf_users := g_userMdus g; cf_plan := fs_planHash s;
     cf_population := fs_population s; cf_samples := fs_sampleCount s; cf_nonce := fs_nonce s;
     cf_denom := TextEncoder_encode (fs_priceDenom s); cf_price := TextEncoder_encode (pretty (fs_pricePerBlob s));
     cf_base := TextEncoder_encode (pretty (fs_baseFee s)); cf_burn := fs_completionBurnBps s;
     cf_funding := fs_funding s; cf_payer := payer; cf_snapshot := fs_snapshot s; cf_anchor := fs_anchor s;
     cf_first_response := fs_firstResponse s; cf_deadline := fs_deadline s; cf_deal_end := fs_dealEnd s |}.

Lemma context_fields_v3_run s setup id owner polyfs integrity payer height authority file :
  fields_read height authority file s -> valid_chain (TextEncoder_encode (g_chainId authority)) = true ->
  0 <= g_dealId authority <= U64_MAX -> 0 <= g_generation authority <= U64_MAX ->
  0 <= g_metadataMdus authority <= U64_MAX -> 0 <= g_userMdus authority <= U64_MAX ->
  0 <= start_offset file <= U64_MAX -> 0 <= size_bytes file <= U64_MAX ->
  blen setup = 32 -> blen id = 32 -> blen owner = 20 -> blen polyfs = 32 -> blen integrity = 32 -> blen payer = 20 ->
  blen (concat (contextPartsV3 s setup id owner polyfs integrity payer)) <= MAX_CONTEXT_BYTES ->
  context_fields_v3 (concat (contextPartsV3 s setup id owner polyfs integrity payer))
  = Ok (fields_of s id owner payer, []).
Proof.
  intros Hread Hchain Hd Hg Hm Hu Hfs Hfl L1 L2 L3 L4 L5 L6 Hmax.
  destruct Hread as [Ha _ Hf _ [_ Hplan] _ HU [Hrec Hburn] Hfund _].
  unfold contextPartsV3 in Hmax. cbn [concat] in Hmax. rewrite !lp_append in Hmax. unfold append_lp in Hmax.
  rewrite !blen_app, !blen_be in Hmax. unfold MAX_CONTEXT_BYTES in Hmax.
  unfold contextPartsV3, fields_of. cbv zeta. cbn [concat]. rewrite Ha, Hf in *.
  repeat match goal with H : Forall _ (_ :: _) |- _ => apply Forall_cons in H as [? H] end. clear HU.
  assert (HU : U64_MAX = 2 ^ 64 - 1) by done.
  pose proof (blen_nonneg (TextEncoder_encode (g_chainId authority))).
  pose proof (blen_nonneg (TextEncoder_encode (fs_priceDenom s))).
  pose proof (blen_nonneg (TextEncoder_encode (pretty (fs_pricePerBlob s)))).
  pose proof (blen_nonneg (TextEncoder_encode (pretty (fs_baseFee s)))).
  change (blen (TextEncoder_encode "polystore/challenge-context/v3")) with 30 in Hmax. change (blen [2]) with 1 in Hmax.
  change (blen []) with 0 in Hmax. rewrite !lp_append. change [2] with (be 2 1).
  unfold context_fields_v3.
  erewrite rbind_run by (apply run_lp; vm_compute; reflexivity).
  cbv beta. rewrite bool_decide_eq_true_2 by reflexivity. cbn [negb]. run_reader. cbn [VERSION Z.eqb Pos.eqb negb].
  run_reader. rewrite Hchain. cbn [negb]. run_reader. cbn [Z.eqb Pos.eqb negb]. run_reader. cbn [Z.eqb Pos.eqb negb]. run_reader.
  cbn [Z.eqb Pos.eqb negb]. run_reader. erewrite rbind_run by reflexivity. reflexivity.
Qed.

(** ** Challenges *)

Context `{field : ScalarField} (sha256 : bytes -> bytes) (sha256_size : forall x, blen (sha256 x) = 32).

Lemma hash_to_point_size valid digest retry attempts z : (forall r, blen (digest r) = 32) ->
  hash_to_point_from valid digest retry attempts = Ok z -> blen z = 32.
Proof.
  intros Hd. revert retry. induction attempts as [|n IH]; intros retry; cbn; [done|].
  destruct (valid _); [by intros [= <-] | apply IH].
Qed.

(** The places that positions stand for. *)
Lemma challengeAt_v3_places c seed i positions l : challengeAt_v3 sha256 c seed i positions = Ok l ->
  map h3_t l = map (Z.add (c3_first c)) positions
  /\ Forall (fun x => h3_slot x = h3_t x mod 8 /\ h3_leaf_index x = e_leafIndex (entryOf (c3_metadata c) (h3_t x))
       /\ h3_mdu_index x = e_mduIndex (entryOf (c3_metadata c) (h3_t x)) /\ blen (h3_z x) = 32) l.
Proof.
  revert i l. induction positions as [|p positions IH]; intros i l H; cbn [challengeAt_v3] in H; cbv zeta in H.
  { ok_steps H. split; [done | constructor]. }
  ok_steps H.
  apply IH in Hv0 as [Ht Hall]. split; [cbn [map h3_t]; by rewrite Ht|]. constructor; [|done].
  cbn [h3_slot h3_t h3_leaf_index h3_mdu_index h3_z entryOf e_leafIndex e_mduIndex].
  assert (Hmod : (c3_first c + p) mod 64 mod 8 = (c3_first c + p) mod 8) by div_lia_linear.
  rewrite Hmod. split_and!; [done | done | done |].
  unfold derive_z_with_domain, hash_to_point in Hv. apply hash_to_point_size in Hv; [done|]. intros r. apply sha256_size.
Qed.

Lemma blen_challenge_bytes x : blen (h3_z x) = 32 -> blen (challenge_bytes x) = 72.
Proof. intros Hz. unfold challenge_bytes. rewrite !blen_app, !blen_be, Hz. lia. Qed.

Lemma getUint32_slot pre x post : 0 <= h3_slot x < 2 ^ 32 ->
  getUint32 (pre ++ challenge_bytes x ++ post) (blen pre + 36) = h3_slot x.
Proof.
  intros Hs. unfold getUint32. unfold challenge_bytes.
  set (a := pre ++ be (h3_ordinal x) 8 ++ be (h3_position x) 8 ++ be (h3_t x) 8 ++ be (h3_mdu_index x) 8 ++ be (h3_leaf_index x) 4).
  replace (pre ++ _ ++ post) with (a ++ be (h3_slot x) 4 ++ (h3_z x ++ post)) by (unfold a; by rewrite <- !app_assoc).
  rewrite subarray_part by (unfold a; rewrite ?blen_app, ?blen_be; lia).
  change (from_be (be (h3_slot x) 4) = h3_slot x). rewrite from_be_be. apply Z.mod_small. exact Hs.
Qed.

Definition challenged (slot : Z) (l : list ChallengeV3) : Z :=
  Z.of_nat (length (filter (fun x => h3_slot x = slot) l)).

(** The client counts the records of a slot. *)
Lemma countSlot_spec l pre slot : Forall (fun x => 0 <= h3_slot x < 2 ^ 32 /\ blen (h3_z x) = 32) l ->
  countSlot (length l) (pre ++ concat (map challenge_bytes l)) (blen pre) slot = challenged slot l.
Proof.
  intros Hl. revert pre. induction Hl as [|x l [Hs Hz] Hl IH]; intros pre; [done|].
  cbn [length countSlot map concat]. rewrite getUint32_slot by done.
  replace (blen pre + 72) with (blen (pre ++ challenge_bytes x)) by (rewrite blen_app, blen_challenge_bytes by done; done).
  rewrite app_assoc, IH. unfold challenged. rewrite filter_cons.
  destruct (Z.eqb_spec (h3_slot x) slot); [rewrite decide_True by done; cbn [length]; lia | rewrite decide_False by done; lia].
Qed.

(** ** What an accepted session went through *)

Lemma parse_session_inv payload height authority e f : parseFrozenSessionV3 payload height authority e = Ok f ->
  exists response raw out bs r stored context computed anchor,
    record payload = Ok response
    /\ parseSessionFields raw height authority (x_file e) = Ok out /\ checkRequest raw out e = Ok tt
    /\ x_range e (start_offset (x_file e)) (size_bytes (x_file e)) (x_rangeStart e) (x_rangeLength e) (g_userMdus authority) = Ok bs
    /\ decodeRangeV3 bs = Ok r /\ checkPlan out r = Ok stored /\ encodeContextV3 out = Ok context
    /\ x_contextHash e context = Ok computed /\ equal computed (s_contextHash (fs_range out)) = true
    /\ match anchor with Some a => checkAnchor out e context a stored = Ok tt | None => True end
    /\ f = with_context out context anchor.
Proof.
  unfold parseFrozenSessionV3. cbv zeta. intros H. ok_steps H. bool_to_prop. destruct v2, v9.
  eexists _, _, _, _, _, _, _, _, v8. split_and!; [exact Hv | exact Hv1 | exact Hv2 | exact Hv3 | exact Hv4 | exact Hv5 | exact Hv6 | exact Hv7 | done | | done].
  by destruct v8.
Qed.

Lemma session_sound_context out context anchor : session_sound out -> session_sound (with_context out context anchor).
Proof. intros [[Hw1 Hw2 Hw3 Hw4] H1 H2 H3 H4 H5]. exact (Build_session_sound (with_context out context anchor) (Build_frozen_wf (with_context out context anchor) Hw1 Hw2 Hw3 Hw4) H1 H2 H3 H4 H5). Qed.

(** The functions that a session is read with are those of the module. *)
Record module_functions (e : ExpectedSessionV3) : Prop := {
  mf_range : x_range e = checked_retrieval_v3_range;
  mf_contextHash : x_contextHash e = retrieval_v3_context_hash sha256;
  mf_seed : x_seed e = retrieval_v3_seed sha256;
  mf_challenges : x_challenges e = derive_retrieval_v3_challenges sha256 }.

Lemma generation_chain chainId height dealId dealPayload g : generation_read chainId height dealId dealPayload g ->
  valid_chain (TextEncoder_encode (g_chainId g)) = true.
Proof.
  intros Hg. apply (parsed_chain (generationAsPinnedV2Shape g)). eexists _, _, _, _. exact (gr_pinned _ _ _ _ _ Hg).
Qed.

#[local] Opaque contextPartsV3.
(** The library reads the range, the samples and the place of a session from its
    context. *)
Lemma context_read chainId gh dealId dealPayload authority height e raw out bs r stored context c :
  generation_read chainId gh dealId dealPayload authority ->
  fields_read height authority (x_file e) out -> checkRequest raw out e = Ok tt ->
  checked_retrieval_v3_range (start_offset (x_file e)) (size_bytes (x_file e)) (x_rangeStart e) (x_rangeLength e)
    (g_userMdus authority) = Ok bs ->
  decodeRangeV3 bs = Ok r -> checkPlan out r = Ok stored -> encodeContextV3 out = Ok context ->
  context_parse_v3 sha256 context = Ok c ->
  c = {| c3_hash := sha256 context; c3_first := s_first (fs_range out); c3_population := fs_population out;
         c3_samples := fs_sampleCount out; c3_metadata := g_metadataMdus authority |}.
Proof.
  intros Hg Hread Hreq Hb Hd Hp Henc Hc. pose proof (generation_chain _ _ _ _ _ Hg) as Hchain.
  assert (Hreq' : fs_rangeStart out = x_rangeStart e /\ fs_rangeLength out = x_rangeLength e
                  /\ 0 <= start_offset (x_file e) <= U64_MAX /\ 0 <= size_bytes (x_file e) <= U64_MAX).
  { unfold checkRequest in Hreq. cbv zeta in Hreq. ok_steps Hreq. bool_to_prop.
    repeat match goal with H : protoU64 _ = Ok _ |- _ => apply protoU64_bounds in H end. lia. }
  destruct Hreq' as (Hrs & Hrl & Hfs & Hfl). clear Hreq.
  pose proof (decode_module_range _ _ _ _ _ _ _ Hb Hd) as (Hok & _ & _).
  assert (Hfirst : s_first (fs_range out) = r_first r).
  { unfold checkPlan in Hp. ok_step Hp. bool_to_prop. done. }
  unfold encodeContextV3 in Henc. cbv zeta in Henc. ok_steps Henc.
  pose proof (fr_authority _ _ _ _ Hread) as Ha. destruct (fr_accounts _ _ _ _ Hread) as [(o & Ho & Hol) (p & Hpp & Hpl)].
  rewrite Ho in Hv1. rewrite Hpp in Hv4. apply Ok_inj in Hv1, Hv4. subst v1 v4.
  unfold context_parse_v3 in Hc. ok_step Hc. bool_to_prop. pose proof (gr_mdus _ _ _ _ _ Hg). pose proof (gr_u64 _ _ _ _ _ Hg).
  apply unhex_iff in Hv, Hv0, Hv2, Hv3; [|unfold MAX_SAFE_INTEGER; lia..].
  assert (HU : U64_MAX = 2 ^ 64 - 1) by done.
  rewrite (context_fields_v3_run out _ _ _ _ _ _ height authority (x_file e)) in Hc; try done; try lia.
  cbn [bind fst] in Hc. unfold fields_of in Hc. cbv zeta in Hc.
  cbn [cf_file_start cf_file_length cf_range_start cf_range_length cf_users cf_population cf_samples cf_metadata] in Hc.
  rewrite (fr_file _ _ _ _ Hread), Ha, Hrs, Hrl in Hc.
  pose proof (fr_u64 _ _ _ _ Hread) as HF. apply Forall_cons in HF as [H1 HF]. apply Forall_cons in HF as [H2 _].
  ok_steps Hc. apply checked_range_spec in Hv1 as [Hok' _]; [|lia..].
  f_equal. rewrite Hfirst, (ro_first _ _ _ _ _ _ _ Hok). exact (ro_first _ _ _ _ _ _ _ Hok').
Qed.

Lemma existsb_false {A} (f : A -> bool) l x : existsb f l = false -> x ∈ l -> f x = false.
Proof.
  intros H Hx. apply not_true_iff_false. intros Hf. apply not_true_iff_false in H. apply H, existsb_exists.
  exists x. split; [by apply list_elem_of_In | done].
Qed.

(** The challenges of a context are distinct blobs of its range, at their places. *)
Lemma challenges_in_range c seed l first last : 0 <= first -> c3_first c = first -> c3_population c = last - first + 1 ->
  c3_samples c = Z.min (c3_population c) 132 -> 0 <= c3_population c ->
  challenges_v3 sha256 c seed = Ok l ->
  Z.of_nat (length l) = c3_samples c /\ NoDup (map h3_t l)
  /\ Forall (fun x => h3_t x ∈ slotBlobs first last (h3_slot x)
       /\ h3_leaf_index x = e_leafIndex (entryOf (c3_metadata c) (h3_t x))
       /\ h3_mdu_index x = e_mduIndex (entryOf (c3_metadata c) (h3_t x))
       /\ 0 <= h3_slot x < 8 /\ blen (h3_z x) = 32) l.
Proof.
  intros Hf Hfirst Hpop Hs Hp H. unfold challenges_v3 in H. ok_step H. rename v into positions.
  apply sample_distinct in Hv as (Hlen & Hnd & Hrange & _); [|lia].
  apply challengeAt_v3_places in H as [Ht Hall].
  assert (Hll : length l = length positions) by (apply (f_equal length) in Ht; by rewrite !length_map in Ht).
  split_and!.
  - by rewrite Hll.
  - rewrite Ht. apply NoDup_fmap_2; [|done]. intros x y. lia.
  - apply Forall_forall. intros x Hx. pose proof (proj1 (Forall_forall _ _) Hall x Hx) as (Hslot & Hleaf & Hmdu & Hz).
    assert (Hin : h3_t x ∈ map (Z.add (c3_first c)) positions) by (rewrite <- Ht; by apply list_elem_of_In, in_map, list_elem_of_In).
    apply list_elem_of_In, in_map_iff in Hin as (p & Hpx & Hin). apply list_elem_of_In in Hin.
    pose proof (proj1 (Forall_forall _ _) Hrange p Hin) as Hpr. cbn in Hpr.
    split_and!; try done; [|rewrite Hslot; apply Z.mod_pos_bound; lia..].
    unfold slotBlobs. apply list_elem_of_filter. split; [done|]. apply elem_of_seqZ. lia.
Qed.

(** ** Theorems *)

(** C7: What is accepted is fit to be executed and paid for: its first and last blob are
    those of the requested bytes, its obligations are the slots that serve a blob of the
    range, each owes the blobs its slot serves at the price per blob to the slot's
    provider, the fee that is locked is that of the obligations neither settled nor
    refunded, and only acknowledged obligations are settled. *)
Theorem v3_session_accepted gp chainId gh dealId dealPayload authority payload height e f :
  parseGeneration gp chainId gh dealId dealPayload = Ok (Some authority) -> x_range e = checked_retrieval_v3_range ->
  parseFrozenSessionV3 payload height authority e = Ok f -> session_sound f.
Proof.
  intros Hg%generation_pinned Hr Hf. apply parse_session_inv in Hf as (rs & raw & out & bs & r & st & ctx & comp & a & _ & Hout & Hreq & Hb & Hd & Hp & _ & _ & _ & _ & ->).
  apply session_sound_context. apply parseSessionFields_read in Hout. rewrite Hr in Hb.
  by destruct (checkPlan_sound _ _ _ _ _ _ _ _ Hout (gr_count _ _ _ _ _ Hg) Hreq Hb Hd Hp).
Qed.

(** C8: The challenges of a session are for what was planned.  The core library parses the
    context of a session that the client accepted, to the hash the chain reports; whatever
    the seed, its challenges are for as many different blobs as the session has samples,
    each a blob of the range, in the slot, MDU and leaf of the plan; and once the anchor is
    known, the samples that the chain stored for each obligation are those challenges. *)
Theorem v3_challenges_planned gp chainId gh dealId dealPayload authority payload height e f :
  parseGeneration gp chainId gh dealId dealPayload = Ok (Some authority) -> module_functions e ->
  parseFrozenSessionV3 payload height authority e = Ok f ->
  exists c, context_parse_v3 sha256 (fs_context f) = Ok c /\ c3_hash c = s_contextHash (fs_range f)
    /\ (forall seed l, challenges_v3 sha256 c seed = Ok l ->
         Z.of_nat (length l) = fs_sampleCount f /\ NoDup (map h3_t l)
         /\ Forall (fun x => h3_t x ∈ slotBlobs (s_first (fs_range f)) (s_last (fs_range f)) (h3_slot x)
              /\ h3_leaf_index x = e_leafIndex (entryOf (g_metadataMdus authority) (h3_t x))
              /\ h3_mdu_index x = e_mduIndex (entryOf (g_metadataMdus authority) (h3_t x))) l)
    /\ (forall anchor, fs_anchorSeed f = Some anchor -> total o_sampleCount (fs_obligations f) <> 0 ->
         exists l, challenges_v3 sha256 c (context_seed sha256 c anchor) = Ok l
           /\ Forall (fun o => o_sampleCount o = challenged (o_slot o) l) (fs_obligations f)).
Proof.
  intros Hg%generation_pinned [Hmr Hmh Hms Hmc] Hf.
  apply parse_session_inv in Hf as (rs & raw & out & bs & r & st & ctx & comp & a & _ & Hout & Hreq & Hb & Hd & Hp & Henc & Hh & Heq & Hanch & ->).
  apply parseSessionFields_read in Hout. rewrite Hmr in Hb. rewrite Hmh in Hh. apply equal_iff in Heq.
  destruct (checkPlan_sound _ _ _ _ _ _ _ _ Hout (gr_count _ _ _ _ _ Hg) Hreq Hb Hd Hp) as (Hso & Hst & _).
  unfold retrieval_v3_context_hash in Hh. ok_step Hh. rename v into c.
  pose proof (context_read _ _ _ _ _ _ _ _ _ _ _ _ _ _ Hg Hout Hreq Hb Hd Hp Henc Hv) as Hc.
  exists c. cbn [fs_context with_context fs_range fs_anchorSeed fs_obligations fs_sampleCount].
  split; [done|]. split; [apply Ok_inj in Hh; congruence|].
  pose proof (so_samples _ Hso) as Hsam. pose proof (fr_u64 _ _ _ _ Hout) as HF.
  repeat match goal with H : Forall _ (_ :: _) |- _ => apply Forall_cons in H as [? H] end. clear HF.
  assert (Hpop : fs_population out = s_last (fs_range out) - s_first (fs_range out) + 1).
  { pose proof (decode_module_range _ _ _ _ _ _ _ Hb Hd) as (_ & Hpop & _). unfold checkPlan in Hp. ok_step Hp. bool_to_prop. lia. }
  assert (E1 : c3_first c = s_first (fs_range out)) by by rewrite Hc.
  assert (E2 : c3_population c = fs_population out) by by rewrite Hc.
  assert (E3 : c3_samples c = fs_sampleCount out) by by rewrite Hc.
  assert (E4 : c3_metadata c = g_metadataMdus authority) by by rewrite Hc.
  pose proof (fun seed l => challenges_in_range c seed l (s_first (fs_range out)) (s_last (fs_range out))
    ltac:(lia) E1 ltac:(lia) ltac:(lia) ltac:(lia)) as Hin. rewrite E3, E4 in Hin. split.
  - intros seed l (Hl & Hnd & Hall)%Hin. split_and!; [done | done |].
    eapply Forall_impl; [exact Hall|]. cbn beta. tauto.
  - intros anchor -> Hne. unfold checkAnchor in Hanch. rewrite Hms, Hmc in Hanch.
    unfold retrieval_v3_seed, derive_retrieval_v3_challenges, challenges_flat_v3 in Hanch. rewrite Hv in Hanch. cbn [bind] in Hanch.
    ok_steps Hanch. ok_steps Hv0. ok_steps Hv1.
    exists v. split; [exact Hv0|]. apply Hin in Hv0 as (Hl & _ & Hall). apply andb_false_iff in Hg1 as [Hg1|Hg1]; [bool_to_prop; lia|].
    apply Forall_forall. intros o Ho. rewrite <- Hl, Nat2Z.id in Hg1.
    assert (Hcount := countSlot_spec v [] (o_slot o)). cbn [app blen length Z.of_nat] in Hcount. rewrite <- Hcount.
    + pose proof (existsb_false _ _ _ Hg1 Ho) as Heq. cbn beta in Heq. bool_to_prop. exact Heq.
    + eapply Forall_impl; [exact Hall|]. cbn beta. intros x (_ & _ & _ & ? & ?). lia.
Qed.

(** ** The plan of a request *)

Lemma residue_count_blobs first last slot : 0 <= first <= last -> 0 <= slot < 8 ->
  residue_count first last slot = Z.of_nat (length (slotBlobs first last slot)).
Proof.
  intros Hf Hs. pose proof (slotBlobs_count {| r_first := first; r_last := last; r_population := 0 |} slot ltac:(cbn; lia) Hs) as Hc.
  cbn [r_first r_last] in Hc. rewrite Hc. unfold residue_count, obligationFirst. cbn [r_first].
  destruct (Z.leb_spec first slot).
  - rewrite (Z.mod_small first 8) by lia. replace ((slot + 8 - first) mod 8) with (slot - first) by div_lia_linear.
    destruct (Z.ltb_spec (last - first) (slot - first)), (Z.ltb_spec last slot); try lia.
    rewrite Z.quot_div_nonneg by lia. replace (last - first - (slot - first)) with (last - slot) by lia. lia.
  - rewrite (Z.rem_mod_nonneg first) by lia. replace (slot - first mod 8 + 8) with (slot + 8 - first mod 8) by lia.
    rewrite Z.rem_mod_nonneg by div_lia_linear. set (d := (slot + 8 - first mod 8) mod 8).
    destruct (Z.ltb_spec (last - first) d), (Z.ltb_spec last (first + d)); try lia.
    rewrite Z.quot_div_nonneg by lia. replace (last - (first + d)) with (last - first - d) by lia. lia.
Qed.

(** The obligation of the library for a slot. *)
Definition slotObligation (range : Range) (providers : list bytes) (slot : Z) : list Obligation :=
  let n := residue_count (rg_first range) (rg_last range) slot in
  if 0 <? n then
    let provider := default [] (providers !! Z.to_nat slot) in
    [{| ob_slot := slot; ob_assigned := provider; ob_payee := provider; ob_blob_count := n |}]
  else [].

Lemma checkObligations_slots range providers slots prior total :
  Forall (fun slot => 0 <= slot < 8) slots -> StronglySorted Z.lt slots ->
  match prior with Some p => Forall (Z.lt p) slots | None => True end ->
  checkObligations range prior total (concat (map (slotObligation range providers) slots))
  = Ok (total + foldr Z.add 0 (map (fun s => Z.max 0 (residue_count (rg_first range) (rg_last range) s)) slots)).
Proof.
  intros Hs Hsort. revert prior total. induction Hsort as [|s slots Hsort IH Hlt]; intros prior total Hp; cbn [map concat foldr].
  - cbn. by rewrite Z.add_0_r.
  - apply Forall_cons in Hs as [Hs Hss]. unfold slotObligation at 1. destruct (Z.ltb_spec 0 (residue_count (rg_first range) (rg_last range) s)); cbn [app].
    + cbn [checkObligations ob_slot ob_assigned ob_payee ob_blob_count]. rewrite bool_decide_true, Z.eqb_refl by done. cbn [negb orb].
      rewrite (proj2 (Z.ltb_ge 7 s)), (proj2 (Z.eqb_neq _ _)) by lia. cbn [orb].
      replace (match prior with Some p => s <=? p | None => false end) with false.
      * rewrite IH by (done || (eapply Forall_impl; [exact Hlt|done])). f_equal. lia.
      * destruct prior as [p|]; [|done]. apply Forall_cons in Hp as [Hp _]. symmetry. apply Z.leb_gt. lia.
    + rewrite IH; [f_equal; lia | done |]. destruct prior; [by apply Forall_cons in Hp as [_ ?] | done].
Qed.

Lemma residues_total first last : 0 <= first <= last ->
  foldr Z.add 0 (map (fun s => Z.max 0 (residue_count first last s)) (seqZ 0 8)) = last - first + 1.
Proof.
  intros Hf. pose proof (Permutation_length (slotBlobs_all first last)) as Hlen. rewrite length_seqZ in Hlen.
  assert (Hgen : forall slots, Forall (fun s => 0 <= s < 8) slots ->
    foldr Z.add 0 (map (fun s => Z.max 0 (residue_count first last s)) slots)
    = Z.of_nat (length (concat (map (slotBlobs first last) slots)))).
  { induction 1 as [|s slots Hs _ IH]; [done|]. cbn [map foldr concat]. rewrite length_app, IH, residue_count_blobs by done. lia. }
  rewrite Hgen by (apply Forall_seqZ; lia). lia.
Qed.

Lemma slotObligation_length range providers slots :
  (length (concat (map (slotObligation range providers) slots)) <= length slots)%nat.
Proof.
  induction slots as [|s slots IH]; cbn [map concat length]; [done|]. rewrite length_app. unfold slotObligation at 1.
  destruct (0 <? _); cbn [length]; lia.
Qed.

(** A range has a plan, and the plan its encoding. *)
Lemma plan_exists first last providers : 0 <= first <= last -> last < U64_MAX ->
  let range := {| rg_first := first; rg_last := last; rg_population := last - first + 1 |} in
  let obligations := concat (map (slotObligation range providers) (seqZ 0 8)) in
  build range providers = Ok {| pl_range := range; pl_obligations := obligations |}
  /\ exists bs, plan_bytes {| pl_range := range; pl_obligations := obligations |} = Ok bs.
Proof.
  intros Hf Hl range obligations.
  assert (Hval : validate range = Ok tt).
  { unfold validate, checked_u64, range. cbn [rg_first rg_last rg_population].
    rewrite (proj2 (Z.ltb_ge (last - first) 0)), (proj2 (Z.ltb_ge U64_MAX (last - first))) by lia. cbn [orb bind].
    rewrite (proj2 (Z.ltb_ge (last - first + 1) 0)), (proj2 (Z.ltb_ge U64_MAX (last - first + 1))) by lia. cbn [orb bind].
    by rewrite Z.eqb_refl, (proj2 (Z.eqb_neq _ _)) by lia. }
  split; [unfold build; rewrite Hval; reflexivity|].
  assert (Hchk : checkObligations range None 0 obligations = Ok (last - first + 1)).
  { unfold obligations. rewrite checkObligations_slots; [|apply Forall_seqZ; lia | apply ascending_seqZ | done].
    cbn [rg_first rg_last range]. by rewrite residues_total, Z.add_0_l. }
  unfold plan_bytes. cbn [pl_range pl_obligations]. rewrite Hval. cbn [bind].
  rewrite bool_decide_false by (intros Hnil; rewrite Hnil in Hchk; cbn in Hchk; injection Hchk; lia).
  pose proof (slotObligation_length range providers (seqZ 0 8)) as Hlen. rewrite length_seqZ in Hlen. fold obligations in Hlen.
  rewrite (proj2 (Z.ltb_ge _ _)) by lia. cbn [orb]. rewrite Hchk. cbn [bind rg_population range]. rewrite Z.eqb_refl. cbn [negb]. eauto.
Qed.

(** An obligation of the client and one of the library are the same. *)
Definition same_obligation (o : RetrievalObligationV3) (ob : Obligation) : Prop :=
  o_slot o = ob_slot ob /\ o_blobCount o = ob_blob_count ob
  /\ accountBytes (o_assigned o) = Ok (ob_assigned ob) /\ accountBytes (o_payee o) = Ok (ob_payee ob).

Lemma slotObligations_same r providers accounts slots : 0 <= r_first r <= r_last r ->
  Forall2 (fun p a => accountBytes p = Ok a) (take 8 providers) accounts -> (8 <= length providers)%nat ->
  Forall (fun s => 0 <= s < 8) slots ->
  Forall2 same_obligation (concat (map (obligationOf r providers) slots))
    (concat (map (slotObligation {| rg_first := r_first r; rg_last := r_last r; rg_population := r_population r |} accounts) slots)).
Proof.
  intros Hr Hacc Hlen. induction 1 as [|s slots Hs _ IH]; cbn [map concat]; [constructor|]. apply Forall2_app; [|done].
  unfold obligationOf, slotObligation. cbn [rg_first rg_last]. rewrite residue_count_blobs by done.
  destruct (slotBlobs (r_first r) (r_last r) s) as [|b bs]; [constructor|].
  rewrite (proj2 (Z.ltb_lt 0 _)) by (cbn [length]; lia). constructor; [|constructor].
  destruct (lookup_lt_is_Some_2 providers (Z.to_nat s)) as [p Hp]; [lia|].
  assert (Hp' : take 8 providers !! Z.to_nat s = Some p) by (by rewrite lookup_take_lt by lia).
  destruct (Forall2_lookup_l _ _ _ _ _ Hacc Hp') as (a & Ha & Hpa). rewrite Hp, Ha. cbn [default]. by split_and!.
Qed.

Lemma subarray_concat B l i x : Forall (fun a => blen a = B) l -> l !! i = Some x ->
  subarray (concat l) (Z.of_nat i * B) ((Z.of_nat i + 1) * B) = x.
Proof.
  intros Hl Hi. rewrite <- (take_drop_middle _ _ _ Hi), concat_app. cbn [concat].
  pose proof (proj1 (Forall_lookup _ _) Hl _ _ Hi) as Hx. cbn beta in Hx.
  apply subarray_part; [|lia]. pose proof (lookup_lt_Some _ _ _ Hi) as Hlt.
  assert (Hc : forall k, Forall (fun a => blen a = B) k -> blen (concat k) = Z.of_nat (length k) * B).
  { induction 1 as [|a k Ha _ IHk]; [done|]. cbn [concat length]. rewrite blen_app, Ha, IHk. lia. }
  rewrite Hc by (by apply Forall_take). rewrite length_take. lia.
Qed.

Lemma split_accounts accounts : length accounts = 8%nat -> Forall (fun a => blen a = 20) accounts ->
  map (fun i => subarray (concat accounts) (i * 20) ((i + 1) * 20)) (seqZ 0 8) = accounts.
Proof.
  intros Hlen Hall. apply list_eq_same_length with 8%nat; [done | by rewrite length_map, length_seqZ |].
  intros i x y Hi Hx Hy. rewrite list_lookup_fmap, lookup_seqZ_lt in Hx by lia. injection Hx as <-.
  rewrite Z.add_0_l. by apply subarray_concat.
Qed.

Lemma accounts_decode l : Forall (fun p => exists bs, accountBytes p = Ok bs /\ blen bs = 20) l ->
  exists accounts, mapR accountBytes l = Ok accounts /\ Forall (fun a => blen a = 20) accounts.
Proof.
  induction 1 as [|p l (bs & Hbs & Hl) _ (accounts & Hacc & Hall)]; [by exists []|].
  exists (bs :: accounts). cbn [mapR]. rewrite Hbs, Hacc. split; [done | by constructor].
Qed.

Lemma checked_metadata_u64_Ok v : 0 <= v <= U64_MAX -> checked_metadata_u64 v = Ok v.
Proof. intros Hv. unfold checked_metadata_u64. by rewrite !(proj2 (Z.ltb_ge _ _)) by lia. Qed.

Lemma module_plan first last accounts plan : 0 <= first <= last -> last < U64_MAX ->
  length accounts = 8%nat -> Forall (fun a => blen a = 20) accounts ->
  let range := {| rg_first := first; rg_last := last; rg_population := last - first + 1 |} in
  plan_bytes {| pl_range := range; pl_obligations := concat (map (slotObligation range accounts) (seqZ 0 8)) |} = Ok plan ->
  retrieval_v3_plan first last (last - first + 1) (concat accounts) = Ok plan.
Proof.
  intros Hf Hl H8 H20 range Hplan. destruct (plan_exists first last accounts Hf Hl) as [Hbuild _].
  unfold retrieval_v3_plan. rewrite split_accounts by done.
  assert (Hlen : blen (concat accounts) = 160).
  { clear -H8 H20. do 8 (destruct accounts as [|? accounts]; [done|]). destruct accounts; [|done].
    repeat match goal with H : Forall _ (_ :: _) |- _ => apply Forall_cons in H as [? H] end.
    cbn [concat]. rewrite !blen_app. change (blen []) with 0. lia. }
  rewrite Hlen. cbn [Z.mul Pos.mul Z.eqb Pos.eqb negb].
  rewrite !checked_metadata_u64_Ok by lia. cbn [bind]. unfold range in Hplan. rewrite Hbuild. exact Hplan.
Qed.

Lemma slen_encode s : slen s <= blen (TextEncoder_encode s).
Proof.
  rewrite <- utf8_length_encode. unfold slen. induction s as [|c s IH]; [done|]. cbn [String.length utf8_length].
  destruct (_ <? _); lia.
Qed.

Lemma module_session_id chain owner deal generation record rs rl planHash nonce :
  valid_chain (TextEncoder_encode chain) = true -> blen owner = 20 -> blen planHash = 32 ->
  Forall (fun v => 0 <= v <= U64_MAX) [deal; generation; rs; rl; nonce] -> 0 <= record < 2 ^ 32 ->
  0 < rl <= MAX_RANGE_BYTES ->
  retrieval_v3_session_id sha256 chain owner deal generation record rs rl planHash nonce
  = Ok (sha256 (session_id_input (TextEncoder_encode chain) owner deal generation record rs rl planHash nonce)).
Proof.
  intros Hc Ho Hp HF Hrec Hrl. repeat match goal with H : Forall _ (_ :: _) |- _ => apply Forall_cons in H as [? H] end.
  pose proof (slen_encode chain). pose proof Hc as Hc'. unfold valid_chain in Hc'. bool_to_prop.
  unfold retrieval_v3_session_id, checked_metadata_text, checked_metadata_number, session_id. rewrite Ho, Hp. cbn [Z.eqb Pos.eqb negb].
  rewrite (proj2 (Z.eqb_neq (slen chain) 0)) by (unfold slen; destruct chain; [done | cbn; lia]).
  rewrite !checked_metadata_u64_Ok, !(proj2 (Z.ltb_ge _ _)) by lia. cbn [negb orb bind].
  rewrite !(proj2 (Z.ltb_ge _ _)) by lia. cbn [negb orb bind]. rewrite Hc. cbn [negb orb].
  by rewrite (proj2 (Z.eqb_neq rl 0)) by lia.
Qed.

(** C22: The binding that the client prepares for a request of a generation that was read, with
    the module's functions, always succeeds when the module takes the range; the plan that
    it hashes is the library's plan of that range, whose obligations are, slot by slot, the
    ones the client expects of the chain, and the session identifier is the library's. *)
Theorem v3_binding_agrees gp chainId gh dealId dealPayload authority owner ownerBytes recordIndex file rs rl nonce bs :
  parseGeneration gp chainId gh dealId dealPayload = Ok (Some authority) ->
  accountBytes owner = Ok ownerBytes -> blen ownerBytes = 20 -> 0 <= recordIndex < 2 ^ 32 -> 0 <= nonce <= U64_MAX ->
  checked_retrieval_v3_range (start_offset file) (size_bytes file) rs rl (g_userMdus authority) = Ok bs ->
  exists b plan, prepareV3Binding checked_retrieval_v3_range retrieval_v3_plan (retrieval_v3_session_id sha256) sha256
      authority owner recordIndex file rs rl nonce = Ok b
    /\ plan_bytes plan = Ok (b3_plan b) /\ plan_hash sha256 plan = Ok (b3_planHash b)
    /\ Forall2 same_obligation (b3_obligations b) (pl_obligations plan)
    /\ b3_sessionId b = hex (sha256 (session_id_input (TextEncoder_encode (g_chainId authority)) ownerBytes
         (g_dealId authority) (g_generation authority) recordIndex rs rl (b3_planHash b) nonce)).
Proof.
  intros Hg%generation_pinned Ho Hol Hrec Hnonce Hb. pose proof (generation_chain _ _ _ _ _ Hg) as Hchain.
  pose proof (gr_count _ _ _ _ _ Hg) as Hcount. pose proof (gr_u64 _ _ _ _ _ Hg) as [Hgen Hdeal].
  destruct (module_range_decodes _ _ _ _ _ _ Hb) as (r & Hd & Hok & Hpop & Hr & HF).
  repeat match goal with H : Forall _ (_ :: _) |- _ => apply Forall_cons in H as [? H] end. clear HF.
  assert (Hlast : r_last r < U64_MAX).
  { pose proof (gr_mdus _ _ _ _ _ Hg). pose proof (ro_capacity _ _ _ _ _ _ _ Hok). assert (U64_MAX = 2 ^ 64 - 1) by done. lia. }
  assert (exists accounts, mapR accountBytes (take 8 (g_providers authority)) = Ok accounts
    /\ Forall (fun a => blen a = 20) accounts) as (accounts & Hacc & H20).
  { apply accounts_decode. apply Forall_take, (gr_accounts _ _ _ _ _ Hg). }
  assert (H8 : length accounts = 8%nat) by (apply mapR_length in Hacc; rewrite Hacc, length_take; lia).
  destruct (plan_exists (r_first r) (r_last r) accounts Hr Hlast) as [_ [plan Hplan]].
  pose proof (module_plan _ _ _ _ Hr Hlast H8 H20 Hplan) as Hmod.
  pose proof (expectedObligationsV3_eq r (g_providers authority) ltac:(lia) ltac:(lia)) as Hobl.
  eexists _, _. unfold prepareV3Binding. rewrite Hb. cbn [bind]. rewrite Hd. cbn [bind]. rewrite Hacc. cbn [bind].
  rewrite Hpop, Hmod. cbn [bind]. rewrite Ho. cbn [bind].
  rewrite module_session_id; [|done|done|done|by repeat (apply Forall_cons_2; [done|])|done|exact (ro_length _ _ _ _ _ _ _ Hok)].
  cbn [bind]. rewrite Hobl. cbn [bind]. split; [reflexivity|]. cbn [b3_plan b3_planHash b3_obligations b3_sessionId].
  split; [exact Hplan|]. split; [unfold plan_hash; by rewrite Hplan|]. split; [|done]. cbn [pl_obligations].
  rewrite <- Hpop. apply slotObligations_same; [done | by apply mapR_Ok | lia | apply Forall_seqZ; lia].
Qed.
End agreement.

(** ** An example *)

#[local] Existing Instance sample_bech32.
#[local] Existing Instance sample_field.

Definition account_names : list string :=
  ["nil1a"; "nil1b"; "nil1c"; "nil1d"; "nil1e"; "nil1f"; "nil1g"; "nil1h"; "nil1i"; "nil1j"; "nil1k"; "nil1l"].
Definition B32 (n : Z) : json := JStr (btoa (replicate 32 n)).
Definition setup_bytes : bytes := match unhex RETRIEVAL_V3_SETUP 32 with Ok l => l | Err _ => [] end.

Definition v3_deal_payload : unknown :=
  Some (JObj [("deal", JObj [
    ("id", JStr "7"); ("redundancy_mode", JNum (int 2));
    ("mode2_profile", JObj [("k", JNum (int 8)); ("m", JNum (int 4))]);
    ("total_mdus", JStr "5"); ("witness_mdus", JStr "1"); ("end_block", JStr "1000");
    ("mode2_slots", JArr (imap (fun i name => sample_slot (Z.of_nat i) name) account_names));
    ("current_gen", JStr "3"); ("manifest_root", B32 1); ("owner", JStr "nil1owner");
    ("retrieval_policy", JObj [("mode", JStr "RETRIEVAL_POLICY_MODE_PUBLIC")])])]).
Definition v3_generation_payload : unknown :=
  Some (JObj [("admitted", JObj [
    ("deal_id", JStr "7"); ("owner", JStr "nil1owner"); ("chain_id", JStr "chain-1"); ("generation", JStr "3");
    ("polyfs_root", B32 1); ("integrity_root", B32 2); ("setup_digest", JStr (btoa setup_bytes));
    ("total_mdus", JStr "5"); ("witness_mdus", JStr "1"); ("metadata_mdus", JStr "2"); ("user_mdus", JStr "3");
    ("integrity_leaf_count", JStr "288"); ("size", JStr "300000"); ("accepted_slots_mask", JNum (int 4095));
    ("proposed_height", JStr "4"); ("providers", JArr (map JStr account_names))])]).
Definition v3_generation : FrozenGenerationV3 :=
  {| g_chainId := "chain-1"; g_height := 10; g_dealId := 7; g_generation := 3; g_owner := "nil1owner"; g_dealEnd := 1000;
     g_polyfsRoot := hex (replicate 32 1); g_integrityRoot := hex (replicate 32 2); g_setupDigest := RETRIEVAL_V3_SETUP;
     g_retrievalPolicyMode := 5; g_integrityLeafCount := 288; g_metadataMdus := 2; g_userMdus := 3; g_totalMdus := 5;
     g_witnessMdus := 1; g_providers := account_names |}.
Definition v3_file : RetrievalFile := {| f_path := "a"; start_offset := 0; size_bytes := 300000; f_flags := 0 |}.
Definition v3_expected : ExpectedSessionV3 :=
  {| x_sessionId := hex (sample_digest []); x_owner := "nil1owner"; x_recordIndex := 0; x_file := v3_file;
     x_rangeStart := 126970; x_rangeLength := 20; x_nonce := 1; x_planHash := sample_digest [];
     x_frozenContextHash := None; x_deadline := Some 100; x_funding := Some 1; x_range := checked_retrieval_v3_range;
     x_contextHash := retrieval_v3_context_hash sample_digest; x_seed := retrieval_v3_seed sample_digest;
     x_challenges := derive_retrieval_v3_challenges sample_digest |}.
Definition v3_obligation (slot : Z) (provider : string) : json :=
  JObj [("slot", JNum (int slot)); ("assigned_provider", JStr provider); ("payee", JStr provider);
        ("blob_count", JStr "1"); ("sample_count", JStr "1"); ("locked_fee", JStr "5")].
Definition v3_answer : unknown :=
  Some (JObj [("anchor_seed", B32 9); ("session", JObj [
    ("session_id", JStr (btoa (sample_digest []))); ("context_hash", JStr (btoa (sample_digest [])));
    ("plan_hash", JStr (btoa (sample_digest []))); ("owner", JStr "nil1owner"); ("payer", JStr "nil1owner");
    ("funding", JStr "RETRIEVAL_SESSION_FUNDING_DEAL_ESCROW");
    ("obligations", JArr [v3_obligation 0 "nil1a"; v3_obligation 1 "nil1b"]);
    ("range_start", JStr "126970"); ("range_length", JStr "20"); ("last_blob", JStr "1");
    ("population", JStr "2"); ("sample_count", JStr "2"); ("nonce", JStr "1"); ("price_denom", JStr "stake");
    ("price_per_blob", JStr "5"); ("base_fee", JStr "0"); ("snapshot_height", JStr "12"); ("anchor_height", JStr "13");
    ("first_response_height", JStr "14"); ("deadline_height", JStr "100"); ("deal_end_height", JStr "1000");
    ("accepted_sample_bitmap", JStr (btoa (replicate 17 0))); ("acked_slots_mask", JNum (int 1));
    ("settled_slots_mask", JNum (int 1)); ("locked_fee", JStr "5"); ("opened_height", JStr "12");
    ("updated_height", JStr "20"); ("deal_id", JStr "7"); ("generation", JStr "3"); ("polyfs_root", B32 1);
    ("integrity_root", B32 2); ("setup_digest", JStr (btoa setup_bytes)); ("file_length", JStr "300000");
    ("file_start_offset", JStr "0"); ("metadata_mdus", JStr "2"); ("user_mdus", JStr "3"); ("chain_id", JStr "chain-1")])]).
Definition v3_session : FrozenSessionV3 :=
  match parseFrozenSessionV3 v3_answer 20 v3_generation v3_expected with Ok f => f | Err _ => V3Execute.sample_frozen 0 end.

Lemma v3_generation_sample : parseGeneration v3_generation_payload "chain-1" 10 7 v3_deal_payload = Ok (Some v3_generation).
Proof. vm_compute. reflexivity. Qed.

Lemma v3_session_sample : parseFrozenSessionV3 v3_answer 20 v3_generation v3_expected = Ok v3_session.
Proof. vm_compute. reflexivity. Qed.

Lemma sample_digest_size x : blen (sample_digest x) = 32.
Proof. reflexivity. Qed.

Lemma v3_session_accepted_witness :
  parseFrozenSessionV3 v3_answer 20 v3_generation v3_expected = Ok v3_session /\ session_sound v3_session
  /\ fs_lockedFee v3_session = 5.
Proof.
  split; [exact v3_session_sample|]. split; [|vm_compute; reflexivity].
  exact (v3_session_accepted v3_generation_payload "chain-1" 10 7 v3_deal_payload v3_generation v3_answer 20 v3_expected
           v3_session v3_generation_sample eq_refl v3_session_sample).
Defined.

Lemma v3_challenges_planned_witness :
  exists c l anchor, context_parse_v3 sample_digest (fs_context v3_session) = Ok c
    /\ challenges_v3 sample_digest c (context_seed sample_digest c anchor) = Ok l
    /\ Forall (fun o => o_sampleCount o = challenged (o_slot o) l) (fs_obligations v3_session).
Proof.
  destruct (v3_challenges_planned sample_digest sample_digest_size v3_generation_payload "chain-1" 10 7 v3_deal_payload
    v3_generation v3_answer 20 v3_expected v3_session v3_generation_sample) as (c & Hc & _ & _ & Hl);
    [split; reflexivity | exact v3_session_sample |].
  destruct (Hl (replicate 32 9)) as (l & Hch & Hall); [vm_compute; reflexivity | vm_compute; discriminate |].
  exists c, l, (replicate 32 9). exact (conj Hc (conj Hch Hall)).
Defined.

Lemma v3_binding_agrees_witness :
  exists b plan, prepareV3Binding checked_retrieval_v3_range retrieval_v3_plan (retrieval_v3_session_id sample_digest) sample_digest
      v3_generation "nil1owner" 0 v3_file 126970 20 1 = Ok b
    /\ plan_bytes plan = Ok (b3_plan b) /\ Forall2 same_obligation (b3_obligations b) (pl_obligations plan).
Proof.
  destruct (v3_binding_agrees sample_digest sample_digest_size v3_generation_payload "chain-1" 10 7 v3_deal_payload v3_generation
    "nil1owner" (replicate 20 0) 0 v3_file 126970 20 1 (be 0 8 ++ be 1 8 ++ be 2 8) v3_generation_sample)
    as (b & plan & Hb & Hp & _ & Hs & _);
    [vm_compute; reflexivity | vm_compute; reflexivity | lia | split; vm_compute; discriminate | vm_compute; reflexivity |].
  exists b, plan. exact (conj Hb (conj Hp Hs)).
Defined.
