(* ===== verification/Settlement.v ===== *)
(** * Settlement of retrieval sessions

    Models src/polystore-website/src/lib/retrievalSettlement.ts: after the owner's
    acknowledgement of a wave of sessions was committed, the provider of each is asked
    for its proof, at most four payees at a time and one request at a time for a
    payee; and src/polystore-website/src/lib/retrievalV3Settlement.ts, the request of
    the newer protocol.

    The answer of a request is an argument of the functions that read it; decoding and
    parsing of JSON is a parameter.  The workers of [confirmAndRequestRetrievalProofs]
    are a step relation in which the code between two awaits is one step; the deadline
    may pass at any time. *)

From S2P Require Import Prelude JsMap JsNumber JsBytes JsString JsText Encoding Layout Windows Pinned Response V3Execute.
From Stdlib Require Import Ascii.
Local Open Scope Z_scope.

Definition MAX_OUTCOME_BYTES : Z := 16 * 1024.

Inductive SettlementState := Committed | Pending | Failed | Unavailable.
#[export] Instance settlement_state_eq_dec : EqDecision SettlementState.
Proof. solve_decision. Defined.

Record RetrievalSettlementOutcome := {
  so_state : SettlementState; so_sessionId : string; so_txHash : option string;
  so_responseUnknown : bool; so_message : option string }.

(** The fields of a session that settlement and its checkpoint use. *)
Record RetrievalSettlementSession := {
  ss_sessionId : string; ss_payee : string; ss_dealId : Z; ss_blobCount : Z;
  ss_browserTransactionKey : option string }.

(** [txHash ? ` (transaction ${txHash})` : otherwise] *)
Definition transaction (txHash : option string) (otherwise : string) : string :=
  match txHash with Some h => " (transaction " +:+ h +:+ ")" | None => otherwise end.

Definition pending (session : RetrievalSettlementSession) (detail : string) (txHash : option string)
    : RetrievalSettlementOutcome :=
  {| so_state := Pending; so_sessionId := ss_sessionId session; so_txHash := txHash;
     so_responseUnknown := false;
     so_message := Some ("Provider settlement pending for session " +:+ ss_sessionId session
       +:+ transaction txHash " (transaction outcome unknown)" +:+ ". " +:+ detail
       +:+ " Reconcile this same session with the provider; do not blindly rebroadcast.") |}.

(** [Object.keys(value).some((k) => !allowed.includes(k))] *)
Definition unknownKeys (value : fields) (allowed : list string) : bool :=
  existsb (fun kv => negb (bool_decide (kv.1 ∈ allowed))) value.

Definition is_string (v : unknown) : bool := match v with Some (JStr _) => true | _ => false end.
Definition string_of (v : unknown) : string := match v with Some (JStr s) => s | _ => "" end.
Definition optional_string (v : unknown) : bool := match v with None => true | _ => is_string v end.
(** [v === s] *)
Definition is_text (v : unknown) (s : string) : bool :=
  match v with Some (JStr t) => String.eqb t s | _ => false end.
(** [s.slice(0, 256)] *)
Definition slice256 (s : string) : string := String.substring 0 256 s.

(** [/^[0-9a-fA-F]{64}$/] *)
Definition isHash (s : string) : bool :=
  (slen s =? 64)
  && forallb (fun c => ((48 <=? c) && (c <=? 57)) || ((97 <=? c) && (c <=? 102)) || ((65 <=? c) && (c <=? 70)))
       (codes s).

(** [value.tx_hash === '' || /^[0-9a-fA-F]{64}$/.test(value.tx_hash)] *)
Definition validHash (v : unknown) : bool :=
  is_string v && (String.eqb (string_of v) "" || isHash (string_of v)).
(** [value.tx_hash || undefined] *)
Definition hashOf (v : unknown) : option string :=
  if String.eqb (string_of v) "" then None else Some (string_of v).

Definition CLEANUP : list string := ["complete"; "pending"; "retained"].

Section settlement.
Context (json_parse : bytes -> result json).

Definition readOutcome (contentTypeError : string) (r : Response) : result fields :=
  throw_if negb (isJsonType (default "" (r_contentType r))) with contentTypeError else
  let! body := readBoundedResponse r MAX_OUTCOME_BYTES in
  let! v := json_parse body in
  record (Some v).

(** The body of the [try]. *)
Definition proofOutcome (session : RetrievalSettlementSession) (answer : result Response)
    : result RetrievalSettlementOutcome :=
  let! response := answer in
  let! value := readOutcome "invalid outcome content type" response in
  let id := ss_sessionId session in
  let status := r_status response in
  if (400 <=? status) && (status <? 500) && bool_decide (mget value "status" = None) then
    throw_if unknownKeys value ["error"; "hint"] || negb (is_string (mget value "error"))
             || negb (optional_string (mget value "hint")) with "invalid rejection outcome" else
    Ok {| so_state := Failed; so_sessionId := id; so_txHash := None; so_responseUnknown := false;
          so_message := Some ("Provider settlement request rejected for session " +:+ id +:+ " (HTTP "
            +:+ pretty status +:+ "): " +:+ slice256 (string_of (mget value "error"))) |}
  else
  let malformed : string := "mismatched or malformed outcome" in
  throw_if unknownKeys value ["status"; "session_id"; "proof_count"; "tx_hash"; "cleanup_status"; "error"]
           || negb (is_text (mget value "session_id") id) with malformed else
  let! proofCount := uint (mget value "proof_count") 64 in
  throw_if negb (proofCount =? ss_blobCount session) || negb (validHash (mget value "tx_hash"))
           || match mget value "cleanup_status" with
              | None => false
              | Some (JStr s) => negb (bool_decide (s ∈ CLEANUP))
              | Some _ => true
              end
           || negb (optional_string (mget value "error")) with malformed else
  let txHash := hashOf (mget value "tx_hash") in
  let said s := is_text (mget value "status") s in
  if (status =? 200) && (said "reconciled" || (said "success" && bool_decide (is_Some txHash))) then
    if is_text (mget value "cleanup_status") "complete" then
      Ok {| so_state := Committed; so_sessionId := id; so_txHash := txHash; so_responseUnknown := false;
            so_message := None |}
    else
      Ok {| so_state := Pending; so_sessionId := id; so_txHash := txHash; so_responseUnknown := false;
            so_message := Some ("Provider settlement is committed for session " +:+ id
              +:+ transaction txHash ""
              +:+ ", but durable provider cleanup is pending. Reconcile this same session with the provider; do not rebroadcast.") |}
  else if (status =? 202) && said "pending" then
    Ok (pending session "The provider retained the proof and submission state." txHash)
  else if (status =? 409) && said "failed" then
    Ok {| so_state := Failed; so_sessionId := id; so_txHash := txHash; so_responseUnknown := false;
          so_message := Some ("Provider settlement failed for session " +:+ id +:+ transaction txHash ""
            +:+ ". The provider retained the proof for diagnosis.") |}
  else Err "unexpected outcome status".

Definition requestProof (session : RetrievalSettlementSession) (answer : result Response)
    : RetrievalSettlementOutcome :=
  match proofOutcome session answer with
  | Ok o => o
  | Err _ =>
      let o := pending session "No valid final response was received." None in
      {| so_state := so_state o; so_sessionId := so_sessionId o; so_txHash := so_txHash o;
         so_responseUnknown := true; so_message := so_message o |}
  end.

(** ** A wave of requests *)

(** [new Set(xs).size === xs.length] *)
Definition distinct (l : list string) : bool := bool_decide (NoDup l).

Context `{bech : Bech32}.

(** The checks before the acknowledgement. *)
Fixpoint checkSessions (sessions : list RetrievalSettlementSession) : result unit :=
  match sessions with
  | [] => Ok tt
  | session :: sessions =>
      let! _ := unhex (ss_sessionId session) 32 in
      let! _ := account (Some (JStr (ss_payee session))) in
      let! n := uint (Some (JNum (int (ss_blobCount session)))) 64 in
      throw_if n =? 0 with "empty settlement proof range" else
      checkSessions sessions
  end.
Definition validateSettlement (sessions : list RetrievalSettlementSession) : result unit :=
  throw_if bool_decide (sessions = []) || (64 <? Z.of_nat (length sessions))
           || negb (distinct (map ss_sessionId sessions)) with "invalid settlement session list" else
  checkSessions sessions.

(** [byPayee], its values being the groups, in the order of their first session. *)
Fixpoint byPayee (sessions : list RetrievalSettlementSession) (index : nat) (m : list (string * list nat))
    : list (string * list nat) :=
  match sessions with
  | [] => m
  | session :: sessions =>
      byPayee sessions (S index)
        (mset m (ss_payee session) (default [] (mget m (ss_payee session)) ++ [index]))
  end.
Definition groups (sessions : list RetrievalSettlementSession) : list (list nat) := (byPayee sessions 0 []).*2.

(** [base && /^https?:\/\//.test(base)] *)
Definition usable (base : option string) : bool :=
  match base with
  | Some b => String.prefix "http://" b || String.prefix "https://" b
  | None => false
  end.

Definition unavailable (session : RetrievalSettlementSession) (aborted : bool) : RetrievalSettlementOutcome :=
  {| so_state := Unavailable; so_sessionId := ss_sessionId session; so_txHash := None;
     so_responseUnknown := false;
     so_message := Some ("Provider settlement unavailable for session " +:+ ss_sessionId session +:+ ": "
       +:+ (if aborted then "the proof request deadline expired before dispatch"
            else "the provider endpoint could not be resolved")
       +:+ ". Verified output and owner confirmation are preserved; provider proof submission is still required. Resume this same operation to retry settlement using the saved bytes.") |}.

(** A worker waits for the endpoint of a group, or for the answer to the request for
    the first index it holds, or has returned. *)
Inductive worker :=
| Resolving (indexes : list nat)
| Requesting (base : string) (indexes : list nat)
| Returned.
#[export] Instance worker_eq_dec : EqDecision worker.
Proof. solve_decision. Defined.

(** [written] are the assignments [outcomes[index] = ...], [sent] the requests made,
    both in order. *)
Record wave := {
  wv_workers : list worker; wv_queue : list (list nat);
  wv_written : list (nat * RetrievalSettlementOutcome); wv_sent : list (nat * string) }.

(** [gatewayBase] is [None] also for an empty string, [resolver] says whether
    [resolveProviderBase] was given. *)
Section wave.
Context (sessions : list RetrievalSettlementSession) (gatewayBase : option string) (resolver : bool).

Definition session_at (index : nat) : option RetrievalSettlementSession := sessions !! index.

(** The indexes of a group from which on no outcome is known at once. *)
Fixpoint serve (aborted : bool) (base : option string) (indexes : list nat)
    (written : list (nat * RetrievalSettlementOutcome))
    : list nat * list (nat * RetrievalSettlementOutcome) :=
  match indexes with
  | [] => ([], written)
  | index :: rest =>
      if aborted || negb (usable base) then
        match session_at index with
        | Some session => serve aborted base rest (written ++ [(index, unavailable session aborted)])
        | None => (indexes, written)
        end
      else (indexes, written)
  end.

(** [while (nextGroup < groups.length)], up to the next await. *)
Fixpoint pull (aborted : bool) (queue : list (list nat))
    (written : list (nat * RetrievalSettlementOutcome))
    : worker * list (list nat) * list (nat * RetrievalSettlementOutcome) :=
  match queue with
  | [] => (Returned, [], written)
  | indexes :: queue =>
      match gatewayBase with
      | Some base =>
          match serve aborted (Some base) indexes written with
          | ([], written) => pull aborted queue written
          | (indexes, written) => (Requesting base indexes, queue, written)
          end
      | None =>
          if resolver then (Resolving indexes, queue, written)
          else pull aborted queue (serve aborted None indexes written).2
      end
  end.

(** The URL a request goes to. *)
Definition requestUrl (base : string) : string :=
  (if endsWith_char base "/"%char then slice_last base else base)
  +:+ (if bool_decide (is_Some gatewayBase) then "/gateway/retrieval/session-proof/continue"
       else "/sp/retrieval/session-proof/continue").

Definition request_of (w : worker) : list (nat * string) :=
  match w with Requesting base (index :: _) => [(index, requestUrl base)] | _ => [] end.

(** A worker goes on with a group whose [base] is known. *)
Definition proceed (aborted : bool) (base : option string) (indexes : list nat) (queue : list (list nat))
    (written : list (nat * RetrievalSettlementOutcome))
    : worker * list (list nat) * list (nat * RetrievalSettlementOutcome) :=
  match serve aborted base indexes written with
  | ([], written) => pull aborted queue written
  | (indexes, written) => (Requesting (default "" base) indexes, queue, written)
  end.

(** [Array.from({ length: Math.min(4, groups.length) }, worker)] *)
Fixpoint startWorkers (n : nat) (aborted : bool) (w : wave) : wave :=
  match n with
  | O => w
  | S n =>
      let '(x, queue, written) := pull aborted (wv_queue w) (wv_written w) in
      startWorkers n aborted
        {| wv_workers := wv_workers w ++ [x]; wv_queue := queue; wv_written := written;
           wv_sent := wv_sent w ++ request_of x |}
  end.
Definition startWave (aborted : bool) : wave :=
  startWorkers (Nat.min 4 (length (groups sessions))) aborted
    {| wv_workers := []; wv_queue := groups sessions; wv_written := []; wv_sent := [] |}.

Definition continue_with (j : nat) (w : wave)
    (r : worker * list (list nat) * list (nat * RetrievalSettlementOutcome)) : wave :=
  let '(x, queue, written) := r in
  {| wv_workers := <[j := x]> (wv_workers w); wv_queue := queue; wv_written := written;
     wv_sent := wv_sent w ++ request_of x |}.

Inductive wave_step : wave -> wave -> Prop :=
| endpoint_resolved j indexes base aborted w :
    wv_workers w !! j = Some (Resolving indexes) ->
    wave_step w (continue_with j w (proceed aborted base indexes (wv_queue w) (wv_written w)))
| proof_answered j base index indexes session answer aborted w :
    wv_workers w !! j = Some (Requesting base (index :: indexes)) ->
    session_at index = Some session ->
    wave_step w (continue_with j w (proceed aborted (Some base) indexes (wv_queue w)
      (wv_written w ++ [(index, requestProof session answer)]))).

(** The array [outcomes]; [None] is a hole. *)
Definition outcomes (w : wave) : list (option RetrievalSettlementOutcome) :=
  map (fun i => mget (wv_written w) i) (seq 0 (length sessions)).
End wave.

(** ** Lemmas *)

Section wave_lemmas.
Context (sessions : list RetrievalSettlementSession) (gatewayBase : option string) (resolver : bool).
Abbreviation served := (serve sessions).
Abbreviation pulled := (pull sessions gatewayBase resolver).
Abbreviation proceeded := (proceed sessions gatewayBase resolver).
Abbreviation step := (wave_step sessions gatewayBase resolver).
Abbreviation start := (startWave sessions gatewayBase resolver).

Definition payee_of (i : nat) : option string := ss_payee <$> sessions !! i.
(** No payee has sessions in both. *)
Definition apart (l1 l2 : list nat) : Prop :=
  forall i j, i ∈ l1 -> j ∈ l2 -> payee_of i <> payee_of j.

Definition held (x : worker) : list nat :=
  match x with Resolving l => l | Requesting _ l => l | Returned => [] end.
(** Workers that wait hold something. *)
Definition holds (x : worker) : Prop :=
  match x with Resolving l => l <> [] | Requesting _ l => l <> [] | Returned => True end.

Definition written_ok (w : nat * RetrievalSettlementOutcome) : Prop :=
  exists session, sessions !! w.1 = Some session /\ so_sessionId w.2 = ss_sessionId session.

Definition weight (x : worker) : nat :=
  match x with
  | Resolving l => 2 * length l
  | Requesting _ l => 2 * length l - 1
  | Returned => 0
  end.

(** What a worker makes of the indexes it holds and of the queue. *)
Record moves (l : list nat) (queue : list (list nat)) (written : list (nat * RetrievalSettlementOutcome))
    (x : worker) (queue' : list (list nat)) (written' : list (nat * RetrievalSettlementOutcome)) : Prop := {
  mv_indexes : map fst written' ++ held x ++ concat queue' ≡ₚ map fst written ++ l ++ concat queue;
  mv_written : Forall written_ok written -> Forall written_ok written';
  mv_holds : holds x;
  mv_apart : forall R, ForallOrdPairs apart (l :: queue ++ R) -> ForallOrdPairs apart (held x :: queue' ++ R);
  mv_queue : Forall (fun g => g <> []) queue -> Forall (fun g => g <> []) queue';
  mv_returned : x = Returned -> queue' = [];
  mv_empty : queue = [] -> queue' = [];
  mv_weight : (weight x + 2 * length (concat queue') <= 2 * length l + 2 * length (concat queue))%nat;
  mv_weight_lt : l <> [] -> (weight x + 2 * length (concat queue') < 2 * length l + 2 * length (concat queue))%nat }.

Definition valid (i : nat) : Prop := is_Some (sessions !! i).

Lemma ordpairs_shrink l l' L :
  l' ⊆ l -> ForallOrdPairs apart (l :: L) -> ForallOrdPairs apart (l' :: L).
Proof.
  intros Hsub H. inversion H as [|? ? Hf Hr]; subst. constructor; [|done].
  rewrite List.Forall_forall in *. intros y Hy i j Hi Hj. apply (Hf y Hy); [by apply Hsub | done].
Qed.

Lemma ordpairs_nil_front L : ForallOrdPairs apart L -> ForallOrdPairs apart ([] :: L).
Proof. intros H. constructor; [|done]. apply List.Forall_forall. by intros y _ i j ?%elem_of_nil. Qed.

Lemma serve_all aborted base l : forall written,
  aborted || negb (usable base) = true -> Forall valid l ->
  exists new, served aborted base l written = ([], written ++ new) /\ map fst new = l /\ Forall written_ok new.
Proof.
  induction l as [|i l IH]; intros written Hc Hv; cbn.
  { exists []. by rewrite app_nil_r. }
  apply Forall_cons in Hv as [[session Hs] Hv]. unfold session_at. rewrite Hc, Hs.
  destruct (IH (written ++ [(i, unavailable session aborted)]) Hc Hv) as (new & -> & Hm & Hok).
  exists ((i, unavailable session aborted) :: new). rewrite <- app_assoc. split_and!; [done | cbn; by f_equal |].
  constructor; [by exists session | done].
Qed.

Lemma serve_none aborted base l written :
  aborted || negb (usable base) = false -> served aborted base l written = (l, written).
Proof. intros Hc. destruct l; cbn; [done|]. by rewrite Hc. Qed.

Lemma pull_moves aborted queue : forall written x queue' written',
  Forall (Forall valid) queue -> Forall (fun g => g <> []) queue ->
  pulled aborted queue written = (x, queue', written') -> moves [] queue written x queue' written'.
Proof.
  induction queue as [|g queue IH]; intros written x queue' written' Hv Hne; cbn [pull].
  { intros [= <- <- <-]. constructor; try done; cbn; lia. }
  apply Forall_cons in Hv as [Hg Hv], Hne as [Hgn Hne].
  assert (Htake : forall y, held y = g -> holds y -> y <> Returned -> (weight y <= 2 * length g)%nat ->
    moves [] (g :: queue) written y queue written).
  { intros y Hy Hh Hy' Hwt. constructor; try done.
    - by rewrite Hy.
    - rewrite Hy. intros R HR. inversion HR; subst. done.
    - cbn. rewrite length_app. lia. }
  assert (Hskip : forall base, aborted || negb (usable base) = true ->
    pulled aborted queue (served aborted base g written).2 = (x, queue', written') ->
    moves [] (g :: queue) written x queue' written').
  { intros base Hc Hp. destruct (serve_all aborted base g written Hc Hg) as (new & Hs & Hm & Hok).
    rewrite Hs in Hp. cbn [snd] in Hp. apply IH in Hp as [H1 H2 H3 H4 H5 H8 H9 H6 H7]; [|done|done]. constructor; try done.
    - rewrite H1, map_app, Hm. cbn. by rewrite <- app_assoc.
    - intros Hw. apply H2, Forall_app. by split.
    - intros R HR. apply H4, ordpairs_nil_front. inversion HR as [|? ? _ HR']; subst. by inversion HR'.
    - intros H'. apply H5. by apply Forall_cons in H' as [_ ?].
    - cbn in *. rewrite length_app. lia. }
  destruct gatewayBase as [base|]; [|destruct resolver].
  - destruct (aborted || negb (usable (Some base))) eqn:Hc.
    + destruct (serve_all aborted (Some base) g written Hc Hg) as (new & Hs & _ & _). rewrite Hs. intros Hp.
      eapply Hskip; [exact Hc|]. by rewrite Hs.
    + rewrite serve_none by done. destruct g as [|i g]; [done|]. intros [= <- <- <-]. apply Htake; [done | done | done |]. cbn. lia.
  - intros [= <- <- <-]. apply Htake; [done | done | done | cbn; lia].
  - apply Hskip. by rewrite orb_true_r.
Qed.

Lemma proceed_moves aborted base l queue written x queue' written' :
  Forall valid l -> Forall (Forall valid) queue -> Forall (fun g => g <> []) queue ->
  proceeded aborted base l queue written = (x, queue', written') -> moves l queue written x queue' written'.
Proof.
  intros Hl Hv Hne. unfold proceed. destruct (aborted || negb (usable base)) eqn:Hc.
  - destruct (serve_all aborted base l written Hc Hl) as (new & -> & Hm & Hok).
    intros [H1 H2 H3 H4 H5 H8 H9 H6 H7]%pull_moves; [|done|done]. constructor; try done.
    + rewrite H1, map_app, Hm. cbn. by rewrite <- app_assoc.
    + intros Hw. apply H2, Forall_app. by split.
    + intros R HR. apply H4. eapply ordpairs_shrink; [|exact HR]. by intros i ?%elem_of_nil.
    + cbn in *. lia.
    + intros Hn. destruct l; [done|]. cbn in *. lia.
  - rewrite serve_none by done. destruct l as [|i l].
    + intros Hp%pull_moves; done.
    + intros [= <- <- <-]. constructor; try done; cbn; lia.
Qed.

Lemma apart_sym l1 l2 : apart l1 l2 -> apart l2 l1.
Proof. intros H i j Hi Hj Heq. by apply (H j i Hj Hi). Qed.

Lemma ordpairs_perm L L' : L ≡ₚ L' -> ForallOrdPairs apart L -> ForallOrdPairs apart L'.
Proof.
  induction 1 as [|l L L' HP IH|l1 l2 L|L1 L2 L3 _ IH1 _ IH2]; intros H; [done | | | auto].
  - inversion H as [|? ? Hf Hr]; subst. constructor; [|auto].
    rewrite List.Forall_forall in *. intros y Hy. apply Hf. by apply (Permutation_in _ (Permutation_sym HP)).
  - inversion H as [|? ? Hf Hr]; subst. inversion Hr as [|? ? Hf' Hr']; subst.
    inversion Hf as [|? ? Ha Hf'']; subst. repeat constructor; try done. by apply apart_sym.
Qed.

Lemma workers_split (ws : list worker) j x :
  ws !! j = Some x ->
  exists rest, ws ≡ₚ x :: rest /\ (forall y, <[j := y]> ws ≡ₚ y :: rest) /\ (forall y, length (<[j := y]> ws) = length ws).
Proof.
  intros Hj. exists (take j ws ++ drop (S j) ws). split_and!.
  - rewrite <- (take_drop_middle _ _ _ Hj) at 1. by rewrite Permutation_middle.
  - intros y. rewrite insert_take_drop by (by eapply lookup_lt_Some). by rewrite Permutation_middle.
  - intros y. apply length_insert.
Qed.

Record wave_inv (w : wave) : Prop := {
  wi_indexes : map fst (wv_written w) ++ concat (map held (wv_workers w)) ++ concat (wv_queue w)
               ≡ₚ seq 0 (length sessions);
  wi_written : Forall written_ok (wv_written w);
  wi_holds : Forall holds (wv_workers w);
  wi_apart : ForallOrdPairs apart (map held (wv_workers w) ++ wv_queue w);
  wi_queue : Forall (fun g => g <> []) (wv_queue w);
  wi_returned : Returned ∈ wv_workers w -> wv_queue w = [] }.

Definition total (w : wave) : nat := sum_list (map weight (wv_workers w)) + 2 * length (concat (wv_queue w)).

Lemma inv_valid w i : wave_inv w ->
  i ∈ concat (map held (wv_workers w)) ++ concat (wv_queue w) -> valid i.
Proof.
  intros [Hi _ _ _ _ _] Hin. apply lookup_lt_is_Some_2.
  assert (Hs : i ∈ seq 0 (length sessions)) by (rewrite <- Hi; apply elem_of_app; by right).
  apply elem_of_seq in Hs. lia.
Qed.

Lemma inv_queue_valid w : wave_inv w -> Forall (Forall valid) (wv_queue w).
Proof.
  intros Hi. apply Forall_forall. intros g Hg. apply Forall_forall. intros i Hin.
  apply (inv_valid w); [done|]. apply elem_of_app. right. apply list_elem_of_In, in_concat.
  exists g. by rewrite <- !list_elem_of_In.
Qed.

Lemma sum_list_perm (l l' : list nat) : l ≡ₚ l' -> sum_list l = sum_list l'.
Proof. induction 1; cbn; lia. Qed.

(** One worker moves on with the indexes [l], a part of those it held. *)
Lemma move_inv w j x0 l pre x queue' written' sent :
  wave_inv w -> wv_workers w !! j = Some x0 -> Forall written_ok pre -> map fst pre ++ l = held x0 ->
  moves l (wv_queue w) (wv_written w ++ pre) x queue' written' ->
  wave_inv {| wv_workers := <[j := x]> (wv_workers w); wv_queue := queue'; wv_written := written'; wv_sent := sent |}.
Proof.
  intros [Hidx Hwr Hh Ha Hq Hret] Hj Hpre Hl [M1 M2 M3 M4 M5 M6 M7 _ _].
  destruct (workers_split _ _ _ Hj) as (rest & Hp & Hp' & _). constructor; cbn.
  - rewrite Hp'. cbn. rewrite (Permutation_app_comm (held x)), <- app_assoc.
    rewrite Hp in Hidx. cbn in Hidx. rewrite <- Hidx, <- Hl.
    assert (E : map fst written' ++ concat (map held rest) ++ held x ++ concat queue'
      ≡ₚ concat (map held rest) ++ (map fst written' ++ held x ++ concat queue'))
      by (rewrite !app_assoc; f_equiv; f_equiv; apply Permutation_app_comm).
    rewrite E, M1, map_app. solve_Permutation.
  - apply M2, Forall_app. by split.
  - rewrite Hp'. rewrite Hp in Hh. apply Forall_cons in Hh as [_ Hh]. by constructor.
  - eapply ordpairs_perm; [|apply (M4 (map held rest))].
    + rewrite Hp'. cbn. constructor. apply Permutation_app_comm.
    + eapply ordpairs_shrink; [|eapply ordpairs_perm; [|exact Ha]].
      * instantiate (1 := held x0). rewrite <- Hl. intros i Hi. apply elem_of_app. by right.
      * rewrite Hp. cbn. constructor. apply Permutation_app_comm.
  - by apply M5.
  - rewrite Hp'. rewrite Hp in Hret. intros [Hx|Hx]%elem_of_cons; [by apply M6|]. apply M7, Hret. by right.
Qed.

Lemma request_ok session answer : so_sessionId (requestProof session answer) = ss_sessionId session.
Proof.
  unfold requestProof. destruct (proofOutcome session answer) as [o|] eqn:Ho; [|done].
  unfold proofOutcome in Ho. ok_step Ho. ok_step Ho. cbv zeta in Ho.
  destruct (_ && _ && _) in Ho; [ok_step Ho; by apply Ok_inj in Ho as <-|].
  ok_step Ho. ok_step Ho. ok_step Ho.
  repeat (destruct (_ && _) in Ho); repeat (destruct (is_text _ _) in Ho); try done; by apply Ok_inj in Ho as <-.
Qed.

(** A step keeps the invariant and uses up some of the work. *)
Lemma wave_step_inv w w' : step w w' -> wave_inv w -> wave_inv w' /\ (total w' < total w)%nat.
Proof.
  assert (Hgen : forall w j x0 l pre x queue' written' sent,
    wave_inv w -> wv_workers w !! j = Some x0 -> Forall written_ok pre -> map fst pre ++ l = held x0 ->
    moves l (wv_queue w) (wv_written w ++ pre) x queue' written' ->
    (weight x + 2 * length (concat queue') < weight x0 + 2 * length (concat (wv_queue w)))%nat ->
    let w' := {| wv_workers := <[j := x]> (wv_workers w); wv_queue := queue'; wv_written := written'; wv_sent := sent |} in
    wave_inv w' /\ (total w' < total w)%nat).
  { intros w0 j x0 l pre x queue' written' sent Hi Hj Hpre Hl Hm Hlt. split; [by eapply move_inv|].
    destruct (workers_split _ _ _ Hj) as (rest & Hp & Hp' & _). unfold total. cbn.
    rewrite (sum_list_perm _ _ (Permutation_map weight (Hp' x))).
    rewrite (sum_list_perm _ _ (Permutation_map weight Hp)). cbn. lia. }
  intros [j indexes base aborted w0 Hj|j base index indexes session answer aborted w0 Hj Hs] Hi.
  - unfold continue_with. destruct (proceed _ _ _ _ _ _ _ _) as [[x queue'] written'] eqn:Hp.
    assert (Hne : indexes <> []) by (pose proof (Forall_lookup_1 _ _ _ _ (wi_holds _ Hi) Hj); done).
    apply proceed_moves in Hp as Hm; [| |by apply inv_queue_valid | apply Hi].
    + eapply (Hgen w0 j _ indexes []); [done | done | done | done | by rewrite app_nil_r |].
      cbn [weight]. by apply Hm.
    + apply Forall_forall. intros i Hin. apply (inv_valid w0); [done|]. apply elem_of_app. left.
      destruct (workers_split _ _ _ Hj) as (rest & HP & _). rewrite HP. cbn. apply elem_of_app. by left.
  - unfold continue_with. destruct (proceed _ _ _ _ _ _ _ _) as [[x queue'] written'] eqn:Hp.
    apply proceed_moves in Hp as Hm; [| |by apply inv_queue_valid | apply Hi].
    + eapply (Hgen w0 j _ indexes [(index, requestProof session answer)]); [done | done | | done | done |].
      * apply Forall_singleton. exists session. split; [done | apply request_ok].
      * cbn [weight length]. pose proof (mv_weight _ _ _ _ _ _ Hm). lia.
    + apply Forall_forall. intros i Hin. apply (inv_valid w0); [done|]. apply elem_of_app. left.
      destruct (workers_split _ _ _ Hj) as (rest & HP & _). rewrite HP. cbn. right. apply elem_of_app. by left.
Qed.

Lemma byPayee_spec l : forall pre m, sessions = pre ++ l ->
  NoDup m.*1 -> Forall (fun kv => kv.2 <> [] /\ Forall (fun i => payee_of i = Some kv.1) kv.2) m ->
  concat m.*2 ≡ₚ seq 0 (length pre) ->
  let m' := byPayee l (length pre) m in
  NoDup m'.*1 /\ Forall (fun kv => kv.2 <> [] /\ Forall (fun i => payee_of i = Some kv.1) kv.2) m'
  /\ concat m'.*2 ≡ₚ seq 0 (length sessions).
Proof.
  induction l as [|session l IH]; intros pre m Hs Hnd Hall Hp; cbn [byPayee].
  { rewrite app_nil_r in Hs. subst pre. by split_and!. }
  replace (S (length pre)) with (length (pre ++ [session])) by (rewrite length_app; cbn; lia).
  assert (Hat : payee_of (length pre) = Some (ss_payee session)).
  { unfold payee_of. rewrite Hs, lookup_app_r, Nat.sub_diag by lia. done. }
  apply IH; [by rewrite <- app_assoc | by apply mset_NoDup | |].
  - apply Forall_forall. intros [k v] [[-> ->]|[_ Hin]]%mset_elem; [| |done].
    + cbn. split; [by destruct (default _ _)|]. apply Forall_app. split; [|by apply Forall_singleton].
      destruct (mget m (ss_payee session)) as [v|] eqn:Hg; cbn; [|constructor].
      apply mget_Some_elem in Hg. rewrite Forall_forall in Hall. by destruct (Hall _ Hg).
    + rewrite Forall_forall in Hall. by apply (Hall (k, v)).
  - rewrite length_app, seq_app, <- Hp. cbn. destruct (mget m (ss_payee session)) as [v|] eqn:Hg; cbn.
    + pose proof (mset_concat_grow id m (ss_payee session) v (v ++ [length pre]) [length pre] Hg eq_refl) as Hc.
      by rewrite !list_fmap_id in Hc.
    + pose proof (mset_concat_new id m (ss_payee session) [length pre] Hg) as Hc.
      rewrite !list_fmap_id in Hc. by rewrite Hc.
Qed.

Lemma apart_groups (m : list (string * list nat)) :
  NoDup m.*1 -> Forall (fun kv => kv.2 <> [] /\ Forall (fun i => payee_of i = Some kv.1) kv.2) m ->
  ForallOrdPairs apart m.*2.
Proof.
  induction m as [|[k v] m IH]; cbn; intros Hnd Hall; [constructor|].
  apply NoDup_cons in Hnd as [Hk Hnd]. apply Forall_cons in Hall as [[_ Hv] Hall]. constructor; [|auto].
  apply List.Forall_forall. intros v' Hin i j Hi Hj Heq. cbn in Hv. rewrite Forall_forall in Hv.
  rewrite (Hv i Hi) in Heq. apply list_elem_of_In, list_elem_of_fmap in Hin as ([k' v''] & -> & Hin).
  destruct (proj1 (Forall_forall _ _) Hall _ Hin) as [_ Hp]. cbn in Hp. rewrite Forall_forall in Hp. rewrite (Hp j Hj) in Heq. injection Heq as ->.
  apply Hk. apply list_elem_of_fmap. by exists (k', v'').
Qed.

Lemma startWorkers_inv n aborted : forall w, wave_inv w ->
  let w' := startWorkers sessions gatewayBase resolver n aborted w in
  wave_inv w' /\ (total w' <= total w)%nat /\ length (wv_workers w') = (length (wv_workers w) + n)%nat.
Proof.
  induction n as [|n IH]; intros w Hi; cbn [startWorkers]; [cbn zeta; split_and!; [done | done | lia]|].
  destruct (pull _ _ _ _ _ _) as [[x queue'] written'] eqn:Hp.
  apply pull_moves in Hp as [M1 M2 M3 M4 M5 M6 M7 M8 _]; [|by apply inv_queue_valid|apply Hi].
  edestruct IH as (Hi' & Ht & Hl); [|split_and!; [exact Hi' | etrans; [exact Ht|] | rewrite Hl]]; cbn.
  - destruct Hi as [Hidx Hwr Hh Ha Hq Hret]. constructor; cbn.
    + rewrite map_app, concat_app. cbn. rewrite app_nil_r, <- Hidx. cbn in M1.
      transitivity (concat (map held (wv_workers w)) ++ (map fst written' ++ held x ++ concat queue'));
        [solve_Permutation|]. rewrite M1. solve_Permutation.
    + by apply M2.
    + apply Forall_app. split; [done | by apply Forall_singleton].
    + eapply ordpairs_perm; [|apply (M4 (map held (wv_workers w)))].
      * rewrite map_app. cbn. solve_Permutation.
      * apply ordpairs_nil_front. eapply ordpairs_perm; [|exact Ha]. solve_Permutation.
    + by apply M5.
    + intros [Hx|Hx%list_elem_of_singleton]%elem_of_app; [by apply M7, Hret | by apply M6].
  - unfold total. cbn. rewrite map_app, sum_list_app. cbn in *. lia.
  - rewrite length_app. cbn. lia.
Qed.

Lemma start_inv aborted :
  wave_inv (start aborted) /\ (total (start aborted) <= 2 * length sessions)%nat
  /\ (length (wv_workers (start aborted)) <= 4)%nat
  /\ (wv_workers (start aborted) = [] -> sessions = []).
Proof.
  destruct (byPayee_spec sessions [] [] eq_refl) as (Hnd & Hall & Hp); [constructor | constructor | done |].
  cbn in Hnd, Hall, Hp. unfold startWave, groups.
  set (w0 := {| wv_workers := []; wv_queue := _; wv_written := []; wv_sent := [] |}).
  destruct (startWorkers_inv (Nat.min 4 (length (byPayee sessions 0 []).*2)) aborted w0) as (Hi & Ht & Hl).
  - constructor; cbn; [done | constructor | constructor | by apply apart_groups | | by intros ?%elem_of_nil].
    apply Forall_fmap. eapply Forall_impl; [exact Hall|]. by intros kv [? _].
  - split_and!; [exact Hi | etrans; [exact Ht|] | rewrite Hl; cbn [wv_workers length w0]; lia |].
    + unfold total. cbn. rewrite Hp, length_seq. lia.
    + intros Hnil. rewrite Hnil in Hl. cbn [wv_workers length w0] in Hl. assert (H0 : (byPayee sessions 0 []).*2 = []) by (apply length_zero_iff_nil; lia).
      rewrite H0 in Hp. apply length_zero_iff_nil. rewrite <- (length_seq (length sessions) 0), <- Hp. done.
Qed.

Lemma ordpairs_lookup L a b x y :
  ForallOrdPairs apart L -> L !! a = Some x -> L !! b = Some y -> a <> b -> apart x y.
Proof.
  revert a b. induction L as [|l L IH]; intros a b H Ha Hb Hne; [done|].
  inversion H as [|? ? Hf Hr]; subst. rewrite List.Forall_forall in Hf.
  destruct a as [|a], b as [|b]; cbn in Ha, Hb; [done | | | by eapply IH; eauto].
  - injection Ha as ->. apply Hf. by apply list_elem_of_In, (list_elem_of_lookup_2 _ b).
  - injection Hb as ->. apply apart_sym, Hf. by apply list_elem_of_In, (list_elem_of_lookup_2 _ a).
Qed.

Lemma wave_finished w :
  wave_inv w -> Forall (eq Returned) (wv_workers w) -> wv_queue w = [] ->
  exists outs, outcomes sessions w = map Some outs /\ map so_sessionId outs = map ss_sessionId sessions.
Proof.
  intros [Hidx Hwr _ _ _ _] Hret Hq.
  assert (Hh : concat (map held (wv_workers w)) = []) by (clear -Hret; induction Hret as [|x l <- _ IH]; cbn; [done | exact IH]).
  rewrite Hh, Hq in Hidx. cbn in Hidx. rewrite app_nil_r in Hidx. unfold outcomes.
  assert (Hnd : NoDup (wv_written w).*1) by (change ((wv_written w).*1) with (map fst (wv_written w)); rewrite Hidx; apply NoDup_seq).
  assert (Hget : forall i session, sessions !! i = Some session ->
    exists o, mget (wv_written w) i = Some o /\ so_sessionId o = ss_sessionId session).
  { intros i session Hs. assert (Hin : i ∈ map fst (wv_written w)).
    { rewrite Hidx. apply elem_of_seq. apply lookup_lt_Some in Hs. lia. }
    apply list_elem_of_fmap in Hin as ([i' o] & -> & Hin). exists o. split; [by apply mget_elem|].
    rewrite Forall_forall in Hwr. destruct (Hwr _ Hin) as (s & Hs' & Ho). cbn in *. congruence. }
  clear -Hget. revert Hget. generalize (wv_written w). intros m.
  assert (Hgen : forall l pre, sessions = pre ++ l -> (forall i session, sessions !! i = Some session ->
      exists o, mget m i = Some o /\ so_sessionId o = ss_sessionId session) ->
    exists outs, map (fun i => mget m i) (seq (length pre) (length l)) = map Some outs
      /\ map so_sessionId outs = map ss_sessionId l).
  { induction l as [|session l IH]; intros pre Hs Hget; cbn; [by exists []|].
    destruct (Hget (length pre) session) as (o & -> & Ho); [by rewrite Hs, lookup_app_r, Nat.sub_diag by lia|].
    destruct (IH (pre ++ [session])) as (outs & Houts & Hids); [by rewrite <- app_assoc | done |].
    rewrite length_app, Nat.add_1_r in Houts. exists (o :: outs). cbn. rewrite Houts, Ho, Hids. done. }
  intros Hget. by apply (Hgen sessions []).
Qed.
Lemma step_workers w w' : step w w' -> length (wv_workers w') = length (wv_workers w).
Proof.
  intros [j indexes base aborted w0 Hj|j base index indexes session answer aborted w0 Hj Hs]; unfold continue_with;
    destruct (proceed _ _ _ _ _ _ _ _) as [[x queue'] written']; apply length_insert.
Qed.

Lemma wave_run n w0 w : nsteps step n w0 w -> wave_inv w0 ->
  wave_inv w /\ (total w + n <= total w0)%nat /\ length (wv_workers w) = length (wv_workers w0).
Proof.
  induction 1 as [w|n w0 w1 w Hs _ IH]; intros Hi; [split_and!; [done | lia | done]|].
  destruct (wave_step_inv _ _ Hs Hi) as [Hi1 Ht1]. destruct (IH Hi1) as (Hi' & Ht & Hl).
  rewrite Hl, (step_workers _ _ Hs). split_and!; [done | lia | done].
Qed.

Lemma in_flight_apart w j j' base base' i i' l l' :
  wave_inv w -> j <> j' -> wv_workers w !! j = Some (Requesting base (i :: l)) ->
  wv_workers w !! j' = Some (Requesting base' (i' :: l')) -> payee_of i <> payee_of i'.
Proof.
  intros Hi Hne Hj Hj'.
  assert (Hat : forall j base i l, wv_workers w !! j = Some (Requesting base (i :: l)) ->
    (map held (wv_workers w) ++ wv_queue w) !! j = Some (i :: l)).
  { intros j0 b0 i0 l0 H0. apply lookup_app_l_Some. change (map held ?x) with (held <$> x).
    by rewrite list_lookup_fmap, H0. }
  apply (ordpairs_lookup _ _ _ _ _ (wi_apart _ Hi) (Hat _ _ _ _ Hj) (Hat _ _ _ _ Hj') Hne); by left.
Qed.

Lemma wave_progress w : wave_inv w -> (exists w', step w w') \/ Forall (eq Returned) (wv_workers w).
Proof.
  intros Hi.
  destruct (decide (Forall (eq Returned) (wv_workers w))) as [Hf|Hf]; [by right | left].
  - apply not_Forall_Exists, Exists_exists in Hf as (x & Hx & Hn); [|apply _].
    apply list_elem_of_lookup_1 in Hx as [j Hj].
    destruct x as [indexes|base [|index indexes]|]; [| | |by destruct Hn].
    + eexists. by apply (endpoint_resolved _ _ _ j indexes None false).
    + by pose proof (Forall_lookup_1 _ _ _ _ (wi_holds _ Hi) Hj).
    + destruct (inv_valid w index Hi) as [session Hs].
      { apply elem_of_app. left. destruct (workers_split _ _ _ Hj) as (rest & HP & _). rewrite HP. by left. }
      eexists. by apply (proof_answered _ _ _ j base index indexes session (Err "") false).
Qed.

Lemma inv_no_sessions w : wave_inv w -> sessions = [] -> wv_queue w = [].
Proof.
  intros Hi H0. destruct Hi as [Hidx _ _ _ Hq _]. rewrite H0 in Hidx. cbn in Hidx. apply Permutation_nil_r in Hidx.
  apply app_eq_nil in Hidx as [_ [_ Hc]%app_eq_nil]. destruct (wv_queue w) as [|g q]; [done|].
  cbn in Hc. apply app_eq_nil in Hc as [-> _]. by apply Forall_cons in Hq as [? _].
Qed.
End wave_lemmas.

(** ** Theorems *)

(** C30: After the acknowledgement every session of a wave gets its outcome: whatever the
    endpoints, the answers and the deadline, a wave takes at most two steps for each
    session, at most four requests are under way, for different payees, no outcome is
    written twice, and when no step is left the outcomes are complete, each at the
    index of its own session. *)
Theorem settlement_wave_completes sessions gatewayBase resolver aborted n w :
  nsteps (wave_step sessions gatewayBase resolver) n (startWave sessions gatewayBase resolver aborted) w ->
  (n <= 2 * length sessions)%nat
  /\ (length (wv_workers w) <= 4)%nat
  /\ (forall j j' base base' i i' l l', j <> j' -> wv_workers w !! j = Some (Requesting base (i :: l)) ->
        wv_workers w !! j' = Some (Requesting base' (i' :: l')) ->
        ss_payee <$> sessions !! i <> ss_payee <$> sessions !! i')
  /\ NoDup (map fst (wv_written w))
  /\ ((exists w', wave_step sessions gatewayBase resolver w w')
      \/ exists outs, outcomes sessions w = map Some outs /\ map so_sessionId outs = map ss_sessionId sessions).
Proof.
  intros Hn. destruct (start_inv sessions gatewayBase resolver aborted) as (Hi0 & Ht0 & Hl0 & He0).
  destruct (wave_run _ _ _ _ _ _ Hn Hi0) as (Hi & Ht & Hl).
  split_and!; [lia | lia | | |].
  - intros j j' base base' i i' l l' Hne Hj Hj'. exact (in_flight_apart _ _ _ _ _ _ _ _ _ _ Hi Hne Hj Hj').
  - destruct Hi as [Hidx _ _ _ _ _]. assert (Hnd : NoDup (seq 0 (length sessions))) by apply NoDup_seq.
    rewrite <- Hidx in Hnd. by apply NoDup_app in Hnd as [? _].
  - destruct (wave_progress _ gatewayBase resolver w Hi) as [|Hret]; [by left | right].
    apply wave_finished; [done | done |]. destruct (wv_workers w) as [|x ws] eqn:Hw.
    + apply (inv_no_sessions _ w Hi). apply He0. apply length_zero_iff_nil. by rewrite <- Hl.
    + apply Hi. rewrite Hw. apply Forall_cons in Hret as [<- _]. by left.
Qed.
End settlement.

Definition sample_session (id payee : string) : RetrievalSettlementSession :=
  {| ss_sessionId := id; ss_payee := payee; ss_dealId := 1; ss_blobCount := 1; ss_browserTransactionKey := None |}.
Definition sample_sessions : list RetrievalSettlementSession :=
  [sample_session "a" "nil1x"; sample_session "b" "nil1y"; sample_session "c" "nil1x"].

(** After the first request of a wave of two payees was answered. *)
Definition sample_wave : wave :=
  let w := startWave sample_sessions (Some "http://gateway/") false false in
  continue_with (Some "http://gateway/") 0 w
    (proceed sample_sessions (Some "http://gateway/") false false (Some "http://gateway/") [2%nat] (wv_queue w)
       (wv_written w ++ [(0%nat, requestProof (fun _ => Err "") (sample_session "a" "nil1x") (Err ""))])).

Lemma settlement_wave_completes_witness :
  nsteps (wave_step (fun _ => Err "") sample_sessions (Some "http://gateway/") false) 1
      (startWave sample_sessions (Some "http://gateway/") false false) sample_wave
    /\ length (wv_workers sample_wave) = 2%nat
    /\ ((exists w', wave_step (fun _ => Err "") sample_sessions (Some "http://gateway/") false sample_wave w')
        \/ exists outs, outcomes sample_sessions sample_wave = map Some outs
             /\ map so_sessionId outs = map ss_sessionId sample_sessions).
Proof.
  assert (Hs : nsteps (wave_step (fun _ => Err "") sample_sessions (Some "http://gateway/") false) 1
      (startWave sample_sessions (Some "http://gateway/") false false) sample_wave).
  { eapply nsteps_l; [|apply nsteps_O].
    apply (proof_answered _ _ _ _ 0 "http://gateway/" 0 [2%nat] (sample_session "a" "nil1x") (Err "") false);
      reflexivity. }
  split; [exact Hs|]. split; [reflexivity|].
  exact (proj2 (proj2 (proj2 (proj2 (settlement_wave_completes _ _ _ _ _ _ _ Hs))))).
Defined.

(** ** The request of the newer protocol *)

Inductive ProofV3State := V3Accepted | V3Pending | V3Failed | V3Busy | V3Unknown.
#[export] Instance proof_v3_state_eq_dec : EqDecision ProofV3State.
Proof. solve_decision. Defined.

Record ProofV3Outcome := {
  pv_state : ProofV3State; pv_sessionId : string; pv_slot : option Z; pv_proofCount : option Z;
  pv_remaining : option Z; pv_txHash : option string; pv_message : option string;
  pv_responseUnknown : bool }.

Definition plainOutcome (state : ProofV3State) (sessionId : string) (message : option string) : ProofV3Outcome :=
  {| pv_state := state; pv_sessionId := sessionId; pv_slot := None; pv_proofCount := None;
     pv_remaining := None; pv_txHash := None; pv_message := message; pv_responseUnknown := false |}.

Definition exactKeysV3 (value : fields) (allowed : list string) : result unit :=
  throw_if unknownKeys value allowed with "unknown v3 proof outcome field" else Ok tt.

(** [String(v) === s] for a text [s] with no comma: a string, or an array of the one. *)
Fixpoint stringIs (v : json) (s : string) : bool :=
  match v with
  | JStr t => String.eqb t s
  | JArr [v] => stringIs v s
  | _ => false
  end.
Definition busyError (v : unknown) : bool :=
  match v with
  | Some v => stringIs v "retrieval submission busy" || stringIs v "retrieval continuation busy"
  | None => false
  end.

Section proof_v3.
Context (json_parse : bytes -> result json).

(** The body of the [try]. *)
Definition proofV3Outcome (sessionId : string) (answer : result Response) : result ProofV3Outcome :=
  let! response := answer in
  let! value := readOutcome json_parse "invalid v3 proof outcome content type" response in
  let status := r_status response in
  if status =? 429 then
    let! _ := exactKeysV3 value ["error"; "hint"] in
    throw_if negb (busyError (mget value "error")) || negb (is_string (mget value "hint")) with "invalid busy v3 proof outcome" else
    Ok (plainOutcome V3Busy sessionId (Some (slice256 (string_of (mget value "hint")))))
  else if bool_decide (is_Some (mget value "recorded_session_id"))
          || bool_decide (is_Some (mget value "retry_required")) then
    let! _ := exactKeysV3 value ["status"; "recorded_session_id"; "tx_hash"; "proof_count"; "cleanup_status";
                                 "retry_required"; "error"] in
    throw_if match mget value "retry_required" with Some (JBool true) => false | _ => true end
             || negb (is_string (mget value "recorded_session_id")) || negb (is_string (mget value "status"))
      with "invalid v3 proof recovery outcome" else
    Ok (plainOutcome V3Pending sessionId (Some "The provider is reconciling another retained signer operation; retry this same session after it completes."))
  else
  let! _ := exactKeysV3 value ["status"; "session_id"; "tx_hash"; "slot"; "proof_count"; "remaining";
                               "cleanup_status"; "error"; "timing"] in
  throw_if negb (is_text (mget value "session_id") sessionId) || negb (is_string (mget value "status"))
           || negb (validHash (mget value "tx_hash"))
           || match mget value "cleanup_status" with
              | Some (JStr s) => negb (bool_decide (s ∈ CLEANUP))
              | _ => true
              end
           || negb (optional_string (mget value "error")) with "mismatched v3 proof outcome" else
  let! slot := uint (mget value "slot") 7 in
  let! proofCount := uint (mget value "proof_count") 64 in
  let! remaining := uint (mget value "remaining") 132 in
  let result state message :=
    {| pv_state := state; pv_sessionId := sessionId; pv_slot := Some slot; pv_proofCount := Some proofCount;
       pv_remaining := Some remaining; pv_txHash := hashOf (mget value "tx_hash"); pv_message := message;
       pv_responseUnknown := false |} in
  let said s := is_text (mget value "status") s in
  if (status =? 200) && (said "success" || said "reconciled") then Ok (result V3Accepted None)
  else if (status =? 202) && said "pending" then Ok (result V3Pending None)
  else if (status =? 409) && said "failed" then
    Ok (result V3Failed (Some (if is_string (mget value "error") then slice256 (string_of (mget value "error"))
                               else "provider retained a failed proof submission")))
  else Err "unexpected v3 proof outcome".

(** [aborted] is the reason of the caller's signal when the request failed under it. *)
Definition requestRetrievalProofV3 (sessionId : string) (slot : number) (answer : result Response)
    (aborted : option string) : result ProofV3Outcome :=
  let! _ := unhex sessionId 32 in
  let! _ := uint (Some (JNum slot)) 7 in
  match proofV3Outcome sessionId answer with
  | Ok o => Ok o
  | Err message =>
      match aborted with
      | Some reason => Err reason
      | None =>
          let o := plainOutcome V3Unknown sessionId (Some message) in
          Ok {| pv_state := pv_state o; pv_sessionId := pv_sessionId o; pv_slot := pv_slot o;
                pv_proofCount := pv_proofCount o; pv_remaining := pv_remaining o; pv_txHash := pv_txHash o;
                pv_message := pv_message o; pv_responseUnknown := true |}
      end
  end.

(** What [executeRetrievalV3] uses of an outcome. *)
Definition outcome_view (o : ProofV3Outcome) : RetrievalProofV3Outcome :=
  {| po_slot := pv_slot o; po_accepted := bool_decide (pv_state o = V3Accepted); po_remaining := pv_remaining o |}.

(** An outcome of the newer protocol is of the session that was asked for, its numbers
    are in range, and it is an acceptance only when a final answer for that session
    says so. *)
Lemma v3_outcome_of_session sessionId slot answer aborted o :
  requestRetrievalProofV3 sessionId slot answer aborted = Ok o ->
  pv_sessionId o = sessionId
  /\ (forall s, pv_slot o = Some s -> 0 <= s <= 7) /\ (forall r, pv_remaining o = Some r -> 0 <= r <= 132)
  /\ (pv_state o = V3Accepted -> exists response value, answer = Ok response /\ r_status response = 200
       /\ readOutcome json_parse "invalid v3 proof outcome content type" response = Ok value
       /\ is_text (mget value "session_id") sessionId = true).
Proof.
  unfold requestRetrievalProofV3. intros H. ok_step H. ok_step H.
  destruct (proofV3Outcome sessionId answer) as [o'|m] eqn:Ho; [injection H as <-|destruct aborted; [done|]; by injection H as <-].
  unfold proofV3Outcome in Ho. ok_step Ho. ok_step Ho. cbv zeta in Ho.
  destruct (r_status v1 =? 429) eqn:Hst; [ok_steps Ho; by subst|].
  destruct (bool_decide _ || bool_decide _); [ok_steps Ho; by subst|].
  ok_steps Ho. bool_to_prop.
  destruct ((r_status v1 =? 200) && _) eqn:H200;
    [|destruct ((r_status v1 =? 202) && _); [|destruct ((r_status v1 =? 409) && _); [|done]]];
    injection Ho as <-; cbn; (split; [done|]);
    (split; [intros s [= <-]; by eapply uint_bounds|]); (split; [intros s [= <-]; by eapply uint_bounds|]); try done.
  intros _. bool_to_prop. by exists v1, v2.
Qed.
End proof_v3.
