(* ===== verification/Checkpoint.v ===== *)
(** * The checkpoint of a retrieval

    Models src/polystore-website/src/lib/retrievalCheckpoint.ts: the cursor of a
    retrieval and the rows of its waves whose providers were not paid yet, both kept in
    the browser's storage; and how useFetch.ts and FileSharder.tsx use it, from opening
    to handing the output over.

    A method is a program of effects (Effects.v).  The closure's [state] is an argument
    and a result of the methods: [save] assigns it only after the storage took the new
    value, so it always is the stored cursor.  Rows are stored under keys made of the
    cursor's key and their ordinal; the world keeps them in a map of ordinals.  The
    [typeof] tests of a loaded cursor hold of every value of its type and are left out.

    The world keeps what survives a closed tab, and what was promised to providers:
    the waves the owner acknowledged, the sessions a provider reported as paid, and the
    sessions whose journals were deleted. *)

From S2P Require Import Prelude JsNumber JsString JsText Encoding Pinned Settlement Effects.
From stdpp Require Import gmap.
Local Open Scope Z_scope.

Record PendingWave := {
  pw_ordinal : Z; pw_sessions : list RetrievalSettlementSession; pw_proofBase : option string }.

Record RetrievalCheckpointState := {
  cs_id : string; cs_length : Z; cs_through : Z; cs_confirmed : option Z; cs_unsettled : option Z;
  cs_firstSettlementIssue : option RetrievalSettlementOutcome; cs_settlementFrom : option Z;
  cs_cleanupOrdinal : option Z; cs_cleanup : option (list RetrievalSettlementSession);
  cs_pending : option PendingWave }.

Record SettlementWave := {
  sw_sessions : list RetrievalSettlementSession; sw_outcomes : list RetrievalSettlementOutcome;
  sw_proofBase : option string }.

(** [{ ...state, cleanup, cleanupOrdinal }] and [{ ...state, pending }] *)
Definition with_cleanup (c : option (list RetrievalSettlementSession)) (o : option Z)
    (st : RetrievalCheckpointState) : RetrievalCheckpointState :=
  {| cs_id := cs_id st; cs_length := cs_length st; cs_through := cs_through st; cs_confirmed := cs_confirmed st;
     cs_unsettled := cs_unsettled st; cs_firstSettlementIssue := cs_firstSettlementIssue st;
     cs_settlementFrom := cs_settlementFrom st; cs_cleanupOrdinal := o; cs_cleanup := c;
     cs_pending := cs_pending st |}.
Definition with_pending (p : option PendingWave) (st : RetrievalCheckpointState) : RetrievalCheckpointState :=
  {| cs_id := cs_id st; cs_length := cs_length st; cs_through := cs_through st; cs_confirmed := cs_confirmed st;
     cs_unsettled := cs_unsettled st; cs_firstSettlementIssue := cs_firstSettlementIssue st;
     cs_settlementFrom := cs_settlementFrom st; cs_cleanupOrdinal := cs_cleanupOrdinal st;
     cs_cleanup := cs_cleanup st; cs_pending := p |}.

Inductive effect : Type -> Type :=
| AcquireLock : effect (result unit)
| ReleaseLock : effect unit
| GetCursor : effect (result (option RetrievalCheckpointState))
| PutCursor (st : RetrievalCheckpointState) : effect (result unit)
| RemoveCursor : effect (result unit)
| GetRow (ordinal : Z) : effect (result (option SettlementWave))
| PutRow (ordinal : Z) (row : SettlementWave) : effect (result unit)
| RemoveRow (ordinal : Z) : effect (result unit)
| CreateOutput (saved : option string) : effect (result string)
| ReleaseOutput (id : string) : effect (result unit)
| CleanupOutput (id : string) : effect (result unit)
| CheckAbort : effect (result unit)
| GatewayBase : effect (option string)
| Retrieve (ordinal : Z) : effect (result (list RetrievalSettlementSession))
| Confirm (sessions : list RetrievalSettlementSession) (gatewayBase : option string)
    : effect (result (list RetrievalSettlementOutcome))
| Settle (sessions : list RetrievalSettlementSession) (proofBase : option string)
    : effect (result (list RetrievalSettlementOutcome))
| Forget (sessions : list RetrievalSettlementSession) : effect (result unit).

Abbreviation prog := (prog effect).

Definition throws {A} (r : result unit) (k : prog (result A)) : prog (result A) :=
  match r with Ok _ => k | Err m => Ret (Err m) end.

(** ** Validation *)

Definition committed (o : RetrievalSettlementOutcome) : bool := bool_decide (so_state o = Committed).
Definition some_unknown (outcomes : list RetrievalSettlementOutcome) : bool := existsb so_responseUnknown outcomes.
(** [outcomes.filter((o) => o.state !== 'committed').length] *)
Definition count_unsettled (outcomes : list RetrievalSettlementOutcome) : Z :=
  Z.of_nat (length (List.filter (fun o => negb (committed o)) outcomes)).
(** [outcomes.find((o) => o.state !== 'committed')] *)
Definition first_unsettled (outcomes : list RetrievalSettlementOutcome) : option RetrievalSettlementOutcome :=
  List.find (fun o => negb (committed o)) outcomes.

Definition unknownSettlement : string :=
  "Provider proof request outcome is unknown. Retry this saved retrieval to reconcile the same session; its ACK is already committed.".

Definition wave_size (sessions : list RetrievalSettlementSession) : bool :=
  negb (bool_decide (sessions = [])) && (Z.of_nat (length sessions) <=? 64).

Definition validateOutcomes (sessions : list RetrievalSettlementSession)
    (outcomes : list RetrievalSettlementOutcome) : result unit :=
  throw_if negb (wave_size sessions) || negb (Nat.eqb (length outcomes) (length sessions))
           || negb (distinct (map ss_sessionId sessions))
           || existsb (fun '(o, s) => negb (String.eqb (so_sessionId o) (ss_sessionId s))) (combine outcomes sessions)
    with "invalid settlement checkpoint outcomes" else Ok tt.

(** [/^open:[0-9a-f]{64}$/] *)
Definition isOpenKey (key : option string) : bool :=
  match key with
  | Some key =>
      String.prefix "open:" key && (slen key =? 69)
      && forallb (fun c => ((48 <=? c) && (c <=? 57)) || ((97 <=? c) && (c <=? 102))) (drop 5 (codes key))
  | None => false
  end.

Section checkpoint.
Context `{bech : Bech32}.

Fixpoint checkRow (sessions : list RetrievalSettlementSession) : result unit :=
  match sessions with
  | [] => Ok tt
  | s :: sessions =>
      let! _ := unhex (ss_sessionId s) 32 in
      let! _ := account (Some (JStr (ss_payee s))) in
      let! _ := u64 (Some (JStr (pretty (ss_dealId s)))) in
      let! n := uint (Some (JNum (int (ss_blobCount s)))) 64 in
      throw_if (n =? 0) || negb (isOpenKey (ss_browserTransactionKey s))
        with "invalid settlement journal reference or range" else
      checkRow sessions
  end.
Definition validateSettlementWave (row : SettlementWave) : result unit :=
  let! _ := validateOutcomes (sw_sessions row) (sw_outcomes row) in
  checkRow (sw_sessions row).

Definition isSafeInteger (n : Z) : bool := Z.abs n <=? 2 ^ 53 - 1.

(** The cursor that opening accepts. *)
Definition validSaved (length : Z) (saved : RetrievalCheckpointState) : bool :=
  (cs_length saved =? length) && (-1 <=? cs_through saved)
  && match cs_settlementFrom saved with Some f => (0 <=? f) && (f <=? cs_through saved) | None => true end
  && match cs_cleanupOrdinal saved with
     | Some o => bool_decide (is_Some (cs_cleanup saved)) && (0 <=? o) && (o <=? cs_through saved)
     | None => true
     end
  && match cs_unsettled saved with Some n => isSafeInteger n && (0 <=? n) | None => true end
  && match cs_cleanup saved with Some c => wave_size c | None => true end
  && match cs_pending saved with
     | Some p => (cs_through saved <? pw_ordinal p) && wave_size (pw_sessions p)
     | None => true
     end.

(** ** The cursor *)

Definition save (next : RetrievalCheckpointState) : prog (result RetrievalCheckpointState) :=
  await (PutCursor next) (fun _ => Ret (Ok next)).

Definition cleaned (state : RetrievalCheckpointState) : prog (result RetrievalCheckpointState) :=
  let rest := save (with_cleanup None None state) in
  match cs_cleanupOrdinal state with
  | Some o => await (RemoveRow o) (fun _ => rest)
  | None => rest
  end.

Definition sameIds (a b : list RetrievalSettlementSession) : bool :=
  String.eqb (JsText.join "," (map ss_sessionId a)) (JsText.join "," (map ss_sessionId b)).

Definition prepare (state : RetrievalCheckpointState) (ordinal : Z) (sessions : list RetrievalSettlementSession)
    (proofBase : option string) : prog (result RetrievalCheckpointState) :=
  throws
    (throw_if bool_decide (is_Some (cs_cleanup state)) with "retrieval journal cleanup is pending" else
     throw_if negb (wave_size sessions) || (ordinal <=? cs_through state)
       with "invalid verified retrieval checkpoint" else
     throw_if match cs_pending state with
              | Some p => negb (pw_ordinal p =? ordinal) || negb (sameIds (pw_sessions p) sessions)
              | None => false
              end with "unreconciled retrieval checkpoint" else Ok tt)
  (save (with_pending (Some {| pw_ordinal := ordinal; pw_sessions := sessions;
           pw_proofBase := match cs_pending state ≫= pw_proofBase with Some b => Some b | None => proofBase end |})
         state)).

(** The cursor after the wave that was pending. *)
Definition completed (state : RetrievalCheckpointState) (ordinal : Z) (sessions : list RetrievalSettlementSession)
    (outcomes : list RetrievalSettlementOutcome) : RetrievalCheckpointState :=
  let unsettled := count_unsettled outcomes in
  let paid := unsettled =? 0 in
  {| cs_id := cs_id state; cs_length := cs_length state; cs_through := ordinal;
     cs_confirmed := Some (default 0 (cs_confirmed state) + Z.of_nat (length sessions));
     cs_unsettled := Some (default 0 (cs_unsettled state) + unsettled);
     cs_firstSettlementIssue :=
       match cs_firstSettlementIssue state with Some i => Some i | None => first_unsettled outcomes end;
     cs_settlementFrom :=
       match cs_settlementFrom state with Some f => Some f | None => if paid then None else Some ordinal end;
     cs_cleanupOrdinal := if paid then Some ordinal else None;
     cs_cleanup := if paid then Some sessions else None;
     cs_pending := None |}.

Definition complete (state : RetrievalCheckpointState) (ordinal : Z) (outcomes : list RetrievalSettlementOutcome)
    : prog (result RetrievalCheckpointState) :=
  match cs_pending state with
  | None => Ret (Err "missing verified retrieval checkpoint")
  | Some p =>
      if negb (pw_ordinal p =? ordinal) then Ret (Err "missing verified retrieval checkpoint") else
      let sessions := pw_sessions p in
      throws (validateOutcomes sessions outcomes)
      (if some_unknown outcomes then Ret (Err unknownSettlement) else
       let rest := save (completed state ordinal sessions outcomes) in
       if count_unsettled outcomes =? 0 then rest
       else await (PutRow ordinal {| sw_sessions := sessions; sw_outcomes := outcomes;
                                     sw_proofBase := pw_proofBase p |}) (fun _ => rest))
  end.

(** ** Reconciling the rows *)

(** [row.sessions.filter((_, i) => row.outcomes[i].state !== 'committed')] *)
Definition remaining (row : SettlementWave) : list RetrievalSettlementSession :=
  map fst (List.filter (fun '(_, o) => negb (committed o)) (combine (sw_sessions row) (sw_outcomes row))).

(** [row.outcomes.map((o) => o.state === 'committed' ? o : outcomes[next++])] *)
Fixpoint merge (old outcomes : list RetrievalSettlementOutcome) : list RetrievalSettlementOutcome :=
  match old with
  | [] => []
  | o :: old =>
      if committed o then o :: merge old outcomes
      else match outcomes with
           | [] => o :: merge old []
           | x :: outcomes => x :: merge old outcomes
           end
  end.
Definition with_outcomes (outcomes : list RetrievalSettlementOutcome) (row : SettlementWave) : SettlementWave :=
  {| sw_sessions := sw_sessions row; sw_outcomes := outcomes; sw_proofBase := sw_proofBase row |}.

(** The row after its unpaid sessions were asked for again. *)
Definition resettle (ordinal : Z) (row : SettlementWave) : prog (result SettlementWave) :=
  if bool_decide (remaining row = []) then Ret (Ok row) else
  await (Settle (remaining row) (sw_proofBase row)) (fun outcomes =>
  throws (validateOutcomes (remaining row) outcomes)
  (let row := with_outcomes (merge (sw_outcomes row) outcomes) row in
   await (PutRow ordinal row) (fun _ => Ret (Ok row)))).

(** [for (let ordinal = state.settlementFrom; ordinal <= state.through; ordinal++)]:
    [n] rows from [ordinal] on are left. *)
Fixpoint reconcileRows (n : nat) (ordinal : Z) (state : RetrievalCheckpointState) (unsettled : Z)
    (first : option RetrievalSettlementOutcome)
    : prog (result (RetrievalCheckpointState * Z * option RetrievalSettlementOutcome)) :=
  match n with
  | O => Ret (Ok (state, unsettled, first))
  | S n =>
      await CheckAbort (fun _ =>
      await (GetRow ordinal) (fun row =>
      match row with
      | None => reconcileRows n (ordinal + 1) state unsettled first
      | Some row =>
          throws (validateSettlementWave row)
          (call (resettle ordinal row) (fun row =>
           if forallb committed (sw_outcomes row) then
             call (call (save (with_cleanup (Some (sw_sessions row)) (Some ordinal) state)) (fun state =>
                   await (Forget (sw_sessions row)) (fun _ => cleaned state)))
               (fun state => reconcileRows n (ordinal + 1) state unsettled first)
           else
             let unsettled := unsettled + count_unsettled (sw_outcomes row) in
             let first := match first with Some i => Some i | None => first_unsettled (sw_outcomes row) end in
             if some_unknown (sw_outcomes row) then Ret (Err unknownSettlement)
             else reconcileRows n (ordinal + 1) state unsettled first))
      end))
  end.

(** The cursor after the rows were counted again. *)
Definition recounted (state : RetrievalCheckpointState) (unsettled : Z)
    (first : option RetrievalSettlementOutcome) : RetrievalCheckpointState :=
  {| cs_id := cs_id state; cs_length := cs_length state; cs_through := cs_through state;
     cs_confirmed := cs_confirmed state; cs_unsettled := Some unsettled; cs_firstSettlementIssue := first;
     cs_settlementFrom := if unsettled =? 0 then None else cs_settlementFrom state;
     cs_cleanupOrdinal := cs_cleanupOrdinal state; cs_cleanup := cs_cleanup state;
     cs_pending := cs_pending state |}.

(** [if (state.cleanup) { await forget(state.cleanup); cleaned() }] *)
Definition forgetCleanup (state : RetrievalCheckpointState) : prog (result RetrievalCheckpointState) :=
  match cs_cleanup state with
  | Some c => await (Forget c) (fun _ => cleaned state)
  | None => Ret (Ok state)
  end.

Definition reconcile (state : RetrievalCheckpointState) : prog (result RetrievalCheckpointState) :=
  call (forgetCleanup state) (fun state =>
  match cs_settlementFrom state with
  | None => Ret (Ok state)
  | Some from =>
      call (reconcileRows (Z.to_nat (cs_through state - from + 1)) from state 0 None)
        (fun '(state, unsettled, first) => save (recounted state unsettled first))
  end).

(** ** Opening and closing *)

Definition openSaved (length : Z) : prog (result RetrievalCheckpointState) :=
  await GetCursor (fun saved =>
  throws (throw_if match saved with Some saved => negb (validSaved length saved) | None => false end
            with "invalid saved retrieval checkpoint" else Ok tt)
  (await (CreateOutput (cs_id <$> saved)) (fun id =>
   let state := default {| cs_id := id; cs_length := length; cs_through := -1; cs_confirmed := None;
                           cs_unsettled := None; cs_firstSettlementIssue := None; cs_settlementFrom := None;
                           cs_cleanupOrdinal := None; cs_cleanup := None; cs_pending := None |} saved in
   Vis (PutCursor state) (fun r =>
   match r with
   | Ok _ => Ret (Ok state)
   | Err m => await (match saved with None => CleanupOutput id | Some _ => ReleaseOutput id end)
                (fun _ => Ret (Err m))
   end)))).

Definition openRetrievalCheckpoint (length : Z) : prog (result RetrievalCheckpointState) :=
  await AcquireLock (fun _ =>
  pbind (openSaved length) (fun r =>
  match r with
  | Ok state => Ret (Ok state)
  | Err m => Vis ReleaseLock (fun _ => Ret (Err m))
  end)).

(** [try { await output.release() } finally { release() }] *)
Definition retain (state : RetrievalCheckpointState) : prog (result unit) :=
  Vis (ReleaseOutput (cs_id state)) (fun r => Vis ReleaseLock (fun _ => Ret r)).

(** [Some id] is the cleanup of the output [id], which the caller now owns. *)
Definition handoff (state : RetrievalCheckpointState) : prog (result (option string)) :=
  if bool_decide (is_Some (cs_pending state)) || bool_decide (is_Some (cs_cleanup state))
  then Ret (Err "retrieval reconciliation is incomplete") else
  if negb (default 0 (cs_unsettled state) =? 0)
  then call (retain state) (fun _ => Ret (Ok None))
  else await RemoveCursor (fun _ => Vis ReleaseLock (fun _ => Ret (Ok (Some (cs_id state))))).

Definition finish (state : RetrievalCheckpointState) : prog (result string) :=
  if bool_decide (is_Some (cs_pending state)) || bool_decide (is_Some (cs_cleanup state))
     || negb (default 0 (cs_unsettled state) =? 0)
  then Ret (Err "retrieval reconciliation is incomplete")
  else await RemoveCursor (fun _ => Vis ReleaseLock (fun _ => Ret (Ok (cs_id state)))).

(** ** Its users *)

(** [confirm] of a download and of an append. *)
Definition confirm (gatewayBase proofBase : option string) (state : RetrievalCheckpointState) (ordinal : Z)
    (sessions : list RetrievalSettlementSession) : prog (result RetrievalCheckpointState) :=
  call (prepare state ordinal sessions proofBase) (fun state =>
  await (Confirm sessions gatewayBase) (fun outcomes =>
  if some_unknown outcomes then Ret (Err unknownSettlement) else
  call (complete state ordinal outcomes) forgetCleanup)).

(** One MDU: [Retrieve] stands for opening its sessions, fetching, verifying, decoding
    and flushing; it answers with the sessions to confirm. *)
Definition processMdu (mismatch : string) (base : prog (option string * option string))
    (state : RetrievalCheckpointState) (ordinal : Z) : prog (result RetrievalCheckpointState) :=
  if ordinal <=? cs_through state then Ret (Ok state) else
  match cs_pending state with
  | Some p =>
      if negb (pw_ordinal p =? ordinal) then Ret (Err mismatch)
      else pbind base (fun '(gatewayBase, proofBase) => confirm gatewayBase proofBase state ordinal (pw_sessions p))
  | None =>
      await (Retrieve ordinal) (fun sessions =>
      pbind base (fun '(gatewayBase, proofBase) => confirm gatewayBase proofBase state ordinal sessions))
  end.
Fixpoint processMdus (mismatch : string) (base : prog (option string * option string))
    (state : RetrievalCheckpointState) (ordinals : list Z) : prog (result RetrievalCheckpointState) :=
  match ordinals with
  | [] => Ret (Ok state)
  | ordinal :: ordinals =>
      call (processMdu mismatch base state ordinal) (fun state => processMdus mismatch base state ordinals)
  end.

(** A download of the MDUs [ordinals]: the gateway is looked up for every wave and saved
    with it.  When the output was handed over with its cleanup, the page removes it
    later. *)
Definition download (length : Z) (ordinals : list Z) : prog (result unit) :=
  call (openRetrievalCheckpoint length) (fun opened =>
  pbind (call (reconcile opened) (fun state =>
         call (processMdus "saved retrieval cursor does not match file"
                 (Vis GatewayBase (fun base => Ret (base, base))) state ordinals) (fun state =>
         handoff state)))
    (fun r =>
     match r with
     | Ok (Some id) => await (CleanupOutput id) (fun _ => Ret (Ok tt))
     | Ok None => Ret (Ok tt)
     | Err m => pbind (retain opened) (fun _ => Ret (Err m))
     end)).

(** The base of an append: all user MDUs, with the gateway looked up once and not saved;
    it is used only when every provider was paid.  The wording that the pages add to an
    error is left out. *)
Definition appendBase (length : Z) (userMdus : nat) : prog (result unit) :=
  call (openRetrievalCheckpoint length) (fun opened =>
  Vis GatewayBase (fun gatewayBase =>
  pbind (call (reconcile opened) (fun state =>
         call (processMdus "saved append cursor does not match generation" (Ret (gatewayBase, None)) state
                 (map Z.of_nat (seq 0 userMdus))) (fun state =>
         if negb (default 0 (cs_unsettled state) =? 0)
         then Ret (Err "Append base is verified, but provider payments remain unsettled.")
         else finish state)))
    (fun r =>
     match r with
     | Ok id => await (CleanupOutput id) (fun _ => Ret (Ok tt))
     | Err m => call (retain opened) (fun _ => Ret (Err m))
     end))).

(** ** The world *)

Record storage := {
  g_rows : gmap Z SettlementWave; g_removed : list string;
  g_acked : list (list RetrievalSettlementSession); g_paid : list string; g_forgotten : list string }.
Record world := { w_cursor : option RetrievalCheckpointState; w_rest : storage }.

Definition set_cursor (c : option RetrievalCheckpointState) (w : world) : world :=
  {| w_cursor := c; w_rest := w_rest w |}.
Definition set_rows (f : gmap Z SettlementWave -> gmap Z SettlementWave) (g : storage) : storage :=
  {| g_rows := f (g_rows g); g_removed := g_removed g; g_acked := g_acked g; g_paid := g_paid g;
     g_forgotten := g_forgotten g |}.
Definition add_removed (id : string) (g : storage) : storage :=
  {| g_rows := g_rows g; g_removed := id :: g_removed g; g_acked := g_acked g; g_paid := g_paid g;
     g_forgotten := g_forgotten g |}.
Definition add_acked (s : list RetrievalSettlementSession) (g : storage) : storage :=
  {| g_rows := g_rows g; g_removed := g_removed g; g_acked := s :: g_acked g; g_paid := g_paid g;
     g_forgotten := g_forgotten g |}.
Definition add_paid (l : list string) (g : storage) : storage :=
  {| g_rows := g_rows g; g_removed := g_removed g; g_acked := g_acked g; g_paid := l ++ g_paid g;
     g_forgotten := g_forgotten g |}.
Definition add_forgotten (l : list string) (g : storage) : storage :=
  {| g_rows := g_rows g; g_removed := g_removed g; g_acked := g_acked g; g_paid := g_paid g;
     g_forgotten := l ++ g_forgotten g |}.
Definition upd (f : storage -> storage) (w : world) : world :=
  {| w_cursor := w_cursor w; w_rest := f (w_rest w) |}.

(** The sessions a provider reports as paid. *)
Definition paid (outcomes : list RetrievalSettlementOutcome) : list string :=
  map so_sessionId (List.filter committed outcomes).

(** A store operation that throws has done nothing. *)
Definition stores (f : world -> world) (x : result unit) (w w' : world) : Prop :=
  w' = match x with Ok _ => f w | Err _ => w end.

(** The answers of the environment: the storage gives back what was stored; an output
    that is opened again keeps its name and a new one has a new name; a confirmation
    that fails may still have been committed; deleting journals may fail half-way. *)
Definition env_step {X} (e : effect X) (w : world) (x : X) (w' : world) : Prop :=
  match e in effect Y return Y -> Prop with
  | AcquireLock => fun _ => w' = w
  | ReleaseLock => fun _ => w' = w
  | GetCursor => fun x => w' = w /\ match x with Ok c => c = w_cursor w | Err _ => True end
  | PutCursor st => fun x => stores (set_cursor (Some st)) x w w'
  | RemoveCursor => fun x => stores (set_cursor None) x w w'
  | GetRow o => fun x => w' = w /\ match x with Ok r => r = g_rows (w_rest w) !! o | Err _ => True end
  | PutRow o row => fun x => stores (upd (set_rows (insert o row))) x w w'
  | RemoveRow o => fun x => stores (upd (set_rows (delete o))) x w w'
  | CreateOutput saved => fun x => w' = w
      /\ match x, saved with
         | Ok id, Some s => id = s
         | Ok id, None => id ∉ g_removed (w_rest w)
         | Err _, _ => True
         end
  | ReleaseOutput _ => fun _ => w' = w
  | CleanupOutput id => fun x => w' = upd (add_removed id) w \/ (w' = w /\ exists m, x = Err m)
  | CheckAbort => fun _ => w' = w
  | GatewayBase => fun _ => w' = w
  | Retrieve _ => fun x => w' = w /\ match x with Ok s => checkRow s = Ok tt /\ NoDup (map ss_sessionId s) | Err _ => True end
  | Confirm s _ => fun x =>
      match x with
      | Ok outcomes => w' = upd (fun g => add_acked s (add_paid (paid outcomes) g)) w
      | Err _ => w' = w \/ w' = upd (add_acked s) w
      end
  | Settle _ _ => fun x =>
      match x with
      | Ok outcomes => w' = upd (add_paid (paid outcomes)) w
      | Err _ => w' = w
      end
  | Forget s => fun x => exists l, l ⊆ map ss_sessionId s /\ w' = upd (add_forgotten l) w
      /\ match x with Ok _ => l = map ss_sessionId s | Err _ => True end
  end x.

(** All sessions are answered, as paid. *)
Definition pays (sessions : list RetrievalSettlementSession) (outcomes : list RetrievalSettlementOutcome) : Prop :=
  map so_sessionId outcomes = map ss_sessionId sessions
  /\ Forall (fun o => so_state o = Committed /\ so_responseUnknown o = false) outcomes.

Definition succeeds {A} (r : result A) : Prop := exists a, r = Ok a.

(** An undisturbed run: nothing fails and providers report their payment. *)
Definition helpful {X} (e : effect X) (x : X) : Prop :=
  match e in effect Y return Y -> Prop with
  | AcquireLock => succeeds
  | ReleaseLock => fun _ => True
  | GetCursor => succeeds
  | PutCursor _ => succeeds
  | RemoveCursor => succeeds
  | GetRow _ => succeeds
  | PutRow _ _ => succeeds
  | RemoveRow _ => succeeds
  | CreateOutput _ => succeeds
  | ReleaseOutput _ => succeeds
  | CleanupOutput _ => succeeds
  | CheckAbort => succeeds
  | GatewayBase => fun _ => True
  | Retrieve _ => fun x => exists s, x = Ok s /\ wave_size s = true
  | Confirm s _ => fun x => exists outcomes, x = Ok outcomes /\ pays s outcomes
  | Settle s _ => fun x => exists outcomes, x = Ok outcomes /\ pays s outcomes
  | Forget _ => succeeds
  end x.

(** ** What it promises *)

(** [MAX_ORDINAL] bounds the MDU ordinals of a file; 64 sessions for each of so many
    MDUs are counted exactly by a JS number. *)
Definition MAX_ORDINAL : Z := 2 ^ 46.

Definition all_forgotten (g : storage) (s : list RetrievalSettlementSession) : Prop :=
  Forall (fun x => ss_sessionId x ∈ g_forgotten g) s.
Definition all_paid (g : storage) (s : list RetrievalSettlementSession) : Prop :=
  Forall (fun x => ss_sessionId x ∈ g_paid g) s.

(** The rows that reconciling looks at. *)
Definition live (st : RetrievalCheckpointState) (o : Z) : Prop :=
  exists f, cs_settlementFrom st = Some f /\ f <= o <= cs_through st /\ 0 < default 0 (cs_unsettled st).

(** The wave is saved, so that it will be settled. *)
Definition kept (st : RetrievalCheckpointState) (g : storage) (s : list RetrievalSettlementSession) : Prop :=
  pw_sessions <$> cs_pending st = Some s \/ cs_cleanup st = Some s
  \/ exists o row, g_rows g !! o = Some row /\ sw_sessions row = s /\ live st o /\ cs_cleanupOrdinal st <> Some o.

Definition row_ok (g : storage) (row : SettlementWave) : Prop :=
  validateSettlementWave row = Ok tt
  /\ Forall (fun o => so_state o = Committed -> so_sessionId o ∈ g_paid g) (sw_outcomes row).

(** The sessions of the row of an MDU that are not paid, and those of [n] MDUs. *)
Definition owed_at (rows : gmap Z SettlementWave) (o : Z) : Z :=
  match rows !! o with Some row => count_unsettled (sw_outcomes row) | None => 0 end.
Fixpoint owed (rows : gmap Z SettlementWave) (from : Z) (n : nat) : Z :=
  match n with
  | O => 0
  | S n => owed rows from n + owed_at rows (from + Z.of_nat n)
  end.

Section promises.
(** The length of the output and the MDUs that the retrieval reads. *)
Context (L : Z) (ordinals : list Z).
Context (Hordinals : Forall (fun o => 0 <= o < MAX_ORDINAL) ordinals).

Record state_inv (st : RetrievalCheckpointState) (g : storage) : Prop := {
  is_length : cs_length st = L;
  is_through : -1 <= cs_through st < MAX_ORDINAL;
  is_from : forall f, cs_settlementFrom st = Some f -> 0 <= f <= cs_through st;
  is_unsettled : 0 <= default 0 (cs_unsettled st) <= 64 * (cs_through st + 1);
  is_settled : cs_settlementFrom st = None -> default 0 (cs_unsettled st) = 0;
  is_cleanupOrdinal : forall o, cs_cleanupOrdinal st = Some o -> is_Some (cs_cleanup st) /\ 0 <= o <= cs_through st;
  is_cleanup : forall c, cs_cleanup st = Some c -> wave_size c = true /\ all_paid g c;
  is_pending : forall p, cs_pending st = Some p -> cs_through st < pw_ordinal p /\ pw_ordinal p ∈ ordinals
    /\ (forall o, o ∈ ordinals -> cs_through st < o -> pw_ordinal p <= o)
    /\ wave_size (pw_sessions p) = true /\ checkRow (pw_sessions p) = Ok tt
    /\ NoDup (map ss_sessionId (pw_sessions p));
  is_output : cs_id st ∉ g_removed g;
  is_rows : forall o row, g_rows g !! o = Some row -> row_ok g row
    /\ (live st o \/ cs_cleanupOrdinal st = Some o \/ pw_ordinal <$> cs_pending st = Some o);
  is_acked : forall s, s ∈ g_acked g -> all_forgotten g s \/ kept st g s;
  is_forgotten : g_forgotten g ⊆ g_paid g }.

Definition inv (w : world) : Prop :=
  match w_cursor w with
  | Some st => state_inv st (w_rest w)
  | None => g_rows (w_rest w) = ∅ /\ (forall s, s ∈ g_acked (w_rest w) -> all_forgotten (w_rest w) s)
      /\ g_forgotten (w_rest w) ⊆ g_paid (w_rest w)
  end.

(** ** Lemmas *)

Lemma combine_ids (outcomes : list RetrievalSettlementOutcome) (sessions : list RetrievalSettlementSession) :
  length outcomes = length sessions ->
  existsb (fun '(o, s) => negb (String.eqb (so_sessionId o) (ss_sessionId s))) (combine outcomes sessions) = false
  <-> map so_sessionId outcomes = map ss_sessionId sessions.
Proof.
  revert sessions. induction outcomes as [|o outcomes IH]; intros [|s sessions] Hl; try done.
  cbn [combine existsb map]. rewrite orb_false_iff, negb_false_iff, String.eqb_eq, (IH sessions) by (cbn in Hl; lia).
  split; [intros [-> ->]; done | by intros [= -> ->]].
Qed.

Lemma validateOutcomes_iff sessions outcomes :
  validateOutcomes sessions outcomes = Ok tt <->
  wave_size sessions = true /\ NoDup (map ss_sessionId sessions)
  /\ map so_sessionId outcomes = map ss_sessionId sessions.
Proof.
  unfold validateOutcomes, distinct. split.
  - intros H. ok_steps H. bool_to_prop.
    match goal with H : Nat.eqb _ _ = true |- _ => apply Nat.eqb_eq in H; rename H into Hl end.
    match goal with H : existsb _ _ = false |- _ => apply combine_ids in H; [|exact Hl]; rename H into Hids end.
    match goal with H : bool_decide _ = true |- _ => apply bool_decide_eq_true in H end. done.
  - intros (Hw & Hnd & Hids). assert (Hl : length outcomes = length sessions).
    { by rewrite <- (length_map so_sessionId), Hids, length_map. }
    rewrite Hw, (bool_decide_eq_true_2 _ Hnd), Hl, Nat.eqb_refl, (proj2 (combine_ids _ _ Hl) Hids). done.
Qed.

(** What a finished wave of requests reports (Settlement.v) is accepted here. *)
Lemma settlement_outcomes_valid sessions outcomes : validateSettlement sessions = Ok tt ->
  map so_sessionId outcomes = map ss_sessionId sessions -> validateOutcomes sessions outcomes = Ok tt.
Proof.
  unfold validateSettlement, distinct. intros H Hids. ok_step H. bool_to_prop.
  apply validateOutcomes_iff. unfold wave_size. split_and!; [|by eapply bool_decide_eq_true|done].
  apply andb_true_intro. split; [|apply Z.leb_le; lia].
  match goal with H : bool_decide (sessions = []) = false |- _ => by rewrite H end.
Qed.

Lemma count_nonneg outcomes : 0 <= count_unsettled outcomes.
Proof. unfold count_unsettled. lia. Qed.
Lemma count_length outcomes : count_unsettled outcomes <= Z.of_nat (length outcomes).
Proof. unfold count_unsettled. pose proof (List.filter_length_le (fun o => negb (committed o)) outcomes). lia. Qed.

Lemma count_zero outcomes : count_unsettled outcomes = 0 <-> forallb committed outcomes = true.
Proof.
  unfold count_unsettled. induction outcomes as [|o l IH]; [done|]. cbn [List.filter forallb].
  destruct (committed o); cbn [negb andb]; [done|]. cbn [length]. split; [lia | done].
Qed.

Lemma committed_iff o : committed o = true <-> so_state o = Committed.
Proof. apply bool_decide_eq_true. Qed.

Lemma paid_elem o outcomes : o ∈ outcomes -> so_state o = Committed -> so_sessionId o ∈ paid outcomes.
Proof.
  intros Ho Hs. apply list_elem_of_fmap. exists o. split; [done|]. apply list_elem_of_In, filter_In.
  split; [by apply list_elem_of_In | by apply committed_iff].
Qed.

Lemma forall_ids_paid (P : string -> Prop) sessions outcomes :
  map so_sessionId outcomes = map ss_sessionId sessions -> Forall (fun o => P (so_sessionId o)) outcomes ->
  Forall (fun s => P (ss_sessionId s)) sessions.
Proof.
  intros Hids HF.
  apply (Forall_fmap ss_sessionId). change (ss_sessionId <$> sessions) with (map ss_sessionId sessions).
  rewrite <- Hids. by apply (Forall_fmap so_sessionId).
Qed.

(** *** Rows *)

Lemma remaining_sublist row : remaining row `sublist_of` sw_sessions row.
Proof.
  unfold remaining. generalize (sw_outcomes row). induction (sw_sessions row) as [|s l IH]; intros [|o os]; cbn;
    [constructor | constructor | constructor; apply sublist_nil_l |].
  destruct (committed o); cbn; [apply sublist_cons | apply sublist_skip]; apply IH.
Qed.

Lemma merge_spec sessions old outcomes :
  map so_sessionId old = map ss_sessionId sessions ->
  map so_sessionId outcomes
    = map ss_sessionId (map fst (List.filter (fun '(_, o) => negb (committed o)) (combine sessions old))) ->
  map so_sessionId (merge old outcomes) = map ss_sessionId sessions
  /\ (forallb committed outcomes = true -> forallb committed (merge old outcomes) = true).
Proof.
  revert sessions outcomes. induction old as [|o old IH]; intros [|s sessions] outcomes Hids Hnew; try done.
  injection Hids as Ho Hids. cbn [combine List.filter merge] in *. destruct (committed o) eqn:Hc; cbn [negb] in Hnew.
  - destruct (IH _ _ Hids Hnew) as [IH1 IH2]. cbn [map forallb]. by rewrite IH1, Ho, Hc.
  - cbn [map fst] in Hnew. destruct outcomes as [|x outcomes]; [done|]. injection Hnew as Hx Hnew.
    destruct (IH _ _ Hids Hnew) as [IH1 IH2]. cbn [map forallb]. rewrite IH1, Hx. split; [done|].
    intros [-> H]%andb_prop. by apply IH2.
Qed.

Lemma merge_elem old outcomes o : o ∈ merge old outcomes -> o ∈ old \/ o ∈ outcomes.
Proof.
  revert outcomes. induction old as [|x old IH]; intros outcomes; cbn [merge]; [by left|].
  destruct (committed x); [|destruct outcomes as [|y outcomes]]; rewrite elem_of_cons; intros [->|H];
    try (by left; left); try (by right; left); destruct (IH _ H) as [?|?]; set_solver.
Qed.

Lemma remaining_nil row : map so_sessionId (sw_outcomes row) = map ss_sessionId (sw_sessions row) ->
  remaining row = [] <-> forallb committed (sw_outcomes row) = true.
Proof.
  unfold remaining. generalize (sw_sessions row). induction (sw_outcomes row) as [|o os IH]; intros [|s l] H; try done.
  injection H as _ H. cbn. destruct (committed o); cbn; [by apply IH | done].
Qed.

Lemma row_ids row : validateSettlementWave row = Ok tt ->
  wave_size (sw_sessions row) = true /\ NoDup (map ss_sessionId (sw_sessions row))
  /\ map so_sessionId (sw_outcomes row) = map ss_sessionId (sw_sessions row) /\ checkRow (sw_sessions row) = Ok tt.
Proof.
  unfold validateSettlementWave. intros H. apply bind_Ok in H as ([] & H & Hc).
  apply validateOutcomes_iff in H as (? & ? & ?). done.
Qed.
Lemma row_valid row : map so_sessionId (sw_outcomes row) = map ss_sessionId (sw_sessions row) ->
  wave_size (sw_sessions row) = true -> NoDup (map ss_sessionId (sw_sessions row)) ->
  checkRow (sw_sessions row) = Ok tt -> validateSettlementWave row = Ok tt.
Proof.
  intros Hids Hw Hnd Hc. unfold validateSettlementWave.
  by rewrite (proj2 (validateOutcomes_iff _ _) (conj Hw (conj Hnd Hids))).
Qed.

Lemma wave_size_iff s : wave_size s = true <-> s <> [] /\ (length s <= 64)%nat.
Proof.
  unfold wave_size. rewrite andb_true_iff, negb_true_iff, bool_decide_eq_false, Z.leb_le. split; intros []; split; (done || lia).
Qed.

(** A wave of sessions with the outcomes of a valid answer counts at most 64. *)
Lemma count_bound row : validateSettlementWave row = Ok tt -> 0 <= count_unsettled (sw_outcomes row) <= 64.
Proof.
  intros (Hw & _ & Hids & _)%row_ids. apply wave_size_iff in Hw as [_ Hl].
  assert (length (sw_outcomes row) = length (sw_sessions row)) by by rewrite <- (length_map so_sessionId), Hids, length_map.
  pose proof (count_length (sw_outcomes row)). pose proof (count_nonneg (sw_outcomes row)). lia.
Qed.

Lemma remaining_valid row outcomes : validateSettlementWave row = Ok tt -> remaining row <> [] ->
  map so_sessionId outcomes = map ss_sessionId (remaining row) -> validateOutcomes (remaining row) outcomes = Ok tt.
Proof.
  intros (Hw & Hnd & Hids & _)%row_ids Hne Hout. pose proof (remaining_sublist row) as Hsub.
  apply validateOutcomes_iff. split_and!; [|by eapply sublist_NoDup, (fmap_sublist ss_sessionId)|done].
  apply wave_size_iff in Hw as [_ Hl]. apply wave_size_iff. split; [done|]. apply sublist_length in Hsub. lia.
Qed.

Lemma merge_row_ok g row outcomes : row_ok g row -> validateOutcomes (remaining row) outcomes = Ok tt ->
  row_ok (add_paid (paid outcomes) g) (with_outcomes (merge (sw_outcomes row) outcomes) row).
Proof.
  intros [(Hw & Hnd & Hids & Hc)%row_ids Hp] (_ & _ & Hout)%validateOutcomes_iff. split.
  - apply row_valid; [|done|done|done]. by apply merge_spec.
  - apply Forall_forall. intros o [Ho|Ho]%merge_elem Hs; apply elem_of_app; cbn [g_paid add_paid].
    + right. rewrite Forall_forall in Hp. by apply Hp.
    + left. by apply paid_elem.
Qed.

(** *** The storage changes *)

Lemma inv_add_paid st g l : state_inv st g -> state_inv st (add_paid l g).
Proof.
  intros []. constructor; try done; cbn.
  - intros c Hc. destruct (is_cleanup0 c Hc) as [? Hp]. split; [done|]. eapply Forall_impl; [exact Hp|].
    intros x Hx. apply elem_of_app. by right.
  - intros o row Ho. destruct (is_rows0 o row Ho) as [[Hv Hp] Hl]. split; [split; [done|] | done].
    eapply Forall_impl; [exact Hp|]. intros x Hx Hs. apply elem_of_app. right. auto.
  - intros x Hx. apply elem_of_app. right. auto.
Qed.

Lemma inv_add_acked st g s : kept st g s -> state_inv st g -> state_inv st (add_acked s g).
Proof. intros Hk []. constructor; try done; cbn. intros s' [->|Hs]%elem_of_cons; [by right | by apply is_acked0]. Qed.

Lemma inv_add_removed st g id : cs_id st <> id -> state_inv st g -> state_inv st (add_removed id g).
Proof. intros Hk []. constructor; try done; cbn. by apply not_elem_of_cons. Qed.

Lemma inv_add_forgotten st g l : l ⊆ g_paid g -> state_inv st g -> state_inv st (add_forgotten l g).
Proof.
  intros Hl []. constructor; try done; cbn.
  - intros s Hs. destruct (is_acked0 s Hs) as [Hf|Hk]; [left | by right]. eapply Forall_impl; [exact Hf|].
    intros x Hx. apply elem_of_app. by right.
  - intros x [Hx|Hx]%elem_of_app; auto.
Qed.

Lemma pending_not_live st g o : state_inv st g -> pw_ordinal <$> cs_pending st = Some o -> ~ live st o.
Proof.
  intros Hi (p & Hp & ->)%fmap_Some (f & _ & Hl & _). destruct (is_pending _ _ Hi p Hp) as (? & _). lia.
Qed.

Lemma inv_put_row st g o row : state_inv st g -> row_ok g row ->
  live st o \/ pw_ordinal <$> cs_pending st = Some o ->
  (forall row0, live st o -> g_rows g !! o = Some row0 -> sw_sessions row = sw_sessions row0) ->
  state_inv st (set_rows (insert o row) g).
Proof.
  intros Hi Hrow Ho Hsame. destruct Hi. constructor; try done; cbn.
  - intros o' row'. destruct (decide (o' = o)) as [->|Hne].
    + rewrite lookup_insert_eq. intros [= <-]. split; [done | tauto].
    + rewrite lookup_insert_ne by done. apply is_rows0.
  - intros s Hs. destruct (is_acked0 s Hs) as [Hf|[Hk|[Hk|(o' & row' & Hr & <- & Hl & Hc)]]];
      [by left | right; by left | right; right; by left | right; right; right].
    destruct (decide (o' = o)) as [->|Hne].
    + exists o, row. cbn [g_rows set_rows]. rewrite lookup_insert_eq. split_and!; [done | by apply Hsame | done | done].
    + exists o', row'. cbn [g_rows set_rows]. rewrite lookup_insert_ne by done. done.
Qed.

Lemma inv_remove_row st g o : state_inv st g -> cs_cleanupOrdinal st = Some o ->
  state_inv st (set_rows (delete o) g).
Proof.
  intros Hi Ho. destruct Hi. constructor; try done; cbn.
  - intros o' row' [_ Hr]%lookup_delete_Some. by apply is_rows0.
  - intros s Hs. destruct (is_acked0 s Hs) as [Hf|[Hk|[Hk|(o' & row' & Hr & <- & Hl & Hc)]]];
      [by left | right; by left | right; right; by left | right; right; right].
    exists o', row'. cbn [g_rows set_rows]. rewrite lookup_delete_ne by congruence. done.
Qed.

(** *** The cursor changes *)

Lemma inv_with_cleanup st g o row : state_inv st g -> cs_cleanup st = None -> live st o ->
  g_rows g !! o = Some row -> forallb committed (sw_outcomes row) = true ->
  state_inv (with_cleanup (Some (sw_sessions row)) (Some o) st) g.
Proof.
  intros Hi Hc Hl Hr Hall. pose proof Hi as Hi'. destruct Hi. constructor; try done; cbn.
  - intros o' [= <-]. split; [done|]. destruct Hl as (f & Hf & Hl & _). apply is_from0 in Hf. lia.
  - intros c [= <-]. destruct (is_rows0 o row Hr) as [[(Hw & _ & Hids & _)%row_ids Hp] _]. split; [done|].
    apply (forall_ids_paid (fun x => x ∈ g_paid g) _ _ Hids). rewrite forallb_forall in Hall.
    rewrite Forall_forall in Hp |- *. intros x Hx. apply Hp; [done|]. apply committed_iff, Hall. by apply list_elem_of_In.
  - intros o' row' Hr'. destruct (is_rows0 o' row' Hr') as [? [?|[Ho|?]]]; (split; [done|]);
      [by left | | right; by right].
    destruct (is_cleanupOrdinal0 o' Ho) as [[c Hs] _]. congruence.
  - intros s Hs. destruct (is_acked0 s Hs) as [Hf|[Hk|[Hk|(o' & row' & Hr' & <- & Hl' & Hc')]]];
      [by left | right; by left | congruence | right; right].
    destruct (decide (o' = o)) as [->|Hne]; [left; cbn; congruence|].
    right. exists o', row'. split_and!; [done | done | done |]. cbn. congruence.
Qed.

Lemma inv_cleaned st g : state_inv st g ->
  (forall c, cs_cleanup st = Some c -> all_forgotten g c) ->
  (forall o, cs_cleanupOrdinal st = Some o -> g_rows g !! o = None) ->
  state_inv (with_cleanup None None st) g.
Proof.
  intros Hi Hf Hrow. destruct Hi. constructor; try done; cbn.
  - intros o row Hr. destruct (is_rows0 o row Hr) as [? [?|[Ho|?]]]; (split; [done|]);
      [by left | | right; by right]. apply Hrow in Ho. congruence.
  - intros s Hs. destruct (is_acked0 s Hs) as [?|[Hk|[Hk|(o' & row' & Hr' & <- & Hl' & Hc')]]];
      [by left | right; by left | left; by apply Hf | right; right; right].
    exists o', row'. done.
Qed.

Lemma inv_prepared st g p : state_inv st g -> cs_through st < pw_ordinal p -> pw_ordinal p ∈ ordinals ->
  (forall o, o ∈ ordinals -> cs_through st < o -> pw_ordinal p <= o) ->
  wave_size (pw_sessions p) = true -> checkRow (pw_sessions p) = Ok tt -> NoDup (map ss_sessionId (pw_sessions p)) ->
  (forall p0, cs_pending st = Some p0 -> pw_sessions p0 = pw_sessions p /\ pw_ordinal p0 = pw_ordinal p) ->
  state_inv (with_pending (Some p) st) g.
Proof.
  intros Hi Ho Hin Hnext Hw Hc Hnd Hsame. destruct Hi. constructor; try done; cbn.
  - by intros p' [= <-].
  - intros o row Hr. destruct (is_rows0 o row Hr) as [? [?|[?|(p0 & Hp0 & ->)%fmap_Some]]]; (split; [done|]);
      [by left | right; by left | right; right]. by destruct (Hsame p0 Hp0) as [_ ->].
  - intros s Hs. destruct (is_acked0 s Hs) as [?|[(p0 & Hp0 & ->)%fmap_Some|[Hk|Hk]]];
      [by left | right; left; cbn; by destruct (Hsame p0 Hp0) as [-> _] | right; right; by left | right; right; by right].
Qed.

Lemma live_completed st g p outcomes o : state_inv st g -> cs_pending st = Some p -> live st o ->
  live (completed st (pw_ordinal p) (pw_sessions p) outcomes) o.
Proof.
  intros Hi Hp (f & Hf & Ho & Hu). destruct (is_pending _ _ Hi p Hp) as (Ht & _). pose proof (count_nonneg outcomes).
  exists f. cbn. rewrite Hf. split_and!; [done | lia | lia | lia].
Qed.

Lemma live_new st g p outcomes : state_inv st g -> cs_pending st = Some p -> count_unsettled outcomes <> 0 ->
  live (completed st (pw_ordinal p) (pw_sessions p) outcomes) (pw_ordinal p).
Proof.
  intros [] Hp Hne. destruct (is_pending0 p Hp) as (Ht & _). pose proof (count_nonneg outcomes) as Hn.
  destruct (cs_settlementFrom st) as [f|] eqn:Hf.
  - exists f. cbn. rewrite Hf. specialize (is_from0 f eq_refl). split_and!; [done | lia | lia | lia].
  - exists (pw_ordinal p). cbn. rewrite Hf, (proj2 (Z.eqb_neq _ _) Hne). split_and!; [done | lia | lia | lia].
Qed.

Lemma no_cleanup st g : state_inv st g -> cs_cleanup st = None -> cs_cleanupOrdinal st = None.
Proof.
  intros Hi Hc. destruct (cs_cleanupOrdinal st) as [o|] eqn:Ho; [|done].
  destruct (is_cleanupOrdinal _ _ Hi o Ho) as [[? ?] _]. congruence.
Qed.

Lemma inv_completed st g p outcomes : state_inv st g -> cs_pending st = Some p -> cs_cleanup st = None ->
  validateOutcomes (pw_sessions p) outcomes = Ok tt ->
  Forall (fun o => so_state o = Committed -> so_sessionId o ∈ g_paid g) outcomes ->
  (count_unsettled outcomes <> 0 -> sw_sessions <$> g_rows g !! pw_ordinal p = Some (pw_sessions p)) ->
  state_inv (completed st (pw_ordinal p) (pw_sessions p) outcomes) g.
Proof.
  intros Hi Hp Hc (Hw & Hnd & Hids)%validateOutcomes_iff Hpaid Hrow.
  pose proof (live_completed st g p outcomes) as Hlive. pose proof (count_nonneg outcomes) as Hn.
  assert (Hn' : count_unsettled outcomes <= 64).
  { pose proof (count_length outcomes). apply wave_size_iff in Hw as [_ Hl].
    assert (length outcomes = length (pw_sessions p)) by by rewrite <- (length_map so_sessionId), Hids, length_map. lia. }
  pose proof Hi as Hi'. destruct Hi. destruct (is_pending0 p Hp) as (Ht & Hin & Hnext & _ & Hck & _).
  rewrite Forall_forall in Hordinals. pose proof (Hordinals _ Hin) as Hmax.
  pose proof (no_cleanup st g Hi' Hc) as Hco.
  pose proof (live_new st g p outcomes Hi' Hp) as Hnew.
  constructor; cbn; try done; try lia.
  - intros f. destruct (cs_settlementFrom st) as [f'|]; [intros [= <-]; specialize (is_from0 f' eq_refl); lia|].
    destruct (_ =? 0); [done|]. intros [= <-]. lia.
  - destruct (cs_settlementFrom st); [done|]. destruct (Z.eqb_spec (count_unsettled outcomes) 0) as [->|]; [|done]. intros _. rewrite is_settled0; done.
  - destruct (_ =? 0); [|done]. intros o [= <-]. split; [done | lia].
  - intros c. destruct (Z.eqb_spec (count_unsettled outcomes) 0) as [H0|]; [|done]. intros [= <-]. split; [done|].
    apply (forall_ids_paid (fun x => x ∈ g_paid g) _ _ Hids). apply count_zero in H0. rewrite forallb_forall in H0.
    rewrite Forall_forall in Hpaid |- *. intros x Hx. apply Hpaid; [done|]. apply committed_iff, H0. by apply list_elem_of_In.
  - intros o row Hr. destruct (is_rows0 o row Hr) as [Hok [Hl|[Ho|Ho]]]; (split; [done|]);
      [left; by apply Hlive | congruence |]. rewrite Hp in Ho. injection Ho as <-.
    destruct (Z.eqb_spec (count_unsettled outcomes) 0) as [H0|Hne]; [right; by left | left; by apply Hnew].
  - intros s Hs. destruct (is_acked0 s Hs) as [Hf|[Hk|[Hk|(o' & row' & Hr' & <- & Hl' & Hc')]]]; [by left | right | congruence | right].
    + rewrite Hp in Hk. injection Hk as <-. destruct (Z.eqb_spec (count_unsettled outcomes) 0) as [H0|Hne].
      * right; left. cbn. by rewrite H0.
      * right; right. pose proof (Hrow Hne) as (row & Hr & Hs')%fmap_Some. exists (pw_ordinal p), row. split_and!; [done | done | by apply Hnew |].
        cbn. by rewrite (proj2 (Z.eqb_neq _ _) Hne).
    + right; right. exists o', row'. split_and!; [done | done | by apply Hlive |]. cbn.
      destruct Hl' as (f & _ & Hl' & _). destruct (_ =? 0); [|done]. intros [= ?]. lia.
Qed.

Lemma owed_at_bound st g o : state_inv st g -> 0 <= owed_at (g_rows g) o <= 64.
Proof.
  intros Hi. unfold owed_at. destruct (g_rows g !! o) as [row|] eqn:Hr; [|lia].
  destruct (is_rows _ _ Hi o row Hr) as [[Hv _] _]. by apply count_bound.
Qed.
Lemma owed_bound st g from n : state_inv st g -> 0 <= owed (g_rows g) from n <= 64 * Z.of_nat n.
Proof.
  intros Hi. induction n as [|n IH]; cbn [owed]; [lia|].
  pose proof (owed_at_bound st g (from + Z.of_nat n) Hi). lia.
Qed.
Lemma owed_at_le st g from n o : state_inv st g -> from <= o < from + Z.of_nat n ->
  owed_at (g_rows g) o <= owed (g_rows g) from n.
Proof.
  intros Hi. induction n as [|n IH]; cbn [owed]; [lia|]. intros Ho.
  pose proof (owed_at_bound st g (from + Z.of_nat n) Hi). pose proof (owed_bound st g from n Hi).
  destruct (decide (o = from + Z.of_nat n)) as [->|]; [lia|]. specialize (IH ltac:(lia)). lia.
Qed.
Lemma owed_agree rows rows' from n :
  (forall o, from <= o < from + Z.of_nat n -> rows !! o = rows' !! o) -> owed rows from n = owed rows' from n.
Proof.
  induction n as [|n IH]; [done|]. intros H. cbn [owed]. unfold owed_at. rewrite IH, H; [done | lia |].
  intros o Ho. apply H. lia.
Qed.

(** Every row below [o] owes something. *)
Definition owing (rows : gmap Z SettlementWave) (from o : Z) : Prop :=
  forall o' row, from <= o' < o -> rows !! o' = Some row -> 0 < count_unsettled (sw_outcomes row).

Lemma inv_recounted st g f n first : state_inv st g -> cs_settlementFrom st = Some f ->
  Z.of_nat n = cs_through st - f + 1 -> owing (g_rows g) f (cs_through st + 1) ->
  state_inv (recounted st (owed (g_rows g) f n) first) g.
Proof.
  intros Hi Hf Hn How. set (u := owed (g_rows g) f n). pose proof (owed_bound st g f n Hi) as Hu. fold u in Hu.
  assert (Hlive : forall o row, g_rows g !! o = Some row -> live st o -> live (recounted st u first) o).
  { intros o row Hr (f' & Hf' & Hl & _). rewrite Hf in Hf'. injection Hf' as <-.
    pose proof (owed_at_le st g f n o Hi ltac:(lia)) as Hle. fold u in Hle. unfold owed_at in Hle. rewrite Hr in Hle.
    pose proof (How o row ltac:(lia) Hr). exists f. cbn. rewrite Hf, (proj2 (Z.eqb_neq u 0)) by lia.
    split_and!; [done | lia | lia | lia]. }
  destruct Hi. specialize (is_from0 f Hf) as Hf0. constructor; cbn; try done; try lia.
  - intros f'. destruct (u =? 0); [done|]. apply is_from0.
  - destruct (Z.eqb_spec u 0) as [->|]; [done | congruence].
  - intros o row Hr. destruct (is_rows0 o row Hr) as [? [?|?]]; (split; [done|]); [left; by eapply Hlive | by right].
  - intros s Hs. destruct (is_acked0 s Hs) as [?|[?|[?|(o & row & Hr & Hs' & Hl & Hc)]]];
      [by left | right; by left | right; right; by left | right; right; right].
    exists o, row. split_and!; [done | done | by eapply Hlive | done].
Qed.

Lemma state_valid st g : state_inv st g -> validSaved L st = true.
Proof.
  intros []. unfold validSaved. rewrite !andb_true_iff. split_and!.
  - by apply Z.eqb_eq.
  - apply Z.leb_le. lia.
  - destruct (cs_settlementFrom st) as [f|]; [|done]. specialize (is_from0 f eq_refl). rewrite andb_true_iff, !Z.leb_le. lia.
  - destruct (cs_cleanupOrdinal st) as [o|]; [|done]. destruct (is_cleanupOrdinal0 o eq_refl) as [Hs Ho].
    rewrite (bool_decide_eq_true_2 _ Hs). rewrite !andb_true_iff, !Z.leb_le. split_and!; [done | lia | lia].
  - destruct (cs_unsettled st) as [n|]; [|done]. cbn in is_unsettled0. unfold isSafeInteger.
    rewrite andb_true_iff, !Z.leb_le. unfold MAX_ORDINAL in is_through0. lia.
  - destruct (cs_cleanup st) as [c|]; [|done]. by destruct (is_cleanup0 c eq_refl).
  - destruct (cs_pending st) as [q|]; [|done]. destruct (is_pending0 q eq_refl) as (Ho & _ & _ & Hw & _).
    rewrite Hw, andb_true_r. by apply Z.ltb_lt.
Qed.

(** *** Programs *)

Section runs.
(** Whether the run is undisturbed. *)
Context (nice : Prop).

Definition env {X} (e : effect X) (w : world) (x : X) (w' : world) : Prop :=
  env_step e w x w' /\ (nice -> helpful e x).
Abbreviation safe := (safe_run (@env) inv).
(** Nothing throws in an undisturbed run. *)
Definition ends {A} (R : A -> world -> Prop) (r : result A) (w : world) : Prop :=
  match r with Ok a => R a w | Err _ => ~ nice end.
Definition at_state (st : RetrievalCheckpointState) (w : world) : Prop :=
  w_cursor w = Some st /\ state_inv st (w_rest w).

Lemma at_inv st w : at_state st w -> inv w.
Proof. intros [Hc Hi]. unfold inv. by rewrite Hc. Qed.
Lemma inv_at st w : inv w -> w_cursor w = Some st -> at_state st w.
Proof. intros Hi Hc. unfold inv in Hi. rewrite Hc in Hi. done. Qed.

Lemma safe_do {X A} (e : effect (result X)) k w (R : A -> world -> Prop) :
  (forall x, helpful e x -> succeeds x) -> inv w ->
  (forall m w', env_step e w (Err m) w' -> inv w') ->
  (forall x w', env_step e w (Ok x) w' -> (nice -> helpful e (Ok x)) -> safe (ends R) (k x) w') ->
  safe (ends R) (await e k) w.
Proof.
  intros Hs Hi Herr Hok. apply safe_await; [done | | by intros x w' [? ?]; apply Hok].
  intros m w' [He Hn]. split; [by eapply Herr|]. intros H. by destruct (Hs _ (Hn H)).
Qed.

Lemma safe_done {A} (R : A -> world -> Prop) a w : inv w -> R a w -> safe (ends R) (Ret (Ok a)) w.
Proof. by split. Qed.
Lemma safe_error {A} (R : A -> world -> Prop) m w : inv w -> ~ nice -> safe (ends R) (Ret (Err m)) w.
Proof. by split. Qed.

Lemma safe_throws {A} (R : A -> world -> Prop) r k w : inv w -> (nice -> r = Ok tt) ->
  (r = Ok tt -> safe (ends R) k w) -> safe (ends R) (throws r k) w.
Proof. intros Hi Hn Hk. destruct r as [[]|m]; [by apply Hk|]. split; [done|]. intros H. by specialize (Hn H). Qed.

Lemma safe_then {A B} (R : B -> world -> Prop) (R' : A -> world -> Prop) p k w :
  safe (ends R') p w -> (forall a w', inv w' -> R' a w' -> safe (ends R) (k a) w') -> safe (ends R) (call p k) w.
Proof.
  intros Hp Hk. apply safe_call. eapply safe_mono; [|exact Hp]. intros [a|m] w' Hi Hq; [by apply Hk | done].
Qed.

Lemma safe_save (st : RetrievalCheckpointState) w : inv w -> state_inv st (w_rest w) ->
  safe (ends (fun s w' => s = st /\ w' = set_cursor (Some st) w)) (save st) w.
Proof.
  intros Hi Hs. apply safe_do; [done | done | by intros m w' -> |]. intros [] w' -> _.
  apply safe_done; [|done]. unfold inv. done.
Qed.

Lemma safe_forget {A} (R : A -> world -> Prop) st c k w : at_state st w -> all_paid (w_rest w) c ->
  (forall w', at_state st w' -> w' = upd (add_forgotten (map ss_sessionId c)) w -> all_forgotten (w_rest w') c ->
     safe (ends R) (k tt) w') ->
  safe (ends R) (await (Forget c) k) w.
Proof.
  intros [Hcur Hi] Hp Hk. assert (Hl : forall l, l ⊆ map ss_sessionId c -> at_state st (upd (add_forgotten l) w)).
  { intros l Hl. split; [done|]. apply inv_add_forgotten; [|done]. intros x Hx%Hl.
    apply list_elem_of_fmap in Hx as (s & -> & Hs). exact (proj1 (Forall_forall _ _) Hp s Hs). }
  apply safe_do; [done | by eapply at_inv | |].
  - intros m w' (l & Hsub & -> & _). eapply at_inv. by apply Hl.
  - intros [] w' (l & Hsub & -> & ->) _. apply Hk; [by apply Hl | done |].
    apply Forall_forall. intros s Hs. apply elem_of_app. left. by apply list_elem_of_fmap_2.
Qed.

Lemma safe_cleaned st w : at_state st w ->
  (forall c, cs_cleanup st = Some c -> all_forgotten (w_rest w) c) ->
  safe (ends (fun s w' => s = with_cleanup None None st /\ at_state s w'
    /\ g_rows (w_rest w') = match cs_cleanupOrdinal st with
                             | Some o => delete o (g_rows (w_rest w)) | None => g_rows (w_rest w) end)) (cleaned st) w.
Proof.
  intros [Hcur Hi] Hf. unfold cleaned. destruct (cs_cleanupOrdinal st) as [o|] eqn:Ho.
  - apply safe_do; [done | by apply (at_inv st) | by intros m w' ->; apply (at_inv st) |]. intros [] w' -> _.
    pose proof (inv_remove_row _ _ _ Hi Ho) as Hi'.
    assert (Hc : state_inv (with_cleanup None None st) (w_rest (upd (set_rows (delete o)) w))).
    { apply inv_cleaned; [done | done |]. intros o' Ho'. cbn. rewrite Ho in Ho'. injection Ho' as <-. apply lookup_delete_eq. }
    eapply safe_mono; [|apply safe_save; [by apply (at_inv st)|exact Hc]].
    intros [s|m] w' _ H; [|done]. by destruct H as [-> ->].
  - assert (Hc : state_inv (with_cleanup None None st) (w_rest w)) by (apply inv_cleaned; [done | done | congruence]).
    eapply safe_mono; [|apply safe_save; [by apply (at_inv st)|exact Hc]].
    intros [s|m] w' _ H; [|done]. by destruct H as [-> ->].
Qed.

Lemma no_cleanup_eta st g : state_inv st g -> cs_cleanup st = None -> with_cleanup None None st = st.
Proof. intros Hi Hc. pose proof (no_cleanup st g Hi Hc) as Ho. destruct st; cbn in *. by subst. Qed.

Lemma safe_forgetCleanup st w : at_state st w ->
  safe (ends (fun s w' => s = with_cleanup None None st /\ at_state s w')) (forgetCleanup st) w.
Proof.
  intros Hat. pose proof Hat as [Hcur Hi]. unfold forgetCleanup. destruct (cs_cleanup st) as [c|] eqn:Hc.
  - destruct (is_cleanup _ _ Hi c Hc) as [_ Hp]. apply (safe_forget _ st); [done | done |]. intros w' Hat' _ Hf.
    eapply safe_mono; [|apply safe_cleaned; [done|]]; [|by intros c' [= <-]%(eq_trans (eq_sym Hc))].
    intros [s|m] w'' _ H; [|done]. by destruct H as (-> & ? & _).
  - rewrite (no_cleanup_eta st _ Hi Hc). apply safe_done; [by eapply at_inv | done].
Qed.

Lemma pays_valid sessions outcomes : pays sessions outcomes ->
  map so_sessionId outcomes = map ss_sessionId sessions /\ forallb committed outcomes = true
  /\ some_unknown outcomes = false.
Proof.
  intros [Hids HF]. split; [done|]. clear Hids. induction HF as [|o l [Ho Hu] _ [IH1 IH2]]; [done|].
  unfold some_unknown in *. cbn. by rewrite IH1, IH2, Hu, (proj2 (committed_iff o) Ho).
Qed.

(** The row that is stored after it was asked for again. *)
Lemma safe_resettle st o row w : at_state st w -> live st o -> g_rows (w_rest w) !! o = Some row ->
  safe (ends (fun row' w' => at_state st w' /\ g_rows (w_rest w') = <[o := row']> (g_rows (w_rest w))
    /\ row_ok (w_rest w') row' /\ sw_sessions row' = sw_sessions row
    /\ (nice -> forallb committed (sw_outcomes row') = true))) (resettle o row) w.
Proof.
  intros Hat Hl Hr. pose proof Hat as [Hcur Hi]. destruct (is_rows _ _ Hi o row Hr) as [Hok _].
  pose proof Hok as [Hv _]. pose proof (row_ids _ Hv) as (Hw & Hnd & Hids & Hck). unfold resettle.
  destruct (bool_decide_reflect (remaining row = [])) as [Hnil|Hne].
  { apply safe_done; [by eapply at_inv|]. split_and!; [done | by rewrite insert_id | done | done |].
    intros _. by apply remaining_nil. }
  apply safe_do; [by intros x (outs & -> & _); eexists | by eapply at_inv | by intros m w' ->; eapply at_inv |].
  intros outs w1 -> Hhelp. pose proof (inv_add_paid _ _ (paid outs) Hi) as Hi1.
  apply safe_throws; [by apply (at_inv st) | |].
  { intros Hn. destruct (Hhelp Hn) as (outs' & [= <-] & (Hp & _)%pays_valid). by apply remaining_valid. }
  intros Hval. pose proof (merge_row_ok _ _ _ Hok Hval) as Hok'.
  set (row' := with_outcomes (merge (sw_outcomes row) outs) row) in *.
  assert (Hi2 : state_inv st (set_rows (insert o row') (add_paid (paid outs) (w_rest w)))).
  { apply inv_put_row; [done | done | by left |]. intros row0 _ Hr0. cbn in Hr0. rewrite Hr in Hr0. by injection Hr0 as <-. }
  apply safe_do; [done | by apply (at_inv st) | by intros m w' ->; apply (at_inv st) |]. intros [] w2 -> _.
  apply safe_done; [by apply (at_inv st)|]. split_and!; [done | done | done | done |].
  intros Hn. destruct (Hhelp Hn) as (outs' & [= <-] & (_ & Hc & _)%pays_valid).
  apply validateOutcomes_iff in Hval as (_ & _ & Hm). by apply (merge_spec (sw_sessions row)).
Qed.

Lemma row_live st g o row f : state_inv st g -> cs_cleanup st = None -> cs_settlementFrom st = Some f ->
  f <= o <= cs_through st -> g_rows g !! o = Some row -> live st o.
Proof.
  intros Hi Hc Hf Ho Hr. destruct (is_rows _ _ Hi o row Hr) as [_ [?|[Hco|(p & Hp & ->)%fmap_Some]]]; [done | |].
  - by rewrite (no_cleanup _ _ Hi Hc) in Hco.
  - destruct (is_pending _ _ Hi p Hp) as (? & _). lia.
Qed.

(** One row of the loop leaves the rows before it alone. *)
Lemma owed_next rows rows' f k o : o = f + Z.of_nat k ->
  (forall o', o' <> o -> rows' !! o' = rows !! o') -> owed rows' f (S k) = owed rows f k + owed_at rows' o.
Proof.
  intros -> H. cbn [owed]. f_equal. apply owed_agree. intros o' Ho'. apply H. lia.
Qed.
Lemma owing_next rows rows' f o : owing rows f o -> (forall o', o' <> o -> rows' !! o' = rows !! o') ->
  (forall row, rows' !! o = Some row -> 0 < count_unsettled (sw_outcomes row)) -> owing rows' f (o + 1).
Proof.
  intros How H Ho o' row Ho' Hr. destruct (decide (o' = o)) as [->|Hne]; [by apply Ho|].
  rewrite H in Hr by done. apply (How o' row); [lia | done].
Qed.

(** A row that was paid is first named in the cursor, then forgotten, then removed. *)
Lemma safe_paid_row st o row w : at_state st w -> cs_cleanup st = None -> live st o ->
  g_rows (w_rest w) !! o = Some row -> forallb committed (sw_outcomes row) = true ->
  safe (ends (fun s w' => s = st /\ at_state st w' /\ g_rows (w_rest w') = delete o (g_rows (w_rest w))))
    (call (save (with_cleanup (Some (sw_sessions row)) (Some o) st)) (fun state =>
     await (Forget (sw_sessions row)) (fun _ => cleaned state))) w.
Proof.
  intros Hat Hc Hl Hr Hall. pose proof Hat as [Hcur Hi].
  pose proof (inv_with_cleanup _ _ _ _ Hi Hc Hl Hr Hall) as Hi'.
  eapply safe_then; [by apply safe_save; [by eapply at_inv|]|]. intros s w' _ [-> ->].
  destruct (is_cleanup _ _ Hi' _ eq_refl) as [_ Hp].
  eapply safe_forget; [by split | done |]. intros w1 Hat1 -> Hf.
  eapply safe_mono; [|apply safe_cleaned; [exact Hat1 | by intros c [= <-]]].
  intros [s|m] w2 _ H; [|done]. destruct H as (-> & Hat2 & Hrows). cbn [cs_cleanupOrdinal with_cleanup] in Hrows.
  assert (E : with_cleanup None None (with_cleanup (Some (sw_sessions row)) (Some o) st) = st) by by apply (no_cleanup_eta st _ Hi).
  rewrite E in Hat2 |- *. done.
Qed.

Definition rows_done (st : RetrievalCheckpointState) (f u : Z)
    (r : RetrievalCheckpointState * Z * option RetrievalSettlementOutcome) (w : world) : Prop :=
  exists first, r = (st, owed (g_rows (w_rest w)) f (Z.to_nat (cs_through st - f + 1)), first)
  /\ at_state st w /\ owing (g_rows (w_rest w)) f (cs_through st + 1)
  /\ (nice -> owed (g_rows (w_rest w)) f (Z.to_nat (cs_through st - f + 1)) = u).

Lemma safe_rows n st f k first w : at_state st w -> cs_cleanup st = None -> cs_settlementFrom st = Some f ->
  Z.of_nat k + Z.of_nat n = cs_through st - f + 1 -> owing (g_rows (w_rest w)) f (f + Z.of_nat k) ->
  safe (ends (rows_done st f (owed (g_rows (w_rest w)) f k)))
    (reconcileRows n (f + Z.of_nat k) st (owed (g_rows (w_rest w)) f k) first) w.
Proof.
  revert k first w. induction n as [|n IH]; intros k first w Hat Hc Hf Hn How; cbn [reconcileRows].
  { apply safe_done; [by eapply at_inv|]. exists first. replace (cs_through st - f + 1) with (Z.of_nat k) by lia.
    rewrite Nat2Z.id. split_and!; [done | done | | done]. by replace (cs_through st + 1) with (f + Z.of_nat k) by lia. }
  set (o := f + Z.of_nat k) in *. replace (o + 1) with (f + Z.of_nat (S k)) by lia.
  apply safe_do; [done | by eapply at_inv | by intros m w' ->; eapply at_inv |]. intros [] w' -> _.
  apply safe_do; [done | by eapply at_inv | by intros m w' [-> _]; eapply at_inv |]. intros r w' [-> ->] _.
  pose proof Hat as [Hcur Hi]. destruct (g_rows (w_rest w) !! o) as [row|] eqn:Hr.
  2: { assert (Hs : owed (g_rows (w_rest w)) f (S k) = owed (g_rows (w_rest w)) f k).
       { rewrite (owed_next _ _ _ _ o eq_refl (fun _ _ => eq_refl)). unfold owed_at. rewrite Hr. lia. }
       rewrite <- Hs. apply IH; [done | done | done | lia |]. replace (f + Z.of_nat (S k)) with (o + 1) by lia.
       apply (owing_next _ _ _ _ How); [done|]. congruence. }
  assert (Hl : live st o) by (eapply row_live; [done | done | done | lia | done]).
  destruct (is_rows _ _ Hi o row Hr) as [[Hv _] _]. apply safe_throws; [by eapply at_inv | done |]. intros _.
  eapply safe_then; [by apply safe_resettle|].
  intros row' w1 _ (Hat1 & Hrows1 & Hok' & Hsess & Hnice).
  assert (Hr1 : g_rows (w_rest w1) !! o = Some row') by by rewrite Hrows1, lookup_insert_eq.
  assert (Hother : forall o', o' <> o -> g_rows (w_rest w1) !! o' = g_rows (w_rest w) !! o').
  { intros o' Hne. by rewrite Hrows1, lookup_insert_ne. }
  destruct (forallb committed (sw_outcomes row')) eqn:Hall.
  - eapply safe_then; [by apply (safe_paid_row st o row')|]. intros s w2 _ (-> & Hat2 & Hrows2).
    assert (Hother2 : forall o', o' <> o -> g_rows (w_rest w2) !! o' = g_rows (w_rest w) !! o').
    { intros o' Hne. by rewrite Hrows2, lookup_delete_ne, Hother. }
    assert (Hr2 : g_rows (w_rest w2) !! o = None) by by rewrite Hrows2, lookup_delete_eq.
    assert (Hs : owed (g_rows (w_rest w2)) f (S k) = owed (g_rows (w_rest w)) f k).
    { rewrite (owed_next _ _ _ _ o eq_refl Hother2). unfold owed_at. rewrite Hr2. lia. }
    rewrite <- Hs. apply IH; [done | done | done | lia |]. replace (f + Z.of_nat (S k)) with (o + 1) by lia.
    apply (owing_next _ _ _ _ How Hother2). congruence.
  - assert (Hnn : ~ nice) by (intros Hyes; specialize (Hnice Hyes); congruence).
    destruct (some_unknown (sw_outcomes row')); [apply safe_error; [by eapply at_inv | done]|].
    assert (Hs : owed (g_rows (w_rest w1)) f (S k)
      = owed (g_rows (w_rest w)) f k + count_unsettled (sw_outcomes row')).
    { rewrite (owed_next _ _ _ _ o eq_refl Hother). unfold owed_at. by rewrite Hr1. }
    rewrite <- Hs. eapply safe_mono; [|apply IH; [done | done | done | lia |]].
    + intros [r|m] w2 _ H; [|done]. destruct H as (first' & ? & ? & ? & _). by exists first'.
    + replace (f + Z.of_nat (S k)) with (o + 1) by lia. apply (owing_next _ _ _ _ How Hother).
      intros row0 [= <-]%(eq_trans (eq_sym Hr1)). pose proof (count_nonneg (sw_outcomes row')).
      pose proof (proj1 (count_zero (sw_outcomes row'))) as H0. destruct (decide (count_unsettled (sw_outcomes row') = 0)) as [E|]; [|lia].
      specialize (H0 E). congruence.
Qed.

Lemma owed_from rows a f n : a <= f -> (forall o, a <= o < f -> rows !! o = None) ->
  owed rows a (Z.to_nat (f - a) + n) = owed rows f n.
Proof.
  intros Hle Hnone. induction n as [|n IH].
  - rewrite Nat.add_0_r. cbn [owed]. assert (H : forall m, Z.of_nat m <= f - a -> owed rows a m = 0); [|apply H; lia].
    induction m as [|m IHm]; [done|]. intros Hm. cbn [owed]. unfold owed_at. rewrite IHm, Hnone by lia. done.
  - rewrite Nat.add_succ_r. cbn [owed]. rewrite IH. f_equal. f_equal. lia.
Qed.

(** What the rows owe: all of them, as none lies beyond the cursor but a pending one. *)
Definition total_owed (st : RetrievalCheckpointState) (w : world) : Z :=
  owed (g_rows (w_rest w)) 0 (Z.to_nat (cs_through st + 1)).

Definition reconciled (st s : RetrievalCheckpointState) (w : world) : Prop :=
  at_state s w /\ cs_cleanup s = None /\ cs_through s = cs_through st /\ cs_pending s = cs_pending st
  /\ default 0 (cs_unsettled s) = total_owed s w /\ (nice -> default 0 (cs_unsettled s) = 0).

(** Where a row can be when no cleanup is under way. *)
Lemma row_place st w o row : at_state st w -> cs_cleanup st = None -> o <= cs_through st ->
  g_rows (w_rest w) !! o = Some row -> exists f, cs_settlementFrom st = Some f /\ f <= o.
Proof.
  intros [Hcur Hi] Hc Ho Hr. destruct (is_rows _ _ Hi o row Hr) as [_ [(f & Hf & Hl & _)|[Hco|(p & Hp & ->)%fmap_Some]]].
  - exists f. split; [done | lia].
  - by rewrite (no_cleanup _ _ Hi Hc) in Hco.
  - destruct (is_pending _ _ Hi p Hp) as (? & _). lia.
Qed.

Lemma total_from st f w : at_state st w -> cs_cleanup st = None -> cs_settlementFrom st = Some f ->
  total_owed st w = owed (g_rows (w_rest w)) f (Z.to_nat (cs_through st - f + 1)).
Proof.
  intros Hat Hc Hf. pose proof Hat as [_ Hi]. pose proof (is_from _ _ Hi f Hf).
  assert (Hnone : forall o, 0 <= o < f -> g_rows (w_rest w) !! o = None).
  { intros o Ho. destruct (g_rows (w_rest w) !! o) as [row|] eqn:Hr; [|done].
    destruct (row_place st w o row Hat Hc ltac:(lia) Hr) as (f' & Hf' & ?). rewrite Hf in Hf'. injection Hf' as <-. lia. }
  rewrite <- (owed_from _ 0 f _ ltac:(lia) Hnone). unfold total_owed. f_equal. lia.
Qed.

Lemma total_none st w : at_state st w -> cs_cleanup st = None -> cs_settlementFrom st = None -> total_owed st w = 0.
Proof.
  intros Hat Hc Hf. pose proof Hat as [_ Hi]. pose proof (is_through _ _ Hi) as Ht. unfold total_owed.
  replace (Z.to_nat (cs_through st + 1)) with (Z.to_nat (cs_through st + 1 - 0) + 0)%nat by lia.
  rewrite owed_from; [done | lia |]. intros o Ho. destruct (g_rows (w_rest w) !! o) as [row|] eqn:Hr; [|done].
  destruct (row_place st w o row Hat Hc ltac:(lia) Hr) as (f' & Hf' & _). congruence.
Qed.

Lemma ckpt_reconcile st w : at_state st w -> safe (ends (reconciled st)) (reconcile st) w.
Proof.
  intros Hat. eapply safe_then; [by apply safe_forgetCleanup|]. intros s w1 _ [-> Hat1].
  set (s := with_cleanup None None st) in *. pose proof Hat1 as [Hcur1 Hi1].
  destruct (cs_settlementFrom s) as [f|] eqn:Hf.
  - pose proof (is_from _ _ Hi1 f Hf) as Hfr. replace f with (f + Z.of_nat 0) at 2 by lia.
    eapply safe_then; [apply (safe_rows _ s f 0 None); [done | done | done | lia | intros o row ?; lia]|].
    intros r w2 _ (first & -> & Hat2 & How & Hn). pose proof Hat2 as [Hcur2 Hi2].
    set (u := owed _ _ _) in *.
    assert (Hi3 : state_inv (recounted s u first) (w_rest w2)) by (apply inv_recounted; [done | done | lia | done]).
    eapply safe_mono; [|apply safe_save; [by eapply at_inv | exact Hi3]].
    intros [s'|m] w3 _ H; [|done]. destruct H as [-> ->]. split_and!; [done | done | done | done | | done].
    symmetry. apply (total_from s f w2 Hat2 eq_refl Hf).
  - apply safe_done; [by eapply at_inv|]. pose proof (is_settled _ _ Hi1 Hf) as H0.
    split_and!; [done | done | done | done | | done]. by rewrite H0, (total_none s w1).
Qed.

Lemma ckpt_prepare st ordinal sessions base w : at_state st w -> cs_cleanup st = None -> cs_through st < ordinal ->
  ordinal ∈ ordinals -> (forall o, o ∈ ordinals -> cs_through st < o -> ordinal <= o) ->
  checkRow sessions = Ok tt -> NoDup (map ss_sessionId sessions) -> (nice -> wave_size sessions = true) ->
  (forall p, cs_pending st = Some p -> pw_sessions p = sessions /\ pw_ordinal p = ordinal) ->
  safe (ends (fun s w' => at_state s w' /\ wave_size sessions = true
      /\ exists base', s = with_pending (Some {| pw_ordinal := ordinal; pw_sessions := sessions; pw_proofBase := base' |}) st))
    (prepare st ordinal sessions base) w.
Proof.
  intros Hat Hc Ht Hin Hnext Hck Hnd Hw Hsame. pose proof Hat as [Hcur Hi]. unfold prepare.
  rewrite Hc, bool_decide_eq_false_2 by (by intros [? ?]). rewrite (proj2 (Z.leb_gt _ _) Ht), orb_false_r.
  assert (Hm : match cs_pending st with
    | Some p => negb (pw_ordinal p =? ordinal) || negb (sameIds (pw_sessions p) sessions) | None => false end = false).
  { destruct (cs_pending st) as [p|]; [|done]. destruct (Hsame p eq_refl) as [<- <-]. unfold sameIds.
    by rewrite Z.eqb_refl, String.eqb_refl. }
  rewrite Hm. apply safe_throws; [by eapply at_inv | intros Hn; by rewrite Hw |]. intros Hok.
  destruct (wave_size sessions) eqn:Hws; [|done].
  eapply safe_mono; [|apply safe_save; [by eapply at_inv|]].
  - intros [s|m] w' _ H; [|done]. destruct H as [-> ->]. split; [split; [done|]|by split; [|eexists]].
    by apply inv_prepared.
  - by apply inv_prepared.
Qed.

(** Completing the wave that was confirmed last. *)
Lemma safe_complete st p outcomes w : at_state st w -> cs_cleanup st = None -> cs_pending st = Some p ->
  Forall (fun o => so_state o = Committed -> so_sessionId o ∈ g_paid (w_rest w)) outcomes ->
  (nice -> pays (pw_sessions p) outcomes) ->
  safe (ends (fun s w' => at_state s w' /\ s = completed st (pw_ordinal p) (pw_sessions p) outcomes))
    (complete st (pw_ordinal p) outcomes) w.
Proof.
  intros Hat Hc Hp Hpaid Hn. pose proof Hat as [Hcur Hi]. destruct (is_pending _ _ Hi p Hp) as (Ht & _ & _ & Hw & Hck & Hnd).
  unfold complete. rewrite Hp, Z.eqb_refl. cbn [negb]. apply safe_throws; [by eapply at_inv | |].
  { intros Hyes. apply validateOutcomes_iff. by destruct (pays_valid _ _ (Hn Hyes)) as (? & _). }
  intros Hval. destruct (some_unknown outcomes) eqn:Hunk.
  { apply safe_error; [by eapply at_inv|]. intros Hyes. destruct (pays_valid _ _ (Hn Hyes)) as (_ & _ & ?). congruence. }
  assert (Hend : forall w', at_state st w' -> g_paid (w_rest w') = g_paid (w_rest w) ->
    (count_unsettled outcomes <> 0 -> sw_sessions <$> g_rows (w_rest w') !! pw_ordinal p = Some (pw_sessions p)) ->
    safe (ends (fun s w' => at_state s w' /\ s = completed st (pw_ordinal p) (pw_sessions p) outcomes))
      (save (completed st (pw_ordinal p) (pw_sessions p) outcomes)) w').
  { intros w' Hat' Hg Hrow. pose proof Hat' as [_ Hi']. rewrite <- Hg in Hpaid.
    pose proof (inv_completed _ _ _ _ Hi' Hp Hc Hval Hpaid Hrow) as Hi3.
    eapply safe_mono; [|apply safe_save; [by eapply at_inv | exact Hi3]].
    intros [s|m] w'' _ H; [|done]. by destruct H as [-> ->]. }
  destruct (Z.eqb_spec (count_unsettled outcomes) 0) as [H0|Hne]; [by apply Hend|].
  set (row := {| sw_sessions := _; sw_outcomes := outcomes; sw_proofBase := _ |}).
  apply safe_do; [done | by eapply at_inv | by intros m w' ->; eapply at_inv |]. intros [] w' -> _.
  apply Hend; [|done|intros _; cbn; by rewrite lookup_insert_eq]. split; [done|].
  apply validateOutcomes_iff in Hval as (_ & _ & Hids).
  apply inv_put_row; [done | split; [by apply row_valid | done] | right; by rewrite Hp |].
  intros row0 Hl. destruct (pending_not_live st _ (pw_ordinal p) Hi); [by rewrite Hp | done].
Qed.

Lemma ckpt_confirm gateway base st ordinal sessions w : at_state st w -> cs_cleanup st = None -> cs_through st < ordinal ->
  ordinal ∈ ordinals -> (forall o, o ∈ ordinals -> cs_through st < o -> ordinal <= o) ->
  checkRow sessions = Ok tt -> NoDup (map ss_sessionId sessions) -> (nice -> wave_size sessions = true) ->
  (forall p, cs_pending st = Some p -> pw_sessions p = sessions /\ pw_ordinal p = ordinal) ->
  safe (ends (fun s w' => at_state s w' /\ cs_cleanup s = None /\ cs_through s = ordinal
      /\ (nice -> default 0 (cs_unsettled s) = default 0 (cs_unsettled st))))
    (confirm gateway base st ordinal sessions) w.
Proof.
  intros Hat Hc Ht Hin Hnext Hck Hnd Hw Hsame. eapply safe_then; [by apply ckpt_prepare|].
  intros s w1 _ (Hat1 & Hws & base' & ->). set (p := {| pw_ordinal := ordinal |}) in *. pose proof Hat1 as [Hcur1 Hi1].
  assert (Hkept : forall g, kept (with_pending (Some p) st) g sessions) by by left.
  apply safe_do; [by intros x (outs & -> & _); eexists | by eapply at_inv | |].
  { intros m w' [->| ->]; [by eapply at_inv|]. apply (at_inv (with_pending (Some p) st)). split; [done|]. by apply inv_add_acked. }
  intros outs w2 -> Hhelp. assert (Hpays : nice -> pays sessions outs).
  { intros Hyes. by destruct (Hhelp Hyes) as (outs' & [= <-] & ?). }
  set (w2 := upd _ w1). assert (Hat2 : at_state (with_pending (Some p) st) w2).
  { split; [done|]. by apply inv_add_acked, inv_add_paid. }
  destruct (some_unknown outs) eqn:Hunk.
  { apply safe_error; [by eapply at_inv|]. intros Hyes. destruct (pays_valid _ _ (Hpays Hyes)) as (_ & _ & ?). congruence. }
  eapply safe_then.
  - apply (safe_complete _ p outs); [done | done | done | | done]. apply Forall_forall. intros o Ho Hs.
    apply elem_of_app. left. by apply paid_elem.
  - intros s w3 _ [Hat3 ->]. eapply safe_mono; [|by apply safe_forgetCleanup].
    intros [s|m] w4 _ H; [|done]. destruct H as [-> Hat4]. split_and!; [done | done | done |].
    intros Hyes. cbn. destruct (pays_valid _ _ (Hpays Hyes)) as (_ & H0%count_zero & _). lia.
Qed.

(** Looking up the gateway changes nothing. *)
Definition quiet (base : prog (option string * option string)) : Prop :=
  forall A (R : A -> world -> Prop) k w, inv w -> (forall x, safe (ends R) (k x) w) -> safe (ends R) (pbind base k) w.

(** Every MDU before the next one is done. *)
Definition progressed (done : list Z) (s : RetrievalCheckpointState) (w : world) : Prop :=
  at_state s w /\ cs_cleanup s = None /\ Forall (fun o => o <= cs_through s) done
  /\ (nice -> default 0 (cs_unsettled s) = 0).

Lemma safe_processMdu mismatch base st l o rest w : quiet base -> StronglySorted Z.lt ordinals ->
  ordinals = l ++ o :: rest -> progressed l st w ->
  safe (ends (progressed (l ++ [o]))) (processMdu mismatch base st o) w.
Proof.
  intros Hbase Hsort Hord (Hat & Hc & Hdone & Hn). pose proof Hat as [Hcur Hi]. unfold processMdu.
  destruct (Z.leb_spec o (cs_through st)) as [Hle|Hgt].
  { apply safe_done; [by eapply at_inv|]. split_and!; [done | done | | done]. by apply Forall_app_2; [|apply Forall_singleton]. }
  assert (Hin : o ∈ ordinals) by (rewrite Hord; apply elem_of_app; right; by left).
  assert (Hnext : forall o', o' ∈ ordinals -> cs_through st < o' -> o <= o').
  { rewrite Hord in Hsort |- *. intros o' [Ho'|[->|Ho']%elem_of_cons]%elem_of_app Hlt; [|lia|].
    - rewrite Forall_forall in Hdone. specialize (Hdone o' Ho'). lia.
    - apply StronglySorted_app_1_r, StronglySorted_inv in Hsort as [_ HF].
      rewrite Forall_forall in HF. specialize (HF o' Ho'). lia. }
  assert (Hfin : forall s w', at_state s w' /\ cs_cleanup s = None /\ cs_through s = o
      /\ (nice -> default 0 (cs_unsettled s) = default 0 (cs_unsettled st)) -> progressed (l ++ [o]) s w').
  { intros s w' (Hat' & Hc' & Ht' & Hn'). split_and!; [done | done | |].
    - apply Forall_app_2; [|apply Forall_singleton; lia]. eapply Forall_impl; [exact Hdone|]. cbn. lia.
    - intros Hyes. rewrite Hn' by done. auto. }
  destruct (cs_pending st) as [p|] eqn:Hp.
  - destruct (is_pending _ _ Hi p Hp) as (Hpt & Hpin & Hpn & Hpw & Hpc & Hpnd).
    assert (Hpo : pw_ordinal p = o) by (specialize (Hpn o Hin Hgt); specialize (Hnext _ Hpin Hpt); lia).
    rewrite (proj2 (Z.eqb_eq _ _) Hpo). cbn [negb]. apply Hbase; [by eapply at_inv|]. intros [gateway pb].
    eapply safe_mono; [|apply ckpt_confirm; try done].
    + intros [s|m] w' _ H; [by apply Hfin | done].
    + intros p' [= <-]%(eq_trans (eq_sym Hp)). done.
  - apply safe_do; [by intros x (s & -> & _); eexists | by eapply at_inv | by intros m w' [-> _]; eapply at_inv |].
    intros sessions w' (-> & Hck & Hnd) Hhelp. apply Hbase; [by eapply at_inv|]. intros [gateway pb].
    eapply safe_mono; [|apply ckpt_confirm; try done].
    + intros [s|m] w' _ H; [by apply Hfin | done].
    + intros Hyes. by destruct (Hhelp Hyes) as (s & [= <-] & ?).
    + congruence.
Qed.

Lemma safe_processMdus mismatch base st l rest w : quiet base -> StronglySorted Z.lt ordinals ->
  ordinals = l ++ rest -> progressed l st w ->
  safe (ends (progressed ordinals)) (processMdus mismatch base st rest) w.
Proof.
  intros Hbase Hsort. revert st l w. induction rest as [|o rest IH]; intros st l w Hord Hp; cbn [processMdus].
  - rewrite app_nil_r in Hord. rewrite Hord. apply safe_done; [|done]. destruct Hp as [Hat _]. by eapply at_inv.
  - eapply safe_then; [by apply (safe_processMdu _ _ _ l o rest)|]. intros s w' _ Hp'.
    apply (IH s (l ++ [o])); [by rewrite <- app_assoc | done].
Qed.

(** ** Opening and closing *)

Lemma safe_retain st w : inv w -> safe (ends (fun _ w' => w' = w)) (retain st) w.
Proof.
  intros Hi. apply safe_vis; [done|]. intros r w' [-> Hn]. apply safe_vis; [done|].
  intros [] w' [-> _]. split; [done|]. destruct r as [[]|m]; [done|]. intros Hyes. by destruct (Hn Hyes).
Qed.

(** Nothing is left of a retrieval that owes nothing. *)
Lemma inv_removed st w : at_state st w -> cs_pending st = None -> cs_cleanup st = None ->
  default 0 (cs_unsettled st) = 0 -> inv (set_cursor None w).
Proof.
  intros [Hcur Hi] Hp Hc Hu. pose proof (no_cleanup _ _ Hi Hc) as Hco.
  assert (Hl : forall o, ~ live st o) by (intros o (f & _ & _ & ?); lia). destruct Hi. split_and!; [| |done].
  - apply map_empty. intros o. destruct (g_rows (w_rest w) !! o) as [row|] eqn:Hr; [|done].
    destruct (is_rows0 o row Hr) as [_ [?|[?|Ho]]]; [by destruct (Hl o) | congruence |]. by rewrite Hp in Ho.
  - intros s Hs. destruct (is_acked0 s Hs) as [?|[Hk|[Hk|(o & row & _ & _ & ? & _)]]];
      [done | by rewrite Hp in Hk | congruence | by destruct (Hl o)].
Qed.

Lemma progressed_pending s w : progressed ordinals s w -> cs_pending s = None.
Proof.
  intros ([_ Hi] & _ & Hd & _). destruct (cs_pending s) as [p|] eqn:Hp; [|done].
  destruct (is_pending _ _ Hi p Hp) as (Ht & Hin & _). rewrite Forall_forall in Hd. specialize (Hd _ Hin). lia.
Qed.

Lemma safe_handoff st w : progressed ordinals st w ->
  safe (ends (fun r w' => match r with Some _ => w_cursor w' = None | None => ~ nice end)) (handoff st) w.
Proof.
  intros Hpr. pose proof (progressed_pending _ _ Hpr) as Hp. destruct Hpr as (Hat & Hc & _ & Hn). unfold handoff.
  rewrite Hp, Hc, !bool_decide_eq_false_2 by (by intros [? ?]). cbn [orb].
  destruct (Z.eqb_spec (default 0 (cs_unsettled st)) 0) as [H0|Hne]; cbn [negb].
  - pose proof (inv_removed _ _ Hat Hp Hc H0) as Hi'.
    apply safe_do; [done | by eapply at_inv | by intros m w' ->; eapply at_inv |]. intros [] w' -> _.
    apply safe_vis; [done|]. intros [] w' [-> _]. by apply safe_done.
  - eapply safe_then; [by apply safe_retain; eapply at_inv|]. intros [] w' Hi' ->. apply safe_done; [done|]. auto.
Qed.

Lemma safe_finish st w : progressed ordinals st w ->
  safe (ends (fun _ w' => w_cursor w' = None)) (finish st) w.
Proof.
  intros Hpr. pose proof (progressed_pending _ _ Hpr) as Hp. destruct Hpr as (Hat & Hc & _ & Hn). unfold finish.
  rewrite Hp, Hc, !bool_decide_eq_false_2 by (by intros [? ?]). cbn [orb].
  destruct (Z.eqb_spec (default 0 (cs_unsettled st)) 0) as [H0|Hne]; cbn [negb].
  - pose proof (inv_removed _ _ Hat Hp Hc H0) as Hi'.
    apply safe_do; [done | by eapply at_inv | by intros m w' ->; eapply at_inv |]. intros [] w' -> _.
    apply safe_vis; [done|]. intros [] w' [-> _]. by apply safe_done.
  - apply safe_error; [by eapply at_inv|]. auto.
Qed.

(** After the cursor is gone, the output may go. *)
Lemma safe_cleanup id w : inv w -> w_cursor w = None ->
  safe (ends (fun _ w' => w_cursor w' = None)) (await (CleanupOutput id) (fun _ => Ret (Ok tt))) w.
Proof.
  intros Hi Hc. assert (Hi' : inv (upd (add_removed id) w)) by (unfold inv in *; cbn; rewrite Hc in *; done).
  apply safe_do; [done | done | by intros m w' [->|[-> _]] |]. intros [] w' [->|[-> _]] _; by apply safe_done.
Qed.

Lemma inv_fresh id g : id ∉ g_removed g -> g_rows g = ∅ -> (forall s, s ∈ g_acked g -> all_forgotten g s) ->
  g_forgotten g ⊆ g_paid g ->
  state_inv {| cs_id := id; cs_length := L; cs_through := -1; cs_confirmed := None; cs_unsettled := None;
               cs_firstSettlementIssue := None; cs_settlementFrom := None; cs_cleanupOrdinal := None;
               cs_cleanup := None; cs_pending := None |} g.
Proof.
  intros Hid Hr Ha Hf. constructor; cbn [cs_length cs_through cs_settlementFrom cs_unsettled cs_cleanupOrdinal cs_cleanup cs_pending cs_id
    default from_option]; try done.
  - intros o row. rewrite Hr. by rewrite lookup_empty.
  - intros s Hs. left. auto.
Qed.

Lemma safe_open w : inv w -> safe (ends (fun st w' => at_state st w')) (openRetrievalCheckpoint L) w.
Proof.
  intros Hi. apply safe_do; [done | done | by intros m w' -> |]. intros [] w' -> _. apply safe_bind.
  eapply (safe_mono _ _ (ends (fun st w' => at_state st w'))).
  { intros [st|m] w' Hi' H; [by apply safe_done|]. apply safe_vis; [done|]. intros [] w'' [-> _]. by apply safe_error. }
  apply safe_do; [done | done | by intros m w' [-> _] |]. intros saved w' [-> ->] _.
  destruct (w_cursor w) as [st|] eqn:Hcur.
  - pose proof (inv_at _ _ Hi Hcur) as Hat. pose proof Hat as [_ Hst]. rewrite (state_valid _ _ Hst). cbn [negb throws].
    apply safe_do; [done | done | by intros m w' [-> _] |]. intros id w' [-> ->] _. cbn [default from_option id].
    assert (Hp : at_state st (set_cursor (Some st) w)) by done.
    apply safe_vis; [done|]. intros r w' [He Hn]. destruct r as [[]|m]; cbn in He; rewrite He;
      [by apply safe_done; [eapply at_inv|]|].
    apply safe_do; [done | done | by intros m' w'' -> |]. intros [] w'' -> _.
    apply safe_error; [done|]. intros Hyes. by destruct (Hn Hyes).
  - cbn [throws]. apply safe_do; [done | done | by intros m w' [-> _] |]. intros id w' [-> Hid] _.
    pose proof Hi as Hi0. unfold inv in Hi0. rewrite Hcur in Hi0. destruct Hi0 as (Hr & Ha & Hf).
    pose proof (inv_fresh id _ Hid Hr Ha Hf) as Hst. cbn [default from_option fmap option_fmap].
    apply safe_vis; [done|]. intros r w' [He Hn]. destruct r as [[]|m]; cbn in He; rewrite He;
      [by apply safe_done; [eapply at_inv|]|].
    assert (Hi' : inv (upd (add_removed id) w)) by (unfold inv in *; cbn; rewrite Hcur in *; done).
    apply safe_do; [done | done | by intros m' w'' [->|[-> _]] |]. intros [] w'' [->|[-> _]] _;
      (apply safe_error; [done|]); intros Hyes; by destruct (Hn Hyes).
Qed.

Definition settled_end (w : world) : Prop := nice -> w_cursor w = None.

Lemma safe_download w : StronglySorted Z.lt ordinals -> inv w ->
  safe (ends (fun _ w' => settled_end w')) (download L ordinals) w.
Proof.
  intros Hsort Hi. eapply safe_then; [by apply safe_open|]. intros st w1 _ Hat1. apply safe_bind.
  eapply (safe_mono _ _ (ends (fun r w' => match r with Some _ => w_cursor w' = None | None => ~ nice end))).
  - intros [[id|]|m] w' Hi' H; cbn in H.
    + eapply safe_mono; [|by apply safe_cleanup]. intros [?|?] w'' _ H'; [|done]. by intros _.
    + apply safe_done; [done|]. intros Hyes. by destruct (H Hyes).
    + apply safe_bind. eapply safe_mono; [|by apply safe_retain]. intros r w'' Hi'' _. by apply safe_error.
  - eapply safe_then; [by apply ckpt_reconcile|]. intros s w2 _ (Hat2 & Hc & _ & _ & _ & Hn).
    eapply safe_then; [|intros s3 w3 _ H3; by apply safe_handoff].
    apply (safe_processMdus _ _ _ []); [|done|done|by split_and!].
    intros A R k w3 Hw Hk. apply safe_vis; [done|]. intros base w' [-> _]. apply Hk.
Qed.

Lemma safe_append n w : ordinals = map Z.of_nat (seq 0 n) -> StronglySorted Z.lt ordinals -> inv w ->
  safe (ends (fun _ w' => settled_end w')) (appendBase L n) w.
Proof.
  intros Hord Hsort Hi. eapply safe_then; [by apply safe_open|]. intros st w1 _ Hat1.
  apply safe_vis; [by eapply at_inv|]. intros gateway w' [-> _]. apply safe_bind.
  eapply (safe_mono _ _ (ends (fun _ w' => w_cursor w' = None))).
  - intros [id|m] w' Hi' H; cbn in H.
    + eapply safe_mono; [|by apply safe_cleanup]. intros [?|?] w'' _ H'; [|done]. by intros _.
    + eapply safe_then; [by apply safe_retain|]. intros [] w'' Hi'' _. by apply safe_error.
  - eapply safe_then; [by apply ckpt_reconcile|]. intros s w2 _ (Hat2 & Hc & _ & _ & _ & Hn). rewrite <- Hord.
    eapply safe_then; [apply (safe_processMdus _ _ _ []); [|done|done|by split_and!]|].
    { intros A R k w3 Hw Hk. cbn [pbind]. apply Hk. }
    intros s3 w3 Hi3 H3. destruct (Z.eqb_spec (default 0 (cs_unsettled s3)) 0) as [H0|Hne]; cbn [negb].
    + by apply safe_finish.
    + apply safe_error; [done|]. intros Hyes. destruct H3 as (_ & _ & _ & H). auto.
Qed.
End runs.

(** ** Runs that may end at any point *)

Inductive run_of : prog (result unit) -> Prop :=
| run_download : run_of (download L ordinals)
| run_append n : ordinals = map Z.of_nat (seq 0 n) -> run_of (appendBase L n).

(** A tab that closes in the middle of a run, or at its end. *)
Definition interrupted_run (w w' : world) : Prop :=
  exists p p', run_of p /\ rtc (exec_step (@env False)) (p, w) (p', w').
Definition fresh_world : world :=
  {| w_cursor := None; w_rest := {| g_rows := ∅; g_removed := []; g_acked := []; g_paid := []; g_forgotten := [] |} |}.
Definition reachable_world (w : world) : Prop := rtc interrupted_run fresh_world w.

Lemma ckpt_fresh : inv fresh_world.
Proof. split_and!; [done | by intros s ?%elem_of_nil | done]. Qed.

Lemma ckpt_run nice p w : StronglySorted Z.lt ordinals -> run_of p -> inv w ->
  safe_run (@env nice) inv (ends nice (fun _ w' => settled_end nice w')) p w.
Proof. intros Hs [|n Hn] Hi; [by apply safe_download | by apply safe_append]. Qed.

Lemma ckpt_reachable w : StronglySorted Z.lt ordinals -> reachable_world w -> inv w.
Proof.
  intros Hs Hr. refine (rtc_preserves _ inv _ _ _ Hr ckpt_fresh). intros w1 w2 (p & p' & Hp & Hrun) Hi.
  eapply safe_run_inv, safe_run_exec; [exact Hrun | by apply ckpt_run].
Qed.
End promises.

(** ** Theorems *)

(** C5: However often a download or an append is interrupted, between any two effects, and
    whatever fails: journals are deleted only of sessions whose provider reported the
    payment; a wave that the owner acknowledged is either entirely paid and forgotten, or
    still saved in the pending wave, in the cleanup or in a row that reconciling will
    find; and what is saved passes the checks of the next run, with its output kept. *)
Theorem acknowledged_payment_retained L ordinals w :
  Forall (fun o => 0 <= o < MAX_ORDINAL) ordinals -> StronglySorted Z.lt ordinals ->
  reachable_world L ordinals w ->
  g_forgotten (w_rest w) ⊆ g_paid (w_rest w)
  /\ (forall s, s ∈ g_acked (w_rest w) -> (all_paid (w_rest w) s /\ all_forgotten (w_rest w) s)
        \/ exists st, w_cursor w = Some st /\ kept st (w_rest w) s)
  /\ (forall st, w_cursor w = Some st -> validSaved L st = true /\ cs_id st ∉ g_removed (w_rest w))
  /\ (forall o row, g_rows (w_rest w) !! o = Some row -> validateSettlementWave row = Ok tt).
Proof.
  intros Hord Hs Hr. pose proof (ckpt_reachable _ _ Hord w Hs Hr) as Hi. unfold inv in Hi.
  destruct (w_cursor w) as [st|] eqn:Hc.
  - split_and!.
    + by destruct Hi.
    + intros s Hin. destruct (is_acked _ _ _ _ Hi s Hin) as [Hf|Hk]; [left; split; [|done] | right; by exists st].
      eapply Forall_impl; [exact Hf|]. intros x Hx. by apply (is_forgotten _ _ _ _ Hi).
    + intros st' [= <-]. split; [by eapply state_valid | by destruct Hi].
    + intros o row Ho. by destruct (is_rows _ _ _ _ Hi o row Ho) as [[? _] _].
  - destruct Hi as (Hrows & Ha & Hf). split_and!; [done | | done |].
    + intros s Hin. left. split; [|by apply Ha]. eapply Forall_impl; [by apply Ha|]. cbn. auto.
    + intros o row. rewrite Hrows. by rewrite lookup_empty.
Qed.

(** Reconciling ends with the exact number of sessions that are not paid, counted over
    the stored rows, and without losing the place of the download. *)
Theorem reconcile_counts_exactly L ordinals w st s w' :
  Forall (fun o => 0 <= o < MAX_ORDINAL) ordinals -> StronglySorted Z.lt ordinals ->
  reachable_world L ordinals w -> w_cursor w = Some st ->
  rtc (exec_step (@env False)) (reconcile st, w) (Ret (Ok s), w') ->
  w_cursor w' = Some s /\ default 0 (cs_unsettled s) = total_owed s w'
  /\ cs_through s = cs_through st /\ cs_pending s = cs_pending st /\ cs_cleanup s = None.
Proof.
  intros Hord Hs Hr Hc Hrun. pose proof (ckpt_reachable _ _ Hord w Hs Hr) as Hi.
  pose proof (ckpt_reconcile L ordinals Hord False st w (inv_at _ _ _ _ Hi Hc)) as Hsafe.
  eapply safe_run_exec in Hrun; [|exact Hsafe]. destruct Hrun as [_ ([? _] & ? & ? & ? & ? & _)]. done.
Qed.

(** C17: From any interrupted state, a run in which nothing fails and providers report their
    payments ends, and ends with nothing owed: it succeeds, the cursor is gone, and every
    session that was ever acknowledged is paid. *)
Theorem undisturbed_run_settles L ordinals p w :
  Forall (fun o => 0 <= o < MAX_ORDINAL) ordinals -> StronglySorted Z.lt ordinals ->
  reachable_world L ordinals w -> run_of L ordinals p ->
  (forall X (e : effect X) w, exists x w', env True e w x w') ->
  (exists r w', rtc (exec_step (@env True)) (p, w) (Ret r, w'))
  /\ forall r w', rtc (exec_step (@env True)) (p, w) (Ret r, w') ->
       r = Ok tt /\ w_cursor w' = None /\ (forall s, s ∈ g_acked (w_rest w') -> all_paid (w_rest w') s).
Proof.
  intros Hord Hs Hr Hp Henv. pose proof (ckpt_reachable _ _ Hord w Hs Hr) as Hi. split; [by apply exec_total|].
  intros r w' Hrun. pose proof (ckpt_run _ _ Hord True p w Hs Hp Hi) as Hsafe.
  eapply safe_run_exec in Hrun; [|exact Hsafe]. destruct Hrun as [Hi' Hq].
  destruct r as [[]|m]; [|by destruct Hq]. specialize (Hq I). split_and!; [done | done |].
  unfold inv in Hi'. rewrite Hq in Hi'. destruct Hi' as (_ & Ha & Hf). intros s Hin.
  eapply Forall_impl; [by apply Ha|]. cbn. auto.
Qed.
End checkpoint.

(** ** Examples *)

#[local] Existing Instance sample_bech32.

Definition sample_wave_session : RetrievalSettlementSession :=
  {| ss_sessionId := "0x1111111111111111111111111111111111111111111111111111111111111111";
     ss_payee := "payee"; ss_dealId := 7; ss_blobCount := 1;
     ss_browserTransactionKey := Some "open:2222222222222222222222222222222222222222222222222222222222222222" |}.
Definition sample_unpaid : RetrievalSettlementOutcome :=
  {| so_state := Pending; so_sessionId := ss_sessionId sample_wave_session; so_txHash := None;
     so_responseUnknown := false; so_message := None |}.
Definition sample_start : RetrievalCheckpointState :=
  {| cs_id := "output"; cs_length := 100; cs_through := -1; cs_confirmed := None; cs_unsettled := None;
     cs_firstSettlementIssue := None; cs_settlementFrom := None; cs_cleanupOrdinal := None; cs_cleanup := None;
     cs_pending := None |}.
Definition sample_pending : RetrievalCheckpointState :=
  with_pending (Some {| pw_ordinal := 0; pw_sessions := [sample_wave_session]; pw_proofBase := None |}) sample_start.
Definition sample_completed : RetrievalCheckpointState :=
  completed sample_pending 0 [sample_wave_session] [sample_unpaid].
Definition sample_row : SettlementWave :=
  {| sw_sessions := [sample_wave_session]; sw_outcomes := [sample_unpaid]; sw_proofBase := None |}.
(** The tab closed after the wave was completed. *)
Definition sample_world : world :=
  set_cursor (Some sample_completed)
    (upd (set_rows (insert 0 sample_row)) (upd (fun g => add_acked [sample_wave_session] (add_paid [] g)) fresh_world)).

Abbreviation sample_env nice := (exec_step (@env _ nice)).

Lemma sample_interrupted : exists p,
  rtc (sample_env False) (download 100 [0], fresh_world) (p, sample_world).
Proof.
  eexists.
  eapply (exec_answer _ _ _ _ (Ok tt)); [by split|].
  eapply (exec_answer _ _ _ _ (Ok None)); [by split|].
  eapply (exec_answer _ _ _ _ (Ok "output")); [split; [split; [done | apply not_elem_of_nil] | done]|].
  eapply (exec_answer _ _ _ _ (Ok tt)); [by split|].
  eapply (exec_answer _ _ _ _ (Ok [sample_wave_session])).
  { split; [|done]. split; [done|]. split; [vm_compute; reflexivity | apply NoDup_singleton]. }
  eapply (exec_answer _ _ _ _ None); [by split|].
  eapply (exec_answer _ _ _ _ (Ok tt)); [by split|].
  eapply (exec_answer _ _ _ _ (Ok [sample_unpaid])); [by split|].
  eapply (exec_answer _ _ _ _ (Ok tt)); [by split|].
  eapply (exec_answer _ _ _ _ (Ok tt)); [by split|].
  apply rtc_refl.
Qed.

Lemma sample_reachable : reachable_world 100 [0] sample_world.
Proof. destruct sample_interrupted as [p Hp]. apply rtc_once. exists (download 100 [0]), p. split; [constructor | exact Hp]. Qed.

Lemma sample_ordinals : Forall (fun o => 0 <= o < MAX_ORDINAL) [0] /\ StronglySorted Z.lt [0].
Proof. split; [apply Forall_singleton; unfold MAX_ORDINAL; lia | repeat constructor]. Qed.

Lemma acknowledged_payment_retained_witness :
  [sample_wave_session] ∈ g_acked (w_rest sample_world)
  /\ kept sample_completed (w_rest sample_world) [sample_wave_session]
  /\ validSaved 100 sample_completed = true.
Proof.
  destruct sample_ordinals as [Hord Hs].
  destruct (acknowledged_payment_retained 100 [0] sample_world Hord Hs sample_reachable)
    as (_ & Hkept & Hvalid & _).
  assert (Hin : [sample_wave_session] ∈ g_acked (w_rest sample_world)) by by left.
  split; [exact Hin|]. split; [|exact (proj1 (Hvalid _ eq_refl))].
  destruct (Hkept _ Hin) as [[_ Hf]|(st & [= <-] & Hk)]; [|exact Hk].
  destruct (proj1 (Forall_cons _ _ _) Hf) as [Hx _]. by apply elem_of_nil in Hx.
Defined.

Lemma reconcile_counts_exactly_witness :
  exists s w', w_cursor w' = Some s /\ default 0 (cs_unsettled s) = total_owed s w' /\ total_owed s w' = 1.
Proof.
  destruct sample_ordinals as [Hord Hs].
  assert (Hrun : exists s w', rtc (sample_env False) (reconcile sample_completed, sample_world) (Ret (Ok s), w')
    /\ total_owed s w' = 1).
  { eexists _, _. split.
    - eapply (exec_answer _ _ _ _ (Ok tt)); [by split|].
      eapply (exec_answer _ _ _ _ (Ok (Some sample_row))); [by split|].
      eapply (exec_answer _ _ _ _ (Ok [sample_unpaid])); [by split|].
      eapply (exec_answer _ _ _ _ (Ok tt)); [by split|].
      eapply (exec_answer _ _ _ _ (Ok tt)); [by split|]. apply rtc_refl.
    - reflexivity. }
  destruct Hrun as (s & w' & Hrun & H1). exists s, w'.
  destruct (reconcile_counts_exactly 100 [0] sample_world sample_completed s w' Hord Hs sample_reachable
    eq_refl Hrun) as (Hc & Hu & _). exact (conj Hc (conj Hu H1)).
Defined.

Definition paid_outcome (s : RetrievalSettlementSession) : RetrievalSettlementOutcome :=
  {| so_state := Committed; so_sessionId := ss_sessionId s; so_txHash := None; so_responseUnknown := false;
     so_message := None |}.
Lemma sample_pays sessions : pays sessions (map paid_outcome sessions).
Proof.
  split; [by rewrite map_map|]. apply (Forall_fmap paid_outcome). by apply Forall_true.
Qed.

Lemma sample_answers X (e : effect X) w : exists x w', env True e w x w'.
Proof.
  destruct e.
  - exists (Ok tt), w. split; [done|]. by eexists.
  - exists tt, w. by split.
  - exists (Ok (w_cursor w)), w. split; [done|]. by eexists.
  - exists (Ok tt). eexists. split; [done|]. by eexists.
  - exists (Ok tt). eexists. split; [done|]. by eexists.
  - exists (Ok (g_rows (w_rest w) !! ordinal)), w. split; [done|]. by eexists.
  - exists (Ok tt). eexists. split; [done|]. by eexists.
  - exists (Ok tt). eexists. split; [done|]. by eexists.
  - destruct saved as [s|].
    + exists (Ok s), w. split; [done|]. by eexists.
    + destruct (exist_fresh (list_to_set (C := gset string) (g_removed (w_rest w)))) as [s Hs].
      exists (Ok s), w. split; [|by eexists]. split; [done|]. by rewrite elem_of_list_to_set in Hs.
  - exists (Ok tt), w. split; [done|]. by eexists.
  - exists (Ok tt). eexists. split; [by left|]. by eexists.
  - exists (Ok tt), w. split; [done|]. by eexists.
  - exists None, w. by split.
  - exists (Ok [sample_wave_session]), w. split; [|by eexists].
    split; [done|]. split; [vm_compute; reflexivity | apply NoDup_singleton].
  - exists (Ok (map paid_outcome sessions)). eexists. split; [done|]. intros _. eexists. split; [done | apply sample_pays].
  - exists (Ok (map paid_outcome sessions)). eexists. split; [done|]. intros _. eexists. split; [done | apply sample_pays].
  - exists (Ok tt). eexists. split; [|by eexists]. exists (map ss_sessionId sessions). done.
Qed.

Lemma undisturbed_run_settles_witness :
  exists r w', rtc (sample_env True) (download 100 [0], sample_world) (Ret r, w')
    /\ r = Ok tt /\ w_cursor w' = None.
Proof.
  destruct sample_ordinals as [Hord Hs].
  destruct (undisturbed_run_settles 100 [0] (download 100 [0]) sample_world Hord Hs sample_reachable
    (run_download _ _) sample_answers) as [(r & w' & Hrun) Hend].
  exists r, w'. destruct (Hend r w' Hrun) as (Hr & Hc & _). exact (conj Hrun (conj Hr Hc)).
Defined.
