(* ===== verification/Recovery.v ===== *)
(** * Recovery

    Models src/polystore-website/src/lib/retrievalRecovery.ts: when too few slots of an
    MDU answer, its bytes are rebuilt from any [k] of its shards and checked against
    the commitments of its blobs, which are read from the witness MDUs of the
    generation; also the lines of components/FileSharder.tsx that write those witness
    MDUs.

    The curve operations of the WebAssembly module, [commit_received_blob] and
    [compute_mdu_root], are arguments.  [recoverRetrievalMdu] and the reader of
    commitments are programs of effects (Effects.v). *)

From S2P Require Import Prelude JsMap JsNumber JsBytes Encoding Layout Windows Packing FileTable Effects.
Local Open Scope Z_scope.

(** ** The witness stream *)

Record WitnessSpan := { ws_total : Z; ws_start : Z; ws_end : Z; ws_indices : list Z }.

(** [BigInt(pin.leafCount * 48)] *)
Definition commitmentBytes (pin : PinnedGeneration) : Z := p_leafCount pin * 48.

Definition witnessSpan (pin : PinnedGeneration) (ordinal : Z) : result WitnessSpan :=
  throw_if negb (p_layout pin =? 2) || (ordinal <? 0) || (userMdus pin <=? ordinal)
           || (p_leafCount pin <? 64) || (16384 <? p_leafCount pin)
    with "invalid recovery geometry" else
  let total := userMdus pin * commitmentBytes pin in
  let start := ordinal * commitmentBytes pin in
  let end_ := start + commitmentBytes pin in
  throw_if (metadataMdus pin - 1) * RAW_MDU <? total with "insufficient frozen witness extent" else
  let first := Z.quot start RAW_MDU in
  let last := Z.quot (end_ - 1) RAW_MDU in
  throw_if 1 <? last - first with "witness span exceeds bound" else
  Ok {| ws_total := total; ws_start := start; ws_end := end_;
        ws_indices := if first =? last then [first + 1] else [first + 1; last + 1] |}.

Record WitnessMdu := { wm_index : Z; wm_bytes : bytes }.

(** FileSharder: the witness lists of the user MDUs, one after the other, and the
    witness MDU of each stretch of them. *)
Definition fullWitnessData (witnessDataBlobs : list bytes) : bytes := concat witnessDataBlobs.
Definition witnessMduBytes (fullWitness : bytes) (i : Z) : result bytes :=
  let start := i * RAW_MDU in
  let end_ := Z.min (start + RAW_MDU) (blen fullWitness) in
  encodeToMdu (subarray fullWitness start end_).

Section crypto.
Context (commit_received_blob compute_mdu_root : bytes -> result bytes).

(** [for (let i = 0; i < 64; i++) commitments.set(...)]: [n] blobs are left. *)
Fixpoint commitLoop (bs : bytes) (n : nat) (i : Z) (commitments : bytes) : result bytes :=
  match n with
  | O => Ok commitments
  | S n =>
      let! commitment := commit_received_blob (subarray bs (i * 131072) ((i + 1) * 131072)) in
      let! commitments := set_at commitments commitment (i * 48) in
      commitLoop bs n (i + 1) commitments
  end.

Definition verifyWitnessMdu (bs cell : bytes) : result unit :=
  throw_if negb (blen bs =? 8388608) with "incomplete witness MDU" else
  let! commitments := commitLoop bs 64 0 (zeros (64 * 48)) in
  let! root := compute_mdu_root commitments in
  assertPolyfsRootCell root cell.

(** [while (cursor < span.end)] *)
Fixpoint readLoop (fuel : nat) (span : WitnessSpan) (witness : list WitnessMdu) (cursor : Z)
    (out : bytes) : result bytes :=
  if cursor <? ws_end span then
    match fuel with
    | O => Err OUT_OF_FUEL
    | S fuel =>
        let mduOrdinal := Z.quot cursor RAW_MDU in
        let inMdu := Number (Z.rem cursor RAW_MDU) in
        let blob := floor_div inMdu RAW_BLOB_BYTES in
        let blobStart := mduOrdinal * RAW_MDU + blob * RAW_BLOB_BYTES in
        let remaining := ws_total span - blobStart in
        let valid := Number (if remaining <? RAW_BLOB_BYTES then remaining else RAW_BLOB_BYTES) in
        let offset := Z.rem inMdu RAW_BLOB_BYTES in
        let count := Number (if ws_end span - cursor <? valid - offset then ws_end span - cursor
                             else valid - offset) in
        match List.find (fun w => wm_index w =? mduOrdinal + 1) witness with
        | None => Err "Cannot read properties of undefined"
        | Some source =>
            let! decoded := decodeRetrievalSlice
              (subarray (wm_bytes source) (blob * 131072) ((blob + 1) * 131072)) valid offset count in
            let! out := set_at out decoded (Number (cursor - ws_start span)) in
            readLoop fuel span witness (cursor + count) out
        end
    end
  else Ok out.

Definition readUserCommitments (pin : PinnedGeneration) (ordinal : Z) (witness : list WitnessMdu)
    (userCell : bytes) : result bytes :=
  let! span := witnessSpan pin ordinal in
  throw_if negb (Z.of_nat (length witness) =? Z.of_nat (length (ws_indices span)))
           || existsb (fun '(w, index) => negb (wm_index w =? index) || negb (blen (wm_bytes w) =? 8388608))
                (zip witness (ws_indices span))
    with "wrong witness generation span" else
  let! out := readLoop (Z.to_nat (commitmentBytes pin)) span witness (ws_start span)
                (zeros (commitmentBytes pin)) in
  let! root := compute_mdu_root out in
  let! _ := assertPolyfsRootCell root userCell in
  Ok out.

Definition verifyRecoveredMdu (pin : PinnedGeneration) (bs commitments : bytes) : result unit :=
  throw_if negb (blen bs =? 8388608) || negb (blen commitments =? commitmentBytes pin)
    with "incomplete recovered MDU" else
  for_range 64 0 (fun blob =>
    let leaf := Z.rem blob (p_k pin) * p_rows pin + floor_div blob (p_k pin) in
    let! commitment := commit_received_blob (subarray bs (blob * 131072) ((blob + 1) * 131072)) in
    throw_if negb (equal commitment (subarray commitments (leaf * 48) ((leaf + 1) * 48)))
      with "reconstructed bytes do not match authenticated data commitments" else
    Ok tt).
End crypto.

(** ** Recovering an MDU *)

Definition recoveryWindow (pin : PinnedGeneration) (ordinal : Z) (slot : nat) (a : Assignment)
    : list RetrievalWindow :=
  if active a then
    [{| mduIndex := metadataMdus pin + ordinal; w_slot := Z.of_nat slot; w_provider := provider a;
        startBlobIndex := Z.of_nat slot * p_rows pin; blobCount := p_rows pin; slices := [] |}]
  else [].

Definition recoveryWindows (pin : PinnedGeneration) (ordinal : Z) : result (list RetrievalWindow) :=
  let! _ := witnessSpan pin ordinal in
  let windows := concat (imap (recoveryWindow pin ordinal) (assignments pin)) in
  throw_if Z.of_nat (length windows) <? p_k pin
    with "fewer than K active recovery assignments before payment" else
  Ok windows.

(** A session, as far as recovery looks at it. *)
Record RecoverySession := { rs_sessionId : string; rs_window : RetrievalWindow }.

Inductive effect : Type -> Type :=
| CheckAbort : effect (result unit)
| Open (windows : list RetrievalWindow) : effect (result (list RecoverySession))
| FetchAndVerify (s : RecoverySession) : effect (result bytes)
| Reconstruct (shards : list (option bytes)) : effect (result bytes)
| ConsumeAndFlush (bs : bytes) : effect (result unit)
| Confirm (sessions : list RecoverySession) : effect (result unit).

Abbreviation prog := (prog effect).

Definition same_window (s : RecoverySession) (w : RetrievalWindow) : bool :=
  (mduIndex (rs_window s) =? mduIndex w) && bool_decide (w_provider (rs_window s) = w_provider w)
  && (startBlobIndex (rs_window s) =? startBlobIndex w) && (blobCount (rs_window s) =? blobCount w).

(** [l[i] = v] on an array of shards: a write past the end extends it. *)
Definition array_set {A} (l : list (option A)) (i : nat) (v : A) : list (option A) :=
  if decide (i < length l)%nat then <[i := Some v]> l
  else l ++ replicate (i - length l) None ++ [Some v].

(** [shards], [accepted] and [failure]. *)
Record collected := {
  co_shards : list (option bytes); co_accepted : list RecoverySession; co_failure : option string }.

Definition add_shard (slot : Z) (bs : bytes) (s : RecoverySession) (c : collected) : collected :=
  {| co_shards := array_set (co_shards c) (Z.to_nat slot) bs;
     co_accepted := co_accepted c ++ [s]; co_failure := co_failure c |}.
Definition set_failure (m : string) (c : collected) : collected :=
  {| co_shards := co_shards c; co_accepted := co_accepted c; co_failure := Some m |}.

(** [for (let i = 0; i < sessions.length; i++)] *)
Fixpoint fetchLoop (pin : PinnedGeneration) (l : list (RecoverySession * RetrievalWindow))
    (c : collected) : prog (result collected) :=
  match l with
  | [] => Ret (Ok c)
  | (session, window) :: l =>
      await CheckAbort (fun _ =>
      Vis (FetchAndVerify session) (fun r =>
      match r with
      | Ok bs =>
          Vis CheckAbort (fun aborted =>
          match aborted with
          | Err m => await CheckAbort (fun _ => fetchLoop pin l (set_failure m c))
          | Ok _ =>
              if negb (blen bs =? p_rows pin * 131072)
              then await CheckAbort (fun _ => fetchLoop pin l (set_failure "incomplete recovery slot" c))
              else fetchLoop pin l (add_shard (w_slot window) bs session c)
          end)
      | Err m => await CheckAbort (fun _ => fetchLoop pin l (set_failure m c))
      end))
  end.

(** [while (accepted.length < pin.k && next < candidates.length)]: [candidates] are
    those from [next] on; [fuel] is their number. *)
Fixpoint recoverLoop (fuel : nat) (pin : PinnedGeneration) (candidates : list RetrievalWindow)
    (c : collected) : prog (result collected) :=
  if (Z.of_nat (length (co_accepted c)) <? p_k pin) && negb (bool_decide (candidates = [])) then
    match fuel with
    | O => Ret (Err OUT_OF_FUEL)
    | S fuel =>
        await CheckAbort (fun _ =>
        let n := (Z.to_nat (p_k pin) - length (co_accepted c))%nat in
        let batch := take n candidates in
        await (Open batch) (fun sessions =>
        if negb (Nat.eqb (length sessions) (length batch))
           || existsb (fun '(s, w) => negb (same_window s w)) (zip sessions batch)
        then Ret (Err "wrong recovery session order") else
        call (fetchLoop pin (zip sessions batch) c) (fun c =>
        recoverLoop fuel pin (drop n candidates) c)))
    end
  else Ret (Ok c).

Definition recoverRetrievalMdu (pin : PinnedGeneration) (ordinal : Z) : prog (result bytes) :=
  match recoveryWindows pin ordinal with
  | Err m => Ret (Err m)
  | Ok candidates =>
      call (recoverLoop (length candidates) pin candidates
              {| co_shards := replicate (Z.to_nat (p_k pin + p_m pin)) None; co_accepted := [];
                 co_failure := None |}) (fun c =>
      if negb (Z.of_nat (length (co_accepted c)) =? p_k pin)
      then Ret (Err (default "insufficient authenticated recovery shards" (co_failure c))) else
      await (Reconstruct (co_shards c)) (fun bs =>
      await CheckAbort (fun _ =>
      await (ConsumeAndFlush bs) (fun _ =>
      await CheckAbort (fun _ =>
      await (Confirm (co_accepted c)) (fun _ => Ret (Ok bs)))))))
  end.

(** ** The reader of commitments *)

(** The [Map] of witness MDUs that were verified.  Everything between two awaits runs
    without another call of the reader, so the cache changes by two operations: a
    look-up that finds the index moves it to the end, and a witness MDU that was
    fetched is kept after the oldest of two entries is evicted. *)
Abbreviation cache := (list (Z * bytes)).

Definition cache_touch (c : cache) (index : Z) (bs : bytes) : cache :=
  mset (mdelete c index) index bs.

Definition cache_lookup (c : cache) (index : Z) : option bytes * cache :=
  match mget c index with
  | Some bs => (Some bs, cache_touch c index bs)
  | None => (None, c)
  end.

Definition cache_keep (c : cache) (index : Z) (bs : bytes) : cache :=
  let c := if Nat.eqb (length c) 2 then match c with (k, _) :: _ => mdelete c k | [] => c end else c in
  cache_touch c index bs.

Inductive reader_effect : Type -> Type :=
| RCheckAbort : reader_effect (result unit)
| Lookup (index : Z) : reader_effect (option bytes)
| Keep (index : Z) (bs : bytes) : reader_effect unit
| Fetch (index : Z) : reader_effect (result bytes)
| VerifyWitness (bs cell : bytes) : reader_effect (result bytes)
| ReadCommitments (ordinal : Z) (witness : list WitnessMdu) (cell : bytes) : reader_effect (result bytes).

Definition rootCell (roots : bytes) (index : Z) : bytes :=
  subarray roots (Number (index - 1) * 32) (Number index * 32).

(** [for (const index of witnessSpan(frozen, ordinal).indices)] *)
Fixpoint collectWitness (roots : bytes) (indices : list Z) (witness : list WitnessMdu)
    : Effects.prog reader_effect (result (list WitnessMdu)) :=
  match indices with
  | [] => Ret (Ok witness)
  | index :: indices =>
      await RCheckAbort (fun _ =>
      Vis (Lookup index) (fun found =>
      match found with
      | Some bs => collectWitness roots indices (witness ++ [{| wm_index := index; wm_bytes := bs |}])
      | None =>
          await (Fetch index) (fun fetched =>
          await (VerifyWitness fetched (rootCell roots index)) (fun bs =>
          if negb (blen bs =? 8388608) then Ret (Err "incomplete authenticated witness") else
          Vis (Keep index bs) (fun _ =>
          collectWitness roots indices (witness ++ [{| wm_index := index; wm_bytes := bs |}]))))
      end))
  end.

(** The function the reader returns, for the first 2 MiB of MDU0. *)
Definition readOrdinal (pin : PinnedGeneration) (roots : bytes) (ordinal : Z)
    : Effects.prog reader_effect (result bytes) :=
  match witnessSpan pin ordinal with
  | Err m => Ret (Err m)
  | Ok span =>
      call (collectWitness roots (ws_indices span) []) (fun witness =>
      await RCheckAbort (fun _ =>
      Vis (ReadCommitments ordinal witness (rootCell roots (metadataMdus pin + ordinal))) Ret))
  end.

Definition createRecoveryCommitmentReader (pin : PinnedGeneration) (mdu0 : bytes)
    : result (Z -> Effects.prog reader_effect (result bytes)) :=
  throw_if negb (blen mdu0 =? 8388608) with "missing authenticated MDU0" else
  let roots := subarray mdu0 0 (2 * 1024 * 1024) in
  Ok (readOrdinal pin roots).

(** ** Lemmas *)

Lemma raw_sizes : RAW_MDU = 64 * RAW_BLOB_BYTES /\ RAW_BLOB_BYTES = 126976.
Proof. by vm_compute. Qed.

Lemma witnessSpan_Ok pin ordinal span :
  witnessSpan pin ordinal = Ok span ->
  p_layout pin = 2 /\ 0 <= ordinal < userMdus pin /\ 64 <= p_leafCount pin <= 16384
  /\ ws_total span = userMdus pin * commitmentBytes pin
  /\ ws_total span <= (metadataMdus pin - 1) * RAW_MDU
  /\ ws_start span = ordinal * commitmentBytes pin
  /\ ws_end span = ws_start span + commitmentBytes pin
  /\ exists first last, first = ws_start span / RAW_MDU /\ last = (ws_end span - 1) / RAW_MDU
     /\ first <= last <= first + 1
     /\ ws_indices span = if first =? last then [first + 1] else [first + 1; last + 1].
Proof.
  destruct raw_sizes as [HM HB]. unfold witnessSpan. intros H. ok_step H. ok_step H. ok_step H.
  apply Ok_inj in H as <-. cbn. bool_to_prop.
  assert (0 < commitmentBytes pin) by (unfold commitmentBytes; lia).
  rewrite !Z.quot_div_nonneg in * by nia. split_and!; try lia. do 2 eexists. split_and!; try done; [|lia].
  apply Z.div_le_mono; lia.
Qed.

(** Both ends of a legal span are safe integers. *)
Lemma commitmentBytes_bound pin ordinal span :
  witnessSpan pin ordinal = Ok span -> 0 < commitmentBytes pin <= 786432.
Proof. intros (_ & _ & ? & _)%witnessSpan_Ok. unfold commitmentBytes. lia. Qed.

Section read.
Context (W : bytes) (span : WitnessSpan) (witness : list WitnessMdu).
Context (Htotal : ws_total span = blen W) (Hstart : 0 <= ws_start span) (Hend : ws_end span <= blen W).
Context (Hsize : ws_end span - ws_start span <= MAX_SAFE_INTEGER).
Context (Hfind : forall i, ws_start span / RAW_MDU <= i <= (ws_end span - 1) / RAW_MDU ->
  exists mdu, List.find (fun w => wm_index w =? i + 1) witness = Some {| wm_index := i + 1; wm_bytes := mdu |}
    /\ witnessMduBytes W i = Ok mdu).

(** One pass reads the stretch of the witness stream from the cursor to the end of
    its blob or of the span. *)
Lemma decode_witness_slice i b off count mdu :
  0 <= i -> 0 <= b < 64 -> 0 <= off -> 0 <= count ->
  let cursor := i * RAW_MDU + b * RAW_BLOB_BYTES + off in
  off + count <= Z.min RAW_BLOB_BYTES (blen W - (i * RAW_MDU + b * RAW_BLOB_BYTES)) ->
  witnessMduBytes W i = Ok mdu ->
  decodeRetrievalSlice (subarray mdu (b * 131072) ((b + 1) * 131072))
    (Z.min RAW_BLOB_BYTES (blen W - (i * RAW_MDU + b * RAW_BLOB_BYTES))) off count
  = Ok (subarray W cursor (cursor + count)).
Proof.
  destruct raw_sizes as [HM HB]. intros Hi Hb Ho Hc cursor Hv Hm. unfold witnessMduBytes in Hm. cbv zeta in Hm.
  assert (Hl : blen (subarray W (i * RAW_MDU) (Z.min (i * RAW_MDU + RAW_MDU) (blen W)))
               = Z.min RAW_MDU (blen W - i * RAW_MDU)) by (rewrite blen_subarray; lia).
  rewrite (decode_encoded_blob _ _ _ _ _ _ Hm Hb) by (rewrite ?Hl; lia). f_equal.
  unfold cursor. rewrite subarray_subarray by lia. f_equal; lia.
Qed.

Lemma readLoop_spec fuel cursor :
  ws_start span <= cursor <= ws_end span -> ws_end span - cursor <= Z.of_nat fuel ->
  readLoop fuel span witness cursor (subarray W (ws_start span) cursor ++ zeros (ws_end span - cursor))
  = Ok (subarray W (ws_start span) (ws_end span)).
Proof.
  destruct raw_sizes as [HM HB].
  revert cursor. induction fuel as [|fuel IH]; intros cursor Hcur Hf; cbn [readLoop].
  { rewrite (proj2 (Z.ltb_ge _ _)) by lia. replace (ws_end span - cursor) with 0 by lia.
    rewrite app_nil_r. do 2 f_equal. lia. }
  destruct (Z.ltb_spec cursor (ws_end span)) as [Hlt|]; last first.
  { replace (ws_end span - cursor) with 0 by lia. rewrite app_nil_r. do 2 f_equal. lia. }
  cbv zeta. rewrite Z.quot_div_nonneg, Z.rem_mod_nonneg by lia.
  pose proof (Z.mod_pos_bound cursor RAW_MDU ltac:(lia)) as Hin.
  pose proof (Z.div_mod cursor RAW_MDU ltac:(lia)) as Hdm.
  pose proof (Z.div_pos cursor RAW_MDU ltac:(lia) ltac:(lia)) as Hi0.
  destruct (Hfind (cursor / RAW_MDU)) as (mdu & -> & Hm); [split; apply Z.div_le_mono; lia|].
  revert Hin Hdm Hi0 Hm. generalize (cursor / RAW_MDU) (cursor mod RAW_MDU). intros i r Hin Hdm Hi0 Hm.
  rewrite (Number_exact r), floor_div_exact, Z.rem_mod_nonneg by (unfold safe, MAX_SAFE_INTEGER; lia).
  pose proof (Z.mod_pos_bound r RAW_BLOB_BYTES ltac:(lia)) as Ho.
  pose proof (Z.div_mod r RAW_BLOB_BYTES ltac:(lia)) as Hdb.
  assert (Hb : 0 <= r / RAW_BLOB_BYTES < 64) by (split; [apply Z.div_pos | apply Z.div_lt_upper_bound]; lia).
  revert Ho Hdb Hb. generalize (r / RAW_BLOB_BYTES) (r mod RAW_BLOB_BYTES). intros b off Ho Hdb Hb.
  assert (Hv : forall z, (if z <? RAW_BLOB_BYTES then z else RAW_BLOB_BYTES) = Z.min RAW_BLOB_BYTES z)
    by (intros z; destruct (Z.ltb_spec z RAW_BLOB_BYTES); lia).
  rewrite Hv, Htotal, (Number_exact (Z.min _ _)) by (unfold MAX_SAFE_INTEGER; lia).
  set (valid := Z.min _ _).
  assert (Hvalid : off < valid <= RAW_BLOB_BYTES) by (unfold valid; lia).
  assert (exists count, Number (if ws_end span - cursor <? valid - off then ws_end span - cursor
      else valid - off) = count /\ 0 < count <= ws_end span - cursor /\ off + count <= valid)
    as (count & -> & Hc & Hcv).
  { eexists; split; [reflexivity|]. rewrite Number_exact; repeat case_match; bool_to_prop;
      unfold MAX_SAFE_INTEGER; lia. }
  cbn [wm_bytes]. unfold valid. rewrite decode_witness_slice by (done || lia). cbn [bind].
  replace (i * RAW_MDU + b * RAW_BLOB_BYTES + off) with cursor by lia.
  rewrite (Number_exact (cursor - _)) by lia.
  assert (Hpre : blen (subarray W (ws_start span) cursor) = cursor - ws_start span) by (apply blen_subarray; lia).
  assert (Hx : blen (subarray W cursor (cursor + count)) = count) by (rewrite blen_subarray; lia).
  rewrite <- Hpre, set_at_zeros by lia. cbn [bind]. rewrite Hx, subarray_split by lia.
  replace (ws_end span - cursor - count) with (ws_end span - (cursor + count)) by lia. apply IH; lia.
Qed.
End read.

Lemma concat_blen (lists : list bytes) n :
  Forall (fun l => blen l = n) lists -> blen (concat lists) = Z.of_nat (length lists) * n.
Proof. induction 1 as [|l ls Hl _ IH]; cbn [concat length]; [done|]. rewrite blen_app. lia. Qed.

Lemma concat_piece (lists : list bytes) n (o : nat) own :
  0 <= n -> Forall (fun l => blen l = n) lists -> lists !! o = Some own ->
  subarray (concat lists) (Z.of_nat o * n) (Z.of_nat o * n + n) = own.
Proof.
  intros Hn Hall Ho. rewrite <- (take_drop_middle _ _ _ Ho), concat_app. cbn [concat].
  apply lookup_lt_Some in Ho as Hlt.
  assert (Hlen : blen (concat (take o lists)) = Z.of_nat o * n)
    by (rewrite (concat_blen _ n), length_take by (by apply Forall_take); lia).
  apply subarray_middle; [lia|]. rewrite Forall_forall in Hall. rewrite (Hall own); [lia|].
  by eapply list_elem_of_lookup_2.
Qed.

Lemma witnessMdu_size W i mdu : witnessMduBytes W i = Ok mdu -> blen mdu = 8388608.
Proof.
  intros Hm. unfold witnessMduBytes in Hm. cbv zeta in Hm.
  destruct (encodeToMdu_spec (subarray W (i * RAW_MDU) (Z.min (i * RAW_MDU + RAW_MDU) (blen W))))
    as (mdu' & He & Hl & _). rewrite He in Hm. apply Ok_inj in Hm as <-. by rewrite Hl.
Qed.

Lemma stripe_bound a c r k : 0 <= a < r -> 0 <= c < k -> 0 <= a * k + c < k * r.
Proof. nia. Qed.

(** The witness MDUs of a span, as the uploader wrote them. *)
Definition written_witness (W : bytes) (span : WitnessSpan) (witness : list WitnessMdu) : Prop :=
  Forall2 (fun w index => wm_index w = index /\ witnessMduBytes W (index - 1) = Ok (wm_bytes w))
    witness (ws_indices span).

Lemma written_witness_guard W span witness :
  written_witness W span witness ->
  length witness = length (ws_indices span)
  /\ existsb (fun '(w, index) => negb (wm_index w =? index) || negb (blen (wm_bytes w) =? 8388608))
       (zip witness (ws_indices span)) = false.
Proof.
  unfold written_witness. induction 1 as [|w index ws idx [Hw Hm] _ [IH1 IH2]]; cbn [length zip zip_with existsb]; [done|].
  split; [lia|]. apply witnessMdu_size in Hm. rewrite IH2, Hm, Hw, !Z.eqb_refl. done.
Qed.

Lemma written_witness_find pin ordinal W span witness i :
  witnessSpan pin ordinal = Ok span -> written_witness W span witness ->
  ws_start span / RAW_MDU <= i <= (ws_end span - 1) / RAW_MDU ->
  exists mdu, List.find (fun w => wm_index w =? i + 1) witness = Some {| wm_index := i + 1; wm_bytes := mdu |}
    /\ witnessMduBytes W i = Ok mdu.
Proof.
  intros (_ & _ & _ & _ & _ & _ & _ & first & last & Hf & Hl & Hle & Hidx)%witnessSpan_Ok Hw Hi.
  unfold written_witness in Hw. rewrite Hidx in Hw. rewrite <- Hf, <- Hl in Hi.
  assert (Hone : forall w, wm_index w = i + 1 -> witnessMduBytes W (i + 1 - 1) = Ok (wm_bytes w) ->
    exists mdu, Some w = Some {| wm_index := i + 1; wm_bytes := mdu |} /\ witnessMduBytes W i = Ok mdu).
  { intros [wi wb]. cbn. intros ->. rewrite Z.add_simpl_r. eauto. }
  destruct (Z.eqb_spec first last) as [->|Hne].
  - apply Forall2_cons_inv_r in Hw as (w & ws & [Hwi Hwm] & Hn & ->). apply Forall2_nil_inv_r in Hn as ->.
    assert (i = last) as -> by lia. cbn [List.find]. rewrite Hwi, Z.eqb_refl. by apply Hone.
  - apply Forall2_cons_inv_r in Hw as (w1 & ws & [Hwi1 Hwm1] & Hn & ->).
    apply Forall2_cons_inv_r in Hn as (w2 & ws' & [Hwi2 Hwm2] & Hn & ->). apply Forall2_nil_inv_r in Hn as ->.
    cbn [List.find]. rewrite Hwi1, Hwi2. destruct (Z.eqb_spec (first + 1) (i + 1)).
    + assert (i = first) as -> by lia. by apply Hone.
    + assert (i = last) as -> by lia. rewrite Z.eqb_refl. by apply Hone.
Qed.

(** ** The run of a recovery *)

(** The windows sessions were opened for, the shards that were fetched and verified,
    the MDUs rebuilt from them, the outputs flushed, and the lists confirmed. *)
Record rworld := {
  rw_opened : list RetrievalWindow; rw_fetched : list (RecoverySession * bytes);
  rw_rebuilt : list (list (option bytes) * bytes); rw_flushed : list bytes;
  rw_confirmed : list (list RecoverySession) }.

Definition fresh_rworld : rworld :=
  {| rw_opened := []; rw_fetched := []; rw_rebuilt := []; rw_flushed := []; rw_confirmed := [] |}.
Definition opened (l : list RetrievalWindow) (w : rworld) : rworld :=
  {| rw_opened := rw_opened w ++ l; rw_fetched := rw_fetched w; rw_rebuilt := rw_rebuilt w;
     rw_flushed := rw_flushed w; rw_confirmed := rw_confirmed w |}.
Definition fetched (s : RecoverySession) (bs : bytes) (w : rworld) : rworld :=
  {| rw_opened := rw_opened w; rw_fetched := rw_fetched w ++ [(s, bs)]; rw_rebuilt := rw_rebuilt w;
     rw_flushed := rw_flushed w; rw_confirmed := rw_confirmed w |}.
Definition rebuilt (shards : list (option bytes)) (bs : bytes) (w : rworld) : rworld :=
  {| rw_opened := rw_opened w; rw_fetched := rw_fetched w; rw_rebuilt := rw_rebuilt w ++ [(shards, bs)];
     rw_flushed := rw_flushed w; rw_confirmed := rw_confirmed w |}.
Definition flushed (bs : bytes) (w : rworld) : rworld :=
  {| rw_opened := rw_opened w; rw_fetched := rw_fetched w; rw_rebuilt := rw_rebuilt w;
     rw_flushed := rw_flushed w ++ [bs]; rw_confirmed := rw_confirmed w |}.
Definition confirmed (l : list RecoverySession) (w : rworld) : rworld :=
  {| rw_opened := rw_opened w; rw_fetched := rw_fetched w; rw_rebuilt := rw_rebuilt w;
     rw_flushed := rw_flushed w; rw_confirmed := rw_confirmed w ++ [l] |}.

(** What the environment may do: any effect may fail; one that fails to open has
    opened some first windows of the batch, and one that fails to flush or to confirm
    may have done it nevertheless. *)
Definition renv {X} (e : effect X) (w : rworld) (x : X) (w' : rworld) : Prop :=
  match e in effect Y return Y -> Prop with
  | CheckAbort => fun x => x <> Err OUT_OF_FUEL /\ w' = w
  | Open ws => fun x => x <> Err OUT_OF_FUEL
      /\ match x with Ok _ => w' = opened ws w | Err _ => exists n, w' = opened (take n ws) w end
  | FetchAndVerify s => fun x => x <> Err OUT_OF_FUEL
      /\ match x with Ok bs => w' = fetched s bs w | Err _ => w' = w end
  | Reconstruct shards => fun x => x <> Err OUT_OF_FUEL
      /\ match x with Ok bs => w' = rebuilt shards bs w | Err _ => w' = w end
  | ConsumeAndFlush bs => fun x => x <> Err OUT_OF_FUEL
      /\ match x with Ok _ => w' = flushed bs w | Err _ => w' = w \/ w' = flushed bs w end
  | Confirm l => fun x => x <> Err OUT_OF_FUEL
      /\ match x with Ok _ => w' = confirmed l w | Err _ => w' = w \/ w' = confirmed l w end
  end x.

(** Shard [slot] was fetched in session [s]. *)
Definition shard_of (pin : PinnedGeneration) (w : rworld) (shards : list (option bytes))
    (s : RecoverySession) (slot : nat) : Prop :=
  exists bs, shards !! slot = Some (Some bs) /\ (s, bs) ∈ rw_fetched w
    /\ blen bs = p_rows pin * 131072 /\ startBlobIndex (rs_window s) = Z.of_nat slot * p_rows pin
    /\ blobCount (rs_window s) = p_rows pin.

(** [l] are the sessions of the shards, one for each, of different slots. *)
Definition shards_from (pin : PinnedGeneration) (w : rworld) (shards : list (option bytes))
    (l : list RecoverySession) (slots : list nat) : Prop :=
  NoDup slots /\ Forall2 (shard_of pin w shards) l slots
  /\ forall i bs, shards !! i = Some (Some bs) -> i ∈ slots.

Record recovery_inv (pin : PinnedGeneration) (w : rworld) : Prop := {
  ri_opened : NoDup (map w_slot (rw_opened w));
  ri_confirmed : forall l, l ∈ rw_confirmed w ->
    Z.of_nat (length l) = p_k pin /\ exists shards bs slots, (shards, bs) ∈ rw_rebuilt w
      /\ bs ∈ rw_flushed w /\ shards_from pin w shards l slots }.

Section recovery.
Context (pin : PinnedGeneration).
Abbreviation rsafe := (safe_run (@renv) (recovery_inv pin)).

Lemma array_set_lookup {A} (l : list (option A)) i v j b :
  array_set l i v !! j = Some (Some b) <-> (j = i /\ b = v) \/ (j <> i /\ l !! j = Some (Some b)).
Proof.
  unfold array_set. case_decide as Hi.
  - rewrite list_lookup_insert_Some. split.
    + intros [(-> & [= ->] & _)|[Hne Hj]]; [by left | right; split; [by intros -> | done]].
    + intros [[-> ->]|[Hne Hj]]; [by left | right; split; [by intros -> | done]].
  - split.
    + intros [Hj|[Hge [[Hr _]%lookup_replicate|[Hge' Hj]]%lookup_app_Some]]%lookup_app_Some; [|done|].
      * right. split; [|done]. apply lookup_lt_Some in Hj. lia.
      * rewrite length_replicate in *. apply list_lookup_singleton_Some in Hj as [? [= ->]]. left. split; [lia|done].
    + intros [[-> ->]|[Hne Hj]].
      * rewrite lookup_app_r by lia. rewrite lookup_app_r by (rewrite length_replicate; lia).
        rewrite length_replicate, Nat.sub_diag. done.
      * by apply lookup_app_l_Some.
Qed.

Lemma shards_mono w w' shards l slots :
  rw_fetched w ⊆ rw_fetched w' -> shards_from pin w shards l slots -> shards_from pin w' shards l slots.
Proof.
  intros Hf (Hn & H2 & Hs). split_and!; [done | | done]. eapply Forall2_impl; [exact H2|].
  intros s slot (bs & Hb & Hin & Hrest). exists bs. split; [done|]. split; [by apply Hf | done].
Qed.

(** Only the fetched shards grow: the invariant stays. *)
Lemma inv_grow w w' :
  recovery_inv pin w -> rw_fetched w ⊆ rw_fetched w' -> rw_rebuilt w ⊆ rw_rebuilt w' ->
  rw_flushed w ⊆ rw_flushed w' -> rw_confirmed w' = rw_confirmed w -> NoDup (map w_slot (rw_opened w')) ->
  recovery_inv pin w'.
Proof.
  intros [Ho Hc] H1 H2 H3 H4 H5. constructor; [done|]. rewrite H4. intros l Hl.
  destruct (Hc l Hl) as (Hk & shards & bs & slots & Hr & Hf & Hs). split; [done|].
  exists shards, bs, slots. split_and!; [by apply H2 | by apply H3 | by eapply shards_mono].
Qed.

(** The collected shards and the windows that are left. *)
Definition collected_ok (w : rworld) (c : collected) (left : list RetrievalWindow) : Prop :=
  co_failure c <> Some OUT_OF_FUEL /\ exists slots, shards_from pin w (co_shards c) (co_accepted c) slots
    /\ forall x, x ∈ left -> 0 <= w_slot x /\ (Z.to_nat (w_slot x) ∉ slots)
         /\ startBlobIndex x = w_slot x * p_rows pin /\ blobCount x = p_rows pin.

Lemma collected_mono w w' c c' left left' :
  rw_fetched w ⊆ rw_fetched w' -> co_shards c' = co_shards c -> co_accepted c' = co_accepted c ->
  co_failure c' <> Some OUT_OF_FUEL -> left' ⊆ left -> collected_ok w c left -> collected_ok w' c' left'.
Proof.
  intros Hf Hs Ha Hm Hl (_ & slots & H & Hleft). split; [done|]. exists slots. rewrite Hs, Ha. split; [by eapply shards_mono|].
  intros x Hx. by apply Hleft, Hl.
Qed.

Lemma collected_add w c s x left bs :
  same_window s x = true -> blen bs = p_rows pin * 131072 -> NoDup (map w_slot (x :: left)) ->
  collected_ok w c (x :: left) ->
  collected_ok (fetched s bs w) (add_shard (w_slot x) bs s c) left.
Proof.
  intros Hsame Hlen Hnd (Hm & slots & (Hn & H2 & Hs) & Hleft). split; [done|]. cbn [map] in Hnd. apply NoDup_cons in Hnd as [Hx Hnd].
  destruct (Hleft x ltac:(left)) as (H0 & Hnotin & Hst & Hct).
  unfold same_window in Hsame. bool_to_prop.
  exists (slots ++ [Z.to_nat (w_slot x)]). split; [split_and!|].
  - apply NoDup_app. split_and!; [done | | apply NoDup_singleton].
    by intros y Hy ->%list_elem_of_singleton.
  - cbn [add_shard co_accepted co_shards]. apply Forall2_app.
    + apply Forall2_same_length_lookup_2; [by eapply Forall2_length|]. intros i s' slot Hs' Hslot.
      destruct (Forall2_lookup_lr _ _ _ _ _ _ H2 Hs' Hslot) as (bs' & Hb & Hin & Hrest). exists bs'.
      split; [|split; [apply elem_of_app; by left | done]]. apply array_set_lookup. right. split; [|done].
      intros ->. by apply Hnotin, (list_elem_of_lookup_2 _ _ _ Hslot).
    + apply Forall2_cons. split; [|done]. exists bs. rewrite Z2Nat.id by done.
      split_and!; [apply array_set_lookup; by left | apply elem_of_app; right; by left | done | lia | lia].
  - intros i b [[-> _]|[_ Hb]]%array_set_lookup; apply elem_of_app; [right; by left|]. left. by eapply Hs.
  - intros y Hy. destruct (Hleft y ltac:(by right)) as (? & ? & ? & ?). split_and!; try done.
    rewrite not_elem_of_app, list_elem_of_singleton. split; [done|]. intros Heq. apply Hx.
    apply list_elem_of_fmap. exists y. split; [lia | done].
Qed.
Lemma fetchLoop_safe l rest c w :
  recovery_inv pin w -> Forall (fun p => same_window p.1 p.2 = true) l ->
  NoDup (map w_slot (map snd l ++ rest)) -> collected_ok w c (map snd l ++ rest) ->
  rsafe (fun r w' =>
    match r with
    | Ok c' => collected_ok w' c' rest /\ rw_opened w' = rw_opened w /\ rw_confirmed w' = rw_confirmed w
        /\ (length (co_accepted c') <= length (co_accepted c) + length l)%nat
    | Err m => m <> OUT_OF_FUEL /\ rw_confirmed w' = rw_confirmed w
    end) (fetchLoop pin l c) w.
Proof.
  revert c w. induction l as [|[s x] l IH]; intros c w Hi Hsame Hnd Hc; cbn [fetchLoop].
  { apply safe_ret; [done|]. split_and!; try done. cbn. lia. }
  apply Forall_cons in Hsame as [Hsx Hsame]. cbn [fst snd map app] in *.
  pose proof Hnd as [_ Hnd']%NoDup_cons.
  assert (Hskip : forall m w', Err (A := unit) m <> Err OUT_OF_FUEL -> rw_fetched w ⊆ rw_fetched w' -> rw_opened w' = rw_opened w ->
    rw_confirmed w' = rw_confirmed w -> recovery_inv pin w' ->
    rsafe (fun r w' => match r with
      | Ok c' => collected_ok w' c' rest /\ rw_opened w' = rw_opened w /\ rw_confirmed w' = rw_confirmed w
          /\ (length (co_accepted c') <= length (co_accepted c) + length ((s, x) :: l))%nat
      | Err m => m <> OUT_OF_FUEL /\ rw_confirmed w' = rw_confirmed w end)
      (await CheckAbort (fun _ => fetchLoop pin l (set_failure m c))) w').
  { intros m w' Hm Hf Ho Hcf Hi'. apply safe_await; [done | |].
    - intros m' w'' [He ->]. split; [done|]. split; [by intros -> | done].
    - intros _ w'' [_ ->]. eapply safe_mono; [|apply IH; try done].
      + intros [c'|m'] w'' _; cbn [set_failure co_accepted length]; [|by rewrite Hcf].
        rewrite Ho, Hcf. intros (? & ? & ? & ?). split_and!; try done. lia.
      + eapply (collected_mono w _ c); [exact Hf | done | done | by intros [= ->] | | exact Hc]. intros y Hy. by right. }
  apply safe_await; [done | |].
  { intros m w' [He ->]. split; [done|]. split; [by intros -> | done]. }
  intros _ w1 [_ ->]. apply safe_vis; [done|]. intros [bs|m] w1 [He ->]; [|apply Hskip; try done; by intros [= ->]].
  assert (Hi' : recovery_inv pin (fetched s bs w)).
  { eapply inv_grow; [exact Hi | | done | done | done | by destruct Hi]. apply list_subseteq_app_l. done. }
  assert (Hf' : rw_fetched w ⊆ rw_fetched (fetched s bs w)) by (by apply list_subseteq_app_l).
  apply safe_vis; [done|]. intros [[]|m] w2 [Hne ->]; [|apply Hskip; try done; by intros [= ->]].
  destruct (Z.eqb_spec (blen bs) (p_rows pin * 131072)); cbn [negb]; [|by apply Hskip].
  eapply safe_mono; [|apply IH; [done | done | done | by apply collected_add]].
  intros [c'|m'] w2 _; [|done]. cbn [add_shard co_accepted fetched rw_opened rw_confirmed]. rewrite length_app.
  intros (? & ? & ? & ?). split_and!; try done. cbn [length] in *. lia.
Qed.

Lemma recoverLoop_safe fuel candidates c w :
  (length candidates <= fuel)%nat -> recovery_inv pin w -> rw_confirmed w = [] ->
  NoDup (map w_slot (rw_opened w ++ candidates)) ->
  collected_ok w c candidates ->
  rsafe (fun r w' => rw_confirmed w' = [] /\ match r with
    | Ok c' => collected_ok w' c' []
    | Err m => m <> OUT_OF_FUEL end) (recoverLoop fuel pin candidates c) w.
Proof.
  assert (Hdone : forall c candidates w, recovery_inv pin w -> rw_confirmed w = [] -> collected_ok w c candidates ->
    rsafe (fun r w' => rw_confirmed w' = [] /\ match r with
      | Ok c' => collected_ok w' c' []
      | Err m => m <> OUT_OF_FUEL end) (Ret (Ok c)) w).
  { intros c' l w' Hi' Hcf Hc. apply safe_ret; [done|]. split; [done|].
    eapply collected_mono; [| | | | | exact Hc]; [done | done | done | by destruct Hc | by intros x ?%elem_of_nil]. }
  revert candidates c w. induction fuel as [|fuel IH]; intros candidates c w Hfuel Hi Hcf Hnd Hc; cbn [recoverLoop].
  { destruct candidates; [|cbn in Hfuel; lia]. rewrite bool_decide_eq_true_2, andb_false_r by done. by eapply Hdone. }
  destruct (_ && _) eqn:Hgo; [|by eapply Hdone]. apply andb_true_iff in Hgo as [Hlt Hne]. bool_to_prop.
  set (n := (Z.to_nat (p_k pin) - length (co_accepted c))%nat).
  assert (Hn : (0 < n)%nat) by (unfold n; lia).
  apply safe_await; [done | intros m w' [He ->]; split; [done | split; [done | by intros ->]] |].
  intros _ w1 [_ ->].
  assert (Hsplit : take n candidates ++ drop n candidates = candidates) by apply take_drop.
  assert (Hopen : forall j, NoDup (map w_slot (rw_opened w ++ take j candidates))).
  { intros j. rewrite <- (take_drop j candidates), app_assoc, map_app in Hnd. by apply NoDup_app in Hnd as [? _]. }
  assert (Hinv : forall j, recovery_inv pin (opened (take j candidates) w)).
  { intros j. eapply inv_grow; [exact Hi | done | done | done | done | apply Hopen]. }
  apply safe_await; [done | |].
  { intros m w' [He (j & ->)]. rewrite take_take. split; [apply Hinv | split; [done | by intros ->]]. }
  intros sessions w1 [_ ->].
  destruct (_ || _) eqn:Hguard; [apply safe_ret; [apply Hinv | done]|].
  apply orb_false_iff in Hguard as [Hlen%negb_false_iff%Nat.eqb_eq Hsame].
  assert (Hsnd : map snd (zip sessions (take n candidates)) = take n candidates).
  { apply snd_zip. lia. }
  apply safe_call. eapply safe_mono; [|apply (fetchLoop_safe _ (drop n candidates))].
  - intros [c'|m] w' Hi' H; [|by destruct H as [? ->]]. destruct H as (Hc' & Ho & Hcf' & _).
    apply IH; [rewrite length_drop; destruct candidates; cbn in *; [done | lia] | done | by rewrite Hcf' | | done].
    rewrite Ho. cbn [opened rw_opened]. by rewrite <- app_assoc, Hsplit.
  - apply Hinv.
  - apply Forall_forall. intros p Hp. apply negb_false_iff.
    destruct (negb _) eqn:Hb; [|done]. rewrite <- Hsame. symmetry. apply existsb_exists. exists p.
    split; [by apply list_elem_of_In|]. by destruct p.
  - rewrite Hsnd, Hsplit. rewrite map_app in Hnd. by apply NoDup_app in Hnd as (_ & _ & ?).
  - rewrite Hsnd, Hsplit. eapply collected_mono; [| | | | | exact Hc]; [done | done | done | by destruct Hc | done].
Qed.

Lemma recovery_windows_from ordinal l : forall j,
  Forall (fun x => Z.of_nat j <= w_slot x /\ startBlobIndex x = w_slot x * p_rows pin /\ blobCount x = p_rows pin)
    (concat (imap (fun n => recoveryWindow pin ordinal (j + n)) l))
  /\ NoDup (map w_slot (concat (imap (fun n => recoveryWindow pin ordinal (j + n)) l))).
Proof.
  induction l as [|a l IH]; intros j; cbn [imap concat]; [split; constructor|].
  replace (imap ((fun n => recoveryWindow pin ordinal (j + n)) ∘ S) l)
    with (imap (fun n => recoveryWindow pin ordinal (S j + n)) l)
    by (apply imap_ext; intros; unfold compose; f_equal; lia).
  destruct (IH (S j)) as [IHf IHn]. rewrite Nat.add_0_r. unfold recoveryWindow at 1 3. destruct (active a); cbn [app].
  - split; [constructor; [cbn; lia|]|].
    + eapply Forall_impl; [exact IHf|]. cbn. intros x (? & ? & ?). split_and!; [lia | done | done].
    + cbn [map]. apply NoDup_cons. split; [|done]. cbn [w_slot]. intros (x & Hx & Hin)%list_elem_of_fmap.
      rewrite Forall_forall in IHf. destruct (IHf x Hin). lia.
  - split; [|done]. eapply Forall_impl; [exact IHf|]. cbn. intros x (? & ? & ?). split_and!; [lia | done | done].
Qed.

Lemma recoveryWindows_Ok ordinal ws :
  recoveryWindows pin ordinal = Ok ws ->
  Forall (fun x => 0 <= w_slot x /\ startBlobIndex x = w_slot x * p_rows pin /\ blobCount x = p_rows pin) ws
  /\ NoDup (map w_slot ws) /\ p_k pin <= Z.of_nat (length ws).
Proof.
  unfold recoveryWindows. intros H. ok_step H. ok_step H. apply Ok_inj in H as <-. bool_to_prop.
  destruct (recovery_windows_from ordinal (assignments pin) 0) as [Hf Hn]. cbn in Hf, Hn. split_and!; [exact Hf | exact Hn | lia].
Qed.

Lemma recoveryWindows_fuel ordinal : recoveryWindows pin ordinal <> Err OUT_OF_FUEL.
Proof. unfold recoveryWindows, witnessSpan. repeat (case_match; cbn [bind]); done. Qed.

(** Confirming after a flush of what was rebuilt from the accepted shards. *)
Lemma inv_confirm w c bs slots :
  Z.of_nat (length (co_accepted c)) = p_k pin -> recovery_inv pin w ->
  shards_from pin w (co_shards c) (co_accepted c) slots ->
  recovery_inv pin (confirmed (co_accepted c) (flushed bs (rebuilt (co_shards c) bs w))).
Proof.
  intros Hk [Ho Hc] Hs. constructor; [exact Ho|]. cbn [confirmed flushed rebuilt rw_confirmed rw_rebuilt rw_flushed].
  intros l [Hl|Hl]%elem_of_app; [|apply list_elem_of_singleton in Hl as ->].
  - destruct (Hc l Hl) as (Hlen & shards & bs' & slots' & Hr & Hf & Hs'). split; [done|].
    exists shards, bs', slots'. split_and!; [apply elem_of_app; by left | apply elem_of_app; by left | done].
  - split; [done|]. exists (co_shards c), bs, slots.
    split_and!; [apply elem_of_app; right; by left | apply elem_of_app; right; by left | done].
Qed.

Lemma finish_safe w c slots :
  recovery_inv pin w -> rw_confirmed w = [] -> Z.of_nat (length (co_accepted c)) = p_k pin ->
  shards_from pin w (co_shards c) (co_accepted c) slots ->
  rsafe (fun r w => r <> Err OUT_OF_FUEL
    /\ forall bs, r = Ok bs -> bs ∈ rw_flushed w /\ rw_confirmed w = [co_accepted c])
    (await (Reconstruct (co_shards c)) (fun bs =>
     await CheckAbort (fun _ =>
     await (ConsumeAndFlush bs) (fun _ =>
     await CheckAbort (fun _ =>
     await (Confirm (co_accepted c)) (fun _ => Ret (Ok bs))))))) w.
Proof.
  intros Hi Hcf Hk Hs.
  assert (Hr : forall bs, recovery_inv pin (rebuilt (co_shards c) bs w)).
  { intros bs. eapply inv_grow; [exact Hi | done | apply list_subseteq_app_l; done | done | done | by destruct Hi]. }
  assert (Hfl : forall bs, recovery_inv pin (flushed bs (rebuilt (co_shards c) bs w))).
  { intros bs. eapply inv_grow; [exact (Hr bs) | done | done | apply list_subseteq_app_l; done | done | by destruct Hi]. }
  apply safe_await; [done | intros m w' [He ->]; split_and!; [done | by intros [= ->] | done] |].
  intros bs w1 [_ ->].
  apply safe_await; [done | intros m w' [He ->]; split_and!; [done | by intros [= ->] | done] |].
  intros _ w1 [_ ->].
  apply safe_await; [done | intros m w' [He [->| ->]]; split_and!; try done; by intros [= ->] |].
  intros _ w1 [_ ->].
  apply safe_await; [done | intros m w' [He ->]; split_and!; [done | by intros [= ->] | done] |].
  intros _ w1 [_ ->].
  pose proof (inv_confirm _ _ bs _ Hk Hi Hs) as Hconf.
  apply safe_await; [done | intros m w' [He [->| ->]]; split_and!; try done; by intros [= ->] |].
  intros _ w1 [_ ->]. apply safe_ret; [done|]. split; [done|]. intros bs' <-%Ok_inj.
  cbn [confirmed flushed rebuilt rw_flushed rw_confirmed]. rewrite Hcf.
  split; [apply elem_of_app; right; by left | done].
Qed.

Lemma recoverRetrievalMdu_safe ordinal :
  rsafe (fun r w => r <> Err OUT_OF_FUEL
    /\ forall bs, r = Ok bs -> bs ∈ rw_flushed w /\ exists l, rw_confirmed w = [l])
    (recoverRetrievalMdu pin ordinal) fresh_rworld.
Proof.
  assert (Hi0 : recovery_inv pin fresh_rworld) by (constructor; [constructor | by intros l ?%elem_of_nil]).
  unfold recoverRetrievalMdu. destruct (recoveryWindows pin ordinal) as [ws|m] eqn:Hws; last first.
  { apply safe_ret; [done|]. split; [|done]. intros [= ->]. by apply recoveryWindows_fuel in Hws. }
  apply recoveryWindows_Ok in Hws as (Hf & Hn & _).
  apply safe_call. eapply safe_mono; [|apply recoverLoop_safe; [done | done | done | done |]].
  - intros [c|m] w Hi [Hcf H]; [|split; [by intros [= ->] | done]]. destruct H as (Hm & slots & Hs & _).
    destruct (Z.eqb_spec (Z.of_nat (length (co_accepted c))) (p_k pin)) as [Hk|]; cbn [negb].
    + eapply safe_mono; [|by eapply finish_safe]. intros r w' _ [Hr Hok]. split; [done|].
      intros bs ->. destruct (Hok bs eq_refl). split; [done | by eexists].
    + apply safe_ret; [done|]. split; [|done].
      destruct (co_failure c); cbn [default]; [by intros [= ->] | done].
  - split; [done|]. exists []. split; [split_and!; [constructor | constructor |]|].
    + intros i bs Hl. cbn in Hl. by apply lookup_replicate in Hl as [? _].
    + intros x Hx. rewrite Forall_forall in Hf. destruct (Hf x Hx) as (? & ? & ?).
      split_and!; try done. apply not_elem_of_nil.
Qed.
End recovery.

(** ** Honest providers *)

(** An environment without aborts, where sessions are opened for the windows asked for
    and, of the slots, those with a [good] first blob answer with a whole shard and the
    others do not. *)
Definition live_env (pin : PinnedGeneration) (good : Z -> bool) {X} (e : effect X) (w : rworld)
    (x : X) (w' : rworld) : Prop :=
  renv e w x w' /\
  match e in effect Y return Y -> Prop with
  | CheckAbort => fun x => x = Ok tt
  | Open ws => fun x => exists ss, x = Ok ss /\ Forall2 (fun s y => same_window s y = true) ss ws
  | FetchAndVerify s => fun x =>
      good (startBlobIndex (rs_window s)) = true
      <-> exists bs, x = Ok bs /\ blen bs = p_rows pin * 131072
  | Reconstruct _ => fun x => is_ok x = true
  | ConsumeAndFlush _ => fun x => is_ok x = true
  | Confirm _ => fun x => is_ok x = true
  end x.

Definition first_blobs (l : list RecoverySession) : list Z := map (fun s => startBlobIndex (rs_window s)) l.

Section live.
Context (pin : PinnedGeneration) (good : Z -> bool).
Abbreviation lsafe := (safe_run (@live_env pin good) (fun _ => True)).
Abbreviation good_of := (List.filter good).

Lemma same_window_start s x : same_window s x = true -> startBlobIndex (rs_window s) = startBlobIndex x.
Proof. unfold same_window. intros H. bool_to_prop. lia. Qed.

Lemma live_abort {A} (Q : result A -> rworld -> Prop) k w :
  lsafe Q (k tt) w -> lsafe Q (await CheckAbort k) w.
Proof. intros H. apply safe_vis; [done|]. by intros x w' [[_ ->] ->]. Qed.

Lemma fetchLoop_live l c w :
  Forall (fun p => same_window p.1 p.2 = true) l ->
  lsafe (fun r w' => rw_confirmed w' = rw_confirmed w /\ exists c', r = Ok c'
    /\ first_blobs (co_accepted c')
       = first_blobs (co_accepted c) ++ good_of (map (fun p => startBlobIndex p.2) l)) (fetchLoop pin l c) w.
Proof.
  revert c w. induction l as [|[s x] l IH]; intros c w Hsame; cbn [fetchLoop].
  { apply safe_ret; [done|]. split; [done|]. exists c. split; [done|]. by rewrite app_nil_r. }
  apply Forall_cons in Hsame as [Hsx%same_window_start Hsame]. cbn [fst snd map List.filter] in *.
  apply live_abort, safe_vis; [done|]. intros r w1 [[_ Hw] Hgood]. rewrite Hsx in Hgood.
  assert (Hcf : rw_confirmed w1 = rw_confirmed w) by (by destruct r; subst w1).
  destruct (good (startBlobIndex x)) eqn:Hg.
  - destruct (proj1 Hgood eq_refl) as (bs & -> & Hlen). apply safe_vis; [done|]. intros a w2 [[_ ->] ->].
    rewrite Hlen, Z.eqb_refl. cbn [negb]. eapply safe_mono; [|by apply IH]. cbn [add_shard co_accepted].
    intros r w2 _ [Hc (c' & -> & Hb)]. split; [by rewrite Hc|]. exists c'. split; [done|]. rewrite Hb.
    unfold first_blobs. rewrite map_app, <- app_assoc. cbn. by rewrite Hsx.
  - assert (Hskip : forall m, lsafe (fun r w' => rw_confirmed w' = rw_confirmed w /\ exists c', r = Ok c'
      /\ first_blobs (co_accepted c') = first_blobs (co_accepted c) ++ good_of (map (fun p => startBlobIndex p.2) l))
      (await CheckAbort (fun _ => fetchLoop pin l (set_failure m c))) w1).
    { intros m. apply live_abort. eapply safe_mono; [|by apply IH]. cbn [set_failure co_accepted].
      intros r' w2 _ [Hc Hr]. split; [by rewrite Hc | done]. }
    destruct r as [bs|m]; [|apply Hskip]. apply safe_vis; [done|]. intros a w2 [[_ ->] ->].
    destruct (Z.eqb_spec (blen bs) (p_rows pin * 131072)); cbn [negb]; [|apply Hskip].
    exfalso. by assert (false = true) by (apply Hgood; eauto).
Qed.

Lemma open_matches (ss : list RecoverySession) ws :
  Forall2 (fun s y => same_window s y = true) ss ws ->
  length ss = length ws /\ existsb (fun '(s, w) => negb (same_window s w)) (zip ss ws) = false
  /\ Forall (fun p => same_window p.1 p.2 = true) (zip ss ws)
  /\ map (fun p => startBlobIndex p.2) (zip ss ws) = map startBlobIndex ws.
Proof.
  induction 1 as [|s y ss ws Hs _ (IH1 & IH2 & IH3 & IH4)]; cbn; [done|].
  rewrite Hs, IH2, IH4, IH1. split_and!; try done. by constructor.
Qed.

Lemma recoverLoop_live fuel candidates c w :
  (length candidates <= fuel)%nat -> (length (co_accepted c) <= Z.to_nat (p_k pin))%nat ->
  lsafe (fun r w' => rw_confirmed w' = rw_confirmed w /\ exists c', r = Ok c'
    /\ first_blobs (co_accepted c')
       = take (Z.to_nat (p_k pin)) (first_blobs (co_accepted c) ++ good_of (map startBlobIndex candidates)))
    (recoverLoop fuel pin candidates c) w.
Proof.
  revert candidates c w. induction fuel as [|fuel IH]; intros candidates c w Hfuel Hle; cbn [recoverLoop].
  { destruct candidates; [|cbn in Hfuel; lia]. rewrite bool_decide_eq_true_2, andb_false_r by done.
    apply safe_ret; [done|]. split; [done|]. exists c. split; [done|]. cbn. rewrite app_nil_r, take_ge; [done|].
    unfold first_blobs. rewrite length_map. lia. }
  destruct (_ && _) eqn:Hgo; last first.
  { apply safe_ret; [done|]. split; [done|]. exists c. split; [done|]. unfold first_blobs.
    apply andb_false_iff in Hgo as [Hge%Z.ltb_ge|Hnil].
    - rewrite take_app_le, take_ge; rewrite ?length_map; [done | lia | lia].
    - apply negb_false_iff, bool_decide_eq_true in Hnil as ->. cbn. rewrite app_nil_r, take_ge; [done|].
      rewrite length_map. lia. }
  apply andb_true_iff in Hgo as [Hlt Hne]. bool_to_prop.
  set (n := (Z.to_nat (p_k pin) - length (co_accepted c))%nat). apply live_abort.
  apply safe_vis; [done|]. intros r w1 [[_ Hw] (ss & -> & H2)]. cbn in Hw. subst w1.
  destruct (open_matches _ _ H2) as (Hlen & Hex & Hall & Hstarts). rewrite Hlen, Nat.eqb_refl, Hex. cbn [negb orb].
  apply safe_call. eapply safe_mono; [|by apply fetchLoop_live]. intros r w1 _ [Hc (c' & -> & Hb)]. rewrite Hstarts in Hb.
  pose proof (List.filter_length_le good (map startBlobIndex (take n candidates))) as Hfl.
  rewrite length_map, length_take in Hfl. pose proof (f_equal length Hb) as Hlb. unfold first_blobs in Hlb.
  rewrite length_app, !length_map in Hlb.
  eapply safe_mono; [|apply IH].
  - intros r w2 _ [Hc2 (c2 & -> & Hb2)]. split; [by rewrite Hc2, Hc|]. exists c2. split; [done|].
    rewrite Hb2, Hb, <- app_assoc, <- List.filter_app, <- map_app, take_drop. done.
  - rewrite length_drop. destruct candidates; [done|]. cbn in *. lia.
  - lia.
Qed.
End live.

(** The commitments that recovery reads are the ones the uploader wrote: for the
    witness lists of all user MDUs, packed one after the other into witness MDUs,
    [readUserCommitments] on the witness MDUs of an ordinal's span, one or two of
    them, terminates within its fuel and returns that ordinal's own list, when its
    root is the one in the root table. *)
Lemma readUserCommitments_spec commit_root pin ordinal span lists own root witness userCell :
  witnessSpan pin ordinal = Ok span ->
  Z.of_nat (length lists) = userMdus pin -> Forall (fun l => blen l = commitmentBytes pin) lists ->
  lists !! Z.to_nat ordinal = Some own ->
  written_witness (fullWitnessData lists) span witness ->
  commit_root own = Ok root -> assertPolyfsRootCell root userCell = Ok tt ->
  readUserCommitments commit_root pin ordinal witness userCell = Ok own.
Proof.
  intros Hs Hlen Hall Hown Hw Hroot Hcell. unfold readUserCommitments. rewrite Hs. cbn [bind].
  destruct (written_witness_guard _ _ _ Hw) as [-> ->]. rewrite Z.eqb_refl. cbn [negb orb].
  pose proof (commitmentBytes_bound _ _ _ Hs) as Hcb.
  pose proof (witnessSpan_Ok _ _ _ Hs) as (_ & Ho & _ & Ht & _ & Hst & He & _).
  unfold fullWitnessData in Hw. pose proof (concat_blen _ _ Hall) as HW.
  pose proof (readLoop_spec (concat lists) span witness ltac:(nia) ltac:(nia) ltac:(nia)
    ltac:(unfold MAX_SAFE_INTEGER; lia) (fun i => written_witness_find _ _ _ _ _ i Hs Hw)
    (Z.to_nat (commitmentBytes pin)) (ws_start span) ltac:(lia) ltac:(lia)) as Hr.
  replace (subarray (concat lists) (ws_start span) (ws_start span)) with (@nil Z) in Hr
    by (unfold subarray; by rewrite Z.sub_diag).
  cbn [app] in Hr. replace (ws_end span - ws_start span) with (commitmentBytes pin) in Hr by lia.
  rewrite Hr. cbn [bind].
  replace (subarray (concat lists) (ws_start span) (ws_end span)) with own.
  - rewrite Hroot. cbn [bind]. by rewrite Hcell.
  - rewrite He, Hst, <- (Z2Nat.id ordinal) by lia. symmetry. by apply concat_piece; [lia| |].
Qed.

(** ** Calls of a reader *)

(** A reader is called again before an earlier call ended: the calls that are under way
    share the cache. *)
Record readers := { rd_calls : list (Effects.prog reader_effect (result bytes)); rd_cache : cache }.

Section reader.
(** [auth cell bs]: [bs] is a witness MDU that verification against [cell] returns. *)
Context (pin : PinnedGeneration) (roots : bytes) (auth : bytes -> bytes -> Prop).

Definition reader_env {X} (e : reader_effect X) (c : cache) (x : X) (c' : cache) : Prop :=
  match e in reader_effect Y return Y -> Prop with
  | Lookup index => fun x => (x, c') = cache_lookup c index
  | Keep index bs => fun _ => c' = cache_keep c index bs
  | VerifyWitness _ cell => fun x => c' = c /\ match x with Ok bs => auth cell bs | Err _ => True end
  | RCheckAbort => fun _ => c' = c
  | Fetch _ => fun _ => c' = c
  | ReadCommitments _ _ _ => fun _ => c' = c
  end x.

Inductive reader_step : readers -> readers -> Prop :=
| reader_call ordinal calls c :
    reader_step {| rd_calls := calls; rd_cache := c |}
      {| rd_calls := calls ++ [readOrdinal pin roots ordinal]; rd_cache := c |}
| reader_advance i p p' calls c c' :
    calls !! i = Some p -> exec_step (@reader_env) (p, c) (p', c') ->
    reader_step {| rd_calls := calls; rd_cache := c |} {| rd_calls := <[i := p']> calls; rd_cache := c' |}.

Definition fresh_readers : readers := {| rd_calls := []; rd_cache := [] |}.

Definition entry_ok (index : Z) (bs : bytes) : Prop := auth (rootCell roots index) bs /\ blen bs = 8388608.

Definition cache_ok (c : cache) : Prop :=
  (length c <= 2)%nat /\ NoDup c.*1 /\ forall index bs, (index, bs) ∈ c -> entry_ok index bs.

(** A request for commitments gives the worker the verified witness MDUs of its span. *)
Definition request_ok (ordinal : Z) (witness : list WitnessMdu) (cell : bytes) : Prop :=
  cell = rootCell roots (metadataMdus pin + ordinal) /\ exists span, witnessSpan pin ordinal = Ok span
    /\ Forall2 (fun w index => wm_index w = index /\ entry_ok index (wm_bytes w)) witness (ws_indices span).

Definition asks {X} (e : reader_effect X) : Prop :=
  match e with
  | Keep index bs => entry_ok index bs
  | ReadCommitments ordinal witness cell => request_ok ordinal witness cell
  | _ => True
  end.
Definition gets {X} (e : reader_effect X) (x : X) : Prop :=
  match e in reader_effect Y return Y -> Prop with
  | Lookup index => fun x => forall bs, x = Some bs -> entry_ok index bs
  | VerifyWitness _ cell => fun x => match x with Ok bs => auth cell bs | Err _ => True end
  | _ => fun _ => True
  end x.
Fixpoint call_ok {A} (p : Effects.prog reader_effect A) : Prop :=
  match p with
  | Ret _ => True
  | Vis e k => asks e /\ forall x, gets e x -> call_ok (k x)
  end.

Lemma mdelete_ok c (k : Z) :
  NoDup c.*1 -> NoDup (mdelete c k).*1 /\ (k ∉ (mdelete c k).*1)
  /\ (length (mdelete c k) <= length c)%nat /\ (forall p : Z * bytes, p ∈ mdelete c k -> p ∈ c)
  /\ (k ∈ c.*1 -> (length (mdelete c k) < length c)%nat).
Proof.
  intros Hnd. unfold mdelete. split_and!.
  - eapply sublist_NoDup; [exact Hnd|]. apply fmap_sublist, sublist_filter.
  - intros ([k' v] & -> & Hin)%list_elem_of_fmap. by apply list_elem_of_filter in Hin as [? _].
  - apply length_filter.
  - intros p Hp. by apply list_elem_of_filter in Hp as [_ ?].
  - intros ([k' v] & -> & Hin)%list_elem_of_fmap. apply (length_filter_lt _ _ (k', v)); [done|]. by intros Hne.
Qed.

Lemma touch_ok c index bs :
  NoDup c.*1 -> (index ∈ c.*1 \/ length c < 2)%nat -> (length c <= 2)%nat ->
  (forall i b, (i, b) ∈ c -> entry_ok i b) -> entry_ok index bs -> cache_ok (cache_touch c index bs).
Proof.
  intros Hnd Hroom Hlen Hall He. destruct (mdelete_ok c index Hnd) as (Hn & Hnotin & Hle & Hsub & Hlt).
  unfold cache_touch. rewrite mset_keys_absent by done. split_and!.
  - rewrite length_app. cbn. destruct Hroom as [Hin|]; [specialize (Hlt Hin)|]; lia.
  - rewrite fmap_app. apply NoDup_app. split_and!; [done | | apply NoDup_singleton].
    cbn. by intros x Hx ->%list_elem_of_singleton.
  - intros i b [Hin|Hin]%elem_of_app; [by apply Hall, Hsub|].
    by apply list_elem_of_singleton in Hin as [= -> ->].
Qed.

Lemma lookup_ok c index : cache_ok c ->
  cache_ok (cache_lookup c index).2 /\ gets (Lookup index) (cache_lookup c index).1.
Proof.
  intros (Hlen & Hnd & Hall). unfold cache_lookup. destruct (mget c index) as [bs|] eqn:Hg; cbn.
  - pose proof (mget_Some_elem _ _ _ Hg) as Hin. split; [|intros ? [= <-]; by apply Hall].
    apply touch_ok; [done | | done | done | by apply Hall]. left. apply list_elem_of_fmap. by exists (index, bs).
  - by split.
Qed.

Lemma keep_ok c index bs : cache_ok c -> entry_ok index bs -> cache_ok (cache_keep c index bs).
Proof.
  intros (Hlen & Hnd & Hall) He. unfold cache_keep. cbv zeta.
  destruct (Nat.eqb_spec (length c) 2) as [H2|]; [|apply touch_ok; try done; right; lia].
  destruct c as [|[k v] c]; [done|]. destruct (mdelete_ok ((k, v) :: c) k Hnd) as (Hn & _ & Hle & Hsub & Hlt).
  specialize (Hlt ltac:(by left)). apply touch_ok; [done | right; lia | lia | | done].
  intros i b Hin. by apply Hall, Hsub.
Qed.

Lemma collectWitness_ok {A} indices witness (k : list WitnessMdu -> Effects.prog reader_effect (result A)) :
  (forall l, Forall2 (fun w index => wm_index w = index /\ entry_ok index (wm_bytes w)) l indices ->
     call_ok (k (witness ++ l))) ->
  call_ok (call (collectWitness roots indices witness) k).
Proof.
  revert witness. induction indices as [|index indices IH]; intros witness Hk; cbn.
  { specialize (Hk [] ltac:(constructor)). by rewrite app_nil_r in Hk. }
  assert (Hnext : forall bs, entry_ok index bs ->
    call_ok (call (collectWitness roots indices (witness ++ [{| wm_index := index; wm_bytes := bs |}])) k)).
  { intros bs Hb. apply IH. intros l Hl. rewrite <- app_assoc. apply Hk. by constructor. }
  split; [done|]. intros [[]|m] _; [|by cbn]. split; [done|]. intros [bs|] Hg; [by apply Hnext, Hg|].
  split; [done|]. intros [fetched_|m] _; [|by cbn]. split; [done|]. intros [bs|m] Ha; [|by cbn].
  destruct (Z.eqb_spec (blen bs) 8388608); cbn [negb]; [|by cbn]. cbn in Ha. split; [by split|]. intros [] _. by apply Hnext.
Qed.

Lemma readOrdinal_ok ordinal : call_ok (readOrdinal pin roots ordinal).
Proof.
  unfold readOrdinal. destruct (witnessSpan pin ordinal) as [span|m] eqn:Hs; [|done].
  apply collectWitness_ok. intros l Hl. cbn [app]. split; [done|]. intros [[]|m] _; [|by cbn].
  split; [|by cbn]. split; [done|]. by exists span.
Qed.

Definition readers_ok (r : readers) : Prop := cache_ok (rd_cache r) /\ Forall call_ok (rd_calls r).

Lemma answer_ok {X} (e : reader_effect X) c x c' :
  cache_ok c -> asks e -> reader_env e c x c' -> cache_ok c' /\ gets e x.
Proof.
  intros Hc Ha He. destruct e; cbn in He; try (by subst c').
  - destruct (lookup_ok c index Hc) as [H1 H2]. rewrite <- He in H1, H2. by split.
  - subst c'. split; [by apply keep_ok | done].
  - by destruct He as [-> ?].
Qed.

Lemma reader_step_ok r r' : reader_step r r' -> readers_ok r -> readers_ok r'.
Proof.
  intros [ordinal calls c|i p p' calls c c' Hp Hstep] [Hc Hall]; cbn in *.
  - split; [done|]. apply Forall_app. split; [done|]. apply Forall_singleton, readOrdinal_ok.
  - pose proof (Forall_lookup_1 _ _ _ _ Hall Hp) as Hok. unfold exec_step in Hstep. cbn [fst snd] in Hstep.
    destruct p as [a|X e k]; [done|]. destruct Hstep as (x & He & ->). destruct Hok as [Hasks Hk].
    destruct (answer_ok _ _ _ _ Hc Hasks He) as [Hc' Hg]. split; [done|]. cbn. apply Forall_insert; [done | by apply Hk].
Qed.

Lemma readers_reach r : rtc reader_step fresh_readers r -> readers_ok r.
Proof.
  intros Hr. eapply rtc_preserves; [intros ? ? ?; by apply reader_step_ok | exact Hr |].
  split; [|constructor]. split_and!; [cbn; lia | constructor | by intros ? ? ?%elem_of_nil].
Qed.
End reader.

Lemma live_env_total pin good X (e : effect X) w :
  0 <= p_rows pin -> exists x w', live_env pin good e w x w'.
Proof.
  intros Hrows. destruct e as [|ws|s|shards|bs|l].
  - by exists (Ok tt), w.
  - exists (Ok (map (fun y => {| rs_sessionId := ""; rs_window := y |}) ws)), (opened ws w). split; [done|].
    eexists; split; [done|]. induction ws as [|y ws IH]; cbn; constructor; [|exact IH].
    unfold same_window. cbn. rewrite !Z.eqb_refl, bool_decide_eq_true_2 by done. done.
  - destruct (good (startBlobIndex (rs_window s))) eqn:Hg.
    + exists (Ok (zeros (p_rows pin * 131072))), (fetched s (zeros (p_rows pin * 131072)) w).
      split; [done|]. cbn. rewrite Hg. split; [|done]. intros _. eexists. split; [done|]. apply blen_zeros. lia.
    + exists (Err "unavailable"), w. split; [done|]. cbn. rewrite Hg. split; [done | by intros (? & ? & _)].
  - by exists (Ok []), (rebuilt shards [] w).
  - by exists (Ok tt), (flushed bs w).
  - by exists (Ok tt), (confirmed l w).
Qed.

Lemma finish_live pin good w c :
  safe_run (@live_env pin good) (fun _ => True)
    (fun r w' => (exists bs, r = Ok bs) /\ rw_confirmed w' = rw_confirmed w ++ [co_accepted c])
    (await (Reconstruct (co_shards c)) (fun bs =>
     await CheckAbort (fun _ =>
     await (ConsumeAndFlush bs) (fun _ =>
     await CheckAbort (fun _ =>
     await (Confirm (co_accepted c)) (fun _ => Ret (Ok bs))))))) w.
Proof.
  apply safe_vis; [done|]. intros [bs|m] w1 [[_ Hw1] Hx]; [|done]. cbn in Hw1. subst w1. apply live_abort.
  apply safe_vis; [done|]. intros [[]|m] w1 [[_ Hw1] Hy]; [|done]. cbn in Hw1. subst w1. apply live_abort.
  apply safe_vis; [done|]. intros [[]|m] w1 [[_ Hw1] Hz]; [|done]. cbn in Hw1. subst w1.
  apply safe_ret; [done|]. split; [by eexists | done].
Qed.

(** The outcome of a recovery when the slots with first blobs [answering] answer. *)
Definition recovery_outcome (pin : PinnedGeneration) (answering : list Z) (r : result bytes) (w : rworld) : Prop :=
  if p_k pin <=? Z.of_nat (length answering)
  then (exists bs, r = Ok bs) /\ exists l, rw_confirmed w = [l]
       /\ first_blobs l = take (Z.to_nat (p_k pin)) answering
  else (exists m, r = Err m) /\ rw_confirmed w = [].

Lemma recoverRetrievalMdu_live pin good ordinal candidates :
  0 < p_k pin -> recoveryWindows pin ordinal = Ok candidates ->
  safe_run (@live_env pin good) (fun _ => True)
    (recovery_outcome pin (List.filter good (map startBlobIndex candidates)))
    (recoverRetrievalMdu pin ordinal) fresh_rworld.
Proof.
  intros Hk Hws. unfold recoverRetrievalMdu. rewrite Hws. set (answering := List.filter _ _). apply safe_call.
  eapply safe_mono; [|apply recoverLoop_live; cbn [co_accepted length]; lia].
  intros r' w' _ [Hcf (c & -> & Hb)]. cbn [co_accepted first_blobs map app] in Hb. fold answering in Hb.
  assert (Hlen : length (co_accepted c) = (Z.to_nat (p_k pin) `min` length answering)%nat).
  { rewrite <- length_take, <- Hb. unfold first_blobs. by rewrite length_map. }
  unfold recovery_outcome. destruct (Z.leb_spec (p_k pin) (Z.of_nat (length answering))).
  - replace (Z.of_nat (length (co_accepted c)) =? p_k pin) with true by lia. cbn [negb].
    eapply safe_mono; [|apply finish_live]. intros r'' w'' _ [Hok Hc]. split; [done|].
    exists (co_accepted c). rewrite Hc, Hcf. by split.
  - replace (Z.of_nat (length (co_accepted c)) =? p_k pin) with false by lia. cbn [negb].
    apply safe_ret; [done|]. split; [by eexists | by rewrite Hcf].
Qed.

Lemma span_indices_bound pin ordinal span index :
  witnessSpan pin ordinal = Ok span -> index ∈ ws_indices span -> 1 <= index < metadataMdus pin.
Proof.
  destruct raw_sizes as [HM HB]. intros Hs Hin. pose proof (commitmentBytes_bound _ _ _ Hs) as Hcb.
  apply witnessSpan_Ok in Hs as (_ & Ho & _ & Ht & Hfit & Hst & He & first & last & Hf & Hl & Hle & Hidx).
  assert (0 <= first) by (subst first; apply Z.div_pos; nia).
  assert (last < metadataMdus pin - 1) by (subst last; apply Z.div_lt_upper_bound; nia).
  rewrite Hidx in Hin. destruct (first =? last); repeat (apply elem_of_cons in Hin as [->|Hin]; [lia|]);
    by apply elem_of_nil in Hin.
Qed.

(** ** Theorems *)

(** A recovered MDU is accepted exactly when its length and that of the list of
    commitments are right and every one of the 64 commitments of the data slots, in
    the slot-major order of the list, is the commitment of the blob of the MDU that
    striping puts there: row [l mod rows] of slot [l / rows]. *)
Theorem recovered_mdu_checked commit pin bs commitments :
  0 < p_k pin -> p_k pin * p_rows pin = 64 ->
  verifyRecoveredMdu commit pin bs commitments = Ok tt <->
  blen bs = 8388608 /\ blen commitments = commitmentBytes pin
  /\ forall l, 0 <= l < 64 ->
       let blob := (l mod p_rows pin) * p_k pin + l / p_rows pin in
       commit (subarray bs (blob * 131072) ((blob + 1) * 131072))
       = Ok (subarray commitments (l * 48) ((l + 1) * 48)).
Proof.
  intros Hk Hrk. assert (Hr : 0 < p_rows pin) by nia. unfold verifyRecoveredMdu.
  set (body := fun blob => _).
  assert (Hbody : forall b, 0 <= b < 64 -> body b = Ok tt <->
    commit (subarray bs (b * 131072) ((b + 1) * 131072))
    = Ok (subarray commitments ((b mod p_k pin * p_rows pin + b / p_k pin) * 48)
                    ((b mod p_k pin * p_rows pin + b / p_k pin + 1) * 48))).
  { intros b Hb. unfold body. rewrite Z.rem_mod_nonneg, floor_div_exact by (unfold safe, MAX_SAFE_INTEGER; lia).
    destruct (commit _) as [c|m]; cbn [bind]; [|by split].
    destruct (equal c _) eqn:He; cbn [negb].
    - apply equal_iff in He as ->. by split.
    - split; [done|]. intros Hc%Ok_inj. by rewrite (proj2 (equal_iff _ _) Hc) in He. }
  destruct (Z.eqb_spec (blen bs) 8388608); cbn [negb orb]; [|split; [done | by intros [? _]]].
  destruct (Z.eqb_spec (blen commitments) (commitmentBytes pin)); cbn [negb]; [|split; [done | by intros (_ & ? & _)]].
  rewrite for_range_Ok. split.
  - intros H. split_and!; [done | done |]. intros l Hl. cbv zeta.
    assert (0 <= l / p_rows pin < p_k pin) by (split; [apply Z.div_pos | apply Z.div_lt_upper_bound]; lia).
    pose proof (Z.mod_pos_bound l _ Hr).
    pose proof (stripe_bound (l mod p_rows pin) (l / p_rows pin) (p_rows pin) (p_k pin)).
    set (b := l mod p_rows pin * p_k pin + l / p_rows pin) in *.
    rewrite (proj1 (Hbody b ltac:(lia)) (H b ltac:(lia))). unfold b. rewrite mod_base, div_base by lia.
    replace (l / p_rows pin * p_rows pin + l mod p_rows pin) with l by div_lia_linear. done.
  - intros (_ & _ & H) b Hb. apply Hbody; [lia|].
    assert (0 <= b / p_k pin < p_rows pin) by (split; [apply Z.div_pos | apply Z.div_lt_upper_bound]; lia).
    pose proof (Z.mod_pos_bound b _ Hk).
    pose proof (stripe_bound (b mod p_k pin) (b / p_k pin) (p_k pin) (p_rows pin)).
    specialize (H (b mod p_k pin * p_rows pin + b / p_k pin) ltac:(lia)). cbv zeta in H.
    rewrite mod_base, div_base in H by lia.
    replace (b / p_k pin * p_k pin + b mod p_k pin) with b in H by div_lia_linear. done.
Qed.

(** C21: At every point of a run, whatever fails in it: no slot of the MDU has two sessions
    opened by the run, and sessions are confirmed only in the list of exactly [k] whose shards, of
    different slots, were each fetched, verified and of full size, and only after the
    MDU that was rebuilt from just these shards has been flushed.  A run that returns
    has flushed what it returns and confirmed once; the loops never run out of fuel. *)
Theorem recovery_confirms_durable pin ordinal p w :
  rtc (exec_step (@renv)) (recoverRetrievalMdu pin ordinal, fresh_rworld) (p, w) ->
  recovery_inv pin w
  /\ forall r, p = Ret r -> r <> Err OUT_OF_FUEL
     /\ forall bs, r = Ok bs -> bs ∈ rw_flushed w /\ exists l, rw_confirmed w = [l].
Proof.
  intros Hr. pose proof (safe_run_exec _ _ _ _ _ _ _ Hr (recoverRetrievalMdu_safe pin ordinal)) as Hs.
  split; [by eapply safe_run_inv|]. intros r ->. by destruct Hs as [_ Hs].
Qed.

(** C27: Recovery succeeds exactly when it can: with providers of which the [good] slots
    answer and the others do not, a run comes to its end, and every run that ends
    returns the MDU if at least [k] active slots are good, having confirmed the first
    [k] good ones in the order of the assignments, and otherwise fails having
    confirmed nothing. *)
Theorem recovery_completes pin good ordinal candidates :
  0 < p_k pin -> 0 <= p_rows pin -> recoveryWindows pin ordinal = Ok candidates ->
  (exists r w, rtc (exec_step (@live_env pin good)) (recoverRetrievalMdu pin ordinal, fresh_rworld) (Ret r, w))
  /\ forall r w, rtc (exec_step (@live_env pin good)) (recoverRetrievalMdu pin ordinal, fresh_rworld) (Ret r, w) ->
     recovery_outcome pin (List.filter good (map startBlobIndex candidates)) r w.
Proof.
  intros Hk Hrows Hws. split; [apply exec_total; intros; by apply live_env_total|].
  intros r w Hr. by destruct (safe_run_exec _ _ _ _ _ _ _ Hr (recoverRetrievalMdu_live _ good _ _ Hk Hws)).
Qed.

(** However many calls of a commitment reader overlap, its cache never holds more than
    two witness MDUs, each under its own index, and every one of them, as well as every
    witness MDU handed on with a request, is of full size and passed verification
    against the root-table cell of its index; a request carries exactly the witness MDUs
    of the span of its ordinal, in order, and the cell of its own MDU. *)
Theorem reader_cache_bounded pin roots auth r :
  rtc (reader_step pin roots auth) fresh_readers r ->
  cache_ok roots auth (rd_cache r)
  /\ forall ordinal witness cell k, Vis (ReadCommitments ordinal witness cell) k ∈ rd_calls r ->
       request_ok pin roots auth ordinal witness cell.
Proof.
  intros [Hc Hall]%readers_reach. split; [done|]. intros ordinal witness cell k Hin.
  rewrite Forall_forall in Hall. by destruct (Hall _ Hin).
Qed.

(** C34: From the uploader's lists to the reader's answer: for witness lists written as
    FileSharder writes them, when verification against a cell of the root table
    returns only the witness MDU that was written there, [readUserCommitments], which the
    worker runs on every request a reader makes, returns the list of the ordinal the
    reader was called for, whatever calls overlap and whatever providers sent. *)
Theorem reader_serves_written_commitments commit_root pin roots auth lists r ordinal witness cell k own root :
  (forall index bs, 1 <= index < metadataMdus pin -> auth (rootCell roots index) bs ->
     witnessMduBytes (fullWitnessData lists) (index - 1) = Ok bs) ->
  Z.of_nat (length lists) = userMdus pin -> Forall (fun l => blen l = commitmentBytes pin) lists ->
  rtc (reader_step pin roots auth) fresh_readers r ->
  Vis (ReadCommitments ordinal witness cell) k ∈ rd_calls r ->
  lists !! Z.to_nat ordinal = Some own -> commit_root own = Ok root ->
  assertPolyfsRootCell root (rootCell roots (metadataMdus pin + ordinal)) = Ok tt ->
  readUserCommitments commit_root pin ordinal witness cell = Ok own.
Proof.
  intros Hbind Hlen Hall [_ Hok]%readers_reach Hin Hown Hroot Hcell.
  rewrite Forall_forall in Hok. destruct (Hok _ Hin) as [(-> & span & Hs & H2) _].
  eapply readUserCommitments_spec; try done.
  unfold written_witness. assert (Hidx := fun index => span_indices_bound _ _ _ index Hs).
  revert Hidx H2. generalize (ws_indices span) witness. clear -Hbind. intros indices. induction indices as [|index indices IH];
    intros witness Hidx H2; [by apply Forall2_nil_inv_r in H2 as ->|].
  apply Forall2_cons_inv_r in H2 as (w & ws & [Hw [Ha _]] & H2 & ->). constructor.
  - split; [done|]. apply Hbind; [apply Hidx; by left | done].
  - apply IH; [|done]. intros i Hi. apply Hidx. by right.
Qed.

(** ** Examples *)

Definition sample_own : bytes := replicate 3840 7.
Definition sample_lists : list bytes := [zeros 3840; sample_own; zeros 3840].
Definition sample_roots : bytes := zeros 128.
Definition sample_candidates : list RetrievalWindow :=
  match recoveryWindows sample_pin 1 with Ok l => l | Err _ => [] end.

Lemma sample_candidates_ok : recoveryWindows sample_pin 1 = Ok sample_candidates.
Proof. by vm_compute. Qed.

Lemma subarray_zeros n a b : 0 <= a <= b -> b <= n -> subarray (zeros n) a b = zeros (b - a).
Proof.
  intros. apply bytes_ext.
  - rewrite blen_subarray, blen_zeros; rewrite ?blen_zeros; lia.
  - rewrite blen_subarray by (rewrite ?blen_zeros; lia). intros i Hi. by rewrite get_subarray, !get_zeros by lia.
Qed.

Lemma recovered_mdu_checked_witness :
  verifyRecoveredMdu (fun _ => Ok (zeros 48)) sample_pin (zeros 8388608) (zeros 3840) = Ok tt.
Proof.
  apply (recovered_mdu_checked (fun _ => Ok (zeros 48)) sample_pin (zeros 8388608) (zeros 3840) eq_refl eq_refl).
  split; [apply blen_zeros; lia|]. split; [apply (blen_zeros 3840); lia|].
  intros l Hl. rewrite subarray_zeros by lia. by replace ((l + 1) * 48 - l * 48) with 48 by lia.
Defined.

Lemma live_exec_renv {A} pin good (c c' : prog A * rworld) :
  rtc (exec_step (@live_env pin good)) c c' -> rtc (exec_step (@renv)) c c'.
Proof.
  apply rtc_subrel. intros [[a|X e k] w] [p' w'] H; [done|]. destruct H as (x & [He _] & ?). by exists x.
Qed.

(** A run in which slot 0 does not answer. *)
Definition sample_good (blob : Z) : bool := negb (blob =? 0).

Lemma sample_recovery_run :
  exists bs w, rtc (exec_step (@renv)) (recoverRetrievalMdu sample_pin 1, fresh_rworld) (Ret (Ok bs), w).
Proof.
  destruct (exec_total (@live_env sample_pin sample_good) (recoverRetrievalMdu sample_pin 1) fresh_rworld)
    as (r & w & Hr); [intros; apply live_env_total; by vm_compute|].
  destruct (safe_run_exec _ _ _ _ _ _ _ Hr
    (recoverRetrievalMdu_live sample_pin sample_good 1 _ eq_refl sample_candidates_ok)) as [_ [[bs ->] _]].
  exists bs, w. by apply live_exec_renv in Hr.
Qed.

Lemma recovery_confirms_durable_witness :
  exists bs w, recovery_inv sample_pin w /\ bs ∈ rw_flushed w /\ exists l, rw_confirmed w = [l].
Proof.
  destruct sample_recovery_run as (bs & w & Hr). exists bs, w.
  destruct (recovery_confirms_durable _ _ _ _ Hr) as [Hi Hret]. split; [exact Hi|].
  destruct (Hret _ eq_refl) as [_ Hok]. exact (Hok bs eq_refl).
Defined.

Lemma recovery_completes_witness :
  exists bs w l, rtc (exec_step (@live_env sample_pin sample_good))
      (recoverRetrievalMdu sample_pin 1, fresh_rworld) (Ret (Ok bs), w)
    /\ rw_confirmed w = [l] /\ first_blobs l = [8; 16; 24; 32; 40; 48; 56; 64].
Proof.
  destruct (recovery_completes sample_pin sample_good 1 sample_candidates eq_refl ltac:(by vm_compute) sample_candidates_ok)
    as [(r & w & Hr) Hout]. destruct (Hout r w Hr) as [[bs ->] (l & Hl & Hb)]. exists bs, w, l. split; [exact Hr|].
  split; [exact Hl|]. rewrite Hb. vm_compute. reflexivity.
Defined.

Definition sample_request (mdu : bytes) : readers :=
  {| rd_calls := [Vis (ReadCommitments 1 [{| wm_index := 1; wm_bytes := mdu |}] (rootCell sample_roots 3)) Ret];
     rd_cache := [(1, mdu)] |}.

Lemma reader_first pin roots auth {X} (e : reader_effect X) k x c c' :
  reader_env auth e c x c' ->
  reader_step pin roots auth {| rd_calls := [Vis e k]; rd_cache := c |} {| rd_calls := [k x]; rd_cache := c' |}.
Proof. intros H. apply (reader_advance _ _ _ 0 (Vis e k) (k x) [Vis e k] c c'); [done|]. by exists x. Qed.

Lemma sample_span :
  witnessSpan sample_pin 1 = Ok {| ws_total := 11520; ws_start := 3840; ws_end := 7680; ws_indices := [1] |}.
Proof. by vm_compute. Qed.

Lemma sample_reader_run mdu :
  blen mdu = 8388608 ->
  rtc (reader_step sample_pin sample_roots (fun _ bs => bs = mdu)) fresh_readers (sample_request mdu).
Proof.
  intros Hm. eapply rtc_l; [apply (reader_call _ _ _ 1)|]. unfold readOrdinal. rewrite sample_span.
  unfold call, await. cbn [app ws_indices collectWitness pbind]. unfold await. cbn [pbind].
  eapply rtc_l; [by apply (reader_first _ _ _ _ _ (Ok tt))|]. cbn [pbind].
  eapply rtc_l; [by apply (reader_first _ _ _ _ _ None)|]. cbn [pbind].
  eapply rtc_l; [by apply (reader_first _ _ _ _ _ (Ok []))|]. cbn [pbind].
  eapply rtc_l; [by apply (reader_first _ _ _ _ _ (Ok mdu))|]. cbn [pbind]. rewrite Hm, Z.eqb_refl. cbn [negb pbind].
  eapply rtc_l; [by apply (reader_first _ _ _ _ _ tt)|]. cbn [app pbind].
  eapply rtc_l; [by apply (reader_first _ _ _ _ _ (Ok tt))|]. apply rtc_refl.
Qed.

Lemma sample_mdu_written :
  exists mdu, witnessMduBytes (fullWitnessData sample_lists) 0 = Ok mdu /\ blen mdu = 8388608.
Proof.
  unfold witnessMduBytes. cbv zeta. set (d := subarray _ _ _).
  destruct (encodeToMdu_spec d) as (mdu & Hm & Hl & _). exists mdu. exact (conj Hm Hl).
Qed.

Lemma reader_cache_bounded_witness :
  exists mdu, cache_ok sample_roots (fun _ bs => bs = mdu) (rd_cache (sample_request mdu))
    /\ request_ok sample_pin sample_roots (fun _ bs => bs = mdu) 1 [{| wm_index := 1; wm_bytes := mdu |}]
         (rootCell sample_roots 3).
Proof.
  destruct sample_mdu_written as (mdu & _ & Hm). exists mdu.
  destruct (reader_cache_bounded _ _ _ _ (sample_reader_run mdu Hm)) as [Hc Hr]. split; [exact Hc|].
  eapply Hr. left.
Defined.

Lemma reader_serves_written_commitments_witness :
  exists mdu, witnessMduBytes (fullWitnessData sample_lists) 0 = Ok mdu
    /\ readUserCommitments (fun _ => Ok (zeros 32)) sample_pin 1 [{| wm_index := 1; wm_bytes := mdu |}]
         (rootCell sample_roots 3) = Ok sample_own.
Proof.
  destruct sample_mdu_written as (mdu & Hw & Hm). exists mdu. split; [exact Hw|].
  apply (reader_serves_written_commitments (fun _ => Ok (zeros 32)) sample_pin sample_roots (fun _ bs => bs = mdu)
           sample_lists (sample_request mdu) 1 _ _ Ret sample_own (zeros 32)).
  - intros index bs Hi ->. cbn in Hi. replace (index - 1) with 0 by lia. exact Hw.
  - reflexivity.
  - by repeat constructor.
  - exact (sample_reader_run mdu Hm).
  - left.
  - reflexivity.
  - reflexivity.
  - by vm_compute.
Defined.
