(* ===== verification/Wire.v ===== *)
(** * Retrieval answers and their verification

    Models src/polystore-website/src/lib/retrievalWire.ts: the envelopes of both versions
    ([parseRetrievalEnvelope], [parseRetrievalEnvelopeV3], with [parseWindowProof] and
    [parseIntegrityPath]), the batch of proofs that goes to the core library
    ([encodeSessionBatch]), and the checks of what a provider sent
    ([verifyRetrievalWindow], [verifyRetrievalMetadata], [verifyRetrievalMetadataV3]).
    The multipart reader is Multipart.v; [verifyRetrievalDataV3] is in V3Chunks.v.

    The operations of the core library that the source takes as an argument are the class
    [RetrievalCrypto]. *)

From S2P Require Import Prelude JsMap JsNumber JsBytes JsString JsText Encoding Layout Windows Pinned Canonical.
From S2P Require Import Response Multipart Sessions V3Chunks V3Parse FileTable Recovery.
Local Open Scope Z_scope.

(** [RetrievalCrypto], [ChallengeCrypto] and [verify_fat_v3_header] of [RetrievalV3Crypto] *)
Class RetrievalCrypto := {
  commit_received_blob : bytes -> result bytes;
  compute_mdu_root : bytes -> result bytes;
  verify_polyfs_session_batch : bytes -> result bool;
  challenge_context_hash : bytes -> result bytes;
  derive_challenges : bytes -> bytes -> result bytes;
  verify_fat_v3_header : bytes -> bytes -> Z -> result Z }.

Record WindowProof := {
  wp_mdu : Z; wp_blob : Z; wp_root : bytes; wp_rootCommitment : bytes; wp_rootOpening : bytes;
  wp_commitment : bytes; wp_z : bytes; wp_y : bytes; wp_opening : bytes;
  wp_rootPath : list bytes; wp_blobPath : list bytes }.
Record RetrievalEnvelope := { re_bytes : bytes; re_proofs : list WindowProof }.

(** ** Parsing *)

Definition exactKeys (object : fields) (keys : list string) : result unit :=
  throw_if existsb (fun key => negb (bool_decide (key ∈ keys))) (map fst object) with "unknown response field" else Ok tt.

(** [while (count > 1)] *)
Fixpoint depthLoop (fuel : nat) (index count depth : Z) : Z :=
  match fuel with
  | O => depth
  | S fuel =>
      if 1 <? count then
        depthLoop fuel (index / 2) ((count + 1) / 2) (if Z.lxor index 1 <? count then depth + 1 else depth)
      else depth
  end.
Definition pathDepth (index count : Z) : Z := depthLoop (Z.to_nat count) index count 0.

Definition merklePath (value : unknown) (len : Z) : result (list bytes) :=
  match value with
  | Some (JArr l) =>
      throw_if negb (Z.of_nat (length l) =? len) with "invalid Merkle path length" else
      mapR (fun v => base64Of (Some v) 32) l
  | _ => Err "invalid Merkle path length"
  end.

Definition WINDOW_PROOF_KEYS : list string :=
  ["mdu_index"; "blob_index"; "mdu_root_fr"; "root_table_du_commitment"; "manifest_opening"; "blob_commitment"; "z_value";
   "y_value"; "kzg_opening_proof"; "root_table_du_merkle_path"; "merkle_path"].

Definition parseWindowProof (value : json) (leafCount : Z) : result WindowProof :=
  let! p := record (Some value) in
  let! _ := exactKeys p WINDOW_PROOF_KEYS in
  let! mdu := uint (mget p "mdu_index") 65536 in
  let! blob := uint (match mget p "blob_index" with None => Some (JNum (int 0)) | v => v end) (leafCount - 1) in
  throw_if mdu =? 0 with "invalid proof MDU" else
  let! root := base64Of (mget p "mdu_root_fr") 32 in
  let! rootCommitment := base64Of (mget p "root_table_du_commitment") 48 in
  let! rootOpening := base64Of (mget p "manifest_opening") 48 in
  let! commitment := base64Of (mget p "blob_commitment") 48 in
  let! z := base64Of (mget p "z_value") 32 in
  let! y := base64Of (mget p "y_value") 32 in
  let! opening := base64Of (mget p "kzg_opening_proof") 48 in
  let! rootPath := merklePath (mget p "root_table_du_merkle_path") 6 in
  let! blobPath := merklePath (mget p "merkle_path") (pathDepth blob leafCount) in
  Ok {| wp_mdu := mdu; wp_blob := blob; wp_root := root; wp_rootCommitment := rootCommitment; wp_rootOpening := rootOpening;
        wp_commitment := commitment; wp_z := z; wp_y := y; wp_opening := opening; wp_rootPath := rootPath;
        wp_blobPath := blobPath |}.

Definition ENVELOPE_KEYS : list string :=
  ["version"; "session_id"; "context_hash"; "manifest_root"; "start_mdu_index"; "start_blob_index"; "blob_count";
   "total_bytes"; "proofs"].

(** [unhex] of a value that need not be a string *)
Definition unhexOf (value : unknown) (length : Z) : result bytes :=
  match value with
  | Some (JStr s) => unhex s length
  | _ => Err "invalid canonical hex"
  end.

Definition parseIntegrityPath (value : unknown) : result (list bytes) :=
  match value with
  | Some (JArr l) =>
      throw_if 23 <? Z.of_nat (length l) with "invalid v3 integrity path" else
      mapR (fun sibling => unhexOf (Some sibling) 32) l
  | _ => Err "invalid v3 integrity path"
  end.

Section envelopes.
Context (json_parse : bytes -> result json) (formData : bytes -> string -> result (list (string * FormValue))).

(** [aborted]: the signal is aborted when the answer has been read. *)
Definition parseRetrievalEnvelope (response : Response) (session : FrozenSession) (aborted : bool) : result RetrievalEnvelope :=
  let window := fz_window session in
  let expectedBytes := blobCount window * BLOB_SIZE_BYTES in
  let! parsed := parseMultipartRetrieval json_parse formData response 2 (int expectedBytes) aborted in
  let! m := record (Some parsed.1) in
  let! _ := exactKeys m ENVELOPE_KEYS in
  let mismatch := "response does not match frozen session"%string in
  let! version := uint (mget m "version") U32_MAX in
  throw_if negb (version =? 2) || negb (is_str (mget m "session_id") (fz_sessionId session))
           || negb (is_str (mget m "context_hash") (hex (fz_contextHash session)))
           || negb (is_str (mget m "manifest_root") (p_root (fz_pin session))) with mismatch else
  let! startMdu := u64 (mget m "start_mdu_index") in
  throw_if negb (startMdu =? mduIndex window) with mismatch else
  let! startBlob := uint (mget m "start_blob_index") U32_MAX in
  throw_if negb (startBlob =? startBlobIndex window) with mismatch else
  let! blobs := u64 (mget m "blob_count") in
  throw_if negb (blobs =? blobCount window) with mismatch else
  let! total := u64 (mget m "total_bytes") in
  throw_if negb (total =? expectedBytes) with mismatch else
  match mget m "proofs" with
  | Some (JArr proofs) =>
      throw_if negb (Z.of_nat (length proofs) =? blobCount window) with mismatch else
      let! proofs := mapR (fun p => parseWindowProof p (p_leafCount (fz_pin session))) proofs in
      Ok {| re_bytes := parsed.2; re_proofs := proofs |}
  | _ => Err mismatch
  end.

Definition ENVELOPE_V3_KEYS : list string :=
  ["version"; "session_id"; "context_hash"; "polyfs_root"; "integrity_root"; "slot"; "mdu_index"; "start_blob_index";
   "blob_count"; "total_bytes"; "entries"].

Definition parseEntryV3 (raw : json) (expected : EntryAuthority) : result EnvelopeEntry :=
  let! entry := record (Some raw) in
  let! _ := exactKeys entry ["t"; "mdu_index"; "leaf_index"; "integrity_position"; "integrity_path"]%string in
  let mismatch := "v3 entry does not match frozen authority"%string in
  let! t := u64 (mget entry "t") in
  throw_if negb (t =? e_t expected) with mismatch else
  let! mdu := u64 (mget entry "mdu_index") in
  throw_if negb (mdu =? e_mduIndex expected) with mismatch else
  let! leaf := uint (mget entry "leaf_index") 95 in
  throw_if negb (leaf =? e_leafIndex expected) with mismatch else
  let! position := u64 (mget entry "integrity_position") in
  throw_if negb (position =? e_integrityPosition expected) with mismatch else
  let! path := parseIntegrityPath (mget entry "integrity_path") in
  Ok {| ee_entry := expected; ee_integrityPath := path |}.

Definition parseRetrievalEnvelopeV3 (response : Response) (authority : ChunkAuthority) (aborted : bool) : result EnvelopeV3 :=
  let! _ := validateV3ChunkAuthority authority in
  let count := Z.of_nat (length (c_entries authority)) in
  let expectedBytes := count * BLOB_SIZE_BYTES in
  let! parsed := parseMultipartRetrieval json_parse formData response 3 (int expectedBytes) aborted in
  let! m := record (Some parsed.1) in
  let! _ := exactKeys m ENVELOPE_V3_KEYS in
  let mismatch := "response does not match frozen v3 authority"%string in
  let! version := uint (mget m "version") U32_MAX in
  throw_if negb (version =? 3) || negb (is_str (mget m "session_id") (c_sessionId authority)) with mismatch else
  let! contextHash := unhexOf (mget m "context_hash") 32 in
  throw_if negb (equal contextHash (c_contextHash authority))
           || negb (is_str (mget m "polyfs_root") (g_polyfsRoot (c_authority authority)))
           || negb (is_str (mget m "integrity_root") (g_integrityRoot (c_authority authority))) with mismatch else
  let! slot := uint (mget m "slot") 7 in
  throw_if negb (slot =? c_slot authority) with mismatch else
  let! mdu := u64 (mget m "mdu_index") in
  throw_if negb (mdu =? c_mduIndex authority) with mismatch else
  let! start := uint (mget m "start_blob_index") 95 in
  throw_if negb (start =? c_startBlobIndex authority) with mismatch else
  let! blobs := u64 (mget m "blob_count") in
  throw_if negb (blobs =? count) with mismatch else
  let! total := u64 (mget m "total_bytes") in
  throw_if negb (total =? expectedBytes) with mismatch else
  match mget m "entries" with
  | Some (JArr raws) =>
      throw_if negb (Z.of_nat (length raws) =? count) with mismatch else
      let! entries := mapR (fun '(raw, expected) => parseEntryV3 raw expected) (zip raws (c_entries authority)) in
      Ok {| env_bytes := parsed.2; env_entries := entries |}
  | _ => Err mismatch
  end.
End envelopes.

(** ** The batch of proofs *)

(** The array that is written, and the offset. *)
Definition Writer : Type := bytes * Z.
Definition write (v : bytes) (w : Writer) : result Writer :=
  let! out := set_at w.1 v w.2 in Ok (out, w.2 + blen v).
Fixpoint write_all (l : list bytes) (w : Writer) : result Writer :=
  match l with
  | [] => Ok w
  | v :: l => let! w := write v w in write_all l w
  end.

Definition proofParts (p : WindowProof) : list bytes :=
  [be (wp_mdu p) 8; be (wp_blob p) 4; wp_root p; wp_rootCommitment p; wp_rootOpening p; wp_commitment p; wp_z p; wp_y p;
   wp_opening p; be (Z.of_nat (length (wp_rootPath p))) 2; be (Z.of_nat (length (wp_blobPath p))) 2]
  ++ wp_rootPath p ++ wp_blobPath p.

Definition batchHeader (count leafCount : Z) (root contextHash seed : bytes) : list bytes :=
  [TextEncoder_encode "PSB1"; be count 2; be leafCount 4; root; contextHash; seed].

Definition encodeSessionBatch (proofs : list WindowProof) (root contextHash seed : bytes) (leafCount : Z) : result bytes :=
  let count := Z.of_nat (length proofs) in
  throw_if (count =? 0) || (64 <? count) || negb (blen root =? 32) || negb (blen contextHash =? 32) || negb (blen seed =? 32)
           || (leafCount <? 64) || (16384 <? leafCount) with "invalid batch shape" else
  let size := 106 + foldl (fun n p => n + 304 + 32 * Z.of_nat (length (wp_rootPath p) + length (wp_blobPath p))) 0 proofs in
  throw_if 60522 <? size with "batch exceeds limit" else
  let! w := write_all (batchHeader count leafCount root contextHash seed ++ concat (map proofParts proofs)) (zeros size, 0) in
  throw_if negb (w.2 =? blen w.1) with "inconsistent batch encoding" else
  Ok w.1.

(** ** Verification *)

Section verification.
Context `{crypto : RetrievalCrypto}.

(** [envelope.proofs.forEach], from the [i]-th proof on *)
Fixpoint matchProofs (window : RetrievalWindow) (selected : bytes) (i : Z) (proofs : list WindowProof) : result unit :=
  match proofs with
  | [] => Ok tt
  | p :: proofs =>
      let offset := i * 60 in
      throw_if negb (getBigUint64 selected offset =? i) || negb (getBigUint64 selected (offset + 16) =? wp_mdu p)
               || negb (getUint32 selected (offset + 24) =? wp_blob p) || negb (wp_mdu p =? mduIndex window)
               || negb (wp_blob p =? startBlobIndex window + i)
               || negb (equal (subarray selected (offset + 28) (offset + 60)) (wp_z p))
        with "proof does not match selected challenge" else
      matchProofs window selected (i + 1) proofs
  end.

Fixpoint matchCommitments (bs : bytes) (i : Z) (proofs : list WindowProof) : result unit :=
  match proofs with
  | [] => Ok tt
  | p :: proofs =>
      let! commitment := commit_received_blob (subarray bs (i * BLOB_SIZE_BYTES) ((i + 1) * BLOB_SIZE_BYTES)) in
      throw_if negb (equal commitment (wp_commitment p)) with "received bytes do not match proof" else
      matchCommitments bs (i + 1) proofs
  end.

Definition verifyRetrievalWindow (session : FrozenSession) (envelope : RetrievalEnvelope) : result bytes :=
  let window := fz_window session in
  let notReady := "challenge not ready or mismatched"%string in
  match fz_seed session with
  | None => Err notReady
  | Some seed =>
      throw_if (fz_height session <? fz_openedHeight session + 2) || (fz_expiry session <? fz_height session)
               || negb (Z.of_nat (length (re_proofs envelope)) =? blobCount window)
               || negb (blen (re_bytes envelope) =? blobCount window * BLOB_SIZE_BYTES) with notReady else
      let! contextHash := challenge_context_hash (fz_context session) in
      throw_if negb (equal contextHash (fz_contextHash session)) with notReady else
      let! selected := derive_challenges (fz_context session) seed in
      throw_if negb (blen selected =? blobCount window * 60) with "incomplete challenge coverage" else
      let! _ := matchProofs window selected 0 (re_proofs envelope) in
      let! root := unhex (p_root (fz_pin session)) 32 in
      let! batch := encodeSessionBatch (re_proofs envelope) root (fz_contextHash session) seed (p_leafCount (fz_pin session)) in
      let! accepted := verify_polyfs_session_batch batch in
      throw_if negb accepted with "invalid retrieval proof" else
      let! _ := matchCommitments (re_bytes envelope) 0 (re_proofs envelope) in
      Ok (re_bytes envelope)
  end.

(** [records.some((r) => r.start_offset + r.size_bytes > capacity)] *)
Definition exceeds (capacity : Z) (records : list PolyfsFileRecord) : bool :=
  existsb (fun r => capacity <? fr_start_offset r + fr_size_bytes r) records.

Definition verifyRetrievalMetadata (bs : bytes) (pin : PinnedGeneration) : result (list PolyfsFileRecord) :=
  let! records := parsePolyfsRecordsFromMdu0 bs in
  let! commitments := commitLoop commit_received_blob bs 64 0 (zeros (64 * 48)) in
  let! root := compute_mdu_root commitments in
  throw_if negb (String.eqb (hex root) (p_root pin)) with "metadata does not match pinned generation" else
  throw_if exceeds (userMdus pin * RAW_MDU_CAPACITY_BYTES) records with "file extent exceeds pinned generation" else
  Ok records.

Definition verifyRetrievalMetadataV3 (bs : bytes) (authority : FrozenGenerationV3) : result (list PolyfsFileRecord) :=
  let! roots := validateV3GenerationAuthority authority in
  throw_if negb (blen bs =? MDU_SIZE_BYTES) with "invalid MDU0 size" else
  let! commitments := commitLoop commit_received_blob bs 64 0 (zeros (64 * 48)) in
  let! root := compute_mdu_root commitments in
  throw_if negb (equal root roots.1) with "metadata does not match frozen v3 generation" else
  let! header := readPolyfsFatRange bs (int 0) (int 128) in
  let! count := verify_fat_v3_header header roots.2 (g_integrityLeafCount authority) in
  let! records := parsePolyfsRecordsFromAuthenticatedMdu0 bs (int count) in
  throw_if exceeds (g_userMdus authority * RAW_MDU_CAPACITY_BYTES) records with "file extent exceeds frozen v3 generation" else
  Ok records.
End verification.
