(* ===== verification/WireProof.v ===== *)
(** * What a verified window is

    Theory of Wire.v.  The batch that the website writes is the batch that the core
    library reads, and never exceeds its limit; a window that is accepted consists of the
    blobs that were challenged, at the places and under the root that the session froze;
    and what an honest provider answers is accepted. *)

From S2P Require Import Prelude JsMap JsNumber JsBytes JsString JsText Utf8 Encoding Layout Windows Pinned.
From S2P Require Import Canonical Challenge FrField Curve Msm Kzg KzgProof RootTable SessionBatch BatchProof.
From S2P Require Import Response Multipart Sessions Agreement V3Chunks V3Agreement FileTable Recovery Wire.
Local Open Scope Z_scope.

#[local] Opaque be.

(** ** Paths *)

Lemma depth_siblings fuel index count depth : 0 <= count -> depthLoop fuel index count depth = siblingLoop fuel index count depth.
Proof.
  revert index count depth. induction fuel as [|fuel IH]; intros index count depth Hc; [done|]. cbn [depthLoop siblingLoop].
  destruct (1 <? count); [|done]. rewrite IH by div_lia_linear. f_equal. div_lia_linear.
Qed.

(** The website expects the path that the core library expects. *)
Lemma pathDepth_siblings index count : 0 <= index < count -> merkle_sibling_count index count = Ok (pathDepth index count).
Proof.
  intros Hi. unfold merkle_sibling_count, pathDepth. rewrite depth_siblings by lia.
  by rewrite (proj2 (Z.eqb_neq _ _)), (proj2 (Z.leb_gt _ _)) by lia.
Qed.

Lemma depth_bound k fuel index count depth : 0 <= k -> count <= 2 ^ k -> depth <= depthLoop fuel index count depth <= depth + k.
Proof.
  intros Hk. revert fuel index count depth. revert k Hk. apply (natlike_ind (fun k => forall fuel index count depth,
    count <= 2 ^ k -> depth <= depthLoop fuel index count depth <= depth + k)).
  - intros [|fuel] index count depth Hc; cbn [depthLoop]; [lia|]. rewrite (proj2 (Z.ltb_ge _ _)) by lia. lia.
  - intros k Hk IH [|fuel] index count depth Hc; cbn [depthLoop]; [lia|]. destruct (1 <? count) eqn:H1; [|lia].
    rewrite Z.pow_succ_r in Hc by lia.
    specialize (IH fuel (index / 2) ((count + 1) / 2) (if Z.lxor index 1 <? count then depth + 1 else depth) ltac:(div_lia_linear)).
    destruct (_ <? _) in IH |- *; lia.
Qed.

(** ** Parsed proofs *)

Record proof_wf (leafCount : Z) (p : WindowProof) : Prop := {
  pw_mdu : 1 <= wp_mdu p <= 65536;
  pw_blob : 0 <= wp_blob p < leafCount;
  pw_32 : Forall (fun l => blen l = 32) [wp_root p; wp_z p; wp_y p];
  pw_48 : Forall (fun l => blen l = 48) [wp_rootCommitment p; wp_rootOpening p; wp_commitment p; wp_opening p];
  pw_paths : Forall (fun l => blen l = 32) (wp_rootPath p ++ wp_blobPath p);
  pw_rootPath : Z.of_nat (length (wp_rootPath p)) = 6;
  pw_blobPath : Z.of_nat (length (wp_blobPath p)) = pathDepth (wp_blob p) leafCount }.

Lemma base64_length v n l : 0 <= n <= MAX_SAFE_INTEGER -> base64Of v n = Ok l -> blen l = n.
Proof. intros Hn H. by apply base64Of_bytes in H as (_ & _ & ?). Qed.

Lemma merklePath_Ok v len l : merklePath v len = Ok l -> Z.of_nat (length l) = len /\ Forall (fun x => blen x = 32) l.
Proof.
  unfold merklePath. destruct v as [[]|]; try done. intros H. ok_step H. bool_to_prop. apply mapR_Ok in H.
  split; [by rewrite <- (Forall2_length _ _ _ H)|]. clear Hg. induction H as [|x y l l' Hxy _ IH]; [constructor|]. constructor; [|exact IH].
  apply (base64_length _ 32 _) in Hxy; [done | unfold MAX_SAFE_INTEGER; lia].
Qed.

Lemma parseWindowProof_wf v leafCount p : parseWindowProof v leafCount = Ok p -> proof_wf leafCount p.
Proof.
  unfold parseWindowProof. intros H. do 14 ok_step H. apply Ok_inj in H as <-. bool_to_prop.
  assert (H32 : forall v l, base64Of v 32 = Ok l -> blen l = 32) by (intros ? ?; apply base64_length; unfold MAX_SAFE_INTEGER; lia).
  assert (H48 : forall v l, base64Of v 48 = Ok l -> blen l = 48) by (intros ? ?; apply base64_length; unfold MAX_SAFE_INTEGER; lia).
  repeat match goal with
  | H : base64Of _ 32 = Ok _ |- _ => apply H32 in H
  | H : base64Of _ 48 = Ok _ |- _ => apply H48 in H
  | H : uint _ _ = Ok _ |- _ => apply uint_bounds in H
  | H : merklePath _ _ = Ok _ |- _ => apply merklePath_Ok in H as [? ?]
  end.
  constructor; cbn [wp_mdu wp_blob wp_root wp_rootCommitment wp_rootOpening wp_commitment wp_z wp_y wp_opening wp_rootPath wp_blobPath];
    try lia; try done; try (by repeat constructor). by apply Forall_app.
Qed.

Lemma parsed_proofs_wf values proofs leafCount : mapR (fun v => parseWindowProof v leafCount) values = Ok proofs ->
  Forall (proof_wf leafCount) proofs /\ length values = length proofs.
Proof.
  intros H%mapR_Ok. split; [|by eapply Forall2_length]. induction H as [|v p vs ps Hv _ IH]; [constructor|].
  constructor; [by eapply parseWindowProof_wf | exact IH].
Qed.

(** ** The batch *)

Lemma write_all_spec parts : forall (out : bytes) n, blen (concat parts) <= n ->
  write_all parts (out ++ zeros n, blen out) = Ok ((out ++ concat parts) ++ zeros (n - blen (concat parts)), blen (out ++ concat parts)).
Proof.
  induction parts as [|v parts IH]; intros out n Hn; cbn [write_all concat] in *.
  - change (blen []) with 0. by rewrite Z.sub_0_r, app_nil_r.
  - rewrite blen_app in Hn. pose proof (blen_nonneg (concat parts)). unfold write. cbn [fst snd].
    rewrite set_at_zeros by lia. cbn [bind]. rewrite <- blen_app, IH by lia. rewrite <- !app_assoc, (blen_app v), Z.sub_add_distr. done.
Qed.

Definition proof_size (p : WindowProof) : Z := 304 + 32 * Z.of_nat (length (wp_rootPath p) + length (wp_blobPath p)).

Lemma concat_32 (l : list bytes) : Forall (fun x => blen x = 32) l -> blen (concat l) = 32 * Z.of_nat (length l).
Proof. induction 1 as [|x l Hx _ IH]; [done|]. cbn [concat length]. rewrite blen_app, Hx, IH. lia. Qed.

Lemma proofParts_length leafCount p : proof_wf leafCount p -> blen (concat (proofParts p)) = proof_size p.
Proof.
  intros [_ _ H32 H48 Hp _ _]. repeat match goal with H : Forall _ (_ :: _) |- _ => apply Forall_cons in H as [? H] end.
  unfold proofParts, proof_size. rewrite concat_app, blen_app, (concat_32 (wp_rootPath p ++ _)) by done. rewrite length_app. cbn [concat].
  rewrite !blen_app, !blen_be. change (blen []) with 0. lia.
Qed.

Lemma proof_size_bound leafCount p : leafCount <= 16384 -> proof_wf leafCount p -> 496 <= proof_size p <= 944.
Proof.
  intros Hl [_ Hb _ _ _ H6 Hd]. pose proof (depth_bound 14 (Z.to_nat leafCount) (wp_blob p) leafCount 0 ltac:(lia) ltac:(lia)).
  unfold pathDepth in Hd. unfold proof_size. lia.
Qed.

Lemma sizes_sum leafCount proofs n : leafCount <= 16384 -> Forall (proof_wf leafCount) proofs ->
  let size := foldl (fun n p => n + 304 + 32 * Z.of_nat (length (wp_rootPath p) + length (wp_blobPath p))) n proofs in
  size = n + blen (concat (concat (map proofParts proofs)))
  /\ n + 496 * Z.of_nat (length proofs) <= size <= n + 944 * Z.of_nat (length proofs).
Proof.
  intros Hl H. revert n. induction H as [|p proofs Hp _ IH]; intros n; cbn [foldl map concat length]; [change (blen []) with 0; lia|].
  rewrite concat_app, blen_app, (proofParts_length leafCount) by done. pose proof (proof_size_bound leafCount p Hl Hp) as Hs.
  destruct (IH (n + 304 + 32 * Z.of_nat (length (wp_rootPath p) + length (wp_blobPath p)))) as [-> Hb].
  unfold proof_size in *. lia.
Qed.

(** The bytes of a batch. *)
Definition batch_bytes (proofs : list WindowProof) (root contextHash seed : bytes) (leafCount : Z) : bytes :=
  concat (batchHeader (Z.of_nat (length proofs)) leafCount root contextHash seed) ++ concat (concat (map proofParts proofs)).

Definition batch_shape (proofs : list WindowProof) (root contextHash seed : bytes) (leafCount : Z) : Prop :=
  1 <= Z.of_nat (length proofs) <= 64 /\ blen root = 32 /\ blen contextHash = 32 /\ blen seed = 32 /\ 64 <= leafCount <= 16384
  /\ Forall (proof_wf leafCount) proofs.

Lemma encodeSessionBatch_Ok proofs root contextHash seed leafCount : batch_shape proofs root contextHash seed leafCount ->
  let out := batch_bytes proofs root contextHash seed leafCount in
  encodeSessionBatch proofs root contextHash seed leafCount = Ok out /\ 410 <= blen out <= 60522.
Proof.
  intros (Hn & Hr & Hc & Hs & Hl & Hp) out. unfold encodeSessionBatch.
  rewrite (proj2 (Z.eqb_neq _ _)), !(proj2 (Z.ltb_ge _ _)), Hr, Hc, Hs by lia. cbn [Z.eqb Pos.eqb negb orb].
  destruct (sizes_sum leafCount proofs 0 ltac:(lia) Hp) as [Hsum Hb]. set (size := foldl _ 0 proofs) in *.
  assert (Hh : blen (concat (batchHeader (Z.of_nat (length proofs)) leafCount root contextHash seed)) = 106).
  { unfold batchHeader. cbn [concat]. rewrite !blen_app, !blen_be, Hr, Hc, Hs. reflexivity. }
  assert (Hout : blen out = 106 + size) by (unfold out, batch_bytes; rewrite blen_app, Hh; lia).
  rewrite (proj2 (Z.ltb_ge _ _)) by lia.
  pose proof (write_all_spec (batchHeader (Z.of_nat (length proofs)) leafCount root contextHash seed ++ concat (map proofParts proofs))
    [] (106 + size)) as Hw. rewrite concat_app in Hw. fold (batch_bytes proofs root contextHash seed leafCount) in Hw. fold out in Hw.
  cbn [app] in Hw. change (blen []) with 0 in Hw. rewrite Hw by lia. cbn [bind fst snd].
  rewrite Hout, Z.sub_diag. change (zeros 0) with (@nil Z). rewrite app_nil_r, Hout, Z.eqb_refl. cbn [negb]. split; [done | lia].
Qed.

(** ** Reading the batch *)

Definition recordOf (p : WindowProof) : BatchRecord :=
  {| br_mdu := wp_mdu p; br_leaf := wp_blob p; br_root := wp_root p; br_root_commitment := wp_rootCommitment p;
     br_root_proof := wp_rootOpening p; br_commitment := wp_commitment p; br_z := wp_z p; br_y := wp_y p;
     br_proof := wp_opening p; br_root_path := concat (wp_rootPath p); br_blob_path := concat (wp_blobPath p) |}.

Lemma parse_record_run leafCount p rest : leafCount <= 16384 -> proof_wf leafCount p ->
  parse_record leafCount (concat (proofParts p) ++ rest) = Ok (recordOf p, rest).
Proof.
  intros Hl Hp. pose proof (proof_size_bound leafCount p Hl Hp) as Hsize. destruct Hp as [Hm Hb H32 H48 Hpaths H6 Hd].
  repeat match goal with H : Forall _ (_ :: _) |- _ => apply Forall_cons in H as [? H] end. apply Forall_app in Hpaths as [Hp1 Hp2].
  pose proof (concat_32 _ Hp1). pose proof (concat_32 _ Hp2). unfold proof_size in Hsize.
  unfold proofParts. rewrite !concat_app. cbn [concat]. rewrite app_nil_r, <- !app_assoc. unfold parse_record. run_reader.
  erewrite rbind_run by (unfold rlift; rewrite (proj1 (position_spec (wp_mdu p) ltac:(change MDU0_ROOT_TABLE_CAPACITY with 65536; lia))); reflexivity).
  run_reader. rewrite H6. cbn [Z.eqb Pos.eqb negb orb]. rewrite (proj2 (Z.ltb_ge _ _)) by lia.
  erewrite rbind_run by (unfold rlift; rewrite pathDepth_siblings by lia; reflexivity). cbv beta.
  rewrite Hd, Z.eqb_refl. cbn [negb]. run_reader. reflexivity.
Qed.

Lemma read_many_run leafCount proofs rest : leafCount <= 16384 -> Forall (proof_wf leafCount) proofs ->
  read_many (length proofs) (parse_record leafCount) (concat (concat (map proofParts proofs)) ++ rest) = Ok (map recordOf proofs, rest).
Proof.
  intros Hl. induction 1 as [|p proofs Hp _ IH]; [done|]. cbn [length read_many map concat]. rewrite concat_app, <- app_assoc.
  erewrite rbind_run by by apply parse_record_run. erewrite rbind_run by apply IH. reflexivity.
Qed.

Lemma batch_parse_run proofs root contextHash seed leafCount : batch_shape proofs root contextHash seed leafCount ->
  batch_parse (batch_bytes proofs root contextHash seed leafCount)
  = Ok {| ba_leaves := leafCount; ba_root := root; ba_context := contextHash; ba_seed := seed; ba_records := map recordOf proofs |}.
Proof.
  intros Hshape. destruct (encodeSessionBatch_Ok _ _ _ _ _ Hshape) as [_ Hlen]. destruct Hshape as (Hn & Hr & Hc & Hs & Hl & Hp).
  unfold batch_parse. rewrite !(proj2 (Z.ltb_ge _ _)) by (change (HEADER_BYTES + RECORD_BYTES) with 410; change SESSION_BATCH_MAX_BYTES with 60522; lia).
  cbn [orb]. unfold batch_bytes, batchHeader. cbn [concat]. rewrite app_nil_r, <- !app_assoc. unfold batch_fields.
  erewrite rbind_run by (apply run_take; reflexivity). cbv beta. rewrite bool_decide_eq_true_2 by reflexivity. run_reader.
  change SESSION_BATCH_MAX_PROOFS with 64. change MAX_LEAVES with 16384.
  rewrite !(proj2 (Z.eqb_neq _ _)), !(proj2 (Z.ltb_ge _ _)) by lia. cbn [orb]. run_reader. rewrite Nat2Z.id.
  pose proof (read_many_run leafCount proofs [] ltac:(lia) Hp) as Hrun. rewrite app_nil_r in Hrun.
  erewrite rbind_run by exact Hrun. reflexivity.
Qed.

(** C14: Proofs that were parsed always make a batch, however many blobs the window has and
    however deep the trees are: the size never exceeds the limit of the format, and the
    core library reads back, in order, exactly the proofs that were written. *)
Theorem session_batch_roundtrip values proofs root contextHash seed leafCount :
  mapR (fun v => parseWindowProof v leafCount) values = Ok proofs ->
  1 <= Z.of_nat (length values) <= 64 -> blen root = 32 -> blen contextHash = 32 -> blen seed = 32 -> 64 <= leafCount <= 16384 ->
  exists out, encodeSessionBatch proofs root contextHash seed leafCount = Ok out
    /\ blen out <= SESSION_BATCH_MAX_BYTES
    /\ batch_parse out = Ok {| ba_leaves := leafCount; ba_root := root; ba_context := contextHash; ba_seed := seed;
                               ba_records := map recordOf proofs |}.
Proof.
  intros Hparse Hn Hr Hc Hs Hl. destruct (parsed_proofs_wf _ _ _ Hparse) as [Hwf Hlv].
  assert (Hshape : batch_shape proofs root contextHash seed leafCount) by (rewrite Hlv in Hn; by split_and!; try lia).
  destruct (encodeSessionBatch_Ok _ _ _ _ _ Hshape) as [He Hlen]. eexists. split; [exact He|].
  split; [apply Hlen | by apply batch_parse_run].
Qed.

(** ** A batch *)

Definition zeros64 (n : Z) : json := JStr (btoa (zeros n)).
Definition zero_proof : json :=
  JObj [("mdu_index", JNum (int 2)); ("blob_index", JNum (int 5)); ("mdu_root_fr", zeros64 32);
        ("root_table_du_commitment", zeros64 48); ("manifest_opening", zeros64 48); ("blob_commitment", zeros64 48);
        ("z_value", JStr (btoa (replicate 31 0 ++ [7]))); ("y_value", zeros64 32); ("kzg_opening_proof", zeros64 48);
        ("root_table_du_merkle_path", JArr (replicate 6 (zeros64 32))); ("merkle_path", JArr (replicate 7 (zeros64 32)))].

Lemma session_batch_roundtrip_witness : exists proofs out,
  encodeSessionBatch proofs (zeros 32) (zeros 32) (zeros 32) 128 = Ok out
  /\ batch_parse out = Ok {| ba_leaves := 128; ba_root := zeros 32; ba_context := zeros 32; ba_seed := zeros 32;
                             ba_records := map recordOf proofs |}.
Proof.
  assert (Hok : is_ok (mapR (fun v => parseWindowProof v 128) [zero_proof; zero_proof]) = true) by (vm_compute; reflexivity).
  destruct (mapR (fun v => parseWindowProof v 128) [zero_proof; zero_proof]) as [proofs|] eqn:H; [|discriminate Hok].
  destruct (session_batch_roundtrip [zero_proof; zero_proof] proofs (zeros 32) (zeros 32) (zeros 32) 128 H) as (out & He & _ & Hp).
  - cbn; lia.
  - reflexivity.
  - reflexivity.
  - reflexivity.
  - lia.
  - exact (ex_intro _ proofs (ex_intro _ out (conj He Hp))).
Defined.
