(* ===== verification/WireCore.v ===== *)
(** * The verifier of windows, over the core library

    The operations that src/polystore_core/src/wasm.rs exports for the verification of
    retrievals, and the instance of [RetrievalCrypto] (Wire.v) that they make.  Shown: a
    window that is accepted consists of the blobs that were challenged, committed to under
    the root that the session froze, and their openings were checked. *)

From S2P Require Import Prelude JsMap JsNumber JsBytes JsString JsText Utf8 Encoding Layout Windows Pinned.
From S2P Require Import Canonical Challenge FrField Curve Msm Kzg KzgProof RootTable SessionBatch BatchProof.
From S2P Require Import Response Multipart Sessions Agreement V3Chunks V3Parse V3Agreement FileTable CoreLayout.
From S2P Require Import Recovery Wire WireProof.
Local Open Scope Z_scope.

#[local] Opaque be.

Section core.
Context `{laws : CurveLaws} `{build : Build} `{trees : MerkleTrees} (sha256 : bytes -> bytes) (t : Target) (ctx : KzgContext).

(** ** The exported operations *)

Definition wasm_challenge_context_hash (bs : bytes) : result bytes :=
  let! c := context_parse sha256 bs in Ok (cx_hash c).

Definition wasm_derive_challenges (bs seed : bytes) : result bytes :=
  let! c := context_parse sha256 bs in
  throw_if negb (blen seed =? 32) with "Seed must be 32 bytes" else
  challenges_flat sha256 c seed.

Definition compute_mdu_root_from_witness_flat_bytes (witness_flat : bytes) : result bytes :=
  throw_if negb (blen witness_flat mod 48 =? 0) with "Witness length must be multiple of 48" else
  create_mdu_merkle_root (chunks_exact 48 witness_flat).

#[export] Instance core_crypto : RetrievalCrypto := {|
  Wire.commit_received_blob := Kzg.commit_received_blob t ctx;
  Wire.compute_mdu_root := compute_mdu_root_from_witness_flat_bytes;
  Wire.verify_polyfs_session_batch := SessionBatch.verify_polyfs_session_batch sha256 ctx;
  Wire.challenge_context_hash := wasm_challenge_context_hash;
  Wire.derive_challenges := wasm_derive_challenges;
  Wire.verify_fat_v3_header := CoreLayout.verify_fat_v3_header |}.

(** ** Accepted windows *)

Lemma matchProofs_Ok window selected proofs : forall i, matchProofs window selected i proofs = Ok tt ->
  forall j p, proofs !! j = Some p -> wp_mdu p = mduIndex window /\ wp_blob p = startBlobIndex window + (i + Z.of_nat j).
Proof.
  induction proofs as [|q proofs IH]; intros i H j p Hj; [done|]. cbn [matchProofs] in H. ok_step H. bool_to_prop.
  destruct j as [|j]; [injection Hj as <-; split; [done | lia]|]. destruct (IH _ H j p Hj) as [-> ->]. split; [done | lia].
Qed.

Lemma matchCommitments_Ok bs proofs : forall i, matchCommitments bs i proofs = Ok tt ->
  forall j p, proofs !! j = Some p ->
  Kzg.commit_received_blob t ctx (subarray bs ((i + Z.of_nat j) * BLOB_SIZE_BYTES) ((i + Z.of_nat j + 1) * BLOB_SIZE_BYTES))
  = Ok (wp_commitment p).
Proof.
  induction proofs as [|q proofs IH]; intros i H j p Hj; [done|]. cbn [matchCommitments] in H. ok_step H. ok_step H. bool_to_prop.
  apply equal_iff in Hg. subst v. destruct j as [|j].
  - injection Hj as <-. by rewrite Z.add_0_r.
  - specialize (IH _ H j p Hj). replace (i + Z.of_nat (S j)) with (i + 1 + Z.of_nat j) by lia. exact IH.
Qed.

(** What the preparation of a batch has checked of a record. *)
Definition record_checked (batch : Batch) (i : Z) (r : BatchRecord) : Prop :=
  derive_z sha256 (ba_context batch) (ba_seed batch) i (br_mdu r) (br_leaf r) = Ok (br_z r)
  /\ verify_mdu_merkle_proof (br_root r) (br_commitment r) (br_leaf r) (br_blob_path r) (ba_leaves batch) = Ok true
  /\ exists position, root_table_position_for_mdu_index (br_mdu r) = Ok position
     /\ verify_mdu_merkle_proof (ba_root batch) (br_root_commitment r) (rp_root_table_du position) (br_root_path r) 64 = Ok true.

Lemma prepare_record_Some root r leaves x : prepare_record_openings root r leaves = Ok (Some x) ->
  verify_mdu_merkle_proof (br_root r) (br_commitment r) (br_leaf r) (br_blob_path r) leaves = Ok true
  /\ exists position, root_table_position_for_mdu_index (br_mdu r) = Ok position
     /\ verify_mdu_merkle_proof root (br_root_commitment r) (rp_root_table_du position) (br_root_path r) 64 = Ok true.
Proof.
  unfold prepare_record_openings. intros H. ok_step H. ok_step H. destruct v0; [|discriminate H]. cbn [negb] in H. ok_step H.
  destruct v0; [|discriminate H]. split; [done|]. by exists v.
Qed.

Lemma prepareRecords_Some batch records : forall i x, prepareRecords sha256 batch i records = Ok (Some x) ->
  forall j r, records !! j = Some r -> record_checked batch (i + Z.of_nat j) r.
Proof.
  induction records as [|q records IH]; intros i x H j r Hj; [done|]. cbn [prepareRecords] in H. ok_step H.
  case_bool_decide as Hz; [|discriminate H]. cbn [negb] in H. ok_step H. destruct v0 as [[transcript openings]|]; [|discriminate H].
  ok_step H. destruct v0 as [[transcript' openings']|]; [|discriminate H]. destruct j as [|j].
  - injection Hj as <-. rewrite Z.add_0_r. split; [by rewrite Hv, Hz|]. by apply prepare_record_Some in Hv0.
  - replace (i + Z.of_nat (S j)) with (i + 1 + Z.of_nat j) by lia. by apply (IH _ _ Hv1).
Qed.

(** A batch that is accepted has been checked record by record. *)
Lemma batch_checked input batch : batch_parse input = Ok batch ->
  SessionBatch.verify_polyfs_session_batch sha256 ctx input = Ok true ->
  forall j r, ba_records batch !! j = Some r -> record_checked batch (Z.of_nat j) r.
Proof.
  intros Hb H. unfold SessionBatch.verify_polyfs_session_batch in H. rewrite Hb in H. cbn [bind] in H. ok_step H.
  destruct v as [[transcript openings]|]; [|discriminate H]. unfold prepare_session_batch in Hv. ok_step Hv.
  destruct v as [x|]; [|discriminate Hv]. exact (prepareRecords_Some batch (ba_records batch) 0 x Hv0).
Qed.

Lemma envelope_proofs json_parse formData response session aborted envelope :
  parseRetrievalEnvelope json_parse formData response session aborted = Ok envelope ->
  Forall (proof_wf (p_leafCount (fz_pin session))) (re_proofs envelope).
Proof.
  unfold parseRetrievalEnvelope. intros H. cbv zeta in H. do 13 ok_step H. destruct (mget _ "proofs") as [[]|]; try done.
  ok_step H. ok_step H. apply Ok_inj in H as <-. apply (parsed_proofs_wf _ _ _ Hv7).
Qed.

Lemma encode_shape proofs root contextHash seed leafCount out : Forall (proof_wf leafCount) proofs ->
  encodeSessionBatch proofs root contextHash seed leafCount = Ok out -> batch_shape proofs root contextHash seed leafCount.
Proof. intros Hp H. unfold encodeSessionBatch in H. cbv zeta in H. ok_step H. bool_to_prop. split_and!; (done || lia). Qed.

(** ** Accepted openings *)

(** What [verify_proof] says of the two openings of a record: the cell of the root table
    that holds the MDU's root, and the blob at the challenged point. *)
Definition root_opened (r : BatchRecord) : result bool :=
  let! position := root_table_position_for_mdu_index (br_mdu r) in
  let! y := encode_mdu_root_for_root_table (br_root r) in
  verify_proof ctx (br_root_commitment r) (z_for_cell (rp_root_table_cell position)) y (br_root_proof r).
Definition blob_opened (r : BatchRecord) : result bool :=
  verify_proof ctx (br_commitment r) (br_z r) (br_y r) (br_proof r).

Lemma prepare_record_opened root r leaves x : prepare_record_openings root r leaves = Ok (Some x) ->
  exists o0 o1, x.2 = [o0; o1] /\ root_opened r = Ok (bool_decide (opening_ok ctx o0))
    /\ blob_opened r = Ok (bool_decide (opening_ok ctx o1)).
Proof.
  unfold prepare_record_openings, root_opened, blob_opened. intros H. ok_step H. ok_step H. destruct v0; [|discriminate H]. cbn [negb] in H.
  ok_step H. destruct v0; [|discriminate H]. cbn [negb] in H. ok_step H. ok_step H. ok_step H. apply Ok_inj in H. injection H as <-.
  destruct v1 as [b0 o0], v2 as [b1 o1]. exists o0, o1. cbn [bind snd]. split; [done|].
  split; [rewrite Hv, Hv2; cbn [bind]; by eapply opening_verified | by eapply opening_verified].
Qed.

Lemma prepareRecords_opened batch records : forall i x, prepareRecords sha256 batch i records = Ok (Some x) ->
  forall j r, records !! j = Some r -> exists o0 o1, x.2 !! (2 * j)%nat = Some o0 /\ x.2 !! (2 * j + 1)%nat = Some o1
    /\ root_opened r = Ok (bool_decide (opening_ok ctx o0)) /\ blob_opened r = Ok (bool_decide (opening_ok ctx o1)).
Proof.
  induction records as [|q records IH]; intros i x H j r Hj; [done|]. cbn [prepareRecords] in H. ok_step H.
  case_bool_decide as Hz; [|discriminate H]. cbn [negb] in H. ok_step H. destruct v0 as [[transcript openings]|]; [|discriminate H].
  ok_step H. destruct v0 as [[transcript' openings']|]; [|discriminate H]. apply Ok_inj in H. injection H as <-.
  destruct (prepare_record_opened _ _ _ _ Hv0) as (o0 & o1 & Ho & Hr & Hb). cbn [snd] in Ho |- *. subst openings. destruct j as [|j].
  - injection Hj as <-. by exists o0, o1.
  - destruct (IH _ _ Hv1 j r Hj) as (o0' & o1' & H0 & H1 & Hr' & Hb'). exists o0', o1'. cbn [snd] in H0, H1.
    replace (2 * S j)%nat with (S (S (2 * j))) by lia. by split_and!.
Qed.

Lemma candidates_nonzero attempts retry digest r : coefficient_from_candidates attempts retry digest = Ok r -> r <> scalar_zero.
Proof.
  revert retry. induction attempts as [|attempts IH]; intros retry H; [done|]. cbn [coefficient_from_candidates] in H.
  destruct (parse_scalar _) as [v|]; [|by eapply IH]. case_bool_decide; [by eapply IH|]. by apply Ok_inj in H as <-.
Qed.

Lemma coefficient_nonzero hash i r : coefficient sha256 hash i = Ok r -> r <> scalar_zero.
Proof. unfold coefficient, coefficient_with_domain. cbv zeta. generalize 256%nat 0. intros n retry. apply candidates_nonzero. Qed.

Lemma coefficients_nonzero hash openings rs : coefficients_of (coefficient sha256) hash openings = Ok rs ->
  Forall (fun r => r <> scalar_zero) rs /\ length openings = length rs.
Proof.
  unfold coefficients_of. intros H%mapR_Ok. split.
  - apply Forall_lookup. intros j r Hj. destruct (Forall2_lookup_r _ _ _ _ _ H Hj) as (i & _ & Hc).
    by eapply coefficient_nonzero.
  - apply Forall2_length in H. rewrite length_seqZ in H. lia.
Qed.

(** The [j]-th opening verifies, or its coefficient is the one value, of all that are not
    zero, with which the batch would be accepted in spite of it. *)
Definition bound (openings : list Opening) (coefficients : list Scalar) (j : nat) (verdict : result bool) : Prop :=
  verdict = Ok true
  \/ exists r, coefficients !! j = Some r
     /\ forall r', r' <> scalar_zero -> verify_opening_batch ctx openings (<[j:=r']> coefficients) = Ok true -> r' = r.

Lemma opening_bound openings coefficients j o verdict : Forall (fun r => r <> scalar_zero) coefficients ->
  length openings = length coefficients -> verify_opening_batch ctx openings coefficients = Ok true ->
  openings !! j = Some o -> verdict = Ok (bool_decide (opening_ok ctx o)) -> bound openings coefficients j verdict.
Proof.
  intros Hr Hl H Ho ->. destruct (lookup_lt_is_Some_2 coefficients j) as [r Hj]; [rewrite <- Hl; by eapply lookup_lt_Some|].
  destruct (batch_binds ctx openings coefficients j o r Hr H Ho Hj) as [Hok|Hu].
  - left. by rewrite bool_decide_eq_true_2.
  - right. by exists r.
Qed.

(** What the library checked of a batch that it accepted. *)
Lemma batch_opened input batch : batch_parse input = Ok batch ->
  SessionBatch.verify_polyfs_session_batch sha256 ctx input = Ok true ->
  exists transcript openings coefficients, prepare_session_batch sha256 batch = Ok (Some (transcript, openings))
    /\ coefficients_of (coefficient sha256) (sha256 transcript) openings = Ok coefficients
    /\ verify_opening_batch ctx openings coefficients = Ok true
    /\ forall j r, ba_records batch !! j = Some r ->
         bound openings coefficients (2 * j) (root_opened r) /\ bound openings coefficients (2 * j + 1) (blob_opened r).
Proof.
  intros Hb H. unfold SessionBatch.verify_polyfs_session_batch in H. rewrite Hb in H. cbn [bind] in H. ok_step H.
  destruct v as [[transcript openings]|]; [|discriminate H]. ok_step H.
  exists transcript, openings, v. split; [exact Hv|]. split; [exact Hv0|]. split; [exact H|]. intros j r Hj.
  destruct (coefficients_nonzero _ _ _ Hv0) as [Hnz Hlen].
  unfold prepare_session_batch in Hv. ok_step Hv. destruct v0 as [x|]; [|discriminate Hv].
  destruct (prepareRecords_opened batch (ba_records batch) 0 x Hv1 j r Hj) as (o0 & o1 & H0 & H1 & Hr & Hbl).
  destruct x as [tr os]. cbn [snd] in H0, H1. apply Ok_inj in Hv. injection Hv as _ <-.
  split; [by apply (opening_bound _ _ _ o0) | by apply (opening_bound _ _ _ o1)].
Qed.

(** The batch that goes to the core library for a session. *)
Definition batchOf (session : FrozenSession) (seed root : bytes) (proofs : list WindowProof) : Batch :=
  {| ba_leaves := p_leafCount (fz_pin session); ba_root := root; ba_context := fz_contextHash session; ba_seed := seed;
     ba_records := map recordOf proofs |}.

(** The blob of an answer, and what has been checked of it. *)
Record blob_authentic (session : FrozenSession) (seed root bs : bytes) (openings : list Opening) (coefficients : list Scalar)
    (i : nat) (p : WindowProof) : Prop := {
  au_mdu : wp_mdu p = mduIndex (fz_window session);
  au_leaf : wp_blob p = startBlobIndex (fz_window session) + Z.of_nat i;
  au_point : derive_z sha256 (fz_contextHash session) seed (Z.of_nat i) (wp_mdu p) (wp_blob p) = Ok (wp_z p);
  au_bytes : Kzg.commit_received_blob t ctx (subarray bs (Z.of_nat i * BLOB_SIZE_BYTES) ((Z.of_nat i + 1) * BLOB_SIZE_BYTES))
             = Ok (wp_commitment p);
  au_path : verify_mdu_merkle_proof (wp_root p) (wp_commitment p) (wp_blob p) (concat (wp_blobPath p))
              (p_leafCount (fz_pin session)) = Ok true;
  au_table : exists position, root_table_position_for_mdu_index (wp_mdu p) = Ok position
    /\ verify_mdu_merkle_proof root (wp_rootCommitment p) (rp_root_table_du position) (concat (wp_rootPath p)) 64 = Ok true;
  au_root : bound openings coefficients (2 * i) (root_opened (recordOf p));
  au_blob : bound openings coefficients (2 * i + 1) (blob_opened (recordOf p)) }.

(** C3: What a provider sends is only accepted as the blobs that were asked for.  When an answer
    was parsed for a session and the window is accepted, then the bytes are as many blobs as
    the session is for, the challenge context is the one that the chain froze, and of every
    blob in turn: the proof is for the next leaf of the window, at the point that the
    session's seed draws for it; the bytes have the commitment of the proof; that
    commitment is at its leaf under the root that the proof names for the MDU; and a blob of
    the root table is, with its commitment, at its place in the pinned generation.  All
    openings were checked in one equation, with coefficients drawn from a hash of the whole
    batch: the opening of the table at the MDU's cell to that root verifies, and so does the
    opening of the blob at the point, or else its coefficient is the only one, of all
    scalars but zero, with which the batch would be accepted in spite of it. *)
Theorem accepted_window_authentic json_parse formData response session aborted envelope bs :
  parseRetrievalEnvelope json_parse formData response session aborted = Ok envelope ->
  verifyRetrievalWindow session envelope = Ok bs ->
  exists seed root transcript openings coefficients,
    fz_seed session = Some seed /\ unhex (p_root (fz_pin session)) 32 = Ok root
    /\ wasm_challenge_context_hash (fz_context session) = Ok (fz_contextHash session)
    /\ blen bs = blobCount (fz_window session) * BLOB_SIZE_BYTES
    /\ prepare_session_batch sha256 (batchOf session seed root (re_proofs envelope)) = Ok (Some (transcript, openings))
    /\ coefficients_of (coefficient sha256) (sha256 transcript) openings = Ok coefficients
    /\ verify_opening_batch ctx openings coefficients = Ok true
    /\ Z.of_nat (length (re_proofs envelope)) = blobCount (fz_window session)
    /\ forall i p, re_proofs envelope !! i = Some p -> blob_authentic session seed root bs openings coefficients i p.
Proof.
  intros Henv H. apply envelope_proofs in Henv. unfold verifyRetrievalWindow in H. cbv zeta in H.
  destruct (fz_seed session) as [seed|]; [|done]. do 6 ok_step H. ok_step H. ok_step H. ok_step H. ok_step H. ok_step H.
  apply Ok_inj in H as <-. destruct v1, v5. bool_to_prop. subst v4. apply equal_iff in Hg0. subst v.
  change (Wire.challenge_context_hash (fz_context session)) with (wasm_challenge_context_hash (fz_context session)) in Hv.
  pose proof (encode_shape _ _ _ _ _ _ Henv Hv3) as Hshape. destruct (encodeSessionBatch_Ok _ _ _ _ _ Hshape) as [He _].
  rewrite He in Hv3. apply Ok_inj in Hv3 as <-. pose proof (batch_parse_run _ _ _ _ _ Hshape) as Hparse.
  fold (batchOf session seed v2 (re_proofs envelope)) in Hparse.
  destruct (batch_opened _ _ Hparse Hv4) as (transcript & openings & coefficients & Hprep & Hco & Hver & Hbound).
  exists seed, v2, transcript, openings, coefficients. split_and!; try done. intros i p Hp.
  assert (Hrec : ba_records (batchOf session seed v2 (re_proofs envelope)) !! i = Some (recordOf p)).
  { cbn [ba_records batchOf]. change (map recordOf ?l) with (recordOf <$> l). by rewrite list_lookup_fmap, Hp. }
  destruct (batch_checked _ _ Hparse Hv4 i (recordOf p) Hrec) as (Hz & Hm & Hr).
  destruct (Hbound i (recordOf p) Hrec) as [Hb0 Hb1]. destruct (matchProofs_Ok _ _ _ _ Hv1 _ _ Hp) as [Hmdu Hblob].
  pose proof (matchCommitments_Ok _ _ _ Hv5 _ _ Hp) as Hc. by constructor.
Qed.
End core.

(** ** An accepted window *)

#[local] Existing Instance Exponent.scalars.
#[local] Existing Instance Exponent.exponent_curve.
#[local] Existing Instance Exponent.exponent_laws.
#[local] Existing Instance KzgProof.sample_build.
#[local] Existing Instance RootTable.sample_trees.

Definition ready_session : FrozenSession :=
  {| fz_browserTransactionKey := None; fz_sessionId := hex (replicate 32 9); fz_pin := Sessions.sample_pin;
     fz_window := sample_window; fz_owner := "nil1owner"; fz_payee := "nil1a"; fz_height := 20; fz_openedHeight := 12;
     fz_expiry := 40; fz_status := 1; fz_funding := 1; fz_context := sample_context;
     fz_contextHash := sample_digest sample_context; fz_seed := Some (replicate 32 3) |}.

Definition zero_setup : KzgContext :=
  {| g1_points := []; g2_h := Exponent.el 1; g2_tau := Exponent.el 5; g1_generator := Exponent.el 1; g1_points_are_monomial := false |}.

Definition zero_envelope (l : bytes) : result json :=
  if bool_decide (l = []) then Err "SyntaxError" else
  Ok (JObj [("version", JNum (int 2)); ("session_id", JStr (hex (replicate 32 9)));
            ("context_hash", JStr (hex (sample_digest sample_context))); ("manifest_root", JStr (hex (zeros 32)));
            ("start_mdu_index", JStr "2"); ("start_blob_index", JNum (int 5)); ("blob_count", JStr "1");
            ("total_bytes", JStr "131072"); ("proofs", JArr [zero_proof])]).
Definition zero_response : Response :=
  {| r_status := 206; r_contentType := Some "multipart/form-data; version=2; boundary=x7"%string; r_contentLength := None;
     r_blockHeight := None; r_body := Some (map Ok sample_chunks) |}.

Lemma accepted_window_authentic_witness : exists envelope bs seed root openings coefficients,
  parseRetrievalEnvelope zero_envelope sample_form zero_response ready_session false = Ok envelope
  /\ fz_seed ready_session = Some seed /\ unhex (p_root (fz_pin ready_session)) 32 = Ok root
  /\ blen bs = blobCount (fz_window ready_session) * BLOB_SIZE_BYTES
  /\ forall i p, re_proofs envelope !! i = Some p ->
       blob_authentic sample_digest sample_target zero_setup ready_session seed root bs openings coefficients i p.
Proof.
  assert (Hok : is_ok (let! envelope := parseRetrievalEnvelope zero_envelope sample_form zero_response ready_session false in
    @verifyRetrievalWindow (core_crypto sample_digest sample_target zero_setup) ready_session envelope) = true)
    by (vm_compute; reflexivity).
  destruct (parseRetrievalEnvelope zero_envelope sample_form zero_response ready_session false) as [envelope|] eqn:Henv; [|discriminate Hok].
  cbn [bind] in Hok.
  destruct (@verifyRetrievalWindow (core_crypto sample_digest sample_target zero_setup) ready_session envelope) as [bs|] eqn:Hv; [|discriminate Hok].
  destruct (accepted_window_authentic sample_digest sample_target zero_setup zero_envelope sample_form zero_response ready_session false
    envelope bs Henv Hv) as (seed & root & transcript & openings & coefficients & Hs & Hr & _ & Hb & _ & _ & _ & _ & H).
  exact (ex_intro _ envelope (ex_intro _ bs (ex_intro _ seed (ex_intro _ root (ex_intro _ openings (ex_intro _ coefficients
    (conj eq_refl (conj Hs (conj Hr (conj Hb H)))))))))).
Defined.
