(* ===== verification/HonestWindow.v ===== *)
(** * What an honest provider answers is accepted

    The other direction of WireCore.v.  [honestProof] is what a provider computes with the
    core library for one blob of an MDU: the commitments of the MDU's blobs, its root and
    paths, the proof of the table of roots, and the opening at the challenged point.  Shown:
    for every content of the generation, the window made of these proofs and the blobs is
    accepted as soon as the coefficients of its batch are found. *)

From S2P Require Import Prelude JsMap JsNumber JsBytes JsString JsText Utf8 Encoding Layout Windows Pinned.
From S2P Require Import Canonical Challenge FrField Curve Msm Kzg KzgProof RootTable SessionBatch BatchProof.
From S2P Require Import Response Multipart Sessions Agreement V3Chunks V3Parse V3Agreement FileTable CoreLayout.
From S2P Require Import Recovery Wire WireProof WireCore.
Local Open Scope Z_scope.

#[local] Opaque be.

Section honest.
Context `{laws : CurveLaws} `{build : Build} `{merkle : MerkleLaws} (sha256 : bytes -> bytes) (t : Target) (ctx : KzgContext) (tau : Scalar).
Context (Ht : target_ok t) (Hsetup : setup_ok ctx tau).

Definition honestProof (mdu0 : bytes) (blobs : list bytes) (mdu leaf : Z) (z : bytes) : result WindowProof :=
  let! commitments := mapR (blob_to_commitment t ctx) blobs in
  let! root := create_mdu_merkle_root commitments in
  let! table := compute_mdu0_root_table_proof t ctx mdu0 mdu root in
  let! opening := compute_proof t ctx (nth (Z.to_nat leaf) blobs []) z in
  Ok {| wp_mdu := mdu; wp_blob := leaf; wp_root := root; wp_rootCommitment := tp_root_table_du_commitment table;
        wp_rootOpening := tp_root_table_opening_proof table; wp_commitment := nth (Z.to_nat leaf) commitments [];
        wp_z := z; wp_y := opening.2; wp_opening := opening.1;
        wp_rootPath := chunks_exact 32 (tp_root_table_du_merkle_proof table);
        wp_blobPath := chunks_exact 32 (tree_proof (map blake2s commitments) leaf) |}.

(** ** Openings *)

Lemma verified_opening role c z y p : verify_proof ctx c z y p = Ok true ->
  exists bs o, append_opening role c z y p = Ok (bs, o) /\ opening_ok ctx o.
Proof.
  unfold verify_proof, append_opening. intros H. do 4 ok_step H. rewrite Hv, Hv0, Hv1, Hv2. cbn [bind].
  apply Ok_inj, bool_decide_eq_true in H. eexists _, _. split; [reflexivity|]. exact H.
Qed.

Lemma verify_lengths c z y p b : verify_proof ctx c z y p = Ok b -> blen c = 48 /\ blen p = 48.
Proof.
  unfold verify_proof. intros H. do 4 ok_step H. clear H.
  assert (Hl : forall l x, parse_g1 l = Ok x -> blen l = 48) by (intros l x Hx; unfold parse_g1 in Hx; ok_step Hx; by bool_to_prop).
  split; by eapply Hl.
Qed.

(** ** Paths *)

Lemma chunks_path l n : blen l = 32 * n -> 
  concat (chunks_exact 32 l) = l /\ Forall (fun x => blen x = 32) (chunks_exact 32 l) /\ Z.of_nat (length (chunks_exact 32 l)) = n.
Proof.
  intros Hl. unfold chunks_exact. assert (Hn : (length l / 32)%nat = Z.to_nat n).
  { symmetry. apply (Nat.div_unique _ _ _ 0); unfold blen in Hl; lia. }
  rewrite Hn. assert (Hlen : length l = (Z.to_nat n * 32)%nat) by (unfold blen in Hl; lia). rewrite chunksN_length.
  assert (Hnn : 0 <= n) by (pose proof (blen_nonneg l); lia). split_and!; [| |lia]; clear Hl Hn Hnn.
  - revert l Hlen. induction (Z.to_nat n) as [|k IH]; intros l Hlen; cbn [chunksN concat]; [by destruct l|].
    rewrite IH by (rewrite length_drop; lia). apply take_drop.
  - revert l Hlen. induction (Z.to_nat n) as [|k IH]; intros l Hlen; cbn [chunksN]; [constructor|].
    constructor; [unfold blen; rewrite length_take; lia|]. apply IH. rewrite length_drop. lia.
Qed.

(** ** One proof *)

Definition canonical_blob (b : bytes) : Prop :=
  blen b = BLOB_SIZE /\ Forall byte_ok b /\ exists s, mapR parse_scalar (chunks_exact 32 b) = Ok s.

Definition commitment_of (blob : bytes) : bytes := g1_to_compressed (combination (g1_points ctx) (bytes_to_scalars blob)).

Lemma blob_commits b : canonical_blob b ->
  blob_to_commitment t ctx b = Ok (commitment_of b) /\ Kzg.commit_received_blob t ctx b = Ok (commitment_of b).
Proof.
  intros (Hb & Hok & s & Hs). assert (Hc : blob_to_commitment t ctx b = Ok (commitment_of b)).
  { apply blob_to_commitment_spec; [done | by apply so_lagrange with tau | by apply setup_length with tau | done | done]. }
  split; [done|]. unfold Kzg.commit_received_blob. rewrite Hb, Z.eqb_refl, Hs. exact Hc.
Qed.

Lemma blobs_commit blobs : Forall canonical_blob blobs -> mapR (blob_to_commitment t ctx) blobs = Ok (map commitment_of blobs).
Proof. intros H. apply mapR_total. eapply Forall_impl; [exact H|]. intros b Hb. by apply blob_commits. Qed.

Lemma point_bytes z s : blen z = 32 -> Forall byte_ok z -> parse_scalar z = Ok s -> z = scalar_to_bytes_be s.
Proof.
  intros Hl Hok H. rewrite parse_scalar_spec in H by done. destruct (from_be z <? FR_MODULUS) eqn:Hlt; [|done]. bool_to_prop.
  apply Ok_inj in H as <-. pose proof (from_be_nonneg z Hok). rewrite scalar_bytes_be by lia.
  replace 32%nat with (length z) by (unfold blen in Hl; lia). by rewrite be_from_be.
Qed.

(** What is known of the generation: MDU 0 holds the root of the MDU, whose blobs are given. *)
Record generation_ok (mdu0 : bytes) (blobs : list bytes) (mdu : Z) (polyfs_root : bytes) : Prop := {
  gk_mdu0 : blen mdu0 = MDU_SIZE; gk_bytes : Forall byte_ok mdu0; gk_mdu : 0 < mdu <= MDU0_ROOT_TABLE_CAPACITY;
  gk_blobs : Forall canonical_blob blobs; gk_count : 64 <= Z.of_nat (length blobs) <= 16384;
  gk_root : create_mdu_merkle_root (mdu_commitments ctx mdu0) = Ok polyfs_root;
  gk_cell : forall root, create_mdu_merkle_root (map commitment_of blobs) = Ok root ->
    from_be (root_cell mdu0 mdu) mod FR_MODULUS = from_be root mod FR_MODULUS }.

Lemma root_exists commitments : commitments <> [] ->
  exists root, create_mdu_merkle_root commitments = Ok root /\ tree_root (map blake2s commitments) = Some root
    /\ blen root = 32 /\ Forall byte_ok root.
Proof.
  intros Hne. destruct (tree_root_exists (map blake2s commitments)) as (root & Hr & H32 & Hok).
  { intros H0. by apply map_eq_nil in H0. }
  exists root. unfold create_mdu_merkle_root. rewrite Hr. by split_and!.
Qed.

Lemma table_proof mdu0 blobs mdu polyfs_root root : generation_ok mdu0 blobs mdu polyfs_root ->
  create_mdu_merkle_root (map commitment_of blobs) = Ok root -> blen root = 32 -> Forall byte_ok root ->
  exists p position y, compute_mdu0_root_table_proof t ctx mdu0 mdu root = Ok p
    /\ root_table_position_for_mdu_index mdu = Ok position /\ encode_mdu_root_for_root_table root = Ok y
    /\ verify_mdu_merkle_proof polyfs_root (tp_root_table_du_commitment p) (rp_root_table_du position)
         (tp_root_table_du_merkle_proof p) 64 = Ok true
    /\ verify_proof ctx (tp_root_table_du_commitment p) (z_for_cell (rp_root_table_cell position)) y
         (tp_root_table_opening_proof p) = Ok true.
Proof.
  intros [Hl Hok Hm _ _ Hr Hcell] Hroot H32 Hrok.
  destruct (root_table_opening t ctx tau mdu0 mdu root Ht Hsetup Hl Hok H32 Hrok Hm) as (cs & r & Hcs & Hr' & H).
  rewrite (mdu_commitments_spec t ctx tau mdu0 Ht Hsetup Hl Hok) in Hcs. apply Ok_inj in Hcs as <-. rewrite Hr in Hr'. apply Ok_inj in Hr' as <-.
  destruct (decide _) as [_|Hno]; [|by destruct (Hno (Hcell root Hroot))]. destruct H as (p & Hp & Hv).
  unfold verify_mdu0_root_table_proof in Hv. ok_step Hv. ok_step Hv. ok_step Hv. destruct v0; [|discriminate Hv]. cbn [negb] in Hv. ok_step Hv.
  exists p, v, v0. by split_and!.
Qed.

Lemma root_path_depth du : 0 <= du < 64 -> merkle_sibling_count du 64 = Ok 6.
Proof.
  intros Hdu. assert (H : forallb (fun d => match merkle_sibling_count d 64 with Ok n => n =? 6 | Err _ => false end) (seqZ 0 64) = true)
    by (vm_compute; reflexivity).
  rewrite forallb_forall in H. specialize (H du). rewrite <- list_elem_of_In, elem_of_seqZ in H. specialize (H ltac:(lia)).
  destruct (merkle_sibling_count du 64) as [n|]; [|done]. apply Z.eqb_eq in H as ->. done.
Qed.

Lemma path_length root c i path n : verify_mdu_merkle_proof root c i path n = Ok true ->
  exists siblings, merkle_sibling_count i n = Ok siblings /\ blen path = 32 * siblings.
Proof. unfold verify_mdu_merkle_proof. intros H. ok_step H. ok_step H. ok_step H. bool_to_prop. by exists v. Qed.

Record proof_good (blobs : list bytes) (mdu leaf : Z) (z polyfs_root : bytes) (p : WindowProof) : Prop := {
  pg_wf : proof_wf (Z.of_nat (length blobs)) p;
  pg_place : wp_mdu p = mdu /\ wp_blob p = leaf /\ wp_z p = z;
  pg_commitment : wp_commitment p = commitment_of (nth (Z.to_nat leaf) blobs []);
  pg_openings : exists transcript o0 o1,
    prepare_record_openings polyfs_root (recordOf p) (Z.of_nat (length blobs)) = Ok (Some (transcript, [o0; o1]))
    /\ opening_ok ctx o0 /\ opening_ok ctx o1 }.

(** The proof that is computed for a blob is complete. *)
Lemma honest_proof_good mdu0 blobs mdu polyfs_root leaf z s : generation_ok mdu0 blobs mdu polyfs_root ->
  0 <= leaf < Z.of_nat (length blobs) -> blen z = 32 -> Forall byte_ok z -> parse_scalar z = Ok s ->
  exists p, honestProof mdu0 blobs mdu leaf z = Ok p /\ proof_good blobs mdu leaf z polyfs_root p.
Proof.
  intros Hgen Hleaf Hz Hzok Hs. pose proof (gk_count _ _ _ _ Hgen) as Hn. pose proof (gk_blobs _ _ _ _ Hgen) as Hblobs.
  pose proof (gk_mdu _ _ _ _ Hgen) as Hmdu. change MDU0_ROOT_TABLE_CAPACITY with 65536 in Hmdu.
  destruct (root_exists (map commitment_of blobs)) as (root & Hroot & Htree & H32 & Hrok); [intros H%map_eq_nil; subst; cbn in Hn; lia|].
  destruct (table_proof mdu0 blobs mdu polyfs_root root Hgen Hroot H32 Hrok) as (tp & position & y0 & Htp & Hpos & Hy0 & Hpath0 & Hopen0).
  destruct (lookup_lt_is_Some_2 blobs (Z.to_nat leaf)) as [blob Hblob]; [lia|]. pose proof (nth_lookup_Some _ _ [] _ Hblob) as Hnth.
  pose proof (Forall_lookup_1 _ _ _ _ Hblobs Hblob) as Hcan. destruct (blob_commits blob Hcan) as [Hcom _]. destruct Hcan as (Hb & Hbok & _).
  destruct (opening_exists t ctx tau blob s Ht Hsetup Hb Hbok) as (c & proof & Hc & Hproof & Hver).
  rewrite Hcom in Hc. apply Ok_inj in Hc as <-. rewrite <- (point_bytes z s Hz Hzok Hs) in Hproof, Hver.
  assert (Hcl : map commitment_of blobs !! Z.to_nat leaf = Some (commitment_of blob)).
  { change (map commitment_of blobs) with (commitment_of <$> blobs). by rewrite list_lookup_fmap, Hblob. }
  pose proof (merkle_path (map commitment_of blobs) leaf (commitment_of blob) root (proj1 Hleaf) Hcl (proj2 (g1_compressed _)) Htree H32) as Hpath1.
  rewrite length_map in Hpath1. unfold honestProof. rewrite blobs_commit by done. cbn [bind]. rewrite Hroot. cbn [bind]. rewrite Htp. cbn [bind].
  rewrite Hnth, Hproof. cbn [bind fst snd]. rewrite (nth_lookup_Some _ _ [] _ Hcl). eexists. split; [reflexivity|].
  destruct (path_length _ _ _ _ _ Hpath0) as (n0 & Hn0 & Hl0). destruct (path_length _ _ _ _ _ Hpath1) as (n1 & Hn1 & Hl1).
  assert (Hdu : 0 <= rp_root_table_du position < 64).
  { destruct (position_spec mdu) as (Hp & Hdu & _); [change MDU0_ROOT_TABLE_CAPACITY with 65536; lia|]. rewrite Hp in Hpos. apply Ok_inj in Hpos as <-. lia. }
  rewrite root_path_depth in Hn0 by done. apply Ok_inj in Hn0 as <-. rewrite pathDepth_siblings in Hn1 by lia. apply Ok_inj in Hn1 as <-.
  destruct (chunks_path _ _ Hl0) as (Hc0 & Hf0 & Hk0). destruct (chunks_path _ _ Hl1) as (Hc1 & Hf1 & Hk1).
  destruct (verify_lengths _ _ _ _ _ Hopen0). destruct (verify_lengths _ _ _ _ _ Hver).
  constructor; cbn [wp_mdu wp_blob wp_z wp_commitment].
  - constructor; cbn [wp_mdu wp_blob wp_root wp_rootCommitment wp_rootOpening wp_commitment wp_z wp_y wp_opening wp_rootPath wp_blobPath];
      try lia; [by repeat constructor; try apply length_scalar_bytes | by repeat constructor | by apply Forall_app].
  - done.
  - by rewrite Hnth.
  - destruct (verified_opening 0 _ _ _ _ Hopen0) as (b0 & o0 & Ha0 & Ho0). destruct (verified_opening 1 _ _ _ _ Hver) as (b1 & o1 & Ha1 & Ho1).
    unfold prepare_record_openings, recordOf.
    cbn [br_mdu br_root_commitment br_root_path br_root br_commitment br_leaf br_blob_path br_root_proof br_z br_y br_proof
      wp_mdu wp_blob wp_root wp_rootCommitment wp_rootOpening wp_commitment wp_z wp_y wp_opening wp_rootPath wp_blobPath].
    rewrite Hpos. cbn [bind]. rewrite Hc0, Hpath0. cbn [bind negb]. rewrite Hc1, Hpath1. cbn [bind negb]. rewrite Hy0. cbn [bind].
    rewrite Ha0. cbn [bind]. rewrite Ha1. cbn [bind fst snd]. by eexists _, o0, o1.
Qed.

(** ** The batch *)

Lemma prepare_good batch blobs mdu proofs : ba_leaves batch = Z.of_nat (length blobs) ->
  forall i, (forall j p, proofs !! j = Some p -> exists leaf,
      derive_z sha256 (ba_context batch) (ba_seed batch) (i + Z.of_nat j) mdu leaf = Ok (wp_z p)
      /\ proof_good blobs mdu leaf (wp_z p) (ba_root batch) p) ->
  exists transcript openings, prepareRecords sha256 batch i (map recordOf proofs) = Ok (Some (transcript, openings))
    /\ Forall (opening_ok ctx) openings /\ length openings = (2 * length proofs)%nat.
Proof.
  intros Hleaves. induction proofs as [|p proofs IH]; intros i H; cbn [map prepareRecords].
  { exists [], []. by split_and!. }
  destruct (H 0%nat p eq_refl) as (leaf & Hz & [_ (Hm & Hb & _) _ (tr & o0 & o1 & Hprep & Ho0 & Ho1)]). rewrite Z.add_0_r in Hz.
  cbn [br_mdu br_leaf br_z recordOf]. rewrite Hm, Hb, Hz. cbn [bind]. rewrite bool_decide_eq_true_2 by done. cbn [negb].
  rewrite <- Hleaves in Hprep. change {| br_mdu := _ |} with (recordOf p). rewrite Hprep. cbn [bind].
  destruct (IH (i + 1)) as (tr' & openings & Hrest & Hok & Hlen).
  { intros j q Hj. replace (i + 1 + Z.of_nat j) with (i + Z.of_nat (S j)) by lia. by apply H. }
  rewrite Hrest. cbn [bind]. eexists _, _. split; [reflexivity|]. split; [by repeat constructor|]. cbn [length app]. lia.
Qed.

(** Of a batch whose openings are good the only thing that is left to chance is that its
    coefficients are found. *)
Lemma honest_batch_accepted blobs mdu proofs root contextHash seed :
  let leaves := Z.of_nat (length blobs) in
  batch_shape proofs root contextHash seed leaves ->
  (forall j p, proofs !! j = Some p -> exists leaf, derive_z sha256 contextHash seed (Z.of_nat j) mdu leaf = Ok (wp_z p)
     /\ proof_good blobs mdu leaf (wp_z p) root p) ->
  exists transcript openings,
    prepare_session_batch sha256 {| ba_leaves := leaves; ba_root := root; ba_context := contextHash; ba_seed := seed;
      ba_records := map recordOf proofs |} = Ok (Some (transcript, openings))
    /\ SessionBatch.verify_polyfs_session_batch sha256 ctx (batch_bytes proofs root contextHash seed leaves)
       = (let! _ := coefficients_of (coefficient sha256) (sha256 transcript) openings in Ok true).
Proof.
  intros leaves Hshape H. unfold SessionBatch.verify_polyfs_session_batch. rewrite batch_parse_run by done. cbn [bind].
  unfold prepare_session_batch. cbn [ba_records ba_context ba_seed ba_root].
  destruct (prepare_good {| ba_leaves := leaves; ba_root := root; ba_context := contextHash; ba_seed := seed; ba_records := map recordOf proofs |}
    blobs mdu proofs eq_refl 0 H) as (tr & openings & -> & Hok & Hlen).
  cbn [bind]. eexists _, openings. split; [reflexivity|].
  match goal with |- context [coefficients_of ?f ?h openings] => destruct (coefficients_of f h openings) as [rs|e] eqn:Hrs; [|done] end.
  cbn [bind]. destruct (coefficients_nonzero _ _ _ _ Hrs) as [Hnz Hl].
  destruct Hshape as (Hn & _). apply batch_accepts; [split_and!; (done || lia) | | done]. intros ->. cbn in Hlen. lia.
Qed.

(** ** The challenges *)

Lemma challengeAt_lookup c seed positions : forall i l, challengeAt sha256 c seed i positions = Ok l ->
  forall j x, l !! j = Some x -> ch_ordinal x = i + Z.of_nat j
    /\ derive_z sha256 (cx_hash c) seed (i + Z.of_nat j) (ch_mdu_index x) (ch_leaf_index x) = Ok (ch_z x).
Proof.
  induction positions as [|p positions IH]; intros i l H j x Hj; cbn [challengeAt] in H; [by apply Ok_inj in H as <-|].
  cbv zeta in H. ok_step H. ok_step H. apply Ok_inj in H as <-. destruct j as [|j].
  - injection Hj as <-. rewrite Z.add_0_r. by split.
  - destruct (IH _ _ Hv0 j x Hj) as [-> Hz]. replace (i + Z.of_nat (S j)) with (i + 1 + Z.of_nat j) by lia. by split.
Qed.

Context (Hsha : forall l, blen (sha256 l) = 32 /\ Forall byte_ok (sha256 l)).

Lemma derive_z_scalar hash seed i mdu leaf z : derive_z sha256 hash seed i mdu leaf = Ok z ->
  blen z = 32 /\ Forall byte_ok z /\ exists s, parse_scalar z = Ok s.
Proof.
  unfold derive_z, derive_z_with_domain, hash_to_point. cbv zeta. generalize ATTEMPTS 0. intros attempts.
  induction attempts as [|n IH]; intros retry H; [done|]. cbn [hash_to_point_from] in H.
  destruct (valid_point _) eqn:Hv; [|by apply IH in H]. apply Ok_inj in H as <-.
  match type of Hv with valid_point (sha256 ?l) = _ => destruct (Hsha l) as [Hl Hok]; set (z := sha256 l) in * end.
  split; [done|]. split; [done|]. unfold valid_point, nonzero_scalar in Hv. unfold parse_scalar. rewrite Hl. cbn [Z.eqb Pos.eqb negb].
  destruct (scalar_from_bytes (reverse z)) as [s|]; [by exists s | done].
Qed.

Definition drawn_bytes (x : Challenge) : bytes :=
  be (ch_ordinal x) 8 ++ be (ch_population_index x) 8 ++ be (ch_mdu_index x) 8 ++ be (ch_leaf_index x) 4 ++ ch_z x.

Lemma challenge_length x : blen (ch_z x) = 32 -> blen (drawn_bytes x) = 60.
Proof. intros Hz. unfold drawn_bytes. rewrite !blen_app, !blen_be. lia. Qed.

(** The fields of the [i]-th challenge. *)
Lemma challenge_fields l i x : Forall (fun x => blen (ch_z x) = 32) l -> l !! i = Some x ->
  let selected := concat (map drawn_bytes l) in let offset := Z.of_nat i * 60 in
  subarray selected offset (offset + 8) = be (ch_ordinal x) 8 /\ subarray selected (offset + 16) (offset + 16 + 8) = be (ch_mdu_index x) 8
  /\ subarray selected (offset + 24) (offset + 24 + 4) = be (ch_leaf_index x) 4 /\ subarray selected (offset + 28) (offset + 60) = ch_z x.
Proof.
  intros Hl Hi selected offset. pose proof (Forall_lookup_1 _ _ _ _ Hl Hi) as Hz. cbn beta in Hz.
  assert (Hchunk : subarray selected offset (offset + 60) = drawn_bytes x).
  { unfold selected, offset. replace (Z.of_nat i * 60 + 60) with ((Z.of_nat i + 1) * 60) by lia. apply subarray_concat.
    - apply Forall_map. eapply Forall_impl; [exact Hl|]. intros y Hy. by apply challenge_length.
    - change (map drawn_bytes l) with (drawn_bytes <$> l). by rewrite list_lookup_fmap, Hi. }
  assert (Hpart : forall a b, 0 <= a -> b <= 60 -> subarray selected (offset + a) (offset + b) = subarray (drawn_bytes x) a b).
  { intros a b Ha Hb. rewrite <- Hchunk, subarray_subarray by (unfold offset; lia). done. }
  unfold drawn_bytes in Hpart. rewrite <- !(Z.add_assoc offset). change (16 + 8) with 24. change (24 + 4) with 28.
  rewrite <- (Z.add_0_r offset) at 1. rewrite !Hpart by lia.
  split_and!; repeat (erewrite subarray_skip; [|apply blen_be | done]); change (8 - Z.of_nat 8) with 0;
    try (apply subarray_head; apply blen_be).
  change (28 - Z.of_nat 8 - Z.of_nat 8 - Z.of_nat 8 - Z.of_nat 4) with 0. apply subarray_all. lia.
Qed.

Lemma matchProofs_run window l proofs : Forall (fun x => blen (ch_z x) = 32) l ->
  forall i : nat, (i + length proofs <= 64)%nat ->
  (forall j p, proofs !! j = Some p -> exists x, l !! (i + j)%nat = Some x /\ ch_ordinal x = Z.of_nat (i + j)
     /\ ch_mdu_index x = wp_mdu p /\ wp_mdu p = mduIndex window /\ 0 <= wp_mdu p < 2 ^ 64
     /\ ch_leaf_index x = wp_blob p /\ wp_blob p = startBlobIndex window + Z.of_nat (i + j) /\ 0 <= wp_blob p < 2 ^ 32
     /\ ch_z x = wp_z p) ->
  matchProofs window (concat (map drawn_bytes l)) (Z.of_nat i) proofs = Ok tt.
Proof.
  intros Hl. induction proofs as [|p proofs IH]; intros i Hn H; [done|]. cbn [matchProofs length] in *.
  destruct (H 0%nat p eq_refl) as (x & Hx & Hord & Hm & Hm' & Hmb & Hb & Hb' & Hbb & Hz). rewrite Nat.add_0_r in Hx, Hord, Hb'.
  destruct (challenge_fields l i x Hl Hx) as (F1 & F2 & F3 & F4).
  set (selected := concat _) in *. rewrite !getBigUint64_from_be. unfold getUint32. change (foldl _ 0 ?b) with (from_be b).
  rewrite Hord in F1. rewrite Hm in F2. rewrite Hb in F3. rewrite F1, F2, F3, F4, !from_be_be.
  change (256 ^ Z.of_nat 8) with (2 ^ 64). change (256 ^ Z.of_nat 4) with (2 ^ 32). rewrite !Z.mod_small by lia.
  rewrite Hz, <- Hm', <- Hb', !Z.eqb_refl, (proj2 (equal_iff _ _)) by done.
  cbn [negb orb]. replace (Z.of_nat i + 1) with (Z.of_nat (S i)) by lia. apply IH; [lia|].
  intros j q Hj. destruct (H (S j) q Hj) as (y & Hy). replace (S i + j)%nat with (i + S j)%nat by lia. by exists y.
Qed.

Lemma matchCommitments_run blobs proofs start n : Forall canonical_blob blobs -> (start + n <= length blobs)%nat ->
  forall i : nat, (i + length proofs <= n)%nat ->
  (forall j p, proofs !! j = Some p -> wp_commitment p = commitment_of (nth (start + i + j) blobs [])) ->
  let bs := concat (take n (drop start blobs)) in
  @matchCommitments (core_crypto sha256 t ctx) bs (Z.of_nat i) proofs = Ok tt.
Proof.
  intros Hblobs Hs. induction proofs as [|p proofs IH]; intros i Hn H bs; [done|]. cbn [matchCommitments length] in *.
  destruct (lookup_lt_is_Some_2 blobs (start + i)) as [b Hb]; [lia|].
  assert (Hsub : subarray bs (Z.of_nat i * BLOB_SIZE_BYTES) ((Z.of_nat i + 1) * BLOB_SIZE_BYTES) = b).
  { apply subarray_concat.
    - apply Forall_take, Forall_drop. eapply Forall_impl; [exact Hblobs|]. intros c (Hc & _). exact Hc.
    - by rewrite lookup_take_lt, lookup_drop by lia. }
  rewrite Hsub. unfold Wire.commit_received_blob, core_crypto.
  rewrite (proj2 (blob_commits b (Forall_lookup_1 _ _ _ _ Hblobs Hb))). cbn [bind].
  rewrite (proj2 (equal_iff _ _)).
  - cbn [negb]. replace (Z.of_nat i + 1) with (Z.of_nat (S i)) by lia. apply IH; [lia|].
    intros j q Hj. rewrite (H (S j) q Hj). do 2 f_equal. lia.
  - rewrite (H 0%nat p eq_refl), Nat.add_0_r. by rewrite (nth_lookup_Some _ _ [] _ Hb).
Qed.

#[local] Opaque derive_z coefficient.

(** ** Theorem *)

(** A session whose challenges can be drawn, and that draws them for its window. *)
Record session_ready (session : FrozenSession) (seed : bytes) (c : Context) (l : list Challenge) : Prop := {
  sr_seed : fz_seed session = Some seed; sr_length : blen seed = 32;
  sr_height : fz_openedHeight session + 2 <= fz_height session <= fz_expiry session;
  sr_context : context_parse sha256 (fz_context session) = Ok c; sr_hash : cx_hash c = fz_contextHash session;
  sr_challenges : challenges sha256 c seed = Ok l;
  sr_places : map (fun x => (ch_mdu_index x, ch_leaf_index x)) l
    = map (fun i => (mduIndex (fz_window session), startBlobIndex (fz_window session) + i)) (seqZ 0 (blobCount (fz_window session))) }.

Lemma ready_lookup session seed c l : session_ready session seed c l -> forall j x, l !! j = Some x ->
  ch_ordinal x = Z.of_nat j /\ ch_mdu_index x = mduIndex (fz_window session)
  /\ ch_leaf_index x = startBlobIndex (fz_window session) + Z.of_nat j
  /\ derive_z sha256 (fz_contextHash session) seed (Z.of_nat j) (ch_mdu_index x) (ch_leaf_index x) = Ok (ch_z x).
Proof.
  intros [_ _ _ _ Hh Hc Hp] j x Hj. unfold challenges in Hc. ok_step Hc.
  destruct (challengeAt_lookup c seed v 0 l Hc j x Hj) as [Ho Hz]. rewrite Hh in Hz. rewrite Z.add_0_l in Ho, Hz.
  assert (Hx : (fun x => (ch_mdu_index x, ch_leaf_index x)) <$> l !! j = Some (ch_mdu_index x, ch_leaf_index x)) by by rewrite Hj.
  rewrite <- list_lookup_fmap in Hx. change (?f <$> l) with (map f l) in Hx. rewrite Hp in Hx.
  change (map ?f ?s) with (f <$> s) in Hx. rewrite list_lookup_fmap in Hx. apply fmap_Some in Hx as (i & Hi & Heq).
  apply lookup_seqZ in Hi as [-> _]. injection Heq as Hm Hb. rewrite Z.add_0_l in Hb. by split_and!.
Qed.

Lemma ready_points session seed c l : session_ready session seed c l ->
  Forall (fun x => blen (ch_z x) = 32 /\ Forall byte_ok (ch_z x) /\ exists s, parse_scalar (ch_z x) = Ok s) l.
Proof.
  intros H. apply Forall_lookup. intros j x Hj. destruct (ready_lookup _ _ _ _ H j x Hj) as (_ & _ & _ & Hz). by apply derive_z_scalar in Hz.
Qed.

Lemma honest_proofs session seed c l mdu0 blobs root : session_ready session seed c l ->
  generation_ok mdu0 blobs (mduIndex (fz_window session)) root ->
  0 <= startBlobIndex (fz_window session) ->
  startBlobIndex (fz_window session) + Z.of_nat (length l) <= Z.of_nat (length blobs) ->
  exists proofs, mapR (fun x => honestProof mdu0 blobs (ch_mdu_index x) (ch_leaf_index x) (ch_z x)) l = Ok proofs
    /\ Forall2 (fun x p => proof_good blobs (ch_mdu_index x) (ch_leaf_index x) (ch_z x) root p) l proofs.
Proof.
  intros Hready Hgen Hs Hlen. pose proof (ready_points _ _ _ _ Hready) as Hpoints.
  assert (Hplaces : Forall (fun x => ch_mdu_index x = mduIndex (fz_window session) /\ 0 <= ch_leaf_index x < Z.of_nat (length blobs)) l).
  { apply Forall_lookup. intros j x Hj. destruct (ready_lookup _ _ _ _ Hready j x Hj) as (_ & -> & -> & _).
    apply lookup_lt_Some in Hj. split; [done | lia]. }
  clear Hready Hlen. induction l as [|x l IH]; [by exists []|].
  apply Forall_cons in Hpoints as [(Hz & Hok & s & Hpar) Hpoints]. apply Forall_cons in Hplaces as [[Hm Hb] Hplaces].
  destruct (IH Hpoints Hplaces) as (proofs & Hproofs & Hgood).
  destruct (honest_proof_good mdu0 blobs (mduIndex (fz_window session)) root (ch_leaf_index x) (ch_z x) s Hgen Hb Hz Hok Hpar) as (p & Hp & Hpg).
  exists (p :: proofs). cbn [mapR]. rewrite Hm, Hp, Hproofs. split; [done|]. constructor; [by rewrite Hm | done].
Qed.

Lemma payload_length blobs start n : Forall canonical_blob blobs -> 0 <= start -> 0 <= n -> start + n <= Z.of_nat (length blobs) ->
  blen (concat (take (Z.to_nat n) (drop (Z.to_nat start) blobs))) = n * BLOB_SIZE_BYTES.
Proof.
  intros Hb Hs Hn Hle. assert (Hc : forall k, Forall canonical_blob k -> blen (concat k) = Z.of_nat (length k) * BLOB_SIZE_BYTES).
  { induction 1 as [|b k (Hlen & _) _ IH]; [done|]. cbn [concat length]. rewrite blen_app, IH, Hlen. unfold BLOB_SIZE_BYTES, BLOB_SIZE. lia. }
  rewrite Hc by (by apply Forall_take, Forall_drop). rewrite length_take, length_drop. f_equal. lia.
Qed.

Lemma good_lookup session seed c l blobs root proofs : session_ready session seed c l ->
  Forall2 (fun x p => proof_good blobs (ch_mdu_index x) (ch_leaf_index x) (ch_z x) root p) l proofs ->
  forall j p, proofs !! j = Some p -> exists x, l !! j = Some x
    /\ proof_good blobs (mduIndex (fz_window session)) (startBlobIndex (fz_window session) + Z.of_nat j) (wp_z p) root p
    /\ wp_z p = ch_z x.
Proof.
  intros Hready Hgood j p Hp. destruct (Forall2_lookup_r _ _ _ _ _ Hgood Hp) as (x & Hx & Hpg). exists x. split; [done|].
  destruct (ready_lookup _ _ _ _ Hready j x Hx) as (_ & Hm & Hb & _). rewrite Hm, Hb in Hpg.
  destruct (pg_place _ _ _ _ _ _ Hpg) as (_ & _ & Hz). by rewrite Hz.
Qed.

Lemma ready_hash session seed c l : session_ready session seed c l ->
  wasm_challenge_context_hash sha256 (fz_context session) = Ok (fz_contextHash session) /\ blen (fz_contextHash session) = 32.
Proof.
  intros [_ _ _ Hc Hh _ _]. unfold wasm_challenge_context_hash. rewrite Hc. cbn [bind]. rewrite Hh. split; [done|].
  rewrite <- Hh. unfold context_parse in Hc. ok_step Hc. ok_step Hc. apply Ok_inj in Hc as <-. cbn [cx_hash]. apply Hsha.
Qed.

Lemma ready_selected session seed c l : session_ready session seed c l ->
  wasm_derive_challenges sha256 (fz_context session) seed = Ok (concat (map drawn_bytes l))
  /\ blen (concat (map drawn_bytes l)) = Z.of_nat (length l) * 60.
Proof.
  intros H. pose proof (ready_points _ _ _ _ H) as Hp. destruct H as [_ Hs _ Hc _ Hch _]. split.
  - unfold wasm_derive_challenges. rewrite Hc. cbn [bind]. rewrite Hs. cbn [Z.eqb Pos.eqb negb]. unfold challenges_flat. rewrite Hch. done.
  - clear Hch. induction Hp as [|x l (Hz & _) _ IH]; [done|]. cbn [map concat length]. rewrite blen_app, IH, challenge_length by done. lia.
Qed.

Lemma good_match session seed c l blobs root proofs : session_ready session seed c l -> Z.of_nat (length blobs) <= 16384 ->
  (length proofs <= 64)%nat ->
  Forall2 (fun x p => proof_good blobs (ch_mdu_index x) (ch_leaf_index x) (ch_z x) root p) l proofs ->
  matchProofs (fz_window session) (concat (map drawn_bytes l)) 0 proofs = Ok tt.
Proof.
  intros Hready Hcount Hn Hgood. apply (matchProofs_run (fz_window session) l proofs) with (i := 0%nat).
  - eapply Forall_impl; [exact (ready_points _ _ _ _ Hready)|]. by intros x (Hz & _).
  - lia.
  - intros j p Hp. destruct (good_lookup _ _ _ _ _ _ _ Hready Hgood j p Hp) as (x & Hx & Hpg & Hz). exists x.
    destruct (ready_lookup _ _ _ _ Hready j x Hx) as (Ho & Hm & Hb & _). destruct Hpg as [[Hm1 Hb1 _ _ _ _ _] (Hpm & Hpb & _) _ _].
    split_and!; (done || congruence || lia).
Qed.

Lemma good_batch session seed c l blobs root proofs : session_ready session seed c l ->
  batch_shape proofs root (fz_contextHash session) seed (Z.of_nat (length blobs)) ->
  Forall2 (fun x p => proof_good blobs (ch_mdu_index x) (ch_leaf_index x) (ch_z x) root p) l proofs ->
  p_leafCount (fz_pin session) = Z.of_nat (length blobs) ->
  exists transcript openings, prepare_session_batch sha256 (batchOf session seed root proofs) = Ok (Some (transcript, openings))
    /\ SessionBatch.verify_polyfs_session_batch sha256 ctx
         (batch_bytes proofs root (fz_contextHash session) seed (Z.of_nat (length blobs)))
       = (let! _ := coefficients_of (coefficient sha256) (sha256 transcript) openings in Ok true).
Proof.
  intros Hready Hshape Hgood Hleaves. unfold batchOf. rewrite Hleaves.
  apply (honest_batch_accepted blobs (mduIndex (fz_window session))); [done|].
  intros j p Hp. destruct (good_lookup _ _ _ _ _ _ _ Hready Hgood j p Hp) as (x & Hx & Hpg & Hz).
  destruct (ready_lookup _ _ _ _ Hready j x Hx) as (_ & Hm & Hb & Hd). exists (startBlobIndex (fz_window session) + Z.of_nat j).
  split; [|done]. by rewrite Hz, <- Hm, <- Hb.
Qed.

Lemma good_commitments session seed c l blobs root proofs n : session_ready session seed c l -> Forall canonical_blob blobs ->
  0 <= startBlobIndex (fz_window session) -> (Z.to_nat (startBlobIndex (fz_window session)) + n <= length blobs)%nat -> (length proofs <= n)%nat ->
  Forall2 (fun x p => proof_good blobs (ch_mdu_index x) (ch_leaf_index x) (ch_z x) root p) l proofs ->
  @matchCommitments (core_crypto sha256 t ctx) (concat (take n (drop (Z.to_nat (startBlobIndex (fz_window session))) blobs))) 0 proofs = Ok tt.
Proof.
  intros Hready Hblobs Hs Hle Hn Hgood.
  apply (matchCommitments_run blobs proofs (Z.to_nat (startBlobIndex (fz_window session))) n Hblobs Hle 0); [lia|].
  intros j p Hp. destruct (good_lookup _ _ _ _ _ _ _ Hready Hgood j p Hp) as (x & _ & Hpg & _).
  rewrite (pg_commitment _ _ _ _ _ _ Hpg). do 2 f_equal. lia.
Qed.

Lemma generation_root mdu0 blobs mdu root : generation_ok mdu0 blobs mdu root ->
  blen root = 32 /\ unhex (hex root) 32 = Ok root.
Proof.
  intros Hgen. destruct (root_exists (mdu_commitments ctx mdu0)) as (r & Hr & _ & H32 & Hok).
  - intros H0. pose proof (length_commitments ctx mdu0) as Hlc. rewrite H0 in Hlc. discriminate Hlc.
  - rewrite (gk_root _ _ _ _ Hgen) in Hr. apply Ok_inj in Hr as <-. split; [done|]. apply unhex_iff. split_and!; try done. by intros ->.
Qed.

(** C4: Nothing that an honest provider sends is turned down.  Take any content of a
    generation of 64 to 16384 blobs of canonical scalars per MDU whose first MDU holds the
    roots, a setup in the Lagrange form that a secret makes, windows of at most 16 bits for
    the sums of points, and 1 to 64 blobs of an MDU; let the session have its seed, be
    neither too early nor expired, and draw its challenges for those blobs.  Then the proofs
    that the core library computes for the blobs exist, they make a batch with its openings,
    and the verifier of the website returns the blobs when the coefficients of that batch
    are found.  It fails in no other way, and this one is that for some opening none of 256
    digests is a scalar that is not zero. *)
Theorem honest_window_accepted session seed c l mdu0 blobs root :
  session_ready session seed c l -> generation_ok mdu0 blobs (mduIndex (fz_window session)) root ->
  p_root (fz_pin session) = hex root -> p_leafCount (fz_pin session) = Z.of_nat (length blobs) ->
  1 <= blobCount (fz_window session) <= 64 -> 0 <= startBlobIndex (fz_window session) ->
  startBlobIndex (fz_window session) + blobCount (fz_window session) <= Z.of_nat (length blobs) ->
  let payload := concat (take (Z.to_nat (blobCount (fz_window session))) (drop (Z.to_nat (startBlobIndex (fz_window session))) blobs)) in
  exists proofs transcript openings,
    mapR (fun x => honestProof mdu0 blobs (ch_mdu_index x) (ch_leaf_index x) (ch_z x)) l = Ok proofs
    /\ prepare_session_batch sha256 (batchOf session seed root proofs) = Ok (Some (transcript, openings))
    /\ @verifyRetrievalWindow (core_crypto sha256 t ctx) session {| re_bytes := payload; re_proofs := proofs |}
       = (let! _ := coefficients_of (coefficient sha256) (sha256 transcript) openings in Ok payload).
Proof.
  intros Hready Hgen Hroot Hleaves Hn Hs Hend payload. set (w := fz_window session) in *.
  assert (Hlen : length l = Z.to_nat (blobCount w)).
  { pose proof (f_equal length (sr_places _ _ _ _ Hready)) as H. rewrite !length_map, length_seqZ in H. exact H. }
  destruct (honest_proofs session seed c l mdu0 blobs root Hready Hgen Hs) as (proofs & Hproofs & Hgood); [fold w; lia|].
  pose proof (Forall2_length _ _ _ Hgood) as Hlp.
  pose proof (good_lookup _ _ _ _ _ _ _ Hready Hgood) as Hlook. fold w in Hlook.
  destruct (generation_root _ _ _ _ Hgen) as [H32 Hunhex].
  destruct (ready_hash _ _ _ _ Hready) as [Hhash Hch32]. destruct (ready_selected _ _ _ _ Hready) as [Hsel Hsel60].
  pose proof (gk_count _ _ _ _ Hgen) as Hcount.
  assert (Hshape : batch_shape proofs root (fz_contextHash session) seed (Z.of_nat (length blobs))).
  { split_and!; try done; try lia; [apply (sr_length _ _ _ _ Hready)|]. apply Forall_lookup. intros j p Hp.
    destruct (Hlook j p Hp) as (x & _ & Hpg & _). apply Hpg. }
  destruct (good_batch _ _ _ _ _ _ _ Hready Hshape Hgood Hleaves) as (tr & openings & Hprep & Hbatch).
  exists proofs, tr, openings. split; [exact Hproofs|]. split; [exact Hprep|].
  assert (Hplen : blen payload = blobCount w * BLOB_SIZE_BYTES) by (apply payload_length; [apply Hgen | lia | lia | lia]).
  unfold verifyRetrievalWindow. cbn [re_proofs re_bytes]. fold w. rewrite (sr_seed _ _ _ _ Hready).
  pose proof (sr_height _ _ _ _ Hready). rewrite !(proj2 (Z.ltb_ge _ _)), Hplen, Z.eqb_refl, (proj2 (Z.eqb_eq _ _)) by lia. cbn [negb orb].
  unfold Wire.challenge_context_hash, Wire.derive_challenges, Wire.verify_polyfs_session_batch, core_crypto at 1 2 3.
  rewrite Hhash. cbn [bind]. rewrite (proj2 (equal_iff _ _)) by done. cbn [negb]. rewrite Hsel. cbn [bind].
  rewrite Hsel60, (proj2 (Z.eqb_eq _ _)) by lia. cbn [negb].
  unfold w. rewrite (good_match session seed c l blobs root proofs Hready (proj2 Hcount) ltac:(lia) Hgood). cbn [bind]. rewrite Hroot, Hunhex, Hleaves. cbn [bind].
  rewrite (proj1 (encodeSessionBatch_Ok _ _ _ _ _ Hshape)). cbn [bind]. rewrite Hbatch. clear Hbatch.
  destruct (coefficients_of _ _ _); [|done]. cbn [bind negb].
  unfold payload, w. rewrite (good_commitments session seed c l blobs root proofs (Z.to_nat (blobCount (fz_window session))) Hready (gk_blobs _ _ _ _ Hgen) Hs
    ltac:(fold w; lia) ltac:(fold w; lia) Hgood). done.
Qed.
End honest.

(** ** An empty generation *)

#[local] Existing Instance Exponent.scalars.
#[local] Existing Instance Exponent.exponent_curve.
#[local] Existing Instance KzgProof.sample_build.
#[local] Existing Instance Exponent.exponent_laws.
#[local] Existing Instance RootTable.sample_trees.
#[local] Existing Instance RootTable.sample_merkle.

Definition empty_mdu0 : bytes := zeros MDU_SIZE.
Definition empty_blobs : list bytes := replicate 128 (zeros BLOB_SIZE).
Definition ready_challenge : Challenge :=
  {| ch_ordinal := 0; ch_population_index := 5; ch_mdu_index := 2; ch_leaf_index := 5; ch_z := sample_digest [] |}.

Lemma zero_chunks n : mapR parse_scalar (chunksN n 32 (zeros (Z.of_nat n * 32))) = Ok (replicate n (Exponent.el 0)).
Proof.
  assert (Hc : chunksN n 32 (replicate (n * 32) 0) = replicate n (zeros 32)).
  { induction n as [|n IH]; [done|]. cbn [chunksN Nat.mul replicate]. rewrite replicate_add. f_equal.
    by rewrite drop_app_length' by (by rewrite length_replicate). }
  unfold zeros at 1. replace (Z.to_nat (Z.of_nat n * 32)) with (n * 32)%nat by lia. rewrite Hc. clear Hc.
  assert (Hz : parse_scalar (zeros 32) = Ok (Exponent.el 0)) by (vm_compute; reflexivity).
  induction n as [|n IH]; [done|]. cbn [replicate mapR]. by rewrite Hz, IH.
Qed.

Lemma zero_canonical : canonical_blob (zeros BLOB_SIZE).
Proof.
  split_and!.
  - apply blen_zeros. discriminate.
  - apply Forall_replicate. unfold byte_ok. lia.
  - exists (replicate 4096 (Exponent.el 0)). unfold chunks_exact.
    replace (length (zeros BLOB_SIZE) / 32)%nat with 4096%nat by (unfold zeros; rewrite length_replicate; vm_compute; reflexivity).
    exact (zero_chunks 4096).
Qed.

Lemma empty_root l : l <> [] -> create_mdu_merkle_root l = Ok (zeros 32).
Proof. intros Hl. by destruct l. Qed.

Lemma empty_generation : generation_ok KzgProof.sample_setup empty_mdu0 empty_blobs 2 (zeros 32).
Proof.
  constructor.
  - apply blen_zeros. discriminate.
  - apply Forall_replicate. unfold byte_ok. lia.
  - split; [lia | discriminate].
  - apply Forall_replicate. exact zero_canonical.
  - unfold empty_blobs. rewrite length_replicate. lia.
  - apply empty_root. intros H0. pose proof (length_commitments KzgProof.sample_setup empty_mdu0) as H. rewrite H0 in H. discriminate H.
  - intros root Hr. rewrite empty_root in Hr by (intros H0%map_eq_nil; discriminate H0). apply Ok_inj in Hr as <-.
    rewrite (from_be_zero (root_cell empty_mdu0 2)), (from_be_zero (zeros 32)); [done | by apply Forall_replicate |].
    by apply Forall_take, Forall_drop, Forall_replicate.
Qed.

Lemma ready_session_ready : session_ready sample_digest ready_session (replicate 32 3) sample_parsed [ready_challenge].
Proof.
  constructor; try reflexivity. cbn. lia.
Qed.

Lemma honest_window_accepted_witness : exists proofs transcript openings,
  mapR (fun x => honestProof sample_target KzgProof.sample_setup empty_mdu0 empty_blobs (ch_mdu_index x) (ch_leaf_index x) (ch_z x)) [ready_challenge] = Ok proofs
  /\ prepare_session_batch sample_digest (batchOf ready_session (replicate 32 3) (zeros 32) proofs) = Ok (Some (transcript, openings))
  /\ @verifyRetrievalWindow (core_crypto sample_digest sample_target KzgProof.sample_setup) ready_session
       {| re_bytes := concat (take 1 (drop 5 empty_blobs)); re_proofs := proofs |}
     = (let! _ := coefficients_of (coefficient sample_digest) (sample_digest transcript) openings in
        Ok (concat (take 1 (drop 5 empty_blobs)))).
Proof.
  apply (honest_window_accepted sample_digest sample_target KzgProof.sample_setup sample_tau) with (seed := replicate 32 3) (c := sample_parsed) (root := zeros 32).
  - unfold target_ok. cbn. lia.
  - exact sample_setup_ok.
  - intros l. split; [reflexivity|]. apply Forall_app. split; [apply Forall_replicate; unfold byte_ok; lia|]. constructor; [unfold byte_ok; lia | constructor].
  - exact ready_session_ready.
  - exact empty_generation.
  - vm_compute. reflexivity.
  - vm_compute. reflexivity.
  - cbn. lia.
  - cbn. lia.
  - cbn. lia.
Defined.
