(* ===== verification/Pool.v ===== *)
(** * The upload pool (src/polystore-website/src/lib/upload/engine.ts)

    [runUploadTasks] and [runUploadTaskBundles] share one scheduler: [launchNext]
    starts units in order while fewer than [concurrency] are active and no error
    stops it, each unit runs to its end, [.finally] frees its place, launches
    again and settles the promise when nothing is left.  This file models that
    scheduler over an abstract unit of work: [start] launches unit [i] (its
    last argument is [active] after the increment), [react]
    is what the unit's handlers do when the request it waits for is answered,
    and says whether the unit waits for a further request.

    Handlers and [.finally] callbacks of different units interleave freely, so the
    scheduler is a step relation.  [finished] records the units whose
    [.finally] ran; the code does not keep it.

    The laws of a unit are the class [PoolLaws]; the theorems of this file are
    proved from them, and [Engine] supplies the two instances. *)

From S2P Require Import Prelude.
Local Open Scope nat_scope.

(** [if (x)] for [x : string | null]. *)
Definition truthy (x : option string) : bool :=
  match x with Some s => negb (String.eqb s "") | None => false end.

(** The answer to a request: the promise resolves, or rejects with an error. *)
Record error := { name : string; message : string }.
Inductive response :=
| Resolved
| Rejected (e : error).

(** A rejection whose message is not empty. *)
Definition good (r : response) : Prop :=
  match r with Resolved => True | Rejected e => message e <> "" end.

Section pool.
Context {Sh Job : Type}.
Context (firstError : Sh -> option string).
Context (start : Sh -> nat -> nat -> Sh * Job).
Context (react : Sh -> nat -> Job -> response -> Sh * option Job).
Context (n concurrency : nat) (continueOnError : bool).

Record pool := {
  shared : Sh;
  nextIndex : nat;
  flying : list (nat * Job);
  finishing : list nat;
  finished : list nat;
  resolved : option Sh }.

Definition active (p : pool) : nat := length (flying p) + length (finishing p).

Definition settleIfDone (p : pool) : pool :=
  if negb (active p =? 0) then p else
  if (nextIndex p <? n) && (negb (truthy (firstError (shared p))) || continueOnError) then p else
  {| shared := shared p; nextIndex := nextIndex p; flying := flying p;
     finishing := finishing p; finished := finished p;
     resolved := match resolved p with Some s => Some s | None => Some (shared p) end |}.

Definition launch (p : pool) : pool :=
  let '(s, j) := start (shared p) (nextIndex p) (S (active p)) in
  {| shared := s; nextIndex := S (nextIndex p); flying := flying p ++ [(nextIndex p, j)];
     finishing := finishing p; finished := finished p; resolved := resolved p |}.

(** The [while] of [launchNext]; every pass launches one of the units left. *)
Fixpoint launchLoop (fuel : nat) (p : pool) : pool :=
  match fuel with
  | O => p
  | S fuel =>
      if (continueOnError || negb (truthy (firstError (shared p))))
         && (active p <? concurrency) && (nextIndex p <? n)
      then launchLoop fuel (launch p) else p
  end.
Definition launchNext (p : pool) : pool := settleIfDone (launchLoop (n - nextIndex p) p).

Definition pool_init (s : Sh) : pool :=
  launchNext {| shared := s; nextIndex := 0; flying := []; finishing := []; finished := [];
                resolved := None |}.

(** [.finally(() => { active -= 1; launchNext(); settleIfDone() })] of unit [i]. *)
Definition pool_finally (l1 : list nat) (i : nat) (l2 : list nat) (p : pool) : pool :=
  settleIfDone (launchNext
    {| shared := shared p; nextIndex := nextIndex p; flying := flying p;
       finishing := l1 ++ l2; finished := i :: finished p; resolved := resolved p |}).

(** The handlers of unit [i] run on an answer. *)
Definition pool_react (l1 : list (nat * Job)) (i : nat) (j : Job) (l2 : list (nat * Job))
    (r : response) (p : pool) : pool :=
  let '(s, next) := react (shared p) i j r in
  {| shared := s; nextIndex := nextIndex p;
     flying := match next with Some j' => l1 ++ (i, j') :: l2 | None => l1 ++ l2 end;
     finishing := match next with Some _ => finishing p | None => finishing p ++ [i] end;
     finished := finished p; resolved := resolved p |}.

Inductive pool_step (ok : response -> Prop) : pool -> pool -> Prop :=
| step_react l1 i j l2 r p :
    flying p = l1 ++ (i, j) :: l2 -> ok r -> pool_step ok p (pool_react l1 i j l2 r p)
| step_finally l1 i l2 p :
    finishing p = l1 ++ i :: l2 -> pool_step ok p (pool_finally l1 i l2 p).

Definition reachable (ok : response -> Prop) (s : Sh) (p : pool) : Prop :=
  rtc (pool_step ok) (pool_init s) p.

(** ** The scheduler's invariant *)

Definition ids (p : pool) : list nat := (flying p).*1 ++ finishing p ++ finished p.

Record sched_inv (p : pool) : Prop := {
  inv_ids : ids p ≡ₚ seq 0 (nextIndex p);
  inv_next : nextIndex p <= n;
  inv_active : active p <= concurrency;
  inv_done : resolved p <> None -> active p = 0;
  inv_result s : resolved p = Some s ->
    s = shared p /\ (n <= nextIndex p \/ truthy (firstError s) = true /\ continueOnError = false) }.

(** After [launchNext] either something is active or the promise is settled. *)
Definition settled_or_active (p : pool) : Prop := active p <> 0 \/ resolved p <> None.

Lemma launch_inv p :
  sched_inv p -> active p < concurrency -> nextIndex p < n -> resolved p = None ->
  sched_inv (launch p) /\ resolved (launch p) = None.
Proof.
  intros [Hids Hn Ha Hd _] Hlt Hnext Hr. unfold launch.
  destruct (start (shared p) (nextIndex p) (S (active p))) as [s j]. split; [|done].
  constructor; unfold ids, active in *; cbn [flying finishing finished nextIndex resolved] in *.
  - rewrite seq_S, <- Hids, fmap_app. cbn. solve_Permutation.
  - lia.
  - rewrite length_app. cbn. lia.
  - done.
  - congruence.
Qed.

Lemma launchLoop_inv fuel p :
  sched_inv p -> resolved p = None ->
  sched_inv (launchLoop fuel p) /\ resolved (launchLoop fuel p) = None.
Proof.
  revert p; induction fuel as [|fuel IH]; intros p Hi Hr; cbn [launchLoop]; [done|].
  destruct (_ && _) eqn:E; [|done].
  rewrite !andb_true_iff, !Nat.ltb_lt in E. destruct E as [[_ ?] ?].
  destruct (launch_inv p) as [? ?]; [done..|]. by apply IH.
Qed.

Lemma launchLoop_resolved fuel p : resolved (launchLoop fuel p) = resolved p.
Proof.
  revert p; induction fuel as [|fuel IH]; intros p; cbn [launchLoop]; [done|].
  case_match; [|done]. rewrite IH. unfold launch. by destruct (start _ _ _).
Qed.

(** The loop stops for a reason: an error, a full pool or nothing left. *)
Lemma launchLoop_exit fuel p :
  n - nextIndex p <= fuel ->
  let q := launchLoop fuel p in
  (continueOnError = false /\ truthy (firstError (shared q)) = true)
  \/ concurrency <= active q \/ n <= nextIndex q.
Proof.
  revert p; induction fuel as [|fuel IH]; intros p Hf; cbn [launchLoop]; [right; right; lia|].
  destruct (_ && _) eqn:E.
  - apply IH. unfold launch. destruct (start _ _ _). cbn. lia.
  - rewrite !andb_false_iff, !Nat.ltb_ge, orb_false_iff, negb_false_iff in E.
    destruct E as [[[? ?]|?]|?]; tauto.
Qed.

Lemma settleIfDone_inv p : sched_inv p -> sched_inv (settleIfDone p).
Proof.
  intros [Hids Hn Ha Hd Hr]. unfold settleIfDone.
  destruct (Nat.eqb_spec (active p) 0); cbn [negb]; [|done].
  destruct (_ && _) eqn:E; [done|]. constructor; cbn; [done..|].
  intros s. destruct (resolved p) as [s0|] eqn:Er; [by intros [= ->]; apply Hr|].
  intros [= <-]. split; [done|].
  rewrite andb_false_iff, Nat.ltb_ge, orb_false_iff, negb_false_iff in E. tauto.
Qed.

Lemma settleIfDone_active p : active (settleIfDone p) = active p.
Proof. unfold settleIfDone. by repeat case_match. Qed.

Lemma launchNext_inv p :
  0 < concurrency \/ n = 0 -> sched_inv p -> resolved p = None ->
  sched_inv (launchNext p) /\ settled_or_active (launchNext p).
Proof.
  intros Hc Hi Hr. unfold launchNext.
  destruct (launchLoop_inv (n - nextIndex p) p Hi Hr) as [Hq Hrq].
  pose proof (launchLoop_exit (n - nextIndex p) p (le_n _)) as Hex. cbv zeta in Hex.
  set (q := launchLoop _ _) in *. split; [by apply settleIfDone_inv|].
  unfold settled_or_active. rewrite settleIfDone_active.
  destruct (Nat.eq_dec (active q) 0) as [Ha|Ha]; [right|by left].
  unfold settleIfDone. rewrite Ha. cbn [Nat.eqb negb].
  assert ((nextIndex q <? n) && (negb (truthy (firstError (shared q))) || continueOnError) = false) as ->.
  { apply andb_false_iff. pose proof (inv_next q Hq).
    destruct Hex as [[-> ->]|[?|?]]; [by right | left; apply Nat.ltb_ge; lia..]. }
  cbn. by case_match.
Qed.

Lemma settleIfDone_settled p : settled_or_active p -> settled_or_active (settleIfDone p).
Proof.
  unfold settled_or_active. rewrite settleIfDone_active. intros [?|?]; [by left|right].
  unfold settleIfDone. repeat case_match; cbn; done.
Qed.

Lemma pool_step_inv ok p q :
  0 < concurrency \/ n = 0 -> pool_step ok p q -> sched_inv p -> settled_or_active p ->
  sched_inv q /\ settled_or_active q.
Proof.
  intros Hc Hs Hi Hsa. pose proof Hi as [Hids Hn Ha Hd _].
  destruct Hs as [l1 i j l2 r p Hf _|l1 i l2 p Hf].
  - assert (Hr : resolved p = None).
    { destruct (resolved p) eqn:E; [|done]. exfalso.
      assert (active p = 0) as Hz by (apply Hd; done).
      unfold active in Hz. rewrite Hf, length_app in Hz. cbn in Hz. lia. }
    unfold pool_react. destruct (react (shared p) i j r) as [s [j'|]].
    + split; [constructor|left]; unfold ids, active in *; cbn [flying finishing finished nextIndex resolved];
        rewrite ?Hf, ?Hr in *.
      * rewrite <- Hids, !fmap_app. done.
      * done.
      * rewrite length_app in *. done.
      * done.
      * done.
      * rewrite length_app. cbn. lia.
    + split; [constructor|left]; unfold ids, active in *; cbn [flying finishing finished nextIndex resolved];
        rewrite ?Hf, ?Hr in *.
      * rewrite <- Hids, !fmap_app. cbn. solve_Permutation.
      * done.
      * rewrite !length_app in *. cbn in *. lia.
      * done.
      * done.
      * rewrite !length_app. cbn. lia.
  - assert (Hr : resolved p = None).
    { destruct (resolved p) eqn:E; [|done]. exfalso.
      assert (active p = 0) as Hz by (apply Hd; done).
      unfold active in Hz. rewrite Hf, length_app in Hz. cbn in Hz. lia. }
    unfold pool_finally. set (p' := {| shared := _ |}).
    assert (Hp' : sched_inv p').
    { constructor; unfold p', ids, active in *; cbn [flying finishing finished nextIndex resolved];
        rewrite ?Hf, ?Hr in *.
      - rewrite <- Hids. solve_Permutation.
      - done.
      - rewrite !length_app in *. cbn in *. lia.
      - done.
      - done. }
    destruct (launchNext_inv p') as [? ?]; [done | done | done |].
    split; [by apply settleIfDone_inv | by apply settleIfDone_settled].
Qed.

Lemma pool_init_inv s :
  0 < concurrency \/ n = 0 -> sched_inv (pool_init s) /\ settled_or_active (pool_init s).
Proof.
  intros Hc. apply launchNext_inv; [done| |done].
  constructor; unfold ids, active; cbn; (done || lia).
Qed.

Lemma reachable_inv ok s p :
  0 < concurrency \/ n = 0 -> reachable ok s p -> sched_inv p /\ settled_or_active p.
Proof.
  intros Hc Hr. eapply (rtc_preserves _ (fun p => sched_inv p /\ settled_or_active p));
    [|exact Hr | by apply pool_init_inv].
  intros x y Hs [? ?]. by eapply pool_step_inv.
Qed.

(** ** Facts about the shared state alone *)

(** The pool changes the shared state through [start], at most [concurrency] units
    being active, and [react]. *)
Lemma launchLoop_shared (Q : Sh -> Prop) fuel p :
  (forall s i a, a <= concurrency -> Q s -> Q (start s i a).1) ->
  Q (shared p) -> Q (shared (launchLoop fuel p)).
Proof.
  intros Hs. revert p; induction fuel as [|fuel IH]; intros p HQ; cbn [launchLoop]; [done|].
  destruct (_ && _) eqn:E; [|done]. rewrite !andb_true_iff, !Nat.ltb_lt in E.
  apply IH. unfold launch. pose proof (Hs (shared p) (nextIndex p) (S (active p))) as Hq.
  destruct (start (shared p) (nextIndex p) (S (active p))). cbn. apply Hq; [lia|done].
Qed.

Lemma settleIfDone_shared p : shared (settleIfDone p) = shared p.
Proof. unfold settleIfDone. by repeat case_match. Qed.

Lemma reach_shared (Q : Sh -> Prop) ok s p :
  (forall s i a, a <= concurrency -> Q s -> Q (start s i a).1) ->
  (forall s i j r, Q s -> ok r -> Q (react s i j r).1) ->
  Q s -> reachable ok s p ->
  Q (shared p) /\ forall r, resolved p = Some r -> Q r.
Proof.
  intros Hs Hr HQ Hreach.
  assert (Hset : forall p, Q (shared p) /\ (forall r, resolved p = Some r -> Q r) ->
    Q (shared (settleIfDone p)) /\ (forall r, resolved (settleIfDone p) = Some r -> Q r)).
  { intros p0 [Hq Hres]. rewrite settleIfDone_shared. split; [done|].
    unfold settleIfDone. repeat case_match; cbn; try done; intros ? [= <-]; auto. }
  assert (Hnext : forall p, Q (shared p) /\ (forall r, resolved p = Some r -> Q r) ->
    Q (shared (launchNext p)) /\ (forall r, resolved (launchNext p) = Some r -> Q r)).
  { intros p0 [Hq Hres]. apply Hset. split; [by apply launchLoop_shared|].
    intros r. rewrite launchLoop_resolved. apply Hres. }
  eapply (rtc_preserves _ (fun p => Q (shared p) /\ forall r, resolved p = Some r -> Q r));
    [|exact Hreach|by apply Hnext].
  intros x y [l1 i j l2 r p0 _ Hok|l1 i l2 p0 _] [Hq Hres].
  - unfold pool_react. pose proof (Hr (shared p0) i j r Hq Hok) as Hq'.
    by destruct (react (shared p0) i j r).
  - by apply Hset, Hnext.
Qed.

(** A log that only launches extend lists the launched units in order. *)
Lemma launch_log {L} (log : Sh -> list L) (f : nat -> list L) ok s p :
  (forall s i a, log (start s i a).1 = log s ++ f i) ->
  (forall s i j r, log (react s i j r).1 = log s) ->
  log s = [] -> reachable ok s p -> log (shared p) = concat (map f (seq 0 (nextIndex p))).
Proof.
  intros Hs Hr H0 Hreach.
  assert (Hset : forall p, nextIndex (settleIfDone p) = nextIndex p).
  { intros p0. unfold settleIfDone. by repeat case_match. }
  assert (Hloop : forall fuel p, log (shared p) = concat (map f (seq 0 (nextIndex p))) ->
    log (shared (launchLoop fuel p)) = concat (map f (seq 0 (nextIndex (launchLoop fuel p))))).
  { induction fuel as [|fuel IH]; intros p0 Hp; cbn [launchLoop]; [done|]. case_match; [|done].
    apply IH. unfold launch. pose proof (Hs (shared p0) (nextIndex p0) (S (active p0))) as Hq.
    destruct (start (shared p0) (nextIndex p0) (S (active p0))). cbn [shared nextIndex fst] in *.
    by rewrite Hq, seq_S, map_app, concat_app, Hp, Nat.add_0_l; cbn; rewrite app_nil_r. }
  eapply (rtc_preserves _ (fun p => log (shared p) = concat (map f (seq 0 (nextIndex p)))));
    [|exact Hreach|].
  - intros x y [l1 i j l2 r p0 _ Hok|l1 i l2 p0 _] Hq.
    + unfold pool_react. pose proof (Hr (shared p0) i j r) as Hq'.
      destruct (react (shared p0) i j r). cbn [shared nextIndex fst] in *. by rewrite Hq'.
    + unfold pool_finally, launchNext. rewrite !settleIfDone_shared, !Hset. by apply Hloop.
  - unfold pool_init, launchNext. rewrite settleIfDone_shared, Hset. by apply Hloop.
Qed.

End pool.

Arguments pool : clear implicits.

(** ** What a unit of work promises *)

(** [fresh s i]: nothing happened to unit [i] yet; [job_inv s i j]: what holds of
    an unfinished unit; [unit_ok s i]: the work of unit [i] was accepted.  A
    finished unit was accepted or left an error behind, provided every
    rejection has a message. *)
Class PoolLaws {Sh Job} (firstError : Sh -> option string) (start : Sh -> nat -> nat -> Sh * Job)
    (react : Sh -> nat -> Job -> response -> Sh * option Job) := {
  extends : relation Sh;
  unit_ok : Sh -> nat -> Prop;
  job_inv : Sh -> nat -> Job -> Prop;
  fresh : Sh -> nat -> Prop;
  cost : nat -> Job -> nat;
  bound : nat -> nat;
  extends_preorder :: PreOrder extends;
  extends_error s s' :
    extends s s' -> truthy (firstError s) = true -> truthy (firstError s') = true;
  extends_unit s s' i :
    extends s s' -> unit_ok s i -> unit_ok s' i \/ truthy (firstError s') = true;
  extends_job s s' i j : extends s s' -> job_inv s i j -> job_inv s' i j;
  start_law s i a : fresh s i ->
    extends s (start s i a).1 /\ job_inv (start s i a).1 i (start s i a).2;
  start_fresh s i a k : i <> k -> fresh s k -> fresh (start s i a).1 k;
  start_cost s i a : cost i (start s i a).2 <= bound i;
  react_law s i j r : job_inv s i j -> good r ->
    extends s (react s i j r).1 /\
    match (react s i j r).2 with
    | Some j' => job_inv (react s i j r).1 i j'
    | None => unit_ok (react s i j r).1 i \/ truthy (firstError (react s i j r).1) = true
    end;
  react_fresh s i j r k : i <> k -> fresh s k -> fresh (react s i j r).1 k;
  react_cost s i j r j' : (react s i j r).2 = Some j' -> cost i j' < cost i j }.

Section laws.
Context {Sh Job : Type} {firstError : Sh -> option string} {start : Sh -> nat -> nat -> Sh * Job}
  {react : Sh -> nat -> Job -> response -> Sh * option Job}.
Context `{!PoolLaws firstError start react}.
Context (n concurrency : nat) (continueOnError : bool).
Context (Hc : 0 < concurrency \/ n = 0).

Abbreviation pool := (pool Sh Job).
Abbreviation step ok := (pool_step firstError start react n concurrency continueOnError ok).
Abbreviation reach ok := (reachable firstError start react n concurrency continueOnError ok).

(** The unit was accepted, or there is an error. *)
Definition accounted (s : Sh) (i : nat) : Prop := unit_ok s i \/ truthy (firstError s) = true.

Lemma accounted_extends s s' i : extends s s' -> accounted s i -> accounted s' i.
Proof. intros He [?|?]; [by eapply extends_unit | right; by eapply extends_error]. Qed.

Record data_inv (p : pool) : Prop := {
  inv_fresh i : nextIndex p <= i -> fresh (shared p) i;
  inv_flying i j : (i, j) ∈ flying p -> job_inv (shared p) i j;
  inv_finished i : i ∈ finishing p ++ finished p -> accounted (shared p) i }.

Lemma flying_launched (p : pool) i j :
  sched_inv firstError n concurrency continueOnError p -> (i, j) ∈ flying p -> i < nextIndex p.
Proof.
  intros [Hids _ _ _ _] Hin. assert (Hs : i ∈ seq 0 (nextIndex p)); [|apply elem_of_seq in Hs; lia].
  rewrite <- Hids. apply elem_of_app. left. apply list_elem_of_fmap. by exists (i, j).
Qed.

Lemma launch_data p : data_inv p -> data_inv (launch start p).
Proof.
  intros [Hfr Hf Hd]. unfold launch.
  pose proof (start_law (shared p) (nextIndex p) (S (active p)) (Hfr _ (le_n _))) as [He Hj].
  pose proof (start_fresh (shared p) (nextIndex p) (S (active p))) as Hk.
  destruct (start (shared p) (nextIndex p) (S (active p))) as [s j]. cbn [fst snd] in *.
  constructor; cbn.
  - intros i Hi. apply Hk; [lia|]. apply Hfr. lia.
  - intros i j' [Hin|Hin]%elem_of_app; [by eapply extends_job; eauto|].
    apply list_elem_of_singleton in Hin as [= -> ->]. done.
  - intros i Hi. eapply accounted_extends; eauto.
Qed.

Lemma launchLoop_data fuel p :
  data_inv p -> data_inv (launchLoop firstError start n concurrency continueOnError fuel p).
Proof.
  revert p; induction fuel as [|fuel IH]; intros p Hi; cbn [launchLoop]; [done|].
  case_match; [|done]. by apply IH, launch_data.
Qed.

Lemma settleIfDone_data p :
  data_inv p -> data_inv (settleIfDone firstError n continueOnError p).
Proof.
  intros [Hfr Hf Hd]. unfold settleIfDone. by repeat case_match.
Qed.

Lemma launchNext_data p :
  data_inv p -> data_inv (launchNext firstError start n concurrency continueOnError p).
Proof. intros. by apply settleIfDone_data, launchLoop_data. Qed.

Lemma step_data p q :
  step good p q -> sched_inv firstError n concurrency continueOnError p -> data_inv p -> data_inv q.
Proof.
  intros Hs Hsch [Hfr Hf Hd].
  destruct Hs as [l1 i j l2 r p Hfl Hg|l1 i l2 p Hfl].
  - unfold pool_react. assert (Hj : job_inv (shared p) i j)
      by (apply Hf; rewrite Hfl; apply elem_of_app; right; left).
    pose proof (react_law (shared p) i j r Hj Hg) as [He Hnext].
    assert (Hfr' : forall k, nextIndex p <= k -> fresh (react (shared p) i j r).1 k).
    { intros k Hk. apply react_fresh; [|by apply Hfr].
      pose proof (flying_launched p i j Hsch) as Hlt. rewrite Hfl in Hlt.
      specialize (Hlt ltac:(apply elem_of_app; right; left)). lia. }
    destruct (react (shared p) i j r) as [s [j'|]]; cbn [fst snd] in *; constructor; cbn.
    + done.
    + intros i0 j0 [Hin|[[= -> ->]|Hin]%elem_of_cons]%elem_of_app; [|done|];
        eapply extends_job; [exact He| |exact He|]; apply Hf; rewrite Hfl; apply elem_of_app;
        [by left | right; by right].
    + intros i0 Hi. eapply accounted_extends; eauto.
    + done.
    + intros i0 j0 Hin%elem_of_app. eapply extends_job; [exact He|]. apply Hf. rewrite Hfl.
      apply elem_of_app. destruct Hin; [by left | right; by right].
    + intros i0. rewrite <- (assoc_L (++)), !elem_of_app, list_elem_of_singleton.
      intros [Hi|[->|Hi]]; [|exact Hnext|]; eapply accounted_extends; eauto; apply Hd, elem_of_app; tauto.
  - unfold pool_finally. apply settleIfDone_data, launchNext_data.
    constructor; cbn; [done|done|].
    intros i0 Hi. apply Hd. rewrite Hfl. revert Hi.
    rewrite !elem_of_app, !elem_of_cons. tauto.
Qed.

Lemma reach_data s p : (forall i, fresh s i) -> reach good s p -> data_inv p.
Proof.
  intros Hfr Hr. eapply (rtc_preserves _ (fun p => (sched_inv firstError n concurrency continueOnError p
    /\ settled_or_active p) /\ data_inv p)); [|exact Hr|].
  - intros x y Hs [[? ?] ?]. split; [by eapply pool_step_inv | by eapply step_data].
  - split; [by apply pool_init_inv|]. apply launchNext_data.
    constructor; cbn; [done | by intros i j ?%elem_of_nil | by intros i ?%elem_of_nil].
Qed.

(** When the promise is settled nothing is in flight, and every unit ran unless
    an error stopped the launches. *)
Lemma reach_settled ok s p r :
  reach ok s p -> resolved p = Some r -> flying p = [] /\ finishing p = [].
Proof.
  intros Hr Hres. destruct (reachable_inv _ _ _ _ _ _ ok s p Hc Hr) as [[_ _ _ Hd _] _].
  assert (active p = 0) as Hz by (apply Hd; by rewrite Hres). unfold active in Hz.
  split; apply length_zero_iff_nil; lia.
Qed.

Lemma reach_finished ok s p r :
  reach ok s p -> resolved p = Some r -> finished p ≡ₚ seq 0 (nextIndex p).
Proof.
  intros Hr Hres. destruct (reachable_inv _ _ _ _ _ _ ok s p Hc Hr) as [[Hids _ _ _ _] _].
  destruct (reach_settled ok s p r Hr Hres) as [Hf Hg]. unfold ids in Hids.
  by rewrite Hf, Hg in Hids.
Qed.

(** A promise settled without error means every unit was accepted. *)
Lemma pool_ok s p r i :
  (forall i, fresh s i) -> reach good s p -> resolved p = Some r -> truthy (firstError r) = false -> i < n ->
  unit_ok r i.
Proof.
  intros Hfr Hr Hres Hok Hi. pose proof (reach_finished good s p r Hr Hres) as Hperm.
  destruct (reach_data s p Hfr Hr) as [_ _ Hd].
  destruct (reachable_inv _ _ _ _ _ _ good s p Hc Hr) as [[_ _ _ _ Hrs] _]. destruct (Hrs r Hres) as [-> [Hn|[Ht _]]]; [|congruence].
  destruct (Hd i) as [?|?]; [|done|congruence].
  apply elem_of_app. right. rewrite Hperm. apply elem_of_seq. lia.
Qed.

(** ** Termination *)

Definition weight (i : nat) : nat := bound i + 2.
Definition unlaunched (k : nat) : nat := sum_list (map weight (seq k (n - k))).
Definition flight (l : list (nat * Job)) : nat := sum_list (map (fun ij => cost ij.1 ij.2 + 2) l).
Definition measure (p : pool) : nat :=
  unlaunched (nextIndex p) + flight (flying p) + length (finishing p).

Lemma flight_app l1 l2 : flight (l1 ++ l2) = flight l1 + flight l2.
Proof. unfold flight. by rewrite map_app, sum_list_app. Qed.

Lemma unlaunched_S k : k < n -> unlaunched k = weight k + unlaunched (S k).
Proof. intros Hk. unfold unlaunched. by replace (n - k) with (S (n - S k)) by lia. Qed.

Lemma launchLoop_measure fuel p :
  measure (launchLoop firstError start n concurrency continueOnError fuel p) <= measure p.
Proof.
  revert p; induction fuel as [|fuel IH]; intros p; cbn [launchLoop]; [done|].
  destruct (_ && _) eqn:E; [|done]. rewrite !andb_true_iff, !Nat.ltb_lt in E. destruct E as [_ Hn].
  etransitivity; [apply IH|]. unfold launch.
  pose proof (start_cost (shared p) (nextIndex p) (S (active p))) as Hcost.
  destruct (start (shared p) (nextIndex p) (S (active p))) as [s' j]. unfold measure.
  cbn [fst snd flying finishing nextIndex] in *.
  rewrite flight_app, (unlaunched_S _ Hn). unfold flight, weight. cbn. lia.
Qed.

Lemma settleIfDone_measure p : measure (settleIfDone firstError n continueOnError p) = measure p.
Proof. unfold settleIfDone. by repeat case_match. Qed.

Lemma launchNext_measure p :
  measure (launchNext firstError start n concurrency continueOnError p) <= measure p.
Proof. unfold launchNext. rewrite settleIfDone_measure. apply launchLoop_measure. Qed.

Lemma step_measure ok p q : step ok p q -> measure q < measure p.
Proof.
  intros [l1 i j l2 r p' Hfl _|l1 i l2 p' Hfl].
  - unfold pool_react. destruct (react (shared p') i j r) as [s [j'|]] eqn:E;
      unfold measure; cbn [flying finishing nextIndex]; rewrite Hfl, ?length_app, !flight_app; unfold flight; cbn.
    + assert (cost i j' < cost i j) by (eapply react_cost; by rewrite E). lia.
    + lia.
  - unfold pool_finally. rewrite settleIfDone_measure.
    eapply Nat.le_lt_trans; [apply launchNext_measure|]. unfold measure.
    cbn [flying finishing nextIndex]. rewrite Hfl, !length_app. cbn [length]. lia.
Qed.

(** Every run ends, within as many steps as the units can take. *)
Lemma run_bounded ok s k p :
  nsteps (step ok) k (pool_init firstError start n concurrency continueOnError s) p ->
  k <= unlaunched 0.
Proof.
  assert (Hgen : forall k x y, nsteps (step ok) k x y -> k + measure y <= measure x).
  { intros k' x y. induction 1 as [|k' x y z Hxy _ IH]; [lia|].
    apply step_measure in Hxy. lia. }
  intros Hrun%Hgen. pose proof (launchNext_measure
    {| shared := s; nextIndex := 0; flying := []; finishing := []; finished := []; resolved := None |}) as Hi.
  unfold pool_init in Hrun. unfold measure in Hi at 2. cbn [flying finishing nextIndex] in Hi.
  unfold flight in Hi. cbn [map sum_list length] in Hi. lia.
Qed.

(** A run can stop only when the promise is settled. *)
Lemma run_progress ok s p r0 :
  ok r0 -> reach ok s p -> resolved p = None -> exists q, step ok p q.
Proof.
  intros Hok Hr Hres. destruct (reachable_inv _ _ _ _ _ _ ok s p Hc Hr) as [_ [Ha|?]]; [|congruence].
  unfold active in Ha. destruct (flying p) as [|[i j] l] eqn:Hf.
  - destruct (finishing p) as [|i l] eqn:Hg; [cbn in Ha; lia|].
    eexists. by eapply (step_finally _ _ _ _ _ _ _ [] i l).
  - eexists. by eapply (step_react _ _ _ _ _ _ _ [] i j l r0).
Qed.

Lemma run_settles ok s p r0 :
  ok r0 -> reach ok s p -> exists q r, reach ok s q /\ resolved q = Some r.
Proof.
  intros Hok. remember (measure p) as m eqn:Hm. revert p Hm.
  induction (lt_wf m) as [m _ IH]. intros p -> Hr.
  destruct (resolved p) as [r|] eqn:Hres; [by exists p, r|].
  destruct (run_progress ok s p r0 Hok Hr Hres) as [q Hq].
  eapply (IH (measure q)); [by eapply step_measure | done | by eapply rtc_r].
Qed.

End laws.
