(* ===== verification/Engine.v ===== *)
(** * The upload engine (src/polystore-website/src/lib/upload/engine.ts)

    The artifacts of an upload, its progress steps and its transport statistics;
    [runUploadTasks] and [runUploadTaskBundles] as two instances of the pool of
    [Pool]; and what a settled run promises.

    The transport is the environment: it answers every request, in any order,
    with success or with an error.  [accepted] is a record of the requests it
    answered with success, [sent] of the requests made to it, in order; the code
    keeps neither.  [onProgress] and [onTaskEvent] are the lists of the values
    they are called with; the observers return, and the clock ([durationMs]) is
    not modelled. *)

From S2P Require Import Prelude JsNumber JsBytes JsMap Sparse Pool.
Local Open Scope Z_scope.

Record UploadTarget := {
  baseUrl : string; mduPath : string; manifestPath : string; shardPath : option string;
  bundlePath : option string; label : option string }.

(** [target.label || target.baseUrl] *)
Definition targetLabel (t : UploadTarget) : string :=
  if truthy (label t) then default "" (label t) else baseUrl t.

Inductive step_status := pending | uploading | complete | failed.
#[export] Instance status_eq_dec : EqDecision step_status.
Proof. solve_decision. Defined.

Record UploadProgressStep := {
  st_kind : SparseArtifactKind; st_label : string; st_target : string; st_index : option Z;
  st_slot : option Z; st_totalSteps : Z; st_status : step_status; st_error : option string }.

Inductive event_phase := Pstart | Pend | Pfallback.
Inductive transport_kind := Tartifact | Tbundle.

Record UploadTaskEvent := {
  ev_phase : event_phase; ev_kind : SparseArtifactKind; ev_target : string;
  ev_index : option number; ev_slot : option number; ev_bytes : Z; ev_fullSize : option number;
  ev_ok : option bool; ev_error : option string; ev_transport : transport_kind;
  ev_bundleId : option string; ev_bundleArtifactCount : option Z; ev_bundleBytes : option Z;
  ev_fallbackArtifactCount : option Z; ev_fallbackReason : option string }.

Record UploadTransportStats := {
  artifactCount : Z; perArtifactCount : Z; bundledArtifactCount : Z; bundleCount : Z;
  requestCount : Z; bytesSent : Z; fallbackCount : Z; fallbackReason : option string;
  peakActiveUploads : Z }.

Record UploadTransportRequest := {
  r_dealId : string; r_manifestRoot : string; r_previousManifestRoot : option string;
  r_uploadGeneration : option string; r_target : UploadTarget; r_artifact : SparseArtifactInput }.

Record UploadTask := { stepIndex : Z; request : UploadTransportRequest }.
Record UploadTaskBundle := { b_target : string; b_tasks : list UploadTask }.

Record UploadEngineResult := {
  ok : bool; res_steps : list UploadProgressStep; res_error : option string;
  transportStats : option UploadTransportStats }.

Definition createUploadTransportStats : UploadTransportStats :=
  {| artifactCount := 0; perArtifactCount := 0; bundledArtifactCount := 0; bundleCount := 0;
     requestCount := 0; bytesSent := 0; fallbackCount := 0; fallbackReason := None;
     peakActiveUploads := 0 |}.

Definition with_artifactCount (n : Z) (s : UploadTransportStats) : UploadTransportStats :=
  {| artifactCount := n; perArtifactCount := perArtifactCount s;
     bundledArtifactCount := bundledArtifactCount s; bundleCount := bundleCount s;
     requestCount := requestCount s; bytesSent := bytesSent s; fallbackCount := fallbackCount s;
     fallbackReason := fallbackReason s; peakActiveUploads := peakActiveUploads s |}.

Definition artifactPayloadBytes (task : UploadTask) : Z :=
  Z.max 0 (blen (a_bytes (r_artifact (request task)))).

Definition bundlePayloadBytes (bundle : UploadTaskBundle) : Z :=
  fold_left (fun sum task => sum + artifactPayloadBytes task) (b_tasks bundle) 0.

(** One pass of the loop of [mergeUploadTransportStats]. *)
Definition mergeOne (merged stats : UploadTransportStats) : UploadTransportStats :=
  {| artifactCount := artifactCount merged + artifactCount stats;
     perArtifactCount := perArtifactCount merged + perArtifactCount stats;
     bundledArtifactCount := bundledArtifactCount merged + bundledArtifactCount stats;
     bundleCount := bundleCount merged + bundleCount stats;
     requestCount := requestCount merged + requestCount stats;
     bytesSent := bytesSent merged + bytesSent stats;
     fallbackCount := fallbackCount merged + fallbackCount stats;
     fallbackReason :=
       if negb (truthy (fallbackReason merged)) && truthy (fallbackReason stats)
       then fallbackReason stats else fallbackReason merged;
     peakActiveUploads := Z.max (peakActiveUploads merged) (peakActiveUploads stats) |}.

Definition mergeUploadTransportStats (statsList : list (option UploadTransportStats))
    : option UploadTransportStats :=
  let filtered := omap id statsList in
  match filtered with
  | [] => None
  | _ => Some (fold_left mergeOne filtered createUploadTransportStats)
  end.

(** [Number.isFinite(normalized) && normalized > 0], rounded down, at least 1. *)
Definition normalizeConcurrency (value : option number) (fallback : Z) : Z :=
  match value with
  | Some (Fin q) => if num_lez (Fin q) then fallback else Z.max 1 (qfloor q)
  | _ => fallback
  end.

(** A partial update of a step: the status, and the error unless the field is absent
    from the patch. *)
Definition patch_step (status : step_status) (error : option (option string))
    (current : UploadProgressStep) : UploadProgressStep :=
  {| st_kind := st_kind current; st_label := st_label current; st_target := st_target current;
     st_index := st_index current; st_slot := st_slot current;
     st_totalSteps := st_totalSteps current; st_status := status;
     st_error := match error with Some e => e | None => st_error current end |}.

Definition updateStep (steps : list UploadProgressStep) (i : Z) (status : step_status)
    (error : option (option string)) : list UploadProgressStep :=
  if (i <? 0) || (Z.of_nat (length steps) <=? i) then steps
  else alter (patch_step status error) (Z.to_nat i) steps.

(** ** The state the pools share *)

Record upload := {
  firstError : option string; steps : list UploadProgressStep; stats : UploadTransportStats;
  onTaskEvent : list UploadTaskEvent; onProgress : list (list UploadProgressStep);
  sent : list (list UploadTransportRequest); accepted : list UploadTransportRequest }.

Definition set_error (message : string) (u : upload) : upload :=
  {| firstError := if negb (truthy (firstError u)) then Some message else firstError u;
     steps := steps u; stats := stats u; onTaskEvent := onTaskEvent u;
     onProgress := onProgress u; sent := sent u; accepted := accepted u |}.
Definition set_stats (f : UploadTransportStats -> UploadTransportStats) (u : upload) : upload :=
  {| firstError := firstError u; steps := steps u; stats := f (stats u);
     onTaskEvent := onTaskEvent u; onProgress := onProgress u; sent := sent u;
     accepted := accepted u |}.
Definition set_steps (f : list UploadProgressStep -> list UploadProgressStep) (u : upload) : upload :=
  {| firstError := firstError u; steps := f (steps u); stats := stats u;
     onTaskEvent := onTaskEvent u; onProgress := onProgress u; sent := sent u;
     accepted := accepted u |}.
Definition taskEvents (es : list UploadTaskEvent) (u : upload) : upload :=
  {| firstError := firstError u; steps := steps u; stats := stats u;
     onTaskEvent := onTaskEvent u ++ es; onProgress := onProgress u; sent := sent u;
     accepted := accepted u |}.
(** [emitProgress]: the observer gets a copy, which becomes the current steps. *)
Definition emitProgress (u : upload) : upload :=
  {| firstError := firstError u; steps := steps u; stats := stats u;
     onTaskEvent := onTaskEvent u; onProgress := onProgress u ++ [steps u]; sent := sent u;
     accepted := accepted u |}.
Definition send (rs : list UploadTransportRequest) (u : upload) : upload :=
  {| firstError := firstError u; steps := steps u; stats := stats u;
     onTaskEvent := onTaskEvent u; onProgress := onProgress u; sent := sent u ++ [rs];
     accepted := accepted u |}.
Definition accept (rs : list UploadTransportRequest) (u : upload) : upload :=
  {| firstError := firstError u; steps := steps u; stats := stats u;
     onTaskEvent := onTaskEvent u; onProgress := onProgress u; sent := sent u;
     accepted := accepted u ++ rs |}.

(** What every event of a task carries. *)
Definition task_event (phase : event_phase) (task : UploadTask) (okv : option bool)
    (err : option string) (tk : transport_kind) (bundle : option (string * UploadTaskBundle))
    (reason : option string) : UploadTaskEvent :=
  let artifact := r_artifact (request task) in
  {| ev_phase := phase; ev_kind := a_kind artifact; ev_target := targetLabel (r_target (request task));
     ev_index := a_index artifact; ev_slot := a_slot artifact; ev_bytes := blen (a_bytes artifact);
     ev_fullSize := a_fullSize artifact; ev_ok := okv; ev_error := err; ev_transport := tk;
     ev_bundleId := fst <$> bundle;
     ev_bundleArtifactCount := (fun b => Z.of_nat (length (b_tasks b.2))) <$> bundle;
     ev_bundleBytes := (fun b => bundlePayloadBytes b.2) <$> bundle;
     ev_fallbackArtifactCount := None; ev_fallbackReason := reason |}.

(** ** [runUploadTasks]: a unit is one [sendArtifact] *)

Section tasks.
Context (tasks : list UploadTask) (trackProgress trackTaskEvents : bool).

Definition progress (f : list UploadProgressStep -> list UploadProgressStep) (u : upload) : upload :=
  if trackProgress then emitProgress (set_steps f u) else u.
Definition event (es : list UploadTaskEvent) (u : upload) : upload :=
  if trackTaskEvents then taskEvents es u else u.

Definition artifact_stats (task : UploadTask) (s : UploadTransportStats) : UploadTransportStats :=
  {| artifactCount := artifactCount s; perArtifactCount := perArtifactCount s + 1;
     bundledArtifactCount := bundledArtifactCount s; bundleCount := bundleCount s;
     requestCount := requestCount s + 1; bytesSent := bytesSent s + artifactPayloadBytes task;
     fallbackCount := fallbackCount s; fallbackReason := fallbackReason s;
     peakActiveUploads := peakActiveUploads s |}.
Definition peak_stats (active : nat) (s : UploadTransportStats) : UploadTransportStats :=
  {| artifactCount := artifactCount s; perArtifactCount := perArtifactCount s;
     bundledArtifactCount := bundledArtifactCount s; bundleCount := bundleCount s;
     requestCount := requestCount s; bytesSent := bytesSent s; fallbackCount := fallbackCount s;
     fallbackReason := fallbackReason s;
     peakActiveUploads := Z.max (peakActiveUploads s) (Z.of_nat active) |}.

Definition start_task (u : upload) (i active : nat) : upload * unit :=
  match tasks !! i with
  | None => (u, tt)
  | Some task =>
      let u := set_stats (fun s => peak_stats active (artifact_stats task s)) u in
      let u := event [task_event Pstart task None None Tartifact None None] u in
      let u := progress (fun s => updateStep s (stepIndex task) uploading (Some None)) u in
      (send [request task] u, tt)
  end.

Definition react_task (u : upload) (i : nat) (_ : unit) (r : response) : upload * option unit :=
  match tasks !! i with
  | None => (u, None)
  | Some task =>
      match r with
      | Resolved =>
          let u := accept [request task] u in
          let u := event [task_event Pend task (Some true) None Tartifact None None] u in
          (progress (fun s => updateStep s (stepIndex task) complete None) u, None)
      | Rejected e =>
          let u := set_error (message e) u in
          let u := event [task_event Pend task (Some false) (Some (message e)) Tartifact None None] u in
          (progress (fun s => updateStep s (stepIndex task) failed (Some (Some (message e)))) u, None)
      end
  end.

End tasks.

(** ** [runUploadTaskBundles]: a unit is one [sendBundle], or the artifacts of its
    bundle one by one when the provider does not support bundles *)

Inductive bundle_job :=
| Sending
| Fallback (i : nat) (reason : string).

Definition isBundleUnsupportedError (e : error) : bool :=
  String.eqb (name e) "BundleUnsupportedUploadError".

Section bundles.
Context (bundles : list UploadTaskBundle) (trackProgress trackTaskEvents continueOnError : bool).

Definition bundleId (bundle : UploadTaskBundle) (bundleIndex : nat) : string :=
  b_target bundle +:+ "#" +:+ pretty (Z.of_nat bundleIndex).

Definition update_all (tasks : list UploadTask) (status : step_status)
    (error : option (option string)) (steps : list UploadProgressStep) : list UploadProgressStep :=
  fold_left (fun s task => updateStep s (stepIndex task) status error) tasks steps.

Definition bundle_stats (bundle : UploadTaskBundle) (s : UploadTransportStats) : UploadTransportStats :=
  {| artifactCount := artifactCount s; perArtifactCount := perArtifactCount s;
     bundledArtifactCount := bundledArtifactCount s + Z.of_nat (length (b_tasks bundle));
     bundleCount := bundleCount s + 1; requestCount := requestCount s + 1;
     bytesSent := bytesSent s + bundlePayloadBytes bundle; fallbackCount := fallbackCount s;
     fallbackReason := fallbackReason s; peakActiveUploads := peakActiveUploads s |}.
Definition fallback_stats (reason : string) (s : UploadTransportStats) : UploadTransportStats :=
  {| artifactCount := artifactCount s; perArtifactCount := perArtifactCount s;
     bundledArtifactCount := bundledArtifactCount s; bundleCount := bundleCount s;
     requestCount := requestCount s; bytesSent := bytesSent s; fallbackCount := fallbackCount s + 1;
     fallbackReason := if negb (truthy (fallbackReason s)) then Some reason else fallbackReason s;
     peakActiveUploads := peakActiveUploads s |}.

Definition start_bundle (u : upload) (i active : nat) : upload * bundle_job :=
  match bundles !! i with
  | None => (u, Sending)
  | Some bundle =>
      let id := Some (bundleId bundle i, bundle) in
      let u := set_stats (fun s => bundle_stats bundle (peak_stats active s)) u in
      let u := event trackTaskEvents
        (map (fun t => task_event Pstart t None None Tbundle id None) (b_tasks bundle)) u in
      let u := progress trackProgress (update_all (b_tasks bundle) uploading (Some None)) u in
      (send (map request (b_tasks bundle)) u, Sending)
  end.

Definition completeBundle (bundle : UploadTaskBundle) (i : nat) (okv : bool) (message : option string)
    (u : upload) : upload :=
  let id := Some (bundleId bundle i, bundle) in
  let u := event trackTaskEvents
    (map (fun t => task_event Pend t (Some okv) message Tbundle id None) (b_tasks bundle)) u in
  progress trackProgress (update_all (b_tasks bundle) (if okv then complete else failed)
    (if okv then None else Some message)) u.

(** The head of the loop of [fallbackToArtifacts] at index [k]: send the next
    artifact, or return. *)
Definition fallback_next (bundle : UploadTaskBundle) (k : nat) (reason : string) (u : upload)
    : upload * option bundle_job :=
  match b_tasks bundle !! k with
  | None => (u, None)
  | Some task => (send [request task] (set_stats (artifact_stats task) u), Some (Fallback k reason))
  end.

Definition fallback_event (bundle : UploadTaskBundle) (i : nat) (reason : string)
    : list UploadTaskEvent :=
  match b_tasks bundle with
  | [] => []
  | first :: _ =>
      [{| ev_phase := Pfallback; ev_kind := a_kind (r_artifact (request first));
          ev_target := targetLabel (r_target (request first)); ev_index := None; ev_slot := None;
          ev_bytes := bundlePayloadBytes bundle; ev_fullSize := Some (int (bundlePayloadBytes bundle));
          ev_ok := None; ev_error := None; ev_transport := Tartifact;
          ev_bundleId := Some (bundleId bundle i);
          ev_bundleArtifactCount := Some (Z.of_nat (length (b_tasks bundle)));
          ev_bundleBytes := Some (bundlePayloadBytes bundle);
          ev_fallbackArtifactCount := Some (Z.of_nat (length (b_tasks bundle)));
          ev_fallbackReason := Some reason |}]
  end.

Definition fallbackToArtifacts (bundle : UploadTaskBundle) (i : nat) (reason : string) (u : upload)
    : upload * option bundle_job :=
  let u := set_stats (fallback_stats reason) u in
  let u := event trackTaskEvents (fallback_event bundle i reason) u in
  fallback_next bundle 0 reason u.

(** The answer to artifact [k] of the fallback. *)
Definition fallback_answer (bundle : UploadTaskBundle) (i k : nat) (reason : string)
    (r : response) (u : upload) : upload * option bundle_job :=
  match b_tasks bundle !! k with
  | None => (u, None)
  | Some task =>
      let id := Some (bundleId bundle i, bundle) in
      match r with
      | Resolved =>
          let u := accept [request task] u in
          let u := event trackTaskEvents
            [task_event Pend task (Some true) None Tartifact id (Some reason)] u in
          let u := progress trackProgress (fun s => updateStep s (stepIndex task) complete None) u in
          fallback_next bundle (S k) reason u
      | Rejected e =>
          let u := set_error (message e) u in
          let u := event trackTaskEvents
            [task_event Pend task (Some false) (Some (message e)) Tartifact id (Some reason)] u in
          let u := progress trackProgress
            (fun s => updateStep s (stepIndex task) failed (Some (Some (message e)))) u in
          if negb continueOnError then (u, None) else fallback_next bundle (S k) reason u
      end
  end.

Definition react_bundle (u : upload) (i : nat) (j : bundle_job) (r : response)
    : upload * option bundle_job :=
  match bundles !! i with
  | None => (u, None)
  | Some bundle =>
      match j, r with
      | Sending, Resolved =>
          (completeBundle bundle i true None (accept (map request (b_tasks bundle)) u), None)
      | Sending, Rejected e =>
          if isBundleUnsupportedError e
          then fallbackToArtifacts bundle i
                 (if String.eqb (message e) "" then "bundle upload unsupported" else message e) u
          else (completeBundle bundle i false (Some (message e)) (set_error (message e) u), None)
      | Fallback k reason, r => fallback_answer bundle i k reason r u
      end
  end.

End bundles.

(** The result [settleIfDone] resolves with. *)
Definition result_of (u : upload) : UploadEngineResult :=
  if truthy (firstError u)
  then {| ok := false; res_steps := steps u; res_error := firstError u; transportStats := Some (stats u) |}
  else {| ok := true; res_steps := steps u; res_error := None; transportStats := Some (stats u) |}.

Definition upload_init (artifacts : Z) (initialSteps : list UploadProgressStep) : upload :=
  {| firstError := None; steps := initialSteps;
     stats := with_artifactCount artifacts createUploadTransportStats;
     onTaskEvent := []; onProgress := []; sent := []; accepted := [] |}.

(** [runUploadTasks] can settle in the state [u], whatever the order of the answers,
    all of which satisfy [answers]. *)
Definition runUploadTasks (answers : response -> Prop) (onProgress onTaskEvent : bool)
    (tasks : list UploadTask) (initialSteps : list UploadProgressStep) (concurrency : nat)
    (continueOnError : bool) (u : upload) : Prop :=
  let trackProgress := onProgress && negb (bool_decide (initialSteps = [])) in
  exists p,
    reachable firstError (start_task tasks trackProgress onTaskEvent)
      (react_task tasks trackProgress onTaskEvent) (length tasks) concurrency continueOnError
      answers (upload_init (Z.of_nat (length tasks)) initialSteps) p
    /\ resolved p = Some u.

Definition runUploadTaskBundles (answers : response -> Prop) (onProgress onTaskEvent : bool)
    (bundles : list UploadTaskBundle) (initialSteps : list UploadProgressStep) (concurrency : nat)
    (continueOnError : bool) (u : upload) : Prop :=
  let trackProgress := onProgress && negb (bool_decide (initialSteps = [])) in
  let count := fold_left (fun sum b => sum + Z.of_nat (length (b_tasks b))) bundles 0 in
  exists p,
    reachable firstError (start_bundle bundles trackProgress onTaskEvent)
      (react_bundle bundles trackProgress onTaskEvent continueOnError) (length bundles) concurrency
      continueOnError answers (upload_init count initialSteps) p
    /\ resolved p = Some u.

(** ** Tasks and steps of an upload *)

Record PreparedMdu := { mdu_index : Z; mdu_data : bytes; mdu_fullSize : option number }.
Record PreparedShard := { shard_data : bytes; shard_fullSize : option number }.
Record PreparedShardSet := { set_index : Z; shards : list PreparedShard }.

Record DirectUploadInput := {
  d_dealId : string; d_manifestRoot : string; d_previousManifestRoot : option string;
  d_manifestBlob : option bytes; d_manifestBlobFullSize : option number;
  d_mdus : list PreparedMdu; d_target : UploadTarget }.

Record StripedUploadInput := {
  i_dealId : string; i_manifestRoot : string; i_previousManifestRoot : option string;
  i_manifestBlob : option bytes; i_manifestBlobFullSize : option number;
  i_metadataMdus : list PreparedMdu; i_shardSets : option (list PreparedShardSet);
  i_metadataTargets : list UploadTarget; i_shardTargets : option (list UploadTarget) }.

Record StripedSlotUploadInput := {
  l_dealId : string; l_manifestRoot : string; l_previousManifestRoot : option string;
  l_manifestBlob : option bytes; l_manifestBlobFullSize : option number;
  l_metadataMdus : list PreparedMdu; l_shardSets : option (list PreparedShardSet);
  l_slot : Z; l_target : UploadTarget }.

Definition mdu_step (target : string) (totalSteps : Z) (mdu : PreparedMdu) : UploadProgressStep :=
  {| st_kind := Kmdu; st_label := "MDU #" +:+ pretty (mdu_index mdu); st_target := target;
     st_index := Some (mdu_index mdu); st_slot := None; st_totalSteps := totalSteps;
     st_status := pending; st_error := None |}.
Definition manifest_step (target : string) (totalSteps : Z) : UploadProgressStep :=
  {| st_kind := Kmanifest; st_label := "manifest.bin"; st_target := target; st_index := None;
     st_slot := None; st_totalSteps := totalSteps; st_status := pending; st_error := None |}.
Definition shard_step (target : string) (totalSteps index slot : Z) : UploadProgressStep :=
  {| st_kind := Kshard; st_label := "Shard mdu=" +:+ pretty index +:+ " slot=" +:+ pretty slot;
     st_target := target; st_index := Some index; st_slot := Some slot;
     st_totalSteps := totalSteps; st_status := pending; st_error := None |}.

Definition buildDirectUploadSteps (input : DirectUploadInput) : list UploadProgressStep :=
  let totalSteps := Z.of_nat (length (d_mdus input)) + 1 in
  let target := targetLabel (d_target input) in
  map (mdu_step target totalSteps) (d_mdus input) ++ [manifest_step target totalSteps].

(** [input.shardTargets?.[slot]] *)
Definition shardTarget (input : StripedUploadInput) (slot : nat) : option UploadTarget :=
  match i_shardTargets input with Some ts => ts !! slot | None => None end.

(** [target?.label || target?.baseUrl || `slot-${slot}`] *)
Definition shardLabel (input : StripedUploadInput) (slot : nat) : string :=
  match shardTarget input slot with
  | Some t => if String.eqb (targetLabel t) "" then "slot-" +:+ pretty (Z.of_nat slot) else targetLabel t
  | None => "slot-" +:+ pretty (Z.of_nat slot)
  end.

Definition buildStripedUploadSteps (input : StripedUploadInput) : list UploadProgressStep :=
  let shardSets := default [] (i_shardSets input) in
  let totalSteps :=
    Z.of_nat (length (i_metadataTargets input)) * (Z.of_nat (length (i_metadataMdus input)) + 1)
    + fold_left (fun count s => count + Z.of_nat (length (shards s))) shardSets 0 in
  concat (map (fun target =>
      map (mdu_step (targetLabel target) totalSteps) (i_metadataMdus input)
      ++ [manifest_step (targetLabel target) totalSteps]) (i_metadataTargets input))
  ++ concat (map (fun s =>
      map (fun slot => shard_step (shardLabel input slot) totalSteps (set_index s) (Z.of_nat slot))
        (seq 0 (length (shards s)))) shardSets).

Definition buildStripedSlotUploadSteps (input : StripedSlotUploadInput) : list UploadProgressStep :=
  let shardSets := default [] (l_shardSets input) in
  let totalSteps := Z.of_nat (length (l_metadataMdus input)) + 1 + Z.of_nat (length shardSets) in
  let target := targetLabel (l_target input) in
  map (mdu_step target totalSteps) (l_metadataMdus input) ++ [manifest_step target totalSteps]
  ++ map (fun s => shard_step target totalSteps (set_index s) (l_slot input)) shardSets.

Definition kindName (k : SparseArtifactKind) : string :=
  match k with Kmdu => "mdu" | Kmanifest => "manifest" | Kshard => "shard" end.
Definition orEmpty (n : option Z) : string := match n with Some z => pretty z | None => "" end.

Definition stepKey (kind : SparseArtifactKind) (target : string) (index slot : option Z) : string :=
  kindName kind +:+ "|" +:+ target +:+ "|" +:+ orEmpty index +:+ "|" +:+ orEmpty slot.
Definition step_key (s : UploadProgressStep) : string :=
  stepKey (st_kind s) (st_target s) (st_index s) (st_slot s).

Definition indexUploadSteps (steps : list UploadProgressStep) : list (string * Z) :=
  fold_left (fun indexed i =>
      match steps !! i with
      | Some step => mset indexed (step_key step) (Z.of_nat i)
      | None => indexed
      end) (seq 0 (length steps)) [].

(** [resolveStepIndex]: -1 when the steps are not tracked. *)
Definition resolveStepIndex (trackSteps : bool) (stepIndices : list (string * Z))
    (kind : SparseArtifactKind) (target : string) (index slot : option Z) : Z :=
  if trackSteps then default (-1) (mget stepIndices (stepKey kind target index slot)) else -1.

(** [groupUploadTasksByTarget]: the [Map] and [ordered] hold the same bundle
    objects, in the same order; a bundle is its label and its tasks. *)
Definition groupUploadTasksByTarget (tasks : list UploadTask) : list UploadTaskBundle :=
  map (fun b => {| b_target := b.1; b_tasks := b.2 |})
    (fold_left (fun bundles task =>
       let target := targetLabel (r_target (request task)) in
       mset bundles target (default [] (mget bundles target) ++ [task])) tasks []).

(** What an [upload*] method does after preparing its tasks. *)
Inductive upload_run :=
| Returned (r : UploadEngineResult)
| RunTasks (tasks : list UploadTask) (steps : list UploadProgressStep) (concurrency : nat)
    (continueOnError : bool)
| RunBundles (bundles : list UploadTaskBundle) (steps : list UploadProgressStep) (concurrency : nat)
    (continueOnError : bool).

Definition failed_result (steps : list UploadProgressStep) (message : string) : UploadEngineResult :=
  {| ok := false; res_steps := steps; res_error := Some message; transportStats := None |}.

Definition MANIFEST_MISSING : string := "manifest blob missing (re-shard to regenerate)".

(** [!input.manifestBlob || input.manifestBlob.byteLength === 0] *)
Definition manifest_present (blob : option bytes) : option bytes :=
  match blob with Some bs => if blen bs =? 0 then None else Some bs | None => None end.

Section engine.
(** The transport has [sendBundle]; the caller passes [onProgress]; the three
    normalised concurrencies. *)
Context (sendBundle trackSteps : bool).
Context (directConcurrency stripedMetadataConcurrency stripedShardConcurrency : Z).

(** The steps the caller is shown first, and what [onProgress] has been called with. *)
Definition first_steps (steps : list UploadProgressStep)
    : list UploadProgressStep * list (list UploadProgressStep) :=
  if trackSteps then (steps, [steps]) else ([], []).
(** [if (trackSteps) { steps = emitProgress(updateStep(...)) }; return { ok: false, ... }] *)
Definition fail_with (f : list UploadProgressStep -> list UploadProgressStep)
    (steps : list UploadProgressStep) (calls : list (list UploadProgressStep)) (message : string)
    : list (list UploadProgressStep) * upload_run :=
  if trackSteps then (calls ++ [f steps], Returned (failed_result (f steps) message))
  else (calls, Returned (failed_result steps message)).

Definition artifact (kind : SparseArtifactKind) (index slot : option Z) (data : bytes)
    (fullSize : option number) : SparseArtifactInput :=
  {| a_kind := kind; a_bytes := data; a_fullSize := fullSize; a_index := int <$> index;
     a_slot := int <$> slot |}.

Definition uploadDirect (input : DirectUploadInput) : list (list UploadProgressStep) * upload_run :=
  let '(steps, calls) := first_steps (buildDirectUploadSteps input) in
  let stepIndices := indexUploadSteps steps in
  let resolve := resolveStepIndex trackSteps stepIndices in
  let target := targetLabel (d_target input) in
  match manifest_present (d_manifestBlob input) with
  | None =>
      fail_with (fun s => updateStep s (resolve Kmanifest target None None) failed
                            (Some (Some MANIFEST_MISSING))) steps calls MANIFEST_MISSING
  | Some manifestBlob =>
      let mkRequest a :=
        {| r_dealId := d_dealId input; r_manifestRoot := d_manifestRoot input;
           r_previousManifestRoot := d_previousManifestRoot input; r_uploadGeneration := None;
           r_target := d_target input; r_artifact := a |} in
      let tasks :=
        map (fun mdu =>
               {| stepIndex := resolve Kmdu target (Some (mdu_index mdu)) None;
                  request := mkRequest (artifact Kmdu (Some (mdu_index mdu)) None (mdu_data mdu)
                                        (mdu_fullSize mdu)) |}) (d_mdus input)
        ++ [{| stepIndex := resolve Kmanifest target None None;
               request := mkRequest (artifact Kmanifest None None manifestBlob
                                     (d_manifestBlobFullSize input)) |}] in
      if sendBundle then (calls, RunBundles (groupUploadTasksByTarget tasks) steps 1 false)
      else (calls, RunTasks tasks steps (Z.to_nat directConcurrency) false)
  end.

Section striped.
Context (input : StripedUploadInput) (stepIndices : list (string * Z)).
Let resolve := resolveStepIndex trackSteps stepIndices.
Let mkRequest (target : UploadTarget) (a : SparseArtifactInput) : UploadTransportRequest :=
  {| r_dealId := i_dealId input; r_manifestRoot := i_manifestRoot input;
     r_previousManifestRoot := i_previousManifestRoot input; r_uploadGeneration := None;
     r_target := target; r_artifact := a |}.

Definition metadata_round (manifestBlob : bytes) (i : nat) : list UploadTask :=
  if decide (i < length (i_metadataMdus input))%nat then
    match i_metadataMdus input !! i with
    | Some mdu =>
        map (fun target =>
          {| stepIndex := resolve Kmdu (targetLabel target) (Some (mdu_index mdu)) None;
             request := mkRequest target (artifact Kmdu (Some (mdu_index mdu)) None (mdu_data mdu)
                                          (mdu_fullSize mdu)) |}) (i_metadataTargets input)
    | None => []
    end
  else if decide (i = length (i_metadataMdus input)) then
    map (fun target =>
      {| stepIndex := resolve Kmanifest (targetLabel target) None None;
         request := mkRequest target (artifact Kmanifest None None manifestBlob
                                      (i_manifestBlobFullSize input)) |}) (i_metadataTargets input)
  else [].

(** The [for] over the slots of a shard set; it stops at a slot without target. *)
Fixpoint shard_slots (shardSet : PreparedShardSet) (slot : nat) (l : list PreparedShard)
    : nat + list UploadTask :=
  match l with
  | [] => inr []
  | shard :: l =>
      match shardTarget input slot with
      | None => inl slot
      | Some target =>
          let task :=
            {| stepIndex := resolve Kshard (targetLabel target) (Some (set_index shardSet))
                              (Some (Z.of_nat slot));
               request := mkRequest target (artifact Kshard (Some (set_index shardSet))
                            (Some (Z.of_nat slot)) (shard_data shard) (shard_fullSize shard)) |} in
          match shard_slots shardSet (S slot) l with
          | inl e => inl e
          | inr tasks => inr (task :: tasks)
          end
      end
  end.

(** The rounds; an error carries the shard set and the slot it stopped at. *)
Fixpoint striped_rounds (manifestBlob : bytes) (l : list nat)
    : (PreparedShardSet * nat) + list UploadTask :=
  match l with
  | [] => inr []
  | i :: l =>
      let metadata := metadata_round manifestBlob i in
      let shard :=
        match default [] (i_shardSets input) !! i with
        | None => inr []
        | Some shardSet =>
            match shard_slots shardSet 0 (shards shardSet) with
            | inl slot => inl (shardSet, slot)
            | inr tasks => inr tasks
            end
        end in
      match shard with
      | inl e => inl e
      | inr shardTasks =>
          match striped_rounds manifestBlob l with
          | inl e => inl e
          | inr tasks => inr (metadata ++ shardTasks ++ tasks)
          end
      end
  end.
End striped.

Definition uploadStriped (input : StripedUploadInput) : list (list UploadProgressStep) * upload_run :=
  let '(steps, calls) := first_steps (buildStripedUploadSteps input) in
  let stepIndices := indexUploadSteps steps in
  let resolve := resolveStepIndex trackSteps stepIndices in
  match manifest_present (i_manifestBlob input) with
  | None =>
      fail_with (fun s => fold_left (fun s target =>
                    updateStep s (resolve Kmanifest (targetLabel target) None None) failed
                      (Some (Some MANIFEST_MISSING))) (i_metadataTargets input) s)
        steps calls MANIFEST_MISSING
  | Some manifestBlob =>
      let shardSets := default [] (i_shardSets input) in
      let rounds := Nat.max (length (i_metadataMdus input) + 1) (length shardSets) in
      match striped_rounds input stepIndices manifestBlob (seq 0 rounds) with
      | inl (shardSet, slot) =>
          let message := "missing upload target for slot " +:+ pretty (Z.of_nat slot) in
          fail_with (fun s => updateStep s (resolve Kshard ("slot-" +:+ pretty (Z.of_nat slot))
                        (Some (set_index shardSet)) (Some (Z.of_nat slot))) failed
                        (Some (Some message))) steps calls message
      | inr tasks =>
          let n := Z.of_nat (length tasks) in
          let combined :=
            if (0 <? Z.of_nat (length shardSets))
            then Z.min n (stripedMetadataConcurrency + stripedShardConcurrency)
            else Z.min n stripedMetadataConcurrency in
          if sendBundle then
            let bundles := groupUploadTasksByTarget tasks in
            (calls, RunBundles bundles steps
               (Z.to_nat (Z.max 1 (Z.min (Z.of_nat (length bundles)) combined))) true)
          else (calls, RunTasks tasks steps (Z.to_nat combined) true)
      end
  end.

(** The tasks of the shard sets for one slot; [inl]: the set without a shard there. *)
Fixpoint slot_shards (input : StripedSlotUploadInput) (stepIndices : list (string * Z))
    (l : list PreparedShardSet) : PreparedShardSet + list UploadTask :=
  match l with
  | [] => inr []
  | shardSet :: l =>
      let found := if l_slot input <? 0 then None else shards shardSet !! Z.to_nat (l_slot input) in
      match found with
      | None => inl shardSet
      | Some shard =>
          let task :=
            {| stepIndex := resolveStepIndex trackSteps stepIndices Kshard
                 (targetLabel (l_target input)) (Some (set_index shardSet)) (Some (l_slot input));
               request :=
                 {| r_dealId := l_dealId input; r_manifestRoot := l_manifestRoot input;
                    r_previousManifestRoot := l_previousManifestRoot input;
                    r_uploadGeneration := None; r_target := l_target input;
                    r_artifact := artifact Kshard (Some (set_index shardSet)) (Some (l_slot input))
                                    (shard_data shard) (shard_fullSize shard) |} |} in
          match slot_shards input stepIndices l with
          | inl e => inl e
          | inr tasks => inr (task :: tasks)
          end
      end
  end.

Definition uploadStripedSlot (input : StripedSlotUploadInput)
    : list (list UploadProgressStep) * upload_run :=
  let '(steps, calls) := first_steps (buildStripedSlotUploadSteps input) in
  let stepIndices := indexUploadSteps steps in
  let resolve := resolveStepIndex trackSteps stepIndices in
  let target := targetLabel (l_target input) in
  match manifest_present (l_manifestBlob input) with
  | None =>
      fail_with (fun s => updateStep s (resolve Kmanifest target None None) failed
                            (Some (Some MANIFEST_MISSING))) steps calls MANIFEST_MISSING
  | Some manifestBlob =>
      let mkRequest a :=
        {| r_dealId := l_dealId input; r_manifestRoot := l_manifestRoot input;
           r_previousManifestRoot := l_previousManifestRoot input; r_uploadGeneration := None;
           r_target := l_target input; r_artifact := a |} in
      let metadata :=
        map (fun mdu =>
               {| stepIndex := resolve Kmdu target (Some (mdu_index mdu)) None;
                  request := mkRequest (artifact Kmdu (Some (mdu_index mdu)) None (mdu_data mdu)
                                          (mdu_fullSize mdu)) |}) (l_metadataMdus input)
        ++ [{| stepIndex := resolve Kmanifest target None None;
               request := mkRequest (artifact Kmanifest None None manifestBlob
                                       (l_manifestBlobFullSize input)) |}] in
      match slot_shards input stepIndices (default [] (l_shardSets input)) with
      | inl shardSet =>
          let message := "missing shard for slot " +:+ pretty (l_slot input) in
          fail_with (fun s => updateStep s (resolve Kshard target (Some (set_index shardSet))
                        (Some (l_slot input))) failed (Some (Some message))) steps calls message
      | inr shardTasks =>
          let tasks := metadata ++ shardTasks in
          if sendBundle then (calls, RunBundles (groupUploadTasksByTarget tasks) steps 1 false)
          else
            let slotConcurrency :=
              Z.max 1 (Z.min (Z.of_nat (length tasks))
                         (stripedMetadataConcurrency + stripedShardConcurrency)) in
            (calls, RunTasks tasks steps (Z.to_nat slotConcurrency) false)
      end
  end.

End engine.

(** The upload finishes with result [r]; [u] is the final state of the pool when
    one ran. *)
Inductive upload_result (answers : response -> Prop) (onProgress onTaskEvent : bool)
    : upload_run -> UploadEngineResult -> option upload -> Prop :=
| result_returned r : upload_result answers onProgress onTaskEvent (Returned r) r None
| result_tasks tasks steps concurrency continueOnError u :
    runUploadTasks answers onProgress onTaskEvent tasks steps concurrency continueOnError u ->
    upload_result answers onProgress onTaskEvent
      (RunTasks tasks steps concurrency continueOnError) (result_of u) (Some u)
| result_bundles bundles steps concurrency continueOnError u :
    runUploadTaskBundles answers onProgress onTaskEvent bundles steps concurrency continueOnError u ->
    upload_result answers onProgress onTaskEvent
      (RunBundles bundles steps concurrency continueOnError) (result_of u) (Some u).

(** ** Commit requests *)

(** The counts are integers here, so [Number(x) || 0] is [x] and
    [Number.isFinite] holds; sums round. *)
Record PreparedCommitInput := {
  c_dealId : string; c_previousManifestRoot : string; c_manifestRoot : string; isMode2 : bool;
  fileBytesTotal : Z; totalWitnessMdus : Z; totalUserMdus : Z; c_mdus : list PreparedMdu }.

Record ChainCommitRequest := {
  q_dealId : string; q_previousManifestRoot : string; q_manifestRoot : string; q_fileSize : Z;
  q_totalMdus : Z; q_witnessMdus : Z }.

Definition buildCommitRequest (input : PreparedCommitInput) : result ChainCommitRequest :=
  let witnessMdus := Z.max 0 (totalWitnessMdus input) in
  let totalMdus :=
    if isMode2 input
    then Z.max 0 (num_add (num_add 1 witnessMdus) (Z.max 0 (totalUserMdus input)))
    else Z.max 0 (Z.of_nat (length (c_mdus input))) in
  throw_if totalMdus <=? 0 with "Commit requires totalMdus > 0" else
  throw_if witnessMdus <? 0 with "Commit requires witnessMdus >= 0" else
  throw_if totalMdus <=? num_add 1 witnessMdus
    with "Commit requires totalMdus > 1 + witnessMdus" else
  Ok {| q_dealId := c_dealId input; q_previousManifestRoot := c_previousManifestRoot input;
        q_manifestRoot := c_manifestRoot input; q_fileSize := fileBytesTotal input;
        q_totalMdus := totalMdus; q_witnessMdus := witnessMdus |}.

(** * What a settled upload promises *)

(** ** Updates of steps *)

Definition step_done (u : upload) (i : Z) : Prop :=
  forall s, 0 <= i -> steps u !! Z.to_nat i = Some s -> st_status s = complete.

Lemma updateStep_length steps i st e : length (updateStep steps i st e) = length steps.
Proof. unfold updateStep. case_match; [done|]. apply length_alter. Qed.

Lemma updateStep_same steps i st e s :
  0 <= i -> updateStep steps i st e !! Z.to_nat i = Some s -> st_status s = st.
Proof.
  intros Hi. unfold updateStep. destruct (_ || _) eqn:E.
  - intros H%lookup_lt_Some. apply orb_true_iff in E as [?|?]; lia.
  - rewrite list_lookup_alter_eq. by intros (s' & _ & ->)%fmap_Some.
Qed.

Lemma updateStep_other steps i k st e :
  0 <= k -> i <> k -> updateStep steps i st e !! Z.to_nat k = steps !! Z.to_nat k.
Proof.
  intros Hk Hne. unfold updateStep. destruct (_ || _) eqn:E; [done|].
  apply orb_false_iff in E as [? ?]. rewrite list_lookup_alter_ne; [done|]. lia.
Qed.

Lemma update_all_other tasks steps k st e :
  0 <= k -> k ∉ map stepIndex tasks -> update_all tasks st e steps !! Z.to_nat k = steps !! Z.to_nat k.
Proof.
  intros Hk. revert steps. induction tasks as [|t tasks IH]; intros steps; cbn; [done|].
  intros [? ?]%not_elem_of_cons. unfold update_all in IH. rewrite IH by done.
  apply updateStep_other; [done|congruence].
Qed.

Lemma update_all_same tasks steps k st e s :
  0 <= k -> k ∈ map stepIndex tasks -> update_all tasks st e steps !! Z.to_nat k = Some s ->
  st_status s = st.
Proof.
  intros Hk. revert steps. induction tasks as [|t tasks IH]; intros steps; cbn;
    [by intros ?%elem_of_nil|]. intros Hin Hl.
  destruct (decide (k ∈ map stepIndex tasks)) as [?|Hn]; [by eapply IH|].
  apply elem_of_cons in Hin as [->|?]; [|done].
  pose proof (update_all_other tasks (updateStep steps (stepIndex t) st e) _ st e Hk Hn) as Hu.
  unfold update_all in Hu. rewrite Hu in Hl. by eapply updateStep_same.
Qed.

(** ** The laws of a unit, shared by both pools *)

Section accounting.
Context (trackProgress : bool) (all : list UploadTask).

(** Progress is shown, and no two tasks share a step. *)
Definition tracked : Prop := trackProgress = true /\ NoDup (map stepIndex all).

Definition task_done (u : upload) (t : UploadTask) : Prop :=
  request t ∈ accepted u /\ (tracked -> step_done u (stepIndex t)).
Definition untouched (u : upload) (t : UploadTask) : Prop :=
  tracked -> 0 <= stepIndex t ->
  forall s, steps u !! Z.to_nat (stepIndex t) = Some s -> st_status s <> complete.

Record grows (u u' : upload) : Prop := {
  grows_accepted r : r ∈ accepted u -> r ∈ accepted u';
  grows_error : truthy (firstError u) = true -> firstError u' = firstError u;
  grows_steps k : tracked -> step_done u k -> step_done u' k \/ truthy (firstError u') = true }.

#[export] Instance grows_preorder : PreOrder grows.
Proof.
  split; [constructor; auto|]. intros a b c [A1 E1 S1] [A2 E2 S2]. constructor; [auto| |].
  - intros Ht. rewrite E2; [by apply E1|]. by rewrite E1.
  - intros k Ht Hd. destruct (S1 k Ht Hd) as [?|Hb]; [by apply S2|]. right. by rewrite E2.
Qed.

Lemma grows_truthy u u' :
  grows u u' -> truthy (firstError u) = true -> truthy (firstError u') = true.
Proof. intros [_ He _] Ht. by rewrite He. Qed.

Lemma grows_done u u' ts :
  grows u u' -> Forall (task_done u) ts \/ truthy (firstError u) = true ->
  Forall (task_done u') ts \/ truthy (firstError u') = true.
Proof.
  intros Hg [Hd|?]; [|right; by eapply grows_truthy]. destruct Hg as [Ha _ Hs].
  destruct (truthy (firstError u')) eqn:E; [by right|left].
  eapply Forall_impl; [exact Hd|]. intros t [Hr Ht]. split; [by apply Ha|].
  intros Htr. destruct (Hs _ Htr (Ht Htr)); [done|congruence].
Qed.

Lemma set_error_truthy m u : m <> "" -> truthy (firstError (set_error m u)) = true.
Proof.
  intros Hm. cbn. destruct (truthy (firstError u)) eqn:E; cbn; [done|].
  by apply negb_true_iff, String.eqb_neq.
Qed.

Lemma steps_progress f u :
  steps (progress trackProgress f u) = if trackProgress then f (steps u) else steps u.
Proof. unfold progress. by case_match. Qed.
Lemma error_progress f u : firstError (progress trackProgress f u) = firstError u.
Proof. unfold progress. by case_match. Qed.
Lemma accepted_progress f u : accepted (progress trackProgress f u) = accepted u.
Proof. unfold progress. by case_match. Qed.
Lemma steps_event te es u : steps (event te es u) = steps u.
Proof. unfold event. by case_match. Qed.
Lemma error_event te es u : firstError (event te es u) = firstError u.
Proof. unfold event. by case_match. Qed.
Lemma accepted_event te es u : accepted (event te es u) = accepted u.
Proof. unfold event. by case_match. Qed.

(** A change of the steps of [ts] alone keeps what is done, if it completes them,
    they were not complete before, or there is an error. *)
Lemma grows_update u u' ts f :
  (forall r, r ∈ accepted u -> r ∈ accepted u') ->
  (truthy (firstError u) = true -> firstError u' = firstError u) ->
  steps u' = (if trackProgress then f (steps u) else steps u) ->
  (forall k, 0 <= k -> k ∉ map stepIndex ts -> f (steps u) !! Z.to_nat k = steps u !! Z.to_nat k) ->
  length (f (steps u)) = length (steps u) ->
  (forall k s, 0 <= k -> k ∈ map stepIndex ts -> f (steps u) !! Z.to_nat k = Some s ->
     st_status s = complete) \/ Forall (untouched u) ts \/ truthy (firstError u') = true ->
  grows u u'.
Proof.
  intros Ha He Hs Hother Hlen Hts. constructor; [done..|].
  intros k Htr Hd. destruct (truthy (firstError u')) eqn:Et; [by right|left].
  intros s Hk Hl. rewrite Hs, (proj1 Htr) in Hl. destruct (decide (k ∈ map stepIndex ts)) as [Hin|Hin].
  - destruct Hts as [Hts|[Hts|?]]; [by eapply Hts| |done]. exfalso.
    assert (exists s', steps u !! Z.to_nat k = Some s') as [s' Hs'].
    { apply lookup_lt_is_Some. rewrite <- Hlen. by eapply lookup_lt_Some. }
    apply list_elem_of_fmap in Hin as (t & -> & Ht). rewrite Forall_forall in Hts.
    by eapply (Hts t Ht Htr Hk s' Hs'), Hd.
  - rewrite Hother in Hl by done. by eapply Hd.
Qed.

Lemma untouched_update u u' t ts f :
  steps u' = (if trackProgress then f (steps u) else steps u) ->
  (forall k, 0 <= k -> k ∉ map stepIndex ts -> f (steps u) !! Z.to_nat k = steps u !! Z.to_nat k) ->
  (tracked -> stepIndex t ∉ map stepIndex ts) ->
  untouched u t -> untouched u' t.
Proof.
  intros Hs Hother Hnin Hu Htr Hk s. rewrite Hs. rewrite (proj1 Htr), Hother; eauto.
Qed.

End accounting.

(** ** The pool of tasks *)

Section tasks_laws.
Context (tasks : list UploadTask) (trackProgress trackTaskEvents : bool).
Abbreviation start := (start_task tasks trackProgress trackTaskEvents).
Abbreviation react := (react_task tasks trackProgress trackTaskEvents).
Abbreviation tracked := (tracked trackProgress tasks).
Abbreviation grows := (grows trackProgress tasks).

Definition task_fresh (u : upload) (i : nat) : Prop :=
  forall t, tasks !! i = Some t -> untouched trackProgress tasks u t.
Definition task_ok (u : upload) (i : nat) : Prop :=
  forall t, tasks !! i = Some t -> task_done trackProgress tasks u t.

(** What launching and answering do to the steps, as an update of one step. *)
Lemma start_task_steps u i a t :
  tasks !! i = Some t ->
  let u' := (start u i a).1 in
  accepted u' = accepted u /\ firstError u' = firstError u
  /\ steps u' = if trackProgress then updateStep (steps u) (stepIndex t) uploading (Some None) else steps u.
Proof.
  intros Ht. unfold start_task. rewrite Ht. cbn.
  rewrite steps_progress, error_progress, accepted_progress, steps_event, error_event, accepted_event.
  done.
Qed.

Lemma react_task_steps u i r t :
  tasks !! i = Some t ->
  let u' := (react u i tt r).1 in
  match r with
  | Resolved =>
      accepted u' = accepted u ++ [request t] /\ firstError u' = firstError u
      /\ steps u' = if trackProgress then updateStep (steps u) (stepIndex t) complete None else steps u
  | Rejected e =>
      accepted u' = accepted u /\ firstError u' = firstError (set_error (message e) u)
      /\ steps u' = if trackProgress
                    then updateStep (steps u) (stepIndex t) failed (Some (Some (message e)))
                    else steps u
  end.
Proof.
  intros Ht. unfold react_task. rewrite Ht. destruct r; cbn;
    rewrite steps_progress, error_progress, accepted_progress, steps_event, error_event, accepted_event;
    done.
Qed.

Lemma other_step i k t t' :
  tasks !! i = Some t -> tasks !! k = Some t' -> i <> k -> tracked ->
  stepIndex t' ∉ map stepIndex [t].
Proof.
  intros Hi Hk Hne [_ Hnd] Hin%list_elem_of_singleton. apply Hne.
  eapply NoDup_lookup; [exact Hnd| |].
  - change (map stepIndex tasks) with (stepIndex <$> tasks). by rewrite list_lookup_fmap, Hi.
  - change (map stepIndex tasks) with (stepIndex <$> tasks). by rewrite list_lookup_fmap, Hk, <- Hin.
Qed.

Lemma one_other t st e (s : list UploadProgressStep) k :
  0 <= k -> k ∉ map stepIndex [t] ->
  updateStep s (stepIndex t) st e !! Z.to_nat k = s !! Z.to_nat k.
Proof. intros Hk Hn. apply updateStep_other; [done|]. intros <-. apply Hn. left. Qed.

Lemma set_error_keeps m u :
  truthy (firstError u) = true -> firstError (set_error m u) = firstError u.
Proof. intros Ht. cbn. by rewrite Ht. Qed.

Lemma start_task_law u i a : task_fresh u i -> grows u (start u i a).1.
Proof.
  intros Hf. destruct (tasks !! i) as [t|] eqn:Ht.
  2: { unfold start_task. rewrite Ht. reflexivity. }
  destruct (start_task_steps u i a t Ht) as (Ha & He & Hs).
  apply (grows_update _ _ u _ [t] (fun s => updateStep s (stepIndex t) uploading (Some None))).
  - by rewrite Ha.
  - done.
  - done.
  - intros. by apply one_other.
  - apply updateStep_length.
  - right. left. apply Forall_singleton. by apply Hf.
Qed.

Lemma react_task_law u i r :
  good r ->
  grows u (react u i tt r).1
  /\ (task_ok (react u i tt r).1 i \/ truthy (firstError (react u i tt r).1) = true).
Proof.
  intros Hg. destruct (tasks !! i) as [t|] eqn:Ht.
  2: { unfold react_task. rewrite Ht. split; [reflexivity|]. left. unfold task_ok. congruence. }
  pose proof (react_task_steps u i r t Ht) as Hr. destruct r as [|e]; destruct Hr as (Ha & He & Hs).
  - split; [|left].
    + apply (grows_update _ _ u _ [t] (fun s => updateStep s (stepIndex t) complete None)).
      * intros r Hin. rewrite Ha. apply elem_of_app. by left.
      * done.
      * done.
      * intros. by apply one_other.
      * apply updateStep_length.
      * left. intros k s Hk ->%list_elem_of_singleton Hl. by apply updateStep_same in Hl.
    + intros t' Ht'. assert (t' = t) as -> by congruence. split.
      * rewrite Ha. apply elem_of_app. right. left.
      * intros [Htp _] s Hk Hl. rewrite Hs, Htp in Hl. by apply updateStep_same in Hl.
  - assert (Herr : truthy (firstError (react u i tt (Rejected e)).1) = true)
      by (rewrite He; by apply set_error_truthy).
    split; [|by right].
    apply (grows_update _ _ u _ [t] (fun s => updateStep s (stepIndex t) failed (Some (Some (message e))))).
    + by rewrite Ha.
    + intros. rewrite He. by apply set_error_keeps.
    + done.
    + intros. by apply one_other.
    + apply updateStep_length.
    + by right; right.
Qed.

Lemma start_task_fresh u i a k : i <> k -> task_fresh u k -> task_fresh (start u i a).1 k.
Proof.
  intros Hne Hf t' Hk. destruct (tasks !! i) as [t|] eqn:Ht.
  2: { unfold start_task. rewrite Ht. by apply Hf. }
  destruct (start_task_steps u i a t Ht) as (_ & _ & Hs).
  eapply (untouched_update _ _ u _ t' [t] (fun s => updateStep s (stepIndex t) uploading (Some None)));
    [done | intros; by apply one_other | by eapply other_step | by apply Hf].
Qed.

Lemma react_task_fresh u i r k : i <> k -> task_fresh u k -> task_fresh (react u i tt r).1 k.
Proof.
  intros Hne Hf t' Hk. destruct (tasks !! i) as [t|] eqn:Ht.
  2: { unfold react_task. rewrite Ht. by apply Hf. }
  pose proof (react_task_steps u i r t Ht) as Hr. destruct r as [|e]; destruct Hr as (_ & _ & Hs).
  - eapply (untouched_update _ _ u _ t' [t] (fun s => updateStep s (stepIndex t) complete None));
      [done | intros; by apply one_other | by eapply other_step | by apply Hf].
  - eapply (untouched_update _ _ u _ t' [t]
      (fun s => updateStep s (stepIndex t) failed (Some (Some (message e)))));
      [done | intros; by apply one_other | by eapply other_step | by apply Hf].
Qed.

Lemma react_task_ends u i r : (react u i tt r).2 = None.
Proof. unfold react_task. destruct (tasks !! i); [|done]. by destruct r. Qed.

#[export] Instance tasks_laws : PoolLaws firstError start react.
Proof.
  refine {| extends := grows; unit_ok := task_ok; job_inv := fun _ _ _ => True; fresh := task_fresh;
            cost := fun _ _ => 0%nat; bound := fun _ => 0%nat |}.
  - apply grows_truthy.
  - intros u u' i Hg Hok. destruct (tasks !! i) as [t|] eqn:Ht;
      [|left; unfold task_ok; congruence].
    assert (Forall (task_done trackProgress tasks u) [t]) as Ho
      by (apply Forall_singleton, Hok; exact Ht).
    destruct (grows_done _ _ u u' [t] Hg (or_introl Ho)) as [Hd|?]; [|by right].
    left. intros t' Ht'. assert (t' = t) as -> by congruence. by inversion Hd.
  - done.
  - intros u i a Hf. split; [by apply start_task_law|done].
  - apply start_task_fresh.
  - done.
  - intros u i [] r _ Hg. rewrite react_task_ends. by apply react_task_law.
  - intros u i [] r. apply react_task_fresh.
  - intros u i [] r j'. by rewrite react_task_ends.
Defined.

End tasks_laws.

(** ** The pool of bundles *)

Section bundles_laws.
Context (bundles : list UploadTaskBundle) (trackProgress trackTaskEvents continueOnError : bool).
Abbreviation start := (start_bundle bundles trackProgress trackTaskEvents).
Abbreviation react := (react_bundle bundles trackProgress trackTaskEvents continueOnError).
Definition bundle_tasks : list UploadTask := concat (map b_tasks bundles).
Abbreviation tracked := (tracked trackProgress bundle_tasks).
Abbreviation grows := (grows trackProgress bundle_tasks).
Abbreviation delivered := (task_done trackProgress bundle_tasks).
Abbreviation failing u := (truthy (firstError u) = true).

Definition bundle_fresh (u : upload) (i : nat) : Prop :=
  forall b, bundles !! i = Some b -> Forall (untouched trackProgress bundle_tasks u) (b_tasks b).
Definition bundle_ok (u : upload) (i : nat) : Prop :=
  forall b, bundles !! i = Some b -> Forall (delivered u) (b_tasks b).
(** The artifacts before the one in flight are done, or there is an error. *)
Definition bundle_job_inv (u : upload) (i : nat) (j : bundle_job) : Prop :=
  match j with
  | Sending => True
  | Fallback k _ =>
      forall b, bundles !! i = Some b -> Forall (delivered u) (take k (b_tasks b)) \/ failing u
  end.
Definition bundle_cost (i : nat) (j : bundle_job) : nat :=
  match bundles !! i, j with
  | None, _ => 0
  | Some b, Sending => S (length (b_tasks b))
  | Some b, Fallback k _ => length (b_tasks b) - k
  end.

(** The parts of the state the laws speak of. *)
Record view (u u' : upload) : Prop := {
  view_accepted : accepted u' = accepted u;
  view_error : firstError u' = firstError u;
  view_steps : steps u' = steps u }.

Lemma fallback_next_view b k reason u : view u (fallback_next b k reason u).1.
Proof. unfold fallback_next. by case_match. Qed.

Lemma fallback_next_snd b k reason u :
  (fallback_next b k reason u).2 = if decide (k < length (b_tasks b))%nat then Some (Fallback k reason) else None.
Proof.
  unfold fallback_next. destruct (b_tasks b !! k) as [t|] eqn:E.
  - apply lookup_lt_Some in E. by rewrite decide_True.
  - apply lookup_ge_None in E. rewrite decide_False by lia. done.
Qed.

Lemma view_done u u' t : view u u' -> delivered u t -> delivered u' t.
Proof.
  intros [Ha _ Hs] [Hr Hd]. split; [by rewrite Ha|]. unfold step_done. by rewrite Hs.
Qed.

Lemma view_grows u u' : view u u' -> grows u u'.
Proof.
  intros [Ha He Hs]. constructor; [by rewrite Ha | done |].
  intros k _ Hd. left. unfold step_done. by rewrite Hs.
Qed.

Lemma other_bundle i k b b' t' :
  bundles !! i = Some b -> bundles !! k = Some b' -> i <> k -> t' ∈ b_tasks b' -> tracked ->
  stepIndex t' ∉ map stepIndex (b_tasks b).
Proof.
  intros Hi Hk Hne Ht [_ Hnd] Hin.
  assert (Hgen : forall (bs : list UploadTaskBundle) i k,
    NoDup (map stepIndex (concat (map b_tasks bs))) -> (i < k)%nat ->
    forall b b' t t', bs !! i = Some b -> bs !! k = Some b' -> t ∈ b_tasks b -> t' ∈ b_tasks b' ->
    stepIndex t <> stepIndex t').
  { clear. induction bs as [|b0 bs IH]; intros i k Hnd Hlt b b' t t' Hi Hk Ht Ht' He; [done|].
    cbn in Hnd. rewrite map_app in Hnd. apply NoDup_app in Hnd as (_ & Hd & Hnd).
    destruct k as [|k]; [lia|]. destruct i as [|i]; [|eapply (IH i k); eauto; lia].
    cbn in Hi, Hk. injection Hi as ->. apply (Hd (stepIndex t)).
    - by apply list_elem_of_fmap_2.
    - rewrite He. apply list_elem_of_fmap_2. apply list_elem_of_In, in_concat.
      exists (b_tasks b'). split; [|by apply list_elem_of_In].
      apply list_elem_of_In, list_elem_of_fmap_2. by eapply list_elem_of_lookup_2. }
  apply list_elem_of_fmap in Hin as (t & He & Ht0).
  destruct (Nat.lt_total i k) as [?|[?|?]]; [|done|];
    (eapply Hgen; [exact Hnd| eassumption | eassumption | eassumption | eassumption | eassumption | congruence]).
Qed.

Lemma start_bundle_steps u i a b :
  bundles !! i = Some b ->
  let u' := (start u i a).1 in
  accepted u' = accepted u /\ firstError u' = firstError u
  /\ steps u' = if trackProgress then update_all (b_tasks b) uploading (Some None) (steps u) else steps u.
Proof.
  intros Hb. unfold start_bundle. rewrite Hb. cbn.
  by rewrite steps_progress, error_progress, accepted_progress, steps_event, error_event, accepted_event.
Qed.

Lemma update_all_length tasks st e steps : length (update_all tasks st e steps) = length steps.
Proof.
  revert steps. induction tasks as [|t tasks IH]; intros steps; cbn; [done|].
  unfold update_all in IH. by rewrite IH, updateStep_length.
Qed.

Lemma start_bundle_law u i a : bundle_fresh u i -> grows u (start u i a).1.
Proof.
  intros Hf. destruct (bundles !! i) as [b|] eqn:Hb.
  2: { unfold start_bundle. rewrite Hb. reflexivity. }
  destruct (start_bundle_steps u i a b Hb) as (Ha & He & Hs).
  apply (grows_update _ _ u _ (b_tasks b) (update_all (b_tasks b) uploading (Some None)));
    [by rewrite Ha | done | done | by intros; apply update_all_other | apply update_all_length |].
  right. left. by apply Hf.
Qed.

Lemma completeBundle_view b i okv m u :
  let u' := completeBundle trackProgress trackTaskEvents b i okv m u in
  accepted u' = accepted u /\ firstError u' = firstError u
  /\ steps u' = if trackProgress
                then update_all (b_tasks b) (if okv then complete else failed)
                       (if okv then None else Some m) (steps u)
                else steps u.
Proof.
  unfold completeBundle. cbn.
  by rewrite steps_progress, error_progress, accepted_progress, steps_event, error_event, accepted_event.
Qed.

(** The whole bundle was accepted. *)
Lemma bundle_resolved u i b :
  bundles !! i = Some b ->
  let u' := completeBundle trackProgress trackTaskEvents b i true None
              (accept (map request (b_tasks b)) u) in
  grows u u' /\ bundle_ok u' i.
Proof.
  intros Hb. destruct (completeBundle_view b i true None (accept (map request (b_tasks b)) u)) as (Ha & He & Hs).
  cbn [accepted firstError steps accept] in *. cbv zeta. set (u' := completeBundle _ _ _ _ _ _ _) in *. split.
  - apply (grows_update _ _ u _ (b_tasks b) (update_all (b_tasks b) complete None));
      [|done|done|by intros; apply update_all_other|apply update_all_length|].
    + intros r Hr. rewrite Ha. apply elem_of_app. by left.
    + left. intros k s Hk Hin Hl. by eapply update_all_same.
  - intros b' Hb'. assert (b' = b) as -> by congruence. apply Forall_forall. intros t Ht. split.
    + rewrite Ha. apply elem_of_app. right. by apply list_elem_of_fmap_2.
    + intros [Htp _] s Hk Hl. rewrite Hs, Htp in Hl. eapply update_all_same; [done| |done].
      by apply list_elem_of_fmap_2.
Qed.

(** A rejection leaves an error. *)
Lemma rejected_grows u u' ts f m :
  m <> "" -> accepted u' = accepted u -> firstError u' = firstError (set_error m u) ->
  steps u' = (if trackProgress then f (steps u) else steps u) ->
  (forall k, 0 <= k -> k ∉ map stepIndex ts -> f (steps u) !! Z.to_nat k = steps u !! Z.to_nat k) ->
  length (f (steps u)) = length (steps u) ->
  grows u u' /\ failing u'.
Proof.
  intros Hm Ha He Hs Ho Hl. assert (failing u') by (rewrite He; by apply set_error_truthy).
  split; [|done]. apply (grows_update _ _ u _ ts f);
    [by rewrite Ha | intros; rewrite He; by apply set_error_keeps | done | done | done | by right; right].
Qed.

(** The next artifact of the fallback, or the end of it. *)
Lemma fallback_next_law u i b k reason :
  bundles !! i = Some b -> Forall (delivered u) (take k (b_tasks b)) \/ failing u ->
  let n := fallback_next b k reason u in
  grows u n.1 /\
  match n.2 with
  | Some j' => bundle_job_inv n.1 i j'
  | None => bundle_ok n.1 i \/ failing n.1
  end.
Proof.
  intros Hb Hd n. pose proof (fallback_next_view b k reason u) as Hv. fold n in Hv.
  pose proof (fallback_next_snd b k reason u) as Hn. fold n in Hn. rewrite Hn.
  pose proof (grows_done _ _ u n.1 _ (view_grows _ _ Hv) Hd) as Hd'.
  split; [by apply view_grows|]. case_decide as Hk.
  - intros b' Hb'. assert (b' = b) as -> by congruence. exact Hd'.
  - rewrite take_ge in Hd' by lia. destruct Hd' as [Hd'|?]; [left|by right].
    intros b' Hb'. by assert (b' = b) as -> by congruence.
Qed.

(** An intermediate state: what follows keeps both parts of the law. *)
Lemma law_trans u u' i (n : upload * option bundle_job) :
  grows u u' ->
  (grows u' n.1 /\ match n.2 with Some j' => bundle_job_inv n.1 i j' | None => bundle_ok n.1 i \/ failing n.1 end) ->
  grows u n.1 /\ match n.2 with Some j' => bundle_job_inv n.1 i j' | None => bundle_ok n.1 i \/ failing n.1 end.
Proof. intros Hg [Hn ?]. split; [by etransitivity|done]. Qed.

(** Every answer to a fallback artifact changes one step, then goes on or stops. *)
Lemma fallback_answer_split u i b k reason r t :
  b_tasks b !! k = Some t ->
  exists u1 st e,
    steps u1 = (if trackProgress then updateStep (steps u) (stepIndex t) st e else steps u)
    /\ match r with
       | Resolved => st = complete /\ accepted u1 = accepted u ++ [request t]
                     /\ firstError u1 = firstError u
       | Rejected e => accepted u1 = accepted u /\ firstError u1 = firstError (set_error (message e) u)
       end
    /\ let n := fallback_answer trackProgress trackTaskEvents continueOnError b i k reason r u in
       n = fallback_next b (S k) reason u1
       \/ n = (u1, None) /\ match r with Resolved => False | Rejected _ => True end.
Proof.
  intros Ht. unfold fallback_answer. rewrite Ht.
  destruct r as [|e]; cbn zeta.
  - set (u1 := progress _ _ _). exists u1, complete, None. unfold u1.
    rewrite steps_progress, error_progress, accepted_progress, steps_event, error_event, accepted_event.
    split; [done|]. split; [done|]. by left.
  - set (u1 := progress _ _ _). exists u1, failed, (Some (Some (message e))). unfold u1.
    rewrite steps_progress, error_progress, accepted_progress, steps_event, error_event, accepted_event.
    split; [done|]. split; [done|]. destruct continueOnError; [by left|by right].
Qed.

Lemma fallback_answer_law u i b k reason r :
  bundles !! i = Some b -> bundle_job_inv u i (Fallback k reason) -> good r ->
  let n := fallback_answer trackProgress trackTaskEvents continueOnError b i k reason r u in
  grows u n.1 /\
  match n.2 with Some j' => bundle_job_inv n.1 i j' | None => bundle_ok n.1 i \/ failing n.1 end.
Proof.
  intros Hb Hj Hg n. destruct (b_tasks b !! k) as [t|] eqn:Ht.
  2: { subst n. unfold fallback_answer. rewrite Ht. cbn. split; [reflexivity|].
       destruct (Hj b Hb) as [Hd|?]; [left|by right].
       rewrite take_ge in Hd by (by apply lookup_ge_None). intros b' Hb'.
       by assert (b' = b) as -> by congruence. }
  destruct (fallback_answer_split u i b k reason r t Ht) as (u1 & st & e & Hs & Hr & Hn).
  fold n in Hn. cbv zeta in Hn.
  assert (grows u u1 /\ (Forall (delivered u1) (take (S k) (b_tasks b)) \/ failing u1)
          /\ match r with Resolved => True | Rejected _ => failing u1 end) as (Hgr & Hd & Hf).
  { destruct r as [|e'].
    - destruct Hr as (-> & Ha & He).
      assert (Hgr : grows u u1).
      { apply (grows_update _ _ u _ [t] (fun s => updateStep s (stepIndex t) complete e));
          [|done|done|by intros; apply one_other|apply updateStep_length|].
        - intros r Hin. rewrite Ha. apply elem_of_app. by left.
        - left. intros k' s Hk ->%list_elem_of_singleton Hl. by apply updateStep_same in Hl. }
      split; [done|]. split; [|done].
      destruct (grows_done _ _ u u1 _ Hgr (Hj b Hb)) as [Hd|?]; [left|by right].
      rewrite (take_S_r _ _ _ Ht). apply Forall_app. split; [done|]. apply Forall_singleton. split.
      + rewrite Ha. apply elem_of_app. right. left.
      + intros [Htp _] s Hk Hl. rewrite Hs, Htp in Hl. by apply updateStep_same in Hl.
    - destruct Hr as [Ha He].
      destruct (rejected_grows u u1 [t] (fun s => updateStep s (stepIndex t) st e) (message e'))
        as [? ?]; try done; [by intros; apply one_other | apply updateStep_length |]. tauto. }
  destruct Hn as [-> | [-> Hr']].
  - eapply law_trans; [exact Hgr|]. by apply fallback_next_law.
  - split; [exact Hgr|]. right. by destruct r.
Qed.

Lemma react_bundle_law u i j r :
  bundle_job_inv u i j -> good r ->
  grows u (react u i j r).1 /\
  match (react u i j r).2 with
  | Some j' => bundle_job_inv (react u i j r).1 i j'
  | None => bundle_ok (react u i j r).1 i \/ failing (react u i j r).1
  end.
Proof.
  intros Hj Hg. unfold react_bundle. destruct (bundles !! i) as [b|] eqn:Hb.
  2: { split; [reflexivity|]. left. unfold bundle_ok. congruence. }
  destruct j as [|k reason]; [|by apply fallback_answer_law].
  destruct r as [|e].
  - destruct (bundle_resolved u i b Hb) as [? ?]. split; [done|by left].
  - destruct (isBundleUnsupportedError e).
    + unfold fallbackToArtifacts. cbv zeta. set (u1 := event _ _ _).
      assert (view u u1) as Hv.
      { unfold u1. constructor; by rewrite ?steps_event, ?error_event, ?accepted_event. }
      eapply law_trans; [by apply view_grows|]. apply fallback_next_law; [done|]. left. constructor.
    + set (u' := completeBundle _ _ _ _ _ _ _). cbn [fst snd].
      destruct (completeBundle_view b i false (Some (message e)) (set_error (message e) u)) as (Ha & He & Hs).
      fold u' in Ha, He, Hs. cbn [accepted set_error steps] in Ha, Hs.
      destruct (rejected_grows u u' (b_tasks b)
        (update_all (b_tasks b) failed (Some (Some (message e)))) (message e)) as [? ?];
        try done; [by intros; apply update_all_other | apply update_all_length |].
      split; [done|by right].
Qed.

(** A unit touches the steps of its own bundle only. *)
Definition frame (b : UploadTaskBundle) (u u' : upload) : Prop :=
  forall k, 0 <= k -> k ∉ map stepIndex (b_tasks b) ->
    steps u' !! Z.to_nat k = steps u !! Z.to_nat k.

Lemma frame_progress b f u u' :
  steps u' = (if trackProgress then f (steps u) else steps u) ->
  (forall k, 0 <= k -> k ∉ map stepIndex (b_tasks b) -> f (steps u) !! Z.to_nat k = steps u !! Z.to_nat k) ->
  frame b u u'.
Proof. intros Hs Hf k Hk Hn. rewrite Hs. by destruct trackProgress; [apply Hf|]. Qed.

Lemma frame_view b u u1 u' : frame b u u1 -> view u1 u' -> frame b u u'.
Proof. intros Hf Hv k Hk Hn. rewrite (view_steps _ _ Hv). by apply Hf. Qed.

Lemma react_bundle_frame u i j r b :
  bundles !! i = Some b -> frame b u (react u i j r).1.
Proof.
  intros Hb. unfold react_bundle. rewrite Hb. destruct j as [|k reason].
  - destruct r as [|e]; [|destruct (isBundleUnsupportedError e)].
    + destruct (completeBundle_view b i true None (accept (map request (b_tasks b)) u)) as (_ & _ & Hs).
      eapply frame_progress; [exact Hs|]. by intros; apply update_all_other.
    + unfold fallbackToArtifacts. cbv zeta. set (u1 := event _ _ _).
      apply (frame_view b u u1); [|apply fallback_next_view]. intros k Hk _. unfold u1.
      by rewrite steps_event.
    + destruct (completeBundle_view b i false (Some (message e)) (set_error (message e) u)) as (_ & _ & Hs).
      eapply frame_progress; [exact Hs|]. by intros; apply update_all_other.
  - destruct (b_tasks b !! k) as [t|] eqn:Ht.
    2: { unfold fallback_answer. rewrite Ht. by intros ? ? ?. }
    destruct (fallback_answer_split u i b k reason r t Ht) as (u1 & st & e & Hs & _ & Hn).
    assert (frame b u u1) as Hf.
    { apply (frame_progress b (fun s => updateStep s (stepIndex t) st e)); [exact Hs|]. intros k' Hk Hnin. apply updateStep_other; [done|].
      intros <-. apply Hnin, list_elem_of_fmap_2. by eapply list_elem_of_lookup_2. }
    destruct Hn as [-> | [-> _]]; [|done]. by eapply frame_view, fallback_next_view.
Qed.

Lemma start_bundle_frame u i a b : bundles !! i = Some b -> frame b u (start u i a).1.
Proof.
  intros Hb. destruct (start_bundle_steps u i a b Hb) as (_ & _ & Hs).
  eapply frame_progress; [exact Hs|]. by intros; apply update_all_other.
Qed.

Lemma frame_fresh u u' i k b :
  bundles !! i = Some b -> frame b u u' -> i <> k -> bundle_fresh u k -> bundle_fresh u' k.
Proof.
  intros Hi Hf Hne Hk b' Hb'. pose proof (Hk b' Hb') as Hall. rewrite !Forall_forall in *.
  intros t Ht Htr H0 s. rewrite Hf; [by apply Hall|done|]. by eapply other_bundle.
Qed.

Lemma react_bundle_cost u i j r j' :
  (react u i j r).2 = Some j' -> (bundle_cost i j' < bundle_cost i j)%nat.
Proof.
  unfold react_bundle, bundle_cost. destruct (bundles !! i) as [b|]; [|done].
  assert (Hnext : forall k reason u, (fallback_next b k reason u).2 = Some j' ->
            exists reason', j' = Fallback k reason' /\ (k < length (b_tasks b))%nat).
  { intros k reason u0. rewrite fallback_next_snd. case_decide; [|done]. intros [= <-]. eauto. }
  destruct j as [|k reason].
  - destruct r as [|e]; [done|]. destruct (isBundleUnsupportedError e); [|done].
    unfold fallbackToArtifacts. cbv zeta. intros (? & -> & ?)%Hnext. lia.
  - destruct (b_tasks b !! k) as [t|] eqn:Ht; [|unfold fallback_answer; by rewrite Ht].
    apply lookup_lt_Some in Ht as Hlt.
    destruct (fallback_answer_split u i b k reason r t Ht) as (u1 & _ & _ & _ & _ & Hn).
    destruct Hn as [-> | [-> _]]; [|done]. intros (? & -> & ?)%Hnext. lia.
Qed.

#[export] Instance bundles_laws : PoolLaws firstError start react.
Proof.
  refine {| extends := grows; unit_ok := bundle_ok; job_inv := bundle_job_inv; fresh := bundle_fresh;
            cost := bundle_cost; bound := fun i => bundle_cost i Sending |}.
  - apply grows_truthy.
  - intros u u' i Hg Hok. destruct (bundles !! i) as [b|] eqn:Hb;
      [|left; unfold bundle_ok; congruence].
    destruct (grows_done _ _ u u' (b_tasks b) Hg (or_introl (Hok b Hb))) as [Hd|?]; [|by right].
    left. intros b' Hb'. by assert (b' = b) as -> by congruence.
  - intros u u' i [|k reason] Hg; [done|]. intros Hj b Hb. by eapply grows_done, Hj.
  - intros u i a Hf. split; [by apply start_bundle_law|].
    unfold start_bundle. by destruct (bundles !! i).
  - intros u i a k Hne Hf. destruct (bundles !! i) as [b|] eqn:Hb.
    + by eapply frame_fresh; [|apply start_bundle_frame| |].
    + unfold start_bundle. by rewrite Hb.
  - intros u i a. unfold start_bundle. by destruct (bundles !! i).
  - apply react_bundle_law.
  - intros u i j r k Hne Hf. destruct (bundles !! i) as [b|] eqn:Hb.
    + by eapply frame_fresh; [|apply react_bundle_frame| |].
    + unfold react_bundle. by rewrite Hb.
  - apply react_bundle_cost.
Defined.

End bundles_laws.
