(* ===== verification/HttpTransport.v ===== *)
(** * The HTTP transport of the upload engine

    Models src/polystore-website/src/lib/upload/httpTransport.ts: the URL and the
    headers of an artifact, the body of a bundle, and what the two operations of
    the transport resolve to or reject with.  [fetch] is an argument.  The cache
    of [targetUrls] only saves recomputing them and is not modelled. *)

From S2P Require Import Prelude JsMap JsNumber JsBytes JsString JsText Sparse Pool Engine.
From Stdlib Require Import Ascii.
Local Open Scope Z_scope.

Record TargetUrlSet := {
  u_mdu : string; u_manifest : string; u_shard : option string; u_bundle : option string }.

Definition BUNDLE_V2_CONTENT_TYPE : string := "application/x.polystore-bundle-v2".

Definition normalizeBaseUrl (baseUrl : string) : string :=
  if endsWith_char baseUrl "/"%char then slice_last baseUrl else baseUrl.

Definition targetUrls (target : UploadTarget) : TargetUrlSet :=
  let base := normalizeBaseUrl (baseUrl target) in
  {| u_mdu := base +:+ mduPath target;
     u_manifest := base +:+ manifestPath target;
     u_shard := if truthy (shardPath target)
                then Some (base +:+ default "" (shardPath target)) else None;
     u_bundle := if truthy (bundlePath target)
                 then Some (base +:+ default "" (bundlePath target)) else None |}.

Definition targetUrl (target : UploadTarget) (artifact : SparseArtifactInput) : result string :=
  let urls := targetUrls target in
  match a_kind artifact with
  | Kmdu => Ok (u_mdu urls)
  | Kmanifest => Ok (u_manifest urls)
  | Kshard =>
      throw_if negb (truthy (u_shard urls))
        with "target " +:+ targetLabel target +:+ " does not support shard uploads" else
      Ok (default "" (u_shard urls))
  end.

(** [x >>> 0] *)
Definition uint32 (x : Z) : Z := Z.land x (2 ^ 32 - 1).

Definition buildBundleV2Header (metaJson : string) : bytes :=
  let metaBytes := TextEncoder_encode metaJson in
  let metaLen := uint32 (blen metaBytes) in
  [78; 76; 66; 50;
   Z.land metaLen 255; Z.land (Z.shiftr metaLen 8) 255;
   Z.land (Z.shiftr metaLen 16) 255; Z.land (Z.shiftr metaLen 24) 255] ++ metaBytes.

(** [new Error(message)], and the error the engine falls back on. *)
Definition js_error (m : string) : error := {| name := "Error"; message := m |}.
Definition makeBundleUnsupportedError (m : string) : error :=
  {| name := "BundleUnsupportedUploadError"; message := m |}.

Definition isBundleCompatibilityError (status : Z) (body : string) : bool :=
  if (status =? 404) || (status =? 405) || (status =? 415) || (status =? 501) then true
  else if negb (status =? 400) then false
  else
    let normalized := toLowerCase body in
    if bool_decide (trim normalized = "") then true
    else includes normalized "bundle" || includes normalized "invalid multipart"
         || includes normalized "unsupported media" || includes normalized "invalid artifact".

(** [String(value || '').trim()] *)
Definition normalized (value : option string) : string := trim (default "" value).

(** [String(n)] for the integers an artifact is identified by; [makeSparseArtifact]
    rejects an artifact identified by anything else before a request is made. *)
Definition String_of (n : option number) : string :=
  match n with Some n => pretty (num_int n) | None => "undefined" end.

Definition buildHeaders (dealId manifestRoot : string)
    (previousManifestRoot uploadGeneration : option string) (artifact : SparseArtifactInput)
    : list (string * string) :=
  let normalizedManifestRoot := normalized (Some manifestRoot) in
  let normalizedUploadGeneration := normalized uploadGeneration in
  let normalizedPreviousManifestRoot := normalized previousManifestRoot in
  [("X-PolyStore-Deal-ID", dealId); ("Content-Type", "application/octet-stream")]
  ++ (if bool_decide (normalizedManifestRoot <> "")
      then [("X-PolyStore-Manifest-Root", normalizedManifestRoot)] else [])
  ++ (if bool_decide (normalizedUploadGeneration <> "")
      then [("X-PolyStore-Upload-Generation", normalizedUploadGeneration)] else [])
  ++ (if bool_decide (normalizedPreviousManifestRoot <> "")
      then [("X-PolyStore-Previous-Manifest-Root", normalizedPreviousManifestRoot)] else [])
  ++ (if bool_decide (a_kind artifact = Kmdu) || bool_decide (a_kind artifact = Kshard)
      then [("X-PolyStore-Mdu-Index", String_of (a_index artifact))] else [])
  ++ (if bool_decide (a_kind artifact = Kshard)
      then [("X-PolyStore-Slot", String_of (a_slot artifact))] else []).

(** [response.ok] *)
Definition status_ok (status : Z) : bool := (200 <=? status) && (status <=? 299).

(** [await response.text().catch(() => '')], and [text || message]. *)
Definition text_of (text : option string) : string := default "" text.
Definition text_or (text : string) (message : string) : string :=
  if bool_decide (text = "") then message else text.

(** What the call did: the requests it made, and how its promise settled. *)
Definition sendArtifact (fetch : nat -> Post -> Answer) (request : UploadTransportRequest)
    : list Post * response :=
  match (let! u := targetUrl (r_target request) (r_artifact request) in
         postSparseArtifact fetch
           {| su_url := u;
              su_headers := buildHeaders (r_dealId request) (r_manifestRoot request)
                              (r_previousManifestRoot request) (r_uploadGeneration request)
                              (r_artifact request);
              su_artifact := r_artifact request |}) with
  | Err m => ([], Rejected (js_error m))
  | Ok (posts, Failed n m) => (posts, Rejected {| name := n; message := m |})
  | Ok (posts, Replied status text) =>
      (posts,
       if status_ok status then Resolved
       else Rejected (js_error (text_or (text_of text)
              (kindName (a_kind (r_artifact request)) +:+ " upload failed ("
               +:+ pretty status +:+ ")"))))
  end.

(** ** Bundles *)

(** The description of a bundle, in the order its JSON has it. *)
Record MetaArtifact := {
  part : string; m_kind : string; mdu_index : option Z; slot : option Z;
  full_size : Z; send_size : Z }.
Record BundleMeta := {
  deal_id : option Z; manifest_root : string; previous_manifest_root : string;
  upload_generation : string; m_artifacts : list MetaArtifact }.

Definition artifactJson (a : MetaArtifact) : string :=
  json_object [("part", Some (json_string (part a))); ("kind", Some (json_string (m_kind a)));
               ("mdu_index", pretty <$> mdu_index a); ("slot", pretty <$> slot a);
               ("full_size", Some (pretty (full_size a))); ("send_size", Some (pretty (send_size a)))].
Definition metaJson (m : BundleMeta) : string :=
  json_object [("deal_id", pretty <$> deal_id m);
               ("manifest_root", Some (json_string (manifest_root m)));
               ("previous_manifest_root", Some (json_string (previous_manifest_root m)));
               ("upload_generation", Some (json_string (upload_generation m)));
               ("artifacts", Some (json_array (map artifactJson (m_artifacts m))))].

(** The loop over [requests]. *)
Fixpoint checkRequests (first : UploadTransportRequest) (bundleUrl : option string)
    (requests : list UploadTransportRequest) : result unit :=
  match requests with
  | [] => Ok tt
  | request :: requests =>
      throw_if negb (bool_decide (u_bundle (targetUrls (r_target request)) = bundleUrl))
        with "bundle requests must target a single provider bundle endpoint" else
      throw_if negb (bool_decide (r_dealId request = r_dealId first))
        with "bundle requests must use a single deal_id" else
      throw_if negb (bool_decide (normalized (Some (r_manifestRoot request))
                                  = normalized (Some (r_manifestRoot first))))
        with "bundle requests must use a single manifest_root" else
      throw_if negb (bool_decide (normalized (r_previousManifestRoot request)
                                  = normalized (r_previousManifestRoot first)))
        with "bundle requests must use a single previous_manifest_root" else
      throw_if negb (bool_decide (normalized (r_uploadGeneration request)
                                  = normalized (r_uploadGeneration first)))
        with "bundle requests must use a single upload_generation" else
      checkRequests first bundleUrl requests
  end.

Definition partName (index : nat) : string := "artifact_" +:+ padStart2 (pretty (Z.of_nat index)).

Definition metaArtifact (index : nat) (request : UploadTransportRequest) (a : SparseArtifact)
    : MetaArtifact :=
  let kind := a_kind (r_artifact request) in
  {| part := partName index;
     m_kind := kindName kind;
     mdu_index := if bool_decide (kind = Kmdu) || bool_decide (kind = Kshard)
                  then num_int <$> a_index (r_artifact request) else None;
     slot := if bool_decide (kind = Kshard) then num_int <$> a_slot (r_artifact request) else None;
     full_size := sp_fullSize a;
     send_size := blen (sp_bytes a) |}.

(** From the checks to the body: the description and the payloads. *)
Definition prepareBundle (first : UploadTransportRequest) (bundleUrl : option string)
    (requests : list UploadTransportRequest) : result (BundleMeta * list bytes) :=
  let parsedDealId := NumberOf (r_dealId first) in
  throw_if negb (isInteger parsedDealId) || num_ltz parsedDealId
    with "invalid deal id for bundle upload: " +:+ r_dealId first else
  let! _ := checkRequests first bundleUrl requests in
  let! sparseArtifacts := mapR (fun request => makeSparseArtifact (r_artifact request)) requests in
  Ok ({| deal_id := Some (num_int parsedDealId);
         manifest_root := normalized (Some (r_manifestRoot first));
         previous_manifest_root := normalized (r_previousManifestRoot first);
         upload_generation := normalized (r_uploadGeneration first);
         m_artifacts := imap (fun i ra => metaArtifact i ra.1 ra.2) (zip requests sparseArtifacts) |},
      map sp_bytes sparseArtifacts).

Definition bundleBody (meta : BundleMeta) (payloads : list bytes) : bytes :=
  buildBundleV2Header (metaJson meta) ++ concat payloads.

Record BundlePost := { bp_url : string; bp_contentType : string; bp_body : bytes }.

Definition sendBundle (fetch : BundlePost -> Answer) (requests : list UploadTransportRequest)
    : list BundlePost * response :=
  match requests with
  | [] => ([], Resolved)
  | first :: _ =>
      let bundleUrl := u_bundle (targetUrls (r_target first)) in
      if negb (truthy bundleUrl)
      then ([], Rejected (makeBundleUnsupportedError "bundle upload unsupported")) else
      match prepareBundle first bundleUrl requests with
      | Err m => ([], Rejected (js_error m))
      | Ok (meta, payloads) =>
          let p := {| bp_url := default "" bundleUrl; bp_contentType := BUNDLE_V2_CONTENT_TYPE;
                      bp_body := bundleBody meta payloads |} in
          ([p],
           match fetch p with
           | Failed _ m =>
               Rejected (makeBundleUnsupportedError ("bundle upload unavailable: " +:+ m))
           | Replied status text =>
               if status_ok status then Resolved else
               let m := text_or (text_of text) ("bundle upload failed (" +:+ pretty status +:+ ")") in
               if isBundleCompatibilityError status (text_of text)
               then Rejected (makeBundleUnsupportedError m)
               else Rejected (js_error m)
           end)
      end
  end.

(** ** Lemmas *)

(** Errors with a message. *)
Definition has_message {A} (r : result A) : Prop :=
  match r with Err m => m <> "" | Ok _ => True end.

Lemma has_message_bind {A B} (r : result A) (f : A -> result B) :
  has_message r -> (forall x, has_message (f x)) -> has_message (bind r f).
Proof. destruct r; cbn; auto. Qed.

Lemma has_message_mapR {A B} (f : A -> result B) l :
  (forall x, has_message (f x)) -> has_message (mapR f l).
Proof.
  intros Hf. induction l as [|x l IH]; cbn; [done|].
  apply has_message_bind; [apply Hf | intros y]. by apply has_message_bind.
Qed.

Ltac message := repeat first [ apply has_message_bind; [|intros ?] | case_match | done ].

Lemma makeSparseArtifact_message a : has_message (makeSparseArtifact a).
Proof.
  unfold makeSparseArtifact, validateArtifactIdentity, computeSparsePayloadPlan. message.
Qed.

Lemma checkRequests_message first u l : has_message (checkRequests first u l).
Proof. induction l as [|r l IH]; cbn [checkRequests]; message. Qed.

Lemma prepareBundle_message first u l : has_message (prepareBundle first u l).
Proof.
  unfold prepareBundle. case_match; [done|]. apply has_message_bind; [apply checkRequests_message|].
  intros _. apply has_message_bind; [|done].
  apply has_message_mapR. intros r. apply makeSparseArtifact_message.
Qed.

Lemma targetUrl_message t a : has_message (targetUrl t a).
Proof. unfold targetUrl. message. Qed.

Lemma postSparseArtifact_message fetch r : has_message (postSparseArtifact fetch r).
Proof.
  unfold postSparseArtifact. apply has_message_bind; [apply makeSparseArtifact_message|].
  intros a. by case_match.
Qed.

Lemma postSparseArtifact_answer fetch r posts a :
  postSparseArtifact fetch r = Ok (posts, a) -> exists i p, a = fetch i p.
Proof.
  unfold postSparseArtifact. intros (s & _ & H)%bind_Ok. case_match; injection H as _ <-; eauto.
Qed.

Lemma text_or_message t m : m <> "" -> text_or t m <> "".
Proof. unfold text_or. case_bool_decide; done. Qed.

Definition answer_has_message (a : Answer) : Prop :=
  match a with Failed _ m => m <> "" | Replied _ _ => True end.

Lemma sendArtifact_good fetch request :
  (forall i p, answer_has_message (fetch i p)) -> good (sendArtifact fetch request).2.
Proof.
  intros Hf. unfold sendArtifact.
  destruct (bind _ _) as [[posts a]|m] eqn:He; cbn [snd good].
  - apply bind_Ok in He as (u & _ & Hp). apply postSparseArtifact_answer in Hp as (i & p & ->).
    specialize (Hf i p). destruct (fetch i p) as [n m|status text]; [done|]. cbn [snd].
    destruct (status_ok status); [done|]. cbn [good message js_error]. apply text_or_message.
    by destruct (a_kind _).
  - match type of He with ?r = _ => assert (Hm : has_message r) end.
    { apply has_message_bind; [apply targetUrl_message | intros; apply postSparseArtifact_message]. }
    by rewrite He in Hm.
Qed.

(** C37: Every rejection of the transport carries a message, provided the errors of
    [fetch] do: the hypothesis under which the upload engine's report of success
    can be trusted holds of this transport, for single artifacts and bundles. *)
Theorem transport_rejections_have_messages
    (fetch : nat -> Post -> Answer) (fetchBundle : BundlePost -> Answer) :
  (forall i p, answer_has_message (fetch i p)) ->
  (forall request, good (sendArtifact fetch request).2)
  /\ (forall requests, good (sendBundle fetchBundle requests).2).
Proof.
  intros Hf. split; [intros; by apply sendArtifact_good|]. intros [|first requests]; [done|].
  cbn [sendBundle]. case_match; [done|].
  pose proof (prepareBundle_message first (u_bundle (targetUrls (r_target first))) (first :: requests)) as Hm.
  destruct (prepareBundle _ _ _) as [[meta payloads]|m]; [|done]. cbn [snd].
  destruct (fetchBundle _) as [n m|status text]; [done|]. destruct (status_ok status); [done|].
  destruct (isBundleCompatibilityError _ _); cbn [good message]; by apply text_or_message.
Qed.

Lemma transport_rejections_have_messages_witness :
  (forall request, good (sendArtifact (fun _ _ => Failed "TypeError" "Failed to fetch") request).2)
  /\ (forall requests, good (sendBundle (fun _ => Replied 500 None) requests).2).
Proof. apply (transport_rejections_have_messages _ (fun _ => Replied 500 None)). intros; discriminate. Defined.
