(* ===== verification/Provider.v ===== *)
(** * The provider's upload handlers

    Models the handlers of src/polystore_gateway/main.go to which the website posts single
    artifacts ([SpUploadMdu], [SpUploadShard], [SpUploadManifest]) and the way in which the
    files get into the provider's directories: temporary files that are linked to their
    names and never replace a file (src/polystore_gateway/generation_lifecycle.go), and
    staged generations that are renamed as a whole (src/polystore_gateway/staged_upload.go).

    A handler is a function of the store: it changes the store and goes on or returns a
    reply.  The store has the directories and, by directory and name, the files that are not
    temporary; a temporary file has a fresh name and is the bytes that were written to it.
    Arguments, of type [provider], are what the operating system and the chain do: every
    operation on the file system may fail, other requests may hold a directory.  The values
    of headers are ASCII.  The profile, the log and the CORS headers are left out. *)

From S2P Require Import Prelude JsMap JsNumber JsBytes JsString JsText Sparse Pool Engine HttpTransport.
From Stdlib Require Import Ascii.
From stdpp Require Import gmap strings.
Local Open Scope Z_scope.

(** ** The store *)

(** A regular file, or anything else that has a name. *)
Inductive entry := Regular (content : bytes) | Special.

(** [created]: [uploadRootDirCache]. *)
Record store := { created : gset string; dirs : gset string; files : gmap (string * string) entry }.

Definition set_files (f : gmap (string * string) entry) (st : store) : store :=
  {| created := created st; dirs := dirs st; files := f |}.

(** ** Replies and handlers *)

Record reply := { rp_status : Z; rp_text : string }.

Definition newline : string := String "010"%char "".
(** [http.Error] *)
Definition http_error (status : Z) (text : string) : reply := {| rp_status := status; rp_text := text +:+ newline |}.

(** The code up to some point: it changes the store and has a value, or returns. *)
Definition handler (A : Type) : Type := store -> store * (A + reply).
Definition hret {A} (x : A) : handler A := fun st => (st, inl x).
Definition hreturn {A} (r : reply) : handler A := fun st => (st, inr r).
Definition hbind {A B} (c : handler A) (k : A -> handler B) : handler B := fun st =>
  let (st, r) := c st in
  match r with inl x => k x st | inr r => (st, inr r) end.

Declare Scope handler_scope.
Open Scope handler_scope.
Notation "'run!' x := c 'in' k" := (hbind c (fun x => k))
  (at level 10, x pattern, c at level 100, k at level 200) : handler_scope.
Notation "'return_if' b 'with' s m 'else' k" := (if b then hreturn (http_error s m) else k)
  (at level 10, b at level 100, s at level 9, m at level 100, k at level 200) : handler_scope.

(** A value or an error that ends the request. *)
Definition or_error {A} (r : result A) (s : Z) : handler A :=
  match r with Ok x => hret x | Err m => hreturn (http_error s m) end.
(** The same with a text of its own. *)
Definition or_text {A} (r : result A) (s : Z) (m : string) : handler A :=
  match r with Ok x => hret x | Err _ => hreturn (http_error s m) end.

(** ** What a provider runs on *)

Inductive io :=
| MkdirAll (attempt : nat) | CreateTemp (attempt : nat) | Copy | Truncate | Close
| LstatSource | Link | Compare | RemoveSource
| StatStage | Lock | LstatFinal | Rename | CompareStaged | RemoveAll | ReadTrailing.

Inductive io_error := NotExist (message : string) | Failure (message : string).
Definition io_text (e : io_error) : string := match e with NotExist m | Failure m => m end.

(** The errors of [validatePolyfsUploadPreviousManifestRoot]. *)
Inductive previous_error :=
| InvalidPrevious (message : string) | DealNotFound (message : string)
| StalePrevious (expected : string) | OtherPrevious (message : string).

(** [uploadDir] is a clean path.  [fault directory name operation]: the error that an
    operation on a file gives.  [cached], [fetchDealMetaFresh]: the roots that were found
    to be current lately, and the root that the chain has for a deal.  [lease],
    [staged_in_use]: whether other requests let this one have its directories. *)
Record provider := {
  uploadDir : string; sha256 : bytes -> bytes; test_fault : bool;
  cached : Z -> string -> bool; fetchDealMetaFresh : Z -> string + previous_error;
  lease : list string -> option string; staged_in_use : string -> bool;
  fault : string -> string -> io -> option io_error }.

Record http_request := { rq_method : string; rq_headers : list (string * string); rq_body : bytes }.

(** ** Go's library *)

(** [strings.TrimSpace] *)
Definition TrimSpace (s : string) : string :=
  of_codes (trim_codes (fun c => is_white c || (c =? 133)) (codes s)).

(** [r.Header.Get]: names are compared without case. *)
Fixpoint header_get (headers : list (string * string)) (key : string) : string :=
  match headers with
  | [] => ""
  | (k, v) :: headers => if String.eqb (toLowerCase k) (toLowerCase key) then v else header_get headers key
  end.

(** [strconv.ParseUint(s, 10, 64)] and [strconv.ParseInt(s, 10, 64)] *)
Definition ParseUint (s : string) : option Z :=
  if negb (bool_decide (s = "")) && all_digits s && (parse_decimal s <? 2 ^ 64) then Some (parse_decimal s) else None.
Definition ParseInt (s : string) : option Z :=
  let '(negative, digits) :=
    match s with
    | String "-" d => (true, d)
    | String "+" d => (false, d)
    | _ => (false, s)
    end in
  if negb (bool_decide (digits = "")) && all_digits digits then
    let n := if negative : bool then - parse_decimal digits else parse_decimal digits in
    if (- 2 ^ 63 <=? n) && (n <? 2 ^ 63) then Some n else None
  else None.

(** [hex.DecodeString] *)
Definition hex_digit (c : Z) : option Z :=
  if (48 <=? c) && (c <=? 57) then Some (c - 48)
  else if (97 <=? c) && (c <=? 102) then Some (c - 87)
  else if (65 <=? c) && (c <=? 70) then Some (c - 55)
  else None.
Fixpoint hex_decode (l : list Z) : option bytes :=
  match l with
  | [] => Some []
  | a :: b :: l =>
      match hex_digit a, hex_digit b, hex_decode l with
      | Some a, Some b, Some l => Some (16 * a + b :: l)
      | _, _, _ => None
      end
  | [_] => None
  end.

(** [%q] of an ASCII character, and of a string. *)
Definition hex_lower (n : Z) : Z := if n <? 10 then 48 + n else 87 + n.
Definition escaped (quote c : Z) : list Z :=
  if (c =? quote) || (c =? 92) then [92; c]
  else if (32 <=? c) && (c <? 127) || (161 <=? c) && negb (c =? 173) then [c]
  else if c =? 7 then [92; 97] else if c =? 8 then [92; 98] else if c =? 12 then [92; 102]
  else if c =? 10 then [92; 110] else if c =? 13 then [92; 114] else if c =? 9 then [92; 116]
  else if c =? 11 then [92; 118]
  else if c <? 128 then [92; 120; hex_lower (c / 16); hex_lower (c mod 16)]
  else [92; 117; 48; 48; hex_lower (c / 16); hex_lower (c mod 16)].
Definition quoted (c : Z) : string := of_codes (39 :: escaped 39 c ++ [39]).
Definition quoted_string (s : string) : string := of_codes (34 :: concat (map (escaped 34) (codes s)) ++ [34]).

(** [hex.InvalidByteError]: the first character that is no digit. *)
Definition hex_upper (n : Z) : Z := if n <? 10 then 48 + n else 55 + n.
Definition invalid_byte (l : list Z) : string :=
  match List.find (fun c => bool_decide (hex_digit c = None)) l with
  | Some c =>
      "encoding/hex: invalid byte: U+00" +:+ of_codes ([hex_upper (c / 16); hex_upper (c mod 16)]
        ++ if (32 <=? c) && (c <? 127) then [32; 39; c; 39] else [])
  | None => "encoding/hex: odd length hex string"
  end.

(** ** Names and directories *)

Definition MDU_BYTES : Z := 8 * 1024 * 1024.
Definition BLOB_BYTES : Z := 128 * 1024.
Definition POLYFS_ROOT_SIZE : Z := 32.

Definition word_char (c : Z) : bool :=
  ((65 <=? c) && (c <=? 90)) || ((97 <=? c) && (c <=? 122)) || ((48 <=? c) && (c <=? 57))
  || (c =? 45) || (c =? 95) || (c =? 46).

Definition normalizeUploadGenerationID (raw : string) : result string :=
  let generation := TrimSpace raw in
  if bool_decide (generation = "") then Ok "" else
  throw_if 96 <? slen generation with "upload generation id is too long" else
  match List.find (fun r => negb (word_char r)) (codes generation) with
  | Some r => Err ("upload generation id contains invalid character " +:+ quoted r)
  | None =>
      throw_if bool_decide (generation = ".") || bool_decide (generation = "..") || includes generation ".."
        with "upload generation id must not contain path traversal" else
      Ok generation
  end.

Record ManifestRoot := { Bytes : bytes; Canonical : string; Key : string }.

Definition invalidRoot : string := "invalid manifest_root: ".

Definition TrimPrefix0x (s : string) : string :=
  match s with String "0" (String "x" s') => s' | _ => s end.

Definition parseManifestRoot (raw : string) : result ManifestRoot :=
  let trimmed := TrimSpace raw in
  throw_if bool_decide (trimmed = "") with invalidRoot +:+ "empty" else
  let trimmed := TrimPrefix0x trimmed in
  throw_if negb (slen trimmed =? 2 * POLYFS_ROOT_SIZE)
    with invalidRoot +:+ "expected 64 hex chars (32 bytes), got " +:+ pretty (slen trimmed) else
  match hex_decode (codes trimmed) with
  | None => Err (invalidRoot +:+ "invalid hex: " +:+ invalid_byte (codes trimmed))
  | Some decoded =>
      throw_if negb (blen decoded =? POLYFS_ROOT_SIZE) 
        with invalidRoot +:+ "decoded length " +:+ pretty (blen decoded) +:+ " (expected 32)" else
      let key := of_codes (concat (map (fun b => [hex_lower (b / 16); hex_lower (b mod 16)]) decoded)) in
      Ok {| Bytes := decoded; Canonical := "0x" +:+ key; Key := key |}
  end.

Definition parseManifestRootOrEmpty (raw : string) : result string :=
  let trimmed := TrimSpace raw in
  if bool_decide (trimmed = "") then Ok "" else
  let! parsed := parseManifestRoot trimmed in
  Ok (Canonical parsed).

Definition normalizeManifestRootOrEmpty (raw : string) : string :=
  match parseManifestRootOrEmpty raw with Ok parsed => parsed | Err _ => TrimSpace raw end.

Section provider.
Context (P : provider).

Definition dealScopedDir (dealID : Z) (root : ManifestRoot) : string :=
  uploadDir P +:+ "/deals/" +:+ pretty dealID +:+ "/" +:+ Key root.
Definition stagedUploadDir (dealID : Z) (generationID : string) : string :=
  uploadDir P +:+ "/deals/" +:+ pretty dealID +:+ "/staging/" +:+ generationID.

(** ** The root that an upload builds on *)

Definition validatePolyfsUploadPreviousManifestRoot (dealID : Z) (rawPreviousManifestRoot : string) : option previous_error :=
  match parseManifestRootOrEmpty rawPreviousManifestRoot with
  | Err e => Some (InvalidPrevious ("invalid upload previous manifest root: X-PolyStore-Previous-Manifest-Root: " +:+ e))
  | Ok previousManifestRoot =>
      if cached P dealID previousManifestRoot then None else
      match fetchDealMetaFresh P dealID with
      | inr e => Some e
      | inl root =>
          let expectedPrevious := normalizeManifestRootOrEmpty root in
          if negb (bool_decide (expectedPrevious = previousManifestRoot)) then Some (StalePrevious expectedPrevious) else None
      end
  end.

Definition classifyPolyfsUploadPreviousManifestRootError (err : previous_error) : Z :=
  match err with InvalidPrevious _ => 400 | DealNotFound _ => 404 | StalePrevious _ => 409 | OtherPrevious _ => 500 end.

(** How every handler answers such an error. *)
Definition validatePrevious (dealID : Z) (raw : string) : handler unit :=
  match validatePolyfsUploadPreviousManifestRoot dealID raw with
  | None => hret tt
  | Some err =>
      hreturn (http_error (classifyPolyfsUploadPreviousManifestRootError err)
        match err with
        | InvalidPrevious m => m
        | DealNotFound _ => "deal not found"
        | StalePrevious expected => "stale previous_manifest_root: expected " +:+ expected
        | OtherPrevious _ => "failed to validate deal"
        end)
  end.

(** ** Temporary files *)

Definition ensureUploadRootDir (attempt : nat) (rootDir : string) (st : store) : store * option io_error :=
  if bool_decide (rootDir = "") then (st, Some (Failure "empty upload root dir")) else
  if bool_decide (rootDir ∈ created st) then (st, None) else
  match fault P rootDir "" (MkdirAll attempt) with
  | Some e => (st, Some e)
  | None => ({| created := {[rootDir]} ∪ created st; dirs := {[rootDir]} ∪ dirs st; files := files st |}, None)
  end.

(** [os.CreateTemp], in a directory that may have gone. *)
Definition CreateTempIn (attempt : nat) (rootDir name : string) (st : store) : option io_error :=
  match fault P rootDir name (CreateTemp attempt) with
  | Some e => Some e
  | None => if bool_decide (rootDir ∈ dirs st) then None else Some (NotExist "no such file or directory")
  end.

Definition createTempInUploadRoot (rootDir name : string) (st : store) : store * option io_error :=
  match CreateTempIn 0 rootDir name st with
  | None => (st, None)
  | Some (NotExist _) =>
      let st := {| created := created st ∖ {[rootDir]}; dirs := dirs st; files := files st |} in
      let (st, retryErr) := ensureUploadRootDir 1 rootDir st in
      match retryErr with
      | Some e => (st, Some e)
      | None => (st, CreateTempIn 1 rootDir name st)
      end
  | Some e => (st, Some e)
  end.

(** [copyUploadBody] from a body of which at most [limit] bytes are read. *)
Definition copyUploadBody (rootDir name : string) (limit : option Z) (body : bytes) : option io_error :=
  match fault P rootDir name Copy, limit with
  | Some e, _ => Some e
  | None, Some limit => if limit <? blen body then Some (Failure "http: request body too large") else None
  | None, None => None
  end.

(** ** Publication *)

(** The files at a temporary name with [content] and at an existing name. *)
Definition sameArtifactFiles (content : bytes) (e : entry) : bool :=
  match e with
  | Regular c => (blen c =? blen content) && bool_decide (sha256 P content = sha256 P c)
  | Special => false
  end.

Inductive publish_error := GenerationConflict (message : string) | PublishFailed (message : string).

Definition errGenerationConflict : string := "generation artifact conflicts with stored bytes".

(** The temporary file with [content] becomes [rootDir/name]; its name is another one. *)
Definition publishImmutableArtifact (rootDir name : string) (content : bytes) (st : store) : store * option publish_error :=
  let removed st :=
    (st, match fault P rootDir name RemoveSource with Some e => Some (PublishFailed (io_text e)) | None => None end) in
  match fault P rootDir name LstatSource with
  | Some _ => (st, Some (PublishFailed "publication source is not a regular file"))
  | None =>
      match fault P rootDir name Link, files st !! (rootDir, name) with
      | Some e, _ => (st, Some (PublishFailed (io_text e)))
      | None, None => removed (set_files (<[(rootDir, name) := Regular content]> (files st)) st)
      | None, Some existing =>
          match fault P rootDir name Compare with
          | Some e => (st, Some (PublishFailed (io_text e)))
          | None =>
              if negb (sameArtifactFiles content existing)
              then (st, Some (GenerationConflict (errGenerationConflict +:+ ": " +:+ name)))
              else removed st
          end
      end
  end.

(** ** Staged generations *)

Definition ignored (name : string) : bool := bool_decide (name = "slab_meta.json") || bool_decide (name = ".slab_complete").

(** [strings.HasSuffix(name, ".bin")] *)
Definition binary (name : string) : bool := bool_decide (take 4 (rev (codes name)) = rev (codes ".bin")).

Definition same_stored (a b : option entry) : bool :=
  match a, b with Some (Regular content), Some e => sameArtifactFiles content e | _, _ => false end.

(** The two loops over the entries of the directories. *)
Definition sameGenerations (stage final : string) (st : store) : bool :=
  bool_decide (map_Forall (fun key (_ : entry) =>
    (key.1 = stage \/ key.1 = final) -> ignored key.2 = false ->
    binary key.2 = true /\ same_stored (files st !! (stage, key.2)) (files st !! (final, key.2)) = true) (files st)).

(** [os.Rename(stage, final)] and [os.RemoveAll(stage)] *)
Definition rename_dir (stage final : string) (st : store) : store :=
  {| created := created st; dirs := {[final]} ∪ (dirs st ∖ {[stage]});
     files := kmap (fun key => (final, key.2)) (filter (fun kv => kv.1.1 = stage) (files st))
              ∪ filter (fun kv => kv.1.1 <> stage) (files st) |}.
Definition remove_dir (stage : string) (st : store) : store :=
  {| created := created st; dirs := dirs st ∖ {[stage]}; files := filter (fun kv => kv.1.1 <> stage) (files st) |}.

(** Anything but a directory in the place of [final] is one of the faults [LstatFinal]. *)
Definition publishImmutableGeneration (stage final : string) (st : store) : store * option string :=
  match lease P [stage; final] with
  | Some e => (st, Some e)
  | None =>
  if staged_in_use P stage then (st, Some "generation publication conflicts with an active staged upload") else
  match fault P final "" Lock with
  | Some e => (st, Some ("generation publication lock: " +:+ io_text e))
  | None =>
  match fault P final "" LstatFinal with
  | Some e => (st, Some (io_text e))
  | None =>
  if negb (bool_decide (final ∈ dirs st)) then
    match fault P stage "" Rename with
    | Some e => (st, Some (io_text e))
    | None => (rename_dir stage final st, None)
    end
  else
    match fault P stage "" CompareStaged with
    | Some _ => (st, Some errGenerationConflict)
    | None =>
        if negb (sameGenerations stage final st) then (st, Some errGenerationConflict) else
        match fault P stage "" RemoveAll with
        | Some e => (st, Some (io_text e))
        | None => (remove_dir stage st, None)
        end
    end
  end end end.

Definition promoteStagedUploadGeneration (dealID : Z) (generationID finalDir : string) : store -> store * option string :=
  publishImmutableGeneration (stagedUploadDir dealID generationID) finalDir.

(** ** Steps that the handlers share *)

(** An operation whose failure ends the request. *)
Definition attempt {E} (f : store -> store * option E) (s : Z) (m : string) : handler unit := fun st =>
  let (st, e) := f st in (st, match e with Some _ => inr (http_error s m) | None => inl tt end).
Definition checked (e : option io_error) (s : Z) (m : string) : handler unit := attempt (fun st => (st, e)) s m.

Definition leased (paths : list string) : handler unit :=
  match lease P paths with Some e => hreturn (http_error 503 e) | None => hret tt end.

(** From the temporary file to the bytes received. *)
Definition receive (rootDir name : string) (limit : Z) (body : bytes) : handler unit :=
  run! _ := attempt (createTempInUploadRoot rootDir name) 500 "failed to create temp file" in
  checked (copyUploadBody rootDir name (Some limit) body) 500 "failed to write file".

(** [tmp.Truncate(declaredFullSize)] of a file that is shorter. *)
Definition truncated (rootDir name : string) (declaredFullSize : Z) (body : bytes) : handler bytes :=
  if blen body <? declaredFullSize then
    run! _ := checked (fault P rootDir name Truncate) 500 "failed to finalize sparse upload" in
    hret (padded body declaredFullSize)
  else hret body.

Definition closed (rootDir name : string) : handler unit :=
  checked (fault P rootDir name Close) 500 "failed to finalize file".

Definition published (rootDir name : string) (content : bytes) : handler unit := fun st =>
  let (st, e) := publishImmutableArtifact rootDir name content st in
  (st, match e with
       | Some (GenerationConflict m) => inr (http_error 409 m)
       | Some (PublishFailed m) => inr (http_error 500 m)
       | None => inl tt
       end).

(** The full-size header, when there is one. *)
Definition declaredSize (r : http_request) : handler (option Z) :=
  let fullSizeHeader := TrimSpace (header_get (rq_headers r) "X-PolyStore-Full-Size") in
  if bool_decide (fullSizeHeader = "") then hret None else
  match ParseInt fullSizeHeader with
  | Some n => return_if n <=? 0 with 400 "invalid X-PolyStore-Full-Size header" else hret (Some n)
  | None => hreturn (http_error 400 "invalid X-PolyStore-Full-Size header")
  end.

Definition header (r : http_request) (key : string) : string := TrimSpace (header_get (rq_headers r) key).
Definition uploadPreviousManifestRootHeader (r : http_request) : string := header r "X-PolyStore-Previous-Manifest-Root".

Definition preflight (r : http_request) : handler unit :=
  if bool_decide (rq_method r = "OPTIONS") then hreturn {| rp_status := 204; rp_text := "" |} else
  if test_fault P then 
    hreturn {| rp_status := 503;
               rp_text := json_object [("error", Some (json_string "test fault injected"));
                                       ("hint", Some (json_string "sp_upload_fail"))] +:+ newline |} else
  hret tt.

Definition parse_uint (s m : string) : handler Z :=
  match ParseUint s with Some n => hret n | None => hreturn (http_error 400 m) end.
Definition parse_index (s : string) : handler Z :=
  run! n := parse_uint s "invalid mdu index" in
  return_if (65536 <? n) || negb (bool_decide (pretty n = s)) with 400 "invalid mdu index" else
  hret n.

(** The directory for the artifacts of a generation, staged or not. *)
Definition artifactDir (dealID : Z) (clientManifestRoot uploadGenerationID : string) : handler string :=
  if negb (bool_decide (clientManifestRoot = "")) then
    run! parsed := or_text (parseManifestRoot clientManifestRoot) 400 "invalid manifest root" in
    hret (dealScopedDir dealID parsed)
  else hret (stagedUploadDir dealID uploadGenerationID).

(** [w.WriteHeader(http.StatusOK)], or the reply of an early return. *)
Definition served (h : handler unit) (st : store) : store * reply :=
  let (st, r) := h st in (st, match r with inl _ => {| rp_status := 200; rp_text := "" |} | inr reply => reply end).

(** ** The handlers *)

Definition SpUploadMdu (r : http_request) : store -> store * reply := served (
  run! _ := preflight r in
  let dealIDStr := header r "X-PolyStore-Deal-ID" in
  let mduIndexStr := header r "X-PolyStore-Mdu-Index" in
  let clientManifestRoot := header r "X-PolyStore-Manifest-Root" in
  let uploadGenerationRaw := header r "X-PolyStore-Upload-Generation" in
  return_if bool_decide (dealIDStr = "") || bool_decide (mduIndexStr = "")
    with 400 "X-PolyStore-Deal-ID and X-PolyStore-Mdu-Index headers are required" else
  run! dealID := parse_uint dealIDStr "invalid deal_id" in
  run! mduIndex := parse_index mduIndexStr in
  run! uploadGenerationID := or_error (normalizeUploadGenerationID uploadGenerationRaw) 400 in
  return_if bool_decide (clientManifestRoot = "") && bool_decide (uploadGenerationID = "")
    with 400 "X-PolyStore-Manifest-Root or X-PolyStore-Upload-Generation header is required" else
  run! _ := (if negb (bool_decide (clientManifestRoot = ""))
             then validatePrevious dealID (uploadPreviousManifestRootHeader r) else hret tt) in
  run! declared := declaredSize r in
  run! rootDir := artifactDir dealID clientManifestRoot uploadGenerationID in
  run! _ := leased [rootDir] in
  let filename := "mdu_" +:+ mduIndexStr +:+ ".bin" in
  run! _ := attempt (ensureUploadRootDir 0 rootDir) 500 "failed to create slab directory" in
  let body := rq_body r in
  let n := blen body in
  run! _ := receive rootDir filename (10 * 2 ^ 20) body in
  run! stored :=
    match declared with
    | None => hret body
    | Some size =>
        return_if negb (size =? MDU_BYTES)
          with 400 ("invalid X-PolyStore-Full-Size: got " +:+ pretty size +:+ " (want " +:+ pretty MDU_BYTES +:+ ")") else
        return_if size <? n with 400 "X-PolyStore-Full-Size smaller than received body" else
        return_if 10 * 2 ^ 20 <? size with 400 "X-PolyStore-Full-Size exceeds max allowed size" else
        truncated rootDir filename size body
    end in
  run! _ := closed rootDir filename in
  return_if negb (blen stored =? MDU_BYTES)
    with 400 ("invalid mdu size: got " +:+ pretty (blen stored) +:+ " bytes (want " +:+ pretty MDU_BYTES +:+ ")") else
  published rootDir filename stored).

Definition SpUploadShard (r : http_request) : store -> store * reply := served (
  run! _ := preflight r in
  let dealIDStr := header r "X-PolyStore-Deal-ID" in
  let mduIndexStr := header r "X-PolyStore-Mdu-Index" in
  let slotStr := header r "X-PolyStore-Slot" in
  let clientManifestRoot := header r "X-PolyStore-Manifest-Root" in
  let uploadGenerationRaw := header r "X-PolyStore-Upload-Generation" in
  return_if bool_decide (dealIDStr = "") || bool_decide (mduIndexStr = "") || bool_decide (slotStr = "")
    with 400 "X-PolyStore-Deal-ID, X-PolyStore-Mdu-Index, and X-PolyStore-Slot headers are required" else
  run! dealID := parse_uint dealIDStr "invalid deal_id" in
  run! slot := parse_uint slotStr "invalid slot" in
  return_if 255 <? slot with 400 "invalid slot" else
  run! mduIndex := parse_index mduIndexStr in
  run! uploadGenerationID := or_error (normalizeUploadGenerationID uploadGenerationRaw) 400 in
  return_if bool_decide (clientManifestRoot = "") && bool_decide (uploadGenerationID = "")
    with 400 "X-PolyStore-Manifest-Root or X-PolyStore-Upload-Generation header is required" else
  run! _ := (if negb (bool_decide (clientManifestRoot = ""))
             then validatePrevious dealID (uploadPreviousManifestRootHeader r) else hret tt) in
  run! declared := declaredSize r in
  return_if match declared with Some size => MDU_BYTES <? size | None => false end
    with 400 ("invalid X-PolyStore-Full-Size: got " +:+ pretty (default 0 declared) +:+ " (max " +:+ pretty MDU_BYTES +:+ ")") else
  run! rootDir := artifactDir dealID clientManifestRoot uploadGenerationID in
  run! _ := leased [rootDir] in
  let filename := "mdu_" +:+ mduIndexStr +:+ "_slot_" +:+ pretty slot +:+ ".bin" in
  run! _ := attempt (ensureUploadRootDir 0 rootDir) 500 "failed to create slab directory" in
  let body := rq_body r in
  let n := blen body in
  run! _ := receive rootDir filename (10 * 2 ^ 20) body in
  run! stored :=
    match declared with
    | None => hret body
    | Some size =>
        return_if size <? n with 400 "X-PolyStore-Full-Size smaller than received body" else
        truncated rootDir filename size body
    end in
  run! _ := closed rootDir filename in
  return_if (blen stored <=? 0) || (MDU_BYTES <? blen stored)
    with 400 ("invalid shard size: got " +:+ pretty (blen stored) +:+ " bytes (max " +:+ pretty MDU_BYTES +:+ ")") else
  published rootDir filename stored).

Definition SpUploadManifest (r : http_request) : store -> store * reply := served (
  run! _ := preflight r in
  let dealIDStr := header r "X-PolyStore-Deal-ID" in
  let clientManifestRoot := header r "X-PolyStore-Manifest-Root" in
  let uploadGenerationRaw := header r "X-PolyStore-Upload-Generation" in
  return_if bool_decide (dealIDStr = "") || bool_decide (clientManifestRoot = "")
    with 400 "X-PolyStore-Deal-ID and X-PolyStore-Manifest-Root headers are required" else
  run! declared := declaredSize r in
  run! dealID := parse_uint dealIDStr "invalid deal_id" in
  run! uploadGenerationID := or_error (normalizeUploadGenerationID uploadGenerationRaw) 400 in
  run! parsed := or_text (parseManifestRoot clientManifestRoot) 400 "invalid manifest root" in
  run! _ := validatePrevious dealID (uploadPreviousManifestRootHeader r) in
  let rootDir := dealScopedDir dealID parsed in
  let staged := negb (bool_decide (uploadGenerationID = "")) in
  let writeDir := if staged then stagedUploadDir dealID uploadGenerationID else rootDir in
  run! _ := leased [rootDir; writeDir] in
  run! _ := (if staged then
               attempt (fun st => (st, match fault P writeDir "" StatStage with
                                       | Some e => Some e
                                       | None => if bool_decide (writeDir ∈ dirs st) then None else Some (NotExist "")
                                       end)) 404 "staged upload generation not found"
             else hret tt) in
  run! _ := attempt (ensureUploadRootDir 0 writeDir) 500 "failed to create slab directory" in
  let body := rq_body r in
  let n := blen body in
  run! _ := receive writeDir "manifest.bin" (512 * 2 ^ 10) body in
  run! stored :=
    match declared with
    | None => hret body
    | Some size =>
        return_if negb (size =? BLOB_BYTES)
          with 400 ("invalid X-PolyStore-Full-Size: got " +:+ pretty size +:+ " (want " +:+ pretty BLOB_BYTES +:+ ")") else
        return_if size <? n with 400 "X-PolyStore-Full-Size smaller than received body" else
        truncated writeDir "manifest.bin" size body
    end in
  run! _ := closed writeDir "manifest.bin" in
  return_if negb (blen stored =? BLOB_BYTES)
    with 400 ("invalid manifest size: got " +:+ pretty (blen stored) +:+ " bytes (want " +:+ pretty BLOB_BYTES +:+ ")") else
  run! _ := published writeDir "manifest.bin" stored in
  if staged then
    attempt (promoteStagedUploadGeneration dealID uploadGenerationID rootDir) 500 "failed to finalize staged upload generation"
  else hret tt).

(** ** What becomes of the files *)

(** No file is replaced. *)
Definition keeps (st st' : store) : Prop := forall key e, files st !! key = Some e -> files st' !! key = Some e.

(** A file with [content] is at [key]: it was put there, or one of the same length and
    digest was there already and stays. *)
Definition landed (st st' : store) (key : string * string) (content : bytes) : Prop :=
  match files st !! key with
  | None => files st' !! key = Some (Regular content)
  | Some e => files st' !! key = Some e
      /\ exists c, e = Regular c /\ blen c = blen content /\ sha256 P c = sha256 P content
  end.

(** A file that is in the way of [content]. *)
Definition in_the_way (st : store) (key : string * string) (content : bytes) : Prop :=
  exists e, files st !! key = Some e /\ sameArtifactFiles content e = false.

Lemma keeps_refl st : keeps st st.
Proof. by intros key e H. Qed.
Lemma keeps_trans st1 st2 st3 : keeps st1 st2 -> keeps st2 st3 -> keeps st1 st3.
Proof. intros H1 H2 key e H. by apply H2, H1. Qed.
Lemma keeps_same st st' : files st' = files st -> keeps st st'.
Proof. by intros He key e; rewrite He. Qed.

Lemma same_files content e : sameArtifactFiles content e = true ->
  exists c, e = Regular c /\ blen c = blen content /\ sha256 P c = sha256 P content.
Proof.
  destruct e as [c|]; [|done]. cbn. intros [H1%Z.eqb_eq H2%bool_decide_eq_true]%andb_true_iff. by exists c.
Qed.

Lemma publish_spec rootDir name content st st' r : publishImmutableArtifact rootDir name content st = (st', r) ->
  keeps st st' /\ (forall key, key <> (rootDir, name) -> files st' !! key = files st !! key)
  /\ (r = None -> landed st st' (rootDir, name) content /\ ~ in_the_way st (rootDir, name) content).
Proof.
  unfold publishImmutableArtifact. cbv zeta. intros H.
  assert (Hsame : (st', r) = (st, r) -> r <> None -> keeps st st'
    /\ (forall key, key <> (rootDir, name) -> files st' !! key = files st !! key)
    /\ (r = None -> landed st st' (rootDir, name) content /\ ~ in_the_way st (rootDir, name) content)).
  { intros [= ->] Hr. split; [apply keeps_refl|]. by split. }
  destruct (fault P rootDir name LstatSource); [injection H as <- <-; by apply Hsame|].
  destruct (fault P rootDir name Link); [injection H as <- <-; by apply Hsame|].
  destruct (files st !! (rootDir, name)) as [e|] eqn:He.
  - destruct (fault P rootDir name Compare); [injection H as <- <-; by apply Hsame|].
    destruct (sameArtifactFiles content e) eqn:Hs; [|injection H as <- <-; by apply Hsame]. cbn [negb] in H. injection H as <- <-.
    split; [apply keeps_refl|]. split; [done|]. intros _. unfold landed. rewrite He. split; [split; [done|by apply same_files]|].
    intros (e' & He' & Hs'). congruence.
  - injection H as <- <-. split; [|split].
    + intros key e Hk. cbn [files set_files]. rewrite lookup_insert_ne; [done|]. intros <-. congruence.
    + intros key Hk. cbn [files set_files]. by rewrite lookup_insert_ne.
    + intros _. unfold landed. rewrite He. cbn [files set_files]. split; [by rewrite lookup_insert_eq|].
      intros (e' & He' & _). congruence.
Qed.

(** Without faults only a file in the way stops a publication. *)
Lemma publish_succeeds rootDir name content st : (forall op, fault P rootDir name op = None) ->
  ~ in_the_way st (rootDir, name) content -> (publishImmutableArtifact rootDir name content st).2 = None.
Proof.
  intros Hf Hn. unfold publishImmutableArtifact. cbv zeta. rewrite !Hf.
  destruct (files st !! (rootDir, name)) as [e|] eqn:He; [|done].
  destruct (sameArtifactFiles content e) eqn:Hs; [done|]. exfalso. apply Hn. by exists e.
Qed.

Lemma ensure_files attempt rootDir st : files (ensureUploadRootDir attempt rootDir st).1 = files st.
Proof. unfold ensureUploadRootDir. by repeat case_match. Qed.
Lemma createTemp_files rootDir name st : files (createTempInUploadRoot rootDir name st).1 = files st.
Proof.
  unfold createTempInUploadRoot. destruct (CreateTempIn 0 rootDir name st) as [[m|m]|]; [|done|done].
  match goal with |- context [ensureUploadRootDir 1 rootDir ?s] => pose proof (ensure_files 1 rootDir s) as H;
    destruct (ensureUploadRootDir 1 rootDir s) as [st' e] end.
  by destruct e.
Qed.

Lemma ensure_succeeds attempt rootDir st : rootDir <> "" -> (forall name op, fault P rootDir name op = None) ->
  (ensureUploadRootDir attempt rootDir st).2 = None.
Proof. intros Hd Hf. unfold ensureUploadRootDir. rewrite Hf, (bool_decide_eq_false_2 _ Hd). by case_match. Qed.

Lemma createTemp_succeeds rootDir name st : rootDir <> "" -> (forall name op, fault P rootDir name op = None) ->
  (createTempInUploadRoot rootDir name st).2 = None.
Proof.
  intros Hd Hf. unfold createTempInUploadRoot, CreateTempIn, ensureUploadRootDir. rewrite !Hf, (bool_decide_eq_false_2 _ Hd).
  destruct (bool_decide (rootDir ∈ dirs st)); [done|].
  rewrite bool_decide_eq_false_2 by (cbn [created]; set_solver). cbn [dirs created snd].
  by rewrite bool_decide_eq_true_2 by set_solver.
Qed.

Lemma landed_pre st st1 st' key c : files st1 !! key = files st !! key -> landed st1 st' key c -> landed st st' key c.
Proof. unfold landed. by intros ->. Qed.
Lemma landed_post st st1 st' key c : files st' !! key = files st1 !! key -> landed st st1 key c -> landed st st' key c.
Proof. unfold landed. by intros ->. Qed.

(** ** Handlers *)

(** A handler that replaces no file; one whose early returns are no success. *)
Definition preserves {A} (h : handler A) : Prop := forall st, keeps st (h st).1.
Definition refuses {A} (h : handler A) : Prop := forall st r, (h st).2 = inr r -> status_ok (rp_status r) = false.

Lemma preserves_bind {A B} (c : handler A) (k : A -> handler B) : preserves c -> (forall x, preserves (k x)) -> preserves (hbind c k).
Proof.
  intros Hc Hk st. unfold hbind. specialize (Hc st). destruct (c st) as [st1 [x|r]]; [|exact Hc].
  by eapply keeps_trans; [|apply Hk].
Qed.
Lemma refuses_bind {A B} (c : handler A) (k : A -> handler B) : refuses c -> (forall x, refuses (k x)) -> refuses (hbind c k).
Proof.
  intros Hc Hk st r. unfold hbind. specialize (Hc st). destruct (c st) as [st1 [x|r']]; cbn [snd] in *; [apply Hk|].
  intros [= <-]. by apply Hc.
Qed.
Lemma preserves_ret {A} (x : A) : preserves (hret x).
Proof. intros st. apply keeps_refl. Qed.
Lemma preserves_return {A} r : preserves (hreturn (A:=A) r).
Proof. intros st. apply keeps_refl. Qed.
Lemma refuses_ret {A} (x : A) : refuses (hret x).
Proof. by intros st r. Qed.
Lemma refuses_return {A} r : status_ok (rp_status r) = false -> refuses (hreturn (A:=A) r).
Proof. by intros Hr st r' [= <-]. Qed.
Lemma refuses_attempt {E} (f : store -> store * option E) s m : status_ok s = false -> refuses (attempt f s m).
Proof. intros Hs st r. unfold attempt. destruct (f st) as [st' [e|]]; cbn [snd]; [|done]. by intros [= <-]. Qed.
Lemma preserves_attempt {E} (f : store -> store * option E) s m : (forall st, files (f st).1 = files st) -> preserves (attempt f s m).
Proof. intros Hf st. unfold attempt. specialize (Hf st). destruct (f st). by apply keeps_same. Qed.

Lemma served_ok h st st' r : refuses h -> served h st = (st', r) -> status_ok (rp_status r) = true -> h st = (st', inl tt).
Proof.
  intros Hh H Hr. unfold served in H. specialize (Hh st). destruct (h st) as [st1 [[]|r']]; injection H as <- <-; [done|].
  rewrite (Hh r' eq_refl) in Hr. done.
Qed.

Lemma served_keeps h st : preserves h -> keeps st (served h st).1.
Proof. intros Hh. specialize (Hh st). unfold served. by destruct (h st). Qed.

Lemma refuses_validate dealID raw : refuses (validatePrevious dealID raw).
Proof.
  unfold validatePrevious. case_match; [|apply refuses_ret]. apply refuses_return. by destruct p.
Qed.
Lemma preserves_validate dealID raw : preserves (validatePrevious dealID raw).
Proof. unfold validatePrevious. case_match; [apply preserves_return | apply preserves_ret]. Qed.
End provider.

Lemma refuses_published P rootDir name content : refuses (published P rootDir name content).
Proof.
  intros st r. unfold published. destruct (publishImmutableArtifact _ _ _ _ _) as [st' [[m|m]|]]; cbn [snd]; [by intros [= <-] ..|done].
Qed.
Lemma preserves_published P rootDir name content : preserves (published P rootDir name content).
Proof.
  intros st. unfold published. destruct (publishImmutableArtifact P rootDir name content st) as [st' e] eqn:H. by apply publish_spec in H as (Hk & _).
Qed.

Create HintDb handlers.
#[export] Hint Resolve preserves_bind preserves_ret preserves_return preserves_attempt preserves_validate preserves_published ensure_files
  createTemp_files : handlers.
#[export] Hint Resolve refuses_bind refuses_ret refuses_return refuses_attempt refuses_validate refuses_published : handlers.

(** Goes through a handler for [preserves] or [refuses]. *)
Ltac handler_steps :=
  repeat first
    [ apply preserves_bind; [|intros ?] | apply refuses_bind; [|intros ?]
    | progress unfold or_error, or_text, leased, preflight, checked, parse_uint, declaredSize, artifactDir, truncated
    | case_match
    | solve [auto with handlers]
    | apply refuses_return; done | apply refuses_attempt; done | apply preserves_attempt; done ].

(** ** What is meant to be stored *)

Definition stored_name (a : SparseArtifactInput) : string :=
  match a_kind a with
  | Kmdu => "mdu_" +:+ String_of (a_index a) +:+ ".bin"
  | Kshard => "mdu_" +:+ String_of (a_index a) +:+ "_slot_" +:+ String_of (a_slot a) +:+ ".bin"
  | Kmanifest => "manifest.bin"
  end.

(** The request that a post makes, and the handler of an artifact. *)
Definition post_request (p : Post) : http_request :=
  {| rq_method := "POST"; rq_body := body p;
     rq_headers := match full_size_header p with
                   | Some n => mset (p_headers p) "X-PolyStore-Full-Size" (pretty n)
                   | None => p_headers p
                   end |}.

Definition upload_handler (P : provider) (kind : SparseArtifactKind) : http_request -> store -> store * reply :=
  match kind with Kmdu => SpUploadMdu P | Kshard => SpUploadShard P | Kmanifest => SpUploadManifest P end.

(** ** The second attempt *)

Lemma makeSparseArtifact_identity input a :
  makeSparseArtifact input = Ok a ->
  match a_kind input with
  | Kmdu => exists i, a_index input = Some i
  | Kshard => exists i j, a_index input = Some i /\ a_slot input = Some j
  | Kmanifest => True
  end.
Proof.
  unfold makeSparseArtifact. intros (u & Hv & _)%bind_Ok. unfold validateArtifactIdentity in Hv.
  destruct (a_kind input); [|done|]; cbn in Hv.
  - destruct (a_index input); [eauto|done].
  - destruct (a_index input) as [n|]; [|done]. destruct (isIntegerOpt (Some n)); [|done].
    destruct (a_slot input); [eauto|done].
Qed.

Lemma hbind_inl {A B} (c : handler A) (k : A -> handler B) st st' y : hbind c k st = (st', inl y) ->
  exists st1 x, c st = (st1, inl x) /\ k x st1 = (st', inl y).
Proof. unfold hbind. destruct (c st) as [st1 [x|r]]; [by exists st1, x | done]. Qed.

(** Goes on to the next step of a handler that came to its end. *)
Ltac next H :=
  let st := fresh "st" in let x := fresh "x" in let Hx := fresh "Hx" in
  first [ apply hbind_inl in H as (st & x & Hx & H)
        | match type of H with (if ?b then _ else _) _ = _ => destruct b eqn:?; [discriminate H|] end ];
  cbv beta zeta in H.

Lemma TrimSpace_pretty (z : Z) : TrimSpace (pretty z) = pretty z.
Proof.
  unfold TrimSpace. rewrite trim_codes_id; [apply of_codes_codes|].
  assert (Hd : forall s, all_digits s = true -> Forall (fun c => is_white c || (c =? 133) = false) (codes s)).
  { intros s Hs%digits_Forall. eapply Forall_impl; [exact Hs|]. unfold is_white. cbn. lia. }
  destruct z as [|p|p]; [by apply Hd, pretty_decimal .. |].
  change (pretty (Z.neg p)) with ("-" +:+ pretty (Z.pos p)). change (codes ("-" +:+ ?s)) with (45 :: codes s).
  constructor; [done|]. by apply Hd, pretty_decimal.
Qed.

Lemma ParseUint_pretty (z n : Z) : ParseUint (pretty z) = Some n -> n = z.
Proof.
  unfold ParseUint. destruct (_ && _) eqn:E; [|done]. intros [= <-]. apply andb_true_iff in E as [[_ E]%andb_true_iff _].
  destruct z as [|p|p]; [by apply pretty_decimal.. | discriminate E].
Qed.

(** ** Promotion *)

Lemma hex_decode_digits l bs : hex_decode l = Some bs -> Forall (fun b => 0 <= b < 256) bs.
Proof.
  assert (Hd : forall c d, hex_digit c = Some d -> 0 <= d < 16) by (intros c d; unfold hex_digit; repeat case_match; intros [= <-]; lia).
  assert (H : forall n l bs, (length l <= n)%nat -> hex_decode l = Some bs -> Forall (fun b => 0 <= b < 256) bs).
  { induction n as [|n IH]; intros [|x [|y m]] cs Hl; cbn [hex_decode length] in *; try lia; try done; try (by intros [= <-]).
    destruct (hex_digit x) as [u|] eqn:Hu; [|done]. destruct (hex_digit y) as [v|] eqn:Hv; [|done].
    destruct (hex_decode m) as [ds|] eqn:Hm; [|done]. intros [= <-]. apply Hd in Hu, Hv. constructor; [lia|]. eapply IH; [|exact Hm]. lia. }
  intros Hl. by eapply H.
Qed.

(** The name of a generation is not that of a directory for staging. *)
Lemma key_not_staging raw root generation : parseManifestRoot raw = Ok root -> Key root <> "staging/" +:+ generation.
Proof.
  unfold parseManifestRoot. intros H. ok_step H. ok_step H. destruct (hex_decode _) as [bs|] eqn:Hb; [|discriminate H]. ok_step H.
  apply Ok_inj in H as <-. cbn [Key]. apply hex_decode_digits in Hb. bool_to_prop. destruct bs as [|x bs]; [discriminate|].
  apply Forall_cons in Hb as [Hx _]. intros He%(f_equal codes). cbn [map concat app] in He.
  change (codes ("staging/" +:+ generation)) with (115 :: codes ("taging/" +:+ generation)) in He.
  change (codes (of_codes (?c :: ?l))) with (code (ascii_of_N (Z.to_N c)) :: codes (of_codes l)) in He. injection He as He _.
  assert (Hq : 0 <= x / 16 < 16) by div_lia_linear. assert (Hl : 0 <= hex_lower (x / 16) < 115) by (unfold hex_lower; case_match; lia).
  rewrite code_of in He; lia.
Qed.

Lemma dirs_differ P dealID raw root generation : parseManifestRoot raw = Ok root ->
  stagedUploadDir P dealID generation <> dealScopedDir P dealID root.
Proof.
  intros Hr He. apply (key_not_staging raw root generation Hr). unfold stagedUploadDir, dealScopedDir in He.
  induction (uploadDir P) as [|c s IH]; [|injection He as He; by apply IH].
  change ("" +:+ ?s) with s in He. change ("/deals/" +:+ ?s) with (String "/" ("deals/" +:+ s)) in He. injection He as He.
  cbn [String.append] in He. repeat (injection He as He). induction (pretty dealID) as [|c s IH]; [|injection He as He; by apply IH].
  cbn [String.append] in He. by injection He.
Qed.

Lemma rename_lookup stage final st name e : files st !! (stage, name) = Some e ->
  files (rename_dir stage final st) !! (final, name) = Some e.
Proof.
  intros H. cbn [files rename_dir]. apply lookup_union_Some_l. unfold kmap.
  apply elem_of_list_to_map_1'.
  - intros y Hy. apply list_elem_of_fmap in Hy as ([[d n] x] & Heq & Hin). injection Heq as <- ->.
    apply elem_of_map_to_list, map_lookup_filter_Some in Hin as [Hin Hd]. cbn in Hd. subst d. congruence.
  - apply list_elem_of_fmap. exists ((stage, name), e). split; [done|]. by apply elem_of_map_to_list, map_lookup_filter_Some.
Qed.

Lemma promoted P dealID generation raw root st st' c : parseManifestRoot raw = Ok root ->
  promoteStagedUploadGeneration P dealID generation (dealScopedDir P dealID root) st = (st', None) ->
  files st !! (stagedUploadDir P dealID generation, "manifest.bin") = Some (Regular c) ->
  exists c', files st' !! (dealScopedDir P dealID root, "manifest.bin") = Some (Regular c') /\ blen c' = blen c.
Proof.
  intros Hr H Hc. apply (dirs_differ P dealID raw root generation) in Hr. unfold promoteStagedUploadGeneration, publishImmutableGeneration in H.
  set (stage := stagedUploadDir P dealID generation) in *. set (final := dealScopedDir P dealID root) in *.
  destruct (lease P _); [discriminate H|]. destruct (staged_in_use P stage); [discriminate H|].
  destruct (fault P final "" Lock); [discriminate H|]. destruct (fault P final "" LstatFinal); [discriminate H|].
  destruct (bool_decide (final ∈ dirs st)); cbn [negb] in H.
  - destruct (fault P stage "" CompareStaged); [discriminate H|]. destruct (sameGenerations P stage final st) eqn:Hs; [|discriminate H].
    cbn [negb] in H. destruct (fault P stage "" RemoveAll); [discriminate H|]. injection H as <-.
    unfold sameGenerations in Hs. apply bool_decide_eq_true_1 in Hs.
    destruct (Hs (stage, "manifest.bin") (Regular c) Hc (or_introl eq_refl) eq_refl) as [_ Hsame]. cbn [snd] in Hsame. rewrite Hc in Hsame.
    destruct (files st !! (final, "manifest.bin")) as [e|] eqn:He; [|discriminate Hsame]. apply same_files in Hsame as (c' & -> & Hl & _).
    exists c'. split; [|exact Hl]. cbn [files remove_dir]. apply map_lookup_filter_Some. by split.
  - destruct (fault P stage "" Rename); [discriminate H|]. injection H as <-. exists c. split; [by apply rename_lookup | done].
Qed.

Section retry.
Context (P : provider) (request : UploadTransportRequest).
Abbreviation a := (r_artifact request).
Abbreviation given := (buildHeaders (r_dealId request) (r_manifestRoot request) (r_previousManifestRoot request)
  (r_uploadGeneration request) a).

Lemma no_full_size : header_get given "X-PolyStore-Full-Size" = "".
Proof. unfold buildHeaders. cbv zeta. by repeat case_bool_decide. Qed.
Lemma index_header : a_kind a <> Kmanifest -> header_get given "X-PolyStore-Mdu-Index" = String_of (a_index a).
Proof. intros Hk. unfold buildHeaders. cbv zeta. destruct (a_kind a); [|done|]; by repeat case_bool_decide. Qed.
Lemma slot_header : a_kind a = Kshard -> header_get given "X-PolyStore-Slot" = String_of (a_slot a).
Proof. intros Hk. unfold buildHeaders. cbv zeta. rewrite Hk. by repeat case_bool_decide. Qed.

Lemma content_type : mget given "Content-Type" = Some "application/octet-stream".
Proof. reflexivity. Qed.

(** The second post. *)
Definition again (url : string) : Post := {| p_url := url; p_headers := given; full_size_header := None; body := a_bytes a |}.

Lemma second_post fetch first second response : sendArtifact fetch request = ([first; second], response) ->
  (exists url sparse, second = again url /\ makeSparseArtifact a = Ok sparse)
  /\ (response = Resolved -> exists status text, fetch 1%nat second = Replied status text /\ status_ok status = true).
Proof.
  unfold sendArtifact. destruct (bind _ _) as [[posts answer]|m] eqn:H; [|done]. apply bind_Ok in H as (url & _ & H).
  unfold postSparseArtifact in H. apply bind_Ok in H as (sparse & Hs & H). cbn [su_artifact] in *.
  destruct (shouldRetrySparseUpload _ _ _); injection H as <- <-; [|by destruct (fetch 0%nat _)].
  set (p := post _ (a_bytes a) None). assert (Hp : p = again url) by (unfold p, post, requestHeaders; cbn [su_headers su_url]; by rewrite content_type).
  intros Hq. assert (Hpost : second = p) by (destruct (fetch 1%nat p); congruence). subst second. split; [by exists url, sparse|].
  intros ->. destruct (fetch 1%nat p) as [n m|status text]; [discriminate Hq|]. exists status, text. split; [done|].
  by destruct (status_ok status).
Qed.

Lemma no_declared_size url st : declaredSize (post_request (again url)) st = (st, inl None).
Proof. unfold declaredSize. cbn [rq_headers post_request full_size_header again p_headers]. by rewrite no_full_size. Qed.

Lemma published_short rootDir name content st st' : published P rootDir name content st = (st', inl tt) ->
  exists c, files st' !! (rootDir, name) = Some (Regular c) /\ blen c = blen content.
Proof.
  unfold published. destruct (publishImmutableArtifact P rootDir name content st) as [st1 e] eqn:Hp. apply publish_spec in Hp as (_ & _ & Hl).
  intros H. destruct e as [[m|m]|]; [discriminate H..|]. injection H as ->. destruct (Hl eq_refl) as [Hland _]. unfold landed in Hland.
  destruct (files st !! (rootDir, name)) as [x|]; [|by exists content]. destruct Hland as (Hx & c & -> & Hc & _). by exists c.
Qed.

(** What is left of a handler that was posted to again, up to the publication. *)
Ltac to_publication H Hok :=
  apply served_ok in H; [|handler_steps|exact Hok]; repeat next H;
  match goal with
  | Hd : declaredSize _ _ = (_, inl ?x) |- _ => rewrite no_declared_size in Hd; injection Hd as <- <-
  end;
  match goal with
  | Hd : hret _ _ = (_, inl ?x) |- _ => injection Hd as <- <-
  end.

Lemma shard_short url sparse st st' r : a_kind a = Kshard -> makeSparseArtifact a = Ok sparse ->
  SpUploadShard P (post_request (again url)) st = (st', r) -> status_ok (rp_status r) = true ->
  exists dir c, files st' !! (dir, stored_name a) = Some (Regular c) /\ blen c = blen (a_bytes a).
Proof.
  intros Hk Hs H Hok. apply makeSparseArtifact_identity in Hs. rewrite Hk in Hs. destruct Hs as (i & j & Hi & Hj).
  to_publication H Hok. unfold parse_uint in Hx1. destruct (ParseUint (header _ "X-PolyStore-Slot")) as [slot|] eqn:Hp; [|discriminate Hx1].
  injection Hx1 as <- <-. unfold header in Hp, H. cbn [rq_headers post_request full_size_header again p_headers] in Hp, H.
  rewrite slot_header, Hj in Hp by done. rewrite index_header, Hi in H by by rewrite Hk. cbn [String_of] in Hp, H. rewrite TrimSpace_pretty in Hp, H.
  apply ParseUint_pretty in Hp as ->. apply published_short in H as (c & Hc & Hl). exists x6, c. split; [|exact Hl].
  unfold stored_name. by rewrite Hk, Hi, Hj.
Qed.

Lemma mdu_short url sparse st st' r : a_kind a = Kmdu -> makeSparseArtifact a = Ok sparse ->
  SpUploadMdu P (post_request (again url)) st = (st', r) -> status_ok (rp_status r) = true ->
  exists dir c, files st' !! (dir, stored_name a) = Some (Regular c) /\ blen c = blen (a_bytes a) /\ blen c = MDU_BYTES.
Proof.
  intros Hk Hs H Hok. apply makeSparseArtifact_identity in Hs. rewrite Hk in Hs. destruct Hs as (i & Hi).
  to_publication H Hok. unfold header in H. cbn [rq_headers rq_body post_request full_size_header again p_headers body] in *.
  rewrite index_header, Hi in H by by rewrite Hk. cbn [String_of] in H. rewrite TrimSpace_pretty in H.
  apply published_short in H as (c & Hc & Hl). eexists _, c. unfold stored_name. rewrite Hk, Hi. split; [exact Hc|].
  apply negb_false_iff, Z.eqb_eq in Heqb1. split; [done|]. congruence.
Qed.

Lemma manifest_short url st st' r : a_kind a = Kmanifest ->
  SpUploadManifest P (post_request (again url)) st = (st', r) -> status_ok (rp_status r) = true ->
  exists dir c, files st' !! (dir, stored_name a) = Some (Regular c) /\ blen c = blen (a_bytes a) /\ blen c = BLOB_BYTES.
Proof.
  intros Hk H Hok. to_publication H Hok. unfold stored_name. rewrite Hk. apply negb_false_iff, Z.eqb_eq in Heqb0.
  unfold or_text in Hx3. destruct (parseManifestRoot _) as [root|m] eqn:Hroot; [|discriminate Hx3]. injection Hx3 as _ <-. destruct x11.
  destruct (negb (bool_decide (x2 = ""))).
  - apply published_short in Hx11 as (c & Hc & Hl). unfold attempt in H.
    destruct (promoteStagedUploadGeneration P x1 x2 (dealScopedDir P x1 root) st12) as [st13 [e|]] eqn:Hp; [discriminate H|].
    injection H as <-. destruct (promoted P x1 x2 _ root st12 st13 c Hroot Hp Hc) as (c' & Hc' & Hl').
    exists (dealScopedDir P x1 root), c'. split; [exact Hc'|]. split; congruence.
  - injection H as <-. apply published_short in Hx11 as (c & Hc & Hl). eexists _, c. split; [exact Hc|]. split; congruence.
Qed.
End retry.

(** ** Theorems *)

(** C40: The second attempt posts the bytes that the caller passed, without the size that the
    first one declared.  When they are fewer than that size, as for an artifact that was
    made sparse before, and the provider answers with success, then the file that it keeps
    for the artifact is as short as they are, and the upload counts as done.  The
    provider refuses an MDU and a manifest that has not the one size of its kind, so of
    those this cannot happen with the size that they should have; a shard may have any
    size. *)
Theorem sparse_retry_incomplete P fetch request first second response st st' r :
  let a := r_artifact request in
  sendArtifact fetch request = ([first; second], response) ->
  upload_handler P (a_kind a) (post_request second) st = (st', r) ->
  fetch 1%nat second = Replied (rp_status r) (Some (rp_text r)) ->
  blen (a_bytes a) < declared a -> response = Resolved ->
  (exists dir c, files st' !! (dir, stored_name a) = Some (Regular c) /\ blen c = blen (a_bytes a) /\ blen c < declared a)
  /\ match a_kind a with Kmdu => declared a <> MDU_BYTES | Kmanifest => declared a <> BLOB_BYTES | Kshard => True end.
Proof.
  intros a Hsend Hh Hf Hlt Hr. subst a. destruct (second_post request fetch first second response Hsend) as [(url & sparse & -> & Hs) Hok].
  destruct (Hok Hr) as (status & text & Hrep & Hst). rewrite Hf in Hrep. injection Hrep as <- <-.
  destruct (a_kind (r_artifact request)) eqn:Hk; cbn [upload_handler] in Hh.
  - destruct (mdu_short P request url sparse st st' r Hk Hs Hh Hst) as (dir & c & Hc & Hl & Hm). split; [exists dir, c; split_and!; (done || lia) | lia].
  - destruct (manifest_short P request url st st' r Hk Hh Hst) as (dir & c & Hc & Hl & Hm). split; [exists dir, c; split_and!; (done || lia) | lia].
  - destruct (shard_short P request url sparse st st' r Hk Hs Hh Hst) as (dir & c & Hc & Hl). split; [exists dir, c; split_and!; (done || lia) | done].
Qed.

(** A provider on which nothing fails. *)
Definition sound_provider : provider :=
  {| uploadDir := "uploads"; sha256 := fun l => l; test_fault := false; cached := fun _ _ => false;
     fetchDealMetaFresh := fun _ => inl ""; lease := fun _ => None; staged_in_use := fun _ => false; fault := fun _ _ _ => None |}.
Definition empty_store : store := {| created := ∅; dirs := ∅; files := ∅ |}.

(** A shard of six bytes, cut to its first two. *)
Definition cut_shard : UploadTransportRequest :=
  {| r_dealId := "7"; r_manifestRoot := ""; r_previousManifestRoot := None; r_uploadGeneration := Some "gen-1";
     r_target := {| baseUrl := "http://sp"; mduPath := "/sp/upload_mdu"; manifestPath := "/sp/upload_manifest";
                    shardPath := Some "/sp/upload_shard"; bundlePath := None; label := None |};
     r_artifact := {| a_kind := Kshard; a_bytes := [1; 2]; a_fullSize := Some (int 6); a_index := Some (int 3); a_slot := Some (int 0) |} |}.
(** The first attempt is answered with 411. *)
Definition length_required (i : nat) (p : Post) : Answer :=
  if Nat.eqb i 0 then Replied 411 None
  else let r := (SpUploadShard sound_provider (post_request p) empty_store).2 in Replied (rp_status r) (Some (rp_text r)).

Lemma sparse_retry_incomplete_witness : exists first second st' r dir c,
  sendArtifact length_required cut_shard = ([first; second], Resolved)
  /\ SpUploadShard sound_provider (post_request second) empty_store = (st', r)
  /\ files st' !! (dir, "mdu_3_slot_0.bin") = Some (Regular c) /\ blen c = 2 /\ blen c < 6.
Proof.
  destruct (sendArtifact length_required cut_shard) as [posts response] eqn:Hs.
  assert (Hp : exists first second, posts = [first; second]) by (vm_compute in Hs; injection Hs as <- _; by eexists _, _).
  assert (Hr : response = Resolved) by (vm_compute in Hs; by injection Hs as _ <-).
  destruct Hp as (first & second & ->).
  destruct (SpUploadShard sound_provider (post_request second) empty_store) as [st' r] eqn:Hu.
  assert (Hf : length_required 1 second = Replied (rp_status r) (Some (rp_text r))) by (unfold length_required; cbn [Nat.eqb]; by rewrite Hu).
  destruct (sparse_retry_incomplete sound_provider length_required cut_shard first second response empty_store st' r Hs Hu Hf eq_refl Hr)
    as [(dir & c & Hc & Hl) _].
  rewrite Hr. exact (ex_intro _ first (ex_intro _ second (ex_intro _ st' (ex_intro _ r (ex_intro _ dir (ex_intro _ c
    (conj eq_refl (conj Hu (conj Hc Hl))))))))).
Defined.
