(* ===== verification/Bundle.v ===== *)
(** * A bundle, from the client to the provider

    Models the provider's handler of bundles, [SpUploadBundle] of
    src/polystore_gateway/sp_upload_bundle.go, and proves what it stores of the bundles that
    the client's [sendBundle] (HttpTransport.v) posts.  The decoder of JSON and the reader of
    multipart forms of the Go library are arguments; the store, the operations on files and
    what may fail are those of Provider.v. *)

From S2P Require Import Prelude JsMap JsNumber JsBytes JsString JsText Sparse Pool Engine HttpTransport Provider.
From Stdlib Require Import Ascii.
From stdpp Require Import gmap strings.
Local Open Scope Z_scope.

Definition MaxIntegrityLeaves : Z := 65536 * 96.
Definition spUploadBundleMaxArtifacts : Z := 4096.
Definition spUploadBundleMaxGeneration : Z := 128.

Record spUploadBundleResolvedArtifact := { meta : MetaArtifact; filename : string;
  rs_fullSize : Z; rs_sendSize : Z }.

Definition validateSpUploadBundleGenerationID (generation : string) : result unit :=
  let generation := TrimSpace generation in
  if bool_decide (generation = "") then Ok tt else
  throw_if spUploadBundleMaxGeneration <? utf8_length generation
    with "upload_generation is too long" else
  throw_if existsb (fun r => (r <? 32) || (r =? 127) || (r =? 47) || (r =? 92)) (codes generation)
    with "upload_generation contains invalid characters" else
  Ok tt.

Definition resolve_kind (a : MetaArtifact) (kind : string) : result string :=
  if bool_decide (kind = "mdu") then
    match mdu_index a with
    | None => Err "mdu artifact missing mdu_index"
    | Some i =>
        throw_if negb (full_size a =? MDU_BYTES)
          with "mdu artifact full_size must be " +:+ pretty MDU_BYTES else
        Ok ("mdu_" +:+ pretty i +:+ ".bin")
    end
  else if bool_decide (kind = "shard") then
    match mdu_index a, slot a with
    | Some i, Some s =>
        throw_if (full_size a <=? 0) || (MDU_BYTES <? full_size a)
          with "shard artifact full_size must be between 1 and " +:+ pretty MDU_BYTES else
        Ok ("mdu_" +:+ pretty i +:+ "_slot_" +:+ pretty s +:+ ".bin")
    | _, _ => Err "shard artifact missing mdu_index or slot"
    end
  else if bool_decide (kind = "manifest") then
    throw_if negb (full_size a =? BLOB_BYTES)
      with "manifest artifact full_size must be " +:+ pretty BLOB_BYTES else
    Ok "manifest.bin"
  else if bool_decide (kind = "integrity_leaves_v3") then
    throw_if bool_decide (mdu_index a <> None) || bool_decide (slot a <> None)
             || (full_size a <=? 0) || (MaxIntegrityLeaves * 32 <? full_size a)
             || negb (full_size a mod 32 =? 0)
      with "integrity leaf vector has invalid coordinates or size" else
    Ok "integrity_leaves_v3.bin"
  else Err ("unsupported artifact kind " +:+ quoted_string kind).

Definition resolve (a : MetaArtifact) : result spUploadBundleResolvedArtifact :=
  throw_if bool_decide (TrimSpace (part a) = "") with "artifact part is required" else
  let kind := TrimSpace (m_kind a) in
  throw_if bool_decide (kind = "") with "artifact kind is required" else
  let sendSize := if send_size a =? 0 then full_size a else send_size a in
  throw_if sendSize <? 0 with "artifact send_size must be non-negative" else
  let! name := resolve_kind a kind in
  throw_if (sendSize <=? 0) || (full_size a <? sendSize)
    with "artifact send_size must be between 1 and full_size" else
  Ok {| meta := a; filename := name; rs_fullSize := full_size a; rs_sendSize := sendSize |}.

Definition readSpUploadBundleV2Request (unmarshal : bytes -> option BundleMeta) (r : bytes)
    : result (BundleMeta * bytes) :=
  throw_if blen r <? 8 with "unexpected EOF" else
  throw_if negb (bool_decide (take 4 r = [78; 76; 66; 50])) with "invalid bundle magic" else
  let metaLen := get r 4 + 256 * get r 5 + 65536 * get r 6 + 16777216 * get r 7 in
  throw_if (metaLen =? 0) || (2 ^ 20 <? metaLen) with "invalid bundle meta length" else
  throw_if blen (drop 8 r) <? metaLen with "unexpected EOF" else
  match unmarshal (take (Z.to_nat metaLen) (drop 8 r)) with
  | Some req => Ok (req, drop (Z.to_nat metaLen) (drop 8 r))
  | None => Err "invalid JSON"
  end.

(** What storing an artifact fails with. *)
Inductive store_error := BodyError (message : string) | StoreError (message : string).

Section handler.
Context (P : provider).

(** The bytes that are read of [src]. *)
Definition copyBundleArtifactBody (rootDir : string) (src : bytes) (resolved : spUploadBundleResolvedArtifact)
    : bytes + store_error :=
  let limited := take (Z.to_nat (rs_sendSize resolved + 1)) src in
  match copyUploadBody P rootDir (filename resolved) None limited with
  | Some e => inr (StoreError (io_text e))
  | None =>
      if negb (blen limited =? rs_sendSize resolved) then
        if rs_sendSize resolved <? blen limited
        then inr (BodyError ("artifact " +:+ part (meta resolved) +:+ " exceeded declared send_size"))
        else inr (BodyError ("artifact " +:+ part (meta resolved) +:+ " shorter than declared send_size"))
      else inl limited
  end.

(** The file is filled with zeros up to the full size. *)
Definition storeBundleArtifact (rootDir : string) (resolved : spUploadBundleResolvedArtifact) (src : bytes) (st : store)
    : store * option store_error :=
  let (st, err) := createTempInUploadRoot P rootDir (filename resolved) st in
  match err with
  | Some e => (st, Some (StoreError (io_text e)))
  | None =>
  match copyBundleArtifactBody rootDir src resolved with
  | inr e => (st, Some e)
  | inl body =>
  match (if blen body <? rs_fullSize resolved then fault P rootDir (filename resolved) Truncate else None) with
  | Some e => (st, Some (StoreError (io_text e)))
  | None =>
  match fault P rootDir (filename resolved) Close with
  | Some e => (st, Some (StoreError (io_text e)))
  | None =>
      let (st, e) := publishImmutableArtifact P rootDir (filename resolved) (padded body (rs_fullSize resolved)) st in
      (st, match e with
           | Some (GenerationConflict m) => Some (StoreError m)
           | Some (PublishFailed m) => Some (StoreError m)
           | None => None
           end)
  end end end end.

(** The loop that fills [artifactsByPart] and [seenFilenames]. *)
Fixpoint resolveArtifacts (parts seen : list string) (l : list MetaArtifact)
    : result (list spUploadBundleResolvedArtifact) :=
  match l with
  | [] => Ok []
  | a :: l =>
      let! resolved := resolve a in
      throw_if bool_decide (part a ∈ parts) with "duplicate bundle artifact part" else
      throw_if bool_decide (filename resolved ∈ seen) with "duplicate bundle artifact target" else
      let! rest := resolveArtifacts (part a :: parts) (filename resolved :: seen) l in
      Ok (resolved :: rest)
  end.

(** How the handler answers the error of an artifact. *)
Definition storedArtifact (rootDir : string) (resolved : spUploadBundleResolvedArtifact) (src : bytes) : handler unit := fun st =>
  let (st, err) := storeBundleArtifact rootDir resolved src st in
  (st, match err with
       | Some (BodyError _) => inr (http_error 400 "invalid bundle body")
       | Some (StoreError _) => inr (http_error 500 "failed to store bundle artifact")
       | None => inl tt
       end).

(** The loop that reads the artifacts off the body, and the test that nothing
    follows them. *)
Fixpoint storeArtifacts (rootDir : string) (l : list spUploadBundleResolvedArtifact) (r : bytes) : handler unit :=
  match l with
  | [] =>
      return_if (0 <? blen r) || match fault P rootDir "" ReadTrailing with Some _ => true | None => false end
        with 400 "bundle contains unexpected trailing bytes" else
      hret tt
  | resolved :: l =>
      let n := Z.to_nat (rs_sendSize resolved) in
      run! _ := storedArtifact rootDir resolved (take n r) in
      storeArtifacts rootDir l (drop n r)
  end.

(** A multipart form: its parts, and whether reading ends with an error. *)
Record Multipart := { mp_parts : list (string * bytes); mp_broken : bool }.

(** The loop over the parts after the first. *)
Fixpoint storeParts (rootDir : string) (artifacts : list spUploadBundleResolvedArtifact) (broken : bool)
    (received : list string) (parts : list (string * bytes)) : handler unit :=
  match parts with
  | [] =>
      return_if broken with 400 "invalid multipart form" else
      return_if negb (length received =? length artifacts)%nat
        with 400 ("bundle incomplete: received " +:+ pretty (Z.of_nat (length received)) +:+ "/"
                  +:+ pretty (Z.of_nat (length artifacts)) +:+ " artifacts") else
      hret tt
  | (formName, data) :: parts =>
      let partName := TrimSpace formName in
      if bool_decide (partName = "") then storeParts rootDir artifacts broken received parts else
      match List.find (fun resolved => bool_decide (part (meta resolved) = partName)) artifacts with
      | None => hreturn (http_error 400 "unexpected bundle artifact part")
      | Some resolved =>
          return_if bool_decide (partName ∈ received) with 400 "duplicate bundle artifact part" else
          run! _ := storedArtifact rootDir resolved data in
          storeParts rootDir artifacts broken (partName :: received) parts
      end
  end.

Context (unmarshal : bytes -> option BundleMeta) (multipart : http_request -> option Multipart).

(** The description, and what is left of the body. *)
Definition readRequest (r : http_request) : handler (BundleMeta * (bytes + Multipart)) :=
  let binaryBundle := String.prefix "application/x.polystore-bundle-v2" (header r "Content-Type") in
  if binaryBundle then
    run! x := or_text (readSpUploadBundleV2Request unmarshal (rq_body r)) 400 "invalid bundle body" in
    hret (x.1, inl x.2)
  else
    match multipart r with
    | None => hreturn (http_error 400 "invalid multipart form")
    | Some form =>
        match mp_parts form with
        | [] => hreturn (http_error 400 "bundle meta part is required")
        | (formName, data) :: parts =>
            return_if negb (bool_decide (TrimSpace formName = "meta")) with 400 "first multipart part must be meta" else
            match unmarshal (take (Z.to_nat (2 ^ 20)) data) with
            | None => hreturn (http_error 400 "invalid bundle meta")
            | Some req => hret (req, inr {| mp_parts := parts; mp_broken := mp_broken form |})
            end
        end
    end.

Definition SpUploadBundle (r : http_request) : store -> store * reply := served (
  run! _ := preflight P r in
  run! (req, rest) := readRequest r in
  match deal_id req with
  | None => hreturn (http_error 400 "deal_id is required")
  | Some dealID =>
      let clientManifestRoot := TrimSpace (manifest_root req) in
      return_if bool_decide (clientManifestRoot = "") with 400 "manifest_root is required" else
      return_if bool_decide (m_artifacts req = []) with 400 "bundle artifacts are required" else
      return_if spUploadBundleMaxArtifacts <? Z.of_nat (length (m_artifacts req))
        with 400 "bundle contains too many artifacts" else
      run! _ := or_error (validateSpUploadBundleGenerationID (upload_generation req)) 400 in
      run! parsed := or_text (parseManifestRoot clientManifestRoot) 400 "invalid manifest root" in
      run! _ := validatePrevious P dealID (TrimSpace (previous_manifest_root req)) in
      let rootDir := dealScopedDir P dealID parsed in
      run! _ := leased P [rootDir] in
      run! _ := attempt (ensureUploadRootDir P 0 rootDir) 500 "failed to create slab directory" in
      run! artifacts := or_error (resolveArtifacts [] [] (m_artifacts req)) 400 in
      match rest with
      | inl rest => storeArtifacts rootDir artifacts rest
      | inr form => storeParts rootDir artifacts (mp_broken form) [] (mp_parts form)
      end
  end).
End handler.

(** ** What the provider is meant to store *)

Definition stored_file (request : UploadTransportRequest) : string * bytes :=
  let a := r_artifact request in (stored_name a, padded (a_bytes a) (declared a)).

(** The sizes a provider accepts. *)
Definition storable (request : UploadTransportRequest) : Prop :=
  let full := declared (r_artifact request) in
  match a_kind (r_artifact request) with
  | Kmdu => full = MDU_BYTES
  | Kshard => 0 < full <= MDU_BYTES
  | Kmanifest => full = BLOB_BYTES
  end.

(** ** Lemmas *)

Lemma le32 n :
  0 <= n < 2 ^ 32 ->
  Z.land n 255 + 256 * Z.land (Z.shiftr n 8) 255 + 65536 * Z.land (Z.shiftr n 16) 255
    + 16777216 * Z.land (Z.shiftr n 24) 255 = n.
Proof.
  intros Hn. change 255 with (Z.ones 8). rewrite !Z.land_ones by lia.
  rewrite !Z.shiftr_div_pow2 by lia.
  change (2 ^ 24) with (2 ^ 16 * 2 ^ 8). change (2 ^ 16) with (2 ^ 8 * 2 ^ 8).
  rewrite <- !Z.div_div by lia. change (2 ^ 8) with 256. change (2 ^ 32) with 4294967296 in Hn.
  pose proof (Z.div_mod n 256). pose proof (Z.div_mod (n / 256) 256).
  pose proof (Z.div_mod (n / 256 / 256) 256).
  rewrite (Z.mod_small (n / 256 / 256 / 256)); [lia|].
  split; [repeat apply Z.div_pos; lia|]. repeat (apply Z.div_lt_upper_bound; [lia|]). lia.
Qed.

Lemma read_header unmarshal json rest req :
  0 < blen (TextEncoder_encode json) <= 2 ^ 20 ->
  unmarshal (TextEncoder_encode json) = Some req ->
  readSpUploadBundleV2Request unmarshal (buildBundleV2Header json ++ rest) = Ok (req, rest).
Proof.
  intros Hlen Hun. set (m := TextEncoder_encode json) in *.
  assert (Hu : uint32 (blen m) = blen m).
  { unfold uint32. change (2 ^ 32 - 1) with (Z.ones 32). rewrite Z.land_ones by lia.
    apply Z.mod_small. change (2 ^ 20) with 1048576 in Hlen. change (2 ^ 32) with 4294967296. lia. }
  unfold readSpUploadBundleV2Request, buildBundleV2Header. fold m. rewrite Hu.
  set (h := [78; 76; 66; 50; _; _; _; _]).
  rewrite (proj2 (Z.ltb_ge _ _)) by (rewrite !blen_app; pose proof (blen_nonneg rest); change (blen h) with 8; lia).
  rewrite bool_decide_eq_true_2 by done. cbn [negb].
  assert (Hg : get ((h ++ m) ++ rest) 4 + 256 * get ((h ++ m) ++ rest) 5
    + 65536 * get ((h ++ m) ++ rest) 6 + 16777216 * get ((h ++ m) ++ rest) 7 = blen m).
  { unfold h, get; cbn [app]. change (Z.to_nat 4) with 4%nat. change (Z.to_nat 5) with 5%nat.
    change (Z.to_nat 6) with 6%nat. change (Z.to_nat 7) with 7%nat. cbn [nth].
    apply le32. change (2 ^ 20) with 1048576 in Hlen. change (2 ^ 32) with 4294967296. lia. }
  rewrite Hg. replace ((blen m =? 0) || (2 ^ 20 <? blen m)) with false by (symmetry; lia).
  rewrite <- app_assoc. change (drop 8 (h ++ m ++ rest)) with (m ++ rest).
  rewrite (proj2 (Z.ltb_ge _ _)) by (rewrite blen_app; pose proof (blen_nonneg rest); lia).
  unfold blen. rewrite Nat2Z.id, take_app_length, drop_app_length, Hun. done.
Qed.

Lemma TrimSpace_part i : TrimSpace (partName i) <> "".
Proof.
  unfold TrimSpace. intros H%(f_equal slen). rewrite slen_of_codes in H.
  assert (Hn := trim_codes_cons (fun c => is_white c || (c =? 133)) (code "a"%char)
    (codes ("rtifact_" +:+ padStart2 (pretty (Z.of_nat i)))) eq_refl).
  change (code "a"%char :: codes _) with (codes (partName i)) in Hn.
  destruct (trim_codes _ _); [done|]. cbn [length] in H. change (slen "") with 0 in H. lia.
Qed.

Lemma send_size_pos input a :
  makeSparseArtifact input = Ok a -> 0 < declared input -> 0 < blen (sp_bytes a) <= declared input.
Proof. intros (_ & _ & Hle & _ & Hs)%makeSparseArtifact_spec Hd. destruct (Hs Hd) as [?|[? _]]; lia. Qed.

Lemma storable_pos request : storable request -> 0 < declared (r_artifact request).
Proof. unfold storable, MDU_BYTES, BLOB_BYTES. destruct (a_kind _); lia. Qed.

Lemma resolve_kind_meta i request a :
  makeSparseArtifact (r_artifact request) = Ok a -> storable request ->
  resolve_kind (metaArtifact i request a) (kindName (a_kind (r_artifact request)))
  = Ok (stored_name (r_artifact request)).
Proof.
  intros Hm Hs. pose proof (makeSparseArtifact_identity _ _ Hm) as Hid.
  pose proof (makeSparseArtifact_spec _ _ Hm) as (Hf & _).
  unfold storable in Hs. unfold resolve_kind, metaArtifact, stored_name.
  destruct (a_kind (r_artifact request)); cbn [kindName].
  - change (bool_decide ("mdu" = "mdu")) with true. cbn [mdu_index full_size].
    destruct Hid as [n ->]. change (bool_decide (Kmdu = Kmdu)) with true. cbn [orb fmap option_fmap option_map].
    by rewrite Hf, Hs, Z.eqb_refl.
  - change (bool_decide ("manifest" = "mdu")) with false. change (bool_decide ("manifest" = "shard")) with false.
    change (bool_decide ("manifest" = "manifest")) with true. cbn [full_size]. by rewrite Hf, Hs, Z.eqb_refl.
  - change (bool_decide ("shard" = "mdu")) with false. change (bool_decide ("shard" = "shard")) with true.
    cbn [mdu_index slot full_size]. destruct Hid as (n & m & -> & ->).
    change (bool_decide (Kshard = Kshard)) with true. change (bool_decide (Kshard = Kmdu)) with false.
    cbn [orb fmap option_fmap option_map]. rewrite Hf.
    by replace ((declared _ <=? 0) || (MDU_BYTES <? declared _)) with false by (symmetry; lia).
Qed.

Definition resolved_of (i : nat) (request : UploadTransportRequest) (a : SparseArtifact)
    : spUploadBundleResolvedArtifact :=
  {| meta := metaArtifact i request a; filename := stored_name (r_artifact request);
     rs_fullSize := declared (r_artifact request); rs_sendSize := blen (sp_bytes a) |}.

Lemma resolve_meta i request a :
  makeSparseArtifact (r_artifact request) = Ok a -> storable request ->
  resolve (metaArtifact i request a) = Ok (resolved_of i request a).
Proof.
  intros Hm Hs. pose proof (send_size_pos _ _ Hm (storable_pos _ Hs)) as Hp.
  pose proof (makeSparseArtifact_spec _ _ Hm) as (Hf & _).
  unfold resolve. rewrite (bool_decide_eq_false_2 _ (TrimSpace_part i)).
  assert (Hk : TrimSpace (m_kind (metaArtifact i request a)) = kindName (a_kind (r_artifact request))
    /\ kindName (a_kind (r_artifact request)) <> "").
  { cbn [m_kind metaArtifact]. by destruct (a_kind _). }
  destruct Hk as [-> Hne]. rewrite (bool_decide_eq_false_2 _ Hne). rewrite resolve_kind_meta by done.
  cbn [send_size full_size metaArtifact bind]. rewrite Hf.
  rewrite (proj2 (Z.eqb_neq _ 0)) by lia. rewrite (proj2 (Z.ltb_ge _ 0)) by lia.
  by replace ((blen (sp_bytes a) <=? 0) || (declared (r_artifact request) <? blen (sp_bytes a)))
    with false by (symmetry; lia).
Qed.

Abbreviation request_names l := (map (fun r => stored_name (r_artifact r)) l).
Abbreviation sparse_of := (fun r a => makeSparseArtifact (r_artifact r) = Ok a).

Lemma partName_inj i j : partName i = partName j -> i = j.
Proof.
  unfold partName. intros H. repeat (injection H as H). apply padStart2_inj in H; lia.
Qed.

Lemma resolve_all reqs arts k parts seen :
  Forall2 sparse_of reqs arts -> Forall storable reqs -> NoDup (request_names reqs) ->
  (forall n, n ∈ request_names reqs -> n ∉ seen) ->
  (forall p, p ∈ parts -> exists i, (i < k)%nat /\ p = partName i) ->
  resolveArtifacts parts seen (imap (fun i ra => metaArtifact (k + i) ra.1 ra.2) (zip reqs arts))
  = Ok (imap (fun i ra => resolved_of (k + i) ra.1 ra.2) (zip reqs arts)).
Proof.
  intros Hf. revert k parts seen.
  induction Hf as [|r a reqs arts Hr Hf IH]; intros k parts seen Hst Hnd Hseen Hparts; [done|].
  apply Forall_cons in Hst as [Hs Hst]. cbn [map] in *. apply NoDup_cons in Hnd as [Hn Hnd].
  cbn [zip zip_with imap resolveArtifacts fst snd]. rewrite Nat.add_0_r, resolve_meta by done.
  cbn [bind part metaArtifact filename resolved_of].
  rewrite bool_decide_eq_false_2.
  2:{ intros (i & Hi & He%partName_inj)%Hparts. lia. }
  rewrite bool_decide_eq_false_2 by (apply Hseen; left).
  assert (He : forall {B} (f : nat -> UploadTransportRequest * SparseArtifact -> B) l,
    imap ((fun i ra => f (k + i)%nat ra) ∘ S) l = imap (fun i ra => f (S k + i)%nat ra) l).
  { intros B f l. apply imap_ext. intros i x _. cbn. by rewrite Nat.add_succ_r. }
  rewrite (He _ (fun i ra => metaArtifact i ra.1 ra.2)), (He _ (fun i ra => resolved_of i ra.1 ra.2)).
  rewrite IH; [done|done|done| |].
  - intros n Hin [->|Hs']%elem_of_cons; [done|]. apply (Hseen n); [by right|done].
  - intros p [->|(i & Hi & ->)%Hparts]%elem_of_cons; eexists; (split; [|done]); lia.
Qed.

(** ** Storing *)

Section stored.
Context (P : provider) (dir : string).

Lemma store_spec resolved src st st' e : storeBundleArtifact P dir resolved src st = (st', e) ->
  keeps st st' /\ (forall key, key <> (dir, filename resolved) -> files st' !! key = files st !! key)
  /\ (e = None -> exists body, copyBundleArtifactBody P dir src resolved = inl body
       /\ landed P st st' (dir, filename resolved) (padded body (rs_fullSize resolved))).
Proof.
  unfold storeBundleArtifact. pose proof (createTemp_files P dir (filename resolved) st) as Hc.
  destruct (createTempInUploadRoot P dir (filename resolved) st) as [st1 err]. cbn [fst] in Hc. intros H.
  assert (Hsame : forall x, (st1, Some x) = (st', e) -> keeps st st' /\ (forall key, key <> (dir, filename resolved) -> files st' !! key = files st !! key)
    /\ (e = None -> exists body, copyBundleArtifactBody P dir src resolved = inl body
         /\ landed P st st' (dir, filename resolved) (padded body (rs_fullSize resolved)))).
  { intros x [= <- <-]. split; [by apply keeps_same|]. split; [by rewrite Hc | done]. }
  destruct err; [by eapply Hsame|]. destruct (copyBundleArtifactBody P dir src resolved) as [body|x]; [|by eapply Hsame].
  destruct (if blen body <? _ then _ else _); [by eapply Hsame|].
  destruct (fault P dir (filename resolved) Close); [by eapply Hsame|]. clear Hsame.
  destruct (publishImmutableArtifact _ _ _ _ st1) as [st2 r] eqn:Hp. apply publish_spec in Hp as (Hk & Ho & Hl).
  injection H as <- <-. split; [by eapply keeps_trans; [apply keeps_same|]|]. split; [intros key Hne; by rewrite Ho, Hc|].
  intros He. exists body. split; [done|]. eapply landed_pre; [by rewrite Hc|]. apply Hl. by destruct r as [[m|m]|].
Qed.

Lemma store_succeeds resolved src body st : dir <> "" -> (forall name op, fault P dir name op = None) ->
  copyBundleArtifactBody P dir src resolved = inl body ->
  ~ in_the_way P st (dir, filename resolved) (padded body (rs_fullSize resolved)) ->
  (storeBundleArtifact P dir resolved src st).2 = None.
Proof.
  intros Hd Hf Hb Hw. unfold storeBundleArtifact.
  pose proof (createTemp_succeeds P dir (filename resolved) st Hd Hf) as Hc. pose proof (createTemp_files P dir (filename resolved) st) as Hcf.
  destruct (createTempInUploadRoot P dir (filename resolved) st) as [st1 err]. cbn [fst snd] in Hc, Hcf. subst err.
  rewrite Hb. replace (if _ <? _ then _ else _) with (@None io_error) by (case_match; [by rewrite Hf | done]). rewrite Hf.
  pose proof (publish_succeeds P dir (filename resolved) (padded body (rs_fullSize resolved)) st1 (Hf (filename resolved))) as Hp.
  destruct (publishImmutableArtifact _ _ _ _ st1) as [st2 r]. cbn [snd] in *. rewrite Hp; [done|].
  intros (x & Hx & Hs). apply Hw. exists x. by rewrite <- Hcf.
Qed.

(** Where the artifact of a request goes, and what goes there. *)
Abbreviation place r := (dir, (stored_file r).1).

Lemma copy_one i r a : sparse_of r a -> fault P dir (stored_name (r_artifact r)) Copy = None ->
  copyBundleArtifactBody P dir (sp_bytes a) (resolved_of i r a) = inl (sp_bytes a).
Proof.
  intros Hm Hf. unfold copyBundleArtifactBody, copyUploadBody. cbn [rs_sendSize filename resolved_of]. rewrite Hf.
  rewrite take_ge by (unfold blen; lia). by rewrite Z.eqb_refl.
Qed.

Lemma store_one i r a st st' e : sparse_of r a -> storeBundleArtifact P dir (resolved_of i r a) (sp_bytes a) st = (st', e) ->
  keeps st st' /\ (forall key, key <> place r -> files st' !! key = files st !! key)
  /\ (e = None -> landed P st st' (place r) (stored_file r).2).
Proof.
  intros Hm H. apply store_spec in H as (Hk & Ho & Hl). split; [done|]. split; [done|]. intros He.
  destruct (Hl He) as (body & Hb & Hland). unfold copyBundleArtifactBody in Hb. cbn [rs_sendSize filename resolved_of] in Hb.
  rewrite take_ge in Hb by (unfold blen; lia). rewrite Z.eqb_refl in Hb. cbn [negb] in Hb. destruct (copyUploadBody _ _ _ _ _); [done|].
  injection Hb as <-. pose proof (makeSparseArtifact_spec _ _ Hm) as (_ & _ & _ & Hp & _). cbn [rs_fullSize resolved_of filename] in Hland.
  rewrite Hp in Hland. exact Hland.
Qed.

Lemma store_all reqs arts f st st' x : Forall2 sparse_of reqs arts -> NoDup (request_names reqs) ->
  storeArtifacts P dir (imap (fun i ra => resolved_of (f i) ra.1 ra.2) (zip reqs arts)) (concat (map sp_bytes arts)) st = (st', x) ->
  (forall key, (forall q, q ∈ reqs -> key <> place q) -> files st' !! key = files st !! key)
  /\ (x = inl tt -> Forall (fun q => landed P st st' (place q) (stored_file q).2) reqs).
Proof.
  intros Hf. revert f st. induction Hf as [|r a reqs arts Hr Hf IH]; intros f st Hnd H; cbn [zip zip_with imap storeArtifacts map concat] in H.
  { destruct (_ || _); injection H as <- <-; by split. }
  apply NoDup_cons in Hnd as [Hn Hnd]. unfold hbind, storedArtifact in H. cbn [fst snd] in H.
  replace (Z.to_nat (rs_sendSize (resolved_of (f 0%nat) r a))) with (length (sp_bytes a)) in H by (cbn [rs_sendSize resolved_of]; unfold blen; lia).
  rewrite take_app_length, drop_app_length in H. destruct (storeBundleArtifact _ _ _ _ st) as [st1 e] eqn:Hs.
  destruct (store_one _ _ _ _ _ _ Hr Hs) as (_ & Ho & Hl). destruct e as [[m|m]|].
  1, 2: injection H as <- <-; split; [|done]; intros key Hkey; apply Ho, Hkey; left.
  destruct (IH (fun i => f (S i)) st1 Hnd H) as (Ho' & Hl'). split.
  - intros key Hkey. rewrite Ho' by (intros q Hq; apply Hkey; by right). apply Ho, Hkey. left.
  - intros Hx. assert (Hfresh : forall q, q ∈ reqs -> place q <> place r).
    { intros q Hq [= He]. apply Hn. rewrite <- He. apply list_elem_of_fmap. by exists q. }
    apply Forall_cons. split.
    + eapply landed_post; [|by apply Hl]. apply Ho'. intros q Hq He. by apply (Hfresh q).
    + apply Forall_forall. intros q Hq. eapply landed_pre; [|exact (proj1 (Forall_forall _ _) (Hl' Hx) q Hq)]. by apply Ho, Hfresh.
Qed.

Lemma store_all_succeeds reqs arts f st : dir <> "" -> (forall name op, fault P dir name op = None) ->
  Forall2 sparse_of reqs arts -> NoDup (request_names reqs) ->
  Forall (fun q => ~ in_the_way P st (place q) (stored_file q).2) reqs ->
  (storeArtifacts P dir (imap (fun i ra => resolved_of (f i) ra.1 ra.2) (zip reqs arts)) (concat (map sp_bytes arts)) st).2 = inl tt.
Proof.
  intros Hd Hfault Hf. revert f st. induction Hf as [|r a reqs arts Hr Hf IH]; intros f st Hnd Hw.
  { cbn. by rewrite Hfault. }
  cbn [zip zip_with imap storeArtifacts map concat]. apply NoDup_cons in Hnd as [Hn Hnd]. apply Forall_cons in Hw as [Hw Hws].
  unfold hbind, storedArtifact. cbn [fst snd].
  replace (Z.to_nat (rs_sendSize (resolved_of (f 0%nat) r a))) with (length (sp_bytes a)) by (cbn [rs_sendSize resolved_of]; unfold blen; lia).
  rewrite take_app_length, drop_app_length. pose proof (makeSparseArtifact_spec _ _ Hr) as (_ & _ & _ & Hp & _).
  pose proof (store_succeeds (resolved_of (f 0%nat) r a) (sp_bytes a) (sp_bytes a) st Hd Hfault (copy_one _ _ _ Hr (Hfault _ _))) as Hs.
  destruct (storeBundleArtifact _ _ _ _ st) as [st1 e] eqn:Hst. cbn [snd] in Hs. rewrite Hs.
  2:{ cbn [filename rs_fullSize resolved_of]. rewrite Hp. exact Hw. }
  destruct (store_one _ _ _ _ _ _ Hr Hst) as (_ & Ho & _). apply (IH (fun i => f (S i)) st1 Hnd).
  apply Forall_forall. intros q Hq (x & Hx & Hsx). apply (proj1 (Forall_forall _ _) Hws q Hq). exists x. split; [|done].
  rewrite <- Hx. symmetry. apply Ho. intros [= He]. apply Hn. rewrite <- He. apply list_elem_of_fmap. by exists q.
Qed.
End stored.

Lemma prepareBundle_Ok first u requests meta payloads :
  prepareBundle first u requests = Ok (meta, payloads) ->
  exists arts, Forall2 sparse_of requests arts /\ payloads = map sp_bytes arts
    /\ m_artifacts meta = imap (fun i ra => metaArtifact i ra.1 ra.2) (zip requests arts)
    /\ deal_id meta = Some (num_int (NumberOf (r_dealId first)))
    /\ manifest_root meta = normalized (Some (r_manifestRoot first))
    /\ previous_manifest_root meta = normalized (r_previousManifestRoot first)
    /\ upload_generation meta = normalized (r_uploadGeneration first).
Proof.
  unfold prepareBundle. intros H. ok_step H. apply bind_Ok in H as (x & _ & H).
  apply bind_Ok in H as (arts & Ha & H). injection H as <- <-. exists arts.
  split; [by apply mapR_Ok|done].
Qed.

(** ** The handler *)

Lemma storedArtifact_preserves P dir resolved src : preserves (storedArtifact P dir resolved src).
Proof.
  intros st. unfold storedArtifact. destruct (storeBundleArtifact _ _ _ _ st) as [st1 e] eqn:H. by apply store_spec in H as (Hk & _).
Qed.
Lemma storedArtifact_refuses P dir resolved src : refuses (storedArtifact P dir resolved src).
Proof.
  intros st r. unfold storedArtifact. destruct (storeBundleArtifact _ _ _ _ st) as [st1 [[m|m]|]]; cbn [snd]; [by intros [= <-] ..|done].
Qed.
#[local] Hint Resolve storedArtifact_preserves storedArtifact_refuses : handlers.

Lemma storeArtifacts_safe P dir l : forall r, preserves (storeArtifacts P dir l r) /\ refuses (storeArtifacts P dir l r).
Proof.
  induction l as [|resolved l IH]; intros r; cbn [storeArtifacts]; cbv zeta; split; handler_steps; apply IH.
Qed.
Lemma storeParts_safe P dir artifacts broken parts :
  forall received, preserves (storeParts P dir artifacts broken received parts) /\ refuses (storeParts P dir artifacts broken received parts).
Proof.
  induction parts as [|[formName data] parts IH]; intros received; cbn [storeParts]; cbv zeta; split; handler_steps; apply IH.
Qed.

(** Whatever is posted, no file that is stored is replaced. *)
Lemma bundle_keeps P unmarshal multipart r st : keeps st (SpUploadBundle P unmarshal multipart r st).1.
Proof.
  apply served_keeps. unfold readRequest. cbv zeta. handler_steps; first [apply storeArtifacts_safe | apply storeParts_safe].
Qed.

(** The bundle the provider can accept: names of distinct files, of accepted sizes, a
    description its decoder reads back, a root that parses, and a deal at the root that
    the bundle builds on. *)
Record acceptable (P : provider) (unmarshal : bytes -> option BundleMeta) (requests : list UploadTransportRequest)
    (meta : BundleMeta) (dealID : Z) (root : ManifestRoot) : Prop := {
  acc_some : requests <> [];
  acc_count : Z.of_nat (length requests) <= spUploadBundleMaxArtifacts;
  acc_sizes : Forall storable requests;
  acc_names : NoDup (request_names requests);
  acc_length : 0 < blen (TextEncoder_encode (metaJson meta)) <= 2 ^ 20;
  acc_json : unmarshal (TextEncoder_encode (metaJson meta)) = Some meta;
  acc_generation : validateSpUploadBundleGenerationID (upload_generation meta) = Ok tt;
  acc_deal : deal_id meta = Some dealID;
  acc_root : parseManifestRoot (TrimSpace (manifest_root meta)) = Ok root;
  acc_previous : validatePolyfsUploadPreviousManifestRoot P dealID (TrimSpace (previous_manifest_root meta)) = None }.

(** The request that a post makes. *)
Definition bundle_request (p : BundlePost) : http_request :=
  {| rq_method := "POST"; rq_headers := [("Content-Type", bp_contentType p)]; rq_body := bp_body p |}.

(** The work that is left of an acceptable bundle. *)
Lemma bundle_run P unmarshal multipart first u requests meta payloads dealID root url arts :
  prepareBundle first u requests = Ok (meta, payloads) -> acceptable P unmarshal requests meta dealID root ->
  Forall2 sparse_of requests arts -> payloads = map sp_bytes arts ->
  m_artifacts meta = imap (fun i ra => metaArtifact i ra.1 ra.2) (zip requests arts) -> test_fault P = false ->
  let dir := dealScopedDir P dealID root in
  SpUploadBundle P unmarshal multipart
    (bundle_request {| bp_url := url; bp_contentType := BUNDLE_V2_CONTENT_TYPE; bp_body := bundleBody meta payloads |})
  = served (
      run! _ := leased P [dir] in
      run! _ := attempt (ensureUploadRootDir P 0 dir) 500 "failed to create slab directory" in
      storeArtifacts P dir (imap (fun i ra => resolved_of i ra.1 ra.2) (zip requests arts)) (concat (map sp_bytes arts))).
Proof.
  intros Hprep [] Hf -> Harts Ht dir. unfold SpUploadBundle, preflight, readRequest. cbn [rq_method rq_body bundle_request bp_body].
  rewrite bool_decide_eq_false_2, Ht by done. change (header (bundle_request _) "Content-Type") with BUNDLE_V2_CONTENT_TYPE.
  change (String.prefix _ BUNDLE_V2_CONTENT_TYPE) with true. cbv iota. unfold bundleBody.
  rewrite (read_header _ _ _ meta) by done. pose proof (Forall2_length _ _ _ Hf) as Hl.
  assert (Hlen : length (m_artifacts meta) = length requests) by (rewrite Harts, length_imap, length_zip_with; lia).
  assert (Hroot : TrimSpace (manifest_root meta) <> "") by (intros He; rewrite He in acc_root0; discriminate acc_root0).
  unfold hbind at 1, hret at 1. unfold hbind at 1, or_text at 1. unfold hbind at 1, hret at 1 2. cbn [fst snd].
  rewrite acc_deal0, (bool_decide_eq_false_2 _ Hroot). rewrite bool_decide_eq_false_2 by (intros He; rewrite He in Hlen; by destruct requests).
  rewrite (proj2 (Z.ltb_ge _ _)) by (rewrite Hlen; lia). rewrite acc_generation0, acc_root0.
  unfold validatePrevious. rewrite acc_previous0, Harts.
  assert (Hr := resolve_all requests arts 0 [] [] Hf acc_sizes0 acc_names0 (fun n _ Hn => not_elem_of_nil n Hn)
    (fun p Hp => False_rect _ (not_elem_of_nil p Hp))). cbn [Nat.add] in Hr. rewrite Hr. reflexivity.
Qed.

(** What of the bundle is stored in [dir]. *)
Definition delivered (P : provider) (dir : string) (requests : list UploadTransportRequest) (st st' : store) : Prop :=
  Forall (fun r => landed P st st' (dir, (stored_file r).1) (stored_file r).2) requests.

Lemma acceptable_served P dir reqs arts st st' r : Forall2 sparse_of reqs arts -> NoDup (request_names reqs) -> dir <> "" ->
  served (
    run! _ := leased P [dir] in
    run! _ := attempt (ensureUploadRootDir P 0 dir) 500 "failed to create slab directory" in
    storeArtifacts P dir (imap (fun i ra => resolved_of i ra.1 ra.2) (zip reqs arts)) (concat (map sp_bytes arts))) st = (st', r) ->
  (rp_status r = 200 -> delivered P dir reqs st st')
  /\ (lease P [dir] = None -> (forall name op, fault P dir name op = None) ->
      Forall (fun q => ~ in_the_way P st (dir, (stored_file q).1) (stored_file q).2) reqs -> rp_status r = 200).
Proof.
  intros Hf Hnd Hd H. split.
  - intros Hr. apply served_ok in H; [|handler_steps; apply storeArtifacts_safe|by rewrite Hr].
    unfold leased in H. destruct (lease P [dir]); [discriminate H|]. unfold hbind, hret, attempt in H.
    pose proof (ensure_files P 0 dir st) as He. destruct (ensureUploadRootDir P 0 dir st) as [st1 [e|]]; [discriminate H|]. cbn [fst] in He.
    apply (store_all P dir reqs arts (fun i => i)) in H as (_ & Hl); [|done|done].
    eapply Forall_impl; [exact (Hl eq_refl)|]. intros q Hq. eapply landed_pre; [by rewrite He | exact Hq].
  - intros Hl Hfault Hw. unfold served, leased in H. rewrite Hl in H. unfold hbind, hret, attempt in H.
    pose proof (ensure_files P 0 dir st) as He. pose proof (ensure_succeeds P 0 dir st Hd Hfault) as Hn.
    destruct (ensureUploadRootDir P 0 dir st) as [st1 e]. cbn [fst snd] in *. subst e.
    pose proof (store_all_succeeds P dir reqs arts (fun i => i) st1 Hd Hfault Hf Hnd) as Hs.
    destruct (storeArtifacts _ _ _ _ st1) as [st2 x]. cbn [snd] in Hs. rewrite Hs in H by (unfold in_the_way in *; by rewrite He).
    by injection H as _ <-.
Qed.

(** ** Theorems *)

(** C25: What a bundle delivers.  Let the client post a bundle that the provider can accept: 1
    to 4096 artifacts of distinct names and of the sizes of their kinds, a description of at
    most 1 MiB that the provider's decoder reads back, with a valid generation and a root
    that parses, and the deal at the root that the bundle builds on.  Whatever fails, no
    file that is stored changes; when the reply is success, then every artifact is stored in
    the directory of the generation, with the bytes it was given and zeros up to the
    declared size, unless there was a file with its name, of the same length and digest;
    and the reply is success when nothing fails and no file of another length or digest is
    in the way. *)
Theorem bundle_delivers P unmarshal multipart st fetch first requests url meta payloads dealID root :
  u_bundle (targetUrls (r_target first)) = Some url -> url <> "" ->
  prepareBundle first (Some url) (first :: requests) = Ok (meta, payloads) ->
  acceptable P unmarshal (first :: requests) meta dealID root ->
  let dir := dealScopedDir P dealID root in
  exists p st' r, (sendBundle fetch (first :: requests)).1 = [p] /\ bp_url p = url
    /\ SpUploadBundle P unmarshal multipart (bundle_request p) st = (st', r)
    /\ keeps st st'
    /\ (rp_status r = 200 -> delivered P dir (first :: requests) st st')
    /\ (test_fault P = false -> lease P [dir] = None -> (forall name op, fault P dir name op = None) ->
        Forall (fun q => ~ in_the_way P st (dir, (stored_file q).1) (stored_file q).2) (first :: requests) -> rp_status r = 200).
Proof.
  intros Hu Hne Hp Ha dir. unfold sendBundle. rewrite Hu. replace (truthy (Some url)) with true by by destruct url.
  cbn [negb]. rewrite Hp. cbn [fst default from_option id]. eexists _, _, _. split; [reflexivity|]. split; [done|].
  split; [apply surjective_pairing|]. split; [apply bundle_keeps|].
  destruct (prepareBundle_Ok _ _ _ _ _ Hp) as (arts & Hf & Hpay & Harts & _).
  destruct (test_fault P) eqn:Ht.
  { unfold SpUploadBundle, preflight, served. rewrite Ht. by split. }
  rewrite (bundle_run P unmarshal multipart first (Some url) (first :: requests) meta payloads dealID root url arts) by done.
  destruct (acceptable_served P dir (first :: requests) arts st _ _ Hf (acc_names _ _ _ _ _ _ Ha) ltac:(unfold dir, dealScopedDir; by destruct (uploadDir P))
    (surjective_pairing _)) as [H1 H2]. by split.
Qed.

Definition sample_target : UploadTarget :=
  {| baseUrl := "http://sp/"; mduPath := "/sp/upload_mdu"; manifestPath := "/sp/upload_manifest";
     shardPath := Some "/sp/upload_shard"; bundlePath := Some "/sp/upload_bundle"; label := None |}.
Definition sample_key : string := "abababababababababababababababababababababababababababababababab".
Definition sample_shard (i : Z) (data : bytes) : UploadTransportRequest :=
  {| r_dealId := "7"; r_manifestRoot := " 0x" +:+ sample_key +:+ " "; r_previousManifestRoot := None;
     r_uploadGeneration := Some "gen-1"; r_target := sample_target;
     r_artifact := {| a_kind := Kshard; a_bytes := data; a_fullSize := Some (int 4);
                      a_index := Some (int i); a_slot := Some (int 2) |} |}.
Definition sample_requests : list UploadTransportRequest := [sample_shard 1 [5; 0]; sample_shard 2 []].
Definition sample_meta : BundleMeta :=
  {| deal_id := Some 7; manifest_root := "0x" +:+ sample_key; previous_manifest_root := "";
     upload_generation := "gen-1";
     m_artifacts := [ {| part := "artifact_00"; m_kind := "shard"; mdu_index := Some 1;
                         slot := Some 2; full_size := 4; send_size := 1 |};
                      {| part := "artifact_01"; m_kind := "shard"; mdu_index := Some 2;
                         slot := Some 2; full_size := 4; send_size := 1 |} ] |}.
Definition sample_unmarshal (b : bytes) : option BundleMeta :=
  if bool_decide (b = TextEncoder_encode (metaJson sample_meta)) then Some sample_meta else None.
Definition sample_root : ManifestRoot := {| Bytes := replicate 32 171; Canonical := "0x" +:+ sample_key; Key := sample_key |}.

Lemma bundle_delivers_witness :
  exists p st' r, (sendBundle (fun _ => Replied 200 None) sample_requests).1 = [p]
    /\ SpUploadBundle sound_provider sample_unmarshal (fun _ => None) (bundle_request p) empty_store = (st', r)
    /\ rp_status r = 200
    /\ files st' !! ("uploads/deals/7/" +:+ sample_key, "mdu_1_slot_2.bin") = Some (Regular [5; 0; 0; 0])
    /\ files st' !! ("uploads/deals/7/" +:+ sample_key, "mdu_2_slot_2.bin") = Some (Regular [0; 0; 0; 0]).
Proof.
  destruct (bundle_delivers sound_provider sample_unmarshal (fun _ => None) empty_store (fun _ => Replied 200 None) (sample_shard 1 [5; 0])
    [sample_shard 2 []] "http://sp/sp/upload_bundle" sample_meta [[5]; [0]] 7 sample_root)
    as (p & st' & r & Hp & _ & Hr & _ & Hd & Hok); [vm_compute; reflexivity | discriminate | vm_compute; reflexivity | |].
  - constructor.
    + discriminate.
    + vm_compute. discriminate.
    + repeat constructor; discriminate.
    + refine (bool_decide_unpack _ _). exact I.
    + vm_compute. split; [reflexivity | discriminate].
    + vm_compute. reflexivity.
    + vm_compute. reflexivity.
    + reflexivity.
    + vm_compute. reflexivity.
    + vm_compute. reflexivity.
  - assert (H200 : rp_status r = 200).
    { apply Hok; [reflexivity | reflexivity | reflexivity |]. apply Forall_forall. intros q _ (e & He & _). discriminate He. }
    pose proof (Hd H200) as H. apply Forall_cons in H as [H1 [H2 _]%Forall_cons].
    exact (ex_intro _ p (ex_intro _ st' (ex_intro _ r (conj Hp (conj Hr (conj H200 (conj H1 H2))))))).
Defined.

(** The deal a bundle names.  The description carries [Number(dealId)]: the double
    nearest to the deal's number, which is the deal itself up to 2^53 - 1. *)
Theorem bundle_deal_id first requests url meta payloads :
  canonical_decimal (r_dealId first) = true -> parse_decimal (r_dealId first) < 2 ^ 64 ->
  prepareBundle first url requests = Ok (meta, payloads) ->
  deal_id meta = Some (round53 (parse_decimal (r_dealId first)))
  /\ (safe (parse_decimal (r_dealId first)) -> deal_id meta = Some (parse_decimal (r_dealId first))).
Proof.
  intros Hc Hlt (arts & _ & _ & _ & Hd & _)%prepareBundle_Ok.
  destruct (NumberOf_decimal (r_dealId first)) as (_ & _ & Hn);
    [by apply canonical_all_digits | by intros He; rewrite He in Hc | |].
  { etransitivity; [exact Hlt|]. done. }
  rewrite Hd, Hn. split; [done|]. intros Hs. by rewrite round53_exact.
Qed.

Lemma bundle_deal_id_witness :
  deal_id sample_meta = Some 7 /\ round53 (parse_decimal "9007199254740993") = 9007199254740992.
Proof.
  split; [|reflexivity].
  apply (bundle_deal_id (sample_shard 1 [5; 0]) sample_requests
    (u_bundle (targetUrls sample_target)) sample_meta [[5]; [0]]);
    [reflexivity | reflexivity | vm_compute; reflexivity | vm_compute; split; discriminate].
Defined.
