(* ===== verification/Uploads.v ===== *)
(** * What the upload methods promise

    Theorems about [uploadDirect], [uploadStriped], [uploadStripedSlot] and the
    pools of [Engine] (src/polystore-website/src/lib/upload/engine.ts): which
    artifacts an upload that reports success has delivered, what the progress
    steps show, how tasks are grouped into bundles, that runs end, and that the
    transport statistics are exact. *)

From Stdlib Require Import Ascii.
From S2P Require Import Prelude JsNumber JsBytes JsString JsMap Sparse Pool Engine.
Local Open Scope Z_scope.

(** ** Specification: the requests an upload must deliver *)

Section required.
Context (dealId manifestRoot : string) (previous : option string).

Definition required (target : UploadTarget) (a : SparseArtifactInput) : UploadTransportRequest :=
  {| r_dealId := dealId; r_manifestRoot := manifestRoot; r_previousManifestRoot := previous;
     r_uploadGeneration := None; r_target := target; r_artifact := a |}.
Definition required_mdu (target : UploadTarget) (mdu : PreparedMdu) : UploadTransportRequest :=
  required target (artifact Kmdu (Some (mdu_index mdu)) None (mdu_data mdu) (mdu_fullSize mdu)).
Definition required_manifest (blob : bytes) (full : option number) (target : UploadTarget)
    : UploadTransportRequest :=
  required target (artifact Kmanifest None None blob full).
Definition required_shard (target : UploadTarget) (index slot : Z) (shard : PreparedShard)
    : UploadTransportRequest :=
  required target (artifact Kshard (Some index) (Some slot) (shard_data shard) (shard_fullSize shard)).
End required.

(** Every MDU, then the manifest. *)
Definition direct_requests (input : DirectUploadInput) (blob : bytes) : list UploadTransportRequest :=
  map (required_mdu (d_dealId input) (d_manifestRoot input) (d_previousManifestRoot input)
         (d_target input)) (d_mdus input)
  ++ [required_manifest (d_dealId input) (d_manifestRoot input) (d_previousManifestRoot input)
        blob (d_manifestBlobFullSize input) (d_target input)].

(** Every metadata MDU and the manifest to every metadata target; every shard to the
    target of its slot. *)
Definition striped_shards (input : StripedUploadInput) (s : PreparedShardSet)
    : list UploadTransportRequest :=
  omap (fun slot =>
      match shardTarget input slot, shards s !! slot with
      | Some target, Some shard =>
          Some (required_shard (i_dealId input) (i_manifestRoot input) (i_previousManifestRoot input)
                  target (set_index s) (Z.of_nat slot) shard)
      | _, _ => None
      end) (seq 0 (length (shards s))).
Definition striped_requests (input : StripedUploadInput) (blob : bytes) : list UploadTransportRequest :=
  concat (map (fun mdu =>
      map (fun target => required_mdu (i_dealId input) (i_manifestRoot input)
                           (i_previousManifestRoot input) target mdu) (i_metadataTargets input))
    (i_metadataMdus input))
  ++ map (required_manifest (i_dealId input) (i_manifestRoot input) (i_previousManifestRoot input)
            blob (i_manifestBlobFullSize input)) (i_metadataTargets input)
  ++ concat (map (striped_shards input) (default [] (i_shardSets input))).

(** Every shard has a target. *)
Definition targets_present (input : StripedUploadInput) : Prop :=
  forall s slot, s ∈ default [] (i_shardSets input) -> (slot < length (shards s))%nat ->
    shardTarget input slot <> None.

(** ** Keys of steps are injective *)

Lemma includes_char_app a b c :
  includes_char (a +:+ b) c = includes_char a c || includes_char b c.
Proof. induction a as [|x a IH]; cbn; [done|]. rewrite <- orb_assoc. by rewrite <- IH. Qed.

Lemma split_last_bar a b a' b' :
  includes_char b "|" = false -> includes_char b' "|" = false ->
  a +:+ "|" +:+ b = a' +:+ "|" +:+ b' -> a = a' /\ b = b'.
Proof.
  intros Hb Hb'. revert a'. induction a as [|x a IH]; intros [|x' a']; cbn.
  - intros H. injection H as H. by change (b = b') in H.
  - intros H. injection H as _ H. change (b = a' +:+ "|" +:+ b') in H. rewrite H in Hb. by rewrite includes_char_app, orb_true_r in Hb.
  - intros H. injection H as _ H. change (a +:+ "|" +:+ b = b') in H. rewrite <- H in Hb'. by rewrite includes_char_app, orb_true_r in Hb'.
  - intros H. injection H as -> H. by destruct (IH a' H) as [-> ->].
Qed.

Lemma pretty_N_go_bar x s :
  includes_char s "|" = false -> includes_char (pretty_N_go x s) "|" = false.
Proof.
  revert s. induction (N.lt_wf_0 x) as [x _ IH]. intros s Hs.
  destruct (decide (0 < x)%N) as [Hx|Hx].
  - rewrite pretty_N_go_step by done. apply IH; [by apply N.div_lt|]. cbn. rewrite Hs, orb_false_r.
    unfold pretty_N_char. by repeat case_match.
  - assert (x = 0%N) as -> by lia. by rewrite pretty_N_go_0.
Qed.

Lemma pretty_Z_bar (z : Z) : includes_char (pretty z) "|" = false.
Proof.
  assert (HN : forall n : N, includes_char (pretty n) "|" = false).
  { intros n. unfold pretty, pretty_N. case_decide; [done|]. by apply pretty_N_go_bar. }
  unfold pretty, pretty_Z. destruct z; [done|apply HN|]. cbn. apply HN.
Qed.

Lemma orEmpty_bar o : includes_char (orEmpty o) "|" = false.
Proof. destruct o; [apply pretty_Z_bar|done]. Qed.

Lemma orEmpty_inj o o' : orEmpty o = orEmpty o' -> o = o'.
Proof.
  assert (Hne : forall z : Z, pretty z <> "").
  { intros z Hz. change "" with (orEmpty None) in Hz. cbn in Hz.
    assert (String.length (pretty z) = 0%nat) as Hl by by rewrite Hz.
    destruct z as [|p|p]; [done| |done]. change (pretty (Z.pos p)) with (pretty_N_go (N.pos p) "") in Hl.
    rewrite pretty_N_go_step in Hl by lia.
    assert (Hgo : forall n s, (String.length s <= String.length (pretty_N_go n s))%nat).
    { clear. intros n. induction (N.lt_wf_0 n) as [n _ IH]. intros s.
      destruct (decide (0 < n)%N) as [Hx|Hx].
      - rewrite pretty_N_go_step by done. etransitivity; [|apply IH, N.div_lt; lia]. cbn. lia.
      - assert (n = 0%N) as -> by lia. by rewrite pretty_N_go_0. }
    pose proof (Hgo (N.pos p `div` 10)%N (String (pretty_N_char (N.pos p `mod` 10)) "")) as Hg.
    rewrite Hl in Hg. cbn in Hg. lia. }
  destruct o as [z|], o' as [z'|]; cbn; intros H; [|by apply Hne in H|by symmetry in H; apply Hne in H|done].
  f_equal. by apply (inj pretty).
Qed.

Lemma append_assoc (a b c : string) : (a +:+ b) +:+ c = a +:+ b +:+ c.
Proof. induction a as [|x a IH]; [done|]. exact (f_equal (String x) IH). Qed.

Lemma stepKey_inj k t i s k' t' i' s' :
  stepKey k t i s = stepKey k' t' i' s' -> k = k' /\ t = t' /\ i = i' /\ s = s'.
Proof.
  assert (Hassoc : forall kd (tg i s : string),
    kd +:+ "|" +:+ tg +:+ "|" +:+ i +:+ "|" +:+ s
    = (((kd +:+ "|" +:+ tg) +:+ "|" +:+ i) +:+ "|" +:+ s)).
  { intros. by rewrite !append_assoc. }
  unfold stepKey. rewrite !Hassoc. intros H.
  apply split_last_bar in H as [H Hs%orEmpty_inj]; [|apply orEmpty_bar..].
  apply split_last_bar in H as [H Hi%orEmpty_inj]; [|apply orEmpty_bar..].
  destruct k, k'; try discriminate H; (split_and!; [done| |done..]); injection H; exact id.
Qed.

(** ** Grouping *)

Definition task_label (t : UploadTask) : string := targetLabel (r_target (request t)).

(** The [Map] of [groupUploadTasksByTarget] after some tasks. *)
Definition group_map (tasks : list UploadTask) : list (string * list UploadTask) :=
  fold_left (fun bundles task =>
    mset bundles (task_label task) (default [] (mget bundles (task_label task)) ++ [task])) tasks [].

Lemma group_map_app tasks t :
  group_map (tasks ++ [t])
  = mset (group_map tasks) (task_label t) (default [] (mget (group_map tasks) (task_label t)) ++ [t]).
Proof. unfold group_map. by rewrite fold_left_app. Qed.

Lemma group_map_NoDup tasks : NoDup (group_map tasks).*1.
Proof.
  induction tasks as [|t tasks IH] using rev_ind; [constructor|].
  rewrite group_map_app. by apply mset_NoDup.
Qed.

Lemma group_map_get tasks l :
  mget (group_map tasks) l
  = match filter (fun t => task_label t = l) tasks with [] => None | ts => Some ts end.
Proof.
  induction tasks as [|t tasks IH] using rev_ind; [done|].
  rewrite group_map_app, filter_app, filter_cons, filter_nil.
  destruct (decide (task_label t = l)) as [<-|Hne].
  - rewrite mget_mset_eq, IH. by destruct (filter _ tasks).
  - by rewrite mget_mset_ne, app_nil_r by done.
Qed.

Lemma group_map_perm tasks : concat (group_map tasks).*2 ≡ₚ tasks.
Proof.
  induction tasks as [|t tasks IH] using rev_ind; [done|]. rewrite group_map_app.
  assert (Hid : forall m : list (string * list UploadTask), concat m.*2 = concat (id <$> m.*2))
    by (intros; by rewrite list_fmap_id).
  rewrite Hid. destruct (mget (group_map tasks) (task_label t)) as [ts|] eqn:E; cbn [default].
  - rewrite (mset_concat_grow id _ _ ts _ [t]) by done. by rewrite <- Hid, IH.
  - rewrite mset_concat_new by done. by rewrite <- Hid, IH.
Qed.

Lemma group_spec tasks :
  groupUploadTasksByTarget tasks
  = map (fun b => {| b_target := b.1; b_tasks := b.2 |}) (group_map tasks).
Proof. done. Qed.

Lemma group_tasks tasks : map b_tasks (groupUploadTasksByTarget tasks) = (group_map tasks).*2.
Proof. rewrite group_spec. rewrite map_map. done. Qed.

Lemma group_perm tasks : bundle_tasks (groupUploadTasksByTarget tasks) ≡ₚ tasks.
Proof. unfold bundle_tasks. rewrite group_tasks. apply group_map_perm. Qed.

(** Grouping tasks into bundles ([groupUploadTasksByTarget]) is a partition of
    the tasks by target label: the bundles together hold every task exactly
    once, no two bundles have the same label, and a bundle is never empty and
    holds the tasks of its label in their original order. *)
Theorem group_partition tasks :
  let bundles := groupUploadTasksByTarget tasks in
  concat (map b_tasks bundles) ≡ₚ tasks
  /\ NoDup (map b_target bundles)
  /\ Forall (fun b => b_tasks b <> []
       /\ b_tasks b = filter (fun t => targetLabel (r_target (request t)) = b_target b) tasks) bundles.
Proof.
  intros bundles. split; [apply group_perm|]. subst bundles. rewrite group_spec. split.
  - rewrite map_map. apply group_map_NoDup.
  - apply Forall_fmap, Forall_forall. intros [l ts] Hin. cbn [compose b_tasks b_target fst snd].
    apply mget_elem in Hin; [|apply group_map_NoDup]. rewrite group_map_get in Hin.
    unfold task_label in Hin. destruct (filter _ tasks) eqn:E; [done|].
    by injection Hin as <-.
Qed.

(** ** The index of the steps *)

Lemma index_get steps i st :
  NoDup (map step_key steps) -> steps !! i = Some st ->
  mget (indexUploadSteps steps) (step_key st) = Some (Z.of_nat i).
Proof.
  intros Hnd Hi. unfold indexUploadSteps.
  assert (Hgen : forall n, (i < n)%nat -> (n <= length steps)%nat ->
    mget (fold_left (fun indexed i => match steps !! i with
            | Some step => mset indexed (step_key step) (Z.of_nat i) | None => indexed end)
            (seq 0 n) []) (step_key st) = Some (Z.of_nat i)).
  { induction n as [|n IH]; [lia|]. intros Hin Hn. rewrite seq_S, fold_left_app. cbn [fold_left Nat.add].
    destruct (lookup_lt_is_Some_2 steps n) as [sn Hsn]; [lia|]. rewrite Hsn.
    destruct (decide (i = n)) as [->|Hne].
    - assert (sn = st) as -> by congruence. apply mget_mset_eq.
    - rewrite mget_mset_ne; [apply IH; lia|]. intros He. apply Hne.
      eapply NoDup_lookup; [exact Hnd| |];
        change (map step_key steps) with (step_key <$> steps); rewrite list_lookup_fmap.
      + by rewrite Hi.
      + by rewrite Hsn, <- He. }
  apply Hgen; [by eapply lookup_lt_Some|done].
Qed.

(** ** Runs *)

Definition initial (steps : list UploadProgressStep) : Prop :=
  Forall (fun s => st_status s <> complete) steps.

Lemma initial_untouched tp all n steps t :
  initial steps -> untouched tp all (upload_init n steps) t.
Proof.
  intros Hi _ _ s Hl. cbn in Hl. unfold initial in Hi. rewrite Forall_lookup in Hi. by eapply Hi.
Qed.

Lemma result_ok u : ok (result_of u) = true -> truthy (firstError u) = false /\ res_steps (result_of u) = steps u.
Proof. unfold result_of. by destruct (truthy (firstError u)). Qed.

Lemma tasks_delivered op te tasks steps c cont u :
  (0 < c \/ length tasks = 0)%nat -> initial steps ->
  runUploadTasks good op te tasks steps c cont u -> ok (result_of u) = true ->
  Forall (task_done (op && negb (bool_decide (steps = []))) tasks u) tasks.
Proof.
  intros Hc Hi (p & Hr & Hres) Hok%result_ok. apply Forall_forall. intros t Ht.
  apply list_elem_of_lookup in Ht as [i Ht].
  eapply (pool_ok (PoolLaws0 := tasks_laws tasks _ te) _ _ _ Hc _ _ _ i); [|exact Hr|exact Hres|apply Hok| |exact Ht].
  - intros k t' _. by apply initial_untouched.
  - by eapply lookup_lt_Some.
Qed.

Lemma bundles_delivered op te bundles steps c cont u :
  (0 < c \/ length bundles = 0)%nat -> initial steps ->
  runUploadTaskBundles good op te bundles steps c cont u -> ok (result_of u) = true ->
  Forall (task_done (op && negb (bool_decide (steps = []))) (bundle_tasks bundles) u)
    (bundle_tasks bundles).
Proof.
  intros Hc Hi (p & Hr & Hres) Hok%result_ok. apply Forall_concat, Forall_fmap, Forall_forall.
  intros b Hb. apply list_elem_of_lookup in Hb as [i Hb].
  eapply (pool_ok (PoolLaws0 := bundles_laws bundles _ te cont) _ _ _ Hc _ _ _ i);
    [|exact Hr|exact Hres|apply Hok| |exact Hb].
  - intros k b' _. apply Forall_forall. intros t _. by apply initial_untouched.
  - by eapply lookup_lt_Some.
Qed.

Lemma tasks_steps_length answers op te tasks steps0 c cont u :
  runUploadTasks answers op te tasks steps0 c cont u -> length (steps u) = length steps0.
Proof.
  intros (p & Hr & Hres).
  eapply (reach_shared _ _ _ _ _ _ (fun u => length (steps u) = length steps0));
    [| | |exact Hr|exact Hres]; [| |done].
  - intros s i a _ Hl. destruct (tasks !! i) as [t|] eqn:Ht.
    + destruct (start_task_steps tasks (op && negb (bool_decide (steps0 = []))) te s i a t Ht) as (_ & _ & ->).
      case_match; by rewrite ?updateStep_length.
    + unfold start_task. by rewrite Ht.
  - intros s i [] r Hl _. destruct (tasks !! i) as [t|] eqn:Ht.
    + pose proof (react_task_steps tasks (op && negb (bool_decide (steps0 = []))) te s i r t Ht) as Hs.
      destruct r; destruct Hs as (_ & _ & ->); case_match; by rewrite ?updateStep_length.
    + unfold react_task. by rewrite Ht.
Qed.

Lemma fallback_next_steps b k reason u : steps (fallback_next b k reason u).1 = steps u.
Proof. apply (view_steps _ _ (fallback_next_view b k reason u)). Qed.

Lemma react_bundle_length bundles tp te cont u i j r :
  length (steps (react_bundle bundles tp te cont u i j r).1) = length (steps u).
Proof.
  unfold react_bundle. destruct (bundles !! i) as [b|]; [|done]. destruct j as [|k reason].
  - destruct r as [|e]; [|destruct (isBundleUnsupportedError e)]; cbn [fst].
    + destruct (completeBundle_view tp te b i true None (accept (map request (b_tasks b)) u)) as (_ & _ & ->).
      case_match; by rewrite ?update_all_length.
    + unfold fallbackToArtifacts. cbv zeta. by rewrite fallback_next_steps, steps_event.
    + destruct (completeBundle_view tp te b i false (Some (message e)) (set_error (message e) u)) as (_ & _ & ->).
      case_match; by rewrite ?update_all_length.
  - destruct (b_tasks b !! k) as [t|] eqn:Ht; [|unfold fallback_answer; by rewrite Ht].
    destruct (fallback_answer_split tp te cont u i b k reason r t Ht) as (u1 & st & e & Hs & _ & Hn).
    destruct Hn as [-> | [-> _]]; cbn [fst]; rewrite ?fallback_next_steps, Hs;
      case_match; by rewrite ?updateStep_length.
Qed.

Lemma bundles_steps_length answers op te bundles steps0 c cont u :
  runUploadTaskBundles answers op te bundles steps0 c cont u -> length (steps u) = length steps0.
Proof.
  intros (p & Hr & Hres).
  eapply (reach_shared _ _ _ _ _ _ (fun u => length (steps u) = length steps0));
    [| | |exact Hr|exact Hres]; [| |done].
  - intros s i a _ Hl. destruct (bundles !! i) as [b|] eqn:Hb.
    + destruct (start_bundle_steps bundles (op && negb (bool_decide (steps0 = []))) te s i a b Hb) as (_ & _ & ->).
      case_match; by rewrite ?update_all_length.
    + unfold start_bundle. by rewrite Hb.
  - intros s i j r Hl _. by rewrite react_bundle_length.
Qed.

(** What a successful run over [tasks], bundled or not, leaves. *)
Record delivered (op : bool) (tasks : list UploadTask) (n : nat) (u : upload) : Prop := {
  delivered_requests t : t ∈ tasks -> request t ∈ accepted u;
  delivered_length : length (steps u) = n;
  delivered_steps t : op = true -> NoDup (map stepIndex tasks) -> t ∈ tasks ->
    step_done u (stepIndex t) }.

Lemma task_done_delivered op (steps0 : list UploadProgressStep) tasks all u :
  all ≡ₚ tasks -> length (steps u) = length steps0 ->
  Forall (task_done (op && negb (bool_decide (steps0 = []))) all u) all ->
  delivered op tasks (length steps0) u.
Proof.
  intros Hp Hl Hd. rewrite Forall_forall in Hd. constructor.
  - intros t Ht. apply Hd. by rewrite Hp.
  - done.
  - intros t -> Hnd Ht. destruct (decide (steps0 = [])) as [->|Hne].
    + intros s _ Hs%lookup_lt_Some. cbn in Hl. lia.
    + apply Hd; [by rewrite Hp|]. split; [by rewrite bool_decide_eq_false_2|].
      change (map stepIndex all) with (stepIndex <$> all). by rewrite Hp.
Qed.

Lemma run_delivers op te run tasks steps0 c cont r ou :
  run = RunTasks tasks steps0 c cont \/ run = RunBundles (groupUploadTasksByTarget tasks) steps0 c cont ->
  (0 < c \/ tasks = [])%nat -> initial steps0 ->
  upload_result good op te run r ou -> ok r = true ->
  exists u, ou = Some u /\ res_steps r = steps u /\ delivered op tasks (length steps0) u.
Proof.
  intros [-> | ->] Hc Hi Hr Hok; inversion Hr as [|????? Hrun|????? Hrun]; subst; exists u;
    (split; [done|]); (split; [by apply result_ok|]).
  - apply task_done_delivered with (all := tasks); [done| |].
    + by eapply tasks_steps_length.
    + eapply tasks_delivered; [|done|exact Hrun|done]. destruct Hc as [?| ->]; [by left|by right].
  - apply task_done_delivered with (all := bundle_tasks (groupUploadTasksByTarget tasks));
      [apply group_perm| |].
    + by eapply bundles_steps_length.
    + eapply bundles_delivered; [|done|exact Hrun|done]. destruct Hc as [?| ->]; [by left|by right].
Qed.

(** The index resolves the steps to their own positions, when their keys are distinct. *)
Definition resolve_step (steps : list UploadProgressStep) (s : UploadProgressStep) : Z :=
  resolveStepIndex true (indexUploadSteps steps) (st_kind s) (st_target s) (st_index s) (st_slot s).

Lemma resolved_keys steps :
  NoDup (map step_key steps) ->
  map (resolve_step steps) steps = map Z.of_nat (seq 0 (length steps)).
Proof.
  intros Hnd. apply list_eq. intros i.
  change (map ?f steps) with (f <$> steps).
  change (map Z.of_nat (seq 0 (length steps))) with (Z.of_nat <$> seq 0 (length steps)).
  rewrite !list_lookup_fmap. destruct (steps !! i) as [s|] eqn:Hs.
  - apply lookup_lt_Some in Hs as Hi. rewrite lookup_seq_lt by done. cbn.
    unfold resolve_step, resolveStepIndex. fold (step_key s). by rewrite (index_get steps i s Hnd Hs).
  - apply lookup_ge_None in Hs. rewrite (proj2 (lookup_ge_None _ _)); [done|].
    by rewrite length_seq.
Qed.

Lemma all_complete op tasks n u :
  delivered op tasks n u -> op = true -> map stepIndex tasks ≡ₚ map Z.of_nat (seq 0 n) ->
  Forall (fun s => st_status s = complete) (steps u).
Proof.
  intros [_ Hl Hs] Hop Hp. apply Forall_lookup. intros i s Hi.
  apply lookup_lt_Some in Hi as Hlt.
  assert (Z.of_nat i ∈ map stepIndex tasks) as Hin.
  { rewrite Hp. apply list_elem_of_fmap_2, elem_of_seq. lia. }
  apply list_elem_of_fmap in Hin as (t & Ht & Hin).
  apply (Hs t Hop); [|done|lia|].
  - rewrite Hp. apply NoDup_fmap; [apply _|apply NoDup_seq].
  - by rewrite <- Ht, Nat2Z.id.
Qed.

Lemma step_keys_NoDup steps :
  NoDup (map (fun s => (st_kind s, st_target s, st_index s, st_slot s)) steps) -> NoDup (map step_key steps).
Proof.
  intros Hnd. apply NoDup_fmap_2_strong; [|by apply NoDup_fmap_1 in Hnd].
  intros s s' Hs Hs' He. apply stepKey_inj in He as (? & ? & ? & ?).
  eapply NoDup_map_inj; [exact Hnd|done|done|]. cbn. congruence.
Qed.

Lemma manifest_present_Some blob bs :
  manifest_present blob = Some bs <-> blob = Some bs /\ bs <> [].
Proof.
  unfold manifest_present. destruct blob as [b|]; [|by split; [|intros [? _]]].
  destruct (Z.eqb_spec (blen b) 0) as [He|He].
  - unfold blen in He. destruct b; [by split; [|intros [[= <-] ?]]|]. cbn in He. lia.
  - split; [intros [= <-]; split; [done|]; by intros ->|by intros [[= <-] _]].
Qed.

(** The MDUs and the manifest to one target: a direct upload, or the metadata of one
    slot. *)
Section single_target.
Context (resolve : SparseArtifactKind -> string -> option Z -> option Z -> Z).
Context (dealId manifestRoot : string) (previous : option string) (target : UploadTarget).
Context (mdus : list PreparedMdu) (blob : bytes) (full : option number).

Definition single_requests : list UploadTransportRequest :=
  map (required_mdu dealId manifestRoot previous target) mdus
  ++ [required_manifest dealId manifestRoot previous blob full target].
Definition single_tasks : list UploadTask :=
  map (fun mdu => {| stepIndex := resolve Kmdu (targetLabel target) (Some (mdu_index mdu)) None;
                     request := required_mdu dealId manifestRoot previous target mdu |}) mdus
  ++ [{| stepIndex := resolve Kmanifest (targetLabel target) None None;
         request := required_manifest dealId manifestRoot previous blob full target |}].
Definition single_steps (totalSteps : Z) : list UploadProgressStep :=
  map (mdu_step (targetLabel target) totalSteps) mdus ++ [manifest_step (targetLabel target) totalSteps].

Lemma single_tasks_requests : map request single_tasks = single_requests.
Proof. unfold single_tasks, single_requests. by rewrite map_app, map_map. Qed.

Lemma single_tasks_steps totalSteps :
  map stepIndex single_tasks
  = map (fun s => resolve (st_kind s) (st_target s) (st_index s) (st_slot s)) (single_steps totalSteps).
Proof. unfold single_tasks, single_steps. by rewrite !map_app, !map_map. Qed.

Lemma single_steps_initial totalSteps : initial (single_steps totalSteps).
Proof.
  apply Forall_app. split; [by apply Forall_fmap, Forall_true|by apply Forall_singleton].
Qed.

Lemma single_steps_keys totalSteps :
  NoDup (map mdu_index mdus) ->
  NoDup (map (fun s => (st_kind s, st_target s, st_index s, st_slot s)) (single_steps totalSteps)).
Proof.
  intros Hnd. unfold single_steps. rewrite map_app, map_map. apply NoDup_app. split_and!.
  - apply NoDup_fmap_2_strong; [|by apply NoDup_fmap_1 in Hnd].
    intros m m' Hm Hm' He. eapply NoDup_map_inj; [exact Hnd|done|done|]. cbn in He. congruence.
  - intros x (m & -> & _)%list_elem_of_fmap. by intros ?%list_elem_of_singleton.
  - apply NoDup_singleton.
Qed.
End single_target.

(** ** A direct upload *)

(** A direct upload ([uploadDirect], through bundles or artifact by artifact,
    whatever the order in which the provider answers) that reports success has
    delivered every MDU and the manifest: the provider accepted each of those
    requests.  When the caller follows the progress and the MDUs have distinct
    indices, every step it is shown last is complete.  Rejections are assumed to
    carry a message. *)
Theorem uploadDirect_delivers sendBundle onProgress onTaskEvent concurrency input r u :
  0 < concurrency ->
  upload_result good onProgress onTaskEvent
    (uploadDirect sendBundle onProgress concurrency input).2 r u ->
  ok r = true ->
  exists blob final, d_manifestBlob input = Some blob /\ blob <> [] /\ u = Some final
    /\ (forall q, q ∈ direct_requests input blob -> q ∈ accepted final)
    /\ (onProgress = true -> NoDup (map mdu_index (d_mdus input)) ->
        length (res_steps r) = S (length (d_mdus input))
        /\ Forall (fun s => st_status s = complete) (res_steps r)).
Proof.
  intros Hc Hr Hok. unfold uploadDirect, first_steps in Hr.
  destruct (manifest_present (d_manifestBlob input)) as [blob|] eqn:Hm.
  2: { unfold fail_with in Hr. destruct onProgress; inversion Hr; subst; done. }
  apply manifest_present_Some in Hm as [Hm Hne]. exists blob.
  set (steps0 := if onProgress then buildDirectUploadSteps input else []) in *.
  assert (initial steps0) as Hi.
  { subst steps0. destruct onProgress; [apply single_steps_initial|constructor]. }
  set (tasks := single_tasks (resolveStepIndex onProgress (indexUploadSteps steps0)) (d_dealId input)
    (d_manifestRoot input) (d_previousManifestRoot input) (d_target input) (d_mdus input) blob
    (d_manifestBlobFullSize input)).
  assert (exists c run, (0 < c)%nat
    /\ (run = RunTasks tasks steps0 c false \/ run = RunBundles (groupUploadTasksByTarget tasks) steps0 c false)
    /\ upload_result good onProgress onTaskEvent run r u) as (c & run & Hc' & Hrun & Hres).
  { subst tasks steps0. destruct onProgress, sendBundle; cbn [snd] in Hr;
      eexists _, _; (split; [|split; [|exact Hr]]); [|right; reflexivity| |left; reflexivity
        | |right; reflexivity| |left; reflexivity]; lia. }
  destruct (run_delivers _ _ _ _ _ _ _ _ _ Hrun (or_introl Hc') Hi Hres Hok) as (final & -> & Hst & Hd).
  exists final. split_and!; [done..| |].
  - intros q Hq. change (q ∈ single_requests (d_dealId input) (d_manifestRoot input)
      (d_previousManifestRoot input) (d_target input) (d_mdus input) blob (d_manifestBlobFullSize input)) in Hq.
    rewrite <- single_tasks_requests with (resolve := resolveStepIndex onProgress (indexUploadSteps steps0)) in Hq.
    apply list_elem_of_fmap in Hq as (t & -> & ?). by apply (delivered_requests _ _ _ _ Hd).
  - intros -> Hnd. rewrite Hst. split.
    + rewrite (delivered_length _ _ _ _ Hd). subst steps0. unfold buildDirectUploadSteps. cbv zeta.
      rewrite length_app, length_map. cbn. lia.
    + eapply all_complete; [exact Hd|done|]. subst tasks steps0.
      rewrite (single_tasks_steps _ _ _ _ _ _ _ _ (Z.of_nat (length (d_mdus input)) + 1)), <- resolved_keys;
        [done|by apply step_keys_NoDup, single_steps_keys].
Qed.

(** ** A striped upload *)

Lemma concat_seq_lookup {A B} (f : A -> list B) (l : list A) n :
  (length l <= n)%nat ->
  concat (map (fun i => match l !! i with Some x => f x | None => [] end) (seq 0 n)) = concat (map f l).
Proof.
  revert n. induction l as [|x l IH]; intros n Hn.
  - generalize 0%nat as k. induction n as [|n IHn]; intros k; cbn; [done|]. apply IHn. cbn. lia.
  - destruct n as [|n]; cbn in Hn; [lia|]. cbn. rewrite <- (IH n) by lia. f_equal. f_equal.
    rewrite <- fmap_S_seq, <- list_fmap_compose. done.
Qed.

Lemma concat_map_swap {A B C} (f : A -> B -> C) (xs : list A) (ys : list B) :
  concat (map (fun x => map (f x) ys) xs) ≡ₚ concat (map (fun y => map (fun x => f x y) xs) ys).
Proof.
  revert ys. induction xs as [|x xs IH]; intros ys; cbn.
  - induction ys; cbn; done.
  - rewrite IH. clear IH. induction ys as [|y ys IHy]; cbn; [done|].
    rewrite <- IHy. solve_Permutation.
Qed.

Section striped.
Context (trackSteps : bool) (input : StripedUploadInput) (stepIndices : list (string * Z)) (blob : bytes).
Abbreviation deal := (i_dealId input).
Abbreviation root := (i_manifestRoot input).
Abbreviation prev := (i_previousManifestRoot input).
Abbreviation sets := (default [] (i_shardSets input)).

Lemma shard_slots_inr s slot l tasks :
  (forall k, l !! k = shards s !! (slot + k)%nat) ->
  shard_slots trackSteps input stepIndices s slot l = inr tasks ->
  map request tasks
  = omap (fun slot => match shardTarget input slot, shards s !! slot with
      | Some target, Some shard =>
          Some (required_shard deal root prev target (set_index s) (Z.of_nat slot) shard)
      | _, _ => None end) (seq slot (length l))
  /\ forall k, (slot <= k < slot + length l)%nat -> shardTarget input k <> None.
Proof.
  revert slot tasks. induction l as [|shard l IH]; intros slot tasks Hl; cbn [shard_slots].
  - intros [= <-]. split; [done|]. cbn. lia.
  - destruct (shardTarget input slot) as [target|] eqn:Ht; [|done].
    destruct (shard_slots _ _ _ _ (S slot) l) as [e|ts] eqn:E; [done|]. intros [= <-].
    destruct (IH (S slot) ts) as [Hts Hk]; [|done|].
    { intros k. transitivity (shards s !! (slot + S k)%nat); [exact (Hl (S k))|]. f_equal. lia. }
    assert (shards s !! slot = Some shard) as H0.
    { transitivity (shards s !! (slot + 0)%nat); [f_equal; lia|]. symmetry. exact (Hl 0%nat). }
    split.
    + cbn. rewrite Ht, H0, Hts. done.
    + intros k Hb. cbn in Hb. destruct (decide (k = slot)) as [->|]; [congruence|]. apply Hk. lia.
Qed.

Lemma shard_slots_inl s slot l e :
  shard_slots trackSteps input stepIndices s slot l = inl e ->
  (slot <= e < slot + length l)%nat /\ shardTarget input e = None.
Proof.
  revert slot. induction l as [|shard l IH]; intros slot; cbn; [done|].
  destruct (shardTarget input slot) as [target|] eqn:Ht.
  - destruct (shard_slots _ _ _ _ (S slot) l) as [e'|ts] eqn:E; [|done]. intros [= <-].
    apply IH in E as [? ?]. split; [lia|done].
  - intros [= <-]. split; [lia|done].
Qed.

(** What the metadata part of a round sends. *)
Definition round_requests (i : nat) : list UploadTransportRequest :=
  match (map inl (i_metadataMdus input) ++ [inr blob]) !! i with
  | Some (inl mdu) => map (fun t => required_mdu deal root prev t mdu) (i_metadataTargets input)
  | Some (inr blob) =>
      map (required_manifest deal root prev blob (i_manifestBlobFullSize input)) (i_metadataTargets input)
  | None => []
  end.
Definition round_shards (i : nat) : list UploadTransportRequest :=
  match sets !! i with Some s => striped_shards input s | None => [] end.

Lemma metadata_round_requests i :
  map request (metadata_round trackSteps input stepIndices blob i) = round_requests i.
Proof.
  unfold metadata_round, round_requests. case_decide as Hi; [|case_decide as He].
  - rewrite lookup_app_l by (by rewrite length_map).
    change (map inl (i_metadataMdus input)) with (@inl PreparedMdu bytes <$> i_metadataMdus input).
    rewrite list_lookup_fmap. destruct (i_metadataMdus input !! i); cbn; [by rewrite map_map|done].
  - subst i. rewrite lookup_app_r by (by rewrite length_map). rewrite length_map, Nat.sub_diag. cbn.
    by rewrite map_map.
  - rewrite (proj2 (lookup_ge_None _ _)); [done|]. rewrite length_app, length_map. cbn. lia.
Qed.

Lemma striped_rounds_inr l tasks :
  striped_rounds trackSteps input stepIndices blob l = inr tasks ->
  map request tasks ≡ₚ concat (map round_requests l) ++ concat (map round_shards l)
  /\ forall i s slot, i ∈ l -> sets !! i = Some s -> (slot < length (shards s))%nat ->
       shardTarget input slot <> None.
Proof.
  revert tasks. induction l as [|i l IH]; intros tasks; cbn [striped_rounds].
  - intros [= <-]. split; [done|]. by intros i s slot ?%elem_of_nil.
  - unfold round_shards at 1. destruct (sets !! i) as [s|] eqn:Hs.
    + destruct (shard_slots _ _ _ s 0 (shards s)) as [e|ts] eqn:E; [done|].
      destruct (striped_rounds _ _ _ _ l) as [e|rest] eqn:Er; [done|]. intros [= <-].
      apply shard_slots_inr in E as [Hts Hk]; [|done]. destruct (IH rest eq_refl) as [Hr Ht]. split.
      * rewrite !map_app, Hr, metadata_round_requests. cbn. rewrite Hs. unfold striped_shards.
        rewrite <- Hts. solve_Permutation.
      * intros i' s' slot [->|Hin]%elem_of_cons Hi Hslot; [|by eapply Ht].
        assert (s' = s) as -> by congruence. apply Hk. lia.
    + destruct (striped_rounds _ _ _ _ l) as [e|rest] eqn:Er; [done|]. intros [= <-].
      destruct (IH rest eq_refl) as [Hr Ht]. split.
      * rewrite map_app, Hr, metadata_round_requests. cbn. rewrite Hs. solve_Permutation.
      * intros i' s' slot [->|Hin]%elem_of_cons Hi Hslot; [congruence|by eapply Ht].
Qed.

Lemma striped_tasks tasks :
  striped_rounds trackSteps input stepIndices blob
    (seq 0 (Nat.max (length (i_metadataMdus input) + 1) (length sets))) = inr tasks ->
  map request tasks ≡ₚ striped_requests input blob /\ targets_present input.
Proof.
  intros Hr. apply striped_rounds_inr in Hr as [Hp Ht]. split.
  - rewrite Hp. unfold striped_requests, round_shards.
    rewrite concat_seq_lookup by lia. rewrite app_assoc. apply Permutation_app_tail.
    unfold round_requests. set (l := map inl _ ++ _).
    set (f := fun x : PreparedMdu + bytes => match x with
      | inl mdu => map (fun t => required_mdu deal root prev t mdu) (i_metadataTargets input)
      | inr blob => map (required_manifest deal root prev blob (i_manifestBlobFullSize input))
                      (i_metadataTargets input) end).
    replace (map _ (seq _ _)) with (map (fun i => match l !! i with Some x => f x | None => [] end)
      (seq 0 (Nat.max (length (i_metadataMdus input) + 1) (length sets)))).
    2: { apply map_ext. intros i. by destruct (l !! i) as [[]|]. }
    rewrite concat_seq_lookup by (subst l; rewrite length_app, length_map; cbn; lia).
    subst l. rewrite map_app, concat_app, map_map. cbn. by rewrite app_nil_r.
  - intros s slot Hs Hslot. apply list_elem_of_lookup in Hs as [i Hi].
    apply (Ht i s slot); [|done|done]. apply elem_of_seq. apply lookup_lt_Some in Hi. lia.
Qed.

(** The step a request resolves to. *)
Definition request_step (r : UploadTransportRequest) : Z :=
  resolveStepIndex trackSteps stepIndices (a_kind (r_artifact r)) (targetLabel (r_target r))
    (num_int <$> a_index (r_artifact r)) (num_int <$> a_slot (r_artifact r)).

Lemma num_int_fmap (o : option Z) : num_int <$> (int <$> o) = o.
Proof. destruct o as [z|]; [exact (f_equal Some (num_int_int z))|done]. Qed.

Lemma shard_slots_steps s slot l tasks :
  shard_slots trackSteps input stepIndices s slot l = inr tasks ->
  Forall (fun t => stepIndex t = request_step (request t)) tasks.
Proof.
  revert slot tasks. induction l as [|shard l IH]; intros slot tasks; cbn [shard_slots].
  - intros [= <-]. constructor.
  - destruct (shardTarget input slot) as [target|]; [|done].
    destruct (shard_slots _ _ _ _ (S slot) l) as [e|ts] eqn:E; [done|]. intros [= <-].
    constructor; [|by eapply IH]. unfold request_step. cbn [request r_artifact r_target a_index a_slot artifact].
    by rewrite !num_int_fmap.
Qed.

Lemma metadata_round_steps i :
  Forall (fun t => stepIndex t = request_step (request t))
    (metadata_round trackSteps input stepIndices blob i).
Proof.
  unfold metadata_round, request_step. repeat case_match; try constructor;
    apply Forall_fmap, Forall_forall; intros t _; cbn [compose stepIndex request r_artifact r_target a_index a_slot artifact];
    by rewrite !num_int_fmap.
Qed.

Lemma striped_rounds_steps l tasks :
  striped_rounds trackSteps input stepIndices blob l = inr tasks ->
  map stepIndex tasks = map request_step (map request tasks).
Proof.
  intros Hr. rewrite map_map. apply map_ext_Forall. revert tasks Hr.
  induction l as [|i l IH]; intros tasks; cbn [striped_rounds].
  - intros [= <-]. constructor.
  - destruct (sets !! i) as [s|].
    + destruct (shard_slots _ _ _ s 0 (shards s)) as [e|ts] eqn:E; [done|].
      destruct (striped_rounds _ _ _ _ l) as [e|rest]; [done|]. intros [= <-].
      apply Forall_app. split; [apply metadata_round_steps|]. apply Forall_app.
      split; [by eapply shard_slots_steps|by apply IH].
    + destruct (striped_rounds _ _ _ _ l) as [e|rest]; [done|]. intros [= <-].
      apply Forall_app. split; [apply metadata_round_steps|]. by apply IH.
Qed.
End striped.

(** The requests in the order of the steps. *)
Definition step_requests (input : StripedUploadInput) (blob : bytes) : list UploadTransportRequest :=
  concat (map (fun target => single_requests (i_dealId input) (i_manifestRoot input)
      (i_previousManifestRoot input) target (i_metadataMdus input) blob (i_manifestBlobFullSize input))
    (i_metadataTargets input))
  ++ concat (map (striped_shards input) (default [] (i_shardSets input))).

Lemma concat_map_snoc {A B} (f : A -> list B) (g : A -> B) l :
  concat (map (fun x => f x ++ [g x]) l) ≡ₚ concat (map f l) ++ map g l.
Proof. induction l as [|x l IH]; cbn; [done|]. rewrite IH. solve_Permutation. Qed.

Lemma step_requests_perm input blob : step_requests input blob ≡ₚ striped_requests input blob.
Proof.
  unfold step_requests, striped_requests, single_requests. rewrite app_assoc.
  apply Permutation_app_tail. rewrite concat_map_snoc. apply Permutation_app_tail.
  apply (concat_map_swap (fun target mdu => required_mdu _ _ _ target mdu)).
Qed.

(** Every shard target has a label (or a base URL). *)
Definition labels_present (input : StripedUploadInput) : Prop :=
  forall slot t, shardTarget input slot = Some t -> targetLabel t <> "".

Lemma step_requests_steps input blob (G : SparseArtifactKind -> string -> option Z -> option Z -> Z) :
  targets_present input -> labels_present input ->
  map (fun r => G (a_kind (r_artifact r)) (targetLabel (r_target r))
         (num_int <$> a_index (r_artifact r)) (num_int <$> a_slot (r_artifact r))) (step_requests input blob)
  = map (fun s => G (st_kind s) (st_target s) (st_index s) (st_slot s)) (buildStripedUploadSteps input).
Proof.
  intros Ht Hl. unfold step_requests, buildStripedUploadSteps. cbv zeta.
  set (total := _ * _ + _). rewrite !map_app, !concat_map, !map_map. f_equal; f_equal.
  - apply map_ext. intros t. unfold single_requests. rewrite !map_app, !map_map. f_equal.
    apply map_ext. intros m. cbn [required_mdu required r_artifact r_target artifact a_kind a_index a_slot].
    by rewrite !num_int_fmap.
  - apply map_ext_in. intros s Hs%list_elem_of_In. unfold striped_shards. rewrite map_map.
    assert (Hgen : forall l, (forall k, k ∈ l -> (k < length (shards s))%nat) ->
      map (fun r => G (a_kind (r_artifact r)) (targetLabel (r_target r))
         (num_int <$> a_index (r_artifact r)) (num_int <$> a_slot (r_artifact r)))
        (omap (fun slot => match shardTarget input slot, shards s !! slot with
          | Some target, Some shard => Some (required_shard (i_dealId input) (i_manifestRoot input)
              (i_previousManifestRoot input) target (set_index s) (Z.of_nat slot) shard)
          | _, _ => None end) l)
      = map (fun slot => G Kshard (shardLabel input slot) (Some (set_index s)) (Some (Z.of_nat slot))) l).
    { induction l as [|k l IH]; intros Hb; [done|]. cbn [omap list_omap map].
      assert (k < length (shards s))%nat as Hk by (apply Hb; left).
      pose proof (Ht s k Hs Hk) as Htk. destruct (lookup_lt_is_Some_2 _ _ Hk) as [sh Hsh].
      unfold shardLabel at 1. destruct (shardTarget input k) as [t|] eqn:Et; [|done]. rewrite Hsh. cbn [map].
      rewrite <- IH by (intros; apply Hb; by right). f_equal.
      cbn [required_shard required r_artifact r_target artifact a_kind a_index a_slot].
      rewrite !num_int_fmap, (proj2 (String.eqb_neq _ _)); [done|]. by eapply Hl. }
    rewrite Hgen; [done|]. intros k Hk%elem_of_seq. lia.
Qed.

Lemma striped_steps_initial input : initial (buildStripedUploadSteps input).
Proof.
  unfold buildStripedUploadSteps. cbv zeta. apply Forall_app. split; apply Forall_concat, Forall_fmap, Forall_forall.
  - intros t _. apply single_steps_initial.
  - intros s _. by apply Forall_fmap, Forall_true.
Qed.

(** The part of [uploadStriped] after its guards. *)
Lemma uploadStriped_run sendBundle track meta shard input r u onTaskEvent :
  0 < meta -> 0 < shard ->
  upload_result good track onTaskEvent (uploadStriped sendBundle track meta shard input).2 r u ->
  ok r = true ->
  let steps0 := if track then buildStripedUploadSteps input else [] in
  exists blob tasks c run,
    i_manifestBlob input = Some blob /\ blob <> []
    /\ striped_rounds track input (indexUploadSteps steps0) blob
         (seq 0 (Nat.max (length (i_metadataMdus input) + 1) (length (default [] (i_shardSets input)))))
       = inr tasks
    /\ (0 < c \/ tasks = [])%nat
    /\ (run = RunTasks tasks steps0 c true \/ run = RunBundles (groupUploadTasksByTarget tasks) steps0 c true)
    /\ upload_result good track onTaskEvent run r u.
Proof.
  intros Hm Hs Hr Hok. unfold uploadStriped, first_steps in Hr.
  destruct (manifest_present (i_manifestBlob input)) as [blob|] eqn:Hb.
  2: { unfold fail_with in Hr. destruct track; inversion Hr; subst; done. }
  apply manifest_present_Some in Hb. intros steps0.
  destruct (striped_rounds track input (indexUploadSteps steps0) blob
    (seq 0 (Nat.max (length (i_metadataMdus input) + 1) (length (default [] (i_shardSets input))))))
    as [[s slot]|tasks] eqn:E.
  { unfold fail_with in Hr. subst steps0. destruct track; rewrite E in Hr; inversion Hr; subst; done. }
  assert (Hc : forall b, (0 < Z.to_nat (if (b : bool)
      then Z.min (Z.of_nat (length tasks)) (meta + shard) else Z.min (Z.of_nat (length tasks)) meta)
    \/ tasks = [])%nat).
  { intros b. destruct tasks; [by right|left]. cbn [length]. destruct b; lia. }
  exists blob, tasks. subst steps0. destruct track; rewrite E in Hr; cbn [snd] in Hr;
    (destruct sendBundle; eexists _, _; (split_and!; [apply Hb|apply Hb|done| | |exact Hr]);
      [left|right; reflexivity|apply Hc|left; reflexivity]; lia).
Qed.

(** C10: A striped upload ([uploadStriped]) that reports success has delivered every
    metadata MDU and the manifest to every metadata target and every shard of
    every user MDU to the target of its slot; it does not report success when a
    shard has no target or the manifest is missing.  When the caller follows the
    progress, the steps have distinct keys and the shard targets have labels,
    every step it is shown last is complete.  Rejections are assumed to carry a
    message. *)
Theorem uploadStriped_delivers sendBundle onProgress onTaskEvent meta shard input r u :
  0 < meta -> 0 < shard ->
  upload_result good onProgress onTaskEvent
    (uploadStriped sendBundle onProgress meta shard input).2 r u ->
  ok r = true ->
  exists blob final, i_manifestBlob input = Some blob /\ blob <> [] /\ targets_present input
    /\ u = Some final
    /\ (forall q, q ∈ striped_requests input blob -> q ∈ accepted final)
    /\ (onProgress = true -> NoDup (map step_key (buildStripedUploadSteps input)) ->
        labels_present input ->
        length (res_steps r) = length (buildStripedUploadSteps input)
        /\ Forall (fun s => st_status s = complete) (res_steps r)).
Proof.
  intros Hm Hs Hr Hok.
  destruct (uploadStriped_run _ _ _ _ _ _ _ _ Hm Hs Hr Hok)
    as (blob & tasks & c & run & Hb & Hne & Htasks & Hc & Hrun & Hres).
  destruct (striped_tasks _ _ _ _ _ Htasks) as [Hperm Htp].
  set (steps0 := if onProgress then buildStripedUploadSteps input else []) in *.
  assert (initial steps0) as Hi.
  { subst steps0. destruct onProgress; [apply striped_steps_initial|constructor]. }
  destruct (run_delivers _ _ _ _ _ _ _ _ _ Hrun Hc Hi Hres Hok) as (final & -> & Hst & Hd).
  exists blob, final. split_and!; [done..| |].
  - intros q Hq. rewrite <- Hperm in Hq. apply list_elem_of_fmap in Hq as (t & -> & ?).
    by apply (delivered_requests _ _ _ _ Hd).
  - intros -> Hnd Hl. rewrite Hst. split; [apply (delivered_length _ _ _ _ Hd)|].
    eapply all_complete; [exact Hd|done|]. subst steps0.
    rewrite (striped_rounds_steps _ _ _ _ _ _ Htasks), Hperm, <- step_requests_perm.
    unfold request_step. rewrite step_requests_steps by done. by rewrite <- resolved_keys.
Qed.

(** ** One slot of a striped upload *)

Definition slot_shard (input : StripedSlotUploadInput) (s : PreparedShardSet) : option PreparedShard :=
  if l_slot input <? 0 then None else shards s !! Z.to_nat (l_slot input).
Definition slot_shard_requests (input : StripedSlotUploadInput) (l : list PreparedShardSet)
    : list UploadTransportRequest :=
  omap (fun s => match slot_shard input s with
    | Some shard => Some (required_shard (l_dealId input) (l_manifestRoot input)
        (l_previousManifestRoot input) (l_target input) (set_index s) (l_slot input) shard)
    | None => None end) l.
Definition slot_requests (input : StripedSlotUploadInput) (blob : bytes) : list UploadTransportRequest :=
  single_requests (l_dealId input) (l_manifestRoot input) (l_previousManifestRoot input)
    (l_target input) (l_metadataMdus input) blob (l_manifestBlobFullSize input)
  ++ slot_shard_requests input (default [] (l_shardSets input)).

Lemma slot_shards_inr track input stepIndices l tasks :
  slot_shards track input stepIndices l = inr tasks ->
  map request tasks = slot_shard_requests input l
  /\ map stepIndex tasks = map (fun s => resolveStepIndex track stepIndices Kshard
       (targetLabel (l_target input)) (Some (set_index s)) (Some (l_slot input))) l
  /\ Forall (fun s => slot_shard input s <> None) l.
Proof.
  revert tasks. induction l as [|s l IH]; intros tasks; cbn [slot_shards].
  - intros [= <-]. done.
  - fold (slot_shard input s). destruct (slot_shard input s) as [shard|] eqn:Hs; [|done].
    destruct (slot_shards _ _ _ l) as [e|rest] eqn:E; [done|]. intros [= <-].
    destruct (IH rest eq_refl) as (Hr & Hi & Hf). unfold slot_shard_requests in *. cbn.
    rewrite Hs, Hr, Hi. split_and!; [done..|]. constructor; [congruence|done].
Qed.

Lemma slot_steps_initial input : initial (buildStripedSlotUploadSteps input).
Proof.
  unfold buildStripedSlotUploadSteps. cbv zeta. rewrite app_assoc. apply Forall_app.
  split; [apply single_steps_initial|]. by apply Forall_fmap, Forall_true.
Qed.

(** A slot upload ([uploadStripedSlot]) that reports success has delivered the
    metadata MDUs, the manifest and the slot's shard of every shard set to the
    slot's provider; it does not report success when a set has no shard for the
    slot or the manifest is missing.  When the caller follows the progress and the
    steps have distinct keys, every step it is shown last is complete.
    Rejections are assumed to carry a message. *)
Theorem uploadStripedSlot_delivers sendBundle onProgress onTaskEvent meta shard input r u :
  upload_result good onProgress onTaskEvent
    (uploadStripedSlot sendBundle onProgress meta shard input).2 r u ->
  ok r = true ->
  exists blob final, l_manifestBlob input = Some blob /\ blob <> []
    /\ Forall (fun s => slot_shard input s <> None) (default [] (l_shardSets input))
    /\ u = Some final
    /\ (forall q, q ∈ slot_requests input blob -> q ∈ accepted final)
    /\ (onProgress = true -> NoDup (map step_key (buildStripedSlotUploadSteps input)) ->
        length (res_steps r) = length (buildStripedSlotUploadSteps input)
        /\ Forall (fun s => st_status s = complete) (res_steps r)).
Proof.
  intros Hr Hok. unfold uploadStripedSlot, first_steps in Hr.
  destruct (manifest_present (l_manifestBlob input)) as [blob|] eqn:Hm.
  2: { unfold fail_with in Hr. destruct onProgress; inversion Hr; subst; done. }
  apply manifest_present_Some in Hm as [Hm Hne]. exists blob.
  set (steps0 := if onProgress then buildStripedSlotUploadSteps input else []) in *.
  destruct (slot_shards onProgress input (indexUploadSteps steps0) (default [] (l_shardSets input)))
    as [e|shardTasks] eqn:E.
  { unfold fail_with in Hr. subst steps0. destruct onProgress; rewrite E in Hr; inversion Hr; subst; done. }
  destruct (slot_shards_inr _ _ _ _ _ E) as (Hreq & Hidx & Hall).
  set (tasks := single_tasks (resolveStepIndex onProgress (indexUploadSteps steps0)) (l_dealId input)
    (l_manifestRoot input) (l_previousManifestRoot input) (l_target input) (l_metadataMdus input) blob
    (l_manifestBlobFullSize input) ++ shardTasks).
  assert (exists c run, (0 < c)%nat
    /\ (run = RunTasks tasks steps0 c false \/ run = RunBundles (groupUploadTasksByTarget tasks) steps0 c false)
    /\ upload_result good onProgress onTaskEvent run r u) as (c & run & Hc' & Hrun & Hres).
  { subst tasks steps0. destruct onProgress; rewrite E in Hr; destruct sendBundle; cbn [snd] in Hr;
      (eexists _, _; (split; [|split; [|exact Hr]]); [|first [left; reflexivity|right; reflexivity]]; lia). }
  assert (initial steps0) as Hi.
  { subst steps0. destruct onProgress; [apply slot_steps_initial|constructor]. }
  destruct (run_delivers _ _ _ _ _ _ _ _ _ Hrun (or_introl Hc') Hi Hres Hok) as (final & -> & Hst & Hd).
  exists final. split_and!; [done..| |].
  - intros q Hq. unfold slot_requests in Hq. rewrite <- Hreq in Hq.
    rewrite <- single_tasks_requests with (resolve := resolveStepIndex onProgress (indexUploadSteps steps0)),
      <- map_app in Hq.
    apply list_elem_of_fmap in Hq as (t & -> & ?). by apply (delivered_requests _ _ _ _ Hd).
  - intros -> Hnd. rewrite Hst. split; [apply (delivered_length _ _ _ _ Hd)|].
    eapply all_complete; [exact Hd|done|]. subst tasks steps0. rewrite map_app, Hidx.
    rewrite (single_tasks_steps _ _ _ _ _ _ _ _ (Z.of_nat (length (l_metadataMdus input)) + 1
      + Z.of_nat (length (default [] (l_shardSets input))))), <- resolved_keys by done.
    unfold buildStripedSlotUploadSteps at 4. cbv zeta. rewrite app_assoc, map_app, map_map. done.
Qed.

(** ** Runs end *)

Lemma reachable_mono {Sh Job} (fe : Sh -> option string) (start : Sh -> nat -> nat -> Sh * Job) react n c cont
    (ok ok' : response -> Prop) s p :
  (forall r, ok r -> ok' r) ->
  reachable fe start react n c cont ok s p -> reachable fe start react n c cont ok' s p.
Proof.
  intros Hm Hr. eapply rtc_subrel; [|exact Hr]. intros x y [? ? ? ? ? ? ? Hok|]; econstructor; eauto.
Qed.

Lemma tasks_settle answers r0 op te tasks steps0 c cont :
  answers r0 -> (0 < c \/ length tasks = 0)%nat ->
  exists u, runUploadTasks answers op te tasks steps0 c cont u.
Proof.
  intros Hr Hc.
  destruct (run_settles (PoolLaws0 := tasks_laws tasks (op && negb (bool_decide (steps0 = []))) te)
    (length tasks) c cont Hc answers (upload_init (Z.of_nat (length tasks)) steps0)
    (pool_init firstError _ _ _ _ _) r0 Hr (rtc_refl _ _)) as (q & u & Hq & Hu).
  exists u, q. done.
Qed.

Lemma bundles_settle answers r0 op te bundles steps0 c cont :
  answers r0 -> (0 < c \/ length bundles = 0)%nat ->
  exists u, runUploadTaskBundles answers op te bundles steps0 c cont u.
Proof.
  intros Hr Hc.
  destruct (run_settles (PoolLaws0 := bundles_laws bundles (op && negb (bool_decide (steps0 = []))) te cont)
    (length bundles) c cont Hc answers
    (upload_init (fold_left (fun sum b => sum + Z.of_nat (length (b_tasks b))) bundles 0) steps0)
    (pool_init firstError _ _ _ _ _) r0 Hr (rtc_refl _ _)) as (q & u & Hq & Hu).
  exists u, q. done.
Qed.

(** What a task or a bundle leaves when every answer is acceptance. *)
Definition accepting (r : response) : Prop := r = Resolved.

Lemma tasks_success op te tasks steps0 c cont u :
  runUploadTasks accepting op te tasks steps0 c cont u -> ok (result_of u) = true.
Proof.
  intros (p & Hr & Hres).
  enough (firstError u = None) as Hq by (unfold result_of; by rewrite Hq).
  eapply (reach_shared _ _ _ _ _ _ (fun u => firstError u = None) accepting); [| | |exact Hr|exact Hres].
  - intros s i a _ Hs. destruct (tasks !! i) as [t|] eqn:Ht.
    + destruct (start_task_steps tasks (op && negb (bool_decide (steps0 = []))) te s i a t Ht) as (_ & -> & _). done.
    + unfold start_task. by rewrite Ht.
  - intros s i [] r Hs ->. destruct (tasks !! i) as [t|] eqn:Ht.
    + destruct (react_task_steps tasks (op && negb (bool_decide (steps0 = []))) te s i Resolved t Ht) as (_ & -> & _). done.
    + unfold react_task. by rewrite Ht.
  - done.
Qed.

Lemma bundles_success op te bundles steps0 c cont u :
  runUploadTaskBundles accepting op te bundles steps0 c cont u -> ok (result_of u) = true.
Proof.
  intros (p & Hr & Hres).
  enough (firstError u = None) as Hq by (unfold result_of; by rewrite Hq).
  eapply (reach_shared _ _ _ _ _ _ (fun u => firstError u = None) accepting); [| | |exact Hr|exact Hres].
  - intros s i a _ Hs. destruct (bundles !! i) as [b|] eqn:Hb.
    + destruct (start_bundle_steps bundles (op && negb (bool_decide (steps0 = []))) te s i a b Hb) as (_ & -> & _). done.
    + unfold start_bundle. by rewrite Hb.
  - intros s i j r Hs ->. unfold react_bundle. destruct (bundles !! i) as [b|] eqn:Hb; [|done].
    destruct j as [|k reason]; cbn [fst].
    + destruct (completeBundle_view (op && negb (bool_decide (steps0 = []))) te b i true None
        (accept (map request (b_tasks b)) s)) as (_ & -> & _). done.
    + destruct (b_tasks b !! k) as [t|] eqn:Ht; [|unfold fallback_answer; by rewrite Ht].
      destruct (fallback_answer_split (op && negb (bool_decide (steps0 = []))) te cont s i b k reason Resolved t Ht)
        as (u1 & st & e & _ & (_ & _ & He) & Hn).
      destruct Hn as [-> | [-> _]]; cbn [fst]; [|congruence].
      rewrite (view_error _ _ (fallback_next_view b (S k) reason u1)). congruence.
  - done.
Qed.

Lemma sum_lookup {A} (w : A -> nat) (l : list A) (f : nat -> nat) :
  (forall i x, l !! i = Some x -> f i = w x) ->
  sum_list (map f (seq 0 (length l))) = sum_list (map w l).
Proof.
  intros Hf. f_equal. apply list_eq. intros i.
  change (map f (seq 0 (length l))) with (f <$> seq 0 (length l)).
  change (map w l) with (w <$> l). rewrite !list_lookup_fmap.
  destruct (l !! i) as [x|] eqn:E.
  - rewrite lookup_seq_lt by (by eapply lookup_lt_Some). cbn. by rewrite (Hf i x E).
  - rewrite (proj2 (lookup_ge_None _ _)); [done|]. rewrite length_seq. by apply lookup_ge_None.
Qed.

(** The error that a pool keeps is the message of a rejection. *)
Definition error_from (answers : response -> Prop) (u : upload) : Prop :=
  forall m, firstError u = Some m -> exists e, answers (Rejected e) /\ message e = m.

Lemma error_kept (answers : response -> Prop) u u' : firstError u' = firstError u -> error_from answers u -> error_from answers u'.
Proof. intros He H m Hm. apply H. by rewrite <- He. Qed.

Lemma error_set (answers : response -> Prop) e u u' : answers (Rejected e) -> firstError u' = firstError (set_error (message e) u) ->
  error_from answers u -> error_from answers u'.
Proof.
  intros Hr He H m Hm. rewrite He in Hm. cbn in Hm. destruct (negb _); [|by apply H]. injection Hm as <-. by exists e.
Qed.

Lemma task_errors answers tasks tp te s i r : answers r -> error_from answers s -> error_from answers (react_task tasks tp te s i tt r).1.
Proof.
  intros Hr Hs. destruct (tasks !! i) as [t|] eqn:Ht; [|unfold react_task; by rewrite Ht].
  pose proof (react_task_steps tasks tp te s i r t Ht) as H. destruct r as [|e]; destruct H as (_ & He & _).
  - by eapply error_kept.
  - by eapply error_set.
Qed.

Lemma bundle_errors answers bundles tp te cont s i j r : answers r -> error_from answers s ->
  error_from answers (react_bundle bundles tp te cont s i j r).1.
Proof.
  intros Hr Hs. unfold react_bundle. destruct (bundles !! i) as [b|]; [|done]. destruct j as [|k reason].
  - destruct r as [|e]; [|destruct (isBundleUnsupportedError e)]; cbn [fst].
    + eapply error_kept; [|exact Hs]. by destruct (completeBundle_view tp te b i true None (accept (map request (b_tasks b)) s)) as (_ & -> & _).
    + eapply error_kept; [|exact Hs]. unfold fallbackToArtifacts. cbv zeta.
      by rewrite (view_error _ _ (fallback_next_view b _ _ _)), error_event.
    + eapply error_set; [exact Hr| |exact Hs].
      by destruct (completeBundle_view tp te b i false (Some (message e)) (set_error (message e) s)) as (_ & -> & _).
  - destruct (b_tasks b !! k) as [t|] eqn:Ht; [|unfold fallback_answer; by rewrite Ht].
    destruct (fallback_answer_split tp te cont s i b k reason r t Ht) as (u1 & st & e & _ & He & Hn).
    assert (Hu1 : error_from answers u1).
    { destruct r as [|e']; [destruct He as (_ & _ & He); by eapply error_kept | destruct He as (_ & He); by eapply error_set]. }
    destruct Hn as [-> | [-> _]]; cbn [fst]; [|done].
    eapply error_kept; [|exact Hu1]. apply (view_error _ _ (fallback_next_view b (S k) reason u1)).
Qed.

(** A pool that settles within [bound] steps, in every order of the answers: it takes no
    more, until the promise is settled there is a next one, and what the promise is
    settled with is success or the message of a rejection. *)
Definition settles {Job} (answers : response -> Prop) (step : relation (pool upload Job)) (init : pool upload Job) (bound : nat) : Prop :=
  (forall k p, nsteps step k init p -> (k <= bound)%nat)
  /\ (forall p, rtc step init p -> resolved p = None -> exists q, step p q)
  /\ (forall p u, rtc step init p -> resolved p = Some u ->
       ok (result_of u) = true
       \/ exists e, answers (Rejected e) /\ ok (result_of u) = false /\ res_error (result_of u) = Some (message e)).

(** ** The two pools *)

Section pools.
Context (answers : response -> Prop) (onProgress onTaskEvent : bool) (steps0 : list UploadProgressStep)
  (concurrency : nat) (continueOnError : bool).
Abbreviation tracks := (onProgress && negb (bool_decide (steps0 = []))).

Definition task_step (tasks : list UploadTask) : relation (pool upload unit) :=
  pool_step firstError (start_task tasks tracks onTaskEvent) (react_task tasks tracks onTaskEvent) (length tasks) concurrency
    continueOnError answers.
Definition task_init (tasks : list UploadTask) : pool upload unit :=
  pool_init firstError (start_task tasks tracks onTaskEvent) (length tasks) concurrency continueOnError
    (upload_init (Z.of_nat (length tasks)) steps0).
Definition bundle_step (bundles : list UploadTaskBundle) : relation (pool upload bundle_job) :=
  pool_step firstError (start_bundle bundles tracks onTaskEvent) (react_bundle bundles tracks onTaskEvent continueOnError)
    (length bundles) concurrency continueOnError answers.
Definition bundle_init (bundles : list UploadTaskBundle) : pool upload bundle_job :=
  pool_init firstError (start_bundle bundles tracks onTaskEvent) (length bundles) concurrency continueOnError
    (upload_init (fold_left (fun sum b => sum + Z.of_nat (length (b_tasks b))) bundles 0) steps0).

Lemma error_result u : error_from answers u -> ok (result_of u) = true
  \/ exists e, answers (Rejected e) /\ ok (result_of u) = false /\ res_error (result_of u) = Some (message e).
Proof.
  intros H. unfold result_of. destruct (firstError u) as [m|] eqn:He; [|by left]. destruct (truthy (Some m)); [|by left].
  right. destruct (H m He) as (e & Hr & <-). by exists e.
Qed.

Context (Hc : (0 < concurrency)%nat) (r0 : response) (Hr0 : answers r0).

Lemma task_pool_settles tasks : settles answers (task_step tasks) (task_init tasks) (2 * length tasks).
Proof.
  split; [|split].
  - intros k p Hk. pose proof (run_bounded (PoolLaws0 := tasks_laws tasks tracks onTaskEvent) (length tasks) concurrency continueOnError
      (or_introl Hc) answers _ k p Hk) as Hb.
    unfold unlaunched in Hb. rewrite Nat.sub_0_r, (sum_lookup (fun _ => 2%nat) tasks) in Hb by done. etransitivity; [exact Hb|].
    clear. induction tasks as [|t l IH]; cbn in *; lia.
  - intros p Hp Hres. by apply (run_progress (length tasks) concurrency continueOnError (or_introl Hc) answers _ p r0 Hr0 Hp).
  - intros p u Hp Hres. apply error_result.
    eapply (reach_shared _ _ _ _ _ _ (error_from answers) answers); [| | |exact Hp|exact Hres]; [| |done].
    + intros s i a _ Hs. destruct (tasks !! i) as [t|] eqn:Ht; [|unfold start_task; by rewrite Ht].
      eapply error_kept; [|exact Hs]. by destruct (start_task_steps tasks tracks onTaskEvent s i a t Ht) as (_ & -> & _).
    + intros s i [] r Hs Hr. by apply task_errors.
Qed.

Lemma bundle_pool_settles bundles :
  settles answers (bundle_step bundles) (bundle_init bundles) (sum_list (map (fun b => length (b_tasks b) + 3) bundles)%nat).
Proof.
  split; [|split].
  - intros k p Hk. pose proof (run_bounded (PoolLaws0 := bundles_laws bundles tracks onTaskEvent continueOnError) (length bundles)
      concurrency continueOnError (or_introl Hc) answers _ k p Hk) as Hb.
    unfold unlaunched in Hb. rewrite Nat.sub_0_r in Hb. etransitivity; [exact Hb|].
    apply Nat.eq_le_incl, sum_lookup. intros i b Hi. unfold weight. cbn. unfold bundle_cost. rewrite Hi. lia.
  - intros p Hp Hres. by apply (run_progress (length bundles) concurrency continueOnError (or_introl Hc) answers _ p r0 Hr0 Hp).
  - intros p u Hp Hres. apply error_result.
    eapply (reach_shared _ _ _ _ _ _ (error_from answers) answers); [| | |exact Hp|exact Hres]; [| |done].
    + intros s i a _ Hs. destruct (bundles !! i) as [b|] eqn:Hb; [|unfold start_bundle; by rewrite Hb].
      eapply error_kept; [|exact Hs]. by destruct (start_bundle_steps bundles tracks onTaskEvent s i a b Hb) as (_ & -> & _).
    + intros s i j r Hs Hr. by apply bundle_errors.
Qed.
End pools.

(** The artifacts of the bundles are the tasks. *)
Lemma bundle_bound tasks : sum_list (map (fun b => length (b_tasks b) + 3)%nat (groupUploadTasksByTarget tasks))
  = (length tasks + 3 * length (groupUploadTasksByTarget tasks))%nat.
Proof.
  rewrite <- (Permutation_length (group_perm tasks)). unfold bundle_tasks.
  induction (groupUploadTasksByTarget tasks) as [|b l IH]; cbn; [done|]. rewrite length_app. lia.
Qed.

(** C35: An upload ends, whatever is answered and in whatever order.  The pool of artifacts
    takes at most two steps for each, the pool of bundles one for each artifact and three
    for each bundle; until the promise is settled there is a next step; and it is settled
    with success or with the message of one of the rejections, so with success when every
    request is accepted. *)
Theorem uploads_settle answers onProgress onTaskEvent tasks steps0 concurrency continueOnError r0 :
  (0 < concurrency)%nat -> answers r0 ->
  settles answers (task_step answers onProgress onTaskEvent steps0 concurrency continueOnError tasks)
    (task_init onProgress onTaskEvent steps0 concurrency continueOnError tasks) (2 * length tasks)
  /\ let bundles := groupUploadTasksByTarget tasks in
     settles answers (bundle_step answers onProgress onTaskEvent steps0 concurrency continueOnError bundles)
       (bundle_init onProgress onTaskEvent steps0 concurrency continueOnError bundles) (length tasks + 3 * length bundles).
Proof.
  intros Hc Hr0. split; [by eapply task_pool_settles|]. cbv zeta. rewrite <- bundle_bound. by eapply bundle_pool_settles.
Qed.

(** A rejection with an empty message. *)
Definition silent (r : response) : Prop := exists e, r = Rejected e /\ message e = "".

Lemma silent_no_error u e : message e = "" -> truthy (firstError u) = false ->
  truthy (firstError (set_error (message e) u)) = false.
Proof. intros Hm Hf. cbn. by rewrite Hf, Hm. Qed.

(** C38: The engine takes an error for absent when its message is empty: an upload of
    any tasks can end with [ok = true] although the transport rejected every
    request and accepted none. *)
Theorem silent_rejection_reports_ok onProgress onTaskEvent tasks steps0 concurrency continueOnError :
  (0 < concurrency)%nat ->
  exists u, runUploadTasks silent onProgress onTaskEvent tasks steps0 concurrency continueOnError u
    /\ ok (result_of u) = true /\ accepted u = [].
Proof.
  intros Hc.
  destruct (tasks_settle silent (Rejected {| name := ""; message := "" |}) onProgress onTaskEvent tasks
    steps0 concurrency continueOnError) as [u Hu]; [by eexists|by left|].
  exists u. split; [done|]. destruct Hu as (p & Hr & Hres).
  enough (truthy (firstError u) = false /\ accepted u = []) as [Hf Ha]
    by (unfold result_of; by rewrite Hf).
  eapply (reach_shared _ _ _ _ _ _ (fun u => truthy (firstError u) = false /\ accepted u = []) silent);
    [| | |exact Hr|exact Hres]; [| |done].
  - intros s i a _ Hs. destruct (tasks !! i) as [t|] eqn:Ht.
    + destruct (start_task_steps tasks (onProgress && negb (bool_decide (steps0 = []))) onTaskEvent s i a t Ht)
        as (-> & -> & _). done.
    + unfold start_task. by rewrite Ht.
  - intros s i [] r [Hs Ha] (e & -> & He). destruct (tasks !! i) as [t|] eqn:Ht.
    + destruct (react_task_steps tasks (onProgress && negb (bool_decide (steps0 = []))) onTaskEvent s i
        (Rejected e) t Ht) as (-> & -> & _). split; [by apply silent_no_error|done].
    + unfold react_task. by rewrite Ht.
Qed.

(** ** What is sent, and the statistics *)

Lemma launched_requests (tasks : list UploadTask) n :
  (n <= length tasks)%nat ->
  concat (map (fun i => match tasks !! i with Some t => [[request t]] | None => [] end) (seq 0 n))
  = map (fun t => [request t]) (take n tasks).
Proof.
  intros Hn. transitivity (concat (map (fun t => [[request t]]) (take n tasks))).
  - rewrite <- (concat_seq_lookup _ (take n tasks) n) by (rewrite length_take; lia).
    f_equal. apply map_ext_in. intros i Hi%in_seq. by rewrite lookup_take_lt by lia.
  - induction (take n tasks); cbn; [done|congruence].
Qed.

Lemma sent_event te es u : sent (event te es u) = sent u.
Proof. unfold event. by case_match. Qed.
Lemma sent_progress tp f u : sent (progress tp f u) = sent u.
Proof. unfold progress. by case_match. Qed.
Lemma stats_event te es u : stats (event te es u) = stats u.
Proof. unfold event. by case_match. Qed.
Lemma stats_progress tp f u : stats (progress tp f u) = stats u.
Proof. unfold progress. by case_match. Qed.

Section sent_once.
Context (answers : response -> Prop) (tasks : list UploadTask) (tp te cont : bool) (c : nat).

Lemma react_task_sent u i j r :
  sent (react_task tasks tp te u i j r).1 = sent u /\ stats (react_task tasks tp te u i j r).1 = stats u.
Proof.
  unfold react_task. destruct (tasks !! i); [|done]. destruct r; cbn;
    by rewrite sent_progress, stats_progress, sent_event, stats_event.
Qed.

Lemma tasks_sent u p :
  sent u = [] -> (0 < c)%nat ->
  reachable firstError (start_task tasks tp te) (react_task tasks tp te) (length tasks) c cont answers u p ->
  sent (shared p) = map (fun t => [request t]) (take (nextIndex p) tasks).
Proof.
  intros H0 Hc Hr. destruct (reachable_inv _ _ _ _ _ _ _ _ _ (or_introl Hc) Hr) as [[_ Hn _ _ _] _].
  rewrite <- launched_requests by done. eapply launch_log; [| |exact H0|exact Hr].
  - intros s i a. unfold start_task. destruct (tasks !! i); cbn; [|by rewrite app_nil_r].
    by rewrite sent_progress, sent_event.
  - intros s i j r. apply react_task_sent.
Qed.
End sent_once.

(** [runUploadTasks] sends the artifact of every task it launches exactly once
    and in the order of the tasks; when the promise settles and the upload
    continues on errors, or had none, it has sent all of them. *)
Theorem tasks_sent_once answers onProgress onTaskEvent tasks steps0 concurrency continueOnError p :
  let trackProgress := onProgress && negb (bool_decide (steps0 = [])) in
  reachable firstError (start_task tasks trackProgress onTaskEvent)
    (react_task tasks trackProgress onTaskEvent) (length tasks) concurrency continueOnError answers
    (upload_init (Z.of_nat (length tasks)) steps0) p ->
  (0 < concurrency)%nat ->
  sent (shared p) = map (fun t => [request t]) (take (nextIndex p) tasks)
  /\ forall u, resolved p = Some u -> continueOnError = true \/ truthy (firstError u) = false ->
      sent u = map (fun t => [request t]) tasks.
Proof.
  intros tp Hr Hc. pose proof (tasks_sent _ _ _ _ _ _ (upload_init _ steps0) _ eq_refl Hc Hr) as Hs. split; [done|].
  intros u Hu Hall. destruct (reachable_inv _ _ _ _ _ _ _ _ _ (or_introl Hc) Hr) as [[_ Hn _ _ Hres] _].
  destruct (Hres u Hu) as [-> [Hn'|[? ?]]]; [|destruct Hall; congruence].
  rewrite Hs, take_ge by lia. done.
Qed.

(** Bytes of a request: its artifact's. *)
Definition request_bytes (r : UploadTransportRequest) : Z := blen (a_bytes (r_artifact r)).
Definition sent_bytes (l : list (list UploadTransportRequest)) : Z :=
  foldr Z.add 0 (map (fun rs => foldr Z.add 0 (map request_bytes rs)) l).
#[local] Arguments sent_bytes : simpl never.

Record stats_inv (c : nat) (u : upload) : Prop := {
  stats_requests : requestCount (stats u) = Z.of_nat (length (sent u));
  stats_bytes : bytesSent (stats u) = sent_bytes (sent u);
  stats_split : perArtifactCount (stats u) + bundleCount (stats u) = requestCount (stats u);
  stats_peak : peakActiveUploads (stats u) <= Z.of_nat c }.

Lemma sent_bytes_snoc l rs : sent_bytes (l ++ [rs]) = sent_bytes l + foldr Z.add 0 (map request_bytes rs).
Proof.
  unfold sent_bytes. rewrite map_app, foldr_app. cbn.
  induction l as [|x l IH]; cbn in *; [lia|]. rewrite IH. lia.
Qed.

Lemma artifactPayload_request t : artifactPayloadBytes t = request_bytes (request t).
Proof. unfold artifactPayloadBytes, request_bytes, blen. lia. Qed.

Lemma bundlePayload_requests b : bundlePayloadBytes b = foldr Z.add 0 (map request_bytes (map request (b_tasks b))).
Proof.
  unfold bundlePayloadBytes. set (l := b_tasks b).
  assert (Hgen : forall z, fold_left (fun sum task => sum + artifactPayloadBytes task) l z
    = z + foldr Z.add 0 (map request_bytes (map request l))).
  { induction l as [|t l IH]; intros z; cbn; [lia|]. rewrite IH, artifactPayload_request. lia. }
  apply Hgen.
Qed.

Lemma start_task_stats c tasks tp te u i a :
  (a <= c)%nat -> stats_inv c u -> stats_inv c (start_task tasks tp te u i a).1.
Proof.
  intros Ha [H1 H2 H3 H4]. unfold start_task. destruct (tasks !! i) as [t|]; [|done].
  constructor; cbn; rewrite ?stats_progress, ?sent_progress, ?stats_event, ?sent_event; cbn.
  - rewrite length_app, H1. cbn. lia.
  - rewrite sent_bytes_snoc, H2, artifactPayload_request. cbn. lia.
  - lia.
  - lia.
Qed.

Lemma fallback_next_stats c b k reason u :
  stats_inv c u -> stats_inv c (fallback_next b k reason u).1.
Proof.
  intros [H1 H2 H3 H4]. unfold fallback_next. destruct (b_tasks b !! k) as [t|]; [|done].
  constructor; cbn; [| |lia|lia].
  - rewrite length_app, H1. cbn. lia.
  - rewrite sent_bytes_snoc, H2, artifactPayload_request. cbn. lia.
Qed.

Lemma start_bundle_stats c bundles tp te u i a :
  (a <= c)%nat -> stats_inv c u -> stats_inv c (start_bundle bundles tp te u i a).1.
Proof.
  intros Ha [H1 H2 H3 H4]. unfold start_bundle. destruct (bundles !! i) as [b|]; [|done].
  constructor; cbn; rewrite ?stats_progress, ?sent_progress, ?stats_event, ?sent_event; cbn; [| |lia|lia].
  - rewrite length_app, H1. cbn. lia.
  - by rewrite sent_bytes_snoc, H2, bundlePayload_requests.
Qed.

Lemma stats_inv_view c u u' :
  stats u' = stats u -> sent u' = sent u -> stats_inv c u -> stats_inv c u'.
Proof. intros Hs Hl [? ? ? ?]. by constructor; rewrite ?Hs, ?Hl. Qed.

Lemma react_bundle_stats c bundles tp te cont u i j r :
  stats_inv c u -> stats_inv c (react_bundle bundles tp te cont u i j r).1.
Proof.
  intros Hi. unfold react_bundle. destruct (bundles !! i) as [b|]; [|done]. destruct j as [|k reason].
  - destruct r as [|e]; [|destruct (isBundleUnsupportedError e)].
    + apply (stats_inv_view c u); [| |done]; unfold completeBundle; cbn [fst];
        by rewrite ?stats_progress, ?sent_progress, ?stats_event, ?sent_event.
    + unfold fallbackToArtifacts. apply fallback_next_stats. destruct Hi as [H1 H2 H3 H4].
      constructor; cbn; rewrite ?stats_event, ?sent_event; done.
    + apply (stats_inv_view c u); [| |done]; unfold completeBundle; cbn [fst];
        by rewrite ?stats_progress, ?sent_progress, ?stats_event, ?sent_event.
  - unfold fallback_answer. destruct (b_tasks b !! k) as [t|]; [|done].
    destruct r as [|e].
    + apply fallback_next_stats, (stats_inv_view c u); [| |done];
        by rewrite ?stats_progress, ?sent_progress, ?stats_event, ?sent_event.
    + destruct cont; cbn [negb fst]; [apply fallback_next_stats|];
        (apply (stats_inv_view c u); [| |done]; by rewrite ?stats_progress, ?sent_progress, ?stats_event, ?sent_event).
Qed.

(** The transport statistics of a settled upload are exact: as many requests as
    were made, one per bundle and one per single artifact; as many bytes as the
    artifacts of those requests hold; and never more uploads at once than the
    concurrency allows. *)
Theorem transport_stats_exact answers onProgress onTaskEvent run r u :
  upload_result answers onProgress onTaskEvent run r (Some u) ->
  let concurrency := match run with RunTasks _ _ c _ | RunBundles _ _ c _ => c | Returned _ => 0%nat end in
  transportStats r = Some (stats u)
  /\ requestCount (stats u) = Z.of_nat (length (sent u))
  /\ perArtifactCount (stats u) + bundleCount (stats u) = requestCount (stats u)
  /\ bytesSent (stats u) = sent_bytes (sent u)
  /\ peakActiveUploads (stats u) <= Z.of_nat concurrency.
Proof.
  intros Hr. assert (transportStats r = Some (stats u)) as Ht.
  { inversion Hr; subst; unfold result_of; by case_match. }
  inversion Hr as [|tasks steps0 c cont u' (p & Hp & Hres)|bundles steps0 c cont u' (p & Hp & Hres)]; subst; cbn zeta.
  - enough (stats_inv c u) as [? ? ? ?] by done.
    eapply (reach_shared _ _ _ _ _ _ (stats_inv c) answers); [| | |exact Hp|exact Hres].
    + intros s i a. apply start_task_stats.
    + intros s i [] r Hi _. destruct (react_task_sent tasks (onProgress && negb (bool_decide (steps0 = []))) onTaskEvent s i tt r).
      by eapply stats_inv_view.
    + by constructor; cbn; try lia.
  - enough (stats_inv c u) as [? ? ? ?] by done.
    eapply (reach_shared _ _ _ _ _ _ (stats_inv c) answers); [| | |exact Hp|exact Hres].
    + intros s i a. apply start_bundle_stats.
    + intros s i j r Hi _. by apply react_bundle_stats.
    + by constructor; cbn; try lia.
Qed.

(** ** Instances *)

(** A provider that accepts everything lets any prepared upload end with success. *)
Lemma some_success op te run :
  (exists tasks steps0 c cont, (0 < c)%nat
     /\ (run = RunTasks tasks steps0 c cont \/ run = RunBundles (groupUploadTasksByTarget tasks) steps0 c cont)) ->
  exists r u, upload_result good op te run r (Some u) /\ ok r = true.
Proof.
  intros (tasks & steps0 & c & cont & Hc & [-> | ->]).
  - destruct (tasks_settle accepting Resolved op te tasks steps0 c cont) as [u Hu]; [done|by left|].
    exists (result_of u), u. split; [|by eapply tasks_success]. constructor.
    destruct Hu as (p & Hp & Hres). exists p. split; [|done]. eapply reachable_mono; [|exact Hp]. by intros r ->.
  - destruct (bundles_settle accepting Resolved op te (groupUploadTasksByTarget tasks) steps0 c cont)
      as [u Hu]; [done|by left|].
    exists (result_of u), u. split; [|by eapply bundles_success]. constructor.
    destruct Hu as (p & Hp & Hres). exists p. split; [|done]. eapply reachable_mono; [|exact Hp]. by intros r ->.
Qed.

Definition sample_target (l : string) : UploadTarget :=
  {| baseUrl := "http://" +:+ l; mduPath := "/mdu"; manifestPath := "/manifest";
     shardPath := Some "/shard"; bundlePath := Some "/bundle"; label := Some l |}.
Definition sample_mdu (i : Z) : PreparedMdu :=
  {| mdu_index := i; mdu_data := [1; 2; 3]; mdu_fullSize := None |}.
Definition sample_shards (i : Z) : PreparedShardSet :=
  {| set_index := i; shards := [{| shard_data := [4]; shard_fullSize := None |};
                                {| shard_data := [5; 6]; shard_fullSize := None |}] |}.
Definition sample_direct : DirectUploadInput :=
  {| d_dealId := "7"; d_manifestRoot := "0xab"; d_previousManifestRoot := None;
     d_manifestBlob := Some [9]; d_manifestBlobFullSize := None;
     d_mdus := [sample_mdu 0; sample_mdu 1]; d_target := sample_target "a" |}.
Definition sample_striped : StripedUploadInput :=
  {| i_dealId := "7"; i_manifestRoot := "0xab"; i_previousManifestRoot := None;
     i_manifestBlob := Some [9]; i_manifestBlobFullSize := None; i_metadataMdus := [sample_mdu 0];
     i_shardSets := Some [sample_shards 1]; i_metadataTargets := [sample_target "a"; sample_target "b"];
     i_shardTargets := Some [sample_target "a"; sample_target "b"] |}.
Definition sample_slot : StripedSlotUploadInput :=
  {| l_dealId := "7"; l_manifestRoot := "0xab"; l_previousManifestRoot := None;
     l_manifestBlob := Some [9]; l_manifestBlobFullSize := None; l_metadataMdus := [sample_mdu 0];
     l_shardSets := Some [sample_shards 1]; l_slot := 1; l_target := sample_target "b" |}.
Definition sample_tasks : list UploadTask :=
  match (uploadDirect false true 4 sample_direct).2 with RunTasks tasks _ _ _ => tasks | _ => [] end.

Lemma uploadDirect_delivers_witness :
  exists r u, upload_result good true true (uploadDirect true true 4 sample_direct).2 r (Some u)
    /\ (forall q, q ∈ direct_requests sample_direct [9] -> q ∈ accepted u)
    /\ map st_status (res_steps r) = [complete; complete; complete].
Proof.
  destruct (some_success true true (uploadDirect true true 4 sample_direct).2) as (r & u & Hr & Hok).
  { eexists _, _, 1%nat, false. split; [lia|]. right. reflexivity. }
  exists r, u. split; [exact Hr|].
  destruct (uploadDirect_delivers true true true 4 sample_direct r (Some u) ltac:(lia) Hr Hok)
    as (blob & final & [= <-] & _ & [= <-] & Hq & Hs).
  split; [exact Hq|]. destruct (Hs eq_refl) as [Hl Hc]; [refine (bool_decide_unpack _ _); exact I|].
  destruct (res_steps r) as [|s1 [|s2 [|s3 [|]]]]; try discriminate Hl.
  rewrite !Forall_cons in Hc. destruct Hc as (H1 & H2 & H3 & _). cbn. by rewrite H1, H2, H3.
Defined.

Lemma uploadStriped_delivers_witness :
  exists r u, upload_result good true false (uploadStriped false true 6 6 sample_striped).2 r (Some u)
    /\ (forall q, q ∈ striped_requests sample_striped [9] -> q ∈ accepted u)
    /\ length (striped_requests sample_striped [9]) = 6%nat
    /\ Forall (fun s => st_status s = complete) (res_steps r).
Proof.
  destruct (some_success true false (uploadStriped false true 6 6 sample_striped).2) as (r & u & Hr & Hok).
  { eexists _, _, 6%nat, true. split; [lia|]. left. vm_compute. reflexivity. }
  exists r, u. split; [exact Hr|].
  destruct (uploadStriped_delivers false true false 6 6 sample_striped r (Some u) ltac:(lia) ltac:(lia) Hr Hok)
    as (blob & final & [= <-] & _ & _ & [= <-] & Hq & Hs).
  split; [exact Hq|]. split; [reflexivity|]. apply (Hs eq_refl).
  - refine (bool_decide_unpack _ _). vm_compute. exact I.
  - intros [|[|slot]] t Ht; vm_compute in Ht; try discriminate Ht;
      injection Ht as <-; discriminate.
Defined.

Lemma uploadStripedSlot_delivers_witness :
  exists r u, upload_result good false false (uploadStripedSlot true false 6 6 sample_slot).2 r (Some u)
    /\ (forall q, q ∈ slot_requests sample_slot [9] -> q ∈ accepted u)
    /\ length (slot_requests sample_slot [9]) = 3%nat.
Proof.
  destruct (some_success false false (uploadStripedSlot true false 6 6 sample_slot).2) as (r & u & Hr & Hok).
  { eexists _, _, 1%nat, false. split; [lia|]. right. reflexivity. }
  exists r, u. split; [exact Hr|].
  destruct (uploadStripedSlot_delivers true false false 6 6 sample_slot r (Some u) Hr Hok)
    as (blob & final & [= <-] & _ & _ & [= <-] & Hq & _).
  split; [exact Hq|reflexivity].
Defined.

Lemma uploads_settle_witness :
  settles (fun _ => True) (task_step (fun _ => True) true true [] 2 false sample_tasks) (task_init true true [] 2 false sample_tasks) 6
  /\ settles (fun _ => True) (bundle_step (fun _ => True) true true [] 2 false (groupUploadTasksByTarget sample_tasks))
       (bundle_init true true [] 2 false (groupUploadTasksByTarget sample_tasks)) 6.
Proof. exact (uploads_settle (fun _ => True) true true sample_tasks [] 2 false Resolved ltac:(lia) I). Defined.

Lemma silent_rejection_reports_ok_witness :
  exists u, runUploadTasks silent true true sample_tasks [] 2 true u
    /\ ok (result_of u) = true /\ accepted u = [].
Proof. exact (silent_rejection_reports_ok true true sample_tasks [] 2 true ltac:(lia)). Defined.

Lemma tasks_sent_once_witness :
  sent (shared (pool_init firstError (start_task sample_tasks false true) 3 2 true (upload_init 3 [])))
  = map (fun t => [request t]) (take 2 sample_tasks).
Proof.
  destruct (tasks_sent_once accepting true true sample_tasks [] 2 true _ (rtc_refl _ _) ltac:(lia)) as [H _].
  exact H.
Defined.

Lemma transport_stats_exact_witness :
  exists u, upload_result good true true (RunTasks sample_tasks [] 2 false) (result_of u) (Some u)
    /\ bytesSent (stats u) = sent_bytes (sent u).
Proof.
  destruct (some_success true true (RunTasks sample_tasks [] 2 false)) as (r & u & Hr & _).
  { eexists _, _, 2%nat, false. split; [lia|]. left. reflexivity. }
  exists u. assert (r = result_of u) as -> by (inversion Hr; reflexivity). split; [exact Hr|].
  apply (transport_stats_exact good true true _ _ u Hr).
Defined.
