(* ===== verification/Pipeline.v ===== *)
(** * Pipelined uploads (src/polystore-website/src/lib/upload/engine.ts)

    [runPipelinedUploadTaskProducer] uploads artifacts while they are still being
    produced: a producer pulls them from an async iterable into a queue, and
    workers take them from there, sleeping on a list of waiters when there is
    nothing to do.  [uploadPipelinedGeneration] then sends the manifest to every
    target.

    The code between two awaits is one step of the relation [pipe_step], [worker_step]
    when a worker takes it.  The
    iterable and the transport are the environment: the iterable yields, ends or
    throws, the transport accepts or rejects a request, in any order.
    [pulled], [accepted_items] record what the iterable yielded into the queue and
    what the transport accepted. *)

From S2P Require Import Prelude JsNumber JsBytes Sparse Pool Engine Uploads.
Local Open Scope Z_scope.

Record PipelinedUploadArtifact := { p_target : UploadTarget; p_artifact : SparseArtifactInput }.

Record PipelinedManifestBinding := {
  b_manifestRoot : string; b_manifestBlob : bytes; b_manifestBlobFullSize : option number;
  b_manifestTargets : list UploadTarget }.

Record PipelinedGenerationUploadInput := {
  g_dealId : string; g_previousManifestRoot : option string; g_uploadGeneration : string;
  g_manifest : PipelinedManifestBinding }.

(** A worker is about to check for work, sleeps, is about to take an item, uploads
    one, or has returned. *)
Inductive worker :=
| Checking
| Waiting
| Taking
| Uploading (item : PipelinedUploadArtifact)
| Returned.

#[export] Instance worker_is_returned (w : worker) : Decision (w = Returned).
Proof. destruct w; first [left; reflexivity | right; discriminate]. Defined.

Record pipe := {
  producerDone : bool; pipe_error : option string; pipe_stats : UploadTransportStats;
  pipe_queue : list PipelinedUploadArtifact; workers : list worker;
  pipe_events : list UploadTaskEvent;
  pulled : list PipelinedUploadArtifact; accepted_items : list PipelinedUploadArtifact }.

Definition set_workers (l : list worker) (p : pipe) : pipe :=
  {| producerDone := producerDone p; pipe_error := pipe_error p; pipe_stats := pipe_stats p;
     pipe_queue := pipe_queue p; workers := l; pipe_events := pipe_events p; pulled := pulled p;
     accepted_items := accepted_items p |}.
Definition pipe_set_error (m : string) (p : pipe) : pipe :=
  {| producerDone := producerDone p;
     pipe_error := if negb (truthy (pipe_error p)) then Some m else pipe_error p;
     pipe_stats := pipe_stats p; pipe_queue := pipe_queue p; workers := workers p;
     pipe_events := pipe_events p; pulled := pulled p; accepted_items := accepted_items p |}.

(** [wakeWorkers]: every waiter resolves. *)
Definition wake (w : worker) : worker := match w with Waiting => Taking | _ => w end.
Definition wakeWorkers (p : pipe) : pipe := set_workers (map wake (workers p)) p.

Section pipeline.
Context (input : PipelinedGenerationUploadInput) (trackTaskEvents : bool).

(** ** The producer *)

Inductive pull :=
| Yields (item : PipelinedUploadArtifact)
| Ends
| Throws (message : string).

(** [finally { producerDone = true; wakeWorkers() }] *)
Definition producer_end (p : pipe) : pipe :=
  wakeWorkers
    {| producerDone := true; pipe_error := pipe_error p; pipe_stats := pipe_stats p;
       pipe_queue := pipe_queue p; workers := workers p; pipe_events := pipe_events p;
       pulled := pulled p; accepted_items := accepted_items p |}.

Definition produce (x : pull) (p : pipe) : pipe :=
  match x with
  | Yields item =>
      if truthy (pipe_error p) then producer_end p else
      wakeWorkers
        {| producerDone := producerDone p; pipe_error := pipe_error p; pipe_stats := pipe_stats p;
           pipe_queue := pipe_queue p ++ [item]; workers := workers p; pipe_events := pipe_events p;
           pulled := pulled p ++ [item]; accepted_items := accepted_items p |}
  | Ends => producer_end p
  | Throws m => producer_end (pipe_set_error m p)
  end.

(** ** A worker *)

Definition pipe_request (item : PipelinedUploadArtifact) : UploadTransportRequest :=
  {| r_dealId := g_dealId input; r_manifestRoot := "";
     r_previousManifestRoot := g_previousManifestRoot input;
     r_uploadGeneration := Some (g_uploadGeneration input); r_target := p_target item;
     r_artifact := p_artifact item |}.

Definition item_stats (item : PipelinedUploadArtifact) (s : UploadTransportStats) : UploadTransportStats :=
  {| artifactCount := artifactCount s + 1; perArtifactCount := perArtifactCount s + 1;
     bundledArtifactCount := bundledArtifactCount s; bundleCount := bundleCount s;
     requestCount := requestCount s + 1;
     bytesSent := bytesSent s + Z.max 0 (blen (a_bytes (p_artifact item)));
     fallbackCount := fallbackCount s; fallbackReason := fallbackReason s;
     peakActiveUploads := peakActiveUploads s |}.
Definition item_event (phase : event_phase) (item : PipelinedUploadArtifact) (okv : option bool)
    (err : option string) : list UploadTaskEvent :=
  if trackTaskEvents then
    [task_event phase {| stepIndex := -1; request := pipe_request item |} okv err Tartifact None None]
  else [].

(** [if (queue.length > 0 || producerDone || firstError) return], else wait. *)
Definition waitForWork (p : pipe) : worker :=
  if negb (bool_decide (pipe_queue p = [])) || producerDone p || truthy (pipe_error p)
  then Taking else Waiting.

(** The loop of a worker after [waitForWork]; [l1], [l2]: the other workers. *)
Definition take_item (l1 l2 : list worker) (p : pipe) : pipe :=
  if truthy (pipe_error p) || (producerDone p && bool_decide (pipe_queue p = []))
  then set_workers (l1 ++ Returned :: l2) p else
  match pipe_queue p with
  | [] => set_workers (l1 ++ Checking :: l2) p
  | item :: rest =>
      {| producerDone := producerDone p; pipe_error := pipe_error p;
         pipe_stats := item_stats item (pipe_stats p); pipe_queue := rest;
         workers := l1 ++ Uploading item :: l2;
         pipe_events := pipe_events p ++ item_event Pstart item None None; pulled := pulled p;
         accepted_items := accepted_items p |}
  end.

Definition upload_answer (l1 l2 : list worker) (item : PipelinedUploadArtifact) (r : response)
    (p : pipe) : pipe :=
  match r with
  | Resolved =>
      {| producerDone := producerDone p; pipe_error := pipe_error p; pipe_stats := pipe_stats p;
         pipe_queue := pipe_queue p; workers := l1 ++ Checking :: l2;
         pipe_events := pipe_events p ++ item_event Pend item (Some true) None; pulled := pulled p;
         accepted_items := accepted_items p ++ [item] |}
  | Rejected e =>
      let p :=
        {| producerDone := producerDone p; pipe_error := pipe_error p; pipe_stats := pipe_stats p;
           pipe_queue := pipe_queue p; workers := l1 ++ Returned :: l2;
           pipe_events := pipe_events p ++ item_event Pend item (Some false) (Some (message e));
           pulled := pulled p; accepted_items := accepted_items p |} in
      wakeWorkers (pipe_set_error (message e) p)
  end.

(** One step of a worker. *)
Inductive worker_step (answers : response -> Prop) : pipe -> pipe -> Prop :=
| pipe_check p l1 l2 :
    workers p = l1 ++ Checking :: l2 -> worker_step answers p (set_workers (l1 ++ waitForWork p :: l2) p)
| pipe_take p l1 l2 :
    workers p = l1 ++ Taking :: l2 -> worker_step answers p (take_item l1 l2 p)
| pipe_answer p l1 item l2 r :
    workers p = l1 ++ Uploading item :: l2 -> answers r ->
    worker_step answers p (upload_answer l1 l2 item r p).

Inductive pipe_step (answers : response -> Prop) (throws : string -> Prop) : pipe -> pipe -> Prop :=
| pipe_produce p x :
    producerDone p = false -> match x with Throws m => throws m | _ => True end ->
    pipe_step answers throws p (produce x p)
| pipe_worker p q : worker_step answers p q -> pipe_step answers throws p q.

Definition pipe_init (concurrency : nat) : pipe :=
  {| producerDone := false; pipe_error := None; pipe_stats := createUploadTransportStats;
     pipe_queue := []; workers := replicate (Nat.max 1 concurrency) Checking; pipe_events := [];
     pulled := []; accepted_items := [] |}.

(** [Promise.all] settles when the producer and every worker have returned. *)
Definition pipe_done (p : pipe) : Prop :=
  producerDone p = true /\ Forall (fun w => w = Returned) (workers p).

Definition pipe_result (p : pipe) : UploadEngineResult :=
  if truthy (pipe_error p)
  then {| ok := false; res_steps := []; res_error := pipe_error p; transportStats := Some (pipe_stats p) |}
  else {| ok := true; res_steps := []; res_error := None; transportStats := Some (pipe_stats p) |}.

Definition runPipelinedUploadTaskProducer (answers : response -> Prop) (throws : string -> Prop)
    (concurrency : nat) (p : pipe) : Prop :=
  rtc (pipe_step answers throws) (pipe_init concurrency) p /\ pipe_done p.

(** ** [uploadPipelinedGeneration] *)

Definition manifest_request (target : UploadTarget) : UploadTransportRequest :=
  {| r_dealId := g_dealId input; r_manifestRoot := b_manifestRoot (g_manifest input);
     r_previousManifestRoot := g_previousManifestRoot input;
     r_uploadGeneration := Some (g_uploadGeneration input); r_target := target;
     r_artifact := artifact Kmanifest None None (b_manifestBlob (g_manifest input))
                     (b_manifestBlobFullSize (g_manifest input)) |}.

Inductive uploadPipelinedGeneration (answers : response -> Prop) (throws : string -> Prop)
    (directConcurrency : nat) : UploadEngineResult -> pipe -> option upload -> Prop :=
| pipelined_failed p :
    runPipelinedUploadTaskProducer answers throws directConcurrency p ->
    ok (pipe_result p) = false ->
    uploadPipelinedGeneration answers throws directConcurrency (pipe_result p) p None
| pipelined_manifest p u :
    runPipelinedUploadTaskProducer answers throws directConcurrency p ->
    ok (pipe_result p) = true ->
    runUploadTasks answers false trackTaskEvents
      (map (fun target => {| stepIndex := -1; request := manifest_request target |})
         (b_manifestTargets (g_manifest input))) [] directConcurrency false u ->
    uploadPipelinedGeneration answers throws directConcurrency
      {| ok := ok (result_of u); res_steps := res_steps (result_of u);
         res_error := res_error (result_of u);
         transportStats :=
           mergeUploadTransportStats [transportStats (pipe_result p); transportStats (result_of u)] |}
      p (Some u).

End pipeline.

(** ** Invariants *)

Definition in_flight (w : worker) : list PipelinedUploadArtifact :=
  match w with Uploading item => [item] | _ => [] end.
Definition flying_items (p : pipe) : list PipelinedUploadArtifact := concat (map in_flight (workers p)).

(** Sleeping workers have nothing to do; returned ones had nothing left to do. *)
Record wake_inv (p : pipe) : Prop := {
  w_waiting : Waiting ∈ workers p ->
    pipe_queue p = [] /\ producerDone p = false /\ truthy (pipe_error p) = false }.

(** With messages on every rejection, nothing pulled is lost without an error. *)
Record item_inv (p : pipe) : Prop := {
  i_items : truthy (pipe_error p) = true
    \/ pulled p ≡ₚ pipe_queue p ++ flying_items p ++ accepted_items p;
  i_returned : Returned ∈ workers p ->
    truthy (pipe_error p) = true \/ (producerDone p = true /\ pipe_queue p = []) }.

Lemma waiting_not_woken l : Waiting ∉ map wake l.
Proof. intros (w & Hw & _)%list_elem_of_fmap. by destruct w. Qed.

Lemma wake_flying l : concat (map in_flight (map wake l)) = concat (map in_flight l).
Proof. induction l as [|w l IH]; cbn; [done|]. rewrite IH. by destruct w. Qed.

Lemma wake_returned l : Returned ∈ map wake l -> Returned ∈ l.
Proof. intros (w & Hw & Hin)%list_elem_of_fmap. by destruct w. Qed.

Lemma elem_of_middle {A} (x y : A) l1 l2 : x ∈ l1 ++ y :: l2 -> x = y \/ x ∈ l1 ++ l2.
Proof. rewrite !elem_of_app, elem_of_cons. tauto. Qed.
Lemma elem_of_others {A} (x y : A) l1 l2 : x ∈ l1 ++ l2 -> x ∈ l1 ++ y :: l2.
Proof. rewrite !elem_of_app, elem_of_cons. tauto. Qed.

Lemma flying_middle l1 w l2 :
  concat (map in_flight (l1 ++ w :: l2)) ≡ₚ in_flight w ++ concat (map in_flight (l1 ++ l2)).
Proof. rewrite !map_app, !concat_app. cbn. solve_Permutation. Qed.

Section pipeline_laws.
Context (input : PipelinedGenerationUploadInput) (trackTaskEvents : bool).
Abbreviation pstep := (pipe_step input trackTaskEvents).

Lemma wake_step answers throws p q : pstep answers throws p q -> wake_inv p -> wake_inv q.
Proof.
  intros Hs [Hw]. destruct Hs as [p x Hd Hx|? ? [p l1 l2 Hl|p l1 l2 Hl|p l1 item l2 r Hl Hr]].
  - constructor. destruct x as [item| |m]; cbn [produce].
    + destruct (truthy (pipe_error p)); intros Hin; by apply waiting_not_woken in Hin.
    + intros Hin. by apply waiting_not_woken in Hin.
    + intros Hin. by apply waiting_not_woken in Hin.
  - constructor. cbn. intros [He|Hin]%elem_of_middle; [|apply Hw; rewrite Hl; by apply elem_of_others].
    unfold waitForWork in He. destruct (_ || _) eqn:E; [done|].
    rewrite !orb_false_iff, negb_false_iff, bool_decide_eq_true in E. tauto.
  - constructor. unfold take_item. destruct (_ || _) eqn:E; cbn.
    { intros [?|Hin]%elem_of_middle; [done|]. apply Hw. rewrite Hl. by apply elem_of_others. }
    destruct (pipe_queue p) as [|item rest] eqn:Hq; cbn; intros [?|Hin]%elem_of_middle; try done.
    + rewrite Hq. apply Hw. rewrite Hl. by apply elem_of_others.
    + destruct Hw as (Hnil & _ & _); [rewrite Hl; by apply elem_of_others|]. done.
  - constructor. destruct r as [|e]; cbn.
    + intros [?|Hin]%elem_of_middle; [done|]. apply Hw. rewrite Hl. by apply elem_of_others.
    + intros Hin. by apply waiting_not_woken in Hin.
Qed.

Lemma item_step p q :
  pstep good (fun m => m <> "") p q -> item_inv p -> item_inv q.
Proof.
  intros Hs [Hi Hret]. destruct Hs as [p x Hd Hx|? ? [p l1 l2 Hl|p l1 l2 Hl|p l1 item l2 r Hl Hr]].
  - destruct x as [item| |m]; cbn [produce].
    + destruct (truthy (pipe_error p)) eqn:Ht; [by constructor; cbn; left|]. constructor; cbn.
      * right. unfold flying_items in *. cbn. rewrite wake_flying. destruct Hi as [?|Hi]; [congruence|].
        rewrite Hi. solve_Permutation.
      * intros Hin%wake_returned. destruct (Hret Hin) as [?|[? _]]; congruence.
    + constructor; cbn; unfold flying_items in *; cbn; rewrite ?wake_flying; [done|].
      intros Hin%wake_returned. destruct (Hret Hin) as [?|[? ?]]; [by left|by right].
    + assert (truthy (if negb (truthy (pipe_error p)) then Some m else pipe_error p) = true) as Ht.
      { destruct (truthy (pipe_error p)) eqn:E; cbn; [done|]. by apply negb_true_iff, String.eqb_neq. }
      constructor; cbn; by left.
  - constructor; unfold flying_items in *; cbn.
    + destruct Hi as [?|Hi]; [by left|right]. rewrite Hi, Hl, !flying_middle.
      unfold waitForWork. by case_match.
    + intros [He|Hin]%elem_of_middle; [unfold waitForWork in He; by case_match|].
      apply Hret. rewrite Hl. by apply elem_of_others.
  - unfold take_item. destruct (_ || _) eqn:E.
    + constructor; unfold flying_items in *; cbn.
      * destruct Hi as [?|Hi]; [by left|right]. rewrite Hi, Hl, !flying_middle. done.
      * intros _. apply orb_true_iff in E as [?|E]; [by left|right].
        by rewrite andb_true_iff, bool_decide_eq_true in E.
    + apply orb_false_iff in E as [Et _]. destruct (pipe_queue p) as [|item rest] eqn:Hq.
      * constructor; unfold flying_items in *; cbn; rewrite Hq.
        -- destruct Hi as [?|Hi]; [by left|right]. rewrite Hi, Hl, !flying_middle. done.
        -- intros [He|Hin]%elem_of_middle; [done|]. apply Hret. rewrite Hl. by apply elem_of_others.
      * constructor; unfold flying_items in *; cbn.
        -- right. destruct Hi as [?|Hi]; [congruence|]. rewrite Hi, Hl, !flying_middle. cbn. solve_Permutation.
        -- intros [He|Hin]%elem_of_middle; [done|].
           destruct Hret as [?|[_ ?]]; [rewrite Hl; by apply elem_of_others|congruence|congruence].
  - destruct r as [|e].
    + constructor; unfold flying_items in *; cbn.
      * destruct Hi as [?|Hi]; [by left|right]. rewrite Hi, Hl, !flying_middle. cbn. solve_Permutation.
      * intros [He|Hin]%elem_of_middle; [done|]. apply Hret. rewrite Hl. by apply elem_of_others.
    + assert (truthy (if negb (truthy (pipe_error p)) then Some (message e) else pipe_error p) = true) as Ht.
      { destruct (truthy (pipe_error p)) eqn:E; cbn; [done|]. by apply negb_true_iff, String.eqb_neq. }
      constructor; cbn; by left.
Qed.

Lemma pipe_init_inv c : wake_inv (pipe_init c) /\ item_inv (pipe_init c).
Proof.
  assert (forall w n, w ∈ replicate n Checking -> w = Checking) as Hrep
    by (intros w n Hin; by apply elem_of_replicate in Hin as [-> _]).
  split; constructor; cbn [workers pipe_init].
  - by intros Hin%Hrep.
  - right. unfold flying_items. cbn [workers pipe_init]. induction (Nat.max 1 c); cbn in *; done.
  - by intros Hin%Hrep.
Qed.

Lemma pipe_reach_wake answers throws c p :
  rtc (pstep answers throws) (pipe_init c) p -> wake_inv p.
Proof.
  intros Hr. eapply (rtc_preserves _ wake_inv); [|exact Hr|apply pipe_init_inv].
  intros x y. apply wake_step.
Qed.

Lemma pipe_reach_items c p :
  rtc (pstep good (fun m => m <> "")) (pipe_init c) p -> item_inv p.
Proof.
  intros Hr. eapply (rtc_preserves _ item_inv); [|exact Hr|apply pipe_init_inv].
  intros x y. apply item_step.
Qed.

(** A finished run without error: everything pulled was accepted. *)
Lemma pipe_delivered c p :
  runPipelinedUploadTaskProducer input trackTaskEvents good (fun m => m <> "") c p ->
  ok (pipe_result p) = true -> workers p <> [] -> accepted_items p ≡ₚ pulled p.
Proof.
  intros [Hr [Hd Hw]] Hok Hne. apply pipe_reach_items in Hr as [Hi Hret].
  assert (truthy (pipe_error p) = false) as Ht by (unfold pipe_result in Hok; by case_match).
  destruct Hi as [?|Hi]; [congruence|]. destruct (workers p) as [|w l] eqn:Hws; [done|].
  assert (w = Returned) as -> by (by apply Forall_cons in Hw as [? _]).
  destruct Hret as [?|[_ Hq]]; [left|congruence|].
  rewrite Hi, Hq. unfold flying_items. rewrite Hws. cbn [app].
  assert (concat (map in_flight (Returned :: l)) = []) as ->; [|done].
  clear -Hw. induction Hw as [|w' l' -> _ IH]; [done|]. exact IH.
Qed.

Lemma pstep_workers answers throws p q :
  pstep answers throws p q -> length (workers q) = length (workers p).
Proof.
  intros [? x _ _|? ? [? l1 l2 Hl|? l1 l2 Hl|? l1 item l2 r Hl _]].
  - destruct x; cbn; repeat case_match; cbn; by rewrite length_map.
  - cbn. rewrite Hl, !length_app. done.
  - unfold take_item. repeat case_match; cbn; rewrite Hl, !length_app; done.
  - destruct r; cbn; rewrite ?length_map, Hl, !length_app; done.
Qed.

Lemma pipe_reach_workers answers throws c p :
  rtc (pstep answers throws) (pipe_init c) p -> workers p <> [].
Proof.
  intros Hr. enough (length (workers p) = Nat.max 1 c) as Hl.
  { intros Hz. rewrite Hz in Hl. cbn in Hl. lia. }
  eapply (rtc_preserves _ (fun p => length (workers p) = Nat.max 1 c)); [|exact Hr|].
  - intros x y Hs Hx. by rewrite (pstep_workers _ _ _ _ Hs).
  - apply length_replicate.
Qed.

(** ** Progress *)

Definition worker_work (w : worker) : nat :=
  match w with Checking => 3 | Waiting => 3 | Taking => 2 | Uploading _ => 4 | Returned => 0 end.
Definition pipe_work (p : pipe) : nat :=
  5 * length (pipe_queue p) + sum_list (map worker_work (workers p)).

Lemma sum_middle l1 w l2 :
  sum_list (map worker_work (l1 ++ w :: l2))
  = (worker_work w + sum_list (map worker_work (l1 ++ l2)))%nat.
Proof. rewrite !map_app, !sum_list_app. cbn. lia. Qed.

Lemma pipe_work_bound p : (pipe_work p <= 5 * length (pipe_queue p) + 4 * length (workers p))%nat.
Proof.
  unfold pipe_work. enough (sum_list (map worker_work (workers p)) <= 4 * length (workers p))%nat by lia.
  induction (workers p) as [|w l IH]; cbn; [lia|]. destruct w; cbn; lia.
Qed.

Lemma wake_work l : (sum_list (map worker_work (map wake l)) <= sum_list (map worker_work l))%nat.
Proof. induction l as [|w l IH]; cbn; [lia|]. destruct w; cbn; lia. Qed.

(** Once the producer is done, every step does some of the work left. *)
Lemma pipe_drains answers throws p q :
  producerDone p = true -> pstep answers throws p q ->
  producerDone q = true /\ (pipe_work q < pipe_work p)%nat.
Proof.
  intros Hd Hs. unfold pipe_work.
  destruct Hs as [p x Hd' _|? ? [p l1 l2 Hl|p l1 l2 Hl|p l1 item l2 r Hl _]]; [congruence| | |].
  - split; [done|]. cbn. rewrite Hl, !sum_middle. unfold waitForWork. rewrite Hd, orb_true_r. cbn. lia.
  - unfold take_item. rewrite Hd. destruct (pipe_queue p) as [|item rest] eqn:Hq.
    + rewrite bool_decide_eq_true_2, orb_true_r by done. split; [done|]. cbn. rewrite Hq, Hl, !sum_middle. cbn. lia.
    + rewrite bool_decide_eq_false_2, orb_false_r by done.
      destruct (truthy (pipe_error p)); (split; [done|]); cbn; rewrite ?Hq, Hl, !sum_middle; cbn; lia.
  - destruct r as [|e]; (split; [done|]); cbn; rewrite Hl.
    + rewrite !sum_middle. cbn. lia.
    + pose proof (wake_work (l1 ++ Returned :: l2)) as Hw. rewrite sum_middle in Hw |- *. cbn in *. lia.
Qed.

(** [waitForWork]'s condition: there is something for a worker to do. *)
Definition awake (p : pipe) : bool :=
  negb (bool_decide (pipe_queue p = [])) || producerDone p || truthy (pipe_error p).

(** What a worker does before it uploads, returns or sleeps. *)
Definition drive (b : bool) (w : worker) : nat :=
  match w with
  | Checking => if b then 3 else 2 | Taking => if b then 2 else 3 | Waiting => 1 | Uploading _ => 0 | Returned => 0
  end.
Definition drives (b : bool) (l : list worker) : nat := sum_list (map (drive b) l).
Definition uploads_left (p : pipe) : nat := 2 * length (pipe_queue p) + length (flying_items p).
Definition drain (p : pipe) : nat := (3 * length (workers p) + 1) * uploads_left p + drives (awake p) (workers p).

Lemma drives_bound b l : (drives b l <= 3 * length l)%nat.
Proof. unfold drives. induction l as [|w l IH]; cbn; [lia|]. destruct w, b; cbn in *; lia. Qed.
Lemma drives_middle b l1 w l2 : drives b (l1 ++ w :: l2) = (drive b w + drives b (l1 ++ l2))%nat.
Proof. unfold drives. rewrite !map_app, !sum_list_app. cbn. lia. Qed.
Lemma flying_count l1 w l2 :
  length (concat (map in_flight (l1 ++ w :: l2))) = (length (in_flight w) + length (concat (map in_flight (l1 ++ l2))))%nat.
Proof. by rewrite (flying_middle l1 w l2), length_app. Qed.

(** An upload that starts or is answered pays for whatever it wakes. *)
Lemma drain_pays p q : length (workers q) = length (workers p) -> (uploads_left q < uploads_left p)%nat -> (drain q < drain p)%nat.
Proof. intros Hw Hn. unfold drain. pose proof (drives_bound (awake q) (workers q)) as Hb. rewrite Hw in *. nia. Qed.

(** A step that starts and ends no upload brings its worker on. *)
Lemma drain_drives p l1 w w' l2 : workers p = l1 ++ w :: l2 -> in_flight w = [] -> in_flight w' = [] ->
  (drive (awake p) w' < drive (awake p) w)%nat -> (drain (set_workers (l1 ++ w' :: l2) p) < drain p)%nat.
Proof.
  intros Hl Hw Hw' Hlt. unfold drain, uploads_left, flying_items. cbn [pipe_queue workers set_workers].
  change (awake (set_workers _ p)) with (awake p). rewrite Hl, !flying_count, Hw, Hw', !length_app, !drives_middle. cbn [length]. lia.
Qed.

Lemma worker_drains answers p q : worker_step input trackTaskEvents answers p q -> (drain q < drain p)%nat.
Proof.
  intros Hs. pose proof (pstep_workers answers (fun _ => True) _ _ (pipe_worker _ _ _ _ _ _ Hs)) as Hlen.
  destruct Hs as [p l1 l2 Hl|p l1 l2 Hl|p l1 item l2 r Hl Hr].
  - apply (drain_drives _ _ Checking); [done.. | by unfold waitForWork; case_match |].
    unfold waitForWork. fold (awake p). destruct (awake p); cbn; lia.
  - unfold take_item in *. destruct (_ || _) eqn:E.
    { apply (drain_drives _ _ Taking); [done..|]. destruct (awake p); cbn; lia. }
    destruct (pipe_queue p) as [|item rest] eqn:Hq.
    + apply (drain_drives _ _ Taking); [done..|]. apply orb_false_iff in E as [E1 E2]. rewrite bool_decide_eq_true_2, andb_true_r in E2 by done.
      unfold awake. rewrite Hq, bool_decide_eq_true_2, E1, E2 by done. cbn. lia.
    + apply drain_pays; [exact Hlen|]. unfold uploads_left, flying_items. cbn. rewrite Hq, Hl, !flying_count. cbn. lia.
  - apply drain_pays; [exact Hlen|]. unfold uploads_left, flying_items.
    destruct r; cbn; rewrite ?wake_flying, Hl, !flying_count; cbn; lia.
Qed.

Lemma worker_progress answers p r0 : answers r0 -> ~ Forall (fun w => w = Returned \/ w = Waiting) (workers p) ->
  exists q, worker_step input trackTaskEvents answers p q.
Proof.
  intros Hr0 Hn. apply not_Forall_Exists in Hn; [|intros w; destruct w; first [left; by auto | right; intros [?|?]; discriminate]].
  apply Exists_exists in Hn as (w & Hin & Hw). apply list_elem_of_split in Hin as (l1 & l2 & Hl).
  destruct w as [| | |item|]; [| by destruct Hw; right | | | by destruct Hw; left]; eexists.
  - by eapply pipe_check.
  - by eapply pipe_take.
  - by eapply pipe_answer.
Qed.

Lemma pipe_progress answers throws c p r0 :
  answers r0 -> rtc (pstep answers throws) (pipe_init c) p -> ~ pipe_done p ->
  exists q, pstep answers throws p q.
Proof.
  intros Hr0 Hr Hnd. destruct (producerDone p) eqn:Hd.
  2: { eexists. by eapply (pipe_produce _ _ _ _ p Ends). }
  pose proof (pipe_reach_wake _ _ _ _ Hr) as [Hw]. destruct (worker_progress answers p r0 Hr0) as [q Hq]; [|by exists q; apply pipe_worker].
  intros Hall. apply Hnd. split; [done|]. rewrite Forall_forall in Hall |- *. intros w Hin.
  destruct (Hall w Hin) as [ | -> ]; [done|]. destruct (Hw Hin) as (_ & ? & _). congruence.
Qed.

End pipeline_laws.

(** C11: A pipelined upload ([uploadPipelinedGeneration]) that reports success has
    delivered every artifact the iterable produced, each as often as it was
    produced, and after that the manifest to every manifest target: the manifest
    is sent only when all artifacts were accepted.  Rejections and exceptions of
    the iterable are assumed to carry a message. *)
Theorem pipelined_upload_delivers input onTaskEvent concurrency r p u :
  uploadPipelinedGeneration input onTaskEvent good (fun m => m <> "") concurrency r p u ->
  ok r = true -> (0 < concurrency)%nat ->
  accepted_items p ≡ₚ pulled p /\ pipe_done p
  /\ exists final, u = Some final
     /\ forall target, target ∈ b_manifestTargets (g_manifest input) ->
          manifest_request input target ∈ accepted final.
Proof.
  intros Hr Hok Hc. destruct Hr as [p Hp Hf|p final Hp Hf Hm]; [congruence|].
  split; [eapply pipe_delivered; [exact Hp|done|]; eapply pipe_reach_workers, Hp|].
  split; [apply Hp|]. exists final. split; [done|]. intros target Ht.
  pose proof (tasks_delivered _ _ _ _ _ _ _ (or_introl Hc) (List.Forall_nil _) Hm Hok) as Hd.
  rewrite Forall_fmap, Forall_forall in Hd. exact (proj1 (Hd target Ht)).
Qed.

(** C26: The pipelined producer cannot hang, and no wake-up is lost.  Whatever has happened,
    a worker sleeps only while the queue is empty, the input goes on and there is no error;
    while some worker neither sleeps nor has returned, there is a step that a worker can
    take, whatever the producer does; with [W] workers the workers alone take at most
    [3 W + 1] steps for each upload that is to start or to be answered, and [3 W] more, and
    then all sleep or have returned.  Until the producer and all workers have returned
    there is a next step, and once the input has ended the remaining steps are bounded by
    five per queued artifact and four per worker. *)
Theorem pipeline_never_stalls input onTaskEvent answers throws concurrency p r0 :
  answers r0 ->
  rtc (pipe_step input onTaskEvent answers throws) (pipe_init concurrency) p ->
  (Waiting ∈ workers p -> pipe_queue p = [] /\ producerDone p = false /\ truthy (pipe_error p) = false)
  /\ (~ Forall (fun w => w = Returned \/ w = Waiting) (workers p) -> exists q, worker_step input onTaskEvent answers p q)
  /\ (forall k q, nsteps (worker_step input onTaskEvent answers) k p q ->
       (k <= (3 * length (workers p) + 1) * (2 * length (pipe_queue p) + length (flying_items p)) + 3 * length (workers p))%nat)
  /\ (~ pipe_done p -> exists q, pipe_step input onTaskEvent answers throws p q)
  /\ (producerDone p = true -> forall k q,
        nsteps (pipe_step input onTaskEvent answers throws) k p q ->
        (k <= 5 * length (pipe_queue p) + 4 * length (workers p))%nat).
Proof.
  intros Hr0 Hr. split; [apply (pipe_reach_wake _ _ _ _ _ _ Hr)|]. split; [by eapply worker_progress|].
  split; [|split; [by eapply pipe_progress|]].
  - intros k q Hk. pose proof (drives_bound (awake p) (workers p)) as Hb. enough (k + drain q <= drain p)%nat as Hle
      by (unfold drain, uploads_left in Hle; lia).
    clear Hr Hb. induction Hk as [p|k p p1 q Hs Hk IH]; [lia|]. pose proof (worker_drains _ _ _ _ _ Hs). lia.
  - intros Hd k q Hk. pose proof (pipe_work_bound p). enough (k + pipe_work q <= pipe_work p)%nat by lia.
    revert Hd. clear Hr. induction Hk as [p|k p p1 q Hs Hk IH]; intros Hd; [lia|].
    destruct (pipe_drains _ _ _ _ _ _ Hd Hs) as [Hd1 Hlt]. specialize (IH (pipe_work_bound p1) Hd1). lia.
Qed.

(** ** Instances *)

Definition sample_generation : PipelinedGenerationUploadInput :=
  {| g_dealId := "7"; g_previousManifestRoot := None; g_uploadGeneration := "g1";
     g_manifest := {| b_manifestRoot := "0xab"; b_manifestBlob := [9]; b_manifestBlobFullSize := None;
                      b_manifestTargets := [sample_target "a"; sample_target "b"] |} |}.
Definition sample_item : PipelinedUploadArtifact :=
  {| p_target := sample_target "a";
     p_artifact := artifact Kmdu (Some 0) None [1; 2] None |}.

(** One artifact is produced, uploaded by one worker and accepted. *)
Lemma sample_pipeline :
  exists p, runPipelinedUploadTaskProducer sample_generation true good (fun m => m <> "") 1 p
    /\ ok (pipe_result p) = true /\ pulled p = [sample_item].
Proof.
  eexists. split; [split|split].
  - eapply rtc_l; [apply (pipe_produce _ _ _ _ _ (Yields sample_item)); [reflexivity|exact I]|].
    eapply rtc_l; [apply pipe_worker, (pipe_check _ _ _ _ [] []); reflexivity|].
    eapply rtc_l; [apply pipe_worker, (pipe_take _ _ _ _ [] []); reflexivity|].
    eapply rtc_l; [apply pipe_worker, (pipe_answer _ _ _ _ [] sample_item [] Resolved); [reflexivity|exact I]|].
    eapply rtc_l; [apply (pipe_produce _ _ _ _ _ Ends); [reflexivity|exact I]|].
    eapply rtc_l; [apply pipe_worker, (pipe_check _ _ _ _ [] []); reflexivity|].
    eapply rtc_l; [apply pipe_worker, (pipe_take _ _ _ _ [] []); reflexivity|].
    apply rtc_refl.
  - split; [reflexivity|]. by repeat constructor.
  - reflexivity.
  - reflexivity.
Qed.

Lemma pipelined_upload_delivers_witness :
  exists r p final,
    uploadPipelinedGeneration sample_generation true good (fun m => m <> "") 1 r p (Some final)
    /\ accepted_items p ≡ₚ [sample_item]
    /\ manifest_request sample_generation (sample_target "b") ∈ accepted final.
Proof.
  destruct sample_pipeline as (p & Hp & Hok & Hpulled).
  destruct (tasks_settle accepting Resolved false true
    (map (fun target => {| stepIndex := -1; request := manifest_request sample_generation target |})
       (b_manifestTargets (g_manifest sample_generation))) [] 1 false) as [final Hf]; [done|by left; lia|].
  pose proof (tasks_success _ _ _ _ _ _ _ Hf) as Hsucc.
  assert (Hg : runUploadTasks good false true
    (map (fun target => {| stepIndex := -1; request := manifest_request sample_generation target |})
       (b_manifestTargets (g_manifest sample_generation))) [] 1 false final).
  { destruct Hf as (q & Hq & Hres). exists q. split; [|exact Hres].
    eapply reachable_mono; [|exact Hq]. by intros r ->. }
  pose proof (pipelined_manifest _ _ _ _ _ _ _ Hp Hok Hg) as Hrun.
  eexists _, p, final. split; [exact Hrun|].
  destruct (pipelined_upload_delivers _ _ _ _ _ _ Hrun Hsucc ltac:(lia)) as (Ha & _ & x & [= <-] & Hm).
  split; [by rewrite <- Hpulled|]. apply Hm. right. left.
Defined.

(** An artifact was queued while a worker was asleep. *)
Lemma sample_wakes : exists p,
  rtc (pipe_step sample_generation true (fun _ => True) (fun _ => True)) (pipe_init 1) p
  /\ pipe_queue p = [sample_item] /\ workers p = [Taking].
Proof.
  eexists. split; [|split].
  - eapply rtc_l; [apply pipe_worker, (pipe_check _ _ _ _ [] []); reflexivity|].
    eapply rtc_l; [apply (pipe_produce _ _ _ _ _ (Yields sample_item)); [reflexivity|exact I]|]. apply rtc_refl.
  - reflexivity.
  - reflexivity.
Qed.

Lemma pipeline_never_stalls_witness : exists p,
  pipe_queue p = [sample_item] /\ (exists q, worker_step sample_generation true (fun _ => True) p q)
  /\ forall k q, nsteps (worker_step sample_generation true (fun _ => True)) k p q -> (k <= 11)%nat.
Proof.
  destruct sample_wakes as (p & Hp & Hq & Hw). exists p. split; [exact Hq|].
  destruct (pipeline_never_stalls sample_generation true (fun _ => True) (fun _ => True) 1 p Resolved I Hp) as (_ & H1 & H2 & _).
  unfold flying_items in H2. rewrite Hw, Hq in *. split; [|exact H2].
  apply H1. intros [[?|?] _]%Forall_cons; discriminate.
Defined.
