(* ===== verification/Router.v ===== *)
(** * The transport router

    Models src/polystore-website/src/lib/transport/: the classification of errors
    (errors.ts), the choice of a route preference (mode.ts), the candidates of a
    retrieval (v3Candidates.ts) and [executeWithFallback] (router.ts), which tries
    candidates in order, again on the same backend while the error is worth a
    retry, and reports every attempt.

    A candidate's [execute] is the environment: [run n c] is what the [n]-th
    attempt of the call comes to when it is made on [c].  Times are not modelled;
    the delays between attempts are recorded. *)

From S2P Require Import Prelude JsString JsText.
From Stdlib Require Import Ascii.
Local Open Scope Z_scope.

Inductive TransportOp := op_upload | op_fetch | op_list_files | op_slab | op_plan
  | op_manifest_info | op_mdu_kzg.
Inductive RoutePreference := auto | prefer_gateway | gateway_only | prefer_direct_sp | prefer_p2p.
Inductive BackendName := gateway | direct_sp | libp2p.
Inductive ErrorClass := timeout | connection_refused | dns | http_429 | http_4xx | http_5xx | cors
  | provider_mismatch | invalid_response | unknown.

#[export] Instance preference_eq_dec : EqDecision RoutePreference.
Proof. solve_decision. Defined.
#[export] Instance backend_eq_dec : EqDecision BackendName.
Proof. solve_decision. Defined.
#[export] Instance class_eq_dec : EqDecision ErrorClass.
Proof. solve_decision. Defined.

(** ** errors.ts *)

(** What an [execute] may throw. *)
Inductive thrown :=
| ThrownTransport (message : string) (errorClass : ErrorClass) (status : option Z)
| ThrownError (name message : string)
| ThrownOther.

Record classified := { c_errorClass : ErrorClass; c_status : option Z; c_message : string }.

Definition classifyError (err : thrown) : classified :=
  match err with
  | ThrownTransport m c st => {| c_errorClass := c; c_status := st; c_message := m |}
  | ThrownError name m =>
      if bool_decide (name = "AbortError")
      then {| c_errorClass := timeout; c_status := None; c_message := m |} else
      let msg := if bool_decide (m = "") then "unknown error" else m in
      let lower := toLowerCase msg in
      let class c := {| c_errorClass := c; c_status := None; c_message := msg |} in
      if includes lower "provider mismatch" then class provider_mismatch
      else if includes lower "cors" then class cors
      else if includes lower "failed to fetch" || includes lower "networkerror"
              || includes lower "network error" then class connection_refused
      else if includes lower "dns" || includes lower "not known" || includes lower "not found"
      then class dns
      else class unknown
  | ThrownOther => {| c_errorClass := unknown; c_status := None; c_message := "unknown error" |}
  end.

Definition classifyStatus (status : Z) : ErrorClass :=
  if status =? 429 then http_429
  else if 500 <=? status then http_5xx
  else if 400 <=? status then http_4xx
  else unknown.

Definition isRetryable (c : ErrorClass) : bool :=
  match c with timeout | connection_refused | dns | http_5xx | http_429 => true | _ => false end.

Definition isTerminal (c : ErrorClass) : bool :=
  match c with provider_mismatch | invalid_response => true | _ => false end.

(** ** mode.ts *)

Definition resolveTransportPreference (candidate : RoutePreference)
    (gatewayDisabled p2pEnabled localGatewayConnected : bool) : RoutePreference :=
  if bool_decide (candidate = gateway_only) then candidate
  else if gatewayDisabled then
    if bool_decide (candidate = prefer_p2p) && p2pEnabled then prefer_p2p else prefer_direct_sp
  else if negb localGatewayConnected then
    if bool_decide (candidate = prefer_p2p) && p2pEnabled then prefer_p2p else prefer_direct_sp
  else if bool_decide (candidate = auto) then prefer_gateway
  else if bool_decide (candidate = prefer_p2p) && negb p2pEnabled then auto
  else candidate.

Definition allowNonGatewayBackends (preference : RoutePreference) : bool :=
  negb (bool_decide (preference = gateway_only)).

(** [new URL] is an argument: the host name and the port of a base, or nothing when
    it throws. *)
Definition isTrustedLocalGatewayBase (parse_url : string -> option (string * string)) (base : string)
    : bool :=
  let raw := trim base in
  if bool_decide (raw = "") then false else
  match parse_url raw with
  | None => false
  | Some (hostname, port) =>
      let host := toLowerCase hostname in
      let isLoopback := bool_decide (host = "localhost") || bool_decide (host = "127.0.0.1")
                        || bool_decide (host = "::1") || bool_decide (host = "[::1]") in
      if negb isLoopback then false
      else if bool_decide (port = "") then false
      else bool_decide (port = "8080") || bool_decide (port = "18080")
  end.

Definition isGatewayTransportEnabled (parse_url : string -> option (string * string))
    (gatewayDisabled : bool) (gatewayBase : string) (localGatewayConnected : bool) : bool :=
  if gatewayDisabled then false
  else if negb localGatewayConnected then false
  else isTrustedLocalGatewayBase parse_url gatewayBase.

Inductive LocalGatewayStatus := gw_disconnected | gw_connecting | gw_connected | gw_error.

Definition isGatewayMode2UploadEnabled (parse_url : string -> option (string * string))
    (gatewayDisabled : bool) (gatewayBase : string) (status : LocalGatewayStatus) : bool :=
  isGatewayTransportEnabled parse_url gatewayDisabled gatewayBase
    (match status with gw_connected => true | _ => false end).

(** ** v3Candidates.ts *)

(** A candidate; [execute] is the environment's. *)
Record TransportCandidate := { backend : BackendName; endpoint : string }.

(** [s.replace(/\/$/, '')] *)
Definition strip_slash (s : string) : string := if endsWith_char s "/" then slice_last s else s.

Fixpoint directCandidates (seen : list string) (directBases : list string)
    : list TransportCandidate :=
  match directBases with
  | [] => []
  | raw :: directBases =>
      let base := strip_slash (trim raw) in
      if bool_decide (base = "") || bool_decide (base ∈ seen) then directCandidates seen directBases
      else {| backend := direct_sp; endpoint := base |} :: directCandidates (base :: seen) directBases
  end.

Definition v3RetrievalCandidates (preference : RoutePreference) (gatewayBase : option string)
    (directBases : list string) : list TransportCandidate :=
  let gw := strip_slash (default "" gatewayBase) in
  let candidates :=
    if bool_decide (gw = "") then [] else [{| backend := gateway; endpoint := gw |}] in
  if negb (allowNonGatewayBackends preference) then candidates
  else candidates ++ directCandidates (if bool_decide (gw = "") then [] else [gw]) directBases.

(** ** router.ts *)

Record TransportAttempt := {
  at_backend : BackendName; at_endpoint : string; at_ok : bool; at_status : option Z;
  at_errorClass : option ErrorClass; at_errorMessage : option string }.

Record DecisionTrace := {
  tr_op : TransportOp; tr_preference : RoutePreference; tr_attempts : list TransportAttempt;
  tr_chosen : option (BackendName * string) }.

Record TransportRouterOptions := {
  preference : RoutePreference; maxAttemptsPerBackend : option Z; maxTotalAttempts : option Z }.

Definition backoffMs (errorClass : ErrorClass) (attempt : Z) : Z :=
  if negb (bool_decide (errorClass = http_429)) then 0 else
  Z.min (250 * 2 ^ Z.max 0 (attempt - 1)) 2000.

(** [l.sort(compare)]: stable, so an insertion sort that puts an element in front of
    the later elements that compare equal to it. *)
Section sort_by.
Context {A : Type} (compare : A -> A -> Z).
Fixpoint insert_by (x : A) (l : list A) : list A :=
  match l with
  | [] => [x]
  | y :: l' => if compare x y <=? 0 then x :: l else y :: insert_by x l'
  end.
Definition sort_by (l : list A) : list A := foldr insert_by [] l.
End sort_by.

Definition preferred (p : RoutePreference) : list BackendName :=
  match p with
  | prefer_gateway | gateway_only => [gateway]
  | prefer_p2p => [libp2p]
  | _ => [direct_sp]
  end.

Definition orderCandidates (p : RoutePreference) (candidates : list TransportCandidate)
    : list TransportCandidate :=
  if bool_decide (p = auto) then candidates else
  let has b := bool_decide (b ∈ preferred p) in
  sort_by (fun a b =>
    if bool_decide (backend a = backend b) then 0
    else if has (backend a) && negb (has (backend b)) then -1
    else if negb (has (backend a)) && has (backend b) then 1
    else 0) candidates.

Section execute.
Context {T : Type} (run : nat -> TransportCandidate -> T + thrown).
Context (maxPerBackend maxTotal : Z).

(** [totalAttempts], [attempts] and the delays slept so far. *)
Record progress := { totalAttempts : Z; attempts : list TransportAttempt; delays : list Z }.

Definition success_attempt (c : TransportCandidate) : TransportAttempt :=
  {| at_backend := backend c; at_endpoint := endpoint c; at_ok := true; at_status := None;
     at_errorClass := None; at_errorMessage := None |}.
Definition failure_attempt (c : TransportCandidate) (e : classified) : TransportAttempt :=
  {| at_backend := backend c; at_endpoint := endpoint c; at_ok := false; at_status := c_status e;
     at_errorClass := Some (c_errorClass e); at_errorMessage := Some (c_message e) |}.

(** The [while] loop over the attempts on one candidate; [n] bounds how many are
    left on this backend. *)
Fixpoint backendLoop (c : TransportCandidate) (n : nat) (backendAttempts : Z) (p : progress)
    : progress * option T :=
  match n with
  | O => (p, None)
  | S n =>
      if (backendAttempts <? maxPerBackend) && (totalAttempts p <? maxTotal) then
        let total := totalAttempts p + 1 in
        let backendAttempts := backendAttempts + 1 in
        match run (Z.to_nat (totalAttempts p)) c with
        | inl data =>
            ({| totalAttempts := total; attempts := attempts p ++ [success_attempt c];
                delays := delays p |}, Some data)
        | inr err =>
            let e := classifyError err in
            let p := {| totalAttempts := total; attempts := attempts p ++ [failure_attempt c e];
                        delays := delays p |} in
            if isTerminal (c_errorClass e) then (p, None)
            else if negb (isRetryable (c_errorClass e)) then (p, None)
            else
              let delayMs := backoffMs (c_errorClass e) backendAttempts in
              backendLoop c n backendAttempts
                (if (backendAttempts <? maxPerBackend) && (total <? maxTotal) && (0 <? delayMs)
                 then {| totalAttempts := total; attempts := attempts p;
                         delays := delays p ++ [delayMs] |}
                 else p)
        end
      else (p, None)
  end.

(** [for (const candidate of ordered)] *)
Fixpoint candidateLoop (ordered : list TransportCandidate) (p : progress)
    : progress * option (T * TransportCandidate) :=
  match ordered with
  | [] => (p, None)
  | c :: ordered =>
      match backendLoop c (Z.to_nat maxPerBackend) 0 p with
      | (p, Some data) => (p, Some (data, c))
      | (p, None) => candidateLoop ordered p
      end
  end.
End execute.

Record TransportOutcome (T : Type) := { out_data : T; out_backend : BackendName; out_trace : DecisionTrace }.
Arguments out_data {_}. Arguments out_backend {_}. Arguments out_trace {_}.

Definition opName (op : TransportOp) : string :=
  match op with
  | op_upload => "upload" | op_fetch => "fetch" | op_list_files => "list_files" | op_slab => "slab"
  | op_plan => "plan" | op_manifest_info => "manifest_info" | op_mdu_kzg => "mdu_kzg"
  end.
Definition backendName (b : BackendName) : string :=
  match b with gateway => "gateway" | direct_sp => "direct_sp" | libp2p => "libp2p" end.
Definition className (c : ErrorClass) : string :=
  match c with
  | timeout => "timeout" | connection_refused => "connection_refused" | dns => "dns"
  | http_429 => "http_429" | http_4xx => "http_4xx" | http_5xx => "http_5xx" | cors => "cors"
  | provider_mismatch => "provider_mismatch" | invalid_response => "invalid_response"
  | unknown => "unknown"
  end.

(** One failed attempt in the message of the error. *)
Definition attemptText (a : TransportAttempt) : string :=
  let status := match at_status a with Some s => "(" +:+ pretty s +:+ ")" | None => "" end in
  let class := match at_errorClass a with Some c => ":" +:+ className c | None => "" end in
  let message := match at_errorMessage a with
                 | Some m => if bool_decide (m = "") then "" else ":" +:+ m
                 | None => "" end in
  backendName (at_backend a) +:+ status +:+ class +:+ message.

(** The message of the [TransportTraceError], with the last three attempts. *)
Definition failureMessage (op : TransportOp) (attempts : list TransportAttempt) : string :=
  let recent := join " | " (map attemptText (drop (length attempts - 3) attempts)) in
  let suffix := if bool_decide (recent = "") then "" else ": " +:+ recent in
  "All " +:+ opName op +:+ " attempts failed" +:+ suffix.

Definition executeWithFallback {T} (run : nat -> TransportCandidate -> T + thrown) (op : TransportOp)
    (candidates : list TransportCandidate) (opts : TransportRouterOptions)
    : TransportOutcome T + (string * DecisionTrace) :=
  let ordered := orderCandidates (preference opts) candidates in
  let maxPerBackend := default 1 (maxAttemptsPerBackend opts) in
  let maxTotal := default (Z.of_nat (length ordered) * maxPerBackend) (maxTotalAttempts opts) in
  let trace attempts chosen :=
    {| tr_op := op; tr_preference := preference opts; tr_attempts := attempts; tr_chosen := chosen |} in
  match candidateLoop run maxPerBackend maxTotal ordered
          {| totalAttempts := 0; attempts := []; delays := [] |} with
  | (p, Some (data, c)) =>
      inl {| out_data := data; out_backend := backend c;
             out_trace := trace (attempts p) (Some (backend c, endpoint c)) |}
  | (p, None) => inr (failureMessage op (attempts p), trace (attempts p) None)
  end.

(** ** What the router is compared with *)

Definition made_on (c : TransportCandidate) (a : TransportAttempt) : Prop :=
  at_backend a = backend c /\ at_endpoint a = endpoint c.
Definition retried (a : TransportAttempt) : Prop :=
  at_ok a = false /\ exists e, at_errorClass a = Some e /\ isRetryable e = true.

(** Every attempt but the last failed in a way that is worth a retry. *)
Definition retry_chain (l : list TransportAttempt) : Prop := Forall retried (removelast l).

(** The attempts made on one candidate. *)
Record candidate_run (maxPerBackend : Z) (r : TransportCandidate * list TransportAttempt) : Prop := {
  cr_on : Forall (made_on r.1) r.2;
  cr_chain : retry_chain r.2;
  cr_length : (length r.2 <= Z.to_nat maxPerBackend)%nat }.

Definition failed_attempt (a : TransportAttempt) : Prop := at_ok a = false.

(** ** Lemmas *)

Section loop_lemmas.
Context {T : Type} (run : nat -> TransportCandidate -> T + thrown).
Context (maxPer maxTotal : Z).

(** How a run of attempts [l] from [p] ended. *)
Definition ended (c : TransportCandidate) (p : progress) (l : list TransportAttempt)
    (r : option T) : Prop :=
  match r with
  | Some d => exists l0, l = l0 ++ [success_attempt c] /\ Forall failed_attempt l0
                /\ run (Z.to_nat (totalAttempts p) + length l0) c = inl d
  | None => Forall failed_attempt l
  end.

Record loop_spec (c : TransportCandidate) (n : nat) (p q : progress) (r : option T)
    (l : list TransportAttempt) : Prop := {
  ls_attempts : attempts q = attempts p ++ l;
  ls_total : totalAttempts q = totalAttempts p + Z.of_nat (length l);
  ls_max : totalAttempts p <= Z.max 0 maxTotal -> totalAttempts q <= Z.max 0 maxTotal;
  ls_length : (length l <= n)%nat;
  ls_on : Forall (made_on c) l;
  ls_chain : retry_chain l;
  ls_ended : ended c p l r;
  ls_progress : (0 < n)%nat -> totalAttempts p < maxTotal -> l <> [] }.

Lemma loop_stop c n p : (n = 0%nat \/ maxTotal <= totalAttempts p) -> loop_spec c n p p None [].
Proof.
  intros Hn. constructor; cbn; try done; try lia; try by constructor.
  - by rewrite app_nil_r.
Qed.

Lemma loop_once c n p q r a :
  attempts q = attempts p ++ [a] -> totalAttempts q = totalAttempts p + 1 ->
  totalAttempts p < maxTotal -> made_on c a -> ended c p [a] r -> loop_spec c (S n) p q r [a].
Proof.
  intros Ha Ht Hm Hon He. constructor; cbn [length]; try done; try lia.
  - by apply Forall_singleton.
  - unfold retry_chain. constructor.
Qed.

Lemma loop_more c n p p' q r l a :
  0 <= totalAttempts p -> attempts p' = attempts p ++ [a] -> totalAttempts p' = totalAttempts p + 1 ->
  totalAttempts p < maxTotal -> made_on c a -> retried a ->
  loop_spec c n p' q r l -> loop_spec c (S n) p q r (a :: l).
Proof.
  intros H0 Ha Ht Hm Hon Hr [Hqa Hqt Hqm Hql Hqo Hqc Hqe Hqp].
  constructor; cbn [length]; try done; try lia.
  - by rewrite Hqa, Ha, <- app_assoc.
  - by constructor.
  - unfold retry_chain in *. destruct l as [|b l]; [constructor|].
    change (Forall retried (a :: removelast (b :: l))). by constructor.
  - destruct r as [d|]; cbn [ended] in *; [|constructor; [apply Hr|done]].
    destruct Hqe as (l0 & -> & Hf & Hd). exists (a :: l0). split; [done|].
    split; [constructor; [apply Hr|done]|]. rewrite <- Hd. f_equal. cbn [length]. lia.
Qed.

Lemma backendLoop_spec c n ba p q r :
  0 <= totalAttempts p -> ba + Z.of_nat n = maxPer ->
  backendLoop run maxPer maxTotal c n ba p = (q, r) -> exists l, loop_spec c n p q r l.
Proof.
  revert ba p. induction n as [|n IH]; intros ba p H0 Hba Hq; cbn [backendLoop] in Hq.
  { injection Hq as <- <-. exists []. apply loop_stop. by left. }
  destruct (Z.ltb_spec ba maxPer); [|lia]. destruct (Z.ltb_spec (totalAttempts p) maxTotal) as [Hlt|].
  2:{ injection Hq as <- <-. exists []. apply loop_stop. by right. }
  cbn [andb] in Hq. destruct (run _ c) as [data|err] eqn:Hrun.
  { injection Hq as <- <-. exists [success_attempt c]. apply loop_once; try done.
    exists []. split_and!; [done | constructor |]. cbn [length]. by rewrite Nat.add_0_r. }
  set (e := classifyError err) in *.
  assert (Hfail : Forall failed_attempt [failure_attempt c e]) by by repeat constructor.
  destruct (isTerminal (c_errorClass e)); [injection Hq as <- <-; eexists; by apply loop_once|].
  destruct (isRetryable (c_errorClass e)) eqn:Hr; [|injection Hq as <- <-; eexists; by apply loop_once].
  cbn [negb] in Hq. apply IH in Hq as [l Hl]; [|case_match; cbn; lia|lia].
  eexists. eapply (loop_more c n p _ q r l (failure_attempt c e)); [..|exact Hl];
    [done | by case_match | by case_match | done | done |].
  split; [done|]. by exists (c_errorClass e).
Qed.
End loop_lemmas.

Lemma candidateLoop_spec {T} (run : nat -> TransportCandidate -> T + thrown) maxPer maxTotal ordered p q r :
  0 <= totalAttempts p <= Z.max 0 maxTotal -> totalAttempts p = Z.of_nat (length (attempts p)) ->
  candidateLoop run maxPer maxTotal ordered p = (q, r) ->
  exists runs, attempts q = attempts p ++ concat (map snd runs)
    /\ map fst runs `prefix_of` ordered /\ Forall (candidate_run maxPer) runs
    /\ Z.of_nat (length (attempts q)) <= Z.max 0 maxTotal
    /\ match r with
       | Some (d, c) => exists l, concat (map snd runs) = l ++ [success_attempt c]
           /\ Forall failed_attempt l /\ run (length (attempts p ++ l)) c = inl d
       | None => Forall failed_attempt (concat (map snd runs)) /\ map fst runs = ordered
       end.
Proof.
  revert p. induction ordered as [|c ordered IH]; intros p Hp Hlen Hq; cbn [candidateLoop] in Hq.
  { injection Hq as <- <-. exists []. cbn. rewrite app_nil_r. split_and!; try done; try constructor. lia. }
  destruct (backendLoop run maxPer maxTotal c (Z.to_nat maxPer) 0 p) as [p1 r1] eqn:Hb.
  destruct (Z.le_gt_cases 0 maxPer) as [Hm|Hm].
  2:{ rewrite (Z2Nat.nonpos maxPer) in Hb by lia. injection Hb as <- <-.
      destruct (IH p Hp Hlen Hq) as (runs & Ha & Hpre & Hruns & Hmax & Hres).
      exists ((c, []) :: runs). cbn. split_and!; try done.
      - by apply prefix_cons.
      - constructor; [|done]. constructor; cbn; [constructor | constructor | lia].
      - destruct r as [[d c']|]; [done|]. destruct Hres as [? ->]. done. }
  apply backendLoop_spec in Hb as [l [Ha Ht Hmax Hl Hon Hch He _]]; [|lia|lia].
  assert (Hrun : candidate_run maxPer (c, l)) by by constructor.
  assert (Hlen1 : totalAttempts p1 = Z.of_nat (length (attempts p1))).
  { rewrite Ht, Ha, Hlen, length_app. lia. }
  destruct r1 as [d|].
  - injection Hq as <- <-. destruct He as (l0 & Hl0 & Hf & Hd). exists [(c, l)].
    cbn [map fst snd concat]. rewrite app_nil_r. split_and!; [done | by apply prefix_cons, prefix_nil
      | by constructor; [|constructor] | specialize (Hmax (proj2 Hp)); lia |].
    exists l0. split_and!; [done | done |]. rewrite length_app, <- Hd. f_equal. lia.
  - assert (0 <= totalAttempts p1 <= Z.max 0 maxTotal) as Hp1 by (specialize (Hmax (proj2 Hp)); lia).
    destruct (IH p1 Hp1 Hlen1 Hq) as (runs & Ha' & Hpre & Hruns & Hmax' & Hres).
    exists ((c, l) :: runs). cbn [map fst snd concat]. split_and!.
    + by rewrite Ha', Ha, <- app_assoc.
    + by apply prefix_cons.
    + by constructor.
    + done.
    + destruct r as [[d c']|].
      * destruct Hres as (l' & Hl' & Hf & Hd). exists (l ++ l'). rewrite Hl', app_assoc.
        split_and!; [done | by apply Forall_app | by rewrite app_assoc, <- Ha].
      * destruct Hres as [Hf ->]. split; [by apply Forall_app | done].
Qed.

Lemma backendLoop_ok {T} (run : nat -> TransportCandidate -> T + thrown) maxPer maxTotal c p :
  1 <= maxPer -> totalAttempts p < maxTotal -> (forall n, exists d, run n c = inl d) ->
  exists q d, backendLoop run maxPer maxTotal c (Z.to_nat maxPer) 0 p = (q, Some d).
Proof.
  intros Hm Ht Hok. destruct (Z.to_nat maxPer) as [|n] eqn:Hn; [lia|]. cbn [backendLoop].
  rewrite (proj2 (Z.ltb_lt 0 maxPer)), (proj2 (Z.ltb_lt _ maxTotal)) by lia. cbn [andb].
  destruct (Hok (Z.to_nat (totalAttempts p))) as [d ->]. eauto.
Qed.

(** The working candidate is reached while attempts are left for the rest. *)
Lemma candidateLoop_reaches {T} (run : nat -> TransportCandidate -> T + thrown) maxPer maxTotal ordered p c :
  1 <= maxPer -> c ∈ ordered -> (forall n, exists d, run n c = inl d) -> 0 <= totalAttempts p ->
  totalAttempts p + Z.of_nat (length ordered) * maxPer <= maxTotal ->
  exists q dc, candidateLoop run maxPer maxTotal ordered p = (q, Some dc).
Proof.
  intros Hm Hin Hok. revert p. induction ordered as [|x ordered IH]; intros p Hp Hle.
  { by apply elem_of_nil in Hin. }
  cbn [candidateLoop length] in *.
  destruct (backendLoop run maxPer maxTotal x (Z.to_nat maxPer) 0 p) as [p1 [d|]] eqn:Hb; [by eauto|].
  apply elem_of_cons in Hin as [->|Hin].
  - destruct (backendLoop_ok run maxPer maxTotal x p) as (q & d & Hq); [lia | nia | done |].
    rewrite Hq in Hb. discriminate Hb.
  - destruct (backendLoop_spec run maxPer maxTotal x (Z.to_nat maxPer) 0 p p1 None) as [l Hl];
      [lia | lia | done |].
    pose proof (ls_total _ _ _ _ _ _ _ _ Hl). pose proof (ls_length _ _ _ _ _ _ _ _ Hl).
    apply IH; [done | lia | nia].
Qed.

Lemma insert_by_perm {A} (compare : A -> A -> Z) x l : insert_by compare x l ≡ₚ x :: l.
Proof.
  induction l as [|y l IH]; cbn [insert_by]; [done|]. case_match; [done|]. rewrite IH. apply perm_swap.
Qed.
Lemma sort_by_perm {A} (compare : A -> A -> Z) l : sort_by compare l ≡ₚ l.
Proof.
  induction l as [|x l IH]; [done|]. cbn [sort_by foldr]. rewrite insert_by_perm.
  change (foldr (insert_by compare) [] l) with (sort_by compare l). by rewrite IH.
Qed.

Lemma sort_by_partition {A} (compare : A -> A -> Z) (pref : A -> bool) l :
  (forall a b, (compare a b <=? 0) = pref a || negb (pref b)) ->
  sort_by compare l = List.filter pref l ++ List.filter (fun x => negb (pref x)) l.
Proof.
  intros Hc. induction l as [|x l IH]; [done|]. cbn [sort_by foldr List.filter].
  change (foldr (insert_by compare) [] l) with (sort_by compare l). rewrite IH.
  assert (Hall : forall y, y ∈ List.filter pref l -> pref y = true).
  { intros y Hy. apply list_elem_of_In, filter_In in Hy. apply Hy. }
  clear IH. destruct (pref x) eqn:Hx; cbn [negb app].
  - destruct (List.filter pref l ++ _) as [|y r]; [done|]. cbn [insert_by]. by rewrite Hc, Hx.
  - induction (List.filter pref l) as [|y f IHf]; cbn [app insert_by].
    + destruct (List.filter _ l) as [|y r] eqn:Hf; [done|]. cbn [insert_by].
      assert (negb (pref y) = true) as Hy.
      { assert (In y (List.filter (fun x => negb (pref x)) l)) as Hin by (rewrite Hf; by left).
        by apply filter_In in Hin as [_ ?]. }
      by rewrite Hc, Hx, Hy.
    + rewrite Hc, Hx, (Hall y) by left. cbn [orb negb]. f_equal. apply IHf.
      intros z Hz. apply Hall. by right.
Qed.

Lemma directCandidates_spec seen bases :
  NoDup (map endpoint (directCandidates seen bases))
  /\ Forall (fun c => backend c = direct_sp /\ endpoint c <> "" /\ endpoint c ∉ seen)
       (directCandidates seen bases)
  /\ forall raw, raw ∈ bases -> strip_slash (trim raw) <> "" ->
       strip_slash (trim raw) ∈ seen ++ map endpoint (directCandidates seen bases).
Proof.
  revert seen. induction bases as [|raw bases IH]; intros seen; cbn [directCandidates].
  { split_and!; [constructor | constructor |]. intros raw Hr. by apply elem_of_nil in Hr. }
  set (base := strip_slash (trim raw)). destruct (bool_decide (base = "") || bool_decide (base ∈ seen)) eqn:Hb.
  - destruct (IH seen) as (Hnd & Hf & Hall). split_and!; [done | done |].
    intros r [->|Hr]%elem_of_cons Hne; [|by apply Hall]. apply orb_prop in Hb as [Hb|Hb]; apply bool_decide_eq_true_1 in Hb; [done|].
    apply elem_of_app. by left.
  - apply orb_false_elim in Hb as [Hb1%bool_decide_eq_false_1 Hb2%bool_decide_eq_false_1].
    destruct (IH (base :: seen)) as (Hnd & Hf & Hall). cbn [map endpoint]. split_and!.
    + constructor; [|done]. intros (c & Hc & Hin)%list_elem_of_In%in_map_iff.
      rewrite Forall_forall in Hf. apply list_elem_of_In, Hf in Hin as (_ & _ & Hni).
      apply Hni. rewrite Hc. left.
    + constructor; [done|]. eapply Forall_impl; [exact Hf|]. cbn. intros c (? & ? & Hni).
      split_and!; [done | done |]. intros Hin. apply Hni. by right.
    + intros r [->|Hr]%elem_of_cons Hne.
      * apply elem_of_app. right. left.
      * specialize (Hall r Hr Hne). rewrite !elem_of_app, !elem_of_cons in *. tauto.
Qed.

(** ** Theorems *)

(** Candidates are tried with the preferred backend first and otherwise in the
    order given: ordering is the stable partition by preference. *)
Theorem order_is_stable_partition p candidates :
  orderCandidates p candidates
  = if bool_decide (p = auto) then candidates else
    List.filter (fun c => bool_decide (backend c ∈ preferred p)) candidates
    ++ List.filter (fun c => negb (bool_decide (backend c ∈ preferred p))) candidates.
Proof.
  unfold orderCandidates. case_bool_decide; [done|].
  apply (sort_by_partition _ (fun c => bool_decide (backend c ∈ preferred p))). intros a b.
  destruct (bool_decide (backend a = backend b)) eqn:Hb;
    [apply bool_decide_eq_true_1 in Hb; rewrite Hb|];
    by destruct (bool_decide (backend a ∈ preferred p)), (bool_decide (backend b ∈ preferred p)).
Qed.

(** What the router did is what its trace says.  The attempts are runs on the
    first candidates of the order, at most [maxAttemptsPerBackend] each, repeated
    only after an error worth a retry, never more than the total allowed; all of
    them failed, except that an outcome comes from the last one, which is the
    answer of the candidate chosen. *)
Theorem router_trace {T} (run : nat -> TransportCandidate -> T + thrown) op candidates opts :
  let ordered := orderCandidates (preference opts) candidates in
  let maxPer := default 1 (maxAttemptsPerBackend opts) in
  let maxTotal := default (Z.of_nat (length ordered) * maxPer) (maxTotalAttempts opts) in
  let outcome := executeWithFallback run op candidates opts in
  let trace := match outcome with inl o => out_trace o | inr (_, t) => t end in
  exists runs, tr_attempts trace = concat (map snd runs) /\ map fst runs `prefix_of` ordered
    /\ Forall (candidate_run maxPer) runs
    /\ Z.of_nat (length (tr_attempts trace)) <= Z.max 0 maxTotal
    /\ match outcome with
       | inl o => exists c l, tr_attempts trace = l ++ [success_attempt c] /\ Forall failed_attempt l
           /\ run (length l) c = inl (out_data o) /\ out_backend o = backend c
           /\ tr_chosen trace = Some (backend c, endpoint c)
       | inr _ => Forall failed_attempt (tr_attempts trace) /\ map fst runs = ordered
           /\ tr_chosen trace = None
       end.
Proof.
  cbv zeta. unfold executeWithFallback.
  destruct (candidateLoop run _ _ _ _) as [q r] eqn:Hq.
  apply candidateLoop_spec in Hq as (runs & Ha & Hpre & Hruns & Hmax & Hres); [|cbn; lia|done].
  cbn [attempts app] in *. exists runs.
  destruct r as [[d c]|]; cbn [out_trace tr_attempts out_data out_backend tr_chosen]; split_and!; try done.
  - destruct Hres as (l & Hl & Hf & Hd). exists c, l. by rewrite Ha.
  - by rewrite Ha; apply Hres.
  - apply Hres.
Qed.

(** The router finds a working backend: when some candidate always answers and
    the total number of attempts is not cut short, the call succeeds whatever the
    other candidates do. *)
Theorem router_reaches_working_backend {T} (run : nat -> TransportCandidate -> T + thrown)
    op candidates opts c :
  c ∈ candidates -> (forall n, exists d, run n c = inl d) ->
  1 <= default 1 (maxAttemptsPerBackend opts) ->
  (forall m, maxTotalAttempts opts = Some m ->
     Z.of_nat (length candidates) * default 1 (maxAttemptsPerBackend opts) <= m) ->
  exists o, executeWithFallback run op candidates opts = inl o.
Proof.
  intros Hin Hok Hper Htot.
  assert (Hperm : orderCandidates (preference opts) candidates ≡ₚ candidates).
  { unfold orderCandidates. case_bool_decide; [done|]. apply sort_by_perm. }
  unfold executeWithFallback. set (ordered := orderCandidates _ _) in *.
  destruct (candidateLoop_reaches run (default 1 (maxAttemptsPerBackend opts))
    (default (Z.of_nat (length ordered) * default 1 (maxAttemptsPerBackend opts)) (maxTotalAttempts opts))
    ordered {| totalAttempts := 0; attempts := []; delays := [] |} c) as (q & [d c'] & ->);
    [done | by rewrite Hperm | done | done | | by eauto].
  cbn [totalAttempts]. destruct (maxTotalAttempts opts) as [m|]; cbn [default from_option id]; [|lia].
  rewrite Hperm. by apply Htot.
Qed.

Definition sample_candidates : list TransportCandidate :=
  [{| backend := gateway; endpoint := "http://gw" |}; {| backend := direct_sp; endpoint := "http://sp" |}].
Definition sample_execute (n : nat) (c : TransportCandidate) : nat + thrown :=
  if bool_decide (backend c = gateway) then inr (ThrownTransport "refused" connection_refused None)
  else inl n.

Lemma router_reaches_working_backend_witness :
  exists o, executeWithFallback sample_execute op_plan sample_candidates
    {| preference := prefer_gateway; maxAttemptsPerBackend := Some 2; maxTotalAttempts := None |} = inl o.
Proof.
  apply (router_reaches_working_backend sample_execute op_plan sample_candidates
    {| preference := prefer_gateway; maxAttemptsPerBackend := Some 2; maxTotalAttempts := None |}
    {| backend := direct_sp; endpoint := "http://sp" |});
    [right; left | intros n; exists n; reflexivity | cbn; lia | discriminate].
Defined.

(** The candidates of a retrieval name every usable base once.  No endpoint is
    empty or repeated; with [gateway_only] none but the gateway is contacted; with
    any other preference every base that is not blank is among the endpoints. *)
Theorem v3_candidates_complete p gatewayBase directBases :
  let candidates := v3RetrievalCandidates p gatewayBase directBases in
  NoDup (map endpoint candidates) /\ Forall (fun c => endpoint c <> "") candidates
  /\ (p = gateway_only -> Forall (fun c => backend c = gateway) candidates)
  /\ (p <> gateway_only -> forall raw, raw ∈ directBases -> strip_slash (trim raw) <> "" ->
        strip_slash (trim raw) ∈ map endpoint candidates).
Proof.
  cbv zeta. unfold v3RetrievalCandidates, allowNonGatewayBackends.
  set (gw := strip_slash (default "" gatewayBase)).
  destruct (directCandidates_spec (if bool_decide (gw = "") then [] else [gw]) directBases)
    as (Hnd & Hf & Hall).
  assert (Hne : Forall (fun c => endpoint c <> "") (directCandidates (if bool_decide (gw = "") then [] else [gw]) directBases)).
  { eapply Forall_impl; [exact Hf|]. by intros c (_ & ? & _). }
  destruct (bool_decide_reflect (p = gateway_only)) as [Hp|Hp]; cbn [negb];
    destruct (bool_decide_reflect (gw = "")) as [Hg|Hg].
  - split_and!; [constructor | constructor | constructor | done].
  - split_and!; [by repeat constructor; apply not_elem_of_nil | by repeat constructor
      | by repeat constructor | done].
  - split_and!; [done | done | done | done].
  - cbn [app map endpoint]. split_and!; [| by constructor | done |].
    + constructor; [|done]. intros (c & Hc & Hin)%list_elem_of_In%in_map_iff.
      rewrite Forall_forall in Hf. apply list_elem_of_In, Hf in Hin as (_ & _ & Hni).
      apply Hni. rewrite Hc. left.
    + intros _ raw Hr Hn. exact (Hall raw Hr Hn).
Qed.
