(* ===== verification/Transactions.v ===== *)
(** * Retrieval payments

    Models src/polystore-website/src/lib/retrievalTransactions.ts: the store of
    recovery records over [localStorage], and [settleBrowserTransaction], which
    takes a payment through the wallet at most once.

    [settleBrowserTransaction] is a program of effects, a tree that asks the store,
    the wallet and the chain for answers.  Its calls hold a lock, so they run one
    after the other, but a tab may close between any two effects: the states that
    matter are all the intermediate ones.  The world records which payments may
    have reached the chain ([w_live]) besides what the store holds. *)

From S2P Require Import Prelude JsMap JsString Effects.
From Stdlib Require Import Ascii.
Local Open Scope Z_scope.

Definition retrievalGasLimit (estimate : Z) : result Z :=
  throw_if estimate <=? 0 with "invalid retrieval gas estimate" else
  Ok (Z.quot (estimate * 120 + 99) 100 + 10000).

Definition assertRetrievalWalletScope (expectedChain : Z) (walletChain publicChain : option Z)
    : result unit :=
  throw_if negb (bool_decide (walletChain = Some expectedChain))
           || negb (bool_decide (publicChain = Some expectedChain))
    with "Switch the wallet to the configured retrieval network before payment" else
  Ok tt.

(** ** The store *)

Definition PREFIX : string := "polystore-retrieval-v1:".
Definition MAX_RECORDS : Z := 512.
Definition MAX_RECORD_BYTES : Z := 1024 * 1024.

(** [localStorage], in the order of its keys.  Records are kept as their JSON text. *)
Abbreviation storage := (list (string * string)).

Definition startsWith (s pre : string) : bool := String.prefix pre s.

Definition store_get (m : storage) (key : string) : result (option string) :=
  match mget m (PREFIX +:+ key) with
  | None => Ok None
  | Some text =>
      throw_if MAX_RECORD_BYTES <? slen text with "retrieval recovery record exceeds limit" else
      Ok (Some text)
  end.

Definition records (m : storage) : Z :=
  Z.of_nat (length (List.filter (fun kv => startsWith kv.1 PREFIX) m)).

Definition store_put (m : storage) (key text : string) : result storage :=
  throw_if MAX_RECORD_BYTES <? slen text with "retrieval recovery record exceeds limit" else
  throw_if negb (mhas m (PREFIX +:+ key)) && (MAX_RECORDS <=? records m)
    with "retrieval recovery storage is full; reconcile existing retrievals before payment" else
  Ok (mset m (PREFIX +:+ key) text).

Definition store_remove (m : storage) (key : string) : storage := mdelete m (PREFIX +:+ key).

Definition store_keys (m : storage) (pre : string) : list string :=
  map (fun kv => String.substring (String.length PREFIX)
                   (String.length kv.1 - String.length PREFIX) kv.1)
    (List.filter (fun kv => startsWith kv.1 (PREFIX +:+ pre)) m).

(** ** Transactions *)

Inductive tx_state := prepared | broadcasting | committed | reverted.
#[export] Instance tx_state_eq_dec : EqDecision tx_state.
Proof. solve_decision. Defined.

Section transactions.
Context {T : Type}.

Record RetrievalReceipt := { rc_status : string; rc_transactionHash : string; rc_blockNumber : Z }.
Record BrowserTransaction := {
  bt_state : tx_state; bt_data : string; bt_hash : option string; bt_intent : T }.

(** A thrown value, as far as the search for an explicit rejection looks into it: its
    [code] and its [cause]. *)
Inductive thrown_value :=
| Falsy
| Primitive
| Object (is_4001 : bool) (cause : thrown_value).

(** [for (let i = 0; cause && i < 8; i++)] *)
Fixpoint explicitRejection (i : nat) (cause : thrown_value) : bool :=
  match i, cause with
  | S i, Object is_4001 next => is_4001 || explicitRejection i next
  | _, _ => false
  end.

(** What a call of [settleBrowserTransaction] comes to. *)
Inductive settled_as :=
| Returned (t : BrowserTransaction)
| Pending (hash : option string)
| RevertedError (hash : string)
| Propagated (v : thrown_value).

(** The effects and their answers; every one of them may throw. *)
Inductive effect : Type -> Type :=
| Get : effect (option BrowserTransaction + thrown_value)
| Put (t : BrowserTransaction) : effect (unit + thrown_value)
| ThrowIfAborted : effect (unit + thrown_value)
| Prepare : effect ((string * T) + thrown_value)
| Send (data : string) : effect (string + thrown_value)
| Receipt (hash : string) : effect (RetrievalReceipt + thrown_value)
| Reconcile (t : BrowserTransaction) : effect (bool + thrown_value).

Abbreviation prog := (prog effect settled_as).

(** An effect outside [try]: what it throws leaves the function. *)
Definition attempt {X} (e : effect (X + thrown_value)) (k : X -> prog) : prog :=
  Vis e (fun r => match r with inl x => k x | inr v => Ret (Propagated v) end).

Definition with_state (s : tx_state) (t : BrowserTransaction) : BrowserTransaction :=
  {| bt_state := s; bt_data := bt_data t; bt_hash := bt_hash t; bt_intent := bt_intent t |}.
Definition with_hash (h : string) (t : BrowserTransaction) : BrowserTransaction :=
  {| bt_state := bt_state t; bt_data := bt_data t; bt_hash := Some h; bt_intent := bt_intent t |}.

(** The last [try]: reconcile with the state of the chain. *)
Definition reconcile_tx (t : BrowserTransaction) : prog :=
  Vis (Reconcile t) (fun r =>
    match r with
    | inl true =>
        Vis (Put (with_state committed t)) (fun r =>
          match r with
          | inl _ => Ret (Returned (with_state committed t))
          | inr _ => Ret (Pending (bt_hash t))
          end)
    | _ => Ret (Pending (bt_hash t))
    end).

(** [if (transaction.hash)], and what follows. *)
Definition confirm_tx (t : BrowserTransaction) : prog :=
  match bt_hash t with
  | Some h =>
      if bool_decide (h = "") then reconcile_tx t else
      Vis (Receipt h) (fun r =>
        match r with
        | inl receipt =>
            if bool_decide (toLowerCase (rc_transactionHash receipt) = toLowerCase h)
               && (0 <? rc_blockNumber receipt)
            then
              if bool_decide (rc_status receipt = "success") then
                attempt (Put (with_state committed t)) (fun _ => Ret (Returned (with_state committed t)))
              else if bool_decide (rc_status receipt = "reverted") then
                attempt (Put (with_state reverted t)) (fun _ => Ret (RevertedError h))
              else reconcile_tx t
            else reconcile_tx t
        | inr _ => reconcile_tx t
        end)
  | None => reconcile_tx t
  end.

(** The [catch] around [send]. *)
Definition send_failed (t : BrowserTransaction) (v : thrown_value) : prog :=
  if explicitRejection 8 v
  then attempt (Put (with_state prepared t)) (fun _ => Ret (Propagated v))
  else Ret (Pending (bt_hash t)).

(** The branch of a prepared transaction. *)
Definition broadcast_tx (t : BrowserTransaction) : prog :=
  attempt ThrowIfAborted (fun _ =>
  let t := with_state broadcasting t in
  attempt (Put t) (fun _ =>
  Vis (Send (bt_data t)) (fun r =>
    match r with
    | inl h =>
        let t := with_hash h t in
        Vis (Put t) (fun r =>
          match r with
          | inl _ => confirm_tx t
          | inr v => send_failed t v
          end)
    | inr v => send_failed t v
    end))).

Definition settle_tx (t : BrowserTransaction) : prog :=
  match bt_state t with
  | committed => Ret (Returned t)
  | prepared => broadcast_tx t
  | broadcasting | reverted => confirm_tx t
  end.

Definition settleBrowserTransaction : prog :=
  attempt Get (fun saved =>
  match saved with
  | Some t =>
      if bool_decide (bt_state t = prepared) || bool_decide (bt_state t = reverted) then
        attempt ThrowIfAborted (fun _ =>
        attempt Prepare (fun p =>
        let t := {| bt_state := prepared; bt_data := p.1; bt_hash := None; bt_intent := p.2 |} in
        attempt (Put t) (fun _ => settle_tx t)))
      else settle_tx t
  | None =>
      attempt ThrowIfAborted (fun _ =>
      attempt Prepare (fun p =>
      let t := {| bt_state := prepared; bt_data := p.1; bt_hash := None; bt_intent := p.2 |} in
      attempt (Put t) (fun _ => settle_tx t)))
  end).

(** ** Running it *)

(** What the store holds under the key, the payments handed to the wallet that may be
    on the chain (each with the hash the wallet gave, when it gave one), how many
    times the wallet was asked, and whether the chain confirmed the payment. *)
Record world := {
  w_store : option BrowserTransaction; w_live : list (option string); w_sends : nat;
  w_confirmed : bool }.

Definition set_store (t : BrowserTransaction) (w : world) : world :=
  {| w_store := Some t; w_live := w_live w; w_sends := w_sends w; w_confirmed := w_confirmed w |}.
Definition add_send (live : list (option string)) (w : world) : world :=
  {| w_store := w_store w; w_live := w_live w ++ live; w_sends := S (w_sends w);
     w_confirmed := w_confirmed w |}.
Definition confirm (w : world) : world :=
  {| w_store := w_store w; w_live := w_live w; w_sends := w_sends w; w_confirmed := true |}.

Definition same_hash (h : string) (x : option string) : bool :=
  match x with Some h' => bool_decide (toLowerCase h' = toLowerCase h) | None => false end.

(** The chain reported that the transaction [h] had no effect. *)
Definition forget_hash (h : string) (w : world) : world :=
  {| w_store := w_store w; w_live := List.filter (fun x => negb (same_hash h x)) (w_live w);
     w_sends := w_sends w; w_confirmed := w_confirmed w |}.

(** A receipt for the hash asked for, with a status that settles the payment. *)
Definition reports (h status : string) (r : RetrievalReceipt) : bool :=
  bool_decide (toLowerCase (rc_transactionHash r) = toLowerCase h) && (0 <? rc_blockNumber r)
  && bool_decide (rc_status r = status).

(** The answers of the environment.  The store reads what was written last, and its
    errors are not the wallet's explicit rejection; a payment the wallet rejects
    explicitly is not broadcast, any other may be; receipts and reconciliation
    report what the chain did. *)
Definition env_step {X} (e : effect X) (w : world) (x : X) (w' : world) : Prop :=
  match e in effect Y return Y -> Prop with
  | Get => fun x => w' = w /\ match x with inl saved => saved = w_store w | inr _ => True end
  | Put t => fun x =>
      match x with
      | inl _ => w' = set_store t w
      | inr v => explicitRejection 8 v = false /\ w' = w
      end
  | ThrowIfAborted => fun _ => w' = w
  | Prepare => fun _ => w' = w
  | Send _ => fun x =>
      match x with
      | inl h => w' = add_send [Some h] w
      | inr v => w' = add_send (if explicitRejection 8 v then [] else [None]) w
      end
  | Receipt h => fun x =>
      match x with
      | inl r => w' = if reports h "success" r then confirm w
                      else if reports h "reverted" r then forget_hash h w else w
      | inr _ => w' = w
      end
  | Reconcile _ => fun x =>
      w' = match x with inl true => confirm w | _ => w end
  end x.

Abbreviation exec_step := (exec_step (@env_step)).

(** One call, cut short anywhere, and any number of them. *)
Definition interrupted_call (w w' : world) : Prop :=
  exists p, rtc exec_step (settleBrowserTransaction, w) (p, w').
Definition fresh_world : world :=
  {| w_store := None; w_live := []; w_sends := 0; w_confirmed := false |}.
Definition reachable_world (w : world) : Prop := rtc interrupted_call fresh_world w.

(** ** The invariant *)

(** Between two effects: at most one payment may be on the chain, and while one is,
    the record says so and knows no other hash. *)
Record payment_inv (w : world) : Prop := {
  pi_live : (length (w_live w) <= 1)%nat;
  pi_clear : (w_store w = None \/ exists t, w_store w = Some t /\ bt_state t <> broadcasting
                /\ bt_state t <> committed) -> w_live w = [];
  pi_hash : forall t h x, w_store w = Some t -> bt_hash t = Some h -> x ∈ w_live w -> x = Some h;
  pi_committed : forall t, w_store w = Some t -> bt_state t = committed -> w_confirmed w = true }.

Abbreviation safe_run := (safe_run (@env_step) payment_inv).

(** A returned transaction is committed, stored and confirmed by the chain. *)
Definition returns_committed (o : settled_as) (w : world) : Prop :=
  match o with
  | Returned t => bt_state t = committed /\ w_store w = Some t /\ w_confirmed w = true
  | _ => True
  end.

(** ** Lemmas *)

Lemma safe_attempt Q {X} (e : effect (X + thrown_value)) k w :
  payment_inv w ->
  (forall v w', env_step e w (inr v) w' -> safe_run Q (Ret (Propagated v)) w') ->
  (forall x w', env_step e w (inl x) w' -> safe_run Q (k x) w') -> safe_run Q (attempt e k) w.
Proof. intros Hi Hf Hk. split; [done|]. intros [x|v] w' He; [by apply Hk | by apply Hf]. Qed.

(** Writing a record. *)
Lemma put_inv t w :
  payment_inv w -> (length (w_live w) <= 1)%nat ->
  (bt_state t <> broadcasting -> bt_state t <> committed -> w_live w = []) ->
  (forall h x, bt_hash t = Some h -> x ∈ w_live w -> x = Some h) ->
  (bt_state t = committed -> w_confirmed w = true) -> payment_inv (set_store t w).
Proof.
  intros _ Hl Hc Hh Hd. constructor; cbn.
  - done.
  - intros [[=]|(t' & [= <-] & Hb & Hco)]. by apply Hc.
  - intros t' h x [= <-]. apply Hh.
  - intros t' [= <-]. apply Hd.
Qed.

Lemma confirm_inv w : payment_inv w -> payment_inv (confirm w).
Proof. intros []. by constructor. Qed.

Lemma forget_inv h w : payment_inv w -> payment_inv (forget_hash h w).
Proof.
  intros [Hl Hc Hh Hd]. constructor; cbn.
  - etransitivity; [apply filter_length_le | done].
  - intros Hx. by rewrite (Hc Hx).
  - intros t h' x Ht Hh' Hx. apply (Hh t h' x Ht Hh').
    apply list_elem_of_In, filter_In in Hx as [Hx _]. by apply list_elem_of_In.
  - done.
Qed.

Lemma safe_reconcile t w :
  payment_inv w -> w_store w = Some t -> bt_state t = broadcasting -> safe_run returns_committed (reconcile_tx t) w.
Proof.
  intros Hi Ht Hb. split; [done|]. intros r w' He. cbn in He. subst w'.
  destruct r as [[]|v]; [|by apply safe_ret..].
  assert (Hic := confirm_inv w Hi). split; [done|]. intros r w' He. cbn in He.
  assert (Hput : payment_inv (set_store (with_state committed t) (confirm w))).
  { apply put_inv; [done | apply Hi | done | | done]. intros h x Hh Hx. by apply (pi_hash w Hi t h x). }
  destruct r as [u|v]; [subst w'; by apply safe_ret|]. destruct He as [_ ->]. by apply safe_ret.
Qed.

(** Writing the committed or reverted record ends the call. *)
Lemma safe_put_committed t w :
  payment_inv w -> w_store w = Some t -> w_confirmed w = true ->
  safe_run returns_committed
    (attempt (Put (with_state committed t)) (fun _ => Ret (Returned (with_state committed t)))) w.
Proof.
  intros Hi Ht Hc. apply safe_attempt; [done | |]; intros x w' He; cbn in He.
  - destruct He as [_ ->]. by apply safe_ret.
  - subst w'. apply safe_ret; [|done].
    apply put_inv; [done | apply Hi | done | | done]. intros h y Hh Hy. by apply (pi_hash w Hi t h y).
Qed.

Lemma forget_clears h w t :
  payment_inv w -> w_store w = Some t -> bt_hash t = Some h -> w_live (forget_hash h w) = [].
Proof.
  intros Hi Ht Hh. cbn. destruct (List.filter _ (w_live w)) as [|x l] eqn:Hf; [done|].
  assert (In x (List.filter (fun x => negb (same_hash h x)) (w_live w))) as Hx by (rewrite Hf; by left).
  apply filter_In in Hx as [Hx Hn]. apply list_elem_of_In in Hx.
  rewrite (pi_hash w Hi t h x Ht Hh Hx) in Hn. cbn in Hn. by rewrite bool_decide_eq_true_2 in Hn.
Qed.

Lemma safe_confirm t w :
  payment_inv w -> w_store w = Some t -> bt_state t = broadcasting ->
  safe_run returns_committed (confirm_tx t) w.
Proof.
  intros Hi Ht Hb. unfold confirm_tx. destruct (bt_hash t) as [h|] eqn:Hh; [|by apply safe_reconcile].
  case_bool_decide; [by apply safe_reconcile|]. split; [done|]. intros [r|v] w' He; cbn in He.
  2:{ subst w'. by apply safe_reconcile. }
  unfold reports in He. destruct (bool_decide _ && (0 <? _)); cbn [andb] in He; subst w'.
  2:{ by apply safe_reconcile. }
  case_bool_decide; [apply safe_put_committed; [by apply confirm_inv | done | done]|].
  case_bool_decide; [|by apply safe_reconcile].
  assert (Hif := forget_inv h w Hi). apply safe_attempt; [done | |]; intros x w' He; cbn in He.
  - destruct He as [_ ->]. by apply safe_ret.
  - subst w'. apply safe_ret; [|done].
    apply put_inv; [done | apply Hif | | | done].
    + intros _ _. by apply (forget_clears h w t).
    + intros h' y _ Hy. rewrite (forget_clears h w t) in Hy by done. by apply elem_of_nil in Hy.
Qed.

Lemma safe_send_lost t w v :
  payment_inv w -> explicitRejection 8 v = false -> safe_run returns_committed (send_failed t v) w.
Proof. intros Hi Hv. unfold send_failed. rewrite Hv. by apply safe_ret. Qed.

Lemma add_send_inv l w t :
  payment_inv w -> w_live w = [] -> w_store w = Some t -> bt_state t = broadcasting -> bt_hash t = None ->
  (length l <= 1)%nat -> payment_inv (add_send l w).
Proof.
  intros Hi Hl Ht Hb Hn Hlen. constructor; cbn.
  - by rewrite Hl.
  - intros [He|(t' & He & Hb' & _)]; rewrite Ht in He; [done|]. by injection He as <-.
  - intros t' h x He Hh. rewrite Ht in He. injection He as <-. by rewrite Hn in Hh.
  - apply Hi.
Qed.

Lemma safe_broadcast t w :
  payment_inv w -> w_store w = Some t -> bt_state t = prepared -> bt_hash t = None ->
  safe_run returns_committed (broadcast_tx t) w.
Proof.
  intros Hi Ht Hp Hn. unfold broadcast_tx.
  assert (Hl : w_live w = []).
  { apply (pi_clear w Hi). right. exists t. rewrite Hp. done. }
  apply safe_attempt; [done | intros v w' ->; by apply safe_ret | intros _ w' ->].
  apply safe_attempt; [done | intros v w' [_ ->]; by apply safe_ret | intros _ w' ->].
  set (t' := with_state broadcasting t). set (w1 := set_store t' w).
  assert (Hi1 : payment_inv w1).
  { apply put_inv; [done | apply Hi | done | | done]. intros h x Hh. cbn in Hh. by rewrite Hn in Hh. }
  split; [done|]. intros [h|v] w' ->.
  - assert (Hi2 : payment_inv (add_send [Some h] w1)) by by apply (add_send_inv _ _ t').
    split; [done|]. intros [u|v] w' He; cbn in He.
    + subst w'. apply safe_confirm; [|done|done]. apply put_inv; [done | apply Hi2 | done | | done].
      intros h' x [= <-]. cbn. rewrite Hl. intros Hx. by apply list_elem_of_singleton in Hx.
    + destruct He as [Hv ->]. by apply safe_send_lost.
  - unfold send_failed. destruct (explicitRejection 8 v) eqn:Hv.
    + assert (Hi2 : payment_inv (add_send [] w1)) by (apply (add_send_inv _ _ t'); cbn; try done; lia).
      apply safe_attempt; [done | intros v' w' [_ ->]; by apply safe_ret | intros _ w' ->].
      apply safe_ret; [|done]. apply put_inv; [done | apply Hi2 | | | done].
      * intros _ _. cbn. by rewrite Hl.
      * intros h x Hh. cbn in Hh. by rewrite Hn in Hh.
    + apply safe_ret; [|done]. by apply (add_send_inv _ _ t').
Qed.

(** The preparation of a new payment. *)
Lemma safe_prepare w :
  payment_inv w -> w_live w = [] ->
  safe_run returns_committed
    (attempt ThrowIfAborted (fun _ =>
     attempt Prepare (fun p =>
     let t := {| bt_state := prepared; bt_data := p.1; bt_hash := None; bt_intent := p.2 |} in
     attempt (Put t) (fun _ => settle_tx t)))) w.
Proof.
  intros Hi Hl.
  apply safe_attempt; [done | intros v w' ->; by apply safe_ret | intros _ w' ->].
  apply safe_attempt; [done | intros v w' ->; by apply safe_ret | intros p w' ->]. cbv zeta.
  set (t := {| bt_state := prepared; bt_data := p.1; bt_hash := None; bt_intent := p.2 |}).
  apply safe_attempt; [done | intros v w' [_ ->]; by apply safe_ret | intros _ w' ->].
  apply safe_broadcast; [|done..]. by apply put_inv; [| rewrite Hl; cbn; lia | | |].
Qed.

Lemma settle_safe w : payment_inv w -> safe_run returns_committed settleBrowserTransaction w.
Proof.
  intros Hi. unfold settleBrowserTransaction.
  apply safe_attempt; [done | intros v w' [-> _]; by apply safe_ret | intros saved w' [-> ->]].
  destruct (w_store w) as [t|] eqn:Ht.
  2:{ apply safe_prepare; [done|]. apply (pi_clear w Hi). by left. }
  destruct (bool_decide (bt_state t = prepared) || bool_decide (bt_state t = reverted)) eqn:Hp.
  - apply safe_prepare; [done|]. apply (pi_clear w Hi). right. exists t. split; [done|].
    apply orb_prop in Hp as [Hp|Hp]; apply bool_decide_eq_true_1 in Hp; rewrite Hp; done.
  - apply orb_false_elim in Hp as [Hp1%bool_decide_eq_false_1 Hp2%bool_decide_eq_false_1].
    unfold settle_tx. destruct (bt_state t) eqn:Hs; try done; [by apply safe_confirm|].
    apply safe_ret; [done|]. split_and!; [done | done | by apply (pi_committed w Hi t)].
Qed.

Lemma call_inv w w' : interrupted_call w w' -> payment_inv w -> payment_inv w'.
Proof. intros [p Hp] Hi. eapply safe_run_inv, safe_run_exec; [exact Hp | by apply settle_safe]. Qed.

Lemma fresh_inv : payment_inv fresh_world.
Proof. constructor; cbn; [lia | done..]. Qed.

Lemma world_inv w : reachable_world w -> payment_inv w.
Proof. intros Hr. eapply rtc_preserves; [exact call_inv | exact Hr | exact fresh_inv]. Qed.

(** A call that finds the payment committed changes nothing. *)
Lemma committed_call w w' t :
  w_store w = Some t -> bt_state t = committed -> interrupted_call w w' -> w' = w.
Proof.
  intros Ht Hc [p Hp]. inversion Hp as [|? [p1 w1] ? Hs Hrest]; subst; [done|].
  destruct Hs as (saved & He & Hk). cbn [fst snd] in He, Hk. destruct He as [-> Hg].
  assert (exists o, p1 = Ret o) as [o ->].
  { destruct saved as [saved|v]; [|by eauto]. rewrite Hg, Ht in Hk.
    rewrite !bool_decide_eq_false_2 in Hk by (by rewrite Hc). unfold settle_tx in Hk.
    rewrite Hc in Hk. cbn in Hk. by eauto. }
  by inversion Hrest.
Qed.
End transactions.
Arguments world : clear implicits.
Arguments BrowserTransaction : clear implicits.
Abbreviation tx_step := (exec_step (@env_step _)).
Abbreviation tx_safe := (safe_run (@env_step _) payment_inv).

(** ** Theorems *)

(** C9: No replacement payment.  However many times the payment was tried, and
    wherever each try was cut short, the wallet is asked for a payment only when
    no earlier one may be on the chain: each was rejected by the user or reported
    as reverted. *)
Theorem no_replacement_payment {T} (w0 w : world T) data k :
  reachable_world w0 -> rtc tx_step (settleBrowserTransaction, w0) (Vis (Send data) k, w) ->
  w_live w = [].
Proof.
  intros Hr Hx. assert (Hs : tx_safe returns_committed (Vis (Send data) k) w).
  { eapply safe_run_exec; [exact Hx | by apply settle_safe, world_inv]. }
  destruct Hs as [_ Hs]. specialize (Hs (inl "") (add_send [Some ""] w) eq_refl).
  apply safe_run_inv in Hs as [Hl _ _ _]. cbn in Hl. rewrite length_app in Hl. cbn in Hl.
  destruct (w_live w); [done | cbn in Hl; lia].
Qed.

(** A payment reported as made was made, once.  When a call returns a transaction,
    it is committed, recorded as such and confirmed by the chain, and at most one
    payment is on the chain; further calls change nothing and ask the wallet for
    nothing. *)
Theorem settled_payment_is_final {T} (w0 w w' : world T) t :
  reachable_world w0 -> rtc tx_step (settleBrowserTransaction, w0) (Ret (Returned t), w) ->
  rtc interrupted_call w w' ->
  bt_state t = committed /\ w_store w = Some t /\ w_confirmed w = true
  /\ (length (w_live w) <= 1)%nat /\ w' = w.
Proof.
  intros Hr Hx Hw. assert (Hs : tx_safe returns_committed (Ret (Returned t)) w).
  { eapply safe_run_exec; [exact Hx | by apply settle_safe, world_inv]. }
  destruct Hs as [Hi (Hc & Hst & Hcf)]. split_and!; [done | done | done | apply Hi |].
  clear Hx. induction Hw as [|w1 w2 w3 Hcall _ IH]; [done|].
  assert (w2 = w1) as -> by by eapply committed_call. by apply IH.
Qed.

Lemma startsWith_app pre s : startsWith (pre +:+ s) pre = true.
Proof.
  unfold startsWith. induction pre as [|c pre IH]; [by destruct s|].
  change (String c pre +:+ s) with (String c (pre +:+ s)). cbn [String.prefix].
  by destruct (Ascii.ascii_dec c c).
Qed.

Lemma records_mset m k v :
  startsWith k PREFIX = true ->
  records (mset m k v) = if mhas m k then records m else records m + 1.
Proof.
  intros Hk. unfold records, mhas. induction m as [|[k' v'] m IH]; cbn [mset mget List.filter fst].
  - rewrite Hk. done.
  - case_decide as He.
    + subst k'. cbn [List.filter fst]. rewrite Hk. done.
    + cbn [List.filter fst]. destruct (startsWith k' PREFIX); cbn [length]; [|done].
      rewrite !Nat2Z.inj_succ, IH. destruct (mget m k); lia.
Qed.

(** The record store keeps what it is given: a record that is accepted is read back
    and leaves every other record alone, and a new record is refused once 512 are
    held, while a record already held can always be updated. *)
Theorem store_roundtrip m key text m' :
  store_put m key text = Ok m' ->
  store_get m' key = Ok (Some text)
  /\ (forall other, other <> key -> store_get m' other = store_get m other)
  /\ records m' <= Z.max (records m) MAX_RECORDS
  /\ forall text', slen text' <= MAX_RECORD_BYTES -> is_ok (store_put m' key text') = true.
Proof.
  unfold store_put. intros H. ok_step H. destruct (negb _ && _) eqn:Hfull; [done|]. injection H as <-.
  bool_to_prop. unfold store_get. split_and!.
  - rewrite mget_mset_eq. by rewrite (proj2 (Z.ltb_ge _ _)).
  - intros other Ho. rewrite mget_mset_ne; [done|]. intros He. apply Ho.
    by apply (inj (String.append PREFIX)) in He.
  - rewrite records_mset by apply startsWith_app. destruct (mhas m (PREFIX +:+ key)); [lia|].
    cbn [negb andb] in Hfull. bool_to_prop. lia.
  - intros text' Ht. rewrite (proj2 (Z.ltb_ge _ _)) by done. unfold mhas. by rewrite mget_mset_eq.
Qed.

Lemma store_roundtrip_witness :
  store_get [("polystore-retrieval-v1:a", "1")] "a" = Ok (Some "1").
Proof. apply (store_roundtrip [] "a" "1" [("polystore-retrieval-v1:a", "1")]). reflexivity. Defined.

(** A sample payment: the states before the wallet is asked and after the receipt. *)
Definition sample_tx (s : tx_state) (h : option string) : BrowserTransaction nat :=
  {| bt_state := s; bt_data := "0xaa"; bt_hash := h; bt_intent := 7%nat |}.
Definition asking_world : world nat :=
  {| w_store := Some (sample_tx broadcasting None); w_live := []; w_sends := 0; w_confirmed := false |}.
Definition paid_world : world nat :=
  {| w_store := Some (sample_tx committed (Some "0xAB")); w_live := [Some "0xAB"]; w_sends := 1;
     w_confirmed := true |}.

Lemma sample_asks :
  exists k, rtc tx_step (settleBrowserTransaction, fresh_world) (Vis (Send "0xaa") k, asking_world)
    /\ rtc tx_step (Vis (Send "0xaa") k, asking_world)
         (Ret (Returned (sample_tx committed (Some "0xAB"))), paid_world).
Proof.
  eexists. split.
  - eapply (exec_answer (@env_step _) Get _ _ (inl None)); [done|]. cbn.
    eapply (exec_answer (@env_step _) ThrowIfAborted _ _ (inl tt)); [done|]. cbn.
    eapply (exec_answer (@env_step _) Prepare _ _ (inl ("0xaa", 7%nat))); [done|]. cbn.
    eapply (exec_answer (@env_step _) (Put _) _ _ (inl tt)); [done|]. cbn.
    eapply (exec_answer (@env_step _) ThrowIfAborted _ _ (inl tt)); [done|]. cbn.
    eapply (exec_answer (@env_step _) (Put _) _ _ (inl tt)); [done|]. apply rtc_refl.
  - eapply (exec_answer (@env_step _) (Send _) _ _ (inl "0xAB")); [done|]. cbn.
    eapply (exec_answer (@env_step _) (Put _) _ _ (inl tt)); [done|]. cbn.
    eapply (exec_answer (@env_step _) (Receipt _) _ _
      (inl {| rc_status := "success"; rc_transactionHash := "0xab"; rc_blockNumber := 5 |})); [done|]. cbn.
    eapply (exec_answer (@env_step _) (Put _) _ _ (inl tt)); [done|]. apply rtc_refl.
Qed.

Lemma no_replacement_payment_witness : w_live asking_world = [].
Proof.
  destruct sample_asks as (k & Hk & _).
  exact (no_replacement_payment fresh_world asking_world "0xaa" k (rtc_refl _ _) Hk).
Defined.

Lemma settled_payment_is_final_witness :
  bt_state (sample_tx committed (Some "0xAB")) = committed
  /\ w_store paid_world = Some (sample_tx committed (Some "0xAB")) /\ w_confirmed paid_world = true
  /\ (length (w_live paid_world) <= 1)%nat /\ paid_world = paid_world.
Proof.
  destruct sample_asks as (k & H1 & H2).
  exact (settled_payment_is_final fresh_world paid_world paid_world _ (rtc_refl _ _)
    (transitivity H1 H2) (rtc_refl _ _)).
Defined.
