(* ===== verification/KzgBatch.v ===== *)
(** * Batches of KZG commitments (src/polystore-website/src/lib/upload/userMduKzgBatch.ts)

    The uncommitted expansions of user MDUs are committed several at a time: a
    plan chooses how many fit, their shards are concatenated into one buffer, and
    the commitments of the whole buffer are cut back into one group per MDU.
    The committer itself is an argument: a function from a blob to its
    commitment.  An expansion's profile [k], [m] is optional, as in the source;
    array lengths are far below 2^53, so their sums are exact. *)

From S2P Require Import Prelude JsNumber JsString JsBytes.
Local Open Scope Z_scope.

Definition KZG_BLOB_SIZE : Z := 128 * 1024.
Definition KZG_COMMITMENT_SIZE : Z := 48.

Record UserMduKzgBatchConstraints := {
  opt_maxBatchMdus : option number; opt_maxBatchBlobs : option number;
  opt_maxBatchBytes : option number; opt_maxEstimatedMemoryBytes : option number }.
Record NormalizedConstraints := {
  maxBatchMdus : Z; maxBatchBlobs : Z; maxBatchBytes : Z; maxEstimatedMemoryBytes : Z }.

Record UserMduKzgExpansionShape := {
  sh_k : Z; sh_m : Z; sh_shardLen : Z; shardCount : Z; blobCount : Z; byteLength : Z }.

Inductive plan_reason :=
| r_empty | r_planned | r_max_batch_mdus | r_max_blobs | r_max_bytes | r_max_estimated_memory
| r_incompatible_shape.
#[export] Instance plan_reason_eq_dec : EqDecision plan_reason.
Proof. solve_decision. Defined.

Record UserMduKzgBatchPlan := {
  count : Z; blobs : Z; plan_bytes : Z; estimatedMemoryBytes : Z; reason : plan_reason;
  shape : option UserMduKzgExpansionShape }.

(** An uncommitted expansion: the fields the batch looks at. *)
Record Expansion := { shardsFlat : bytes; shardLen : number; e_k : option Z; e_m : option Z }.

Definition DEFAULT_MAX_BATCH_MDUS : Z := 4.
Definition DEFAULT_MAX_BATCH_BLOBS : Z := 384.
Definition DEFAULT_MAX_BATCH_BYTES : Z := 64 * 1024 * 1024.
Definition DEFAULT_MAX_ESTIMATED_MEMORY_BYTES : Z := 128 * 1024 * 1024.

(** [Math.floor(Number(value ?? fallback))], when finite and positive. *)
Definition positiveInteger (value : option number) (fallback : Z) : Z :=
  match default (int fallback) value with
  | Fin q => if 0 <? qfloor q then qfloor q else fallback
  | _ => fallback
  end.

Record AdapterInfo := {
  vendor : option string; architecture : option string; device : option string;
  description : option string }.

Definition recommendedUserMduKzgBatchCapForWebGpuAdapter (adapter : option AdapterInfo)
    (fallback : number) (platformHint : string) : Z :=
  let normalizedFallback := positiveInteger (Some fallback) DEFAULT_MAX_BATCH_MDUS in
  let field f := toLowerCase (default "" (a ← adapter; f a)) in
  let isAppleMetal :=
    includes (field vendor) "apple" || includes (field architecture) "metal"
    || includes (field device) "apple" || includes (field description) "metal"
    || includes (toLowerCase platformHint) "mac" in
  if isAppleMetal then Z.min normalizedFallback 3 else normalizedFallback.

Definition normalizeUserMduKzgBatchConstraints (c : UserMduKzgBatchConstraints)
    : NormalizedConstraints :=
  {| maxBatchMdus := positiveInteger (opt_maxBatchMdus c) DEFAULT_MAX_BATCH_MDUS;
     maxBatchBlobs := positiveInteger (opt_maxBatchBlobs c) DEFAULT_MAX_BATCH_BLOBS;
     maxBatchBytes := positiveInteger (opt_maxBatchBytes c) DEFAULT_MAX_BATCH_BYTES;
     maxEstimatedMemoryBytes :=
       positiveInteger (opt_maxEstimatedMemoryBytes c) DEFAULT_MAX_ESTIMATED_MEMORY_BYTES |}.

(** A normalised record passed where a partial one is expected. *)
Definition constraints_of (c : NormalizedConstraints) : UserMduKzgBatchConstraints :=
  {| opt_maxBatchMdus := Some (int (maxBatchMdus c)); opt_maxBatchBlobs := Some (int (maxBatchBlobs c));
     opt_maxBatchBytes := Some (int (maxBatchBytes c));
     opt_maxEstimatedMemoryBytes := Some (int (maxEstimatedMemoryBytes c)) |}.

Definition describeUserMduKzgExpansionShape (e : Expansion) : result UserMduKzgExpansionShape :=
  let len := blen (shardsFlat e) in
  let! shardLen :=
    match shardLen e with
    | Fin q => if qfloor q <=? 0 then Err "shardLen must be a positive integer" else Ok (qfloor q)
    | _ => Err "shardLen must be a positive integer"
    end in
  throw_if len =? 0 with "shardsFlat must not be empty" else
  throw_if negb (len mod shardLen =? 0)
    with "shardsFlat length must be a multiple of shardLen" else
  throw_if negb (len mod KZG_BLOB_SIZE =? 0)
    with "shardsFlat length must be a multiple of the KZG blob size" else
  let shardCount := len / shardLen in
  let blobCount := len / KZG_BLOB_SIZE in
  let k := default 0 (e_k e) in
  let m := default 0 (e_m e) in
  throw_if (negb (k =? 0) || negb (m =? 0)) && negb (shardCount =? k + m)
    with "shard count " +:+ pretty shardCount +:+ " does not match RS profile " +:+ pretty k
         +:+ "+" +:+ pretty m else
  Ok {| sh_k := k; sh_m := m; sh_shardLen := shardLen; shardCount := shardCount;
        blobCount := blobCount; byteLength := len |}.

Definition areUserMduKzgShapesCompatible (left right : UserMduKzgExpansionShape) : bool :=
  (sh_k left =? sh_k right) && (sh_m left =? sh_m right)
  && (sh_shardLen left =? sh_shardLen right) && (shardCount left =? shardCount right).

(** [for (let i = 1; ...)]: the shapes after the first. *)
Fixpoint homogeneous_rest (first : UserMduKzgExpansionShape) (i : Z) (l : list Expansion) : result unit :=
  match l with
  | [] => Ok tt
  | e :: l =>
      let! current := describeUserMduKzgExpansionShape e in
      throw_if negb (areUserMduKzgShapesCompatible first current)
        with "incompatible user MDU shard shape at index " +:+ pretty i +:+ ": expected k="
             +:+ pretty (sh_k first) +:+ ", m=" +:+ pretty (sh_m first) +:+ ", shardLen="
             +:+ pretty (sh_shardLen first) +:+ ", shardCount=" +:+ pretty (shardCount first)
             +:+ "; got k=" +:+ pretty (sh_k current) +:+ ", m=" +:+ pretty (sh_m current)
             +:+ ", shardLen=" +:+ pretty (sh_shardLen current) +:+ ", shardCount="
             +:+ pretty (shardCount current) else
      homogeneous_rest first (i + 1) l
  end.

Definition validateHomogeneousUserMduKzgBatch (l : list Expansion) : result UserMduKzgExpansionShape :=
  match l with
  | [] => Err "KZG batch must contain at least one user MDU"
  | e :: l =>
      let! first := describeUserMduKzgExpansionShape e in
      let! _ := homogeneous_rest first 1 l in
      Ok first
  end.

Definition estimateUserMduKzgBatchMemoryBytes (bytes blobs : Z) : Z :=
  bytes * 2 + blobs * KZG_COMMITMENT_SIZE.

(** The state of the planning loop; the reason is set when it breaks. *)
Definition plan_of (count blobs bytes : Z) (reason : plan_reason)
    (shape : option UserMduKzgExpansionShape) : UserMduKzgBatchPlan :=
  {| count := count; blobs := blobs; plan_bytes := bytes;
     estimatedMemoryBytes := estimateUserMduKzgBatchMemoryBytes bytes blobs;
     reason := reason; shape := shape |}.

Fixpoint plan_loop (c : NormalizedConstraints) (count blobs bytes : Z)
    (shape : option UserMduKzgExpansionShape) (l : list Expansion) : result UserMduKzgBatchPlan :=
  match l with
  | [] => Ok (plan_of count blobs bytes r_planned shape)
  | e :: l =>
      let! current := describeUserMduKzgExpansionShape e in
      if match shape with Some s => negb (areUserMduKzgShapesCompatible s current) | None => false end
      then Ok (plan_of count blobs bytes r_incompatible_shape shape) else
      let nextCount := count + 1 in
      let nextBlobs := blobs + blobCount current in
      let nextBytes := bytes + byteLength current in
      let nextEstimated := estimateUserMduKzgBatchMemoryBytes nextBytes nextBlobs in
      if maxBatchMdus c <? nextCount then Ok (plan_of count blobs bytes r_max_batch_mdus shape) else
      if maxBatchBlobs c <? nextBlobs then Ok (plan_of count blobs bytes r_max_blobs shape) else
      if maxBatchBytes c <? nextBytes then Ok (plan_of count blobs bytes r_max_bytes shape) else
      if maxEstimatedMemoryBytes c <? nextEstimated
      then Ok (plan_of count blobs bytes r_max_estimated_memory shape) else
      plan_loop c nextCount nextBlobs nextBytes
        (match shape with Some s => Some s | None => Some current end) l
  end.

Definition planUserMduKzgBatch (candidates : list Expansion) (constraints : UserMduKzgBatchConstraints)
    : result UserMduKzgBatchPlan :=
  let normalized := normalizeUserMduKzgBatchConstraints constraints in
  match candidates with
  | [] => Ok {| count := 0; blobs := 0; plan_bytes := 0; estimatedMemoryBytes := 0;
                reason := r_empty; shape := None |}
  | _ => plan_loop normalized 0 0 0 None candidates
  end.

Fixpoint set_all (out : bytes) (offset : Z) (l : list Expansion) : result bytes :=
  match l with
  | [] => Ok out
  | e :: l =>
      let! out := set_at out (shardsFlat e) offset in
      set_all out (offset + blen (shardsFlat e)) l
  end.

Definition concatenateUserMduKzgBatch (expansions : list Expansion) : result bytes :=
  let! _ := validateHomogeneousUserMduKzgBatch expansions in
  let totalBytes := fold_left (fun sum e => sum + blen (shardsFlat e)) expansions 0 in
  set_all (zeros totalBytes) 0 expansions.

Definition witnessBytes (e : Expansion) : Z := blen (shardsFlat e) / KZG_BLOB_SIZE * KZG_COMMITMENT_SIZE.

Fixpoint demux_loop (witnessFlat : bytes) (offset : Z) (l : list Expansion) : list bytes :=
  match l with
  | [] => []
  | e :: l =>
      subarray witnessFlat offset (offset + witnessBytes e)
        :: demux_loop witnessFlat (offset + witnessBytes e) l
  end.

Definition demuxUserMduKzgCommitments (witnessFlat : bytes) (expansions : list Expansion)
    : result (list bytes) :=
  let! _ := validateHomogeneousUserMduKzgBatch expansions in
  let expectedBytes := fold_left (fun sum e => sum + witnessBytes e) expansions 0 in
  throw_if negb (blen witnessFlat =? expectedBytes)
    with "KZG batch returned " +:+ pretty (blen witnessFlat) +:+ " witness bytes, expected "
         +:+ pretty expectedBytes else
  Ok (demux_loop witnessFlat 0 expansions).

(** [count] is a list length here; the pair keeps it when it is at most one. *)
Definition splitUserMduKzgBatch (count : Z) : Z * Z :=
  if count <=? 1 then (count, 0) else
  let left := ceil_div count 2 in
  (left, count - left).

(** ** Plans *)

Definition total_blobs (l : list Expansion) : Z :=
  foldr Z.add 0 (map (fun e => blen (shardsFlat e) / KZG_BLOB_SIZE) l).
Definition total_bytes (l : list Expansion) : Z := foldr Z.add 0 (map (fun e => blen (shardsFlat e)) l).

(** The expansion is valid and has the given shape. *)
Definition has_shape (s : UserMduKzgExpansionShape) (e : Expansion) : Prop :=
  exists s', describeUserMduKzgExpansionShape e = Ok s' /\ areUserMduKzgShapesCompatible s s' = true.

(** A batch that may be committed in one call. *)
Record fits (c : NormalizedConstraints) (l : list Expansion) : Prop := {
  fits_shape : exists s, Forall (has_shape s) l;
  fits_mdus : Z.of_nat (length l) <= maxBatchMdus c;
  fits_blobs : total_blobs l <= maxBatchBlobs c;
  fits_bytes : total_bytes l <= maxBatchBytes c;
  fits_memory :
    estimateUserMduKzgBatchMemoryBytes (total_bytes l) (total_blobs l) <= maxEstimatedMemoryBytes c }.

Lemma total_blobs_app l l' : total_blobs (l ++ l') = total_blobs l + total_blobs l'.
Proof. unfold total_blobs. induction l as [|e l IH]; cbn; [done|]. rewrite IH. lia. Qed.
Lemma total_bytes_app l l' : total_bytes (l ++ l') = total_bytes l + total_bytes l'.
Proof. unfold total_bytes. induction l as [|e l IH]; cbn; [done|]. rewrite IH. lia. Qed.
Lemma total_blobs_nonneg l : 0 <= total_blobs l.
Proof.
  unfold total_blobs. induction l as [|e l IH]; cbn; [lia|].
  assert (0 <= blen (shardsFlat e) / KZG_BLOB_SIZE) by (apply Z.div_pos; [apply blen_nonneg|done]). lia.
Qed.
Lemma total_bytes_nonneg l : 0 <= total_bytes l.
Proof.
  unfold total_bytes. induction l as [|e l IH]; cbn; [lia|]. pose proof (blen_nonneg (shardsFlat e)). lia.
Qed.

Lemma fits_prefix c l l' : fits c (l ++ l') -> fits c l.
Proof.
  intros [[s Hs] H1 H2 H3 H4]. unfold estimateUserMduKzgBatchMemoryBytes in *.
  rewrite total_blobs_app in *. rewrite total_bytes_app in *. rewrite length_app in H1.
  pose proof (total_blobs_nonneg l'). pose proof (total_bytes_nonneg l').
  unfold KZG_COMMITMENT_SIZE in *.
  constructor; unfold estimateUserMduKzgBatchMemoryBytes, KZG_COMMITMENT_SIZE; try lia.
  exists s. by apply Forall_app in Hs as [? _].
Qed.

Lemma describe_sizes e s :
  describeUserMduKzgExpansionShape e = Ok s ->
  blobCount s = blen (shardsFlat e) / KZG_BLOB_SIZE /\ byteLength s = blen (shardsFlat e)
  /\ blen (shardsFlat e) mod KZG_BLOB_SIZE = 0 /\ 0 < blen (shardsFlat e).
Proof.
  unfold describeUserMduKzgExpansionShape. intros H. ok_steps H.
  pose proof (blen_nonneg (shardsFlat e)). bool_to_prop. subst. cbn. split_and!; try done; lia.
Qed.

Lemma compatible_refl s : areUserMduKzgShapesCompatible s s = true.
Proof. unfold areUserMduKzgShapesCompatible. by rewrite !Z.eqb_refl. Qed.
Lemma compatible_trans a b c :
  areUserMduKzgShapesCompatible a b = true -> areUserMduKzgShapesCompatible a c = true ->
  areUserMduKzgShapesCompatible b c = true.
Proof.
  unfold areUserMduKzgShapesCompatible. rewrite !andb_true_iff, !Z.eqb_eq. intuition congruence.
Qed.

Definition shape_of (shape : option UserMduKzgExpansionShape) (pre : list Expansion) : Prop :=
  match shape with None => pre = [] | Some s => pre <> [] /\ Forall (has_shape s) pre end.

Lemma shape_conflict c s pre e current :
  shape_of (Some s) pre -> describeUserMduKzgExpansionShape e = Ok current ->
  areUserMduKzgShapesCompatible s current = false -> ~ fits c (pre ++ [e]).
Proof.
  intros [Hne Hs] He Hc [[s' Hs'] _ _ _ _]. destruct pre as [|e0 pre]; [done|].
  apply Forall_cons in Hs as [(a & Ha & Hsa) _]. cbn in Hs'.
  apply Forall_cons in Hs' as [(a' & Ha' & Hsa') Hs'].
  apply Forall_app in Hs' as [_ (b & Hb & Hsb)%Forall_singleton].
  assert (a' = a) as -> by congruence. assert (b = current) as -> by congruence.
  revert Hsa Hsa' Hsb Hc. unfold areUserMduKzgShapesCompatible.
  rewrite !andb_true_iff, !Z.eqb_eq, !andb_false_iff, !Z.eqb_neq. intuition congruence.
Qed.

Lemma fits_snoc c shape pre e current :
  shape_of shape pre -> fits c pre -> describeUserMduKzgExpansionShape e = Ok current ->
  match shape with Some s => areUserMduKzgShapesCompatible s current = true | None => True end ->
  Z.of_nat (length pre) + 1 <= maxBatchMdus c ->
  total_blobs pre + blobCount current <= maxBatchBlobs c ->
  total_bytes pre + byteLength current <= maxBatchBytes c ->
  estimateUserMduKzgBatchMemoryBytes (total_bytes pre + byteLength current)
    (total_blobs pre + blobCount current) <= maxEstimatedMemoryBytes c ->
  let s' := match shape with Some s => Some s | None => Some current end in
  shape_of s' (pre ++ [e]) /\ fits c (pre ++ [e]).
Proof.
  intros Hsh Hfit He Hcomp H1 H2 H3 H4 s'. destruct (describe_sizes e current He) as (Hb & Hl & _ & _).
  assert (Hshape : shape_of s' (pre ++ [e])).
  { subst s'. destruct shape as [s|]; cbn in *.
    - destruct Hsh as [Hne Hs]. split; [by destruct pre|]. apply Forall_app. split; [done|].
      apply Forall_singleton. by exists current.
    - subst pre. split; [done|]. apply Forall_singleton. exists current. split; [done|apply compatible_refl]. }
  split; [done|]. constructor.
  - destruct shape as [s|]; [exists s|exists current]; apply Hshape.
  - rewrite length_app. cbn. lia.
  - rewrite total_blobs_app. unfold total_blobs at 2. cbn. lia.
  - rewrite total_bytes_app. unfold total_bytes at 2. cbn. lia.
  - rewrite total_blobs_app, total_bytes_app. unfold total_bytes at 2, total_blobs at 2. cbn.
    rewrite !Z.add_0_r, <- Hb, <- Hl. done.
Qed.

Lemma fits_snoc_inv c pre e current :
  describeUserMduKzgExpansionShape e = Ok current -> fits c (pre ++ [e]) ->
  Z.of_nat (length pre) + 1 <= maxBatchMdus c
  /\ total_blobs pre + blobCount current <= maxBatchBlobs c
  /\ total_bytes pre + byteLength current <= maxBatchBytes c
  /\ estimateUserMduKzgBatchMemoryBytes (total_bytes pre + byteLength current)
       (total_blobs pre + blobCount current) <= maxEstimatedMemoryBytes c.
Proof.
  intros He [_ H1 H2 H3 H4]. destruct (describe_sizes e current He) as (-> & -> & _ & _).
  rewrite length_app in H1. rewrite total_blobs_app in H2, H4. rewrite total_bytes_app in H3, H4.
  unfold total_blobs at 2 in H2. unfold total_blobs at 2 in H4. unfold total_bytes at 2 in H3.
  unfold total_bytes at 2 in H4. cbn in H1, H2, H3, H4. rewrite !Z.add_0_r in H4. split_and!; [lia..|done].
Qed.

(** What the loop returns from the state it is in after [pre]. *)
Definition planned (c : NormalizedConstraints) (pre l : list Expansion) (p : UserMduKzgBatchPlan) : Prop :=
  exists n, (n <= length l)%nat
    /\ fits c (pre ++ take n l) /\ ((n < length l)%nat -> ~ fits c (pre ++ take (S n) l))
    /\ count p = Z.of_nat (length pre + n) /\ blobs p = total_blobs (pre ++ take n l)
    /\ plan_bytes p = total_bytes (pre ++ take n l)
    /\ estimatedMemoryBytes p = estimateUserMduKzgBatchMemoryBytes (plan_bytes p) (blobs p)
    /\ (reason p = r_planned <-> n = length l).

Lemma planned_stop c pre e l r sh :
  fits c pre -> ~ fits c (pre ++ [e]) -> r <> r_planned ->
  planned c pre (e :: l) (plan_of (Z.of_nat (length pre)) (total_blobs pre) (total_bytes pre) r sh).
Proof.
  intros Hf Hn Hr. exists 0%nat. cbn. rewrite app_nil_r, Nat.add_0_r. split_and!; try done; try lia.
Qed.

Lemma plan_loop_spec c l : forall pre shape p,
  shape_of shape pre -> fits c pre ->
  plan_loop c (Z.of_nat (length pre)) (total_blobs pre) (total_bytes pre) shape l = Ok p ->
  planned c pre l p.
Proof.
  induction l as [|e l IH]; intros pre shape p Hsh Hfit; cbn [plan_loop].
  - intros [= <-]. exists 0%nat. cbn. rewrite app_nil_r, Nat.add_0_r. split_and!; try done; lia.
  - intros H. apply bind_Ok in H as (current & He & H).
    pose proof (fits_snoc_inv c pre e current He) as Hinv.
    destruct (match shape with Some s => negb _ | None => false end) eqn:Hc.
    { destruct shape as [s|]; [|done]. injection H as <-. apply negb_true_iff in Hc.
      apply planned_stop; [done|by eapply shape_conflict|done]. }
    repeat match type of H with (if ?b then _ else _) = Ok _ =>
      let E := fresh "E" in destruct b eqn:E;
        [injection H as <-; apply planned_stop; [done| |done]; intros Hx%Hinv; bool_to_prop; lia|] end.
    bool_to_prop.
    destruct (fits_snoc c shape pre e current) as [Hsh' Hfit']; try done.
    { destruct shape; [by apply negb_false_iff|done]. }
    destruct (describe_sizes e current He) as (Hb & Hl & _ & _).
    assert (Hnext : planned c (pre ++ [e]) l p).
    { eapply IH; [exact Hsh'|exact Hfit'|]. rewrite <- H. f_equal.
      - rewrite length_app. cbn. lia.
      - rewrite total_blobs_app. unfold total_blobs at 2. cbn. lia.
      - rewrite total_bytes_app. unfold total_bytes at 2. cbn. lia. }
    destruct Hnext as (n & Hn & Hf & Hmax & Hcount & Hbl & Hby & Hest & Hr).
    exists (S n). rewrite <- app_assoc in *. cbn [app take length] in *.
    replace (take (S (S n)) (e :: l)) with (e :: take (S n) l) by done.
    split_and!; try done; try lia.
    + intros Hlt. apply Hmax. lia.
    + rewrite Hcount, length_app. cbn. lia.
    + rewrite Hr. lia.
Qed.

Lemma positiveInteger_pos v f : 0 < f -> 0 < positiveInteger v f.
Proof. intros Hf. unfold positiveInteger. repeat case_match; bool_to_prop; lia. Qed.

Lemma normalized_fits_nil c : fits (normalizeUserMduKzgBatchConstraints c) [].
Proof.
  constructor; cbn; try (exists {| sh_k := 0; sh_m := 0; sh_shardLen := 0; shardCount := 0;
    blobCount := 0; byteLength := 0 |}; constructor);
    apply Z.lt_le_incl, positiveInteger_pos; done.
Qed.

(** A batch plan takes the longest prefix of the waiting expansions that may be
    committed in one call: the expansions it counts are valid, have one shape and
    stay within the limits on MDUs, blobs, bytes and estimated memory; one more
    would not; and its totals are those of the expansions it counts. *)
Theorem plan_takes_longest_prefix candidates constraints p :
  planUserMduKzgBatch candidates constraints = Ok p ->
  let c := normalizeUserMduKzgBatchConstraints constraints in
  let batch := take (Z.to_nat (count p)) candidates in
  0 <= count p <= Z.of_nat (length candidates)
  /\ fits c batch
  /\ (forall m, (Z.to_nat (count p) < m <= length candidates)%nat -> ~ fits c (take m candidates))
  /\ blobs p = total_blobs batch /\ plan_bytes p = total_bytes batch
  /\ estimatedMemoryBytes p = estimateUserMduKzgBatchMemoryBytes (plan_bytes p) (blobs p).
Proof.
  unfold planUserMduKzgBatch. intros H. destruct candidates as [|e l].
  - injection H as <-. cbn. split_and!; try done; try lia. apply normalized_fits_nil.
  - apply (plan_loop_spec _ _ []) in H as (n & Hn & Hf & Hmax & Hc & Hb & Hy & He & _);
      [|done|apply normalized_fits_nil].
    cbn [app length Nat.add] in *. rewrite Hc, Nat2Z.id. split_and!; try done; try lia.
    intros m [Hm1 Hm2] Hfit. apply Hmax; [lia|].
    replace (take m (e :: l)) with (take (S n) (e :: l) ++ drop (S n) (take m (e :: l))) in Hfit.
    + by eapply fits_prefix.
    + rewrite <- (take_drop (S n) (take m (e :: l))) at 2. f_equal. rewrite take_take. f_equal. lia.
Qed.

(** ** Concatenation and demultiplexing *)

Lemma set_all_zeros l : forall (done_ : bytes) n,
  n = total_bytes l ->
  set_all (done_ ++ zeros n) (blen done_) l = Ok (done_ ++ concat (map shardsFlat l)).
Proof.
  induction l as [|e l IH]; intros done_ n ->; cbn [set_all].
  - by cbn.
  - unfold total_bytes. cbn. fold (total_bytes l). pose proof (total_bytes_nonneg l).
    rewrite set_at_zeros by lia. cbn [bind]. rewrite <- blen_app. rewrite IH by lia.
    by rewrite <- app_assoc.
Qed.

Lemma fold_left_add {A} (f : A -> Z) l z : fold_left (fun sum e => sum + f e) l z = z + foldr Z.add 0 (map f l).
Proof. revert z. induction l as [|e l IH]; intros z; cbn; [lia|]. rewrite IH. lia. Qed.

Lemma concatenate_spec l s :
  validateHomogeneousUserMduKzgBatch l = Ok s ->
  concatenateUserMduKzgBatch l = Ok (concat (map shardsFlat l)).
Proof.
  intros Hv. unfold concatenateUserMduKzgBatch. rewrite Hv. cbn [bind].
  rewrite (fold_left_add (fun e => blen (shardsFlat e))), Z.add_0_l.
  by apply (set_all_zeros l [] (total_bytes l)).
Qed.

Lemma homogeneous_rest_Forall first i l :
  homogeneous_rest first i l = Ok tt -> Forall (has_shape first) l.
Proof.
  revert i. induction l as [|e l IH]; intros i H; cbn in H; [constructor|].
  apply bind_Ok in H as (current & He & H). ok_steps H. bool_to_prop.
  constructor; [by exists current|by eapply IH].
Qed.

Lemma validate_Forall l s : validateHomogeneousUserMduKzgBatch l = Ok s -> Forall (has_shape s) l.
Proof.
  unfold validateHomogeneousUserMduKzgBatch. destruct l as [|e l]; [done|]. intros H.
  apply bind_Ok in H as (first & He & H). apply bind_Ok in H as ([] & Hr & [= ->]).
  constructor; [exists s; split; [done|apply compatible_refl]|by eapply homogeneous_rest_Forall].
Qed.

(** The blobs of a buffer, and the commitments of all of them. *)
Definition blobs_of (flat : bytes) : list bytes :=
  map (fun i => subarray flat (i * KZG_BLOB_SIZE) ((i + 1) * KZG_BLOB_SIZE))
    (seqZ 0 (blen flat / KZG_BLOB_SIZE)).
Definition commit_all (commit : bytes -> bytes) (flat : bytes) : bytes :=
  concat (map commit (blobs_of flat)).

Lemma blobs_of_app x y :
  blen x mod KZG_BLOB_SIZE = 0 -> blobs_of (x ++ y) = blobs_of x ++ blobs_of y.
Proof.
  intros Hx. unfold blobs_of. set (B := KZG_BLOB_SIZE) in *. assert (0 < B) as HB by done.
  pose proof (blen_nonneg x). pose proof (blen_nonneg y).
  assert (blen x = blen x / B * B) as Hd by (pose proof (Z.div_mod (blen x) B); lia).
  set (q := blen x / B) in *. assert (0 <= q) by (apply Z.div_pos; lia).
  rewrite blen_app, Hd, Z.div_add_l by lia.
  assert (0 <= blen y / B) by (apply Z.div_pos; lia).
  rewrite seqZ_app, map_app by lia. f_equal.
  - apply map_ext_in. intros i Hi%list_elem_of_In%elem_of_seqZ. unfold subarray.
    rewrite drop_app_le, take_app_le; [done| |]; unfold blen in *; rewrite ?length_drop; nia.
  - rewrite Z.add_0_l. replace (seqZ q (blen y / B)) with (map (fun i => q + i) (seqZ 0 (blen y / B))).
    2: { apply list_eq. intros i. change (map ?f ?l) with (f <$> l). rewrite list_lookup_fmap.
         destruct (decide (Z.of_nat i < blen y / B)).
         - rewrite !lookup_seqZ_lt by lia. cbn. first [done|f_equal; lia].
         - rewrite !(proj2 (lookup_ge_None _ _)); [done|rewrite length_seqZ; lia..]. }
    rewrite map_map. apply map_ext_in. intros i Hi%list_elem_of_In%elem_of_seqZ. unfold subarray.
    rewrite drop_app_ge by (unfold blen in *; nia). unfold blen in *. f_equal; [nia|]. f_equal. nia.
Qed.

Lemma commit_all_app commit x y :
  blen x mod KZG_BLOB_SIZE = 0 -> commit_all commit (x ++ y) = commit_all commit x ++ commit_all commit y.
Proof. intros Hx. unfold commit_all. by rewrite blobs_of_app, map_app, concat_app by done. Qed.

Lemma commit_all_length commit x :
  (forall b, blen (commit b) = KZG_COMMITMENT_SIZE) ->
  blen (commit_all commit x) = blen x / KZG_BLOB_SIZE * KZG_COMMITMENT_SIZE.
Proof.
  intros Hc. unfold commit_all.
  assert (Hgen : forall l, blen (concat (map commit l)) = Z.of_nat (length l) * KZG_COMMITMENT_SIZE).
  { induction l as [|b l IH]; [done|]. cbn [map concat]. rewrite blen_app, IH, Hc. cbn [length]. unfold KZG_COMMITMENT_SIZE. lia. }
  rewrite Hgen. unfold blobs_of. rewrite length_map, length_seqZ, Z2Nat.id; [done|].
  by apply Z.div_pos; [apply blen_nonneg|].
Qed.

Lemma demux_loop_spec commit l : forall (done_ : bytes),
  (forall b, blen (commit b) = KZG_COMMITMENT_SIZE) ->
  Forall (fun e => blen (shardsFlat e) mod KZG_BLOB_SIZE = 0) l ->
  demux_loop (done_ ++ commit_all commit (concat (map shardsFlat l))) (blen done_) l
  = map (fun e => commit_all commit (shardsFlat e)) l.
Proof.
  induction l as [|e l IH]; intros done_ Hc Hl; [done|]. apply Forall_cons in Hl as [He Hl].
  cbn [demux_loop map concat]. rewrite commit_all_app by done.
  pose proof (commit_all_length commit (shardsFlat e) Hc) as Hlen. fold (witnessBytes e) in Hlen.
  rewrite <- Hlen. f_equal.
  - unfold subarray, blen. rewrite Nat2Z.id, drop_app_length. apply take_app_length'. lia.
  - rewrite <- blen_app, app_assoc. by apply IH.
Qed.

Lemma commit_all_concat_length commit l :
  (forall b, blen (commit b) = KZG_COMMITMENT_SIZE) ->
  Forall (fun e => blen (shardsFlat e) mod KZG_BLOB_SIZE = 0) l ->
  blen (commit_all commit (concat (map shardsFlat l))) = foldr Z.add 0 (map witnessBytes l).
Proof.
  intros Hc. induction 1 as [|e l He Hl IH]; [done|]. cbn [map concat foldr].
  by rewrite commit_all_app, blen_app, IH, commit_all_length by done.
Qed.

(** Committing a batch is the same as committing its MDUs one by one: for any
    committer that maps a blob to a commitment of 48 bytes, a valid batch
    concatenates, and cutting the commitments of the concatenated buffer gives
    back, in order, the commitments each MDU has on its own. *)
Theorem batched_commitments_equal_single commit l s :
  validateHomogeneousUserMduKzgBatch l = Ok s ->
  (forall b, blen (commit b) = KZG_COMMITMENT_SIZE) ->
  exists flat, concatenateUserMduKzgBatch l = Ok flat
    /\ demuxUserMduKzgCommitments (commit_all commit flat) l
       = Ok (map (fun e => commit_all commit (shardsFlat e)) l).
Proof.
  intros Hv Hc. exists (concat (map shardsFlat l)). split; [by eapply concatenate_spec|].
  assert (Forall (fun e => blen (shardsFlat e) mod KZG_BLOB_SIZE = 0) l) as Hl.
  { eapply Forall_impl; [by apply validate_Forall|]. intros e (s' & He & _).
    by destruct (describe_sizes e s' He) as (_ & _ & ? & _). }
  unfold demuxUserMduKzgCommitments. rewrite Hv. cbn [bind].
  rewrite (fold_left_add witnessBytes), Z.add_0_l, commit_all_concat_length, Z.eqb_refl by done.
  cbn [negb]. f_equal. by apply (demux_loop_spec commit l []).
Qed.

Lemma split_halves n : 2 <= n <= MAX_SAFE_INTEGER ->
  exists l r, splitUserMduKzgBatch n = (l, r) /\ l + r = n /\ 1 <= r <= l /\ l < n.
Proof.
  intros Hn. unfold splitUserMduKzgBatch. rewrite (proj2 (Z.leb_gt _ _)) by lia.
  rewrite ceil_div_exact by (unfold safe; lia). eexists _, _. split; [done|].
  div_lia.
Qed.

(** ** Instances *)

Definition sample_expansion : Expansion :=
  {| shardsFlat := zeros (2 * KZG_BLOB_SIZE); shardLen := int KZG_BLOB_SIZE; e_k := Some 1; e_m := Some 1 |}.
Definition no_constraints : UserMduKzgBatchConstraints :=
  {| opt_maxBatchMdus := Some (int 2); opt_maxBatchBlobs := None; opt_maxBatchBytes := None;
     opt_maxEstimatedMemoryBytes := None |}.
Definition sample_plan : UserMduKzgBatchPlan :=
  {| count := 2; blobs := 4; plan_bytes := 524288; estimatedMemoryBytes := 1048768;
     reason := r_max_batch_mdus;
     shape := Some {| sh_k := 1; sh_m := 1; sh_shardLen := 131072; shardCount := 2; blobCount := 2;
                      byteLength := 262144 |} |}.

Lemma plan_takes_longest_prefix_witness :
  planUserMduKzgBatch [sample_expansion; sample_expansion; sample_expansion] no_constraints = Ok sample_plan
  /\ fits (normalizeUserMduKzgBatchConstraints no_constraints) [sample_expansion; sample_expansion].
Proof.
  assert (planUserMduKzgBatch [sample_expansion; sample_expansion; sample_expansion] no_constraints
    = Ok sample_plan) as H by (vm_compute; reflexivity).
  split; [exact H|].
  destruct (plan_takes_longest_prefix [sample_expansion; sample_expansion; sample_expansion]
    no_constraints sample_plan H) as (_ & Hf & _). exact Hf.
Defined.

Lemma batched_commitments_equal_single_witness :
  exists flat, concatenateUserMduKzgBatch [sample_expansion; sample_expansion] = Ok flat
    /\ demuxUserMduKzgCommitments (commit_all (fun _ => zeros KZG_COMMITMENT_SIZE) flat)
         [sample_expansion; sample_expansion]
       = Ok (map (fun e => commit_all (fun _ => zeros KZG_COMMITMENT_SIZE) (shardsFlat e))
               [sample_expansion; sample_expansion]).
Proof.
  apply (batched_commitments_equal_single (fun _ => zeros KZG_COMMITMENT_SIZE)
    [sample_expansion; sample_expansion]
    {| sh_k := 1; sh_m := 1; sh_shardLen := 131072; shardCount := 2; blobCount := 2; byteLength := 262144 |}).
  - vm_compute. reflexivity.
  - intros _. reflexivity.
Defined.
