(* ===== verification/KzgScheduler.v ===== *)
(** * The KZG scheduler (src/polystore-website/src/lib/upload/userMduKzgScheduler.ts)

    One queue orders the commitment work of the browser: callers enqueue one user
    MDU each and get a promise; the scheduler runs up to [concurrency] batches of
    them, splits a batch in two when its owner fails, retries the halves, and
    falls back per MDU.

    The class is a step relation: a caller enqueues or aborts a task, an
    expansion settles, a run resumes when its expansion is there, and the owner
    of the commitments answers a call.  The code between two awaits is one step.
    Tasks are identified by the number of the [enqueue] call; [settled] records
    the promises that were resolved or rejected.  Times are not modelled, and
    the sizes of batches stay far below 2^53. *)

From S2P Require Import Prelude JsNumber JsString JsBytes KzgBatch.
Local Open Scope Z_scope.

(** An error: its message, and whether it is a WebGPU timeout
    ([isWebGpuKzgCommitTimeoutError]). *)
Record serror := { err_message : string; is_timeout : bool }.
Definition plain (m : string) : serror := {| err_message := m; is_timeout := false |}.
Definition abortError : serror := plain "user MDU KZG scheduler task aborted".

(** What a caller passes to [enqueue], and what the queue keeps of it. *)
Record Task := { t_sequence : number; t_commitBatch : bool; t_fallback : bool }.
Record QueuedTask := {
  id : nat; sequence : Z; commitBatch : bool; fallback : bool; depthAtEnqueue : Z;
  activeAtEnqueue : Z }.

Section scheduler.
Context {R : Type}.

Record BatchItem := { queued : QueuedTask; expansion : Expansion }.
Record BatchMeta := {
  meta_plan : UserMduKzgBatchPlan; splitCountAtStart : Z; fallbackCountAtStart : Z }.

Record Diagnostics := {
  d_sequence : Z; d_depthAtEnqueue : Z; d_activeAtEnqueue : Z; d_queueDepthAtStart : Z;
  d_maxQueueDepth : Z; d_fallbackCount : Z; d_batchSize : Z; d_batchPosition : Z; d_batchBlobs : Z;
  d_batchBytes : Z; d_batchEstimatedMemoryBytes : Z; d_batchMaxMdus : Z; d_batchMaxBlobs : Z;
  d_batchMaxBytes : Z; d_batchPlanReason : plan_reason; d_batchSplitCount : Z;
  d_batchFallbackCount : Z; d_batchTimeoutCount : Z; d_safeMaxBatchMdus : Z;
  d_retriedBatchSizes : list Z }.

(** What a promise settles with. *)
Inductive outcome :=
| Fulfilled (r : R) (usedFallback : bool) (diagnostics : Diagnostics)
| Failed (e : serror).

(** What a run waits for.  [Calling]: the owner's [commitBatch] or [commit] on the
    first batch of [todo]; [FallingBack]: the [fallback] of its only MDU.  [results]
    are those of the MDUs of [batch] before [todo]. *)
Inductive phase := Calling | FallingBack.
Inductive stage :=
| AwaitExpansion
| Committing (batch : list BatchItem) (meta : BatchMeta) (results : list (R * bool))
    (todo : list (list BatchItem)) (ph : phase).
Record Run := { first : QueuedTask; at_stage : stage }.

Record Counters := {
  completed : Z; failed : Z; fallbackCount : Z; batchSplitCount : Z; batchFallbackCount : Z;
  batchTimeoutCount : Z; adaptiveBatchCapMdus : option Z; adaptiveBatchCapReason : option string;
  lastRetriedBatchSizes : list Z; lastBatch : option (Z * UserMduKzgBatchPlan); lastError : option string }.

(** [active] is the number of [runs]. *)
Record Scheduler := {
  queue : list QueuedTask; runs : list Run; settled : list (nat * outcome); counters : Counters }.

(** The expansions that have settled, and the tasks whose signal is aborted. *)
Record Env := { expansions : nat -> option (Expansion + serror); aborted : nat -> bool }.

Definition initial_counters : Counters :=
  {| completed := 0; failed := 0; fallbackCount := 0; batchSplitCount := 0; batchFallbackCount := 0;
     batchTimeoutCount := 0; adaptiveBatchCapMdus := None; adaptiveBatchCapReason := None;
     lastRetriedBatchSizes := []; lastBatch := None; lastError := None |}.
Definition initial_scheduler : Scheduler :=
  {| queue := []; runs := []; settled := []; counters := initial_counters |}.

Definition set_counters (f : Counters -> Counters) (s : Scheduler) : Scheduler :=
  {| queue := queue s; runs := runs s; settled := settled s; counters := f (counters s) |}.
Definition set_runs (l : list Run) (s : Scheduler) : Scheduler :=
  {| queue := queue s; runs := l; settled := settled s; counters := counters s |}.
Definition set_queue (l : list QueuedTask) (s : Scheduler) : Scheduler :=
  {| queue := l; runs := runs s; settled := settled s; counters := counters s |}.
Definition settle (l : list (nat * outcome)) (s : Scheduler) : Scheduler :=
  {| queue := queue s; runs := runs s; settled := settled s ++ l; counters := counters s |}.

Context (maxQueueDepth concurrency : Z) (batchEnabled : bool) (batchConstraints : NormalizedConstraints).

Definition setAdaptiveBatchCap (maxBatchMdus' : option number) (reason : option string) (c : Counters)
    : Counters :=
  let set cap why :=
    {| completed := completed c; failed := failed c; fallbackCount := fallbackCount c;
       batchSplitCount := batchSplitCount c; batchFallbackCount := batchFallbackCount c;
       batchTimeoutCount := batchTimeoutCount c; adaptiveBatchCapMdus := cap;
       adaptiveBatchCapReason := why; lastRetriedBatchSizes := lastRetriedBatchSizes c;
       lastBatch := lastBatch c; lastError := lastError c |} in
  match maxBatchMdus' with
  | None => set None None
  | Some (Fin q) =>
      if qfloor q <=? 0 then c
      else set (Some (Z.max 1 (Z.min (maxBatchMdus batchConstraints) (qfloor q)))) reason
  | Some _ => c
  end.

(** [if (!this.adaptiveBatchCapMdus) return this.batchConstraints] *)
Definition effectiveBatchConstraints (c : Counters) : NormalizedConstraints :=
  match adaptiveBatchCapMdus c with
  | None | Some 0 => batchConstraints
  | Some cap =>
      {| maxBatchMdus := Z.max 1 (Z.min (maxBatchMdus batchConstraints) cap);
         maxBatchBlobs := maxBatchBlobs batchConstraints;
         maxBatchBytes := maxBatchBytes batchConstraints;
         maxEstimatedMemoryBytes := maxEstimatedMemoryBytes batchConstraints |}
  end.

(** The counters after a split, and after a split caused by a timeout. *)
Definition split_counters (retrySizes : list Z) (c : Counters) : Counters :=
  {| completed := completed c; failed := failed c; fallbackCount := fallbackCount c;
     batchSplitCount := batchSplitCount c + 1; batchFallbackCount := batchFallbackCount c;
     batchTimeoutCount := batchTimeoutCount c; adaptiveBatchCapMdus := adaptiveBatchCapMdus c;
     adaptiveBatchCapReason := adaptiveBatchCapReason c; lastRetriedBatchSizes := retrySizes;
     lastBatch := lastBatch c; lastError := lastError c |}.
Definition reduceAdaptiveBatchCapAfterTimeout (batchSize : Z) (retrySizes : list Z) (c : Counters)
    : Counters :=
  let retryCap := foldr Z.max 1 retrySizes in
  let currentCap := default (maxBatchMdus batchConstraints) (adaptiveBatchCapMdus c) in
  let other := if batchSize - 1 =? 0 then 1 else batchSize - 1 in
  {| completed := completed c; failed := failed c; fallbackCount := fallbackCount c;
     batchSplitCount := batchSplitCount c; batchFallbackCount := batchFallbackCount c;
     batchTimeoutCount := batchTimeoutCount c + 1;
     adaptiveBatchCapMdus := Some (Z.max 1 (Z.min currentCap (Z.min retryCap other)));
     adaptiveBatchCapReason :=
       Some ("reduced after WebGPU batch timeout at " +:+ pretty batchSize +:+ " user MDU(s)");
     lastRetriedBatchSizes := lastRetriedBatchSizes c; lastBatch := lastBatch c;
     lastError := lastError c |}.
Definition fallback_counters (c : Counters) : Counters :=
  {| completed := completed c; failed := failed c; fallbackCount := fallbackCount c + 1;
     batchSplitCount := batchSplitCount c; batchFallbackCount := batchFallbackCount c + 1;
     batchTimeoutCount := batchTimeoutCount c; adaptiveBatchCapMdus := adaptiveBatchCapMdus c;
     adaptiveBatchCapReason := adaptiveBatchCapReason c;
     lastRetriedBatchSizes := lastRetriedBatchSizes c; lastBatch := lastBatch c;
     lastError := lastError c |}.
Definition batch_counters (size : Z) (plan : UserMduKzgBatchPlan) (c : Counters) : Counters :=
  {| completed := completed c; failed := failed c; fallbackCount := fallbackCount c;
     batchSplitCount := batchSplitCount c; batchFallbackCount := batchFallbackCount c;
     batchTimeoutCount := batchTimeoutCount c; adaptiveBatchCapMdus := adaptiveBatchCapMdus c;
     adaptiveBatchCapReason := adaptiveBatchCapReason c;
     lastRetriedBatchSizes := lastRetriedBatchSizes c; lastBatch := Some (size, plan);
     lastError := lastError c |}.
Definition done_counters (n : Z) (c : Counters) : Counters :=
  {| completed := completed c + n; failed := failed c; fallbackCount := fallbackCount c;
     batchSplitCount := batchSplitCount c; batchFallbackCount := batchFallbackCount c;
     batchTimeoutCount := batchTimeoutCount c; adaptiveBatchCapMdus := adaptiveBatchCapMdus c;
     adaptiveBatchCapReason := adaptiveBatchCapReason c;
     lastRetriedBatchSizes := lastRetriedBatchSizes c; lastBatch := lastBatch c;
     lastError := if 0 <? n then None else lastError c |}.
Definition failed_counters (n : Z) (m : string) (c : Counters) : Counters :=
  {| completed := completed c; failed := failed c + n; fallbackCount := fallbackCount c;
     batchSplitCount := batchSplitCount c; batchFallbackCount := batchFallbackCount c;
     batchTimeoutCount := batchTimeoutCount c; adaptiveBatchCapMdus := adaptiveBatchCapMdus c;
     adaptiveBatchCapReason := adaptiveBatchCapReason c;
     lastRetriedBatchSizes := lastRetriedBatchSizes c; lastBatch := lastBatch c;
     lastError := Some m |}.

(** ** Operations *)

Definition makeDiagnostics (s : Scheduler) (item : QueuedTask) (batch : list BatchItem)
    (meta : BatchMeta) (position : Z) : Diagnostics :=
  let effective := effectiveBatchConstraints (counters s) in
  {| d_sequence := sequence item; d_depthAtEnqueue := depthAtEnqueue item;
     d_activeAtEnqueue := activeAtEnqueue item; d_queueDepthAtStart := Z.of_nat (length (queue s));
     d_maxQueueDepth := maxQueueDepth; d_fallbackCount := fallbackCount (counters s);
     d_batchSize := Z.of_nat (length batch); d_batchPosition := position;
     d_batchBlobs := blobs (meta_plan meta); d_batchBytes := plan_bytes (meta_plan meta);
     d_batchEstimatedMemoryBytes := estimatedMemoryBytes (meta_plan meta);
     d_batchMaxMdus := maxBatchMdus effective; d_batchMaxBlobs := maxBatchBlobs effective;
     d_batchMaxBytes := maxBatchBytes effective; d_batchPlanReason := reason (meta_plan meta);
     d_batchSplitCount := batchSplitCount (counters s) - splitCountAtStart meta;
     d_batchFallbackCount := batchFallbackCount (counters s) - fallbackCountAtStart meta;
     d_batchTimeoutCount := batchTimeoutCount (counters s);
     d_safeMaxBatchMdus := maxBatchMdus effective;
     d_retriedBatchSizes := lastRetriedBatchSizes (counters s) |}.

(** The [catch] of [run]: every failed item's promise rejects with the error. *)
Definition fail_items (items : list QueuedTask) (e : serror) (s : Scheduler) : Scheduler :=
  settle (map (fun q => (id q, Failed e)) items)
    (set_counters (failed_counters (Z.of_nat (length items)) (err_message e)) s).

(** [pump]; a run whose task is aborted already fails before its first await. *)
Fixpoint pump_loop (env : Env) (fuel : nat) (s : Scheduler) : Scheduler :=
  match fuel with
  | O => s
  | S fuel =>
      if Z.of_nat (length (runs s)) <? concurrency then
        match queue s with
        | [] => s
        | item :: rest =>
            if aborted env (id item)
            then pump_loop env fuel (fail_items [item] abortError (set_queue rest s))
            else pump_loop env fuel
                   (set_runs (runs s ++ [{| first := item; at_stage := AwaitExpansion |}]) (set_queue rest s))
        end
      else s
  end.
Definition pump (env : Env) (s : Scheduler) : Scheduler := pump_loop env (length (queue s)) s.

Definition enqueue (env : Env) (n : nat) (task : Task) (s : Scheduler) : Scheduler :=
  let reject m := settle [(n, Failed m)] s in
  if negb (isInteger (t_sequence task)) || num_ltz (t_sequence task)
  then reject (plain "scheduler task sequence must be a non-negative integer") else
  if maxQueueDepth <=? Z.of_nat (length (runs s)) + Z.of_nat (length (queue s))
  then reject (plain ("user MDU KZG scheduler queue is full (" +:+ pretty maxQueueDepth +:+ ")")) else
  if aborted env n then reject abortError else
  let item :=
    {| id := n; sequence := num_int (t_sequence task); commitBatch := t_commitBatch task;
       fallback := t_fallback task; depthAtEnqueue := Z.of_nat (length (queue s));
       activeAtEnqueue := Z.of_nat (length (runs s)) |} in
  pump env (set_queue (queue s ++ [item]) s).

(** The loop of [collectReadyBatch] over the queue, and what it leaves there. *)
Fixpoint collect (env : Env) (c : NormalizedConstraints) (batch : list BatchItem)
    (plan : UserMduKzgBatchPlan) (l : list QueuedTask)
    : result (list BatchItem * UserMduKzgBatchPlan * list QueuedTask) :=
  match l with
  | [] => Ok (batch, plan, [])
  | q :: rest =>
      if negb (commitBatch q) || aborted env (id q) then Ok (batch, plan, l) else
      match expansions env (id q) with
      | Some (inl e) =>
          let candidates := map expansion batch ++ [e] in
          let! candidatePlan := planUserMduKzgBatch candidates (constraints_of c) in
          if negb (count candidatePlan =? Z.of_nat (length candidates))
          then Ok (batch, (if count candidatePlan =? Z.of_nat (length batch) then candidatePlan else plan), l)
          else collect env c (batch ++ [{| queued := q; expansion := e |}]) candidatePlan rest
      | _ => Ok (batch, plan, l)
      end
  end.

Definition collectReadyBatch (env : Env) (q : QueuedTask) (e : Expansion) (s : Scheduler)
    : result (list BatchItem * UserMduKzgBatchPlan * list QueuedTask) :=
  let c := effectiveBatchConstraints (counters s) in
  let batch := [{| queued := q; expansion := e |}] in
  let! plan := planUserMduKzgBatch [e] (constraints_of c) in
  if negb batchEnabled || negb (commitBatch q) then Ok (batch, plan, queue s)
  else collect env c batch plan (queue s).

(** The end of [run]: its outcome, then [finally { active -= 1; pump() }]. *)
Definition fail_run (env : Env) (l1 l2 : list Run) (items : list QueuedTask) (e : serror)
    (s : Scheduler) : Scheduler :=
  pump env (set_runs (l1 ++ l2) (fail_items items e s)).
Definition finish_run (env : Env) (l1 l2 : list Run) (batch : list BatchItem) (meta : BatchMeta)
    (results : list (R * bool)) (s : Scheduler) : Scheduler :=
  let outcomes :=
    imap (fun i (br : BatchItem * (R * bool)) =>
      (id (queued br.1), Fulfilled br.2.1 br.2.2 (makeDiagnostics s (queued br.1) batch meta (Z.of_nat i))))
      (zip batch results) in
  pump env (set_runs (l1 ++ l2)
    (settle outcomes (set_counters (done_counters (Z.of_nat (length results))) s))).

(** The run goes on with the first batch of [todo], or ends. *)
Definition single (todo : list (list BatchItem)) : option BatchItem :=
  match todo with
  | (item :: rest) :: _ =>
      if bool_decide (rest = []) || negb (commitBatch (queued item)) then Some item else None
  | _ => None
  end.

Definition waiting (l1 l2 : list Run) (q : QueuedTask) (batch : list BatchItem) (meta : BatchMeta)
    (results : list (R * bool)) (todo : list (list BatchItem)) (ph : phase) (s : Scheduler) : Scheduler :=
  set_runs (l1 ++ {| first := q; at_stage := Committing batch meta results todo ph |} :: l2) s.

(** The [catch] of [commitSingle]. *)
Definition single_error (env : Env) (l1 l2 : list Run) (q : QueuedTask) (batch : list BatchItem)
    (meta : BatchMeta) (results : list (R * bool)) (todo : list (list BatchItem)) (item : BatchItem)
    (e : serror) (s : Scheduler) : Scheduler :=
  if negb (fallback (queued item)) then fail_run env l1 l2 (map queued batch) e s
  else waiting l1 l2 q batch meta results todo FallingBack (set_counters fallback_counters s).

Definition begin (env : Env) (l1 l2 : list Run) (q : QueuedTask) (batch : list BatchItem)
    (meta : BatchMeta) (results : list (R * bool)) (todo : list (list BatchItem)) (s : Scheduler)
    : Scheduler :=
  match todo with
  | [] => finish_run env l1 l2 batch meta results s
  | _ =>
      match single todo with
      | Some item =>
          if aborted env (id (queued item))
          then single_error env l1 l2 q batch meta results todo item abortError s
          else waiting l1 l2 q batch meta results todo Calling s
      | None => waiting l1 l2 q batch meta results todo Calling s
      end
  end.

(** [run] after its first await. *)
Definition resume (env : Env) (l1 l2 : list Run) (q : QueuedTask) (v : Expansion + serror)
    (s : Scheduler) : Scheduler :=
  match v with
  | inr e => fail_run env l1 l2 [q] e s
  | inl e =>
      if aborted env (id q) then fail_run env l1 l2 [q] abortError s else
      match collectReadyBatch env q e s with
      | Err m => fail_run env l1 l2 [q] (plain m) s
      | Ok (batch, plan, rest) =>
          let meta := {| meta_plan := plan; splitCountAtStart := batchSplitCount (counters s);
                         fallbackCountAtStart := batchFallbackCount (counters s) |} in
          let s := set_counters (batch_counters (Z.of_nat (length batch)) plan) (set_queue rest s) in
          begin env l1 l2 q batch meta [] [batch] s
      end
  end.

(** What the owner answers to the call a run waits for. *)
Inductive answer :=
| Value (r : R)
| Values (rs : list R)
| Threw (e : serror).

(** The [catch] of [commitBatchItems].  At least two MDUs are left, so neither half
    is empty ([split_halves]) and the branch for an empty half is never taken. *)
Definition split_batch (env : Env) (l1 l2 : list Run) (q : QueuedTask) (batch : list BatchItem)
    (meta : BatchMeta) (results : list (R * bool)) (b : list BatchItem) (more : list (list BatchItem))
    (e : serror) (s : Scheduler) : Scheduler :=
  let '(leftCount, rightCount) := splitUserMduKzgBatch (Z.of_nat (length b)) in
  let retrySizes := filter (fun v => 0 < v) [leftCount; rightCount] in
  let s := set_counters (split_counters retrySizes) s in
  let s := if is_timeout e
           then set_counters (reduceAdaptiveBatchCapAfterTimeout (Z.of_nat (length b)) retrySizes) s
           else s in
  begin env l1 l2 q batch meta results
    (take (Z.to_nat leftCount) b :: drop (Z.to_nat leftCount) b :: more) s.

Definition answered (env : Env) (l1 l2 : list Run) (q : QueuedTask) (batch : list BatchItem)
    (meta : BatchMeta) (results : list (R * bool)) (b : list BatchItem) (more : list (list BatchItem))
    (ph : phase) (a : answer) (s : Scheduler) : Scheduler :=
  match single (b :: more), ph, a with
  | Some _, FallingBack, Value r => begin env l1 l2 q batch meta (results ++ [(r, true)]) more s
  | Some _, FallingBack, Threw e => fail_run env l1 l2 (map queued batch) e s
  | Some _, Calling, Value r => begin env l1 l2 q batch meta (results ++ [(r, false)]) more s
  | Some item, Calling, Threw e => single_error env l1 l2 q batch meta results (b :: more) item e s
  | None, Calling, Values rs =>
      if negb (Z.of_nat (length rs) =? Z.of_nat (length b))
      then split_batch env l1 l2 q batch meta results b more
             (plain ("batch KZG owner returned " +:+ pretty (Z.of_nat (length rs)) +:+ " results for "
                     +:+ pretty (Z.of_nat (length b)) +:+ " user MDUs")) s
      else begin env l1 l2 q batch meta (results ++ map (fun r => (r, false)) rs) more s
  | None, Calling, Threw e => split_batch env l1 l2 q batch meta results b more e s
  | _, _, _ => s
  end.


(** ** The scheduler and its environment *)

(** [calls]: the [enqueue] calls made so far. *)
Record World := { env : Env; sched : Scheduler; calls : list nat }.

(** The answers that fit the call a run waits for. *)
Definition call_answer (todo : list (list BatchItem)) (a : answer) : Prop :=
  match single todo, a with
  | Some _, Value _ | None, Values _ | _, Threw _ => True
  | _, _ => False
  end.

Definition learn (n : nat) (v : Expansion + serror) (e : Env) : Env :=
  {| expansions := fun k => if decide (k = n) then Some v else expansions e k; aborted := aborted e |}.
Definition abort (n : nat) (e : Env) : Env :=
  {| expansions := expansions e; aborted := fun k => bool_decide (k = n) || aborted e k |}.

(** The steps; [honest] restricts what the owner answers. *)
Inductive step (honest : list (list BatchItem) -> answer -> Prop) : World -> World -> Prop :=
| step_enqueue w n task :
    n ∉ calls w ->
    step honest w {| env := env w; sched := enqueue (env w) n task (sched w); calls := n :: calls w |}
| step_expansion w n v :
    expansions (env w) n = None ->
    step honest w {| env := learn n v (env w); sched := sched w; calls := calls w |}
| step_abort w n :
    step honest w {| env := abort n (env w); sched := sched w; calls := calls w |}
| step_cap w cap why :
    step honest w {| env := env w; sched := set_counters (setAdaptiveBatchCap cap why) (sched w);
                     calls := calls w |}
| step_resume w l1 q l2 v :
    runs (sched w) = l1 ++ {| first := q; at_stage := AwaitExpansion |} :: l2 ->
    expansions (env w) (id q) = Some v ->
    step honest w {| env := env w; sched := resume (env w) l1 l2 q v (sched w); calls := calls w |}
| step_answer w l1 q batch meta results b more ph l2 a :
    runs (sched w)
      = l1 ++ {| first := q; at_stage := Committing batch meta results (b :: more) ph |} :: l2 ->
    call_answer (b :: more) a -> honest (b :: more) a ->
    step honest w
      {| env := env w; sched := answered (env w) l1 l2 q batch meta results b more ph a (sched w);
         calls := calls w |}.

Definition initial_world : World :=
  {| env := {| expansions := fun _ => None; aborted := fun _ => false |};
     sched := initial_scheduler; calls := [] |}.
Definition reachable (honest : list (list BatchItem) -> answer -> Prop) (w : World) : Prop :=
  rtc (step honest) initial_world w.

(** ** Invariants *)

Context (P : Expansion -> R -> Prop).

(** The owner's values satisfy [P] for the expansions they answer. *)
Definition honest (todo : list (list BatchItem)) (a : answer) : Prop :=
  match todo, a with
  | (item :: _) :: _, Value r => P (expansion item) r
  | b :: _, Values rs => length rs = length b -> Forall2 P (map expansion b) rs
  | _, _ => True
  end.

Definition run_tasks (r : Run) : list QueuedTask :=
  match at_stage r with
  | AwaitExpansion => [first r]
  | Committing batch _ _ _ _ => map queued batch
  end.
Definition tasks_of (s : Scheduler) : list QueuedTask := queue s ++ concat (map run_tasks (runs s)).

Record committing_wf (e : Env) (batch : list BatchItem) (results : list (R * bool))
    (todo : list (list BatchItem)) : Prop := {
  wf_split : exists ready, batch = ready ++ concat todo
    /\ Forall2 (fun item r => P (expansion item) r.1) ready results;
  wf_nonempty : Forall (fun b => b <> []) todo;
  wf_batchable : Forall (fun b => (2 <= length b)%nat ->
    Forall (fun item => commitBatch (queued item) = true) b) todo;
  wf_expanded : Forall (fun item => expansions e (id (queued item)) = Some (inl (expansion item))) batch;
  wf_size : Z.of_nat (length batch) <= maxQueueDepth }.

Definition run_wf (e : Env) (r : Run) : Prop :=
  match at_stage r with
  | AwaitExpansion => True
  | Committing batch _ results todo ph =>
      committing_wf e batch results todo /\ todo <> [] /\ (ph = FallingBack -> single todo <> None)
  end.

Definition is_fulfilled (x : nat * outcome) : bool :=
  match x.2 with Fulfilled _ _ _ => true | Failed _ => false end.

(** What holds while [pump] may still have to run. *)
Record core_inv (e : Env) (c : list nat) (s : Scheduler) : Prop := {
  i_ids : map id (tasks_of s) ++ (settled s).*1 ≡ₚ c;
  i_runs : Forall (run_wf e) (runs s);
  i_settled n r uf d : (n, Fulfilled r uf d) ∈ settled s ->
    exists x, expansions e n = Some (inl x) /\ P x r;
  i_active : Z.of_nat (length (runs s)) <= concurrency;
  i_depth : Z.of_nat (length (runs s)) + Z.of_nat (length (queue s)) <= maxQueueDepth;
  i_completed : completed (counters s) = Z.of_nat (length (List.filter is_fulfilled (settled s))) }.

Definition busy (s : Scheduler) : Prop :=
  queue s = [] \/ Z.of_nat (length (runs s)) = concurrency.

Record inv (w : World) : Prop := {
  inv_core : core_inv (env w) (calls w) (sched w);
  inv_busy : busy (sched w);
  inv_calls : NoDup (calls w) }.

(** Rejecting tasks that leave the queue or a run. *)
Lemma filter_failed (l : list nat) (e : serror) :
  List.filter is_fulfilled (map (fun n => (n, @Failed e)) l) = [].
Proof. induction l; cbn; done. Qed.

Lemma pump_loop_inv e c fuel : forall s,
  0 <= concurrency -> core_inv e c s -> core_inv e c (pump_loop e fuel s).
Proof.
  induction fuel as [|fuel IH]; intros s Hc Hi; cbn [pump_loop]; [done|].
  destruct (Z.ltb_spec (Z.of_nat (length (runs s))) concurrency) as [Hlt|]; [|done].
  destruct (queue s) as [|item rest] eqn:Hq; [done|].
  destruct Hi as [Hids Hruns Hset Hact Hdep Hcomp]. rewrite Hq in Hdep. cbn in Hdep.
  unfold tasks_of in Hids. rewrite Hq in Hids.
  destruct (aborted e (id item)); apply IH; try done; constructor;
    unfold tasks_of, fail_items, settle, set_queue, set_runs, set_counters; cbn in *; try lia; try done.
  - rewrite <- Hids. rewrite (fmap_app fst), !map_app. cbn. solve_Permutation.
  - intros n r uf d [?|Hin]%elem_of_app; [by eapply Hset|]. by apply list_elem_of_singleton in Hin.
  - rewrite List.filter_app, length_app. cbn. lia.
  - rewrite <- Hids. rewrite (map_app run_tasks), concat_app, !map_app. cbn. solve_Permutation.
  - apply Forall_app. split; [done|]. by apply Forall_singleton.
  - rewrite length_app. cbn. lia.
  - rewrite length_app. cbn. lia.
Qed.

Lemma pump_loop_busy e fuel : forall s,
  (length (queue s) <= fuel)%nat -> Z.of_nat (length (runs s)) <= concurrency ->
  busy (pump_loop e fuel s).
Proof.
  induction fuel as [|fuel IH]; intros s Hf Hr; cbn [pump_loop].
  - left. by apply length_zero_iff_nil; lia.
  - destruct (Z.ltb_spec (Z.of_nat (length (runs s))) concurrency) as [Hlt|]; [|right; lia].
    destruct (queue s) as [|item rest] eqn:Hq; [by left|]. cbn in Hf.
    destruct (aborted e (id item)); apply IH; cbn; rewrite ?length_app; cbn; lia.
Qed.

Lemma pump_inv e c s :
  0 <= concurrency -> core_inv e c s -> core_inv e c (pump e s) /\ busy (pump e s).
Proof.
  intros Hc Hi. split; [by apply pump_loop_inv|]. apply pump_loop_busy; [done|]. by destruct Hi.
Qed.

(** One run is in hand, with its tasks. *)
Record open_inv (e : Env) (c : list nat) (l1 l2 : list Run) (ts : list QueuedTask) (s : Scheduler)
    : Prop := {
  o_ids : map id (queue s ++ ts ++ concat (map run_tasks (l1 ++ l2))) ++ (settled s).*1 ≡ₚ c;
  o_runs : Forall (run_wf e) (l1 ++ l2);
  o_settled n r uf d : (n, Fulfilled r uf d) ∈ settled s ->
    exists x, expansions e n = Some (inl x) /\ P x r;
  o_active : Z.of_nat (length (l1 ++ l2)) + 1 <= concurrency;
  o_depth : Z.of_nat (length (l1 ++ l2)) + 1 + Z.of_nat (length (queue s)) <= maxQueueDepth;
  o_completed : completed (counters s) = Z.of_nat (length (List.filter is_fulfilled (settled s)));
  o_busy : queue s = [] \/ Z.of_nat (length (l1 ++ l2)) + 1 = concurrency }.

Abbreviation settled_inv e c s := (core_inv e c s /\ busy s).

Lemma open_run e c s l1 r l2 :
  settled_inv e c s -> runs s = l1 ++ r :: l2 -> open_inv e c l1 l2 (run_tasks r) s.
Proof.
  intros [[Hids Hruns Hset Hact Hdep Hcomp] Hb] Hr. unfold tasks_of, busy in *. rewrite Hr in *.
  rewrite length_app in Hact, Hdep, Hb. cbn in Hact, Hdep, Hb.
  constructor; rewrite ?length_app; try done; try lia.
  - rewrite <- Hids. rewrite !(map_app run_tasks), !concat_app, !map_app. cbn. rewrite !map_app.
    solve_Permutation.
  - apply Forall_app in Hruns as [? [_ ?]%Forall_cons]. by apply Forall_app.
  - destruct Hb; [by left|right; lia].
Qed.

Lemma open_set_counters e c l1 l2 ts s f :
  (forall x, completed (f x) = completed x) ->
  open_inv e c l1 l2 ts s -> open_inv e c l1 l2 ts (set_counters f s).
Proof. intros Hf [? ? ? ? ? ? ?]. constructor; cbn; try done. by rewrite Hf. Qed.

Lemma fail_run_inv e c l1 l2 ts x s :
  open_inv e c l1 l2 ts s -> settled_inv e c (fail_run e l1 l2 ts x s).
Proof.
  intros [Hids Hruns Hset Hact Hdep Hcomp _]. apply pump_inv; [lia|].
  constructor; unfold tasks_of; cbn; try done; try lia.
  - rewrite <- Hids. rewrite (fmap_app fst), !map_app. cbn.
    replace ((map (fun q => (id q, Failed x)) ts).*1) with (map id ts) by (by rewrite <- list_fmap_compose).
    solve_Permutation.
  - intros n r uf d [?|Hin]%elem_of_app; [by eapply Hset|].
    by apply list_elem_of_fmap in Hin as (? & ? & _).
  - rewrite List.filter_app, <- (map_map id (fun n => (n, Failed x))), filter_failed, app_nil_r. done.
Qed.

Lemma finish_outcomes batch results s meta :
  length batch = length results ->
  (imap (fun i (br : BatchItem * (R * bool)) => (id (queued br.1),
     Fulfilled br.2.1 br.2.2 (makeDiagnostics s (queued br.1) batch meta (Z.of_nat i))))
     (zip batch results)).*1 = map id (map queued batch).
Proof.
  intros Hl. rewrite fmap_imap. cbn. unfold compose. cbn.
  rewrite (imap_const (fun br : BatchItem * (R * bool) => id (queued br.1))).
  change (map id (map queued batch)) with (id <$> (queued <$> batch)).
  rewrite <- !list_fmap_compose.
  rewrite <- (fst_zip batch results) at 2 by lia. by rewrite <- list_fmap_compose.
Qed.

Lemma finish_run_inv e c l1 l2 batch meta results s :
  open_inv e c l1 l2 (map queued batch) s ->
  Forall2 (fun item r => P (expansion item) r.1) batch results ->
  Forall (fun item => expansions e (id (queued item)) = Some (inl (expansion item))) batch ->
  settled_inv e c (finish_run e l1 l2 batch meta results s).
Proof.
  intros [Hids Hruns Hset Hact Hdep Hcomp _] HP Hexp. apply Forall2_length in HP as Hlen.
  apply pump_inv; [lia|]. constructor; unfold tasks_of; cbn; try done; try lia.
  - rewrite <- Hids. rewrite (fmap_app fst), finish_outcomes, !map_app by done. solve_Permutation.
  - intros n r uf d [?|Hin]%elem_of_app; [by eapply Hset|].
    apply elem_of_lookup_imap in Hin as (i & [item [r' uf']] & Heq & Hz). cbn in Heq.
    injection Heq as -> -> -> ->. apply lookup_zip_Some in Hz as [Hi Hr].
    rewrite Forall_lookup in Hexp. exists (expansion item). split; [by apply (Hexp i)|].
    exact (Forall2_lookup_lr _ _ _ _ _ _ HP Hi Hr).
  - rewrite List.filter_app, length_app.
    assert (Hall : forall (f : nat -> BatchItem * (R * bool) -> nat * outcome) (l : list (BatchItem * (R * bool))),
      (forall i x, is_fulfilled (f i x) = true) -> List.filter is_fulfilled (imap f l) = imap f l).
    { clear. intros f l. revert f. induction l as [|x l IH]; intros f Hf; [done|].
      rewrite imap_cons. cbn. rewrite Hf. f_equal. apply IH. intros. apply Hf. }
    rewrite Hall by done. rewrite length_imap, length_zip. lia.
Qed.

Lemma waiting_inv e c l1 l2 q batch meta results todo ph s :
  open_inv e c l1 l2 (map queued batch) s -> committing_wf e batch results todo -> todo <> [] ->
  (ph = FallingBack -> single todo <> None) ->
  settled_inv e c (waiting l1 l2 q batch meta results todo ph s).
Proof.
  intros [Hids Hruns Hset Hact Hdep Hcomp Hb] Hwf Hne Hph. rewrite length_app in *. split.
  - constructor; unfold tasks_of; cbn; rewrite ?length_app; cbn; try done; try lia.
    + rewrite <- Hids. rewrite !(map_app run_tasks), !concat_app, !map_app. cbn. rewrite !map_app.
      solve_Permutation.
    + apply Forall_app in Hruns as [? ?]. apply Forall_app. split; [done|]. by constructor.
  - unfold busy. cbn. rewrite length_app. cbn. destruct Hb; [by left|right; lia].
Qed.

Lemma single_error_inv e c l1 l2 q batch meta results todo item x s :
  open_inv e c l1 l2 (map queued batch) s -> committing_wf e batch results todo -> todo <> [] ->
  single todo = Some item ->
  settled_inv e c (single_error e l1 l2 q batch meta results todo item x s).
Proof.
  intros Ho Hwf Hne Hs. unfold single_error. destruct (negb _); [by apply fail_run_inv|].
  apply waiting_inv; [by apply open_set_counters|done|done|congruence].
Qed.

Lemma begin_inv e c l1 l2 q batch meta results todo s :
  open_inv e c l1 l2 (map queued batch) s -> committing_wf e batch results todo ->
  settled_inv e c (begin e l1 l2 q batch meta results todo s).
Proof.
  intros Ho Hwf. unfold begin. destruct todo as [|b more].
  - destruct Hwf as [(ready & -> & HP) _ _ Hexp _]. cbn in *. rewrite app_nil_r in *.
    by apply finish_run_inv.
  - destruct (single (b :: more)) as [item|] eqn:Hs; [|by apply waiting_inv].
    destruct (aborted _ _); [by apply single_error_inv|by apply waiting_inv].
Qed.

(** A batch that is committed alone has one MDU. *)
Lemma single_one e batch results b more item :
  committing_wf e batch results (b :: more) -> single (b :: more) = Some item -> b = [item].
Proof.
  intros [_ Hn Hb _ _] Hs. apply Forall_cons in Hn as [Hn _]. apply Forall_cons in Hb as [Hb _].
  unfold single in Hs. destruct b as [|i [|i' b]]; [done|by injection Hs as ->|].
  specialize (Hb ltac:(cbn; lia)). apply Forall_cons in Hb as [Hc _]. rewrite Hc in Hs.
  by rewrite bool_decide_eq_false_2 in Hs.
Qed.

Lemma not_single e batch results b more :
  committing_wf e batch results (b :: more) -> single (b :: more) = None -> (2 <= length b)%nat.
Proof.
  intros [_ Hn _ _ _] Hs. apply Forall_cons in Hn as [Hn _]. unfold single in Hs.
  destruct b as [|i [|i' b]]; cbn; [done| |lia]. by rewrite bool_decide_eq_true_2 in Hs.
Qed.

Lemma committed e batch results b more rs :
  committing_wf e batch results (b :: more) ->
  Forall2 (fun item (r : R * bool) => P (expansion item) r.1) b rs ->
  committing_wf e batch (results ++ rs) more.
Proof.
  intros [(ready & -> & HP) Hn Hb Hexp Hsz] Hrs. apply Forall_cons in Hn as [_ ?].
  apply Forall_cons in Hb as [_ ?]. constructor; try done.
  exists (ready ++ b). split; [by rewrite <- app_assoc|]. by apply Forall2_app.
Qed.

Lemma split_wf e batch results b more n :
  committing_wf e batch results (b :: more) -> (0 < n < length b)%nat ->
  committing_wf e batch results (take n b :: drop n b :: more).
Proof.
  intros [(ready & Hbatch & HP) Hn Hb Hexp Hsz] Hlen. apply Forall_cons in Hn as [_ ?].
  apply Forall_cons in Hb as [Hb ?]. specialize (Hb ltac:(lia)). constructor; try done.
  - exists ready. split; [|done]. rewrite Hbatch. cbn. f_equal. by rewrite app_assoc, take_drop.
  - constructor; [|constructor; [|done]]; intros Hz%(f_equal length);
      rewrite ?length_take, ?length_drop in Hz; cbn in Hz; lia.
  - constructor; [|constructor; [|done]]; intros _; [by apply Forall_take|by apply Forall_drop].
Qed.

Lemma wf_head_size e batch results b more :
  committing_wf e batch results (b :: more) -> Z.of_nat (length b) <= maxQueueDepth.
Proof. intros [(ready & -> & _) _ _ _ Hsz]. rewrite length_app in Hsz. cbn in Hsz. rewrite length_app in Hsz. lia. Qed.

Lemma split_batch_inv e c l1 l2 q batch meta results b more x s :
  open_inv e c l1 l2 (map queued batch) s -> committing_wf e batch results (b :: more) ->
  (2 <= length b)%nat -> Z.of_nat (length b) <= MAX_SAFE_INTEGER ->
  settled_inv e c (split_batch e l1 l2 q batch meta results b more x s).
Proof.
  intros Ho Hwf Hlen Hsafe. unfold split_batch.
  destruct (split_halves (Z.of_nat (length b))) as (l & r & -> & Hsum & Hr & Hl); [lia|].
  apply begin_inv; [|apply split_wf; [done|lia]].
  destruct (is_timeout x); repeat (apply open_set_counters; [done|]); done.
Qed.

Lemma answered_inv e c l1 l2 q batch meta results b more ph a s :
  open_inv e c l1 l2 (map queued batch) s -> committing_wf e batch results (b :: more) ->
  (ph = FallingBack -> single (b :: more) <> None) ->
  call_answer (b :: more) a -> honest (b :: more) a -> Z.of_nat (length b) <= MAX_SAFE_INTEGER ->
  settled_inv e c (answered e l1 l2 q batch meta results b more ph a s).
Proof.
  intros Ho Hwf Hph Hcall Hh Hsafe. unfold answered. unfold call_answer in Hcall.
  destruct (single (b :: more)) as [item|] eqn:Hs.
  - pose proof (single_one _ _ _ _ _ _ Hwf Hs) as ->.
    destruct ph, a as [r|rs|x]; try done.
    + apply begin_inv; [done|]. eapply committed; [done|]. by repeat constructor.
    + by apply single_error_inv.
    + apply begin_inv; [done|]. eapply committed; [done|]. by repeat constructor.
    + by apply fail_run_inv.
  - pose proof (not_single _ _ _ _ _ Hwf Hs) as Hlen.
    destruct ph; [|by destruct (Hph eq_refl)]. destruct a as [r|rs|x]; [done| |by apply split_batch_inv].
    destruct (Z.eqb_spec (Z.of_nat (length rs)) (Z.of_nat (length b))) as [He|He]; cbn [negb];
      [|by apply split_batch_inv].
    apply begin_inv; [done|]. eapply committed; [done|].
    cbn in Hh. assert (Forall2 P (map expansion b) rs) as HF by (destruct b; apply Hh; lia).
    apply Forall2_fmap_r. cbn. exact (proj1 (Forall2_fmap_l _ _ _ _) HF).
Qed.

Lemma collect_spec e c l : forall batch plan batch' plan' rest,
  collect e c batch plan l = Ok (batch', plan', rest) ->
  exists taken, batch' = batch ++ taken /\ l = map queued taken ++ rest
    /\ Forall (fun item => commitBatch (queued item) = true) taken
    /\ Forall (fun item => expansions e (id (queued item)) = Some (inl (expansion item))) taken.
Proof.
  induction l as [|q l IH]; intros batch plan batch' plan' rest; cbn [collect].
  - intros [= <- <- <-]. exists []. by rewrite app_nil_r.
  - assert (Hstop : forall p, Ok (batch, p, q :: l) = Ok (batch', plan', rest) ->
      exists taken, batch' = batch ++ taken /\ q :: l = map queued taken ++ rest
        /\ Forall (fun item => commitBatch (queued item) = true) taken
        /\ Forall (fun item => expansions e (id (queued item)) = Some (inl (expansion item))) taken).
    { intros p [= <- <- <-]. exists []. by rewrite app_nil_r. }
    destruct (negb (commitBatch q) || aborted e (id q)) eqn:Hg; [apply Hstop|].
    apply orb_false_iff in Hg as [Hc%negb_false_iff _].
    destruct (expansions e (id q)) as [[x|]|] eqn:Hx; [|apply Hstop|apply Hstop].
    intros H. apply bind_Ok in H as (cp & _ & H). destruct (negb _); [by eapply Hstop|].
    apply IH in H as (taken & -> & -> & Hcb & Hex).
    exists ({| queued := q; expansion := x |} :: taken). rewrite <- app_assoc.
    split_and!; [done|done|by constructor|by constructor].
Qed.

Lemma resume_inv e c l1 l2 q v s :
  open_inv e c l1 l2 [q] s -> expansions e (id q) = Some v ->
  settled_inv e c (resume e l1 l2 q v s).
Proof.
  intros Ho Hv. unfold resume. destruct v as [x|x]; [|by apply fail_run_inv].
  destruct (aborted e (id q)); [by apply fail_run_inv|].
  destruct (collectReadyBatch e q x s) as [[[batch plan] rest]|m] eqn:Hcoll; [|by apply fail_run_inv].
  assert (exists taken, batch = {| queued := q; expansion := x |} :: taken
    /\ queue s = map queued taken ++ rest
    /\ Forall (fun item => expansions e (id (queued item)) = Some (inl (expansion item))) taken
    /\ ((2 <= length batch)%nat -> Forall (fun item => commitBatch (queued item) = true) batch))
    as (taken & -> & Hq & Hex & Hcb).
  { unfold collectReadyBatch in Hcoll. apply bind_Ok in Hcoll as (p0 & _ & Hcoll).
    destruct (negb batchEnabled || negb (commitBatch q)) eqn:Hg.
    - injection Hcoll as <- <- <-. exists []. split_and!; [done..|cbn; lia].
    - apply orb_false_iff in Hg as [_ Hc%negb_false_iff].
      apply collect_spec in Hcoll as (taken & -> & -> & Hcb & Hex).
      exists taken. split_and!; [done..|]. intros _. by constructor. }
  apply begin_inv.
  - apply open_set_counters; [done|]. destruct Ho as [Hids Hruns Hset Hact Hdep Hcomp Hb].
    rewrite Hq in Hids, Hdep, Hb. rewrite (length_app (map queued taken)) in Hdep.
    constructor; cbn; try done; try lia.
    + rewrite <- Hids. rewrite !map_app. cbn. rewrite !map_app. solve_Permutation.
    + destruct Hb as [[_ ->]%app_nil|?]; [by left|by right].
  - constructor.
    + exists []. cbn. by rewrite app_nil_r.
    + by apply Forall_singleton.
    + apply Forall_singleton. exact Hcb.
    + by constructor.
    + destruct Ho as [_ _ _ _ Hdep _ _]. rewrite Hq, (length_app (map queued taken)), length_map in Hdep.
      cbn. lia.
Qed.

Lemma enqueue_inv e c n task s :
  0 <= concurrency -> n ∉ c -> settled_inv e c s -> settled_inv e (n :: c) (enqueue e n task s).
Proof.
  intros Hc Hn [Hcore Hb].
  assert (Hrej : forall x, settled_inv e (n :: c) (settle [(n, Failed x)] s)).
  { intros x. destruct Hcore as [Hids Hruns Hset Hact Hdep Hcomp]. split; [|done].
    constructor; unfold tasks_of in *; cbn; try done.
    - rewrite <- Hids, (fmap_app fst). cbn. solve_Permutation.
    - intros m r uf d [?|Hin]%elem_of_app; [by eapply Hset|]. by apply list_elem_of_singleton in Hin.
    - rewrite List.filter_app, length_app. cbn. lia. }
  unfold enqueue. destruct (_ || _); [apply Hrej|].
  destruct (Z.leb_spec maxQueueDepth (Z.of_nat (length (runs s)) + Z.of_nat (length (queue s))));
    [apply Hrej|].
  destruct (aborted e n); [apply Hrej|]. destruct Hcore as [Hids Hruns Hset Hact Hdep Hcomp].
  apply pump_inv; [done|]. constructor; unfold tasks_of in *; cbn; rewrite ?length_app; cbn; try done; try lia.
  rewrite <- Hids, !map_app. cbn. solve_Permutation.
Qed.

(** Expansions settle once, so nothing recorded about them changes. *)
Lemma env_inv e e' c s :
  (forall m x, expansions e m = Some x -> expansions e' m = Some x) ->
  core_inv e c s -> core_inv e' c s.
Proof.
  intros Hkeep [Hids Hruns Hset Hact Hdep Hcomp]. constructor; try done.
  - eapply Forall_impl; [exact Hruns|]. intros r. unfold run_wf.
    destruct (at_stage r) as [|batch meta results todo ph]; [done|].
    intros ([? ? ? Hexp ?] & ? & ?). split; [|done]. constructor; try done.
    eapply Forall_impl; [exact Hexp|]. intros item. apply Hkeep.
  - intros m r uf d Hin. destruct (Hset m r uf d Hin) as (x & Hx & HP). exists x.
    split; [by apply Hkeep|done].
Qed.

Lemma learn_keeps e n v m x :
  expansions e n = None -> expansions e m = Some x -> expansions (learn n v e) m = Some x.
Proof. intros Hn Hm. cbn. rewrite decide_False; [done|]. intros ->. congruence. Qed.

Lemma step_inv w w' :
  0 <= concurrency -> maxQueueDepth <= MAX_SAFE_INTEGER -> step honest w w' -> inv w -> inv w'.
Proof.
  intros Hc Hmax Hs [Hcore Hb Hnd].
  destruct Hs as [w n task Hn|w n v Hn|w n|w cap why|w l1 q l2 v Hr Hv
    |w l1 q batch meta results b more ph l2 a Hr Hcall Hh].
  - destruct (enqueue_inv (env w) (calls w) n task (sched w) Hc Hn) as [? ?]; [done|].
    constructor; [done..|]. by constructor.
  - constructor; [|done|done]. eapply env_inv; [|done]. intros m x. by apply learn_keeps.
  - constructor; [|done|done]. eapply env_inv; [|exact Hcore]. auto.
  - constructor; [|done|done]. destruct Hcore as [? ? ? ? ? Hcomp]. constructor; try done.
    cbn. unfold setAdaptiveBatchCap. by repeat case_match.
  - destruct (resume_inv (env w) (calls w) l1 l2 q v (sched w)) as [? ?]; [|done|by constructor].
    exact (open_run _ _ _ _ _ _ (conj Hcore Hb) Hr).
  - pose proof (open_run _ _ _ _ _ _ (conj Hcore Hb) Hr) as Ho. cbn in Ho.
    assert (Hwf : run_wf (env w)
      {| first := q; at_stage := Committing batch meta results (b :: more) ph |}).
    { destruct Hcore as [_ Hruns _ _ _ _]. rewrite Hr in Hruns.
      by apply Forall_app in Hruns as [_ [? _]%Forall_cons]. }
    destruct Hwf as (Hwf & _ & Hph). pose proof (wf_head_size _ _ _ _ _ Hwf).
    assert (Z.of_nat (length b) <= MAX_SAFE_INTEGER) as Hsz by lia.
    destruct (answered_inv (env w) (calls w) l1 l2 q batch meta results b more ph a (sched w)
      Ho Hwf Hph Hcall Hh Hsz) as [? ?]. by constructor.
Qed.

Lemma initial_inv : 0 <= concurrency -> 0 <= maxQueueDepth -> inv initial_world.
Proof.
  intros. constructor; [|by left|constructor]. constructor; cbn; try done.
  by intros n r uf d ?%elem_of_nil.
Qed.

Lemma scheduler_inv w :
  0 <= concurrency -> 0 <= maxQueueDepth <= MAX_SAFE_INTEGER -> reachable honest w -> inv w.
Proof.
  intros Hc Hm Hr. eapply (rtc_preserves (step honest) inv); [|exact Hr|apply initial_inv; lia].
  intros x y. apply step_inv; lia.
Qed.

(** ** Draining *)

(** A step of the scheduler itself: a run resumes or its owner answers. *)
Inductive drain (hon : list (list BatchItem) -> answer -> Prop) : World -> World -> Prop :=
| drain_resume w l1 q l2 v :
    runs (sched w) = l1 ++ {| first := q; at_stage := AwaitExpansion |} :: l2 ->
    expansions (env w) (id q) = Some v ->
    drain hon w {| env := env w; sched := resume (env w) l1 l2 q v (sched w); calls := calls w |}
| drain_answer w l1 q batch meta results b more ph l2 a :
    runs (sched w)
      = l1 ++ {| first := q; at_stage := Committing batch meta results (b :: more) ph |} :: l2 ->
    call_answer (b :: more) a -> hon (b :: more) a ->
    drain hon w
      {| env := env w; sched := answered (env w) l1 l2 q batch meta results b more ph a (sched w);
         calls := calls w |}.

Definition todo_work (todo : list (list BatchItem)) : Z :=
  foldr Z.add 0 (map (fun b => 3 * Z.of_nat (length b) - 1) todo).
Definition run_work (r : Run) : Z :=
  match at_stage r with
  | AwaitExpansion => 4
  | Committing _ _ _ todo ph => todo_work todo - match ph with Calling => 0 | FallingBack => 1 end
  end.
Definition runs_work (l : list Run) : Z := foldr Z.add 0 (map run_work l).
Definition work (s : Scheduler) : Z := 5 * Z.of_nat (length (queue s)) + runs_work (runs s).

Lemma runs_work_app l l' : runs_work (l ++ l') = runs_work l + runs_work l'.
Proof. unfold runs_work. induction l as [|r l IH]; cbn; [done|]. rewrite IH. lia. Qed.

Lemma pump_loop_work e fuel : forall s, work (pump_loop e fuel s) <= work s.
Proof.
  induction fuel as [|fuel IH]; intros s; cbn [pump_loop]; [done|].
  destruct (_ <? _); [|done]. destruct (queue s) as [|item rest] eqn:Hq; [done|].
  destruct (aborted e (id item)); (etransitivity; [apply IH|]); unfold work;
    cbn [queue runs set_queue set_runs fail_items settle set_counters]; rewrite Hq; cbn [length].
  - lia.
  - rewrite runs_work_app. unfold runs_work at 2. cbn. lia.
Qed.
Lemma pump_work e s : work (pump e s) <= work s.
Proof. apply pump_loop_work. Qed.

Lemma begin_work e l1 l2 q batch meta results todo s :
  work (begin e l1 l2 q batch meta results todo s)
  <= 5 * Z.of_nat (length (queue s)) + runs_work (l1 ++ l2) + Z.max 0 (todo_work todo).
Proof.
  assert (Hput : forall ph s0, queue s0 = queue s ->
    work (waiting l1 l2 q batch meta results todo ph s0)
    <= 5 * Z.of_nat (length (queue s)) + runs_work (l1 ++ l2) + Z.max 0 (todo_work todo)).
  { intros ph s0 Hq. unfold work, waiting. cbn [queue runs set_runs]. rewrite Hq, !runs_work_app.
    unfold runs_work at 2. cbn [map foldr run_work at_stage]. fold (runs_work l2).
    destruct ph; lia. }
  unfold begin. destruct todo as [|b more].
  - etransitivity; [apply pump_work|]. unfold work. cbn [queue runs set_runs settle set_counters]. lia.
  - destruct (single (b :: more)) as [item|]; [|by apply Hput].
    destruct (aborted _ _); [|by apply Hput]. unfold single_error.
    destruct (negb _); [|by apply Hput].
    etransitivity; [apply pump_work|]. unfold work. cbn [queue runs set_runs fail_items settle set_counters]. lia.
Qed.


Lemma fail_run_work e l1 l2 ts x s :
  work (fail_run e l1 l2 ts x s) <= 5 * Z.of_nat (length (queue s)) + runs_work (l1 ++ l2).
Proof.
  etransitivity; [apply pump_work|]. unfold work.
  cbn [queue runs set_runs fail_items settle set_counters]. lia.
Qed.

Lemma todo_work_nonneg todo : Forall (fun b : list BatchItem => b <> []) todo -> 0 <= todo_work todo.
Proof.
  unfold todo_work. induction 1 as [|b todo Hb _ IH]; cbn; [lia|].
  destruct b; [done|]. cbn [length]. lia.
Qed.

Lemma open_work w l1 r l2 :
  runs (sched w) = l1 ++ r :: l2 ->
  work (sched w) = 5 * Z.of_nat (length (queue (sched w))) + runs_work (l1 ++ l2) + run_work r.
Proof.
  intros Hr. unfold work. rewrite Hr, !runs_work_app. unfold runs_work at 2. cbn [map foldr].
  fold (runs_work l2). lia.
Qed.

Lemma resume_work e l1 l2 q v s :
  work (resume e l1 l2 q v s) < 5 * Z.of_nat (length (queue s)) + runs_work (l1 ++ l2) + 4.
Proof.
  assert (Hfail : forall x, work (fail_run e l1 l2 [q] x s)
    < 5 * Z.of_nat (length (queue s)) + runs_work (l1 ++ l2) + 4)
    by (intros; eapply Z.le_lt_trans; [apply fail_run_work|lia]).
  unfold resume. destruct v as [x|x]; [|apply Hfail]. destruct (aborted e (id q)); [apply Hfail|].
  destruct (collectReadyBatch e q x s) as [[[bt plan] rest]|m] eqn:Hcoll; [|apply Hfail].
  eapply Z.le_lt_trans; [apply begin_work|]. cbn [queue set_counters set_queue].
  assert (exists k, (length bt = S k)%nat /\ length (queue s) = (k + length rest)%nat) as (k & Hk & Hq).
  { unfold collectReadyBatch in Hcoll. apply bind_Ok in Hcoll as (p0 & _ & Hcoll). destruct (_ || _).
    - injection Hcoll as <- _ <-. by exists 0%nat.
    - apply collect_spec in Hcoll as (taken & -> & -> & _ & _). exists (length taken).
      split; [done|]. by rewrite length_app, length_map. }
  unfold todo_work. cbn [map foldr]. rewrite Hk, Hq. lia.
Qed.

Lemma split_batch_work e l1 l2 q batch meta results b more x s :
  (2 <= length b)%nat -> Z.of_nat (length b) <= MAX_SAFE_INTEGER -> 0 <= todo_work more ->
  work (split_batch e l1 l2 q batch meta results b more x s)
  < 5 * Z.of_nat (length (queue s)) + runs_work (l1 ++ l2) + todo_work (b :: more).
Proof.
  intros Hlen Hsz Hmore. unfold split_batch.
  destruct (split_halves (Z.of_nat (length b))) as (l & r & -> & Hsum & Hr & Hl); [lia|].
  eapply Z.le_lt_trans; [apply begin_work|].
  assert (Hqueue : forall s f, queue (set_counters f s) = queue s) by done.
  destruct (is_timeout x); rewrite !Hqueue; unfold todo_work; cbn [map foldr];
    fold (todo_work more); rewrite length_take, length_drop; lia.
Qed.

Lemma answered_work e l1 l2 q batch meta results b more ph a s :
  committing_wf e batch results (b :: more) -> (ph = FallingBack -> single (b :: more) <> None) ->
  call_answer (b :: more) a -> Z.of_nat (length b) <= MAX_SAFE_INTEGER ->
  work (answered e l1 l2 q batch meta results b more ph a s)
  < 5 * Z.of_nat (length (queue s)) + runs_work (l1 ++ l2)
    + (todo_work (b :: more) - match ph with Calling => 0 | FallingBack => 1 end).
Proof.
  intros Hwf Hph Hcall Hsz. pose proof (wf_nonempty _ _ _ _ Hwf) as [Hnb Hn]%Forall_cons.
  pose proof (todo_work_nonneg more Hn) as Hmore.
  assert (Hcons : todo_work (b :: more) = 3 * Z.of_nat (length b) - 1 + todo_work more) by done.
  assert (1 <= Z.of_nat (length b)) as Hb1 by (destruct b; [done|cbn; lia]).
  unfold answered, call_answer in *. destruct (single (b :: more)) as [item|] eqn:Hs.
  - destruct ph, a as [r|rs|x]; try done;
      try (eapply Z.le_lt_trans; [apply begin_work|]; lia);
      try (eapply Z.le_lt_trans; [apply fail_run_work|]; lia).
    unfold single_error. destruct (negb _); [eapply Z.le_lt_trans; [apply fail_run_work|lia]|].
    unfold work, waiting. cbn [queue runs set_runs set_counters]. rewrite !runs_work_app.
    unfold runs_work at 2. cbn [map foldr run_work at_stage]. fold (runs_work l2). lia.
  - pose proof (not_single _ _ _ _ _ Hwf Hs) as Hlen. destruct ph; [|by destruct (Hph eq_refl)].
    rewrite Z.sub_0_r. destruct a as [r|rs|x]; [done| |by apply split_batch_work].
    destruct (negb _); [by apply split_batch_work|]. eapply Z.le_lt_trans; [apply begin_work|]. lia.
Qed.

(** Every step of the scheduler does some of the work. *)
Lemma drain_work hon w w' :
  inv w -> maxQueueDepth <= MAX_SAFE_INTEGER -> drain hon w w' -> work (sched w') < work (sched w).
Proof.
  intros [Hcore _ _] Hmax Hd.
  destruct Hd as [w l1 q l2 v Hr Hv|w l1 q batch meta results b more ph l2 a Hr Hcall _]; cbn [sched];
    rewrite (open_work _ _ _ _ Hr); cbn [run_work at_stage].
  - apply resume_work.
  - destruct Hcore as [_ Hruns _ _ _ _]. rewrite Hr in Hruns.
    apply Forall_app in Hruns as [_ [(Hwf & _ & Hph) _]%Forall_cons].
    pose proof (wf_head_size _ _ _ _ _ Hwf). apply answered_work; try done. lia.
Qed.

Lemma drain_step hon w w' : drain hon w w' -> step hon w w'.
Proof. intros [? ? ? ? ? Hr Hv|]; [by eapply step_resume|by eapply step_answer]. Qed.

(** When every expansion the runs wait for has settled, something can happen. *)
Lemma drain_progress hon w :
  0 < concurrency -> inv w -> (forall todo e, hon todo (Threw e)) ->
  (forall r, r ∈ runs (sched w) -> expansions (env w) (id (first r)) <> None) ->
  tasks_of (sched w) <> [] -> exists w', drain hon w w'.
Proof.
  intros Hc [Hcore Hb _] Hthrow Hknown Hne. destruct (runs (sched w)) as [|r l] eqn:Hr.
  - exfalso. apply Hne. unfold tasks_of. rewrite Hr. destruct Hb as [->|Hb]; [done|]. rewrite Hr in Hb. cbn in Hb. lia.
  - destruct r as [q [|batch meta results todo ph]].
    + destruct (expansions (env w) (id q)) as [v|] eqn:Hv.
      * eexists. by eapply (drain_resume _ _ [] q l v).
      * exfalso. by apply (Hknown {| first := q; at_stage := AwaitExpansion |}); [left|].
    + destruct Hcore as [_ Hruns _ _ _ _]. rewrite Hr in Hruns. apply Forall_cons in Hruns as [(_ & Ht & _) _].
      destruct todo as [|b more]; [done|]. eexists.
      eapply (drain_answer _ _ [] q batch meta results b more ph l (Threw (plain ""))); [done| |done].
      unfold call_answer. by destruct (single _).
Qed.

End scheduler.

Lemma honest_true {R} todo (a : @answer R) : honest (fun _ _ => True) todo a.
Proof.
  unfold honest. destruct todo as [|[|item b] more], a; try done.
  - intros Hl. by apply Forall2_true.
  - intros Hl. apply Forall2_true; [done|]. by rewrite length_map.
Qed.

Lemma any_inv {R} maxQueueDepth concurrency batchEnabled batchConstraints (w : @World R) :
  0 < concurrency -> 0 < maxQueueDepth <= MAX_SAFE_INTEGER ->
  reachable maxQueueDepth concurrency batchEnabled batchConstraints (fun _ _ => True) w ->
  inv maxQueueDepth concurrency (fun _ _ => True) w.
Proof.
  intros Hc Hm Hr. apply (scheduler_inv maxQueueDepth concurrency batchEnabled batchConstraints); [lia|lia|].
  eapply rtc_subrel; [|exact Hr]. intros x y Hs. pose proof (@honest_true R) as Hh.
  destruct Hs; econstructor; eauto.
Qed.

(** ** What callers rely on *)

(** C18: Every call of [enqueue] gets exactly one answer.  In any reachable state the
    calls are exactly the tasks still queued or in a run together with the
    settled promises, none of them twice, so once the scheduler is idle every
    promise has been settled exactly once; never more batches run than
    [concurrency] allows, the queue and the runs stay within [maxQueueDepth],
    tasks wait only while all places are taken, and [completed] counts the
    fulfilled promises.  This holds whatever the owner answers. *)
Theorem scheduler_settles_each_once {R : Type} maxQueueDepth concurrency batchEnabled batchConstraints
    (w : @World R) :
  0 < concurrency -> 0 < maxQueueDepth <= MAX_SAFE_INTEGER ->
  reachable maxQueueDepth concurrency batchEnabled batchConstraints (fun _ _ => True) w ->
  let s := sched w in
  map id (tasks_of s) ++ (settled s).*1 ≡ₚ calls w
  /\ NoDup (map id (tasks_of s) ++ (settled s).*1)
  /\ (queue s = [] -> runs s = [] -> (settled s).*1 ≡ₚ calls w)
  /\ Z.of_nat (length (runs s)) <= concurrency
  /\ Z.of_nat (length (runs s)) + Z.of_nat (length (queue s)) <= maxQueueDepth
  /\ (queue s <> [] -> Z.of_nat (length (runs s)) = concurrency)
  /\ completed (counters s) = Z.of_nat (length (List.filter is_fulfilled (settled s))).
Proof.
  intros Hc Hm Hr s.
  destruct (any_inv _ _ _ _ _ Hc Hm Hr) as [[Hids _ _ Ha Hd Hcomp] Hb Hnd].
  subst s. split_and!; try done.
  - by rewrite Hids.
  - intros Hq Hru. rewrite <- Hids. unfold tasks_of. by rewrite Hq, Hru.
  - intros Hne. by destruct Hb.
Qed.

(** C28: A fulfilled promise carries the commitments of its own MDU, however MDUs were
    batched, split, retried or committed by the fallback: if every value the
    owner returns for an expansion satisfies [P] of it, then a promise that is
    fulfilled with [r] belongs to a task whose expansion satisfies [P] with [r]. *)
Theorem scheduler_own_result {R : Type} maxQueueDepth concurrency batchEnabled batchConstraints
    (P : Expansion -> R -> Prop) w n r usedFallback diagnostics :
  0 < concurrency -> 0 < maxQueueDepth <= MAX_SAFE_INTEGER ->
  reachable maxQueueDepth concurrency batchEnabled batchConstraints (honest P) w ->
  (n, Fulfilled r usedFallback diagnostics) ∈ settled (sched w) ->
  exists e, expansions (env w) n = Some (inl e) /\ P e r.
Proof.
  intros Hc Hm Hr Hin.
  assert (inv maxQueueDepth concurrency P w) as [[_ _ Hset _ _ _] _ _]
    by (apply (scheduler_inv maxQueueDepth concurrency batchEnabled batchConstraints); [lia..|done]).
  by eapply Hset.
Qed.

(** C29: The scheduler drains: from any reachable state its own steps (a run resumes,
    its owner answers) are at most five per queued task plus the work of the
    running batches, and as long as a task is left and the expansions the runs
    wait for have settled, such a step is possible.  The owner may fail at will. *)
Theorem scheduler_drains {R : Type} maxQueueDepth concurrency batchEnabled batchConstraints
    (w : @World R) :
  0 < concurrency -> 0 < maxQueueDepth <= MAX_SAFE_INTEGER ->
  reachable maxQueueDepth concurrency batchEnabled batchConstraints (fun _ _ => True) w ->
  let drain := drain maxQueueDepth concurrency batchEnabled batchConstraints (fun _ _ => True) in
  (forall k w', nsteps drain k w w' -> Z.of_nat k + work (sched w') <= work (sched w))
  /\ ((forall r, r ∈ runs (sched w) -> expansions (env w) (id (first r)) <> None) ->
      tasks_of (sched w) <> [] -> exists w', drain w w').
Proof.
  intros Hc Hm Hr drain.
  split.
  - intros k w' Hk. revert Hr. induction Hk as [w|k w w1 w2 Hd Hk IH]; intros Hr; [lia|].
    pose proof (drain_work maxQueueDepth concurrency batchEnabled batchConstraints _ _ _ _
      (any_inv _ _ _ _ _ Hc Hm Hr) ltac:(lia) Hd) as Hlt.
    specialize (IH ltac:(eapply rtc_r; [exact Hr|by apply drain_step])). lia.
  - intros Hknown Hne. apply (drain_progress maxQueueDepth concurrency batchEnabled batchConstraints
      (fun _ _ => True)); [lia|by eapply any_inv|done..].
Qed.

(** C39: A malformed expansion makes its neighbour fail: when the expansion of the
    first queued task is ready and invalid, the run in front of it, whose own
    expansion is valid and may be committed, rejects its task with the error of
    the other one. *)
Theorem invalid_neighbour_rejects_valid {R : Type} maxQueueDepth concurrency batchConstraints
    env l1 l2 q1 e1 p1 q2 e2 rest m (s : @Scheduler R) :
  commitBatch q1 = true -> aborted env (id q1) = false ->
  planUserMduKzgBatch [e1] (constraints_of (effectiveBatchConstraints batchConstraints (counters s))) = Ok p1 ->
  count p1 = 1 ->
  queue s = q2 :: rest -> commitBatch q2 = true -> aborted env (id q2) = false ->
  expansions env (id q2) = Some (inl e2) -> describeUserMduKzgExpansionShape e2 = Err m ->
  resume maxQueueDepth concurrency true batchConstraints env l1 l2 q1 (inl e1) s
  = fail_run concurrency env l1 l2 [q1] (plain m) s.
Proof.
  intros Hb1 Ha1 Hp1 Hcount Hq Hb2 Ha2 He2 Hbad. unfold resume. rewrite Ha1. unfold collectReadyBatch.
  rewrite Hp1. cbn [bind negb orb]. rewrite Hb1, Hq. cbn [negb collect]. rewrite Hb2, Ha2, He2. cbn [negb orb].
  cbn [map app expansion]. enough (planUserMduKzgBatch [e1; e2]
    (constraints_of (effectiveBatchConstraints batchConstraints (counters s))) = Err m) as -> by done.
  revert Hp1. unfold planUserMduKzgBatch. cbn [plan_loop].
  destruct (describeUserMduKzgExpansionShape e1) as [sh|]; cbn [bind]; [|done].
  repeat (destruct (_ <? _); [by intros [= <-]|]). intros _. by rewrite Hbad.
Qed.

(** ** Instances *)

Definition sample_constraints : NormalizedConstraints :=
  normalizeUserMduKzgBatchConstraints
    {| opt_maxBatchMdus := None; opt_maxBatchBlobs := None; opt_maxBatchBytes := None;
       opt_maxEstimatedMemoryBytes := None |}.
Definition sample_task : Task := {| t_sequence := int 0; t_commitBatch := true; t_fallback := true |}.
Definition sample_queued : QueuedTask :=
  {| id := 0; sequence := 0; commitBatch := true; fallback := true; depthAtEnqueue := 0;
     activeAtEnqueue := 0 |}.
Definition sample_single_plan : UserMduKzgBatchPlan :=
  {| count := 1; blobs := 2; plan_bytes := 262144; estimatedMemoryBytes := 524384; reason := r_planned;
     shape := Some {| sh_k := 1; sh_m := 1; sh_shardLen := 131072; shardCount := 2; blobCount := 2;
                      byteLength := 262144 |} |}.

Lemma sample_single_planned :
  planUserMduKzgBatch [sample_expansion] (constraints_of sample_constraints) = Ok sample_single_plan.
Proof. vm_compute. reflexivity. Qed.

(** One task is enqueued, expanded, resumed and answered with 7. *)
Definition enqueued : @World Z :=
  {| env := env (@initial_world Z);
     sched := enqueue 32 1 (env (@initial_world Z)) 0 sample_task initial_scheduler; calls := [0%nat] |}.
Definition expanded : @World Z :=
  {| env := learn 0 (inl sample_expansion) (env enqueued); sched := sched enqueued; calls := [0%nat] |}.
Definition sample_meta : BatchMeta :=
  {| meta_plan := sample_single_plan; splitCountAtStart := 0; fallbackCountAtStart := 0 |}.
Definition sample_item : BatchItem := {| queued := sample_queued; expansion := sample_expansion |}.
Definition resumed : @World Z :=
  {| env := env expanded;
     sched := {| queue := [];
                 runs := [{| first := sample_queued;
                             at_stage := Committing [sample_item] sample_meta [] [[sample_item]] Calling |}];
                 settled := []; counters := batch_counters 1 sample_single_plan initial_counters |};
     calls := [0%nat] |}.

Lemma resumed_sched :
  resume 32 1 true sample_constraints (env expanded) [] [] sample_queued (inl sample_expansion) (sched expanded)
  = sched resumed.
Proof.
  unfold resume. cbn [aborted env expanded learn enqueued initial_world].
  unfold collectReadyBatch. change (effectiveBatchConstraints sample_constraints _) with sample_constraints.
  rewrite sample_single_planned. reflexivity.
Qed.

Lemma expanded_reachable honest :
  reachable 32 1 true sample_constraints honest expanded.
Proof.
  eapply rtc_l; [apply (step_enqueue _ _ _ _ _ _ 0%nat sample_task); apply not_elem_of_nil|].
  eapply rtc_l; [|apply rtc_refl].
  apply (step_expansion _ _ _ _ _ enqueued 0%nat (inl sample_expansion)). reflexivity.
Qed.

Lemma resumed_reachable honest : reachable 32 1 true sample_constraints honest resumed.
Proof.
  eapply rtc_r; [apply expanded_reachable|].
  change resumed with {| env := env expanded; sched := sched resumed; calls := [0%nat] |}.
  rewrite <- resumed_sched. apply (step_resume _ _ _ _ _ expanded [] sample_queued []); reflexivity.
Qed.

Lemma scheduler_settles_each_once_witness :
  reachable 32 1 true sample_constraints (fun _ _ => True) resumed
  /\ map id (tasks_of (sched resumed)) ++ (settled (sched resumed)).*1 ≡ₚ [0%nat].
Proof.
  pose proof (resumed_reachable (fun _ _ => True)) as Hr. split; [exact Hr|].
  destruct (scheduler_settles_each_once 32 1 true sample_constraints resumed ltac:(lia)
    ltac:(unfold MAX_SAFE_INTEGER; lia) Hr) as [H _]. exact H.
Defined.

Lemma scheduler_own_result_witness :
  exists w d, reachable 32 1 true sample_constraints (honest (fun _ r => r = 7)) w
    /\ (0%nat, Fulfilled 7 false d) ∈ settled (sched w)
    /\ exists e, expansions (env w) 0 = Some (inl e).
Proof.
  pose proof (step_answer 32 1 true sample_constraints (honest (fun _ r => r = 7)) resumed []
    sample_queued [sample_item] sample_meta [] [sample_item] [] Calling [] (Value 7)
    eq_refl I eq_refl) as Hstep.
  set (w := {| env := env resumed |}) in Hstep.
  exists w. eexists. split; [|split].
  - eapply rtc_r; [apply resumed_reachable|exact Hstep].
  - left.
  - destruct (scheduler_own_result 32 1 true sample_constraints (fun _ r => r = 7) w 0%nat 7 false
      (makeDiagnostics 32 sample_constraints (sched resumed) sample_queued [sample_item] sample_meta 0))
      as (e & He & _); [lia|unfold MAX_SAFE_INTEGER; lia|eapply rtc_r; [apply resumed_reachable|exact Hstep]| |].
    + left.
    + by exists e.
Defined.

Lemma scheduler_drains_witness :
  exists w', drain 32 1 true sample_constraints (fun _ _ => True) expanded w'.
Proof.
  apply (scheduler_drains 32 1 true sample_constraints expanded ltac:(lia)
    ltac:(unfold MAX_SAFE_INTEGER; lia) (expanded_reachable _)).
  - intros r Hr. change (runs (sched expanded)) with [{| first := sample_queued;
      at_stage := @AwaitExpansion Z |}] in Hr. apply list_elem_of_singleton in Hr as ->. discriminate.
  - discriminate.
Defined.

Definition bad_expansion : Expansion :=
  {| shardsFlat := []; shardLen := int 1; e_k := None; e_m := None |}.
Definition sample_env : Env :=
  {| expansions := fun n => Some (inl (if decide (n = 1%nat) then bad_expansion else sample_expansion));
     aborted := fun _ => false |}.
Definition second_queued : QueuedTask :=
  {| id := 1; sequence := 1; commitBatch := true; fallback := true; depthAtEnqueue := 0;
     activeAtEnqueue := 1 |}.
Definition sample_state : @Scheduler Z := set_queue [second_queued] initial_scheduler.

Lemma invalid_neighbour_rejects_valid_witness :
  resume 32 1 true sample_constraints sample_env [] [] sample_queued (inl sample_expansion) sample_state
  = fail_run 1 sample_env [] [] [sample_queued] (plain "shardsFlat must not be empty") sample_state.
Proof.
  apply (invalid_neighbour_rejects_valid 32 1 sample_constraints sample_env [] [] sample_queued
    sample_expansion sample_single_plan second_queued bad_expansion []);
    first [exact sample_single_planned | reflexivity].
Defined.
